(* ===== verification/_CoqProject ===== *)
-Q . S2P
Prelude.v
Endian.v
FmtInt.v
Throws.v
Fmt.v
Bigint.v
FloatFallback.v
Grisu.v
LogFile.v
CircularQ.v
SpdLogger.v
PatternFormatter.v
Logger.v
ProgramStart.v
Inet.v
SockKernel.v
NetSocket.v
Buffer.v
StdMap.v
Timestamp.v
HttpRequest.v
HttpContext.v
UnitTests.v
HttpGrammar.v
HttpResponse.v
Channel.v
Epoller.v
TimerQueue.v
Reactor.v
EventLoop.v
LoopThreads.v
ReactorLoop.v
Acceptor.v
Connector.v
TcpConnection.v
TcpFlow.v
HttpServer.v
Monitor.v
BlockingQueues.v
CountDownLatch.v
ThreadPool.v
BoostPool.v
AsyncQueue.v
AsyncLogger.v
Exception.v
LoopPool.v
ConnFrame.v
TcpServer.v
ServerInv.v
ServerLife.v
ServerProps.v
ServerUser.v
HttpService.v
EchoServer.v
ChargenServer.v
TcpClient.v
ClientInv.v
ClientLife.v
ClientProps.v
ClientSteps.v
