(* ===== verification/Prelude.v ===== *)
(** * Ham: a multi-reactor TCP and HTTP library, modelled and proved

    Ham (src/ham) is a C++ network library in the style of muduo.  This development
    translates it file by file into executable definitions and proves what makes its parts
    correct, and how they behave together, down to the bugs found on the way.

    ** The program and its model

    Buffers and times, on which the rest stands:
    - Endian.v (net/Endian.h): byte order conversions for hosts of either byte order.
    - Buffer.v (net/Buffer.h, Buffer.cc): the vector with its two indices; pointers are offsets.
    - Timestamp.v (base/Timestamp.h/.cc): int64 microseconds, intervals as IEEE doubles.
    - StdMap.v: std::map and std::set as sorted association lists.
    - Exception.v (base/Exception.h/.cc): the exception and its stack trace.

    The event loop of one thread:
    - Channel.v (net/Channel.h/.cc): a descriptor with its event mask and callbacks.
    - Epoller.v (net/Epoller.h/.cc): the poller; the kernel's side of epoll is a class with laws.
    - TimerQueue.v (net/Timer.h/.cc, TimerId.h, TimerQueue.h/.cc): timers and the timer descriptor.
    - EventLoop.v (net/EventLoop.h/.cc): the loop, its wakeup descriptor and pending functors.
    - Reactor.v is what a loop promises to the objects in it (a class with laws), and
      ReactorLoop.v proves that EventLoop.v's loop keeps the promise.  Everything above the
      loop is proved against Reactor.v.

    Threads, as transition systems that interleave the accesses to shared state:
    - LoopThreads.v: queueInLoop and quit from any thread, against a running loop.
    - Monitor.v: mutexes and condition variables, for BlockingQueues.v (base/BlockingQueue.h,
      BoundedBlockingQueue.h), CountDownLatch.v, ThreadPool.v (base/) and the pools below.
    - LoopPool.v (net/EventLoopThread.h/.cc, EventLoopThreadPool.h/.cc).

    Connections and those who own them:
    - Inet.v (net/InetAddress.h/.cc, SocketOps.h/.cc), NetSocket.v (net/Socket.h/.cc, the owner of a
      descriptor) and SockKernel.v, the descriptors and sockets of the process as a class with laws.
    - Acceptor.v, Connector.v, TcpConnection.v (the files of the same name in net/).  TcpFlow.v
      has the theorems on one connection, ConnFrame.v what its code leaves alone.
    - TcpServer.v (net/TcpServer.h/.cc): acceptor, registry, loops and connection objects in one
      world.  ServerInv.v states its invariant, ServerLife.v proves that every step keeps it,
      ServerProps.v draws the conclusions, ServerUser.v is for user code on top.
    - TcpClient.v (net/TcpClient.h/.cc): a client, its connector and its connections in one world.
      ClientInv.v states its invariant, ClientLife.v proves that connections, functors and timers
      keep it, ClientSteps.v that every step does; ClientProps.v has the single scenarios.

    HTTP and the example programs:
    - HttpRequest.v, HttpContext.v, HttpResponse.v, HttpServer.v (net/http/), HttpGrammar.v
      for what the parser accepts, HttpService.v for the server on its TcpServer.
    - EchoServer.v, ChargenServer.v (src/examples/simple), UnitTests.v (the tests of the buffer
      and of the HTTP parser, run on the model).
    - BoostPool.v (src/benchmarks/threadPool_benchmark): the pool of the benchmark.

    Logging:
    - Throws.v: computations that throw, crash or return on a state that survives an exception.
    - LogFile.v (src/thirdParty/spdlog: details/file_helper, sinks/rotating_file_sink, the file
      part of details/os): the log file and its rotation, against a file system with laws.
    - CircularQ.v (details/circular_q.h, backtracer): the queue of the last messages.
    - SpdLogger.v (logger, details/registry, the two sinks that Ham uses): what is logged where.
    - PatternFormatter.v (pattern_formatter, details/fmt_helper.h): patterns and lines.
    - FmtInt.v and Fmt.v (fmt/bundled/format.h, core.h): integers and format strings, as the log
      macros use them.  Bigint.v, FloatFallback.v and Grisu.v (fmt/bundled/format-inl.h): the
      digits of floating-point numbers with a given precision.
    - Logger.v (base/Log.h/.cc): Ham's own logger on top of these.  ProgramStart.v: the objects of
      net/EventLoop.cc that set it up before main.
    - AsyncQueue.v (details/mpmc_blocking_q.h, thread_pool) and AsyncLogger.v (async_logger): logging
      through a pool of workers.

    Definitions keep the names of the code.  A class is a Record of its members; a member
    function takes the object and returns the new one; constructors and destructors are
    [X_ctor] and [X_dtor].  Objects that are shared live in a store at addresses, so that
    aliasing is as in the code.  A std::function is a token, and a parameter ([invoke],
    [call], [user]) interprets it: callbacks may change the world they are called from.

    ** Errors

    [outcome] below is the result of an operation: a value, or the way the process stops
    (failed assertion, abort, an access outside of an object, an exception that nobody
    catches).  The code is modelled with its assertions on, as its default build has them.
    The models below Logger.v leave out the log lines and the console output of the code they
    translate.  In the logging files an exception can be caught, so there a computation keeps its
    state when it throws (Throws.v).  Machine integers wrap at their width where
    C++ says so; signed overflow is a fault.

    ** What is proved

    - Data: a buffer refines a queue of bytes, integers and request messages round-trip, a
      message parsed in pieces is parsed as a whole, a response is serialised in full.
    - One loop: channel operations keep poller and kernel in step, timers are served when
      due and the timer descriptor stays armed.
    - Threads: functors run once and in order, no wakeup is lost, in every interleaving;
      queues, latch and pool are correct, and once stop has cleared the flag the pool comes to rest
      after finitely many steps.  A loop thread starts and is ended by its owner; only the rest of
      the call of quit that ends a loop may touch it after its end.
    - One connection: bytes go out in order, and the end of stream after them.
    - A server over any number of loops: from construction on, over any steps, the
      registry, the connection objects, their channels and the pending functors agree; a
      connection that the peer closes is torn down completely; a request is answered.
    - A client connects, reconnects when it should and closes when it is destroyed; in every state
      that events, calls, callbacks and functors reach, its invariant holds.
    - Logging: after init, the console shows exactly the messages at or above the level, in
      order, and while the file system works the log files end with them; a rotation loses only
      the oldest part of the log; a backtrace is the last messages; a pattern is compiled to
      what was written in it, and caching of times does not change the lines; a format string
      prints what an independent specification of its fields says, or is refused, and never
      leaves a buffer.  Floating-point numbers are rounded correctly.
    - Asynchronous logging keeps the order of the messages, ends when its pool is let go of, and
      writes what logging at once writes.
    - Before main, the logger is set up or the failure is reported.
    - Errors: the cases where the code stops or misbehaves, each stated as a theorem about
      the model (messages sent while output is pending are dropped, a request in two pieces is
      refused, two timers due in one microsecond fail an assertion, the parser loops once it
      has a request, a late send breaks the teardown, a client's connector cannot retry, a loop
      can be destroyed under the call of quit that ends it, the failure of a flush loses messages
      unseen, an exception thrown below an unnamed frame crashes).

    Each theorem with hypotheses has a witness, [name_witness], on a small concrete world:
    [sim_kernel] for epoll, [sim_net] for descriptors, [sim_socket] for a connection, [sim_fs]
    for the files of the log.

    ** Bounds and fuel

    The loops of the code are structural recursions, except these.  HttpContext::parseRequest
    takes the fuel [parse_fuel], two more than the number of readable bytes, and
    HttpContext.v proves it enough from every state but kGotAll, from which no fuel is enough.
    EventLoop::loop takes the number of iterations as fuel, as it is meant to run until quit.
    The loops over paths, patterns and queues take the length of what they walk through
    (create_dir one more, foreach_pop the capacity of the queue), and never run out.  The digits
    of a number take at most the size of their buffer, or one step more than its bits.  A decimal
    digit of a quotient of big integers takes [digit_fuel] = 10 subtractions, the digits before
    the point of a 64-bit number 10 steps and those behind it 20, normalising a significand 64,
    a power of ten 32; the theorems on the printing of floats, which give a result, show that
    these are enough.  The pool of the benchmark clears a priority queue in as many steps as it
    has tasks.
    Vectors grow up to [vector_max_size] = 2^63 - 1 bytes, and theorems that need room say so.

    ** Choices of the model

    - A critical section is one step, and so is what a loop's thread does to its own objects.
      User code acts on connections and clients in the thread of their loop.  From another
      thread send, shutdown and forceClose test the state, change it and queue a functor without
      a lock, the first two with a raw pointer: ClientSteps.v and ServerProps.v take such calls
      apart and show what becomes of them when the connection is torn down in between.
    - EventLoop::quit from another thread is its three accesses to the loop in LoopPool.v; in
      LoopThreads.v, where the loop outlives the callers, the wakeup is a step of its own.
    - The logger is used by one thread at a time: two threads that race through Logger::init are
      not covered.  The clock does not change during one call; the pool's worker has its own time.
    - The file system of the log takes paths for files (no two names of one file).  Every call may
      fail; fflush and fclose, whose results the code ignores, then lose what was buffered, and
      [fs_failures] counts it.
    - User callbacks of a server are any that keep its invariant; [scripted] callbacks
      (sending, shutting down, closing, reading, changing their own data) do.
    - shared_ptr::unique in TcpClient is a count of the references outside of the client and of
      those that pending functors hold.

    ** Not modelled

    Casts and typedefs (base/Types.h, Util.h, Atomic.h, copyable.h, net/Callbacks.h), Singleton.h
    and CurrentThread.h (function-local and thread-local statics), the tests that start servers or
    print, the benchmark program around its pool.  Calls on a connection or a client from other
    threads, but for the examples above.  Of the vendored spdlog: what Ham does not use (other
    sinks, the periodic flusher, custom flags, levels from the environment), and of fmt what the
    macros do not reach: the shortest floats, long double and hexadecimal floats, the writing of
    a float's digits with its point, 128-bit, named and user-defined arguments, locales that
    group digits, dates, printf, colours.  The broken-down local time, the time zone and the
    process id are parameters of PatternFormatter.v.

    ** Next

    The log calls themselves inside the network code, whose models leave them out; two threads
    that race through Logger::init; the calls on a connection from other threads as steps of
    TcpServer.v, with what can still be promised then.

    This file holds what all the others share: faults and the outcome monad with its notation
    and tactics, machine integers, bytes, lists indexed by integers, searching, printing of
    numbers. *)
From stdpp Require Export prelude gmap list strings sorting pretty.
From Stdlib Require Export ZArith.
From Stdlib Require Strings.Byte Strings.String.
From Stdlib Require Export Init.Byte.
Open Scope Z_scope.

(** ** Faults and the outcome monad

    The code runs with assertions on (the default build type of CMakeLists.txt is
    Debug).  An operation either returns or stops in one of these ways. *)
Inductive fault :=
| AssertFailed   (* assert(...) of <assert.h> *)
| Aborted        (* the CRITICAL macro of base/Log.h, which ends in abort() *)
| OutOfRange     (* a read or write outside of the object: undefined behaviour *)
| InvalidRange   (* std::string(first, last) with last < first *)
| LengthError    (* std::length_error of std::vector::resize *)
| NullPointer    (* a null or dangling pointer is dereferenced *)
| BadWeakPtr     (* shared_from_this() of an object no shared_ptr owns *)
| NotCallable    (* std::bad_function_call *)
| BadAnyCast     (* boost::bad_any_cast *)
| OutOfFuel.     (* the loop is still running when the model's fuel is used up *)

#[export] Instance fault_eq_dec : EqDecision fault.
Proof. solve_decision. Defined.

Inductive outcome (A : Type) :=
| Ok (a : A)
| Err (f : fault).
Arguments Ok {A} a.
Arguments Err {A} f.

(** [m ↯ f]: the operation stops with fault [f]. *)
Declare Scope ham_scope.
Notation "m '↯' f" := (m = Err f) (at level 70, no associativity) : ham_scope.
Open Scope ham_scope.

#[export] Instance outcome_ret : MRet outcome := λ A a, Ok a.
#[export] Instance outcome_bind : MBind outcome :=
  λ A B k m, match m with Ok a => k a | Err f => Err f end.
#[export] Instance outcome_fmap : FMap outcome :=
  λ A B g m, match m with Ok a => Ok (g a) | Err f => Err f end.

Definition assert_ (b : bool) : outcome unit := if b then Ok tt else Err AssertFailed.

(** Total correctness: the operation returns, and its result satisfies [Q]. *)
Definition returns {A} (m : outcome A) (Q : A → Prop) : Prop :=
  match m with Ok a => Q a | Err _ => False end.

Section outcome_laws.
Context {A B : Type}.
Implicit Types (m : outcome A) (k : A → outcome B).

Lemma returns_bind m k (Q : B → Prop) :
  returns m (λ a, returns (k a) Q) → returns (m ≫= k) Q.
Proof. by destruct m. Qed.

Lemma returns_mono m (P Q : A → Prop) :
  returns m P → (∀ a, P a → Q a) → returns m Q.
Proof. destruct m; simpl; auto. Qed.

Lemma returns_then m k (P : A → Prop) (Q : B → Prop) :
  returns m P → (∀ a, P a → returns (k a) Q) → returns (m ≫= k) Q.
Proof. destruct m; simpl; auto. Qed.

Lemma returns_inv m (Q : A → Prop) : returns m Q → ∃ a, m = Ok a ∧ Q a.
Proof. destruct m; simpl; [eauto | done]. Qed.

Lemma bind_Ok_inv m k (b : B) :
  m ≫= k = Ok b → ∃ a, m = Ok a ∧ k a = Ok b.
Proof. destruct m; simpl; [eauto | discriminate]. Qed.
End outcome_laws.

Lemma assert_true (b : bool) : b = true → assert_ b = Ok tt.
Proof. by intros ->. Qed.

Lemma assert_false (b : bool) : b = false → assert_ b = Err AssertFailed.
Proof. by intros ->. Qed.

Lemma assert_Ok_inv (b : bool) u : assert_ b = Ok u → b = true.
Proof. by destruct b. Qed.

(** Goes past a [bind] whose first operation was rewritten to its result. *)
Ltac ok_simpl := cbn [mbind outcome_bind].
Tactic Notation "ok_simpl" "in" hyp(H) := cbn [mbind outcome_bind] in H.

(** Walks through a monadic hypothesis [m ≫= k = Ok b]. *)
Ltac outcome_inv :=
  repeat match goal with
    | H : mbind _ _ = Ok _ |- _ =>
        apply bind_Ok_inv in H; destruct H as (? & ? & ?)
    | H : assert_ _ = Ok _ |- _ => apply assert_Ok_inv in H
    | H : Ok _ = Ok _ |- _ => injection H as H; try subst
    | H : mret _ = Ok _ |- _ => injection H as H; try subst
    | H : Err _ = Ok _ |- _ => discriminate H
    | x : (_ * _)%type |- _ => destruct x
  end; simpl in *.

(** ** Machine integers

    A [w]-bit unsigned integer is a [Z] in [0, 2^w), a signed one a [Z] in
    [-2^(w-1), 2^(w-1)). *)
Definition wrapu (w z : Z) : Z := z mod 2 ^ w.
Definition wraps (w z : Z) : Z := (z + 2 ^ (w - 1)) mod 2 ^ w - 2 ^ (w - 1).
Abbreviation u64 := (wrapu 64).
Abbreviation i64 := (wraps 64).
Abbreviation u32 := (wrapu 32).
Abbreviation i32 := (wraps 32).

Definition in_u (w z : Z) : Prop := 0 ≤ z < 2 ^ w.
Definition in_s (w z : Z) : Prop := - 2 ^ (w - 1) ≤ z < 2 ^ (w - 1).

Lemma wrapu_small w z : in_u w z → wrapu w z = z.
Proof. intros H. by apply Z.mod_small. Qed.

Lemma u64_small z : 0 ≤ z < 2 ^ 64 → u64 z = z.
Proof. apply wrapu_small. Qed.

Lemma wrapu_range w z : 0 ≤ w → in_u w (wrapu w z).
Proof. intros. apply Z.mod_pos_bound. by apply Z.pow_pos_nonneg. Qed.

Lemma pow2_half w : 0 < w → 2 ^ w = 2 * 2 ^ (w - 1).
Proof. intros. rewrite <- Z.pow_succ_r by lia. f_equal; lia. Qed.

Lemma wraps_small w z : 0 < w → in_s w z → wraps w z = z.
Proof.
  unfold in_s, wraps. intros Hw H. pose proof (pow2_half w Hw).
  rewrite Z.mod_small; lia.
Qed.

Lemma wraps_range w z : 0 < w → in_s w (wraps w z).
Proof.
  unfold in_s, wraps. intros Hw. pose proof (pow2_half w Hw).
  pose proof (Z.mod_pos_bound (z + 2 ^ (w - 1)) (2 ^ w)).
  assert (0 < 2 ^ w) by (apply Z.pow_pos_nonneg; lia). lia.
Qed.

(** Casting to unsigned and back to signed is the identity on signed values. *)
Lemma wraps_wrapu w z : 0 < w → wraps w (wrapu w z) = wraps w z.
Proof.
  intros Hw. unfold wraps, wrapu. f_equal. rewrite Zplus_mod_idemp_l. done.
Qed.

(** ** Bytes *)
#[export] Instance byte_eq_dec : EqDecision byte := Byte.byte_eq_dec.

(** The bytes of a string literal. *)
Definition str (s : string) : list byte := String.list_byte_of_string s.
Definition CRLF : list byte := [x0d; x0a].

Definition byte_val (b : byte) : Z := Z.of_N (Byte.to_N b).
Definition byte_of (z : Z) : byte :=
  match Byte.of_N (Z.to_N (z mod 256)) with Some b => b | None => x00 end.

Lemma byte_val_range b : 0 ≤ byte_val b < 256.
Proof.
  unfold byte_val. pose proof (Byte.to_N_bounded b). lia.
Qed.

Lemma byte_val_of z : byte_val (byte_of z) = z mod 256.
Proof.
  unfold byte_val, byte_of.
  pose proof (Z.mod_pos_bound z 256 ltac:(lia)).
  destruct (Byte.of_N _) as [b|] eqn:E.
  - apply Byte.to_of_N in E. rewrite E. lia.
  - apply Byte.of_N_None_iff in E. lia.
Qed.

Lemma byte_of_val b : byte_of (byte_val b) = b.
Proof.
  unfold byte_of. rewrite Z.mod_small by apply byte_val_range.
  unfold byte_val. rewrite N2Z.id, Byte.of_to_N. done.
Qed.

(** ** Lists indexed by integers *)
Definition zlen {A} (l : list A) : Z := Z.of_nat (length l).

(** The elements from [i] (included) to [j] (excluded). *)
Definition slice {A} (i j : Z) (l : list A) : list A :=
  take (Z.to_nat (j - i)) (drop (Z.to_nat i) l).

(** [std::copy] of [d] to position [i] of the vector [l]. *)
Definition write_at {A} (i : Z) (d l : list A) : outcome (list A) :=
  if (0 <=? i) && (i + zlen d <=? zlen l)
  then Ok (take (Z.to_nat i) l ++ d ++ drop (Z.to_nat (i + zlen d)) l)
  else Err OutOfRange.

(** Evaluating the read [l[i]]. *)
Definition read_at {A} (i : Z) (l : list A) : outcome A :=
  if 0 <=? i
  then match l !! Z.to_nat i with Some x => Ok x | None => Err OutOfRange end
  else Err OutOfRange.

Section zlist.
Context {A : Type}.
Implicit Types (l d : list A) (i j k : Z).

Lemma zlen_nonneg l : 0 ≤ zlen l.
Proof. unfold zlen. lia. Qed.

Lemma zlen_nil : zlen (@nil A) = 0.
Proof. done. Qed.

Lemma zlen_cons (x : A) l : zlen (x :: l) = zlen l + 1.
Proof. unfold zlen. simpl. lia. Qed.

Lemma zlen_app l d : zlen (l ++ d) = zlen l + zlen d.
Proof. unfold zlen. rewrite length_app. lia. Qed.

Lemma zlen_replicate n (x : A) : zlen (replicate n x) = Z.of_nat n.
Proof. unfold zlen. by rewrite length_replicate. Qed.

Lemma zlen_take n l : zlen (take n l) = Z.min (Z.of_nat n) (zlen l).
Proof. unfold zlen. rewrite length_take. lia. Qed.

Lemma zlen_drop n l : zlen (drop n l) = Z.max 0 (zlen l - Z.of_nat n).
Proof. unfold zlen. rewrite length_drop. lia. Qed.

Lemma zlen_0_inv l : zlen l = 0 → l = [].
Proof. destruct l; [done | unfold zlen; simpl; lia]. Qed.

Lemma slice_lookup i j l (k : nat) :
  0 ≤ i → slice i j l !! k = if decide (Z.of_nat k < j - i)
                             then l !! Z.to_nat (i + Z.of_nat k) else None.
Proof.
  intros Hi. unfold slice. case_decide.
  - rewrite lookup_take_lt, lookup_drop by lia. f_equal. lia.
  - rewrite lookup_take_ge; [done | lia].
Qed.

Lemma zlen_slice i j l : 0 ≤ i ≤ j → j ≤ zlen l → zlen (slice i j l) = j - i.
Proof. intros. unfold slice. rewrite zlen_take, zlen_drop. lia. Qed.

Lemma slice_nil i j l : j ≤ i → slice i j l = [].
Proof. intros. unfold slice. replace (Z.to_nat (j - i)) with 0%nat by lia. done. Qed.

Lemma slice_full l : slice 0 (zlen l) l = l.
Proof. unfold slice, zlen. rewrite drop_0, take_ge; [done | lia]. Qed.

Lemma slice_0_take j l : slice 0 j l = take (Z.to_nat j) l.
Proof. unfold slice. by rewrite Z.sub_0_r, drop_0. Qed.

Lemma slice_to_end i l : 0 ≤ i → slice i (zlen l) l = drop (Z.to_nat i) l.
Proof.
  intros. unfold slice. rewrite take_ge; [done|].
  rewrite length_drop. unfold zlen. lia.
Qed.

Lemma slice_split i j k l :
  0 ≤ i ≤ j → j ≤ k → slice i k l = slice i j l ++ slice j k l.
Proof.
  intros. unfold slice.
  replace (Z.to_nat (k - i)) with (Z.to_nat (j - i) + Z.to_nat (k - j))%nat by lia.
  replace (Z.to_nat j) with (Z.to_nat i + Z.to_nat (j - i))%nat by lia.
  rewrite <- drop_drop. generalize (drop (Z.to_nat i) l) as r. intros r.
  generalize (Z.to_nat (j - i)) as a, (Z.to_nat (k - j)) as b. clear.
  intros a b. rewrite <- (take_drop a r) at 1.
  destruct (decide (a ≤ length r)%nat).
  - rewrite take_app_ge; rewrite length_take; [|lia].
    f_equal. f_equal. lia.
  - rewrite drop_ge, app_nil_r, take_nil, app_nil_r by lia.
    rewrite take_ge; [done | rewrite length_take; lia].
Qed.

Lemma slice_slice i j a b l :
  0 ≤ i → 0 ≤ a → b ≤ j - i → slice a b (slice i j l) = slice (i + a) (i + b) l.
Proof.
  intros. apply list_eq. intros n. rewrite !slice_lookup by lia.
  repeat case_decide; try lia; try done. f_equal. lia.
Qed.

Lemma drop_slice i j (n : Z) l :
  0 ≤ i → 0 ≤ n → drop (Z.to_nat n) (slice i j l) = slice (i + n) j l.
Proof.
  intros. apply list_eq. intros m. rewrite lookup_drop, !slice_lookup by lia.
  repeat case_decide; try lia; try done. f_equal. lia.
Qed.

Lemma take_slice i j (n : Z) l :
  0 ≤ i → n ≤ j - i → take (Z.to_nat n) (slice i j l) = slice i (i + n) l.
Proof.
  intros. apply list_eq. intros m. rewrite lookup_take, !slice_lookup by lia.
  repeat case_decide; try lia; done.
Qed.

Lemma slice_app_l i j l d : 0 ≤ i → j ≤ zlen l → slice i j (l ++ d) = slice i j l.
Proof.
  intros. apply list_eq. intros n. rewrite !slice_lookup by lia.
  case_decide; [|done]. apply lookup_app_l. unfold zlen in *. lia.
Qed.

Lemma write_at_ok i d l :
  0 ≤ i → i + zlen d ≤ zlen l →
  write_at i d l = Ok (take (Z.to_nat i) l ++ d ++ drop (Z.to_nat (i + zlen d)) l).
Proof. intros. unfold write_at. by rewrite !(proj2 (Z.leb_le _ _)) by lia. Qed.

Lemma write_at_inv i d l l' :
  write_at i d l = Ok l' →
  0 ≤ i ∧ i + zlen d ≤ zlen l ∧
  l' = take (Z.to_nat i) l ++ d ++ drop (Z.to_nat (i + zlen d)) l.
Proof.
  unfold write_at. destruct (_ && _) eqn:E; [|done].
  apply andb_true_iff in E as [?%Z.leb_le ?%Z.leb_le]. by intros [= <-].
Qed.

Lemma write_at_zlen i d l l' : write_at i d l = Ok l' → zlen l' = zlen l.
Proof.
  intros (?&?&->)%write_at_inv. pose proof (zlen_nonneg d).
  rewrite !zlen_app, zlen_take, zlen_drop. lia.
Qed.

Lemma write_at_lookup_ne i d l l' (n : nat) :
  write_at i d l = Ok l' →
  Z.of_nat n < i ∨ i + zlen d ≤ Z.of_nat n → l' !! n = l !! n.
Proof.
  intros (?&?&->)%write_at_inv [?|?]; unfold zlen in *.
  - rewrite lookup_app_l by (rewrite length_take; lia).
    by rewrite lookup_take_lt by lia.
  - rewrite lookup_app_r by (rewrite length_take; lia).
    rewrite lookup_app_r by (rewrite length_take; lia).
    rewrite length_take, lookup_drop. f_equal. lia.
Qed.

Lemma write_at_slice_eq i d l l' :
  write_at i d l = Ok l' → slice i (i + zlen d) l' = d.
Proof.
  intros (?&?&->)%write_at_inv. unfold slice, zlen in *.
  rewrite drop_app_length' by (rewrite length_take; lia).
  rewrite take_app_length' by lia. done.
Qed.

Lemma write_at_slice_ne i d l l' j k :
  write_at i d l = Ok l' → 0 ≤ j → k ≤ i ∨ i + zlen d ≤ j →
  slice j k l' = slice j k l.
Proof.
  intros Hw Hj Hjk. apply list_eq. intros n. rewrite !slice_lookup by done.
  case_decide; [|done]. eapply write_at_lookup_ne; [done|]. lia.
Qed.
End zlist.

Create Rewrite HintDb zlen.
#[export] Hint Rewrite @zlen_nil @zlen_cons @zlen_app @zlen_replicate @zlen_take
  @zlen_drop : zlen.

(** ** std::find and std::search, as the distance from the first iterator *)
Fixpoint std_find {A} `{EqDecision A} (x : A) (l : list A) : nat :=
  match l with
  | [] => 0
  | y :: l' => if decide (y = x) then 0 else S (std_find x l')
  end.

Fixpoint is_prefix {A} `{EqDecision A} (p l : list A) : bool :=
  match p, l with
  | [], _ => true
  | _ :: _, [] => false
  | x :: p', y :: l' => bool_decide (x = y) && is_prefix p' l'
  end.

Fixpoint std_search {A} `{EqDecision A} (p l : list A) : nat :=
  if is_prefix p l then 0%nat
  else match l with [] => 0%nat | _ :: l' => S (std_search p l') end.

Section find.
Context {A : Type} `{EqDecision A}.
Implicit Types (x : A) (l p : list A).

Lemma std_find_le x l : (std_find x l ≤ length l)%nat.
Proof. induction l; simpl; [done | case_decide; lia]. Qed.

Lemma std_find_notin x l : x ∉ l → std_find x l = length l.
Proof.
  induction l as [|y l IH]; simpl; [done|]. intros [? ?]%not_elem_of_cons.
  rewrite decide_False by done. by rewrite IH.
Qed.

Lemma std_find_app x l1 l2 : x ∉ l1 → std_find x (l1 ++ x :: l2) = length l1.
Proof.
  induction l1 as [|y l IH]; simpl; intros Hn.
  - by rewrite decide_True.
  - apply not_elem_of_cons in Hn as [??]. rewrite decide_False by done. by rewrite IH.
Qed.

Lemma std_find_skip x l1 l2 : x ∉ l1 → std_find x (l1 ++ l2) = (length l1 + std_find x l2)%nat.
Proof.
  induction l1 as [|y l1 IH]; [done|]. intros [Hy Hl]%not_elem_of_cons. simpl.
  rewrite decide_False by done. by rewrite IH.
Qed.

Lemma is_prefix_spec p l : is_prefix p l = true ↔ p `prefix_of` l.
Proof.
  revert l. induction p as [|x p IH]; intros [|y l]; simpl.
  - split; [intros; apply prefix_nil | done].
  - split; [intros; apply prefix_nil | done].
  - split; [done | intros H%prefix_length; simpl in H; lia].
  - rewrite andb_true_iff, bool_decide_eq_true, IH. split.
    + intros [-> ?]. by apply prefix_cons.
    + intros H. split; [by eapply prefix_cons_inv_1 | by eapply prefix_cons_inv_2].
Qed.

Lemma std_search_le p l : (std_search p l ≤ length l)%nat.
Proof. induction l; simpl; case_match; lia. Qed.

(** Either the pattern is found at the returned offset, or the end is returned. *)
Lemma std_search_found p l :
  (std_search p l < length l)%nat →
  p `prefix_of` drop (std_search p l) l.
Proof.
  induction l as [|y l IH]; simpl; destruct (is_prefix p _) eqn:E; simpl; try lia.
  - intros. by apply is_prefix_spec.
  - intros. apply IH. lia.
Qed.

Lemma std_search_first p l (n : nat) :
  (n < std_search p l)%nat → ¬ p `prefix_of` drop n l.
Proof.
  revert n. induction l as [|y l IH]; simpl; intros n; destruct (is_prefix p _) eqn:E;
    try lia.
  destruct n as [|n]; simpl; intros ?.
  - rewrite <- is_prefix_spec, E. done.
  - apply IH. lia.
Qed.
End find.

(** Reading the elements from [i] to [j] through a pointer. *)
Definition read_range {A} (i j : Z) (l : list A) : outcome (list A) :=
  if (0 <=? i) && (i <=? j) && (j <=? zlen l) then Ok (slice i j l) else Err OutOfRange.

Lemma read_range_ok {A} i j (l : list A) :
  0 ≤ i ≤ j → j ≤ zlen l → read_range i j l = Ok (slice i j l).
Proof. intros. unfold read_range. by rewrite !(proj2 (Z.leb_le _ _)) by lia. Qed.

(** ** Signed 64-bit arithmetic: overflow is undefined behaviour *)
Definition i64_check (z : Z) : outcome Z :=
  if bool_decide (- 2 ^ 63 ≤ z < 2 ^ 63) then Ok z else Err OutOfRange.

Lemma i64_check_ok z : - 2 ^ 63 ≤ z < 2 ^ 63 → i64_check z = Ok z.
Proof. intros. unfold i64_check. by rewrite bool_decide_true. Qed.

Lemma i64_check_inv z r : i64_check z = Ok r → r = z ∧ - 2 ^ 63 ≤ z < 2 ^ 63.
Proof. unfold i64_check. case_bool_decide; [by intros [= <-] | done]. Qed.

(** ** std::to_string *)
Definition to_string (z : Z) : list byte := str (pretty z).

Lemma str_inj s1 s2 : str s1 = str s2 → s1 = s2.
Proof.
  unfold str. intros H. rewrite <- (String.string_of_list_byte_of_string s1), H.
  apply String.string_of_list_byte_of_string.
Qed.

Lemma to_string_inj z1 z2 : to_string z1 = to_string z2 → z1 = z2.
Proof. intros ?%str_inj. by apply (inj pretty). Qed.

Lemma str_app s1 s2 : str (s1 +:+ s2) = str s1 ++ str s2.
Proof.
  unfold str, String.list_byte_of_string.
  induction s1 as [|c s1 IH]; simpl; [done | by rewrite IH].
Qed.

Definition is_digit (b : byte) : Prop := 48 ≤ byte_val b ≤ 57.

Lemma pretty_N_digits (n : N) : Forall is_digit (str (pretty n)).
Proof.
  assert (∀ (m : N) s, Forall is_digit (str s) → Forall is_digit (str (pretty_N_go m s))) as Hgo.
  { intros m. induction (N.lt_wf_0 m) as [m _ IH]. intros s Hs.
    destruct (decide (0 < m)%N) as [Hm|Hm].
    - rewrite pretty_N_go_step by done. apply IH; [apply N.div_lt; lia|].
      change (str (String ?c s)) with (Ascii.byte_of_ascii c :: str s).
      constructor; [|done]. unfold pretty_N_char. repeat case_match; vm_compute; split; congruence.
    - assert (m = 0%N) as -> by lia. by rewrite pretty_N_go_0. }
  unfold pretty, pretty_N. case_decide.
  - constructor; [vm_compute; split; congruence | constructor].
  - by apply Hgo.
Qed.

Lemma to_string_digits z : 0 ≤ z → Forall is_digit (to_string z).
Proof.
  intros Hz. unfold to_string. destruct z as [|p|p]; [| |lia].
  - repeat constructor; vm_compute; congruence.
  - apply (pretty_N_digits (Npos p)).
Qed.

(** Two digit runs followed by the same non-digit separator are equal. *)
Lemma digits_sep_inj (c : byte) (a1 a2 r1 r2 : list byte) :
  ¬ is_digit c → Forall is_digit a1 → Forall is_digit a2 →
  a1 ++ c :: r1 = a2 ++ c :: r2 → a1 = a2 ∧ r1 = r2.
Proof.
  intros Hc H1. revert a2. induction H1 as [|x a1 Hx H1 IH]; intros a2 H2 E.
  - destruct H2 as [|y a2 Hy H2]; simpl in E; simplify_eq; done.
  - destruct H2 as [|y a2 Hy H2]; simpl in E; [by simplify_eq|].
    injection E as -> E. destruct (IH a2 H2 E) as [-> ->]. done.
Qed.

Lemma slice_mid {A} i j (a b c : list A) :
  i = zlen a → j = zlen a + zlen b → slice i j (a ++ b ++ c) = b.
Proof.
  intros -> ->. unfold slice, zlen.
  rewrite Nat2Z.id, drop_app_length. apply take_app_length'. lia.
Qed.

Lemma read_at_app {A} i (a : list A) x b :
  i = zlen a → read_at i (a ++ x :: b) = Ok x.
Proof.
  intros ->. unfold read_at. pose proof (zlen_nonneg a).
  rewrite (proj2 (Z.leb_le _ _)) by done. unfold zlen. rewrite Nat2Z.id.
  by rewrite list_lookup_middle.
Qed.

(** The search for a two-byte separator stops at the first one when its first byte does
    not occur before. *)
Lemma std_search_app {A} `{EqDecision A} (x y : A) (l r : list A) :
  x ∉ l → std_search [x; y] (l ++ x :: y :: r) = length l.
Proof.
  induction l as [|z l IH]; simpl; intros Hx.
  - by rewrite (bool_decide_true (x = x)), (bool_decide_true (y = y)) by done.
  - apply not_elem_of_cons in Hx as [Hz Hx].
    rewrite bool_decide_false by done. simpl. by rewrite IH.
Qed.

(** Appending to the text does not move a match that lies inside of it. *)
Lemma std_search_app_found {A} `{EqDecision A} (p l r : list A) :
  (std_search p l < length l)%nat → std_search p (l ++ r) = std_search p l.
Proof.
  induction l as [|z l IH]; simpl; [destruct (is_prefix p []); lia|].
  destruct (is_prefix p (z :: l)) eqn:E.
  - intros _. apply is_prefix_spec in E.
    assert (is_prefix p (z :: l ++ r) = true) as ->; [|done].
    apply is_prefix_spec. change (z :: l ++ r) with ((z :: l) ++ r).
    by apply prefix_app_r.
  - intros Hlt. destruct (is_prefix p (z :: l ++ r)) eqn:E'.
    + exfalso. apply is_prefix_spec in E'.
      assert (std_search p l < length l)%nat as Hf by lia.
      pose proof (prefix_length _ _ (std_search_found p l Hf)) as Hlen.
      rewrite length_drop in Hlen.
      assert (z :: l `prefix_of` z :: l ++ r) as Hr by (by exists r).
      destruct (prefix_weak_total _ _ _ E' Hr) as [Hp|Hp].
      * apply is_prefix_spec in Hp. congruence.
      * apply prefix_length in Hp. simpl in Hp. lia.
    + by rewrite IH by lia.
Qed.

(** The slice of a list that is known as a concatenation. *)
Lemma slice_as {A} (pre mid post l : list A) i j :
  l = pre ++ mid ++ post → i = zlen pre → j = zlen pre + zlen mid → slice i j l = mid.
Proof. intros ->. apply slice_mid. Qed.

(** A number below [10^k] has at most [k] digits. *)
Lemma length_str_String (c : Ascii.ascii) (s : string) : length (str (String c s)) = S (length (str s)).
Proof. done. Qed.

Lemma pretty_N_go_length (k : nat) (m : N) (s : string) :
  (m < 10 ^ N.of_nat k)%N → (length (str (pretty_N_go m s)) ≤ k + length (str s))%nat.
Proof.
  revert m s. induction k as [|k IH]; intros m s Hm.
  - assert (m = 0%N) as -> by (simpl in Hm; lia). by rewrite pretty_N_go_0.
  - destruct (decide (0 < m)%N).
    + rewrite pretty_N_go_step by done. etrans; [apply IH|].
      * apply N.Div0.div_lt_upper_bound. rewrite Nat2N.inj_succ, N.pow_succ_r' in Hm. lia.
      * rewrite length_str_String. lia.
    + assert (m = 0%N) as -> by lia. rewrite pretty_N_go_0. lia.
Qed.

Lemma to_string_length (k : nat) (z : Z) :
  (0 < k)%nat → 0 ≤ z < 10 ^ Z.of_nat k → (length (to_string z) ≤ k)%nat.
Proof.
  intros Hk Hz. unfold to_string. destruct z as [|p|p]; [simpl; lia| |lia].
  change (pretty (Z.pos p)) with (pretty (Npos p)). unfold pretty, pretty_N.
  rewrite decide_False by done. etrans; [apply (pretty_N_go_length k)|simpl; lia].
  assert (Z.of_N (N.pos p) < Z.of_N (10 ^ N.of_nat k)) by (rewrite N2Z.inj_pow; simpl; lia). lia.
Qed.

(** A number of at least [10^k] has more than [k] digits. *)
Lemma pretty_N_go_longer (k : nat) (m : N) (s : string) :
  (10 ^ N.of_nat k ≤ m)%N → (k < length (str (pretty_N_go m s)) - length (str s))%nat.
Proof.
  revert m s. induction k as [|k IH]; intros m s Hm.
  - assert (Hgo : ∀ m s, (length (str s) ≤ length (str (pretty_N_go m s)))%nat).
    { intros m'. induction (N.lt_wf_0 m') as [m' _ IHm]; intros s'. destruct (decide (0 < m')%N).
      - rewrite pretty_N_go_step by done. etrans; [|apply IHm, N.div_lt; lia]. rewrite length_str_String. lia.
      - assert (m' = 0%N) as -> by lia. by rewrite pretty_N_go_0. }
    simpl in Hm. rewrite pretty_N_go_step by lia.
    match goal with |- context [pretty_N_go ?n ?s'] => pose proof (Hgo n s') as Hg end. rewrite length_str_String in Hg. lia.
  - rewrite Nat2N.inj_succ, N.pow_succ_r' in Hm. assert (10 ^ N.of_nat k ≠ 0)%N by (apply N.pow_nonzero; lia).
    rewrite pretty_N_go_step by lia. match goal with |- context [pretty_N_go _ ?s'] => specialize (IH (m `div` 10)%N s') end.
    rewrite length_str_String in IH. enough (10 ^ N.of_nat k ≤ m `div` 10)%N by (specialize (IH ltac:(done)); lia).
    apply N.div_le_lower_bound; lia.
Qed.

Lemma to_string_length_eq (k : nat) (z : Z) :
  (0 < k)%nat → 10 ^ (Z.of_nat k - 1) ≤ z < 10 ^ Z.of_nat k → length (to_string z) = k.
Proof.
  intros Hk Hz. assert (0 < z) by (assert (0 < 10 ^ (Z.of_nat k - 1)) by (apply Z.pow_pos_nonneg; lia); lia).
  apply Nat.le_antisymm; [apply to_string_length; lia|].
  unfold to_string. destruct z as [|p|p]; [lia| |lia].
  change (pretty (Z.pos p)) with (pretty (Npos p)). unfold pretty, pretty_N. rewrite decide_False by done.
  assert (10 ^ N.of_nat (k - 1) ≤ N.pos p)%N.
  { apply N2Z.inj_le. rewrite N2Z.inj_pow, nat_N_Z. rewrite Nat2Z.inj_sub by lia. simpl. lia. }
  pose proof (pretty_N_go_longer (k - 1) (N.pos p) "" ltac:(done)). simpl in *. lia.
Qed.

