(* ===== verification/Endian.v ===== *)
(** * Endian: the byte order conversions of src/ham/net/Endian.h

    [htobe16] ... [be64toh] of <endian.h> depend on the byte order of the host, so the
    host is an argument of the model: on a little-endian machine they reverse the bytes,
    on a big-endian one they do nothing.  [store] and [load] are the object
    representation of an integer on that host, which [memcpy] and [append(&x, sizeof x)]
    see.  The lemmas show that a value stored after [hostToNetworkN] has the same bytes,
    most significant first, on both kinds of host, and is read back by [networkToHostN]. *)
From S2P Require Import Prelude.

Inductive byte_order := little_endian | big_endian.

(** ** Bytes of an integer, least significant first *)
Fixpoint le_bytes (n : nat) (z : Z) : list byte :=
  match n with
  | O => []
  | S n' => byte_of z :: le_bytes n' (z / 256)
  end.

Fixpoint le_val (l : list byte) : Z :=
  match l with
  | [] => 0
  | b :: l' => byte_val b + 256 * le_val l'
  end.

(** Most significant first: the network order. *)
Definition be_bytes (n : nat) (z : Z) : list byte := rev (le_bytes n z).
Definition be_val (l : list byte) : Z := le_val (rev l).

(** The object representation of an [n]-byte integer. *)
Definition store (host : byte_order) (n : nat) (z : Z) : list byte :=
  match host with
  | little_endian => le_bytes n z
  | big_endian => rev (le_bytes n z)
  end.
Definition load (host : byte_order) (l : list byte) : Z :=
  match host with
  | little_endian => le_val l
  | big_endian => le_val (rev l)
  end.

(** <endian.h> *)
Definition bswap (n : nat) (z : Z) : Z := le_val (rev (le_bytes n z)).
Definition htobe (host : byte_order) (n : nat) (z : Z) : Z :=
  match host with little_endian => bswap n z | big_endian => z end.
Definition betoh (host : byte_order) (n : nat) (z : Z) : Z :=
  match host with little_endian => bswap n z | big_endian => z end.

(** ** Endian.h *)
Definition hostToNetwork64 (host : byte_order) (host64 : Z) : Z := htobe host 8 (wrapu 64 host64).
Definition hostToNetwork32 (host : byte_order) (host32 : Z) : Z := htobe host 4 (wrapu 32 host32).
Definition hostToNetwork16 (host : byte_order) (host16 : Z) : Z := htobe host 2 (wrapu 16 host16).
Definition networkToHost64 (host : byte_order) (net64 : Z) : Z := betoh host 8 (wrapu 64 net64).
Definition networkToHost32 (host : byte_order) (net32 : Z) : Z := betoh host 4 (wrapu 32 net32).
Definition networkToHost16 (host : byte_order) (net16 : Z) : Z := betoh host 2 (wrapu 16 net16).

(** ** Lemmas *)
Lemma length_le_bytes n z : length (le_bytes n z) = n.
Proof. revert z. induction n; intros; simpl; auto. Qed.

Lemma length_be_bytes n z : length (be_bytes n z) = n.
Proof. unfold be_bytes. by rewrite length_rev, length_le_bytes. Qed.

Lemma length_store host n z : length (store host n z) = n.
Proof. destruct host; simpl; rewrite ?length_rev; apply length_le_bytes. Qed.

Lemma pow256_S n : 256 ^ Z.of_nat (S n) = 256 * 256 ^ Z.of_nat n.
Proof. rewrite Nat2Z.inj_succ, Z.pow_succ_r by lia. done. Qed.

Lemma pow256_pos n : 0 < 256 ^ Z.of_nat n.
Proof. apply Z.pow_pos_nonneg; lia. Qed.

Lemma le_val_range l : 0 ≤ le_val l < 256 ^ zlen l.
Proof.
  unfold zlen. induction l as [|b l IH]; [simpl; lia|].
  simpl length. rewrite pow256_S. simpl. pose proof (byte_val_range b). lia.
Qed.

Lemma le_val_le_bytes n z : le_val (le_bytes n z) = z mod 256 ^ Z.of_nat n.
Proof.
  revert z. induction n as [|n IH]; intros z; simpl le_val; [by rewrite Z.mod_1_r|].
  rewrite IH, byte_val_of, pow256_S.
  pose proof (pow256_pos n). rewrite Z.rem_mul_r by lia. lia.
Qed.

Lemma le_bytes_le_val l : le_bytes (length l) (le_val l) = l.
Proof.
  induction l as [|b l IH]; [done|]. simpl. pose proof (byte_val_range b).
  rewrite <- (Z.mul_comm (le_val l)), Z.div_add, Z.div_small, Z.add_0_l, IH by lia.
  f_equal. unfold byte_of. rewrite Z.mod_add by lia. fold (byte_of (byte_val b)).
  apply byte_of_val.
Qed.

Lemma le_bytes_le_val' n l : length l = n → le_bytes n (le_val l) = l.
Proof. intros <-. apply le_bytes_le_val. Qed.

(** Only the value modulo [256^n] matters. *)
Lemma le_bytes_cong n z z' :
  z mod 256 ^ Z.of_nat n = z' mod 256 ^ Z.of_nat n → le_bytes n z = le_bytes n z'.
Proof.
  intros H. rewrite <- (le_bytes_le_val' n (le_bytes n z)) by apply length_le_bytes.
  rewrite <- (le_bytes_le_val' n (le_bytes n z')) by apply length_le_bytes.
  by rewrite !le_val_le_bytes, H.
Qed.

Lemma wrapu_256 n z : wrapu (8 * Z.of_nat n) z = z mod 256 ^ Z.of_nat n.
Proof. unfold wrapu. rewrite Z.pow_mul_r by lia. done. Qed.

Lemma le_bytes_wrapu n z : le_bytes n (wrapu (8 * Z.of_nat n) z) = le_bytes n z.
Proof. apply le_bytes_cong. rewrite wrapu_256. apply Zmod_mod. Qed.

Lemma le_bytes_wraps n z : (0 < n)%nat → le_bytes n (wraps (8 * Z.of_nat n) z) = le_bytes n z.
Proof.
  intros Hn. apply le_bytes_cong. rewrite <- !wrapu_256. unfold wraps, wrapu.
  rewrite Zminus_mod_idemp_l. f_equal. lia.
Qed.

Lemma be_val_be_bytes n z : be_val (be_bytes n z) = z mod 256 ^ Z.of_nat n.
Proof. unfold be_val, be_bytes. by rewrite rev_involutive, le_val_le_bytes. Qed.

(** Storing a converted value gives the network order on both hosts. *)
Lemma store_htobe host n z : store host n (htobe host n z) = be_bytes n z.
Proof.
  destruct host; simpl; [|done]. unfold bswap, be_bytes.
  apply le_bytes_le_val'. by rewrite length_rev, length_le_bytes.
Qed.

Lemma store_wraps host n z :
  (0 < n)%nat → store host n (wraps (8 * Z.of_nat n) z) = store host n z.
Proof. intros. destruct host; simpl; by rewrite le_bytes_wraps. Qed.

Lemma be_bytes_wrapu n z : be_bytes n (wrapu (8 * Z.of_nat n) z) = be_bytes n z.
Proof. unfold be_bytes. by rewrite le_bytes_wrapu. Qed.

(** Converting a loaded value gives the value of the bytes in network order. *)
Lemma betoh_load host n l :
  length l = n → betoh host n (load host l) = be_val l.
Proof.
  intros Hl. destruct host; simpl; [|done]. unfold bswap, be_val.
  by rewrite le_bytes_le_val'.
Qed.

Lemma betoh_wrap_load host n l (w : Z) :
  length l = n → w = 8 * Z.of_nat n → (0 < n)%nat →
  betoh host n (wrapu w (wraps w (load host l))) = be_val l.
Proof.
  intros Hl -> Hn.
  assert (0 ≤ load host l < 256 ^ Z.of_nat n).
  { rewrite <- Hl. destruct host; simpl; [apply le_val_range|].
    rewrite <- length_rev. apply le_val_range. }
  rewrite <- (betoh_load host n l Hl). f_equal.
  unfold wraps. rewrite wrapu_256.
  rewrite !Z.pow_mul_r by lia. change (2 ^ 8) with 256.
  rewrite Zminus_mod_idemp_l, Z.add_simpl_r. by apply Z.mod_small.
Qed.
