(* ===== verification/FmtInt.v ===== *)
(** * FmtInt: the integers of src/thirdParty/spdlog/fmt/bundled/format.h

    How fmt counts the digits of a number and writes them, in base ten two at a time with a
    table and in bases 2, 8 and 16, into a buffer whose bounds are checked here; and
    [format_int], on which the line formatter of spdlog prints its numbers. *)
From S2P Require Import Prelude.

(** ** Counting digits *)
Definition bsr2log10_data : list Z :=
  [1; 1; 1; 2; 2; 2; 3; 3; 3; 4; 4; 4; 4; 5; 5; 5; 6; 6; 6; 7; 7; 7; 7; 8; 8; 8; 9; 9; 9; 10; 10; 10;
   10; 11; 11; 11; 12; 12; 12; 13; 13; 13; 13; 14; 14; 14; 15; 15; 15; 16; 16; 16; 16; 17; 17; 17; 18; 18; 18;
   19; 19; 19; 19; 20].
Definition bsr2log10 (bsr : Z) : outcome Z := read_at bsr bsr2log10_data.

Definition FMT_POWERS_OF_10 (factor : Z) : list Z :=
  [factor * 10; factor * 100; factor * 1000; factor * 10000; factor * 100000; factor * 1000000; factor * 10000000;
   factor * 100000000; factor * 1000000000].
Definition zero_or_powers_of_10_32_new : list Z := [0; 0] ++ FMT_POWERS_OF_10 1.
Definition zero_or_powers_of_10_64_new : list Z :=
  [0; 0] ++ FMT_POWERS_OF_10 1 ++ FMT_POWERS_OF_10 1000000000 ++ [10000000000000000000].

(** [__builtin_clz] of a [w]-bit number that is not zero. *)
Definition clz (w n : Z) : Z := w - 1 - Z.log2 n.

Definition count_digits_64 (n : Z) : outcome Z :=
  t ← bsr2log10 (Z.lxor (clz 64 (Z.lor n 1)) 63);
  p ← read_at t zero_or_powers_of_10_64_new;
  Ok (t - (if n <? p then 1 else 0)).
Definition count_digits_32 (n : Z) : outcome Z :=
  t ← bsr2log10 (Z.lxor (clz 32 (Z.lor n 1)) 31);
  p ← read_at t zero_or_powers_of_10_32_new;
  Ok (t - (if n <? p then 1 else 0)).

(** The unsigned integers are of 32 bits or of 64, [uint32_or_64_or_128_t]. *)
Inductive uint_type := uint32 | uint64.
Definition bits (ty : uint_type) : Z := match ty with uint32 => 32 | uint64 => 64 end.
Definition count_digits (ty : uint_type) (n : Z) : outcome Z :=
  match ty with uint32 => count_digits_32 n | uint64 => count_digits_64 n end.

(** [count_digits<BITS>]: at most one digit for every bit. *)
Fixpoint count_base_loop (fuel : nat) (BITS n num_digits : Z) : outcome Z :=
  match fuel with
  | O => Err OutOfFuel
  | S fuel =>
      let num_digits := num_digits + 1 in
      let n := Z.shiftr n BITS in
      if n =? 0 then Ok num_digits else count_base_loop fuel BITS n num_digits
  end.
Definition count_base (BITS n : Z) : outcome Z := count_base_loop 65 BITS n 0.

(** ** Writing digits

    [out] is the offset in the buffer, and [acc] what stands in it from [out] on. *)
Definition digits : list byte :=
  str "0001020304050607080910111213141516171819202122232425262728293031323334353637383940414243444546474849" ++
  str "5051525354555657585960616263646566676869707172737475767778798081828384858687888990919293949596979899".
Definition copy2 (i : Z) : list byte := slice (2 * i) (2 * i + 2) digits.

Definition put_front (d : list byte) (out : Z) (acc : list byte) : outcome (Z * list byte) :=
  let out := out - zlen d in
  if out <? 0 then Err OutOfRange else Ok (out, d ++ acc).

Fixpoint format_decimal_loop (fuel : nat) (value out : Z) (acc : list byte) : outcome (Z * list byte) :=
  if 100 <=? value then
    match fuel with
    | O => Err OutOfFuel
    | S fuel => '(out, acc) ← put_front (copy2 (value mod 100)) out acc; format_decimal_loop fuel (value / 100) out acc
    end
  else if value <? 10 then put_front [byte_of (48 + value)] out acc
  else put_front (copy2 value) out acc.

(** Where the number begins in a buffer of [size] characters, and its digits. *)
Definition format_decimal (ty : uint_type) (value size : Z) : outcome (Z * list byte) :=
  n ← count_digits ty value;
  _ ← assert_ (n <=? size);
  format_decimal_loop (Z.to_nat size) value size [].

Definition hex_digits : list byte := str "0123456789abcdef".
Definition hex_digits_upper : list byte := str "0123456789ABCDEF".

Fixpoint format_uint_loop (fuel : nat) (BASE_BITS : Z) (upper : bool) (value out : Z) (acc : list byte) : outcome (Z * list byte) :=
  match fuel with
  | O => Err OutOfFuel
  | S fuel =>
      let digit := Z.land value (Z.shiftl 1 BASE_BITS - 1) in
      c ← (if BASE_BITS <? 4 then Ok (byte_of (48 + digit)) else read_at digit (if upper then hex_digits_upper else hex_digits));
      '(out, acc) ← put_front [c] out acc;
      let value := Z.shiftr value BASE_BITS in
      if value =? 0 then Ok (out, acc) else format_uint_loop fuel BASE_BITS upper value out acc
  end.
(** The whole buffer of [num_digits] characters is used afterwards. *)
Definition format_uint (BASE_BITS value num_digits : Z) (upper : bool) : outcome (list byte) :=
  '(out, acc) ← format_uint_loop 65 BASE_BITS upper value num_digits [];
  if out =? 0 then Ok acc else Err OutOfRange.

(** ** format_int *)
Definition buffer_size : Z := 19 + 3.
Definition format_unsigned (ty : uint_type) (value : Z) : outcome (Z * list byte) :=
  format_decimal ty (wrapu (bits ty) value) (buffer_size - 1).
Definition format_signed (ty : uint_type) (value : Z) : outcome (Z * list byte) :=
  let abs_value := wrapu (bits ty) value in
  let negative := value <? 0 in
  let abs_value := if negative then wrapu (bits ty) (0 - abs_value) else abs_value in
  '(begin, s) ← format_unsigned ty abs_value;
  if negative then put_front (str "-") begin s else Ok (begin, s).

(** ** The decimal digits of a number *)
Lemma string_app_assoc (a b c : string) : (a +:+ b) +:+ c = a +:+ (b +:+ c).
Proof. induction a as [|x a IH]; [done|]. change (String x ((a +:+ b) +:+ c) = String x (a +:+ (b +:+ c))). by rewrite IH. Qed.

Lemma pretty_N_go_acc n s : pretty_N_go n s = pretty_N_go n "" +:+ s.
Proof.
  revert s. induction (N.lt_wf_0 n) as [n _ IH]; intros s. destruct (decide (0 < n)%N).
  - rewrite !(pretty_N_go_step n) by done. assert (n `div` 10 < n)%N by (apply N.div_lt; lia).
    rewrite IH by done. rewrite (IH _ ltac:(done) (String _ "")). by rewrite string_app_assoc.
  - assert (n = 0%N) as -> by lia. by rewrite !pretty_N_go_0.
Qed.

Definition digit_byte (d : Z) : byte := byte_of (48 + d).

Lemma to_string_small d : 0 ≤ d < 10 → to_string d = [digit_byte d].
Proof.
  intros Hd. assert (d = 0 ∨ d = 1 ∨ d = 2 ∨ d = 3 ∨ d = 4 ∨ d = 5 ∨ d = 6 ∨ d = 7 ∨ d = 8 ∨ d = 9) as Hc by lia.
  by destruct_or! Hc; subst.
Qed.

Lemma to_string_snoc n : 10 ≤ n → to_string n = to_string (n / 10) ++ [digit_byte (n mod 10)].
Proof.
  intros Hn. assert (Hc : ∀ d : N, (d < 10)%N → str (String (pretty_N_char d) "") = [digit_byte (Z.of_N d)]).
  { intros d Hd. assert (d = 0 ∨ d = 1 ∨ d = 2 ∨ d = 3 ∨ d = 4 ∨ d = 5 ∨ d = 6 ∨ d = 7 ∨ d = 8 ∨ d = 9)%N as Hc by lia.
    by destruct_or! Hc; subst. }
  assert (Hz : ∀ m, (0 < m)%N → to_string (Z.of_N m) = str (pretty_N_go m "")).
  { intros [|p] ?; [lia|]. unfold to_string. change (pretty (Z.of_N (N.pos p))) with (pretty (N.pos p)).
    unfold pretty, pretty_N. by rewrite decide_False. }
  rewrite <- (Z2N.id n) by lia. set (m := Z.to_N n). assert (10 ≤ m)%N by lia.
  assert (Z.of_N m / 10 = Z.of_N (m `div` 10)) as -> by by rewrite N2Z.inj_div.
  assert (Z.of_N m mod 10 = Z.of_N (m `mod` 10)) as -> by by rewrite N2Z.inj_mod.
  rewrite Hz by lia. rewrite Hz by (apply N.div_str_pos; lia).
  rewrite pretty_N_go_step by lia. rewrite pretty_N_go_acc, str_app. f_equal. apply Hc, N.mod_lt. lia.
Qed.

Lemma to_string_neg n : n < 0 → to_string n = str "-" ++ to_string (- n).
Proof. intros Hn. by destruct n as [|p|p]; [lia|lia|]. Qed.

(** ** Counting is counting *)
Lemma to_string_len k n : 0 < k → 10 ^ (k - 1) ≤ n < 10 ^ k → zlen (to_string n) = k.
Proof.
  intros Hk Hn. unfold zlen. rewrite (to_string_length_eq (Z.to_nat k)); [lia|lia|]. by rewrite Z2Nat.id by lia.
Qed.

(** What the table has to say about every position [b] of the first bit of [w] bits. *)
Definition bsr_ok (pow : list Z) (b : Z) : bool :=
  match bsr2log10 b with
  | Ok t =>
      (1 <=? t) && (2 ^ (b + 1) <=? 10 ^ t) && ((t =? 1) || (10 ^ (t - 2) <=? 2 ^ b)) &&
      match read_at t pow with Ok p => p =? (if t =? 1 then 0 else 10 ^ (t - 1)) | Err _ => false end
  | Err _ => false
  end.
Lemma bsr_ok_64 : forallb (bsr_ok zero_or_powers_of_10_64_new) (seqZ 0 64) = true.
Proof. by vm_compute. Qed.
Lemma bsr_ok_32 : forallb (bsr_ok zero_or_powers_of_10_32_new) (seqZ 0 32) = true.
Proof. by vm_compute. Qed.

Lemma forallb_seqZ f w x : forallb f (seqZ 0 w) = true → 0 ≤ x < w → f x = true.
Proof. intros H Hx. rewrite forallb_forall in H. apply H, list_elem_of_In, elem_of_seqZ. lia. Qed.

Lemma lxor_mirror (w x : Z) : w = 32 ∨ w = 64 → 0 ≤ x < w → Z.lxor (w - 1 - x) (w - 1) = x.
Proof.
  intros Hw Hx. apply Z.eqb_eq. apply (forallb_seqZ (λ x, Z.lxor (w - 1 - x) (w - 1) =? x) w); [|done].
  by destruct Hw as [-> | ->]; vm_compute.
Qed.

Lemma count_digits_by_bsr (w : Z) pow n : w = 32 ∨ w = 64 → 0 < n < 2 ^ w → forallb (bsr_ok pow) (seqZ 0 w) = true →
  (t ← bsr2log10 (Z.lxor (clz w (Z.lor n 1)) (w - 1)); p ← read_at t pow; Ok (t - (if n <? p then 1 else 0))) =
  Ok (zlen (to_string n)).
Proof.
  intros Hw Hn Hall. set (b := Z.log2 n).
  assert (Hb : 0 ≤ b < w) by (split; [apply Z.log2_nonneg|apply Z.log2_lt_pow2; lia]).
  assert (Hx : Z.lxor (clz w (Z.lor n 1)) (w - 1) = b).
  { unfold clz. rewrite Z.log2_lor, Z.max_l by (lia || apply Z.log2_nonneg). by apply lxor_mirror. }
  rewrite Hx. pose proof (forallb_seqZ _ _ b Hall Hb) as Hok. unfold bsr_ok in Hok.
  destruct (bsr2log10 b) as [t|]; [|done]. ok_simpl.
  destruct (read_at t pow) as [p|]; [|by rewrite Bool.andb_false_r in Hok]. ok_simpl.
  rewrite !andb_true_iff, orb_true_iff, !Z.leb_le, !Z.eqb_eq in Hok. destruct Hok as [[[Ht Hup] Hlo] Hp]. f_equal.
  destruct (Z.log2_spec n) as [Hl Hu]; [lia|]. fold b in Hl, Hu. rewrite <- Z.add_1_r in Hu.
  destruct (Z.eqb_spec t 1) as [->|Hne]; subst p.
  - rewrite (proj2 (Z.ltb_ge _ _)) by lia. rewrite (to_string_len 1); [done|lia|]. change (10 ^ (1 - 1)) with 1. lia.
  - destruct Hlo as [|Hlo]; [done|]. symmetry. destruct (Z.ltb_spec n (10 ^ (t - 1))).
    + apply to_string_len; [lia|]. replace (t - 1 - 1) with (t - 2) by lia. lia.
    + replace (t - 0) with t by lia. apply to_string_len; lia.
Qed.

Lemma count_digits_exact ty n : in_u (bits ty) n → count_digits ty n = Ok (zlen (to_string n)).
Proof.
  intros [Hn0 Hn]. destruct (decide (n = 0)) as [->|]; [by destruct ty|].
  destruct ty; apply count_digits_by_bsr; auto using bsr_ok_32, bsr_ok_64; simpl in *; lia.
Qed.

(** ** Decimal numbers *)
Lemma digit_pair d : 0 ≤ d < 100 → copy2 d = [digit_byte (d / 10); digit_byte (d mod 10)].
Proof.
  intros Hd. assert (H : forallb (λ d, bool_decide (copy2 d = [digit_byte (d / 10); digit_byte (d mod 10)])) (seqZ 0 100) = true) by by vm_compute.
  apply (forallb_seqZ _ _ d) in H; [|done]. by apply bool_decide_eq_true in H.
Qed.

Lemma to_string_pair n : 100 ≤ n → to_string n = to_string (n / 100) ++ copy2 (n mod 100).
Proof.
  intros Hn. rewrite digit_pair by (apply Z.mod_pos_bound; lia).
  rewrite to_string_snoc by lia. rewrite to_string_snoc by (apply Z.div_le_lower_bound; lia).
  rewrite <- app_assoc. rewrite Z.div_div by lia. do 2 f_equal.
  assert ((n / 10) mod 10 = n mod 100 / 10) as ->.
  { change 100 with (10 * 10). rewrite Z.rem_mul_r by lia. rewrite Z.mul_comm, Z.div_add by lia.
    rewrite (Z.div_small (n mod 10)) by (apply Z.mod_pos_bound; lia). lia. }
  assert (n mod 10 = (n mod 100) mod 10) as ->; [|done].
  change 100 with (10 * 10). rewrite Z.rem_mul_r by lia. rewrite Z.mul_comm, Z_mod_plus by lia. by rewrite Z.mod_mod by lia.
Qed.

Lemma put_front_ok d out acc : zlen d ≤ out → put_front d out acc = Ok (out - zlen d, d ++ acc).
Proof. intros. unfold put_front. by rewrite (proj2 (Z.ltb_ge _ _)) by lia. Qed.

Lemma to_string_pos v : 0 ≤ v → 0 < zlen (to_string v).
Proof.
  intros Hv. destruct (decide (10 ≤ v)); [|by rewrite to_string_small by lia].
  rewrite to_string_snoc by done. rewrite zlen_app. change (zlen [_]) with 1. pose proof (zlen_nonneg (to_string (v / 10))). lia.
Qed.

Lemma format_decimal_loop_ok fuel v out acc : 0 ≤ v → zlen (to_string v) ≤ out → (Z.to_nat out ≤ fuel)%nat →
  format_decimal_loop fuel v out acc = Ok (out - zlen (to_string v), to_string v ++ acc).
Proof.
  revert v out acc. induction fuel as [|fuel IH]; intros v out acc Hv Hlen Hf.
  all: pose proof (to_string_pos v Hv) as Hpos.
  - lia.
  - cbn [format_decimal_loop]. destruct (Z.leb_spec 100 v) as [H1|H1].
    + rewrite to_string_pair in Hlen |- * by done. rewrite zlen_app in Hlen |- *.
      assert (zlen (copy2 (v mod 100)) = 2) as H2 by by rewrite digit_pair by (apply Z.mod_pos_bound; lia).
      pose proof (zlen_nonneg (to_string (v / 100))). rewrite put_front_ok by lia. ok_simpl.
      rewrite IH; [|apply Z.div_pos; lia|lia|lia]. rewrite app_assoc. do 2 f_equal. lia.
    + destruct (Z.ltb_spec v 10) as [H3|H3].
      * rewrite to_string_small by lia. by rewrite put_front_ok by (rewrite to_string_small in Hlen by lia; done).
      * assert (to_string v = copy2 v) as Hs.
        { rewrite to_string_snoc, digit_pair by lia. rewrite to_string_small; [done|].
          split; [apply Z.div_pos; lia|apply Z.div_lt_upper_bound; lia]. }
        rewrite Hs in Hlen |- *. by rewrite put_front_ok.
Qed.

Lemma format_decimal_ok ty v size : in_u (bits ty) v → zlen (to_string v) ≤ size →
  format_decimal ty v size = Ok (size - zlen (to_string v), to_string v).
Proof.
  intros Hv Hs. unfold format_decimal. rewrite count_digits_exact by done. ok_simpl.
  rewrite assert_true by by apply Z.leb_le. ok_simpl. rewrite format_decimal_loop_ok; [by rewrite app_nil_r|apply Hv|done|done].
Qed.

(** C36: [format_int] prints the digits and the sign of any number of its type: they fit into the buffer. *)
Theorem format_int_prints ty v (signed : bool) : (if signed then in_s (bits ty) v else in_u (bits ty) v) →
  ∃ begin, (if signed then format_signed else format_unsigned) ty v = Ok (begin, to_string v) ∧ 0 ≤ begin.
Proof.
  assert (Hlen : ∀ u, in_u (bits ty) u → zlen (to_string u) ≤ 20).
  { intros u [Hu0 Hu]. unfold zlen. pose proof (to_string_length 20 u ltac:(lia)) as H.
    assert (u < 10 ^ Z.of_nat 20) by (destruct ty; simpl in *; lia). lia. }
  assert (Hun : ∀ u, in_u (bits ty) u → format_unsigned ty u = Ok (21 - zlen (to_string u), to_string u)).
  { intros u Hu. unfold format_unsigned. rewrite wrapu_small by done. apply format_decimal_ok; [done|].
    specialize (Hlen u Hu). unfold buffer_size. lia. }
  destruct signed; intros Hv.
  - assert (Hb : 2 ^ bits ty = 2 * 2 ^ (bits ty - 1)) by by destruct ty. unfold format_signed. unfold in_s in Hv.
    destruct (Z.ltb_spec v 0) as [Hneg|Hneg].
    + assert (Hw : wrapu (bits ty) (0 - wrapu (bits ty) v) = - v).
      { unfold wrapu. rewrite Zminus_mod_idemp_r. rewrite Z.mod_small; lia. }
      assert (in_u (bits ty) (- v)) as Hu by (unfold in_u; lia). rewrite Hw, Hun by done. ok_simpl. specialize (Hlen _ Hu).
      rewrite put_front_ok by (change (zlen (str "-")) with 1; lia). rewrite (to_string_neg v) by done.
      change (zlen (str "-")) with 1. eexists. split; [done|lia].
    + assert (in_u (bits ty) v) as Hu by (unfold in_u; lia). rewrite wrapu_small, Hun by done. ok_simpl.
      specialize (Hlen _ Hu). eexists. split; [done|lia].
  - rewrite Hun by done. specialize (Hlen _ Hv). eexists. split; [done|lia].
Qed.

Lemma format_int_prints_witness : in_s 64 (- 2 ^ 63) ∧
  ∃ begin, format_signed uint64 (- 2 ^ 63) = Ok (begin, str "-9223372036854775808") ∧ 0 ≤ begin.
Proof. split; [by vm_compute|]. apply (format_int_prints uint64 (- 2 ^ 63) true). by vm_compute. Defined.

(** ** Bases 2, 8 and 16 *)
Definition digit_val (c : byte) : Z :=
  let v := byte_val c in if v <=? 57 then v - 48 else if v <=? 70 then v - 55 else v - 87.
Definition read_base (base : Z) (s : list byte) : Z := foldl (λ n c, n * base + digit_val c) 0 s.

(** The digits of [n] in base [2 ^ BITS] are [k]. *)
Definition base_digits (BITS n k : Z) : Prop := n < 2 ^ (BITS * k) ∧ (k = 1 ∨ 2 ^ (BITS * (k - 1)) ≤ n) ∧ 1 ≤ k.

Lemma base_digits_step BITS n k : 0 < BITS → 0 ≤ n → Z.shiftr n BITS ≠ 0 → base_digits BITS (Z.shiftr n BITS) k → base_digits BITS n (k + 1).
Proof.
  intros HB Hn Hnz (Hup & Hlo & Hk). rewrite (Z.shiftr_div_pow2 n BITS) in Hup, Hlo, Hnz by lia. assert (0 < 2 ^ BITS) by (apply Z.pow_pos_nonneg; lia).
  split_and!; [| |lia].
  - rewrite Z.mul_add_distr_l, Z.mul_1_r, Z.add_comm, Z.pow_add_r by nia.
    pose proof (Z.mul_succ_div_gt n (2 ^ BITS) ltac:(done)). nia.
  - right. replace (k + 1 - 1) with k by lia. pose proof (Z.mul_div_le n (2 ^ BITS) ltac:(done)).
    assert (0 < n / 2 ^ BITS) by (pose proof (Z.div_pos n (2 ^ BITS) ltac:(lia) ltac:(lia)); lia).
    destruct Hlo as [->|Hlo]; [rewrite Z.mul_1_r; nia|].
    replace (BITS * k) with (BITS + BITS * (k - 1)) by lia. rewrite Z.pow_add_r by nia. nia.
Qed.

Lemma shiftr_zero BITS n : 0 < BITS → 0 ≤ n → Z.shiftr n BITS = 0 → n < 2 ^ BITS.
Proof.
  intros HB Hn H. rewrite Z.shiftr_div_pow2 in H by lia. assert (0 < 2 ^ BITS) by (apply Z.pow_pos_nonneg; lia).
  pose proof (Z.mul_succ_div_gt n (2 ^ BITS) ltac:(done)). lia.
Qed.

Lemma count_base_loop_ok fuel BITS n c : 0 < BITS → 0 ≤ n < 2 ^ Z.of_nat fuel → (0 < fuel)%nat →
  ∃ k, count_base_loop fuel BITS n c = Ok (c + k) ∧ base_digits BITS n k.
Proof.
  intros HB. revert n c. induction fuel as [|fuel IH]; intros n c Hn Hf; [lia|]. cbn [count_base_loop].
  destruct (Z.eqb_spec (Z.shiftr n BITS) 0) as [Hz|Hz].
  - exists 1. split; [done|]. split_and!; [|by left|lia]. rewrite Z.mul_1_r. apply shiftr_zero; lia.
  - assert (Hs : 0 ≤ Z.shiftr n BITS < 2 ^ Z.of_nat fuel).
    { split; [apply Z.shiftr_nonneg; lia|]. rewrite Z.shiftr_div_pow2 by lia.
      apply Z.div_lt_upper_bound; [apply Z.pow_pos_nonneg; lia|]. rewrite Nat2Z.inj_succ, <- Z.add_1_r, Z.pow_add_r in Hn by lia.
      assert (2 ≤ 2 ^ BITS) by (change 2 with (2 ^ 1) at 1; apply Z.pow_le_mono_r; lia). nia. }
    destruct fuel as [|fuel]; [simpl in Hs; lia|]. destruct (IH (Z.shiftr n BITS) (c + 1) Hs ltac:(lia)) as (k & -> & Hk).
    exists (k + 1). split; [f_equal; lia|]. apply base_digits_step; lia || done.
Qed.

Lemma base_digits_unique BITS n k k' : 0 < BITS → base_digits BITS n k → base_digits BITS n k' → k = k'.
Proof.
  intros HB (Hu & Hl & H1) (Hu' & Hl' & H1').
  assert (Hlt : ∀ i j, 2 ^ (BITS * (i - 1)) ≤ n → n < 2 ^ (BITS * j) → i ≤ j).
  { intros i j Hi Hj. destruct (decide (i ≤ j)); [done|]. exfalso.
    assert (2 ^ (BITS * j) ≤ 2 ^ (BITS * (i - 1))) by (apply Z.pow_le_mono_r; nia). lia. }
  destruct Hl as [->|Hl], Hl' as [->|Hl']; try lia; eauto using Z.le_antisymm.
Qed.

Lemma read_base_cons b c s : 0 < b → read_base b (c :: s) = digit_val c * b ^ zlen s + read_base b s.
Proof.
  intros Hb. assert (Hacc : ∀ s n, foldl (λ n c, n * b + digit_val c) n s = n * b ^ zlen s + read_base b s).
  { intros l. induction l as [|x l IH]; intros n; unfold read_base; cbn [foldl].
    - change (zlen []) with 0. rewrite Z.pow_0_r. lia.
    - rewrite IH, (IH (0 * b + digit_val x)), zlen_cons. rewrite Z.pow_add_r, Z.pow_1_r by (lia || apply zlen_nonneg). ring. }
  unfold read_base at 1. cbn [foldl]. by rewrite Hacc.
Qed.

(** One digit, and what it is worth. *)
Definition base_digit (BITS d : Z) (upper : bool) : byte :=
  if BITS <? 4 then byte_of (48 + d) else byte_of (if d <? 10 then 48 + d else if upper then 55 + d else 87 + d).
Lemma base_digit_ok BITS d (upper : bool) : BITS = 1 ∨ BITS = 3 ∨ BITS = 4 → 0 ≤ d < 2 ^ BITS →
  (if BITS <? 4 then Ok (byte_of (48 + d)) else read_at d (if upper then hex_digits_upper else hex_digits)) = Ok (base_digit BITS d upper) ∧
  digit_val (base_digit BITS d upper) = d.
Proof.
  intros HB Hd.
  set (get d := if BITS <? 4 then Ok (byte_of (48 + d)) else read_at d (if upper then hex_digits_upper else hex_digits)).
  change (get d = Ok (base_digit BITS d upper) ∧ digit_val (base_digit BITS d upper) = d).
  assert (H : forallb (λ d, match get d with Ok c => bool_decide (c = base_digit BITS d upper) | Err _ => false end &&
    (digit_val (base_digit BITS d upper) =? d)) (seqZ 0 (2 ^ BITS)) = true).
  { destruct HB as [->|[->| ->]]; destruct upper; by vm_compute. }
  apply (forallb_seqZ _ _ d) in H; [|done]. apply andb_true_iff in H as [H1 H2]. split; [|by apply Z.eqb_eq].
  destruct (get d); [|done]. apply bool_decide_eq_true in H1. by subst.
Qed.

Lemma format_uint_loop_ok fuel BITS (upper : bool) n out acc k : BITS = 1 ∨ BITS = 3 ∨ BITS = 4 → 0 ≤ n < 2 ^ Z.of_nat fuel → (0 < fuel)%nat →
  base_digits BITS n k → k ≤ out →
  ∃ s, format_uint_loop fuel BITS upper n out acc = Ok (out - k, s ++ acc) ∧ zlen s = k ∧ read_base (2 ^ BITS) s = n ∧
    Forall (λ c, ∃ d, 0 ≤ d < 2 ^ BITS ∧ c = base_digit BITS d upper) s.
Proof.
  intros HB. assert (0 < BITS) as HB0 by lia. assert (HP : 0 < 2 ^ BITS) by (apply Z.pow_pos_nonneg; lia).
  revert n out acc k. induction fuel as [|fuel IH]; intros n out acc k Hn Hf Hk Hout; [lia|]. cbn [format_uint_loop].
  assert (Hland : Z.land n (Z.shiftl 1 BITS - 1) = n mod 2 ^ BITS).
  { rewrite Z.shiftl_1_l, Z.sub_1_r, <- Z.ones_equiv. apply Z.land_ones. lia. }
  assert (Hd : 0 ≤ n mod 2 ^ BITS < 2 ^ BITS) by (apply Z.mod_pos_bound; lia).
  rewrite Hland. destruct (base_digit_ok BITS (n mod 2 ^ BITS) upper HB Hd) as [-> Hval]. ok_simpl.
  assert (1 ≤ k) by apply Hk. rewrite put_front_ok by (change (zlen [_]) with 1; lia). ok_simpl. change (zlen [_]) with 1.
  assert (Hdig : Forall (λ c, ∃ d, 0 ≤ d < 2 ^ BITS ∧ c = base_digit BITS d upper) [base_digit BITS (n mod 2 ^ BITS) upper]).
  { constructor; [|done]. by eexists. }
  destruct (Z.eqb_spec (Z.shiftr n BITS) 0) as [Hz|Hz].
  - apply shiftr_zero in Hz; [|lia|lia]. assert (k = 1) as ->.
    { apply (base_digits_unique BITS n); [done|done|]. split_and!; [by rewrite Z.mul_1_r|by left|lia]. }
    exists [base_digit BITS (n mod 2 ^ BITS) upper]. split_and!; [done|done| |done].
    rewrite read_base_cons by done. rewrite Hval. change (zlen []) with 0. change (read_base _ []) with 0.
    rewrite Z.pow_0_r, Z.mod_small; lia.
  - destruct (count_base_loop_ok (S fuel) BITS (Z.shiftr n BITS) 0) as (k' & _ & Hk'); [done| |lia|].
    { split; [apply Z.shiftr_nonneg; lia|]. rewrite Z.shiftr_div_pow2 by lia. apply Z.div_lt_upper_bound; [lia|]. nia. }
    assert (k = k' + 1) as ->.
    { apply (base_digits_unique BITS n); [done|done|]. apply base_digits_step; lia || done. }
    destruct (IH (Z.shiftr n BITS) (out - 1) ([base_digit BITS (n mod 2 ^ BITS) upper] ++ acc) k') as (s & Hs & Hlen & Hread & Hall).
    { split; [apply Z.shiftr_nonneg; lia|]. rewrite Z.shiftr_div_pow2 by lia.
      apply Z.div_lt_upper_bound; [lia|]. rewrite Nat2Z.inj_succ, <- Z.add_1_r, Z.pow_add_r in Hn by lia.
      assert (2 ≤ 2 ^ BITS) by (change 2 with (2 ^ 1) at 1; apply Z.pow_le_mono_r; lia). nia. }
    { destruct fuel; [|lia]. rewrite Z.shiftr_div_pow2 in Hz by lia. change (2 ^ Z.of_nat 1) with 2 in Hn.
      rewrite Z.div_small in Hz; [done|]. assert (2 ≤ 2 ^ BITS) by (change 2 with (2 ^ 1) at 1; apply Z.pow_le_mono_r; lia). lia. }
    { done. } { lia. }
    exists (s ++ [base_digit BITS (n mod 2 ^ BITS) upper]). split_and!.
    + rewrite Hs. rewrite <- app_assoc. do 2 f_equal. lia.
    + rewrite zlen_app. change (zlen [_]) with 1. lia.
    + unfold read_base in *. rewrite foldl_app, Hread. cbn [foldl]. rewrite Hval, Z.shiftr_div_pow2 by lia.
      pose proof (Z.div_mod n (2 ^ BITS) ltac:(lia)). lia.
    + by apply Forall_app.
Qed.

(** The digits in base 2, 8 or 16: no more and no fewer than the number has, and they read back. *)
Lemma base_roundtrip_exists BITS n upper : BITS = 1 ∨ BITS = 3 ∨ BITS = 4 → in_u 64 n →
  ∃ k s, count_base BITS n = Ok k ∧ format_uint BITS n k upper = Ok s ∧ zlen s = k ∧ base_digits BITS n k ∧
    read_base (2 ^ BITS) s = n.
Proof.
  intros HB Hn. assert (0 ≤ n < 2 ^ Z.of_nat 65) as Hn' by (unfold in_u in Hn; lia).
  destruct (count_base_loop_ok 65 BITS n 0) as (k & Hk & Hd); [lia|done|lia|].
  destruct (format_uint_loop_ok 65 BITS upper n k [] k) as (s & Hs & Hlen & Hread & _); [done|done|lia|done|lia|].
  exists k, s. unfold count_base, format_uint. rewrite Hk, Hs. ok_simpl. rewrite Z.sub_diag, app_nil_r. done.
Qed.
