(* ===== verification/Throws.v ===== *)
(** * Throws: operations of the logging code that may throw

    [spdlog_ex] is caught by the logger, and the state that an operation left when it threw is
    the state the next one finds: a monad in which the state survives an exception, and its
    triples. *)
From S2P Require Import Prelude.

Inductive result (A : Type) := Done (a : A) | Throw (what : list byte) | Crash (f : fault).
Arguments Done {A}. Arguments Throw {A}. Arguments Crash {A}.

Definition M (W A : Type) : Type := W → W * result A.

#[export] Instance M_ret W : MRet (M W) := λ A a w, (w, Done a).
#[export] Instance M_bind W : MBind (M W) := λ A B k m w,
  match m w with
  | (w', Done a) => k a w'
  | (w', Throw e) => (w', Throw e)
  | (w', Crash f) => (w', Crash f)
  end.

Definition get {W} : M W W := λ w, (w, Done w).
Definition modify {W} (f : W → W) : M W unit := λ w, (f w, Done tt).
Definition throw {W A} (what : list byte) : M W A := λ w, (w, Throw what).
Definition crash {W A} (f : fault) : M W A := λ w, (w, Crash f).

(** From a state in [P], [m] does not crash, and ends in [Q] or throws in [E]. *)
Definition triple {W A} (P : W → Prop) (m : M W A) (Q : A → W → Prop) (E : W → Prop) : Prop :=
  ∀ w, P w → match m w with (w', Done a) => Q a w' | (w', Throw _) => E w' | (_, Crash _) => False end.

Section triples.
Context {W : Type}.
Implicit Types (P E : W → Prop).

Lemma triple_bind {A B} P (m : M W A) (k : A → M W B) (R : A → W → Prop) (Q : B → W → Prop) E :
  triple P m R E → (∀ a, triple (R a) (k a) Q E) → triple P (m ≫= k) Q E.
Proof.
  intros Hm Hk w Hw. specialize (Hm w Hw). unfold mbind, M_bind.
  destruct (m w) as [w' [a|e|f]]; [by apply Hk|done|done].
Qed.

Lemma triple_ret {A} P (a : A) (Q : A → W → Prop) E : (∀ w, P w → Q a w) → triple P (mret a) Q E.
Proof. intros HQ w Hw. by apply HQ. Qed.

Lemma triple_modify P f (Q : unit → W → Prop) E : (∀ w, P w → Q tt (f w)) → triple P (modify f) Q E.
Proof. intros HQ w Hw. by apply HQ. Qed.

Lemma triple_get P (Q : W → W → Prop) E : (∀ w, P w → Q w w) → triple P get Q E.
Proof. intros HQ w Hw. by apply HQ. Qed.

Lemma triple_throw {A} P what (Q : A → W → Prop) E : (∀ w, P w → E w) → triple P (throw what) Q E.
Proof. intros HE w Hw. by apply HE. Qed.

Lemma triple_pre {A} P P' (m : M W A) Q E : (∀ w, P w → P' w) → triple P' m Q E → triple P m Q E.
Proof. intros HP Hm w Hw. by apply Hm, HP. Qed.

Lemma triple_post {A} P (m : M W A) (Q Q' : A → W → Prop) (E E' : W → Prop) :
  triple P m Q E → (∀ a w, Q a w → Q' a w) → (∀ w, E w → E' w) → triple P m Q' E'.
Proof.
  intros Hm HQ HE w Hw. specialize (Hm w Hw). destruct (m w) as [w' [a|e|f]]; [by apply HQ|by apply HE|done].
Qed.
End triples.
