(* ===== verification/Fmt.v ===== *)
(** * Fmt: format strings, src/thirdParty/spdlog/fmt/bundled/format.h and core.h

    What [fmt::format_to] makes of a format string and its arguments, as every log macro calls
    it: the scan for replacement fields with its two loops, argument ids, format
    specifications and their checks, padding, and the writers of integers, characters,
    strings and pointers.  Floating-point, 128-bit, named and user-defined arguments are left
    out, Ham logs none, and the locale is the classic one, which groups no digits.  A pointer
    into the format string is what is left of it; [format_error] is thrown.  What a field prints is
    specified apart from the writers, in [field_text]. *)
From S2P Require Import Prelude Throws FmtInt.

#[export] Instance result_ret : MRet result := λ A a, Done a.
#[export] Instance result_bind : MBind result := λ A B k m,
  match m with Done a => k a | Throw e => Throw e | Crash f => Crash f end.

Definition lift {A} (m : outcome A) : result A := match m with Ok a => Done a | Err f => Crash f end.
Definition on_error {A} (message : string) : result A := Throw (str message).
Definition FMT_ASSERT (b : bool) : result unit := lift (assert_ b).

(** ** Arguments *)
Inductive arg :=
| int_arg (v : Z) | uint_arg (v : Z) | long_long_arg (v : Z) | ulong_long_arg (v : Z)
| bool_arg (b : bool) | char_arg (c : byte)
| cstring_arg (p : Z) (s : list byte)   (* the pointer, and the characters up to the null *)
| string_arg (s : list byte)
| pointer_arg (p : Z).

Definition is_integral_type (a : arg) : bool :=
  match a with cstring_arg _ _ | string_arg _ | pointer_arg _ => false | _ => true end.
Definition is_arithmetic_type (a : arg) : bool := is_integral_type a.

(** Their values fit their types. *)
Definition arg_ok (a : arg) : Prop :=
  match a with
  | int_arg v => in_s 32 v | uint_arg v => in_u 32 v | long_long_arg v => in_s 64 v | ulong_long_arg v => in_u 64 v
  | cstring_arg p _ => in_u 64 p | pointer_arg p => in_u 64 p
  | _ => True
  end.

Definition get_arg (args : list arg) (id : Z) : result arg :=
  match (if id <? 0 then None else args !! Z.to_nat id) with Some a => Done a | None => on_error "argument not found" end.

(** ** Format specifications *)
Inductive align_t := align_none | align_left | align_right | align_center | align_numeric.
Inductive sign_t := sign_none | sign_minus | sign_plus | sign_space.
Record format_specs := mkSpecs {
  width : Z;
  precision : Z;
  type_ : option byte;
  align : align_t;
  sign : sign_t;
  alt : bool;
  fill : list byte
}.
Definition default_specs : format_specs := mkSpecs 0 (-1) None align_none sign_none false [x20].

Definition set_width x s := mkSpecs x (precision s) (type_ s) (align s) (sign s) (alt s) (fill s).
Definition set_precision x s := mkSpecs (width s) x (type_ s) (align s) (sign s) (alt s) (fill s).
(** A null character is no type. *)
Definition on_type x s := mkSpecs (width s) (precision s) (if decide (x = x00) then None else Some x) (align s) (sign s) (alt s) (fill s).
Definition set_align x s := mkSpecs (width s) (precision s) (type_ s) x (sign s) (alt s) (fill s).
Definition set_sign x s := mkSpecs (width s) (precision s) (type_ s) (align s) x (alt s) (fill s).
Definition set_alt x s := mkSpecs (width s) (precision s) (type_ s) (align s) (sign s) x (fill s).
Definition set_fill x s := mkSpecs (width s) (precision s) (type_ s) (align s) (sign s) (alt s) x.

Definition max_size : Z := 4.
Definition on_fill (f : list byte) (s : format_specs) : result format_specs :=
  if max_size <? zlen f then on_error "invalid fill" else Done (set_fill f s).

(** [numeric_specs_checker], for the argument [a]. *)
Definition require_numeric_argument (a : arg) : result unit :=
  if is_arithmetic_type a then Done tt else on_error "format specifier requires numeric argument".
Definition check_sign (a : arg) : result unit :=
  _ ← require_numeric_argument a;
  match a with
  | uint_arg _ | ulong_long_arg _ | bool_arg _ => on_error "format specifier requires signed argument"
  | _ => Done tt
  end.
Definition check_precision (a : arg) : result unit :=
  match a with
  | cstring_arg _ _ | string_arg _ => Done tt
  | _ => on_error "precision not allowed for this argument type"
  end.

Definition on_sign (a : arg) (x : sign_t) (s : format_specs) : result format_specs := _ ← check_sign a; Done (set_sign x s).
Definition on_hash (a : arg) (s : format_specs) : result format_specs := _ ← require_numeric_argument a; Done (set_alt true s).
(** Only the first character of the fill changes. *)
Definition on_zero (a : arg) (s : format_specs) : result format_specs :=
  _ ← require_numeric_argument a; Done (set_fill (<[0%nat := x30]> (fill s)) (set_align align_numeric s)).

(** ** Writing *)
Definition left_padding_shifts (a : align_t) : Z :=
  match a with align_none => 31 | align_left => 31 | align_right => 0 | align_center => 1 | align_numeric => 0 end.
Definition right_padding_shifts (a : align_t) : Z :=
  match a with align_none => 0 | align_left => 31 | align_right => 0 | align_center => 1 | align_numeric => 0 end.

Definition fill_n (n : Z) (f : list byte) : list byte := concat (replicate (Z.to_nat n) f).

(** The output with its padding, aligned by default as [shifts] says. *)
Definition write_padded (shifts : align_t → Z) (specs : format_specs) (width_of : Z) (body : list byte) : result (list byte) :=
  _ ← FMT_ASSERT (0 <=? width specs);
  let padding := if width_of <? width specs then width specs - width_of else 0 in
  let left_padding := Z.shiftr padding (shifts (align specs)) in
  Done (fill_n left_padding (fill specs) ++ body ++ fill_n (padding - left_padding) (fill specs)).

(** The size and the number of leading zeros of a number. *)
Definition write_int_data (num_digits : Z) (prefix : list byte) (specs : format_specs) : result (Z * Z) :=
  let size := zlen prefix + num_digits in
  match align specs with
  | align_numeric =>
      _ ← FMT_ASSERT (0 <=? width specs);
      Done (if size <? width specs then (width specs, width specs - size) else (size, 0))
  | _ => Done (if num_digits <? precision specs then (zlen prefix + precision specs, precision specs - num_digits) else (size, 0))
  end.
Definition write_int (num_digits : Z) (prefix : list byte) (specs : format_specs) (f : outcome (list byte)) : result (list byte) :=
  '(size, padding) ← write_int_data num_digits prefix specs;
  ds ← lift f;
  write_padded right_padding_shifts specs size (prefix ++ replicate (Z.to_nat padding) x30 ++ ds).

(** A number in a buffer that it fills. *)
Definition decimal (ty : uint_type) (v num_digits : Z) : outcome (list byte) :=
  '(begin, s) ← format_decimal ty v num_digits; if begin =? 0 then Ok s else Err OutOfRange.

Section int_writer.
Context (ty : uint_type) (specs : format_specs).

(** The absolute value and the sign of a number. *)
Definition int_writer (value : Z) : Z * list byte :=
  let abs_value := wrapu (bits ty) value in
  if value <? 0 then (wrapu (bits ty) (0 - abs_value), str "-")
  else (abs_value, match sign specs with sign_plus => str "+" | sign_space => str " " | _ => [] end).

Definition on_dec (abs_value : Z) (prefix : list byte) : result (list byte) :=
  num_digits ← lift (count_digits ty abs_value);
  write_int num_digits prefix specs (decimal ty abs_value num_digits).
Definition on_hex (t : byte) (abs_value : Z) (prefix : list byte) : result (list byte) :=
  let prefix := if alt specs then prefix ++ [x30; t] else prefix in
  num_digits ← lift (count_base 4 abs_value);
  write_int num_digits prefix specs (format_uint 4 abs_value num_digits (negb (bool_decide (t = "x"%byte)))).
Definition on_bin (t : byte) (abs_value : Z) (prefix : list byte) : result (list byte) :=
  let prefix := if alt specs then prefix ++ [x30; t] else prefix in
  num_digits ← lift (count_base 1 abs_value);
  write_int num_digits prefix specs (format_uint 1 abs_value num_digits false).
Definition on_oct (abs_value : Z) (prefix : list byte) : result (list byte) :=
  num_digits ← lift (count_base 3 abs_value);
  let prefix := if alt specs && (precision specs <=? num_digits) && negb (abs_value =? 0) then prefix ++ [x30] else prefix in
  write_int num_digits prefix specs (format_uint 3 abs_value num_digits false).
(** The classic locale groups no digits. *)
Definition on_num : Z → list byte → result (list byte) := on_dec.
Definition on_chr (abs_value : Z) : result (list byte) := Done [byte_of abs_value].

Definition handle_int_type_spec (value : Z) : result (list byte) :=
  let '(abs_value, prefix) := int_writer value in
  match type_ specs with
  | None => on_dec abs_value prefix
  | Some t =>
      match t with
      | "d" => on_dec abs_value prefix
      | "x" | "X" => on_hex t abs_value prefix
      | "b" | "B" => on_bin t abs_value prefix
      | "o" => on_oct abs_value prefix
      | "L" => on_num abs_value prefix
      | "c" => on_chr abs_value
      | _ => on_error "invalid type specifier"
      end%byte
  end.
End int_writer.

(** The code points of a string are the bytes that do not continue one. *)
Definition count_code_points (s : list byte) : Z :=
  zlen (filter (λ c, Z.land (byte_val c) 192 ≠ 128) s).
(** A precision counts bytes. *)
Definition code_point_index (s : list byte) (n : Z) : Z := Z.min n (zlen s).
Definition write_string (s : list byte) (specs : format_specs) : result (list byte) :=
  let size := if (0 <=? precision specs) && (precision specs <? zlen s) then code_point_index s (precision specs) else zlen s in
  let data := take (Z.to_nat size) s in
  write_padded left_padding_shifts specs (if width specs =? 0 then 0 else count_code_points data) data.

Definition write_ptr (value : Z) (specs : option format_specs) : result (list byte) :=
  num_digits ← lift (count_base 4 value);
  ds ← lift (format_uint 4 value num_digits false);
  let text := str "0x" ++ ds in
  match specs with
  | Some specs => write_padded right_padding_shifts specs (num_digits + 2) text
  | None => Done text
  end.

(** Without specifications. *)
Definition write_dec (ty : uint_type) (value : Z) : result (list byte) :=
  let abs_value := wrapu (bits ty) value in
  let negative := value <? 0 in
  let abs_value := if negative then wrapu (bits ty) (wrapu (bits ty) (Z.lnot abs_value) + 1) else abs_value in
  num_digits ← lift (count_digits ty abs_value);
  ds ← lift (decimal ty abs_value num_digits);
  Done ((if negative then str "-" else []) ++ ds).
Definition bool_text (b : bool) : list byte := if b then str "true" else str "false".
Definition default_arg_formatter (a : arg) : result (list byte) :=
  match a with
  | int_arg v | uint_arg v => write_dec uint32 v
  | long_long_arg v | ulong_long_arg v => write_dec uint64 v
  | bool_arg b => Done (bool_text b)
  | char_arg c => Done [c]
  | cstring_arg p s => if p =? 0 then on_error "string pointer is null" else Done s
  | string_arg s => Done s
  | pointer_arg p => write_ptr p None
  end.

(** A [char] is signed. *)
Definition char_val (c : byte) : Z := wraps 8 (byte_val c).

Definition type_in (ts : list byte) (specs : format_specs) : bool :=
  match type_ specs with None => true | Some t => bool_decide (t ∈ ts) end.

Definition handle_char_specs (c : byte) (specs : format_specs) : result (list byte) :=
  if negb (type_in ["c"%byte] specs) then handle_int_type_spec uint32 specs (char_val c)
  else
    _ ← (match align specs, sign specs, alt specs with
         | align_numeric, _, _ | _, _, true | _, (sign_minus | sign_plus | sign_space), _ => on_error "invalid format specifier for char"
         | _, _, _ => Done tt
         end);
    write_padded left_padding_shifts specs 1 [c].

Definition arg_formatter (specs : format_specs) (a : arg) : result (list byte) :=
  match a with
  | int_arg v | uint_arg v => handle_int_type_spec uint32 specs v
  | long_long_arg v | ulong_long_arg v => handle_int_type_spec uint64 specs v
  | bool_arg b =>
      match type_ specs with
      | Some _ => handle_int_type_spec uint32 specs (if b then 1 else 0)
      | None => write_string (bool_text b) specs
      end
  | char_arg c => handle_char_specs c specs
  | cstring_arg p s =>
      if type_in ["s"%byte] specs then
        (if p =? 0 then on_error "string pointer is null" else write_string s specs)
      else if type_in ["p"%byte] specs then write_ptr p (Some specs)
      else on_error "invalid type specifier"
  | string_arg s => if type_in ["s"%byte] specs then write_string s specs else on_error "invalid type specifier"
  | pointer_arg p => if type_in ["p"%byte] specs then write_ptr p (Some specs) else on_error "invalid type specifier"
  end.

(** ** Parsing *)
Definition is_dec (c : byte) : bool := (48 <=? byte_val c) && (byte_val c <=? 57).
Definition is_ascii_letter (c : byte) : bool :=
  ((97 <=? byte_val c) && (byte_val c <=? 122)) || ((65 <=? byte_val c) && (byte_val c <=? 90)).
Definition is_name_start (c : byte) : bool := is_ascii_letter c || bool_decide (c = "_"%byte).

Definition max_int : Z := 2 ^ 31 - 1.
Definition big : Z := max_int / 10.

(** The loop has the digits from the current one on. *)
Fixpoint nonnegative_loop (value : Z) (s : list byte) : Z * list byte :=
  match s with
  | c :: r =>
      if is_dec c then
        if big <? value then (max_int + 1, s) else nonnegative_loop (u32 (value * 10 + (byte_val c - 48))) r
      else (value, s)
  | [] => (value, [])
  end.
Definition parse_nonnegative_int (s : list byte) : result (Z * list byte) :=
  _ ← FMT_ASSERT (match s with c :: _ => is_dec c | [] => false end);
  let '(value, s) := nonnegative_loop 0 s in
  if max_int <? value then on_error "number is too big" else Done (value, s).

(** What follows [c], where [c] is the next character. *)
Definition strip (c : byte) (s : list byte) : option (list byte) :=
  match s with x :: r => if decide (x = c) then Some r else None | [] => None end.

Inductive arg_id := auto_id | index_id (i : Z) | name_id (name : list byte).

(** The rest of a name, and what follows it. *)
Fixpoint name_rest (s : list byte) : list byte * list byte :=
  match s with
  | c :: r => if is_name_start c || is_dec c then let '(n, r) := name_rest r in (c :: n, r) else ([], s)
  | [] => ([], [])
  end.

Definition ends_id (s : list byte) : bool := match s with c :: _ => bool_decide (c ∈ ["}"; ":"]%byte) | [] => false end.

Definition parse_arg_id (s : list byte) : result (arg_id * list byte) :=
  match s with
  | [] => Crash AssertFailed
  | c :: r =>
      if bool_decide (c ∈ ["}"; ":"]%byte) then Done (auto_id, s)
      else if is_dec c then
        '(index, s) ← (if decide (c = "0"%byte) then Done (0, r) else parse_nonnegative_int s);
        if ends_id s then Done (index_id index, s) else on_error "invalid format string"
      else if is_name_start c then let '(n, r) := name_rest r in Done (name_id (c :: n), r)
      else on_error "invalid format string"
  end.

(** The parse context: automatic ids from 0 on, or manual ones. *)
Definition next_arg_id_ (next : Z) : result (Z * Z) :=
  if 0 <=? next then Done (next, next + 1) else on_error "cannot switch from manual to automatic argument indexing".
Definition check_arg_id (next : Z) : result Z :=
  if 0 <? next then on_error "cannot switch from automatic to manual argument indexing" else Done (-1).

(** The id of an argument; no argument has a name. *)
Definition on_arg_id (id : arg_id) (next : Z) : result (Z * Z) :=
  match id with
  | auto_id => next_arg_id_ next
  | index_id i => next ← check_arg_id next; Done (i, next)
  | name_id _ => on_error "argument not found"
  end.

Section parser.
Context (args : list arg).

(** [get_dynamic_spec] with [width_checker] or [precision_checker]. *)
Definition get_dynamic_spec (what : string) (a : arg) : result Z :=
  value ← (match a with
           | int_arg v | uint_arg v | long_long_arg v | ulong_long_arg v =>
               if v <? 0 then Throw (str "negative " ++ str what) else Done v
           | _ => Throw (str what ++ str " is not integer")
           end);
  if max_int <? value then on_error "number is too big" else Done value.

Definition dynamic_spec (what : string) (id : arg_id) (next : Z) : result (Z * Z) :=
  '(i, next) ← on_arg_id id next;
  a ← get_arg args i;
  v ← get_dynamic_spec what a;
  Done (v, next).

Definition code_point_lengths : list Z :=
  [1; 1; 1; 1; 1; 1; 1; 1; 1; 1; 1; 1; 1; 1; 1; 1; 0; 0; 0; 0; 0; 0; 0; 0; 2; 2; 2; 2; 3; 3; 4; 0].
Definition code_point_length (c : byte) : outcome Z :=
  len ← read_at (Z.shiftr (byte_val c) 3) code_point_lengths;
  Ok (len + (if len =? 0 then 1 else 0)).

Definition align_of (c : byte) : align_t :=
  match c with "<" => align_left | ">" => align_right | "^" => align_center | _ => align_none end%byte.

(** Fill and alignment: the character behind the first one is tried, then the first one. *)
Definition parse_align (a : arg) (s : list byte) (specs : format_specs) : result (format_specs * list byte) :=
  match s with
  | [] => Crash AssertFailed
  | c :: r =>
      len ← lift (code_point_length c);
      let p := if zlen s <=? len then 0 else len in
      let first := match align_of c with align_none => Done (specs, s) | x => Done (set_align x specs, r) end in
      if p =? 0 then first
      else
        d ← lift (read_at p s);
        match align_of d with
        | align_none => first
        | x =>
            if decide (c = "{"%byte) then on_error "invalid fill character '{'"
            else specs ← on_fill (take (Z.to_nat p) s) specs; Done (set_align x specs, drop (Z.to_nat (p + 1)) s)
        end
  end.

Definition parse_sign (a : arg) (s : list byte) (specs : format_specs) : result (format_specs * list byte) :=
  match strip "+" s, strip "-" s, strip " " s with
  | Some r, _, _ => specs ← on_sign a sign_plus specs; Done (specs, r)
  | _, Some r, _ => specs ← on_sign a sign_minus specs; Done (specs, r)
  | _, _, Some r => specs ← on_sign a sign_space specs; Done (specs, r)
  | _, _, _ => Done (specs, s)
  end.

(** A dynamic width or precision, behind its brace. *)
Definition parse_dynamic (what : string) (next : Z) (r : list byte) : result (Z * Z * list byte) :=
  match r with
  | [] => on_error "invalid format string"
  | _ =>
      '(id, r) ← parse_arg_id r;
      '(v, next) ← dynamic_spec what id next;
      match strip "}" r with Some r => Done (v, next, r) | None => on_error "invalid format string" end
  end.

Definition parse_width (next : Z) (s : list byte) (specs : format_specs) : result (format_specs * Z * list byte) :=
  match s with
  | [] => Crash AssertFailed
  | c :: r =>
      if is_dec c then '(v, s) ← parse_nonnegative_int s; Done (set_width v specs, next, s)
      else if decide (c = "{"%byte) then '(v, next, s) ← parse_dynamic "width" next r; Done (set_width v specs, next, s)
      else Done (specs, next, s)
  end.

(** Behind the point. *)
Definition parse_precision (a : arg) (next : Z) (s : list byte) (specs : format_specs) : result (format_specs * Z * list byte) :=
  '(specs, next, s) ← (match s with
    | c :: r =>
        if is_dec c then '(v, s) ← parse_nonnegative_int s; Done (set_precision v specs, next, s)
        else if decide (c = "{"%byte) then '(v, next, s) ← parse_dynamic "precision" next r; Done (set_precision v specs, next, s)
        else on_error "missing precision specifier"
    | [] => on_error "missing precision specifier"
    end);
  _ ← check_precision a;
  Done (specs, next, s).

Definition parse_type (next : Z) (s : list byte) (specs : format_specs) : result (format_specs * Z * list byte) :=
  match s with
  | c :: r => if decide (c = "}"%byte) then Done (specs, next, s) else Done (on_type c specs, next, r)
  | [] => Done (specs, next, s)
  end.

(** Each step ends the specifications where the string ends. *)
Definition parse_format_specs (a : arg) (next : Z) (s : list byte) (specs : format_specs) : result (format_specs * Z * list byte) :=
  let or_end specs next s (k : result (format_specs * Z * list byte)) :=
    match s with [] => Done (specs, next, s) | _ => k end in
  or_end specs next s (
  '(specs, s) ← parse_align a s specs; or_end specs next s (
  '(specs, s) ← parse_sign a s specs; or_end specs next s (
  '(specs, s) ← (match strip "#" s with Some r => specs ← on_hash a specs; Done (specs, r) | None => Done (specs, s) end);
  or_end specs next s (
  '(specs, s) ← (match strip "0" s with Some r => specs ← on_zero a specs; Done (specs, r) | None => Done (specs, s) end);
  or_end specs next s (
  '(specs, next, s) ← parse_width next s specs; or_end specs next s (
  '(specs, next, s) ← (match strip "." s with Some r => parse_precision a next r specs | None => Done (specs, next, s) end);
  parse_type next s specs)))))).

(** ** format_handler *)
Record format_handler := mkHandler { out : list byte; next_arg_id : Z }.

Definition on_text (t : list byte) (h : format_handler) : format_handler := mkHandler (out h ++ t) (next_arg_id h).

Definition on_replacement_field (id : Z) (h : format_handler) : result format_handler :=
  a ← get_arg args id;
  t ← default_arg_formatter a;
  Done (on_text t h).

Definition closes (s : list byte) : bool := match strip "}" s with Some _ => true | None => false end.

(** One letter before the brace is a type, and is not checked. *)
Definition on_format_specs (id : Z) (s : list byte) (h : format_handler) : result (format_handler * list byte) :=
  a ← get_arg args id;
  '(specs, next, s) ← (match s with
    | c :: r =>
        if closes r && is_ascii_letter c then Done (on_type c default_specs, next_arg_id h, r)
        else
          '(specs, next, s) ← parse_format_specs a (next_arg_id h) s default_specs;
          if closes s then Done (specs, next, s) else on_error "missing '}' in format string"
    | [] => on_error "missing '}' in format string"
    end);
  t ← arg_formatter specs a;
  Done (mkHandler (out h ++ t) next, s).

(** From behind the opening brace. *)
Definition parse_replacement_field (s : list byte) (h : format_handler) : result (format_handler * list byte) :=
  match s, strip "}" s, strip "{" s with
  | [], _, _ => on_error "invalid format string"
  | _, Some r, _ => '(id, next) ← on_arg_id auto_id (next_arg_id h); h ← on_replacement_field id (mkHandler (out h) next); Done (h, r)
  | _, _, Some r => Done (on_text (str "{") h, r)
  | _, _, _ =>
      '(id, s) ← parse_arg_id s;
      '(i, next) ← on_arg_id id (next_arg_id h);
      let h := mkHandler (out h) next in
      match strip "}" s, strip ":" s with
      | Some r, _ => h ← on_replacement_field i h; Done (h, r)
      | _, Some r =>
          '(h, s) ← on_format_specs i r h;
          match strip "}" s with Some r => Done (h, r) | None => on_error "unknown format specifier" end
      | _, _ => on_error "missing '}' in format string"
      end
  end.

(** The loop for short strings: [text] is what stands from [begin] to [p]. *)
Fixpoint parse_short (fuel : nat) (text s : list byte) (h : format_handler) : result format_handler :=
  match s with
  | [] => Done (on_text text h)
  | c :: r =>
      match fuel with
      | O => Crash OutOfFuel
      | S fuel =>
          if decide (c = "{"%byte) then
            '(h, s) ← parse_replacement_field r (on_text text h);
            parse_short fuel [] s h
          else if decide (c = "}"%byte) then
            match strip "}" r with
            | Some r => parse_short fuel [] r (on_text (text ++ [c]) h)
            | None => on_error "unmatched '}' in format string"
            end
          else parse_short fuel (text ++ [c]) r h
      end
  end.

(** [memchr]. *)
Fixpoint find (c : byte) (s : list byte) : option nat :=
  match s with [] => None | x :: r => if decide (x = c) then Some 0%nat else S <$> find c r end.

(** The writer of text between replacement fields. *)
Fixpoint write_text (fuel : nat) (s : list byte) (h : format_handler) : result format_handler :=
  match s with
  | [] => Done h
  | _ =>
      match fuel with
      | O => Crash OutOfFuel
      | S fuel =>
          match find "}" s with
          | None => Done (on_text s h)
          | Some k =>
              if closes (drop (S k) s) then write_text fuel (drop (S (S k)) s) (on_text (take (S k) s) h)
              else on_error "unmatched '}' in format string"
          end
      end
  end.

(** The loop for long strings. *)
Fixpoint parse_long (fuel : nat) (s : list byte) (h : format_handler) : result format_handler :=
  match s with
  | [] => Done h
  | _ =>
      match fuel with
      | O => Crash OutOfFuel
      | S fuel =>
          match find "{" s with
          | None => write_text (length s) s h
          | Some k =>
              h ← write_text k (take k s) h;
              '(h, s) ← parse_replacement_field (drop (S k) s) h;
              parse_long fuel s h
          end
      end
  end.

Definition parse_format_string (s : list byte) (h : format_handler) : result format_handler :=
  if zlen s <? 32 then parse_short (length s) [] s h else parse_long (length s) s h.

(** [detail::vformat_to], into an empty buffer. *)
Definition vformat_to (format_str : list byte) : result (list byte) :=
  if decide (format_str = str "{}") then a ← get_arg args 0; default_arg_formatter a
  else h ← parse_format_string format_str (mkHandler [] 0); Done (out h).
End parser.

(** ** Some lines of the library *)
Example fields : vformat_to [string_arg (str "echo"); int_arg (-7); pointer_arg 48879] (str "{2:>10} fd= {1:+05d} {0:.2}") =
  Done (str "    0xbeef fd= -0007 ec").
Proof. by vm_compute. Qed.
Example braces : vformat_to [string_arg (str "echo"); int_arg (-7)] (str "a {{{}}} and {:#x} in more than 32 characters") =
  Done (str "a {echo} and -0x7 in more than 32 characters").
Proof. by vm_compute. Qed.

(** ** No format string makes the formatter fail *)
Definition safe {A} (m : result A) (Q : A → Prop) : Prop :=
  match m with Done a => Q a | Throw _ => True | Crash _ => False end.

Lemma safe_bind {A B} (m : result A) (k : A → result B) (R : A → Prop) (Q : B → Prop) :
  safe m R → (∀ a, R a → safe (k a) Q) → safe (m ≫= k) Q.
Proof. destruct m; simpl; [by auto|done|done]. Qed.
Lemma safe_mono {A} (m : result A) (P Q : A → Prop) : safe m P → (∀ a, P a → Q a) → safe m Q.
Proof. destruct m; simpl; auto. Qed.
Lemma safe_true {A} (m : result A) Q : safe m Q → safe m (λ _, True).
Proof. intros H. eapply safe_mono; [exact H|done]. Qed.

Definition specs_ok (s : format_specs) : Prop := 0 ≤ width s.
Abbreviation parsed s := (λ '((sp, _, r) : format_specs * Z * list byte), specs_ok sp ∧ (length (r : list byte) ≤ length (s : list byte))%nat).

(** Steps that only check or set a field. *)
Lemma safe_require a Q : Q tt → safe (require_numeric_argument a) Q.
Proof. intros. unfold require_numeric_argument. by case_match. Qed.
Lemma safe_check_sign a Q : Q tt → safe (check_sign a) Q.
Proof. intros HQ. unfold check_sign. eapply (safe_bind _ _ (λ _, True)); [by apply safe_require|]. intros _ _. by destruct a. Qed.
Lemma safe_check_precision a Q : Q tt → safe (check_precision a) Q.
Proof. intros. by destruct a. Qed.

Lemma nonnegative_loop_bounds v s : 0 ≤ v → let '(v', r) := nonnegative_loop v s in 0 ≤ v' ∧ (length r ≤ length s)%nat.
Proof.
  revert v. induction s as [|c s IH]; intros v Hv; cbn [nonnegative_loop]; [simpl; lia|].
  destruct (is_dec c); [|simpl; lia]. destruct (big <? v); [unfold max_int; simpl; lia|].
  specialize (IH (u32 (v * 10 + (byte_val c - 48))) ltac:(apply wrapu_range; lia)).
  destruct (nonnegative_loop _ s) as [v' r]. simpl. lia.
Qed.

Lemma safe_nonnegative c r : is_dec c = true → safe (parse_nonnegative_int (c :: r)) (λ '(v, r'), 0 ≤ v ∧ (length r' ≤ S (length r))%nat).
Proof.
  intros Hc. unfold parse_nonnegative_int. rewrite Hc. cbn [FMT_ASSERT assert_ lift mbind result_bind].
  pose proof (nonnegative_loop_bounds 0 (c :: r) ltac:(done)) as H. destruct (nonnegative_loop 0 (c :: r)) as [v r'].
  by destruct (max_int <? v).
Qed.

Lemma strip_Some c s r : strip c s = Some r → s = c :: r.
Proof. destruct s as [|x s]; simpl; [done|]. case_decide; [|done]. by intros [= ->]; subst. Qed.

Lemma name_rest_length s : (length (name_rest s).2 ≤ length s)%nat.
Proof.
  induction s as [|c s IH]; simpl; [lia|]. case_match; simpl; [|lia]. destruct (name_rest s) as [n r]. simpl in *. lia.
Qed.

Lemma safe_arg_id s : s ≠ [] → safe (parse_arg_id s) (λ '(_, r), (length r ≤ length s)%nat).
Proof.
  destruct s as [|c s]; [done|]. intros _. unfold parse_arg_id. destruct (bool_decide _); [simpl; lia|].
  destruct (is_dec c) eqn:Hc.
  - eapply (safe_bind _ _ (λ '(_, r), (length r ≤ S (length s))%nat)).
    + destruct (decide _); [simpl; lia|]. eapply safe_mono; [by apply safe_nonnegative|]. by intros [v r] [_ ?].
    + intros [i r] ?. by destruct (ends_id r).
  - destruct (is_name_start c); [|done]. pose proof (name_rest_length s). destruct (name_rest s). simpl in *. lia.
Qed.

Lemma safe_on_arg_id id next : safe (on_arg_id id next) (λ _, True).
Proof. destruct id; simpl; unfold next_arg_id_, check_arg_id; [by destruct (0 <=? next)|by destruct (0 <? next)|done]. Qed.
Lemma safe_get_arg args id : Forall arg_ok args → safe (get_arg args id) arg_ok.
Proof.
  intros Hargs. unfold get_arg. destruct (if id <? 0 then None else _) as [a|] eqn:E; [|done]. simpl.
  destruct (id <? 0); [done|]. by eapply Forall_lookup_1.
Qed.

Section safe_parsing.
Context (args : list arg) (Hargs : Forall arg_ok args).

Lemma safe_dynamic_spec what id next : safe (dynamic_spec args what id next) (λ '(v, _), 0 ≤ v).
Proof.
  unfold dynamic_spec. eapply safe_bind; [apply safe_on_arg_id|]. intros [i n] _.
  eapply safe_bind; [by apply safe_get_arg|]. intros a Ha. eapply (safe_bind _ _ (λ v, 0 ≤ v)); [|by intros].
  unfold get_dynamic_spec. eapply (safe_bind _ _ (λ v, 0 ≤ v)).
  - destruct a; simpl; try done; destruct (Z.ltb_spec v 0); simpl; done.
  - intros v Hv. by destruct (max_int <? v).
Qed.

Lemma safe_parse_align a s specs : s ≠ [] → specs_ok specs →
  safe (parse_align a s specs) (λ '(sp, r), specs_ok sp ∧ (length r ≤ length s)%nat).
Proof.
  destruct s as [|c s]; [done|]. intros _ Hok. unfold parse_align.
  assert (Hlen : ∃ len, code_point_length c = Ok len ∧ 1 ≤ len ≤ 4).
  { assert (H : forallb (λ i, match read_at i code_point_lengths with Ok n => (0 <=? n) && (n <=? 4) | Err _ => false end) (seqZ 0 32) = true) by by vm_compute.
    apply (forallb_seqZ _ _ (Z.shiftr (byte_val c) 3)) in H; cbv beta in H.
    - unfold code_point_length. destruct (read_at _ code_point_lengths) as [n|]; [|done]. ok_simpl. eexists. split; [done|].
      apply andb_true_iff in H as [?%Z.leb_le ?%Z.leb_le]. destruct (Z.eqb_spec n 0); lia.
    - pose proof (byte_val_range c). rewrite Z.shiftr_div_pow2 by done. change (2 ^ 3) with 8.
      split; [apply Z.div_pos|apply Z.div_lt_upper_bound]; lia. }
  destruct Hlen as (len & -> & Hl). cbn [lift mbind result_bind].
  set (first := match align_of c with align_none => _ | _ => _ end).
  assert (Hfirst : safe first (λ '(sp, r), specs_ok sp ∧ (length r ≤ length (c :: s))%nat)).
  { unfold first. destruct (align_of c); simpl; split; done || lia. }
  destruct (Z.leb_spec (zlen (c :: s)) len) as [Hle|Hlt]; cbn [Z.eqb]; [done|].
  rewrite (proj2 (Z.eqb_neq len 0)) by lia. destruct (lookup_lt_is_Some_2 (c :: s) (Z.to_nat len)) as [d Hd].
  { unfold zlen in Hlt. lia. }
  unfold read_at. rewrite (proj2 (Z.leb_le 0 len)) by lia. rewrite Hd. cbn [lift mbind result_bind].
  destruct (align_of d); [done| | | |]; case_decide; try done; unfold on_fill; case_match; try done.
  all: cbn [mbind result_bind safe]; split; [done|rewrite length_drop; lia].
Qed.

Lemma safe_parse_sign a s specs : specs_ok specs → safe (parse_sign a s specs) (λ '(sp, r), specs_ok sp ∧ (length r ≤ length s)%nat).
Proof.
  intros Hok. unfold parse_sign.
  assert (Hs : ∀ c x r, strip c s = Some r → safe (specs ← on_sign a x specs; Done (specs, r)) (λ '(sp, r), specs_ok sp ∧ (length r ≤ length s)%nat)).
  { intros c x r ->%strip_Some. unfold on_sign. eapply (safe_bind _ _ (λ sp, specs_ok sp)); [|intros; simpl; lia || (split; [done|lia])].
    eapply (safe_bind _ _ (λ _, True)); [by apply safe_check_sign|by intros]. }
  destruct (strip "+" s) eqn:?; [by eapply Hs|]. destruct (strip "-" s) eqn:?; [by eapply Hs|]. destruct (strip " " s) eqn:?; [by eapply Hs|].
  by split.
Qed.

Lemma safe_parse_dynamic what next r : safe (parse_dynamic args what next r) (λ '(v, _, r'), 0 ≤ v ∧ (length r' ≤ length r)%nat).
Proof.
  destruct r as [|c r]; [done|]. unfold parse_dynamic. eapply safe_bind; [by apply safe_arg_id|]. intros [id r1] Hr.
  eapply safe_bind; [by apply safe_dynamic_spec|]. intros [v n] Hv. destruct (strip "}" r1) eqn:E; [|done].
  apply strip_Some in E as ->. simpl in *. lia.
Qed.

Lemma safe_parse_width next s specs : s ≠ [] → specs_ok specs → safe (parse_width args next s specs) (parsed s).
Proof.
  destruct s as [|c r]; [done|]. intros _ Hok. unfold parse_width. destruct (is_dec c) eqn:Hc.
  - eapply safe_bind; [by apply safe_nonnegative|]. by intros [v r'] [? ?].
  - destruct (decide _).
    + eapply safe_bind; [by apply safe_parse_dynamic|]. intros [[v n] r'] [? ?]. simpl. split; [done|lia].
    + by split.
Qed.

Lemma safe_parse_precision a next s specs : specs_ok specs → safe (parse_precision args a next s specs) (parsed s).
Proof.
  intros Hok. unfold parse_precision. eapply (safe_bind _ _ (parsed s)).
  - destruct s as [|c r]; [done|]. destruct (is_dec c) eqn:Hc.
    + eapply safe_bind; [by apply safe_nonnegative|]. by intros [v r'] [? ?].
    + destruct (decide _); [|done].
      eapply safe_bind; [by apply safe_parse_dynamic|]. intros [[v n] r'] [? ?]. simpl. split; [done|lia].
  - intros [[sp n] r] Hr. eapply (safe_bind _ _ (λ _, True)); [by apply safe_check_precision|by intros].
Qed.

Lemma safe_parse_type next s specs : specs_ok specs → safe (parse_type next s specs) (parsed s).
Proof. intros. destruct s as [|c r]; [by split|]. simpl. destruct (decide _); split; done || simpl; lia. Qed.

(** A step that takes a flag, and one that ends where the string does. *)
Lemma safe_flag (c : byte) (set : format_specs → result format_specs) s specs :
  specs_ok specs → safe (set specs) specs_ok →
  safe (match strip c s with Some r => specs ← set specs; Done (specs, r) | None => Done (specs, s) end)
    (λ '(sp, r), specs_ok sp ∧ (length r ≤ length s)%nat).
Proof.
  intros Hok Hset. destruct (strip c s) as [r|] eqn:E; [|by split]. apply strip_Some in E as ->.
  eapply safe_bind; [exact Hset|]. intros sp ?. simpl. split; [done|lia].
Qed.
Lemma safe_or_end s0 specs next s k : specs_ok specs → (length s ≤ length s0)%nat → (s ≠ [] → safe k (parsed s0)) →
  safe (match s with [] => Done (specs, next, s) | _ => k end) (parsed s0).
Proof. intros ? ? Hk. destruct s; [by split|by apply Hk]. Qed.

Lemma safe_on_hash a specs : specs_ok specs → safe (on_hash a specs) specs_ok.
Proof. intros. unfold on_hash. eapply (safe_bind _ _ (λ _, True)); [by apply safe_require|by intros]. Qed.
Lemma safe_on_zero a specs : specs_ok specs → safe (on_zero a specs) specs_ok.
Proof. intros. unfold on_zero. eapply (safe_bind _ _ (λ _, True)); [by apply safe_require|by intros]. Qed.

Lemma safe_parse_format_specs a next s specs : specs_ok specs → safe (parse_format_specs args a next s specs) (parsed s).
Proof.
  intros Hok. unfold parse_format_specs. apply safe_or_end; [done|done|]. intros Hs.
  eapply safe_bind; [by apply safe_parse_align|]. intros [sp1 s1] [Hok1 H1]. apply safe_or_end; [done|done|]. intros Hs1.
  eapply safe_bind; [by apply safe_parse_sign|]. intros [sp2 s2] [Hok2 H2]. apply safe_or_end; [done|lia|]. intros Hs2.
  eapply safe_bind; [apply safe_flag; [done|by apply safe_on_hash]|]. intros [sp3 s3] [Hok3 H3]. apply safe_or_end; [done|lia|]. intros Hs3.
  eapply safe_bind; [apply safe_flag; [done|by apply safe_on_zero]|]. intros [sp4 s4] [Hok4 H4]. apply safe_or_end; [done|lia|]. intros Hs4.
  eapply safe_bind; [by apply safe_parse_width|]. intros [[sp5 n5] s5] [Hok5 H5]. apply safe_or_end; [done|lia|]. intros Hs5.
  eapply (safe_bind _ _ (parsed s5)).
  - destruct (strip "." s5) as [r|] eqn:E; [|by split]. apply strip_Some in E as ->.
    eapply safe_mono; [by apply safe_parse_precision|]. intros [[sp n] r'] [? ?]. split; [done|simpl; lia].
  - intros [[sp6 n6] s6] [Hok6 H6]. eapply safe_mono; [by apply safe_parse_type|]. intros [[sp n] r'] [? ?]. split; [done|lia].
Qed.
End safe_parsing.

(** ** Nor does a value *)
Lemma decimal_ok ty v : in_u (bits ty) v → decimal ty v (zlen (to_string v)) = Ok (to_string v).
Proof. intros Hv. unfold decimal. rewrite format_decimal_ok by done. ok_simpl. by rewrite Z.sub_diag. Qed.

Lemma safe_write_padded shifts specs w body : specs_ok specs → safe (write_padded shifts specs w body) (λ _, True).
Proof. intros Hok. unfold write_padded, FMT_ASSERT. by rewrite assert_true by by apply Z.leb_le. Qed.

Lemma safe_write_int n prefix specs f ds : specs_ok specs → f = Ok ds → safe (write_int n prefix specs f) (λ _, True).
Proof.
  intros Hok ->. unfold write_int. eapply (safe_bind _ _ (λ _, True)).
  - unfold write_int_data, FMT_ASSERT. destruct (align specs); try done. by rewrite assert_true by by apply Z.leb_le.
  - intros [size padding] _. by apply safe_write_padded.
Qed.

Lemma safe_base BITS n upper specs (k : Z → result (list byte)) : BITS = 1 ∨ BITS = 3 ∨ BITS = 4 → in_u 64 n → specs_ok specs →
  (∀ d s, format_uint BITS n d upper = Ok s → safe (k d) (λ _, True)) →
  safe (d ← lift (count_base BITS n); k d) (λ _, True).
Proof.
  intros HB Hn Hok Hk. destruct (base_roundtrip_exists BITS n upper HB Hn) as (d & s & Hd & Hs & _).
  rewrite Hd. cbn [lift mbind result_bind]. by eapply Hk.
Qed.

Lemma safe_int ty specs v : specs_ok specs → safe (handle_int_type_spec ty specs v) (λ _, True).
Proof.
  intros Hok. unfold handle_int_type_spec. destruct (int_writer ty specs v) as [abs_value prefix] eqn:E.
  assert (Hu : in_u (bits ty) abs_value).
  { unfold int_writer in E. case_match; injection E as <- <-; apply wrapu_range; by destruct ty. }
  assert (Hu64 : in_u 64 abs_value) by (unfold in_u in *; destruct ty; simpl in Hu; lia).
  assert (Hdec : safe (on_dec ty specs abs_value prefix) (λ _, True)).
  { unfold on_dec. rewrite count_digits_exact by done. cbn [lift mbind result_bind]. eapply safe_write_int; [done|by apply decimal_ok]. }
  assert (Hhex : ∀ t, safe (on_hex specs t abs_value prefix) (λ _, True)).
  { intros t. unfold on_hex. eapply safe_base; [lia|done|done|]. intros d s Hs. by eapply safe_write_int. }
  assert (Hbin : ∀ t, safe (on_bin specs t abs_value prefix) (λ _, True)).
  { intros t. unfold on_bin. eapply safe_base; [lia|done|done|]. intros d s Hs. by eapply safe_write_int. }
  assert (Hoct : safe (on_oct specs abs_value prefix) (λ _, True)).
  { unfold on_oct. eapply safe_base; [lia|done|done|]. intros d s Hs. by eapply safe_write_int. }
  destruct (type_ specs) as [t|]; [|done]. destruct t; done || apply Hhex || apply Hbin.
Qed.

Lemma safe_write_string s specs : specs_ok specs → safe (write_string s specs) (λ _, True).
Proof. intros. by apply safe_write_padded. Qed.

Lemma safe_write_ptr p specs : in_u 64 p → match specs with Some s => specs_ok s | None => True end → safe (write_ptr p specs) (λ _, True).
Proof.
  intros Hp Hok. unfold write_ptr. destruct (base_roundtrip_exists 4 p false ltac:(lia) Hp) as (d & s & -> & Hs & _).
  cbn [lift mbind result_bind]. rewrite Hs. destruct specs; [by apply safe_write_padded|done].
Qed.

Lemma safe_arg_formatter specs a : specs_ok specs → arg_ok a → safe (arg_formatter specs a) (λ _, True).
Proof.
  intros Hok Ha. destruct a; simpl in *; try by apply safe_int.
  - destruct (type_ specs); [by apply safe_int|by apply safe_write_string].
  - unfold handle_char_specs. case_match; [by apply safe_int|].
    eapply (safe_bind _ _ (λ _, True)); [by repeat case_match|]. intros _ _. by apply safe_write_padded.
  - case_match; [case_match; [done|by apply safe_write_string]|]. case_match; [by apply safe_write_ptr|done].
  - case_match; [by apply safe_write_string|done].
  - case_match; [by apply safe_write_ptr|done].
Qed.

(** ** What is printed

    Digits in any base, the most significant first. *)
Definition digit_letter (upper : bool) (d : Z) : byte := byte_of (if d <? 10 then 48 + d else if upper then 55 + d else 87 + d).
Fixpoint in_base (fuel : nat) (b n : Z) (upper : bool) : list byte :=
  match fuel with
  | O => []
  | S fuel => (if n <? b then [] else in_base fuel b (n / b) upper) ++ [digit_letter upper (n mod b)]
  end.
Definition base_text (b n : Z) (upper : bool) : list byte := in_base 65 b n upper.

Lemma base_digit_letter BITS d upper : BITS = 1 ∨ BITS = 3 ∨ BITS = 4 → 0 ≤ d < 2 ^ BITS → base_digit BITS d upper = digit_letter upper d.
Proof.
  intros HB Hd. unfold base_digit, digit_letter. destruct (Z.ltb_spec BITS 4); [|done]. rewrite (proj2 (Z.ltb_lt d 10)); [done|].
  assert (2 ^ BITS ≤ 2 ^ 3) by (apply Z.pow_le_mono_r; lia). lia.
Qed.

Lemma format_uint_loop_text fuel BITS upper n out acc out' s : BITS = 1 ∨ BITS = 3 ∨ BITS = 4 → 0 ≤ n →
  format_uint_loop fuel BITS upper n out acc = Ok (out', s) → s = in_base fuel (2 ^ BITS) n upper ++ acc.
Proof.
  intros HB. assert (HP : 0 < 2 ^ BITS) by (apply Z.pow_pos_nonneg; lia).
  revert n out acc. induction fuel as [|fuel IH]; intros n out acc Hn; [done|]. cbn [format_uint_loop in_base].
  assert (Hland : Z.land n (Z.shiftl 1 BITS - 1) = n mod 2 ^ BITS).
  { rewrite Z.shiftl_1_l, Z.sub_1_r, <- Z.ones_equiv. apply Z.land_ones. lia. }
  assert (Hd : 0 ≤ n mod 2 ^ BITS < 2 ^ BITS) by (apply Z.mod_pos_bound; lia).
  rewrite Hland. destruct (base_digit_ok BITS (n mod 2 ^ BITS) upper HB Hd) as [-> _]. ok_simpl. rewrite base_digit_letter by done.
  unfold put_front. destruct (_ <? 0); [done|]. ok_simpl. rewrite Z.shiftr_div_pow2 by lia.
  destruct (Z.eqb_spec (n / 2 ^ BITS) 0) as [Hz|Hz].
  - intros [= _ <-]. rewrite (proj2 (Z.ltb_lt n _)); [done|]. apply Z.div_small_iff in Hz; lia.
  - intros Hs. rewrite (proj2 (Z.ltb_ge n _)).
    + apply IH in Hs as ->; [by rewrite <- app_assoc|apply Z.div_pos; lia].
    + destruct (Z.le_gt_cases (2 ^ BITS) n); [done|]. by rewrite Z.div_small in Hz by lia.
Qed.

(** How [count_base] and [format_uint] write a number. *)
Lemma base_text_ok BITS n upper : BITS = 1 ∨ BITS = 3 ∨ BITS = 4 → in_u 64 n →
  count_base BITS n = Ok (zlen (base_text (2 ^ BITS) n upper)) ∧
  format_uint BITS n (zlen (base_text (2 ^ BITS) n upper)) upper = Ok (base_text (2 ^ BITS) n upper).
Proof.
  intros HB Hn. destruct (base_roundtrip_exists BITS n upper HB Hn) as (k & s & Hk & Hs & Hl & _).
  assert (s = base_text (2 ^ BITS) n upper) as <-; [|by subst k].
  unfold format_uint in Hs. destruct (format_uint_loop _ _ _ _ _ _) as [[out acc]|] eqn:E; [|done].
  apply format_uint_loop_text in E as ->; [|done|apply Hn]. rewrite app_nil_r in Hs. unfold base_text.
  set (t := in_base _ _ _ _) in *. clearbody t. cbn [mbind outcome_bind] in Hs. destruct (out =? 0); [by injection Hs as <-|done].
Qed.

(** A value without specifications. *)
Definition pointer_text (p : Z) : list byte := str "0x" ++ base_text 16 p false.
Definition plain_text (a : arg) : result (list byte) :=
  match a with
  | int_arg v | uint_arg v | long_long_arg v | ulong_long_arg v => Done (to_string v)
  | bool_arg b => Done (bool_text b)
  | char_arg c => Done [c]
  | cstring_arg p s => if p =? 0 then on_error "string pointer is null" else Done s
  | string_arg s => Done s
  | pointer_arg p => Done (pointer_text p)
  end.

Lemma write_dec_ok ty v : in_u (bits ty) v ∨ in_s (bits ty) v → write_dec ty v = Done (to_string v).
Proof.
  intros Hv. assert (Hb : 2 ^ bits ty = 2 * 2 ^ (bits ty - 1)) by by destruct ty.
  unfold write_dec. destruct (Z.ltb_spec v 0) as [Hneg|Hneg].
  - assert (in_s (bits ty) v) as Hs by (destruct Hv as [[? _]|?]; [lia|done]). unfold in_s in Hs.
    assert (Hw : wrapu (bits ty) (wrapu (bits ty) (Z.lnot (wrapu (bits ty) v)) + 1) = - v).
    { unfold wrapu. rewrite Zplus_mod_idemp_l. unfold Z.lnot. rewrite <- Z.sub_1_r.
      replace (- (v mod 2 ^ bits ty) - 1 + 1) with (0 - v mod 2 ^ bits ty) by lia.
      rewrite Zminus_mod_idemp_r. rewrite Z.mod_small; lia. }
    rewrite Hw. assert (in_u (bits ty) (- v)) as Hu by (unfold in_u; lia).
    rewrite count_digits_exact by done. cbn [lift mbind result_bind]. rewrite decimal_ok by done. cbn [lift mbind result_bind].
    by rewrite (to_string_neg v).
  - assert (in_u (bits ty) v) as Hu by (unfold in_u, in_s in *; lia). rewrite wrapu_small by done.
    rewrite count_digits_exact by done. cbn [lift mbind result_bind]. by rewrite decimal_ok by done.
Qed.

Lemma default_is_plain a : arg_ok a → default_arg_formatter a = plain_text a.
Proof.
  intros Ha. destruct a; simpl in *; try done; try (by apply write_dec_ok; auto).
  unfold write_ptr, pointer_text. destruct (base_text_ok 4 p false ltac:(lia) Ha) as [E1 E2]. change (2 ^ 4) with 16 in *.
  rewrite E1. cbn [lift mbind result_bind]. by rewrite E2.
Qed.

Lemma safe_plain a : safe (plain_text a) (λ _, True).
Proof. destruct a; try done. simpl. by destruct (p =? 0). Qed.

Section safe_loops.
Context (args : list arg) (Hargs : Forall arg_ok args).

Lemma safe_on_replacement_field id h : safe (on_replacement_field args id h) (λ _, True).
Proof.
  unfold on_replacement_field. eapply safe_bind; [by apply safe_get_arg|]. intros a Ha.
  eapply (safe_bind _ _ (λ _, True)); [rewrite default_is_plain by done; apply safe_plain|by intros].
Qed.

Lemma safe_on_format_specs id s h : safe (on_format_specs args id s h) (λ '(_, r), (length r ≤ length s)%nat).
Proof.
  unfold on_format_specs. eapply safe_bind; [by apply safe_get_arg|]. intros a Ha.
  eapply (safe_bind _ _ (parsed s)).
  - destruct s as [|c r]; [done|]. destruct (closes r && is_ascii_letter c); [simpl; split; [done|lia]|].
    eapply safe_bind; [by apply safe_parse_format_specs|]. intros [[sp n] r'] Hr. by destruct (closes r').
  - intros [[sp n] r] [Hok Hr]. eapply (safe_bind _ _ (λ _, True)); [by apply safe_arg_formatter|by intros].
Qed.

Lemma safe_field s h : safe (parse_replacement_field args s h) (λ '(_, r), (length r ≤ length s)%nat).
Proof.
  destruct s as [|c s]; [done|]. unfold parse_replacement_field.
  destruct (strip "}" (c :: s)) as [r|] eqn:E1.
  { apply strip_Some in E1 as [= -> ->]. eapply (safe_bind _ _ (λ _, True)); [apply safe_on_arg_id|]. intros [id n] _.
    eapply safe_bind; [apply safe_on_replacement_field|]. simpl. intros; lia. }
  destruct (strip "{" (c :: s)) as [r|] eqn:E2; [apply strip_Some in E2 as [= -> ->]; simpl; lia|].
  eapply safe_bind; [by apply safe_arg_id|]. intros [id s1] H1. eapply safe_bind; [apply safe_on_arg_id|]. intros [i n] _.
  destruct (strip "}" s1) as [r|] eqn:E3.
  { apply strip_Some in E3 as ->. eapply safe_bind; [apply safe_on_replacement_field|]. simpl in *. intros; lia. }
  destruct (strip ":" s1) as [r|] eqn:E4; [|done]. apply strip_Some in E4 as ->.
  eapply safe_bind; [apply safe_on_format_specs|]. intros [h' s2] H2. destruct (strip "}" s2) as [r'|] eqn:E5; [|done].
  apply strip_Some in E5 as ->. simpl in *. lia.
Qed.

Lemma safe_short fuel text s h : (length s ≤ fuel)%nat → safe (parse_short args fuel text s h) (λ _, True).
Proof.
  revert text s h. induction fuel as [|fuel IH]; intros text s h Hf; (destruct s as [|c r]; [done|]); [simpl in Hf; lia|].
  cbn [parse_short]. simpl in Hf. destruct (decide _).
  - eapply safe_bind; [apply safe_field|]. intros [h' s'] Hs. apply IH. lia.
  - destruct (decide _); [|apply IH; lia]. destruct (strip "}" r) as [r'|] eqn:E; [|done].
    apply strip_Some in E as ->. apply IH. simpl in Hf. lia.
Qed.
End safe_loops.

(** ** Both loops do the same *)
Lemma on_text_app t1 t2 h : on_text (t1 ++ t2) h = on_text t2 (on_text t1 h).
Proof. unfold on_text. simpl. by rewrite app_assoc. Qed.
Lemma on_text_nil h : on_text [] h = h.
Proof. destruct h. unfold on_text. simpl. by rewrite app_nil_r. Qed.

Lemma find_Some c s k : find c s = Some k → s = take k s ++ (c :: drop (S k) s) ∧ (c ∉ take k s) ∧ (k < length s)%nat.
Proof.
  revert k. induction s as [|x s IH]; intros k; simpl; [done|]. destruct (decide (x = c)) as [->|Hne].
  - intros [= <-]. simpl. split_and!; [done|by apply not_elem_of_nil|lia].
  - destruct (find c s) as [k'|]; [|done]. intros [= <-]. destruct (IH _ eq_refl) as (Hs & Hc & Hk). simpl. split_and!; [by f_equal| |lia].
    by apply not_elem_of_cons.
Qed.
Lemma find_None c s : find c s = None → c ∉ s.
Proof.
  induction s as [|x s IH]; simpl; [by intros _ ?%elem_of_nil|]. destruct (decide (x = c)); [done|].
  destruct (find c s); [done|]. intros _. apply not_elem_of_cons. auto.
Qed.
Lemma find_app c s k r : find c s = Some k → find c (s ++ r) = Some k.
Proof.
  revert k. induction s as [|x s IH]; intros k; simpl; [done|]. destruct (decide (x = c)); [done|].
  destruct (find c s) as [k'|]; [|done]. intros [= <-]. by rewrite (IH k').
Qed.

Lemma write_text_plain fuel c s h : c ≠ "}"%byte → write_text (S fuel) (c :: s) h = write_text (S fuel) s (on_text [c] h).
Proof.
  intros Hc. cbn [write_text find]. rewrite decide_False by done. destruct s as [|d s]; [done|].
  destruct (find "}" (d :: s)) as [k|]; cbn [fmap option_fmap option_map].
  - change (drop (S (S k)) (c :: d :: s)) with (drop (S k) (d :: s)).
    change (drop (S (S (S k))) (c :: d :: s)) with (drop (S (S k)) (d :: s)).
    change (take (S (S k)) (c :: d :: s)) with ([c] ++ take (S k) (d :: s)). by rewrite on_text_app.
  - by rewrite <- on_text_app.
Qed.
Lemma write_text_fuel fuel s h : (length s ≤ fuel)%nat → write_text fuel s h = write_text (length s) s h.
Proof.
  revert s h. induction fuel as [fuel IH] using lt_wf_ind. intros s h Hf. destruct s as [|c s]; [by destruct fuel|].
  destruct fuel as [|fuel]; [simpl in Hf; lia|]. cbn [length]. simpl in Hf. cbn [write_text]. destruct (find "}" (c :: s)) as [k|] eqn:E; [|done].
  destruct (closes _); [|done]. change (drop (S (S k)) (c :: s)) with (drop (S k) s).
  rewrite (IH fuel), (IH (length s)); rewrite ?length_drop; done || lia.
Qed.

Section loops.
Context (args : list arg) (Hargs : Forall arg_ok args).

Lemma short_fuel fuel text s h : (length s ≤ fuel)%nat → parse_short args fuel text s h = parse_short args (length s) text s h.
Proof.
  revert text s h. induction fuel as [fuel IH] using lt_wf_ind. intros text s h Hf. destruct s as [|c s]; [by destruct fuel|].
  destruct fuel as [|fuel]; [simpl in Hf; lia|]. cbn [length parse_short]. simpl in Hf. destruct (decide _).
  - pose proof (safe_field args Hargs s (on_text text h)) as Hsafe.
    destruct (parse_replacement_field args s (on_text text h)) as [[h' s']| |]; [|done|done]. cbn [mbind result_bind]. simpl in Hsafe.
    etrans; [apply IH; lia|symmetry; apply IH; lia].
  - destruct (decide _).
    + destruct (strip "}" s) as [r|] eqn:E; [|done]. apply strip_Some in E as ->. simpl in Hf.
      etrans; [apply IH; lia|symmetry; apply IH; simpl; lia].
    + etrans; [apply IH; lia|symmetry; apply IH; lia].
Qed.

Definition at_field (s : list byte) : Prop := s = [] ∨ ∃ r, s = "{"%byte :: r.

(** Text without an opening brace is written as the writer does. *)
Lemma short_text pre rest text h : "{"%byte ∉ pre → at_field rest →
  parse_short args (length (pre ++ rest)) text (pre ++ rest) h =
  h' ← write_text (length pre) pre (on_text text h); parse_short args (length rest) [] rest h'.
Proof.
  revert text h. induction pre as [pre IH] using (induction_ltof1 _ length). unfold ltof in IH. intros text h Hpre Hrest.
  destruct pre as [|c pre].
  { simpl. destruct Hrest as [->|[r ->]]; simpl; by rewrite on_text_nil. }
  apply not_elem_of_cons in Hpre as [Hc Hpre]. cbn [app length]. cbn [parse_short]. rewrite decide_False by done.
  destruct (decide (c = "}"%byte)) as [->|Hne].
  - cbn [write_text find]. rewrite decide_True by done. cbn [drop take]. unfold closes. destruct pre as [|d pre].
    { simpl. destruct Hrest as [->|[r ->]]; done. }
    rewrite take_0, !drop_0. cbn [strip app]. apply not_elem_of_cons in Hpre as [Hd Hpre].
    destruct (decide (d = "}"%byte)) as [->|]; [|done]. cbn [drop]. rewrite short_fuel by (simpl; lia). rewrite IH; [|simpl; lia|done|done].
    rewrite on_text_nil, <- on_text_app. by rewrite (write_text_fuel (length ("}"%byte :: pre)) pre) by (simpl; lia).
  - rewrite IH; [|simpl; lia|done|done]. rewrite write_text_plain by done.
    rewrite (write_text_fuel (S (length pre)) pre) by lia. by rewrite on_text_app.
Qed.

Lemma long_as_short fuel s h : (length s ≤ fuel)%nat → parse_long args fuel s h = parse_short args (length s) [] s h.
Proof.
  revert s h. induction fuel as [|fuel IH]; intros s h Hf.
  { destruct s; [|simpl in Hf; lia]. simpl. by rewrite on_text_nil. }
  destruct s as [|c s]; [simpl; by rewrite on_text_nil|]. set (l := c :: s) in *. change (parse_long args (S fuel) l h) with
    (match find "{" l with
     | None => write_text (length l) l h
     | Some k => h ← write_text k (take k l) h; '(h, s) ← parse_replacement_field args (drop (S k) l) h; parse_long args fuel s h
     end). destruct (find "{" l) as [k|] eqn:E.
  - apply find_Some in E as (Hl & Hpre & Hk). pose proof (short_text (take k l) ("{"%byte :: drop (S k) l) [] h Hpre) as Ht.
    rewrite <- Hl, on_text_nil, length_take_le in Ht by lia. rewrite Ht by (right; by eexists). clear Ht. destruct (write_text k (take k l) h) as [h'| |]; [|done|done]. cbn [mbind result_bind].
    cbn [length parse_short]. rewrite decide_True by done. rewrite on_text_nil.
    pose proof (safe_field args Hargs (drop (S k) l) h') as Hsafe.
    destruct (parse_replacement_field args (drop (S k) l) h') as [[h2 s2]| |]; [|done|done]. cbn [mbind result_bind]. cbn [safe] in Hsafe.
    assert (length s2 ≤ fuel)%nat by (rewrite length_drop in Hsafe; lia). rewrite IH by done. by rewrite (short_fuel (length (drop (S k) l))).
  - apply find_None in E. pose proof (short_text l [] [] h E) as Ht. rewrite app_nil_r, on_text_nil in Ht. rewrite Ht by by left. clear Ht.
    destruct (write_text (length l) l h) as [h'| |]; [|done|done]. simpl. by rewrite on_text_nil.
Qed.
End loops.

(** ** Numbers in a format string *)
Lemma is_dec_digit d : 0 ≤ d < 10 → is_dec (digit_byte d) = true ∧ byte_val (digit_byte d) - 48 = d.
Proof.
  intros Hd. unfold is_dec, digit_byte. rewrite byte_val_of, Z.mod_small by lia. split; [|lia].
  apply andb_true_iff. split; apply Z.leb_le; lia.
Qed.

Lemma loop_digit v d r : 0 ≤ v ≤ big → 0 ≤ d < 10 → nonnegative_loop v (digit_byte d :: r) = nonnegative_loop (v * 10 + d) r.
Proof.
  intros Hv Hd. destruct (is_dec_digit d Hd) as [Hdec Hval]. cbn [nonnegative_loop]. rewrite Hdec, Hval.
  rewrite (proj2 (Z.ltb_ge _ _)) by lia. rewrite wrapu_small; [done|].
  assert (big = 214748364) by done. unfold in_u. lia.
Qed.

Lemma loop_reads (k : nat) n r : 0 ≤ n < 10 ^ Z.of_nat k → n ≤ max_int → nonnegative_loop 0 (to_string n ++ r) = nonnegative_loop n r.
Proof.
  assert (0 ≤ big) by by vm_compute. revert n r. induction k as [|k IH]; intros n r Hn Hm; [simpl in Hn; assert (n = 0) as -> by lia; by apply (loop_digit 0 0)|].
  destruct (decide (n < 10)); [rewrite to_string_small by lia; apply (loop_digit 0 n); lia|].
  rewrite to_string_snoc by lia. rewrite <- app_assoc. rewrite IH.
  - cbn [app]. rewrite loop_digit; [f_equal; pose proof (Z.div_mod n 10); lia| |apply Z.mod_pos_bound; lia].
    unfold big. split; [apply Z.div_pos; lia|by apply Z.div_le_mono].
  - split; [apply Z.div_pos; lia|]. apply Z.div_lt_upper_bound; [lia|]. rewrite Nat2Z.inj_succ, Z.pow_succ_r in Hn by lia. lia.
  - pose proof (Z.div_le_upper_bound n 10 n). lia.
Qed.

(** Above the limit the loop stops with a value above the limit, and never wraps. *)
Lemma loop_refuses (k : nat) n r : 0 ≤ n < 10 ^ Z.of_nat k → max_int < n → max_int < (nonnegative_loop 0 (to_string n ++ r)).1.
Proof.
  revert n r. induction k as [|k IH]; intros n r Hn Hm; [simpl in Hn; unfold max_int in Hm; lia|].
  assert (10 ≤ n) by (unfold max_int in Hm; lia). rewrite to_string_snoc by lia. rewrite <- app_assoc. cbn [app].
  assert (Hq : 0 ≤ n / 10 < 10 ^ Z.of_nat k).
  { split; [apply Z.div_pos; lia|]. apply Z.div_lt_upper_bound; [lia|]. rewrite Nat2Z.inj_succ, Z.pow_succ_r in Hn by lia. lia. }
  destruct (decide (max_int < n / 10)) as [Hgt|Hle]; [by apply IH|]. rewrite (loop_reads k) by (done || lia).
  assert (Hd : 0 ≤ n mod 10 < 10) by (apply Z.mod_pos_bound; lia).
  destruct (decide (big < n / 10)) as [Hb|Hb].
  - cbn [nonnegative_loop]. rewrite (proj1 (is_dec_digit _ Hd)). rewrite (proj2 (Z.ltb_lt _ _)) by done. simpl. lia.
  - rewrite loop_digit by (done || lia). replace (n / 10 * 10 + n mod 10) with n by (pose proof (Z.div_mod n 10); lia).
    destruct r as [|c r]; [done|]. cbn [nonnegative_loop]. destruct (is_dec c); [|done].
    rewrite (proj2 (Z.ltb_lt _ _)); [simpl; lia|]. unfold big. assert (max_int / 10 < max_int) by done. lia.
Qed.

Definition no_digit (r : list byte) : Prop := match r with c :: _ => is_dec c = false | [] => True end.

Lemma to_string_head n : 0 ≤ n → ∃ c r, to_string n = c :: r ∧ is_dec c = true.
Proof.
  intros Hn. pose proof (to_string_digits n Hn) as Hd. pose proof (to_string_pos n Hn). destruct Hd as [|c r Hc _]; [done|].
  exists c, r. split; [done|]. unfold is_dec. apply andb_true_iff. split; apply Z.leb_le; apply Hc.
Qed.

Lemma number_below n : 0 ≤ n → ∃ k : nat, 0 ≤ n < 10 ^ Z.of_nat k.
Proof.
  intros Hn. exists (Z.to_nat n). split; [done|]. rewrite Z2Nat.id by done. apply Z.pow_gt_lin_r; lia.
Qed.

(** A number is read as it is, or refused when it does not fit an [int]. *)
Theorem numbers_fit n r : 0 ≤ n → no_digit r →
  parse_nonnegative_int (to_string n ++ r) = if max_int <? n then on_error "number is too big" else Done (n, r).
Proof.
  intros Hn Hr. destruct (to_string_head n Hn) as (c & ds & Hs & Hc). destruct (number_below n Hn) as [k Hk].
  unfold parse_nonnegative_int. rewrite Hs at 1. cbn [app]. rewrite Hc. cbn [FMT_ASSERT assert_ lift mbind result_bind].
  destruct (Z.ltb_spec max_int n) as [Hgt|Hle].
  - pose proof (loop_refuses k n r Hk Hgt) as H. destruct (nonnegative_loop _ _) as [v s]. simpl in H. by rewrite (proj2 (Z.ltb_lt _ _)).
  - rewrite (loop_reads k) by done. destruct r as [|d r]; cbn [nonnegative_loop]; [|simpl in Hr; rewrite Hr]; by rewrite (proj2 (Z.ltb_ge _ _)).
Qed.

(** ** Format strings as lists of texts and fields *)
Record spec := mkSpec {
  sp_align : option (option byte * align_t);   (* the fill and the alignment *)
  sp_sign : sign_t;
  sp_alt : bool;
  sp_zero : bool;
  sp_width : option Z;
  sp_precision : option Z;
  sp_type : option byte
}.
Inductive piece := Text (t : list byte) | Field | Formatted (sp : spec).

Definition align_char (x : align_t) : byte :=
  match x with align_left => "<" | align_right => ">" | align_center => "^" | _ => "=" end%byte.
Definition print_align (sp : spec) : list byte :=
  match sp_align sp with Some (f, x) => option_list f ++ [align_char x] | None => [] end.
Definition print_sign (sp : spec) : list byte :=
  match sp_sign sp with sign_plus => ["+"] | sign_minus => ["-"] | sign_space => [" "] | sign_none => [] end%byte.
Definition print_flag (b : bool) (c : byte) : list byte := if b then [c] else [].
Definition print_width (sp : spec) : list byte := match sp_width sp with Some w => to_string w | None => [] end.
Definition print_precision (sp : spec) : list byte := match sp_precision sp with Some p => str "." ++ to_string p | None => [] end.
Definition print_spec (sp : spec) : list byte :=
  print_align sp ++ print_sign sp ++ print_flag (sp_alt sp) "#" ++ print_flag (sp_zero sp) "0" ++ print_width sp ++
  print_precision sp ++ option_list (sp_type sp).
(** A brace stands for itself when it is doubled. *)
Definition escape (t : list byte) : list byte := concat ((λ c, if decide (c = "{"%byte) then [c; c] else if decide (c = "}"%byte) then [c; c] else [c]) <$> t).
Definition print_piece (p : piece) : list byte :=
  match p with Text t => escape t | Field => str "{}" | Formatted sp => str "{:" ++ print_spec sp ++ str "}" end.
Definition print (ps : list piece) : list byte := concat (print_piece <$> ps).

(** The specifications may be empty only as a plain field, and a width has no leading zeros. *)
Record spec_ok (sp : spec) : Prop := {
  ok_align : match sp_align sp with
    | Some (f, x) => x ∈ [align_left; align_right; align_center] ∧ match f with Some c => byte_val c < 128 ∧ c ≠ "{"%byte | None => True end
    | None => print_spec sp ≠ []
    end;
  ok_width : match sp_width sp with Some w => 1 ≤ w ≤ max_int | None => True end;
  ok_precision : match sp_precision sp with Some p => 0 ≤ p ≤ max_int | None => True end;
  ok_type : match sp_type sp with Some t => is_ascii_letter t = true | None => True end
}.
Definition piece_ok (p : piece) : Prop := match p with Formatted sp => spec_ok sp | _ => True end.

(** What a specification stands for, and what it asks of its argument. *)
Definition specs_of (sp : spec) : format_specs :=
  mkSpecs (default 0 (sp_width sp)) (default (-1) (sp_precision sp)) (sp_type sp)
    (if sp_zero sp then align_numeric else match sp_align sp with Some (_, x) => x | None => align_none end)
    (sp_sign sp) (sp_alt sp)
    (if sp_zero sp then [x30] else match sp_align sp with Some (Some c, _) => [c] | _ => [x20] end).
Definition sign_checked (a : arg) (sp : spec) : result unit := match sp_sign sp with sign_none => Done tt | _ => check_sign a end.
Definition flag_checked (a : arg) (b : bool) : result unit := if b then require_numeric_argument a else Done tt.
Definition precision_checked (a : arg) (sp : spec) : result unit :=
  match sp_precision sp with Some _ => check_precision a | None => Done tt end.
Definition check_spec (a : arg) (sp : spec) : result unit :=
  _ ← sign_checked a sp; _ ← flag_checked a (sp_alt sp); _ ← flag_checked a (sp_zero sp); precision_checked a sp.

(** *** A field

    As the specification says: the text of the value on one side of the padding, or in the middle of
    it, or a number with zeros behind its sign and prefix; with a default side for the kind of value. *)
Definition sp_fill (sp : spec) : byte := if sp_zero sp then "0"%byte else match sp_align sp with Some (Some c, _) => c | _ => " "%byte end.
Definition side (usual : align_t) (sp : spec) : align_t :=
  if sp_zero sp then align_right else match sp_align sp with Some (_, x) => x | None => usual end.
Definition padded (usual : align_t) (sp : spec) (len : Z) (t : list byte) : list byte :=
  let n := Z.to_nat (default 0 (sp_width sp) - len) in
  let fill k := replicate k (sp_fill sp) in
  match side usual sp with
  | align_left => t ++ fill n
  | align_center => fill (n / 2)%nat ++ t ++ fill (n - n / 2)%nat
  | _ => fill n ++ t
  end.

(** A number with its sign and prefix in front. *)
Definition laid_out (sp : spec) (head t : list byte) : list byte :=
  if sp_zero sp
  then head ++ replicate (Z.to_nat (default 0 (sp_width sp) - zlen (head ++ t))) "0"%byte ++ t
  else padded align_right sp (zlen (head ++ t)) (head ++ t).

Definition sign_text (sp : spec) (v : Z) : list byte :=
  if v <? 0 then str "-" else match sp_sign sp with sign_plus => str "+" | sign_space => str " " | _ => [] end.
(** The prefix and the digits for a type of presentation. *)
Definition presentation (t : option byte) (alt : bool) (n : Z) : option (list byte * list byte) :=
  match t with
  | None | Some ("d" | "L")%byte => Some ([], to_string n)
  | Some "x"%byte => Some (if alt then str "0x" else [], base_text 16 n false)
  | Some "X"%byte => Some (if alt then str "0X" else [], base_text 16 n true)
  | Some "b"%byte => Some (if alt then str "0b" else [], base_text 2 n false)
  | Some "B"%byte => Some (if alt then str "0B" else [], base_text 2 n false)
  | Some "o"%byte => Some (if alt && negb (n =? 0) then str "0" else [], base_text 8 n false)
  | _ => None
  end.
(** As a character a number is not padded. *)
Definition number_text (sp : spec) (v : Z) : result (list byte) :=
  match sp_type sp with
  | Some "c"%byte => Done [byte_of (Z.abs v)]
  | t =>
      match presentation t (sp_alt sp) (Z.abs v) with
      | Some (prefix, digits) =>
          Done (laid_out sp (sign_text sp v ++ prefix) digits)
      | None => on_error "invalid type specifier"
      end
  end.
(** A precision cuts a string to that many bytes; a width counts code points. *)
Definition string_text (sp : spec) (s : list byte) : list byte :=
  let t := match sp_precision sp with Some p => take (Z.to_nat p) s | None => s end in
  padded align_left sp (count_code_points t) t.
Definition typed (sp : spec) (c : byte) : bool := match sp_type sp with None => true | Some t => bool_decide (t = c) end.
Definition character_text (sp : spec) (c : byte) : result (list byte) :=
  if typed sp "c" then
    match sp_zero sp || sp_alt sp, sp_sign sp with
    | false, sign_none => Done (padded align_left sp 1 [c])
    | _, _ => on_error "invalid format specifier for char"
    end
  else number_text sp (char_val c).

(** The sign is for signed numbers, the flags are for numbers, and the precision is for strings. *)
Definition refusal (a : arg) (sp : spec) : option string :=
  let numeric := match a with cstring_arg _ _ | string_arg _ | pointer_arg _ => false | _ => true end in
  let signed := match a with int_arg _ | long_long_arg _ | char_arg _ => true | _ => false end in
  let textual := match a with cstring_arg _ _ | string_arg _ => true | _ => false end in
  let with_sign := match sp_sign sp with sign_none => false | _ => true end in
  if (with_sign || sp_alt sp || sp_zero sp) && negb numeric then Some "format specifier requires numeric argument"%string
  else if with_sign && negb signed then Some "format specifier requires signed argument"%string
  else if match sp_precision sp with Some _ => negb textual | None => false end
       then Some "precision not allowed for this argument type"%string
  else None.

Definition field_text (a : arg) (sp : spec) : result (list byte) :=
  match refusal a sp with
  | Some message => on_error message
  | None =>
      match a with
      | int_arg v | uint_arg v | long_long_arg v | ulong_long_arg v => number_text sp v
      | bool_arg b =>
          match sp_type sp with
          | None => Done (string_text sp (bool_text b))
          | Some _ => number_text sp (if b then 1 else 0)
          end
      | char_arg c => character_text sp c
      | cstring_arg p s =>
          if typed sp "s" then if p =? 0 then on_error "string pointer is null" else Done (string_text sp s)
          else if typed sp "p" then Done (padded align_right sp (zlen (pointer_text p)) (pointer_text p))
          else on_error "invalid type specifier"
      | string_arg s => if typed sp "s" then Done (string_text sp s) else on_error "invalid type specifier"
      | pointer_arg p =>
          if typed sp "p" then Done (padded align_right sp (zlen (pointer_text p)) (pointer_text p)) else on_error "invalid type specifier"
      end
  end.

(** The output of a format string. *)
Fixpoint render (args : list arg) (ps : list piece) (n : Z) : result (list byte) :=
  match ps with
  | [] => Done []
  | Text t :: r => s ← render args r n; Done (t ++ s)
  | Field :: r => a ← get_arg args n; x ← plain_text a; s ← render args r (n + 1); Done (x ++ s)
  | Formatted sp :: r => a ← get_arg args n; x ← field_text a sp; s ← render args r (n + 1); Done (x ++ s)
  end.

(** The writers do that. *)
Lemma fill_n_one n (c : byte) : fill_n n [c] = replicate (Z.to_nat n) c.
Proof. unfold fill_n. induction (Z.to_nat n) as [|k IH]; [done|]. simpl. by rewrite IH. Qed.

Lemma specs_width sp : spec_ok sp → 0 ≤ width (specs_of sp).
Proof. intros [_ Hw _ _]. simpl. destruct (sp_width sp); simpl; lia. Qed.

Lemma specs_fill sp : spec_ok sp → fill (specs_of sp) = [sp_fill sp].
Proof. intros _. unfold sp_fill. simpl. destruct (sp_zero sp); [done|]. by destruct (sp_align sp) as [[[c|] x]|]. Qed.

(** The shift of the padding puts none of it, all or half to the left. *)
Lemma padding_half w : 0 ≤ w → Z.to_nat (Z.shiftr w 1) = (Z.to_nat w / 2)%nat.
Proof. intros Hw. rewrite Z.shiftr_div_pow2 by lia. change (2 ^ 1) with 2. rewrite Z2Nat.inj_div by lia. done. Qed.
Lemma padding_none w : 0 ≤ w ≤ max_int → Z.shiftr w 31 = 0.
Proof. intros Hw. rewrite Z.shiftr_div_pow2 by lia. apply Z.div_small. unfold max_int in Hw. lia. Qed.

Lemma write_padded_text (numbers : bool) sp len t : spec_ok sp → 0 ≤ len →
  write_padded (if numbers then right_padding_shifts else left_padding_shifts) (specs_of sp) len t =
    Done (padded (if numbers then align_right else align_left) sp len t).
Proof.
  intros Hok Hlen. pose proof (specs_width sp Hok) as Hw. unfold write_padded, FMT_ASSERT. rewrite assert_true by by apply Z.leb_le.
  cbn [lift mbind result_bind]. rewrite specs_fill by done. set (padding := if len <? width (specs_of sp) then _ else 0).
  assert (Hp : 0 ≤ padding ≤ max_int ∧ Z.to_nat padding = Z.to_nat (default 0 (sp_width sp) - len)).
  { unfold padding. destruct Hok as [_ Hwd _ _]. simpl. destruct (sp_width sp) as [w|]; simpl in *; destruct (Z.ltb_spec len (default 0 (Some 0))); simpl in *;
      try destruct (Z.ltb_spec len w); try destruct (Z.ltb_spec len 0); unfold max_int in *; lia. }
  destruct Hp as [Hp En]. unfold padded. rewrite <- En, !fill_n_one. cbn [align specs_of].
  pose proof (padding_half padding ltac:(lia)) as Hh. pose proof (padding_none padding Hp) as H31.
  assert (Hright : ∀ c, replicate (Z.to_nat (Z.shiftr padding 0)) c ++ t ++ replicate (Z.to_nat (padding - Z.shiftr padding 0)) c =
    replicate (Z.to_nat padding) c ++ t) by (intros c; rewrite Z.shiftr_0_r, Z.sub_diag; simpl; by rewrite app_nil_r).
  assert (Hleft : ∀ c, replicate (Z.to_nat (Z.shiftr padding 31)) c ++ t ++ replicate (Z.to_nat (padding - Z.shiftr padding 31)) c =
    t ++ replicate (Z.to_nat padding) c) by (intros c; by rewrite H31, Z.sub_0_r).
  assert (Hmid : ∀ c, replicate (Z.to_nat (Z.shiftr padding 1)) c ++ t ++ replicate (Z.to_nat (padding - Z.shiftr padding 1)) c =
    replicate (Z.to_nat padding / 2) c ++ t ++ replicate (Z.to_nat padding - Z.to_nat padding / 2) c).
  { intros c. rewrite Z2Nat.inj_sub, Hh; [done|]. apply Z.shiftr_nonneg. lia. }
  unfold side. destruct Hok as [Ha _ _ _]. destruct (sp_zero sp); [destruct numbers; cbn [left_padding_shifts right_padding_shifts]; by rewrite Hright|].
  destruct (sp_align sp) as [[f x]|]; [|destruct numbers; cbn [left_padding_shifts right_padding_shifts]; [by rewrite Hright|by rewrite Hleft]].
  destruct Ha as [Hx _]. set_unfold in Hx. destruct Hx as [->|[->|[->|[]]]]; destruct numbers; cbn [left_padding_shifts right_padding_shifts];
    first [by rewrite Hright|by rewrite Hleft|by rewrite Hmid].
Qed.

Lemma write_int_text sp head t : spec_ok sp → sp_precision sp = None → write_int (zlen t) head (specs_of sp) (Ok t) = Done (laid_out sp head t).
Proof.
  intros Hok Hp. pose proof (specs_width sp Hok) as Hw. pose proof (zlen_nonneg head) as Hh. pose proof (zlen_nonneg t) as Ht.
  pose proof (zlen_app head t) as Hl. unfold write_int, laid_out. destruct (sp_zero sp) eqn:Ez.
  - assert (Ew : write_int_data (zlen t) head (specs_of sp) =
      Done (Z.max (width (specs_of sp)) (zlen (head ++ t)), Z.max 0 (width (specs_of sp) - zlen (head ++ t)))).
    { unfold write_int_data, FMT_ASSERT. cbn [align specs_of]. rewrite Ez, assert_true by by apply Z.leb_le. cbn [lift mbind result_bind].
      rewrite <- Hl. destruct (Z.ltb_spec (zlen (head ++ t)) (width (specs_of sp))); do 2 f_equal; lia. }
    rewrite Ew. cbn [lift mbind result_bind]. rewrite (write_padded_text true) by (done || lia). f_equal. unfold padded, side. rewrite Ez. cbn [width specs_of].
    replace (Z.to_nat (default 0 (sp_width sp) - Z.max _ _)) with 0%nat by lia. simpl. by rewrite Z2Nat.inj_max.
  - assert (Ew : write_int_data (zlen t) head (specs_of sp) = Done (zlen (head ++ t), 0)).
    { unfold write_int_data. rewrite Hl. cbn [align precision specs_of]. rewrite Ez, Hp. cbn [default]. rewrite (proj2 (Z.ltb_ge (zlen t) (-1))) by lia.
      destruct Hok as [Ha _ _ _]. destruct (sp_align sp) as [[f x]|]; [|done]. destruct Ha as [Hx _]. set_unfold in Hx. by destruct Hx as [->|[->|[->|[]]]]. }
    rewrite Ew. cbn [lift mbind result_bind]. change (replicate (Z.to_nat 0) _) with (@nil byte). rewrite (write_padded_text true) by (done || lia). done.
Qed.

Lemma int_writer_ok ty sp v : in_u (bits ty) v ∨ in_s (bits ty) v →
  int_writer ty (specs_of sp) v = (Z.abs v, sign_text sp v) ∧ in_u (bits ty) (Z.abs v).
Proof.
  intros Hv. assert (Hb : 2 ^ bits ty = 2 * 2 ^ (bits ty - 1) ∧ 0 < 2 ^ (bits ty - 1)) by by destruct ty. destruct Hb as [Hb Hb0].
  assert (Hu : in_u (bits ty) (Z.abs v)) by (unfold in_u, in_s in *; lia). split; [|done]. unfold int_writer, sign_text. destruct (Z.ltb_spec v 0).
  - f_equal. unfold wrapu. rewrite Zminus_mod_idemp_r, Z.mod_small by (unfold in_u in Hu; lia). lia.
  - rewrite wrapu_small by (by rewrite <- (Z.abs_eq v)). by rewrite Z.abs_eq.
Qed.

Lemma in_u_64 ty n : in_u (bits ty) n → in_u 64 n.
Proof. destruct ty; unfold in_u; simpl; lia. Qed.

(** The digits of a number in base 2, 8 or 16, behind its prefix. *)
Lemma write_base_text BITS sp n upper head (k : Z → list byte) : BITS = 1 ∨ BITS = 3 ∨ BITS = 4 → in_u 64 n → spec_ok sp → sp_precision sp = None →
  (∀ d, 0 ≤ d → k d = head) →
  (d ← lift (count_base BITS n); write_int d (k d) (specs_of sp) (format_uint BITS n d upper)) = Done (laid_out sp head (base_text (2 ^ BITS) n upper)).
Proof.
  intros HB Hn Hok Hp Hk. destruct (base_text_ok BITS n upper HB Hn) as [-> E]. cbn [lift mbind result_bind]. rewrite E, Hk by apply zlen_nonneg. by apply write_int_text.
Qed.

Lemma number_ok ty sp v : in_u (bits ty) v ∨ in_s (bits ty) v → spec_ok sp → sp_precision sp = None →
  handle_int_type_spec ty (specs_of sp) v = number_text sp v.
Proof.
  intros Hv Hok Hp. destruct (int_writer_ok ty sp v Hv) as [Ew Hu]. unfold handle_int_type_spec. rewrite Ew. pose proof (in_u_64 ty _ Hu) as Hu64.
  assert (Hdec : on_dec ty (specs_of sp) (Z.abs v) (sign_text sp v) = Done (laid_out sp (sign_text sp v ++ []) (to_string (Z.abs v)))).
  { unfold on_dec. rewrite count_digits_exact by done. cbn [lift mbind result_bind]. rewrite decimal_ok, app_nil_r by done. by apply write_int_text. }
  assert (Hpre : ∀ l, (if alt (specs_of sp) then sign_text sp v ++ l else sign_text sp v) = sign_text sp v ++ (if sp_alt sp then l else [])).
  { intros l. cbn [alt specs_of]. destruct (sp_alt sp); [done|by rewrite app_nil_r]. }
  assert (Hoct : on_oct (specs_of sp) (Z.abs v) (sign_text sp v) =
    Done (laid_out sp (sign_text sp v ++ if sp_alt sp && negb (Z.abs v =? 0) then str "0" else []) (base_text 8 (Z.abs v) false))).
  { unfold on_oct. apply (write_base_text 3); [lia|done|done|done|]. intros d Hd. cbn [alt precision specs_of]. rewrite Hp. cbn [default].
    rewrite (proj2 (Z.leb_le (-1) d)), andb_true_r by lia. by destruct (sp_alt sp && _); [|rewrite app_nil_r]. }
  assert (Hhex : ∀ t, on_hex (specs_of sp) t (Z.abs v) (sign_text sp v) =
    Done (laid_out sp (sign_text sp v ++ if sp_alt sp then [x30; t] else []) (base_text 16 (Z.abs v) (negb (bool_decide (t = "x"%byte)))))).
  { intros t. unfold on_hex. cbv zeta. rewrite Hpre. by apply (write_base_text 4 sp (Z.abs v) _ _ (λ _, _)); [lia|..]. }
  assert (Hbin : ∀ t, on_bin (specs_of sp) t (Z.abs v) (sign_text sp v) =
    Done (laid_out sp (sign_text sp v ++ if sp_alt sp then [x30; t] else []) (base_text 2 (Z.abs v) false))).
  { intros t. unfold on_bin. cbv zeta. rewrite Hpre. by apply (write_base_text 1 sp (Z.abs v) _ _ (λ _, _)); [lia|..]. }
  unfold number_text, on_num. cbn [type_ specs_of].
  destruct (sp_type sp) as [t|]; [|exact Hdec]. destruct t; rewrite ?Hdec, ?Hoct, ?Hhex, ?Hbin; reflexivity.
Qed.

Lemma padded_len usual sp len len' t : Z.to_nat (default 0 (sp_width sp) - len) = Z.to_nat (default 0 (sp_width sp) - len') →
  padded usual sp len t = padded usual sp len' t.
Proof. intros E. unfold padded. by rewrite E. Qed.

Lemma count_code_points_nonneg s : 0 ≤ count_code_points s.
Proof. apply zlen_nonneg. Qed.

Lemma write_string_text sp s : spec_ok sp → write_string s (specs_of sp) = Done (string_text sp s).
Proof.
  intros Hok. unfold write_string, string_text, code_point_index. cbn [precision width specs_of].
  assert (Et : take (Z.to_nat (if (0 <=? default (-1) (sp_precision sp)) && (default (-1) (sp_precision sp) <? zlen s)
      then Z.min (default (-1) (sp_precision sp)) (zlen s) else zlen s)) s =
    match sp_precision sp with Some p => take (Z.to_nat p) s | None => s end).
  { assert (Hall : take (Z.to_nat (zlen s)) s = s) by (unfold zlen; by rewrite Nat2Z.id, firstn_all).
    destruct Hok as [_ _ Hp _]. destruct (sp_precision sp) as [p|]; simpl; [|done]. rewrite (proj2 (Z.leb_le 0 p)) by lia. simpl.
    destruct (Z.ltb_spec p (zlen s)); [by rewrite Z.min_l by lia|]. rewrite Hall. symmetry. apply take_ge. unfold zlen in *. lia. }
  rewrite Et. set (t := match sp_precision sp with Some p => _ | None => s end).
  pose proof (count_code_points_nonneg t). rewrite (write_padded_text false) by (done || by destruct (_ =? 0)). f_equal.
  destruct (Z.eqb_spec (default 0 (sp_width sp)) 0) as [Hz|]; [|done]. apply padded_len. lia.
Qed.

Lemma write_ptr_text sp p : spec_ok sp → in_u 64 p → write_ptr p (Some (specs_of sp)) = Done (padded align_right sp (zlen (pointer_text p)) (pointer_text p)).
Proof.
  intros Hok Hp. unfold write_ptr, pointer_text. destruct (base_text_ok 4 p false ltac:(lia) Hp) as [E1 E2]. change (2 ^ 4) with 16 in *.
  pose proof (zlen_nonneg (base_text 16 p false)). rewrite E1. cbn [lift mbind result_bind]. rewrite E2. cbn [lift mbind result_bind].
  rewrite (write_padded_text true) by (done || lia). f_equal. apply padded_len. rewrite zlen_app. change (zlen (str "0x")) with 2. lia.
Qed.

Lemma typed_in sp c : type_in [c] (specs_of sp) = typed sp c.
Proof. unfold type_in, typed. cbn [type_ specs_of]. destruct (sp_type sp); [|done]. apply bool_decide_ext. by rewrite list_elem_of_singleton. Qed.

Lemma check_spec_refuses a sp : check_spec a sp = match refusal a sp with Some message => on_error message | None => Done tt end.
Proof.
  unfold check_spec, refusal, sign_checked, flag_checked, precision_checked, check_sign, check_precision, require_numeric_argument.
  destruct a, (sp_sign sp), (sp_alt sp), (sp_zero sp), (sp_precision sp); reflexivity.
Qed.

(** A field is written as its specification says. *)
Lemma field_ok a sp : arg_ok a → spec_ok sp → (_ ← check_spec a sp; arg_formatter (specs_of sp) a) = field_text a sp.
Proof.
  intros Ha Hok. rewrite check_spec_refuses. unfold field_text. destruct (refusal a sp) as [message|] eqn:E; [done|]. cbn [mbind result_bind].
  assert (Hnone : match a with cstring_arg _ _ | string_arg _ | pointer_arg _ => True | _ => sp_precision sp = None end).
  { unfold refusal in E. destruct a; try done; (destruct (sp_precision sp); [|done]); by destruct (sp_sign sp), (sp_alt sp), (sp_zero sp). }
  destruct a; cbn [arg_formatter] in *; simpl in Ha.
  - apply number_ok; auto.
  - apply number_ok; auto.
  - apply number_ok; auto.
  - apply number_ok; auto.
  - cbn [type_ specs_of]. destruct (sp_type sp) eqn:Et; [|by apply write_string_text].
    rewrite <- (number_ok uint32); [done| |done|done]. left. by destruct b.
  - unfold handle_char_specs, character_text. rewrite typed_in. destruct (typed sp "c"); cbn [negb].
    + cbn [align sign alt specs_of]. destruct (sp_zero sp) eqn:Ez; [done|]. cbn [orb].
      assert (Hal : match sp_align sp with Some (_, x) => x | None => align_none end ≠ align_numeric).
      { destruct Hok as [Hal _ _ _]. destruct (sp_align sp) as [[f x]|]; [|done]. destruct Hal as [Hx _]. set_unfold in Hx. by destruct Hx as [->|[->|[->|[]]]]. }
      destruct (match sp_align sp with Some (_, x) => x | None => align_none end); try done;
        (destruct (sp_alt sp), (sp_sign sp); try done; cbn [mbind result_bind]; by apply (write_padded_text false)).
    + apply number_ok; [|done|done]. right. pose proof (wraps_range 8 (byte_val c) ltac:(lia)) as Hr. unfold char_val, in_s in *. simpl. lia.
  - rewrite !typed_in. destruct (typed sp "s"); [destruct (p =? 0); [done|by apply write_string_text]|].
    destruct (typed sp "p"); [by apply write_ptr_text|done].
  - rewrite typed_in. destruct (typed sp "s"); [by apply write_string_text|done].
  - rewrite typed_in. destruct (typed sp "p"); [by apply write_ptr_text|done].
Qed.

(** *** Specifications are read as they are written *)
Lemma result_bind_assoc {A B C} (m : result A) (f : A → result B) (g : B → result C) :
  (m ≫= f) ≫= g = m ≫= (λ x, f x ≫= g).
Proof. by destruct m. Qed.

(** The characters that can begin what is left of a specification. *)
Definition in_type (c : byte) : bool := is_ascii_letter c || bool_decide (c = "}"%byte).
Definition in_precision (c : byte) : bool := in_type c || bool_decide (c = "."%byte).
Definition in_width (c : byte) : bool := in_precision c || (is_dec c && negb (bool_decide (c = "0"%byte))).
Definition in_zero (c : byte) : bool := in_precision c || is_dec c.
Definition in_alt (c : byte) : bool := in_zero c || bool_decide (c = "#"%byte).
Definition in_sign (c : byte) : bool := in_alt c || bool_decide (c ∈ ["+"; "-"; " "]%byte).
Definition starts (P : byte → bool) (s : list byte) : Prop := match s with c :: _ => P c = true | [] => False end.

Lemma starts_mono (P Q : byte → bool) s : (∀ c, P c = true → Q c = true) → starts P s → starts Q s.
Proof. intros HPQ. destruct s; [done|]. apply HPQ. Qed.
Lemma starts_app (P : byte → bool) s r : (s = [] → starts P r) → (s ≠ [] → starts P s) → starts P (s ++ r).
Proof. destruct s; simpl; intros H1 H2; [by apply H1|by apply H2]. Qed.
Lemma starts_strip (P : byte → bool) c s : P c = false → starts P s → strip c s = None.
Proof. intros Hc. destruct s as [|x s]; [done|]. simpl. intros Hx. rewrite decide_False; [done|]. intros ->. congruence. Qed.
Lemma strip_same c s : strip c (c :: s) = Some s.
Proof. simpl. by rewrite decide_True. Qed.
Lemma strip_other c d s : d ≠ c → strip c (d :: s) = None.
Proof. intros. simpl. by rewrite decide_False. Qed.
Lemma starts_match {A} (P : byte → bool) s (x y : A) : starts P s → match s with [] => x | _ => y end = y.
Proof. by destruct s. Qed.

Ltac by_bytes := let c := fresh "c" in intros c; destruct c; vm_compute; done.
Lemma type_precision c : in_type c = true → in_precision c = true. Proof. revert c. by_bytes. Qed.
Lemma precision_width c : in_precision c = true → in_width c = true. Proof. revert c. by_bytes. Qed.
Lemma width_zero c : in_width c = true → in_zero c = true. Proof. revert c. by_bytes. Qed.
Lemma zero_alt c : in_zero c = true → in_alt c = true. Proof. revert c. by_bytes. Qed.
Lemma alt_sign c : in_alt c = true → in_sign c = true. Proof. revert c. by_bytes. Qed.
Lemma precision_no_digit c : in_precision c = true → is_dec c = false ∧ c ≠ "{"%byte. Proof. revert c. by_bytes. Qed.
Lemma sign_no_align c : in_sign c = true → align_of c = align_none ∧ code_point_length c = Ok 1. Proof. revert c. by_bytes. Qed.
Lemma ascii_length c : byte_val c < 128 → code_point_length c = Ok 1. Proof. revert c. by_bytes. Qed.

Lemma to_string_no_zero n : 1 ≤ n → starts (λ c, is_dec c && negb (bool_decide (c = "0"%byte))) (to_string n).
Proof.
  intros Hn. destruct (number_below n ltac:(lia)) as [k Hk]. revert n Hn Hk. induction k as [|k IH]; intros n Hn Hk; [simpl in Hk; lia|].
  destruct (decide (n < 10)).
  - rewrite to_string_small by lia. assert (n = 1 ∨ n = 2 ∨ n = 3 ∨ n = 4 ∨ n = 5 ∨ n = 6 ∨ n = 7 ∨ n = 8 ∨ n = 9) as Hc by lia.
    by destruct_or! Hc; subst.
  - rewrite to_string_snoc by lia. apply starts_app; [|intros _; apply IH].
    + intros Hnil. pose proof (to_string_pos (n / 10) ltac:(apply Z.div_pos; lia)) as Hp. by rewrite Hnil in Hp.
    + apply Z.div_le_lower_bound; lia.
    + split; [apply Z.div_pos; lia|]. apply Z.div_lt_upper_bound; [lia|]. rewrite Nat2Z.inj_succ, Z.pow_succ_r in Hk by lia. lia.
Qed.

Section spec_tails.
Context (sp : spec) (Hok : spec_ok sp) (r : list byte).

Definition tail_type : list byte := option_list (sp_type sp) ++ "}"%byte :: r.
Definition tail_precision : list byte := print_precision sp ++ tail_type.
Definition tail_width : list byte := print_width sp ++ tail_precision.
Definition tail_zero : list byte := print_flag (sp_zero sp) "0" ++ tail_width.
Definition tail_alt : list byte := print_flag (sp_alt sp) "#" ++ tail_zero.
Definition tail_sign : list byte := print_sign sp ++ tail_alt.

Lemma print_spec_tails : print_spec sp ++ "}"%byte :: r = print_align sp ++ tail_sign.
Proof.
  unfold print_spec, tail_sign, tail_alt, tail_zero, tail_width, tail_precision, tail_type. by rewrite <- !app_assoc.
Qed.

Lemma starts_type : starts in_type tail_type.
Proof.
  destruct Hok as [_ _ _ Ht]. unfold tail_type. destruct (sp_type sp) as [t|]; simpl; unfold in_type; [by rewrite Ht|].
  by rewrite bool_decide_true, orb_true_r.
Qed.
Lemma starts_precision : starts in_precision tail_precision.
Proof.
  apply starts_app; [intros _; eapply starts_mono; [apply type_precision|apply starts_type]|].
  unfold print_precision. by destruct (sp_precision sp).
Qed.
Lemma starts_width : starts in_width tail_width.
Proof.
  apply starts_app; [intros _; eapply starts_mono; [apply precision_width|apply starts_precision]|].
  destruct Hok as [_ Hw _ _]. unfold print_width. destruct (sp_width sp) as [w|]; [|done]. intros _.
  eapply starts_mono; [|apply to_string_no_zero, Hw]. intros c Hc. unfold in_width. by rewrite Hc, orb_true_r.
Qed.
Lemma starts_zero : starts in_zero tail_zero.
Proof.
  apply starts_app; [intros _; eapply starts_mono; [apply width_zero|apply starts_width]|]. by destruct (sp_zero sp).
Qed.
Lemma starts_alt : starts in_alt tail_alt.
Proof. apply starts_app; [intros _; eapply starts_mono; [apply zero_alt|apply starts_zero]|]. by destruct (sp_alt sp). Qed.
Lemma starts_sign : starts in_sign tail_sign.
Proof.
  apply starts_app; [intros _; eapply starts_mono; [apply alt_sign|apply starts_alt]|]. unfold print_sign. by destruct (sp_sign sp).
Qed.

Context (args : list arg) (a : arg) (n : Z).

Lemma read_type specs : parse_type n tail_type specs =
  Done (match sp_type sp with Some t => on_type t specs | None => specs end, n, "}"%byte :: r).
Proof.
  destruct Hok as [_ _ _ Ht]. unfold tail_type. destruct (sp_type sp) as [t|]; simpl; [|done].
  rewrite decide_False; [done|]. by intros ->.
Qed.

Lemma read_precision specs :
  match strip "." tail_precision with Some r => parse_precision args a n r specs | None => Done (specs, n, tail_precision) end =
  _ ← precision_checked a sp;
  Done (match sp_precision sp with Some p => set_precision p specs | None => specs end, n, tail_type).
Proof.
  pose proof starts_type as Ht. destruct Hok as [_ _ Hp _]. unfold tail_precision, print_precision, precision_checked.
  destruct (sp_precision sp) as [p|]; [|cbn [app]; by rewrite (starts_strip in_type)].
  cbn [str app]. change (strip "." _) with (Some (to_string p ++ tail_type)). cbn match. unfold parse_precision.
  destruct (to_string_head p ltac:(lia)) as (c & ds & Hs & Hc). rewrite Hs. cbn [app]. rewrite Hc.
  change (c :: ds ++ tail_type) with ((c :: ds) ++ tail_type). rewrite <- Hs, numbers_fit; [|lia|].
  - rewrite (proj2 (Z.ltb_ge _ _)) by lia. done.
  - destruct tail_type as [|x l]; [done|]. by apply type_precision, precision_no_digit in Ht as [? _].
Qed.

Lemma read_width specs : parse_width args n tail_width specs =
  Done (match sp_width sp with Some w => set_width w specs | None => specs end, n, tail_precision).
Proof.
  pose proof starts_precision as Hp. destruct Hok as [_ Hw _ _]. unfold tail_width, print_width. destruct (sp_width sp) as [w|].
  - destruct (to_string_head w ltac:(lia)) as (c & ds & Hs & Hc). rewrite Hs. cbn [app parse_width]. rewrite Hc.
    change (c :: ds ++ tail_precision) with ((c :: ds) ++ tail_precision). rewrite <- Hs, numbers_fit; [|lia|].
    + by rewrite (proj2 (Z.ltb_ge _ _)) by lia.
    + destruct tail_precision as [|x l]; [done|]. by apply precision_no_digit in Hp as [? _].
  - cbn [app]. destruct tail_precision as [|x l]; [done|]. apply precision_no_digit in Hp as [Hd Hb]. simpl. by rewrite Hd, decide_False.
Qed.

Lemma read_flag (b : bool) (c : byte) (P : byte → bool) (set : format_specs → result format_specs) specs s :
  P c = false → starts P s →
  match strip c (print_flag b c ++ s) with Some r => specs ← set specs; Done (specs, r) | None => Done (specs, print_flag b c ++ s) end =
  specs ← (if b then set specs else Done specs); Done (specs, s).
Proof.
  intros Hc Hs. destruct b; cbn [print_flag app]; [|by rewrite (starts_strip P)]. cbn [strip]. by rewrite decide_True.
Qed.

Lemma read_sign specs : parse_sign a tail_sign specs =
  _ ← sign_checked a sp;
  Done (match sp_sign sp with sign_none => specs | x => set_sign x specs end, tail_alt).
Proof.
  pose proof starts_alt as Ha. unfold tail_sign, print_sign, parse_sign, sign_checked.
  destruct (sp_sign sp); cbn [app]; [by rewrite !(starts_strip in_alt) by done| | |];
    rewrite ?(strip_other "+"), ?(strip_other "-") by done; rewrite strip_same; unfold on_sign; by rewrite result_bind_assoc.
Qed.

(** Without an alignment the second character must not be one either. *)
Lemma align_none_first c s : align_of c = align_none → code_point_length c = Ok 1 →
  (s ≠ [] → starts (λ d, match align_of d with align_none => true | _ => false end) s) →
  parse_align a (c :: s) default_specs = Done (default_specs, c :: s).
Proof.
  intros Hc Hl Hd. unfold parse_align. rewrite Hl, Hc. cbn [lift mbind result_bind].
  destruct s as [|d s]; [done|]. rewrite (proj2 (Z.leb_gt _ _)) by (unfold zlen; simpl; lia).
  change (1 =? 0) with false. specialize (Hd ltac:(done)). simpl in Hd. change (read_at 1 (c :: d :: s)) with (Ok d). cbn [lift mbind result_bind].
  by destruct (align_of d).
Qed.

Lemma align_second c x s : x ∈ [align_left; align_right; align_center] → code_point_length c = Ok 1 → c ≠ "{"%byte →
  parse_align a (c :: align_char x :: s) default_specs = Done (set_align x (set_fill [c] default_specs), s).
Proof.
  intros Hx Hl Hc. unfold parse_align. rewrite Hl. cbn [lift mbind result_bind].
  rewrite (proj2 (Z.leb_gt _ _)) by (unfold zlen; simpl; lia). change (1 =? 0) with false.
  change (read_at 1 (c :: align_char x :: s)) with (Ok (align_char x)). cbn [lift mbind result_bind].
  rewrite !elem_of_cons, elem_of_nil in Hx. destruct_or! Hx; subst; try done; cbn [align_char align_of]; by rewrite decide_False.
Qed.

Lemma align_alone x s : x ∈ [align_left; align_right; align_center] →
  starts (λ d, match align_of d with align_none => true | _ => false end) s →
  parse_align a (align_char x :: s) default_specs = Done (set_align x default_specs, s).
Proof.
  intros Hx Hs. unfold parse_align. assert (Hl : code_point_length (align_char x) = Ok 1 ∧ align_of (align_char x) = x).
  { rewrite !elem_of_cons, elem_of_nil in Hx. by destruct_or! Hx; subst. }
  destruct Hl as [-> ->]. cbn [lift mbind result_bind]. destruct s as [|d s]; [done|].
  rewrite (proj2 (Z.leb_gt _ _)) by (unfold zlen; simpl; lia). change (1 =? 0) with false. simpl in Hs.
  change (read_at 1 (align_char x :: d :: s)) with (Ok d). cbn [lift mbind result_bind].
  rewrite !elem_of_cons, elem_of_nil in Hx. destruct (align_of d); try done. by destruct_or! Hx; subst.
Qed.

Lemma spec_plain_chars : sp_align sp = None → Forall (λ c, in_sign c = true) (print_spec sp).
Proof.
  intros Hal. destruct Hok as [_ Hw Hp Ht]. unfold print_spec, print_align. rewrite Hal. cbn [app].
  assert (Hdec : ∀ v, 0 ≤ v → Forall (λ c, in_sign c = true) (to_string v)).
  { intros v Hv. eapply Forall_impl; [by apply to_string_digits|]. intros c Hc.
    assert (is_dec c = true) as H by (unfold is_dec; apply andb_true_iff; split; apply Z.leb_le; apply Hc).
    unfold in_sign, in_alt, in_zero. by rewrite H, orb_true_r. }
  rewrite !Forall_app. split_and!.
  - unfold print_sign. by destruct (sp_sign sp); repeat constructor.
  - by destruct (sp_alt sp); repeat constructor.
  - by destruct (sp_zero sp); repeat constructor.
  - unfold print_width. destruct (sp_width sp); [|done]. apply Hdec. lia.
  - unfold print_precision. destruct (sp_precision sp); [|done]. constructor; [done|]. apply Hdec. lia.
  - destruct (sp_type sp) as [t|]; [|done]. constructor; [|done]. unfold in_sign, in_alt, in_zero, in_precision, in_type. by rewrite Ht.
Qed.

Lemma no_align_starts s : starts in_sign s → starts (λ d, match align_of d with align_none => true | _ => false end) s.
Proof. apply starts_mono. intros c [-> _]%sign_no_align. done. Qed.

Lemma read_align : parse_align a (print_spec sp ++ "}"%byte :: r) default_specs =
  Done (match sp_align sp with
        | Some (Some c, x) => set_align x (set_fill [c] default_specs)
        | Some (None, x) => set_align x default_specs
        | None => default_specs
        end, tail_sign).
Proof.
  pose proof (ok_align sp Hok) as Hal. pose proof starts_sign as Hs. destruct (sp_align sp) as [[[c|] x]|] eqn:E.
  - destruct Hal as (Hx & Hc & Hb). rewrite print_spec_tails. unfold print_align. rewrite E. cbn [option_list app].
    by apply align_second; [|apply ascii_length|].
  - destruct Hal as [Hx _]. rewrite print_spec_tails. unfold print_align. rewrite E. cbn [option_list app].
    by apply align_alone, no_align_starts.
  - pose proof (spec_plain_chars E) as Hplain. assert (Heq : print_spec sp ++ "}"%byte :: r = tail_sign).
    { rewrite print_spec_tails. unfold print_align. by rewrite E. }
    rewrite <- Heq. destruct (print_spec sp) as [|c l]; [done|]. apply Forall_cons in Hplain as [Hc Hl]. cbn [app].
    apply sign_no_align in Hc as [? ?]. apply align_none_first; [done|done|]. intros _.
    destruct l as [|d l]; [done|]. apply Forall_cons in Hl as [Hd _]. simpl. by apply sign_no_align in Hd as [-> _].
Qed.

Theorem specs_roundtrip : parse_format_specs args a n (print_spec sp ++ "}"%byte :: r) default_specs =
  _ ← check_spec a sp; Done (specs_of sp, n, "}"%byte :: r).
Proof.
  pose proof starts_sign as Hs1. pose proof starts_alt as Hs2. pose proof starts_zero as Hs3.
  pose proof starts_width as Hs4. pose proof starts_precision as Hs5.
  unfold parse_format_specs. cbv zeta. rewrite read_align. cbn [mbind result_bind].
  assert (Hne : starts (λ _, true) (print_spec sp ++ "}"%byte :: r)) by by destruct (print_spec sp).
  rewrite (starts_match _ _ _ _ Hne), (starts_match _ _ _ _ Hs1). rewrite read_sign, result_bind_assoc. cbn [mbind result_bind].
  unfold check_spec. rewrite result_bind_assoc. set (sp0 := match sp_align sp with Some _ => _ | None => _ end).
  set (sp1 := match sp_sign sp with sign_none => _ | _ => _ end).
  destruct (sign_checked a sp) as [[]|e|f]; cbn [mbind result_bind]; [|done|done].
  rewrite (starts_match _ _ _ _ Hs2). unfold tail_alt at 1 2. rewrite (read_flag _ "#" in_zero (on_hash a)) by done.
  rewrite !result_bind_assoc. cbn [mbind result_bind].
  assert (Halt : (if sp_alt sp then on_hash a sp1 else Done sp1) =
    _ ← flag_checked a (sp_alt sp); Done (if sp_alt sp then set_alt true sp1 else sp1)) by by destruct (sp_alt sp).
  rewrite Halt, !result_bind_assoc. clear Halt. set (sp2 := if sp_alt sp then _ else _).
  destruct (flag_checked a (sp_alt sp)) as [[]|e|f]; cbn [mbind result_bind]; [|done|done].
  rewrite (starts_match _ _ _ _ Hs3). unfold tail_zero at 1 2.
  rewrite (read_flag _ "0" in_width (on_zero a)) by done. rewrite !result_bind_assoc. cbn [mbind result_bind].
  assert (Hzero : (if sp_zero sp then on_zero a sp2 else Done sp2) =
    _ ← flag_checked a (sp_zero sp);
    Done (if sp_zero sp then set_fill (<[0%nat := x30]> (fill sp2)) (set_align align_numeric sp2) else sp2)) by by destruct (sp_zero sp).
  rewrite Hzero, !result_bind_assoc. clear Hzero. set (sp3 := if sp_zero sp then _ else _).
  destruct (flag_checked a (sp_zero sp)) as [[]|e|f]; cbn [mbind result_bind]; [|done|done].
  rewrite (starts_match _ _ _ _ Hs4). rewrite read_width. cbn [mbind result_bind].
  rewrite (starts_match _ _ _ _ Hs5). rewrite read_precision, result_bind_assoc.
  destruct (precision_checked a sp) as [[]|e|f]; cbn [mbind result_bind]; [|done|done].
  rewrite read_type. do 3 f_equal. unfold sp3, sp2, sp1, sp0, specs_of. pose proof (ok_type sp Hok) as Ht.
  destruct (sp_type sp) as [t|]; [rewrite (decide_False (P := t = x00)) || (unfold on_type; rewrite decide_False by (by intros ->))|].
  all: destruct (sp_precision sp), (sp_width sp), (sp_zero sp), (sp_alt sp), (sp_sign sp), (sp_align sp) as [[[?|] ?]|]; done.
Qed.
End spec_tails.

(** ** What a format string prints *)
Section rendering.
Context (args : list arg) (Hargs : Forall arg_ok args).

(** The short loop without its fuel. *)
Definition short (text s : list byte) (h : format_handler) : result format_handler := parse_short args (length s) text s h.

Lemma short_brace text r h : short text ("{"%byte :: r) h =
  '(h, s) ← parse_replacement_field args r (on_text text h); short [] s h.
Proof.
  unfold short. cbn [length parse_short]. rewrite decide_True by done. pose proof (safe_field args Hargs r (on_text text h)) as Hs.
  destruct (parse_replacement_field args r (on_text text h)) as [[h' s]| |]; [|done|done]. cbn [mbind result_bind safe] in *.
  by apply short_fuel.
Qed.
Lemma short_close text r h : short text ("}"%byte :: "}"%byte :: r) h = short [] r (on_text (text ++ ["}"%byte]) h).
Proof.
  unfold short. set (f := length ("}"%byte :: r)). change (length ("}"%byte :: "}"%byte :: r)) with (S f). cbn [parse_short].
  rewrite decide_False, decide_True by done. rewrite strip_same. apply short_fuel; [done|unfold f; simpl; lia].
Qed.
Lemma short_char text c r h : c ≠ "{"%byte → c ≠ "}"%byte → short text (c :: r) h = short (text ++ [c]) r h.
Proof. intros. unfold short. cbn [length parse_short]. by rewrite !decide_False. Qed.

Lemma short_escape t text r h : ∃ text' h', short text (escape t ++ r) h = short text' r h' ∧
  on_text text' h' = on_text (text ++ t) h.
Proof.
  revert text h. induction t as [|c t IH]; intros text h; [exists text, h; by rewrite app_nil_r|].
  unfold escape. cbn [fmap list_fmap concat]. fold (escape t). rewrite <- app_assoc.
  destruct (decide (c = "{"%byte)) as [->|H1]; [|destruct (decide (c = "}"%byte)) as [->|H2]].
  - cbn [app]. rewrite short_brace. unfold parse_replacement_field. rewrite strip_other, strip_same by done. cbn [mbind result_bind].
    destruct (IH [] (on_text (str "{") (on_text text h))) as (text' & h' & -> & Hh). exists text', h'. split; [done|].
    rewrite Hh. cbn [app]. rewrite <- !on_text_app. by rewrite <- ?app_assoc.
  - cbn [app]. rewrite short_close. destruct (IH [] (on_text (text ++ ["}"%byte]) h)) as (text' & h' & -> & Hh). exists text', h'.
    split; [done|]. rewrite Hh. cbn [app]. rewrite <- on_text_app. by rewrite <- app_assoc.
  - cbn [app]. rewrite short_char by done. destruct (IH (text ++ [c]) h) as (text' & h' & -> & Hh). exists text', h'.
    split; [done|]. by rewrite Hh, <- app_assoc.
Qed.

Lemma get_arg_ok n a : get_arg args n = Done a → arg_ok a.
Proof. intros H. pose proof (safe_get_arg args n Hargs) as Hs. by rewrite H in Hs. Qed.

Lemma short_field text r h : 0 ≤ next_arg_id h → short text (str "{}" ++ r) h =
  a ← get_arg args (next_arg_id h); x ← plain_text a; short [] r (mkHandler (out h ++ text ++ x) (next_arg_id h + 1)).
Proof.
  intros Hn. change (str "{}" ++ r) with ("{"%byte :: "}"%byte :: r). rewrite short_brace. unfold parse_replacement_field.
  rewrite strip_same. cbn [on_arg_id next_arg_id on_text]. unfold next_arg_id_. rewrite (proj2 (Z.leb_le _ _)) by done.
  cbn [mbind result_bind]. unfold on_replacement_field. destruct (get_arg args (next_arg_id h)) as [a| |] eqn:E; [|done|done].
  cbn [mbind result_bind]. rewrite default_is_plain by by eapply get_arg_ok. destruct (plain_text a) as [x| |]; [|done|done].
  cbn [mbind result_bind]. unfold on_text. cbn [out next_arg_id]. by rewrite app_assoc.
Qed.

(** A type alone is not checked, and needs no check. *)
Lemma letter_alone sp r c l : spec_ok sp → print_spec sp ++ "}"%byte :: r = c :: l → closes l = true → is_ascii_letter c = true →
  (∀ a, check_spec a sp = Done tt) ∧ specs_of sp = on_type c default_specs ∧ l = "}"%byte :: r.
Proof.
  intros [Hal Hw Hp Ht] Heq Hcl Hc.
  assert (Hdigit : ∀ v s, 0 ≤ v → to_string v ++ s = c :: l → False).
  { intros v s Hv E. destruct (to_string_head v Hv) as (d & ds & E' & Hd). rewrite E' in E. injection E as -> _. destruct c; discriminate. }
  unfold print_spec, print_align, print_sign, print_width, print_precision in Heq.
  unfold check_spec, sign_checked, flag_checked, precision_checked, specs_of.
  destruct (sp_align sp) as [[[f|] x]|].
  { destruct Hal as [Hx _]. injection Heq as -> <-. rewrite !elem_of_cons, elem_of_nil in Hx. by destruct_or! Hx; subst. }
  { destruct Hal as [Hx _]. injection Heq as <- _. rewrite !elem_of_cons, elem_of_nil in Hx. by destruct_or! Hx; subst. }
  destruct (sp_sign sp); try (by injection Heq as <- _). destruct (sp_alt sp); [by injection Heq as <- _|].
  destruct (sp_zero sp); [by injection Heq as <- _|]. cbn [print_flag app] in Heq. rewrite <- !app_assoc in Heq.
  destruct (sp_width sp) as [w|]; [exfalso; by apply (Hdigit w _ ltac:(lia) Heq)|]. destruct (sp_precision sp) as [p|]; [by injection Heq as <- _|].
  destruct (sp_type sp) as [t|]; injection Heq as <- <-; [|done].
  split_and!; [done| |done]. unfold on_type. by rewrite decide_False by (by intros ->).
Qed.

Lemma short_formatted sp text r h : spec_ok sp → 0 ≤ next_arg_id h → short text (str "{:" ++ print_spec sp ++ str "}" ++ r) h =
  a ← get_arg args (next_arg_id h); _ ← check_spec a sp; x ← arg_formatter (specs_of sp) a;
  short [] r (mkHandler (out h ++ text ++ x) (next_arg_id h + 1)).
Proof.
  intros Hok Hn. change (str "{:" ++ ?s) with ("{"%byte :: ":"%byte :: s). rewrite short_brace. unfold parse_replacement_field.
  rewrite !strip_other by done. unfold parse_arg_id. rewrite bool_decide_true by by repeat constructor.
  cbn [mbind result_bind]. unfold on_arg_id at 1, next_arg_id_ at 1. cbn [next_arg_id on_text]. rewrite (proj2 (Z.leb_le _ _)) by done.
  cbn [mbind result_bind]. rewrite strip_other, strip_same by done. unfold on_format_specs.
  destruct (get_arg args (next_arg_id h)) as [a| |] eqn:E; [|done|done]. cbn [mbind result_bind next_arg_id out].
  set (parse := match print_spec sp ++ _ with [] => _ | _ => _ end).
  assert (Hparse : parse = _ ← check_spec a sp; Done (specs_of sp, next_arg_id h + 1, "}"%byte :: r)).
  { unfold parse. pose proof (specs_roundtrip sp Hok r args a (next_arg_id h + 1)) as Hrt.
    change (str "}" ++ r) with ("}"%byte :: r). destruct (print_spec sp ++ "}"%byte :: r) as [|c l] eqn:Ep; [by destruct (print_spec sp)|].
    destruct (closes l && is_ascii_letter c) eqn:Ec.
    - apply andb_true_iff in Ec as [H1 H2]. destruct (letter_alone sp r c l Hok Ep H1 H2) as (-> & -> & ->). done.
    - rewrite Hrt. rewrite result_bind_assoc. cbn [mbind result_bind]. unfold closes. by rewrite strip_same. }
  rewrite Hparse. clear parse Hparse. destruct (check_spec a sp) as [[]| |]; [|done|done]. cbn [mbind result_bind].
  destruct (arg_formatter (specs_of sp) a) as [x| |]; [|done|done]. cbn [mbind result_bind]. rewrite strip_same.
  cbn [mbind result_bind]. by rewrite app_assoc.
Qed.

Lemma short_renders ps text h : Forall piece_ok ps → 0 ≤ next_arg_id h →
  (h' ← short text (print ps) h; Done (out h')) = (t ← render args ps (next_arg_id h); Done (out h ++ text ++ t)).
Proof.
  intros Hps. revert text h. induction Hps as [|p ps Hp Hps IH]; intros text h Hn; [simpl; by rewrite app_nil_r|].
  unfold print. cbn [fmap list_fmap concat]. fold (print ps). destruct p as [t| |sp]; cbn [print_piece render].
  - destruct (short_escape t text (print ps) h) as (text' & h' & -> & Hh). injection Hh as Ho Hid.
    rewrite IH by lia. rewrite Hid. destruct (render args ps (next_arg_id h)) as [u| |]; [|done|done].
    cbn [mbind result_bind]. rewrite app_assoc, Ho. by rewrite <- !app_assoc.
  - rewrite short_field by done. destruct (get_arg args (next_arg_id h)) as [a| |]; [|done|done]. cbn [mbind result_bind].
    destruct (plain_text a) as [x| |]; [|done|done]. cbn [mbind result_bind]. rewrite IH by (cbn [next_arg_id]; lia). cbn [next_arg_id out].
    destruct (render args ps (next_arg_id h + 1)) as [u| |]; [|done|done]. cbn [mbind result_bind]. by rewrite <- !app_assoc.
  - rewrite <- !app_assoc. rewrite short_formatted by done. destruct (get_arg args (next_arg_id h)) as [a| |] eqn:Ea; [|done|done].
    cbn [mbind result_bind]. rewrite <- field_ok by (done || by eapply get_arg_ok). destruct (check_spec a sp) as [[]| |]; [|done|done].
    cbn [mbind result_bind]. destruct (arg_formatter (specs_of sp) a) as [x| |]; [|done|done]. cbn [mbind result_bind]. rewrite IH by (cbn [next_arg_id]; lia).
    cbn [next_arg_id out]. destruct (render args ps (next_arg_id h + 1)) as [u| |]; [|done|done]. cbn [mbind result_bind].
    by rewrite <- !app_assoc.
Qed.

Lemma parse_is_short s h : parse_format_string args s h = short [] s h.
Proof. unfold parse_format_string. case_match; [done|]. by apply long_as_short. Qed.

Lemma vformat_is_short s : vformat_to args s = h ← short [] s (mkHandler [] 0); Done (out h).
Proof.
  unfold vformat_to. destruct (decide _) as [->|]; [|by rewrite parse_is_short].
  pose proof (short_field [] [] (mkHandler [] 0) ltac:(done)) as Hf. rewrite app_nil_r in Hf. rewrite Hf. cbn [next_arg_id out].
  destruct (get_arg args 0) as [a| |] eqn:E; [|done|done]. cbn [mbind result_bind]. rewrite default_is_plain by by eapply get_arg_ok.
  destruct (plain_text a) as [x| |]; [|done|done]. cbn. by rewrite app_nil_r.
Qed.
End rendering.

(** The loop for long strings, with its two searches ahead, gives what the loop for short ones gives. *)
Theorem long_strings_as_short args s h : Forall arg_ok args →
  parse_long args (length s) s h = parse_short args (length s) [] s h.
Proof. intros. by apply long_as_short. Qed.

Lemma long_strings_as_short_witness :
  parse_long [int_arg 42] (length (str "}} {:>4}")) (str "}} {:>4}") (mkHandler [] 0) = Done (mkHandler (str "}   42") 1) ∧
  parse_long [int_arg 42] (length (str "}} {:>4}")) (str "}} {:>4}") (mkHandler [] 0) =
    parse_short [int_arg 42] (length (str "}} {:>4}")) [] (str "}} {:>4}") (mkHandler [] 0).
Proof. split; [by vm_compute|]. apply long_strings_as_short. repeat constructor; vm_compute; done. Defined.

Lemma vformat_no_crash args s : Forall arg_ok args → ∀ f, vformat_to args s ≠ Crash f.
Proof.
  intros Hargs f Hf. rewrite vformat_is_short in Hf by done. unfold short in Hf.
  pose proof (safe_short args Hargs (length s) [] s (mkHandler [] 0) ltac:(done)) as Hs.
  by destruct (parse_short args (length s) [] s (mkHandler [] 0)).
Qed.

(** C37: Any format string over values that fit their types is printed or refused with an exception: no
    assertion of the library fails, no buffer is left, and the loops end. *)
Theorem vformat_never_fails args s f : Forall arg_ok args → vformat_to args s ≠ Crash f.
Proof. intros. by apply vformat_no_crash. Qed.

Lemma vformat_never_fails_witness : (∃ e, vformat_to [int_arg (-42)] (str "{:{}}") = Throw e) ∧
  ∀ f, vformat_to [int_arg (-42)] (str "{:{}}") ≠ Crash f.
Proof.
  split; [eexists; by vm_compute|]. intros f. apply vformat_never_fails. repeat constructor; vm_compute; done.
Defined.

(** C20: A format string written from texts, fields and specifications prints the texts as they are and
    the arguments in order, each as its specification says: the sign, the prefix and the digits in the
    base of the type, zeros or a fill up to the width on the side of the alignment, a string cut to
    the precision.  It is refused where an argument is missing or does not take the specification. *)
Theorem format_prints_pieces args ps : Forall arg_ok args → Forall piece_ok ps →
  vformat_to args (print ps) = render args ps 0.
Proof.
  intros Hargs Hps. rewrite vformat_is_short by done. rewrite short_renders by done. cbn [next_arg_id out app].
  by destruct (render args ps 0).
Qed.

Definition demo_spec : spec := mkSpec (Some (Some "*"%byte, align_center)) sign_plus true false (Some 9) None (Some "x"%byte).
Definition demo_pieces : list piece := [Text (str "fd {"); Field; Text (str "} at "); Formatted demo_spec].

Example fields_examples :
  field_text (int_arg (-42)) (mkSpec None sign_none false true (Some 6) None None) = Done (str "-00042") ∧
  field_text (ulong_long_arg 255) (mkSpec None sign_none true false (Some 8) None (Some "X"%byte)) = Done (str "    0XFF") ∧
  field_text (int_arg 8) (mkSpec (Some (Some "."%byte, align_left)) sign_plus true false (Some 6) None (Some "o"%byte)) = Done (str "+010..") ∧
  field_text (string_arg (str "abcdef")) (mkSpec (Some (None, align_center)) sign_none false false (Some 8) (Some 3) None) = Done (str "  abc   ") ∧
  field_text (string_arg (str "abc")) (mkSpec None sign_plus false false None None None) = on_error "format specifier requires numeric argument".
Proof. by vm_compute. Qed.

Lemma format_prints_pieces_witness : print demo_pieces = str "fd {{{}}} at {:*^+#9x}" ∧
  vformat_to [int_arg (-7); long_long_arg 255] (print demo_pieces) = render [int_arg (-7); long_long_arg 255] demo_pieces 0 ∧
  render [int_arg (-7); long_long_arg 255] demo_pieces 0 = Done (str "fd {-7} at **+0xff**").
Proof.
  split_and!; [by vm_compute| |by vm_compute]. apply format_prints_pieces.
  - repeat constructor; vm_compute; done.
  - repeat constructor; done || (vm_compute; done).
Defined.

(** A padded number has the width that is asked for. *)
Lemma fill_n_length n f : 0 ≤ n → zlen (fill_n n f) = n * zlen f.
Proof.
  intros Hn. unfold fill_n. rewrite <- (Z2Nat.id n) at 2 by done. generalize (Z.to_nat n) as k. induction k as [|k IH]; [done|].
  cbn [replicate concat]. rewrite zlen_app, IH. lia.
Qed.

Lemma write_padded_width shifts specs w body : specs_ok specs → zlen (fill specs) = 1 → zlen body = w → (∀ a, 0 ≤ shifts a) →
  ∃ s, write_padded shifts specs w body = Done s ∧ zlen s = Z.max (width specs) w.
Proof.
  intros Hok Hf Hb Hsh. unfold write_padded, FMT_ASSERT. rewrite assert_true by by apply Z.leb_le. cbn [lift mbind result_bind].
  eexists. split; [done|]. set (padding := if w <? width specs then _ else _).
  assert (Hp : padding = Z.max (width specs) w - w) by (unfold padding; destruct (Z.ltb_spec w (width specs)); lia).
  assert (0 ≤ Z.shiftr padding (shifts (align specs)) ≤ padding).
  { rewrite Z.shiftr_div_pow2 by done. split; [apply Z.div_pos; [lia|apply Z.pow_pos_nonneg; done]|].
    apply Z.div_le_upper_bound; [by apply Z.pow_pos_nonneg|]. assert (1 ≤ 2 ^ shifts (align specs)) by (assert (0 < 2 ^ shifts (align specs)) by (by apply Z.pow_pos_nonneg); lia). nia. }
  rewrite !zlen_app, !fill_n_length by lia. rewrite Hf. lia.
Qed.

(** An empty specification in front of an alignment character takes the brace for the fill. *)
Lemma empty_spec_eats_brace : vformat_to [int_arg 1] (str "{:}< 2") = on_error "missing '}' in format string" ∧
  vformat_to [int_arg 1] (str "{:} < 2") = Done (str "1 < 2").
Proof. by split; vm_compute. Qed.
