(* ===== verification/Bigint.v ===== *)
(** * Bigint: the big integers of src/thirdParty/spdlog/fmt/bundled/format-inl.h

    Class bigint, the arithmetic behind the printing of floating-point numbers with a given
    precision: an array of 32-bit bigits, least significant first, and an exponent that counts
    the zero bigits in front of it.  Every operation against the number it stands for; and where
    two of them go wrong.  Exponents and sizes are far from the limits of an int for the numbers
    that occur, and are not wrapped. *)
From S2P Require Import Prelude.

Record bigint := mkBig { bigits_ : list Z; exp_ : Z }.
Implicit Types (n lhs rhs other divisor : bigint) (l : list Z).

Definition bigit_bits : Z := 32.
Definition mask : Z := 2 ^ 32 - 1.

Definition num_bigits n : Z := zlen (bigits_ n) + exp_ n.

(** The destructor asserts that the buffer is still the one inside the object.  A buffer that has
    grown stays so, and every bigint is destroyed in the end: the assertion fails when and only when
    a size has exceeded the capacity, so it is made where a number grows. *)
Definition bigits_capacity : Z := 32.
Definition room (size : Z) : outcome unit := assert_ (size <=? bigits_capacity).
Definition kept n : outcome bigint := _ ← room (zlen (bigits_ n)); Ok n.

(** [do ... while]: a bigit for every 32 bits, at most two. *)
Definition assign (v : Z) : bigint :=
  let low := Z.land v mask in
  let v := Z.shiftr v bigit_bits in
  mkBig (if v =? 0 then [low] else [low; Z.land v mask]) 0.

(** The top zeros go, but one bigit stays. *)
Fixpoint drop_zeros l : list Z :=
  match l with
  | 0 :: (_ :: _) as r => drop_zeros r
  | _ => l
  end.
Definition remove_leading_zeros n : bigint := mkBig (reverse (drop_zeros (reverse (bigits_ n)))) (exp_ n).

(** *** Products *)
Fixpoint multiply32_loop (wide_value carry : Z) l : list Z :=
  match l with
  | [] => if carry =? 0 then [] else [carry]
  | d :: l =>
      let result := u64 (d * wide_value + carry) in
      u32 result :: multiply32_loop wide_value (u32 (Z.shiftr result bigit_bits)) l
  end.
Definition multiply32 (value : Z) n : bigint := mkBig (multiply32_loop value 0 (bigits_ n)) (exp_ n).

(** A carry of 64 bits needs two more bigits at most. *)
Definition push_carry (carry : Z) : list Z :=
  if carry =? 0 then []
  else
    let c := Z.shiftr carry bigit_bits in
    Z.land carry mask :: (if c =? 0 then [] else [Z.land c mask]).
Fixpoint multiply64_loop (lower upper carry : Z) l : list Z :=
  match l with
  | [] => push_carry carry
  | d :: l =>
      let result := u64 (d * lower + Z.land carry mask) in
      let carry := u64 (u64 (d * upper) + Z.shiftr result bigit_bits + Z.shiftr carry bigit_bits) in
      u32 result :: multiply64_loop lower upper carry l
  end.
Definition multiply64 (value : Z) n : bigint :=
  mkBig (multiply64_loop (Z.land value mask) (Z.shiftr value bigit_bits) 0 (bigits_ n)) (exp_ n).

(** [operator*=] for an int and for a uint64_t. *)
Definition times_int (value : Z) n : outcome bigint := _ ← assert_ (0 <? value); kept (multiply32 (u32 value) n).
Definition times_u64 (value : Z) n : outcome bigint := _ ← assert_ (0 <? value); kept (multiply64 value n).

Fixpoint shl_loop (shift carry : Z) l : list Z :=
  match l with
  | [] => if carry =? 0 then [] else [carry]
  | d :: l => u32 (u32 (Z.shiftl d shift) + carry) :: shl_loop shift (Z.shiftr d (bigit_bits - shift)) l
  end.
Definition shl (shift : Z) n : outcome bigint :=
  _ ← assert_ (0 <=? shift);
  let e := exp_ n + shift / bigit_bits in
  let shift := shift mod bigit_bits in
  if shift =? 0 then Ok (mkBig (bigits_ n) e) else kept (mkBig (shl_loop shift 0 (bigits_ n)) e).

(** The accumulator for compilers without 128-bit integers. *)
Record accumulator := mkAcc { lower : Z; upper : Z }.
Definition acc_zero : accumulator := mkAcc 0 0.
Definition acc_bigit (a : accumulator) : Z := u32 (lower a).
Definition acc_add (a : accumulator) (v : Z) : accumulator :=
  let low := u64 (lower a + v) in mkAcc low (if low <? v then u64 (upper a + 1) else upper a).
Definition acc_shift (a : accumulator) : accumulator :=
  mkAcc (Z.lor (u64 (Z.shiftl (upper a) 32)) (Z.shiftr (lower a) 32)) (Z.shiftr (upper a) 32).

(** What the sum of [square] is kept in. *)
Class Accumulator (A : Type) := {
  sum_zero : A;
  sum_add : A → Z → A;
  sum_bigit : A → Z;
  sum_shift : A → A
}.
#[export] Instance uint128_sum : Accumulator Z := {|
  sum_zero := 0;
  sum_add s v := wrapu 128 (s + v);
  sum_bigit s := u32 s;
  sum_shift s := Z.shiftr s bigit_bits |}.
#[export] Instance accumulator_sum : Accumulator accumulator := {|
  sum_zero := acc_zero;
  sum_add := acc_add;
  sum_bigit := acc_bigit;
  sum_shift := acc_shift |}.

Section square.
Context {A : Type} `{Accumulator A}.

(** The terms [l[i] * l[j]] from given [i] and [j], one up and the other down. *)
Fixpoint add_terms (count : nat) (i j : Z) l (s : A) : outcome A :=
  match count with
  | O => Ok s
  | S count =>
      x ← read_at i l; y ← read_at j l;
      add_terms count (i + 1) (j - 1) l (sum_add s (u64 (x * y)))
  end.
(** One bigit of the result; the lower half starts from i = 0, the upper half from j = num_bigits - 1. *)
Definition column (num_bigits bigit_index : Z) l (s : A) : outcome A :=
  if bigit_index <? num_bigits
  then add_terms (Z.to_nat (bigit_index + 1)) 0 bigit_index l s
  else let j := num_bigits - 1 in add_terms (Z.to_nat (num_bigits - (bigit_index - j))) (bigit_index - j) j l s.
Fixpoint square_loop (count : nat) (num_bigits bigit_index : Z) l (s : A) : outcome (list Z) :=
  match count with
  | O => Ok []
  | S count =>
      s ← column num_bigits bigit_index l s;
      r ← square_loop count num_bigits (bigit_index + 1) l (sum_shift s);
      Ok (sum_bigit s :: r)
  end.
Definition square n : outcome bigint :=
  let num_bigits := zlen (bigits_ n) in
  _ ← room (2 * num_bigits);
  r ← square_loop (Z.to_nat (2 * num_bigits)) num_bigits 0 (bigits_ n) sum_zero;
  Ok (mkBig (bigits_ (remove_leading_zeros (mkBig r 0))) (exp_ n * 2)).

(** 10 to the [exp], by squaring from the bit below the top one. *)
Fixpoint top_bit (fuel : nat) (exp bitmask : Z) : outcome Z :=
  match fuel with
  | O => Err OutOfFuel
  | S fuel => if bitmask <=? exp then top_bit fuel exp (i32 (Z.shiftl bitmask 1)) else Ok bitmask
  end.
Fixpoint pow5_loop (fuel : nat) (exp bitmask : Z) n : outcome bigint :=
  if bitmask =? 0 then Ok n
  else
    match fuel with
    | O => Err OutOfFuel
    | S fuel =>
        n ← square n;
        n ← (if Z.land exp bitmask =? 0 then Ok n else times_int 5 n);
        pow5_loop fuel exp (Z.shiftr bitmask 1) n
    end.
Definition assign_pow10 (exp : Z) : outcome bigint :=
  _ ← assert_ (0 <=? exp);
  if exp =? 0 then Ok (assign 1)
  else
    bitmask ← top_bit 32 exp 1;
    n ← pow5_loop 32 exp (Z.shiftr (Z.shiftr bitmask 1) 1) (assign 5);
    shl exp n.
End square.

(** *** Comparisons *)

(** The bigits from the top down, as long as both numbers have them. *)
Fixpoint compare_down (lhs rhs : list Z) : Z :=
  match lhs, rhs with
  | [], [] => 0
  | _ :: _, [] => 1
  | [], _ :: _ => -1
  | a :: lhs, b :: rhs => if a =? b then compare_down lhs rhs else if b <? a then 1 else -1
  end.
Definition compare lhs rhs : Z :=
  if num_bigits lhs =? num_bigits rhs
  then compare_down (reverse (bigits_ lhs)) (reverse (bigits_ rhs))
  else if num_bigits rhs <? num_bigits lhs then 1 else -1.

Definition get_bigit n (i : Z) : Z :=
  if (exp_ n <=? i) && (i <? num_bigits n) then default 0 (bigits_ n !! Z.to_nat (i - exp_ n)) else 0.
(** [count] bigits from [i] down. *)
Fixpoint add_compare_loop (count : nat) (i borrow : Z) lhs1 lhs2 rhs : Z :=
  match count with
  | O => if borrow =? 0 then 0 else -1
  | S count =>
      let sum := u64 (get_bigit lhs1 i + get_bigit lhs2 i) in
      let rhs_bigit := get_bigit rhs i in
      if u64 (rhs_bigit + borrow) <? sum then 1
      else
        let borrow := u64 (rhs_bigit + borrow - sum) in
        if 1 <? borrow then -1 else add_compare_loop count (i - 1) (u64 (Z.shiftl borrow bigit_bits)) lhs1 lhs2 rhs
  end.
(** compare(lhs1 + lhs2, rhs). *)
Definition add_compare lhs1 lhs2 rhs : Z :=
  let max_lhs_bigits := Z.max (num_bigits lhs1) (num_bigits lhs2) in
  let num_rhs_bigits := num_bigits rhs in
  if max_lhs_bigits + 1 <? num_rhs_bigits then -1
  else if num_rhs_bigits <? max_lhs_bigits then 1
  else
    let min_exp := Z.min (Z.min (exp_ lhs1) (exp_ lhs2)) (exp_ rhs) in
    add_compare_loop (Z.to_nat (num_rhs_bigits - min_exp)) (num_rhs_bigits - 1) 0 lhs1 lhs2 rhs.

(** *** Subtraction and division *)
Definition subtract_bigits (x other borrow : Z) : Z * Z :=
  let result := u64 (x - other - borrow) in (u32 result, Z.shiftr result (bigit_bits * 2 - 1)).

(** [while (borrow > 0) subtract_bigits(i, 0, borrow)]: the index stays. *)
Fixpoint borrow_loop (fuel : nat) l (borrow : Z) : outcome (list Z) :=
  if borrow =? 0 then Ok l
  else
    match fuel, l with
    | O, _ => Err OutOfFuel
    | _, [] => Err OutOfRange
    | S fuel, x :: l => let '(x, borrow) := subtract_bigits x 0 borrow in borrow_loop fuel (x :: l) borrow
    end.
Fixpoint subtract_loop l (o : list Z) (borrow : Z) : outcome (list Z) :=
  match o, l with
  | [], _ => borrow_loop 3 l borrow
  | _ :: _, [] => Err OutOfRange
  | y :: o, x :: l =>
      let '(x, borrow) := subtract_bigits x y borrow in
      l ← subtract_loop l o borrow;
      Ok (x :: l)
  end.
Definition subtract_aligned n other : outcome bigint :=
  _ ← assert_ (exp_ n <=? exp_ other);
  _ ← assert_ (0 <=? compare n other);
  let i := Z.to_nat (exp_ other - exp_ n) in
  l ← subtract_loop (drop i (bigits_ n)) (bigits_ other) 0;
  Ok (remove_leading_zeros (mkBig (take i (bigits_ n) ++ l) (exp_ n))).

Definition align n other : outcome bigint :=
  let exp_difference := exp_ n - exp_ other in
  if exp_difference <=? 0 then Ok n
  else kept (mkBig (replicate (Z.to_nat exp_difference) 0 ++ bigits_ n) (exp_ n - exp_difference)).

(** The quotient is found by subtracting; [fuel] bounds it. *)
Fixpoint divmod_loop (fuel : nat) (quotient : Z) n divisor : outcome (Z * bigint) :=
  match fuel with
  | O => Err OutOfFuel
  | S fuel =>
      n ← subtract_aligned n divisor;
      let quotient := quotient + 1 in
      if 0 <=? compare n divisor then divmod_loop fuel quotient n divisor else Ok (quotient, n)
  end.
Definition divmod_assign (fuel : nat) n divisor : outcome (Z * bigint) :=
  if compare n divisor <? 0 then Ok (0, n)
  else
    top ← read_at (zlen (bigits_ divisor) - 1) (bigits_ divisor);
    _ ← assert_ (negb (top =? 0));
    n ← align n divisor;
    divmod_loop fuel 0 n divisor.

(** ** The number that a bigint stands for *)
Fixpoint eval l : Z := match l with [] => 0 | d :: l => d + 2 ^ 32 * eval l end.
Definition value n : Z := eval (bigits_ n) * 2 ^ (32 * exp_ n).
Abbreviation bigits_ok := (Forall (in_u 32)).

Lemma split32 r : u32 r + 2 ^ 32 * Z.shiftr r bigit_bits = r.
Proof. unfold wrapu, bigit_bits. rewrite Z.shiftr_div_pow2 by lia. pose proof (Z_div_mod_eq_full r (2 ^ 32)). lia. Qed.

(** Bits below [k] and a multiple of [2 ^ k]. *)
Lemma lor_add a b k : 0 ≤ k → 0 ≤ b < 2 ^ k → Z.lor (a * 2 ^ k) b = a * 2 ^ k + b.
Proof.
  intros Hk Hb. rewrite <- Z.add_lor_land. assert (E : Z.land (a * 2 ^ k) b = 0); [|lia].
  apply Z.bits_inj'. intros i Hi. rewrite Z.land_spec, Z.bits_0. destruct (Z.lt_ge_cases i k).
  - by rewrite Z.mul_pow2_bits_low.
  - rewrite <- (Z.mod_small b (2 ^ k)), Z.mod_pow2_bits_high, andb_false_r by lia. done.
Qed.

Lemma land_mask r : Z.land r mask = u32 r.
Proof. change mask with (Z.ones 32). by rewrite Z.land_ones by lia. Qed.

Lemma shiftr32 r : Z.shiftr r bigit_bits = r / 2 ^ 32.
Proof. unfold bigit_bits. by rewrite Z.shiftr_div_pow2 by lia. Qed.

Lemma u32_range r : in_u 32 (u32 r).
Proof. by apply wrapu_range. Qed.

Lemma high_range r : in_u 64 r → in_u 32 (r / 2 ^ 32).
Proof. unfold in_u. intros Hr. split; [apply Z.div_pos; lia|apply Z.div_lt_upper_bound; lia]. Qed.

Lemma eval_app l l' : eval (l ++ l') = eval l + 2 ^ (32 * zlen l) * eval l'.
Proof.
  induction l as [|d l IH]; [by rewrite Z.mul_1_l|]. simpl app. cbn [eval]. rewrite IH, zlen_cons.
  pose proof (zlen_nonneg l). replace (32 * (zlen l + 1)) with (32 + 32 * zlen l) by lia. rewrite Z.pow_add_r by lia. lia.
Qed.

Lemma eval_bounds l : bigits_ok l → 0 ≤ eval l < 2 ^ (32 * zlen l).
Proof.
  induction 1 as [|d l Hd Hl IH]; [done|]. cbn [eval]. unfold in_u in Hd. rewrite zlen_cons. pose proof (zlen_nonneg l).
  replace (32 * (zlen l + 1)) with (32 + 32 * zlen l) by lia. rewrite Z.pow_add_r by lia. lia.
Qed.

Lemma eval_zeros k l : eval (replicate k 0 ++ l) = 2 ^ (32 * Z.of_nat k) * eval l.
Proof.
  rewrite eval_app, zlen_replicate. assert (H0 : eval (replicate k 0) = 0); [|by rewrite H0].
  induction k as [|k IH]; [done|]. cbn [replicate eval]. lia.
Qed.

Lemma pow32_pos k : 0 ≤ k → 0 < 2 ^ (32 * k).
Proof. intros. apply Z.pow_pos_nonneg; lia. Qed.

(** Without zeros at the top; and zero itself, which is one bigit. *)
Record canonical n : Prop := {
  can_ok : bigits_ok (bigits_ n);
  can_exp : 0 ≤ exp_ n;
  can_top : ∃ l t, bigits_ n = l ++ [t] ∧ 0 < t
}.
Definition is_zero n : Prop := bigits_ n = [0] ∧ 0 ≤ exp_ n.
Definition wf n : Prop := canonical n ∨ is_zero n.

Lemma wf_ok n : wf n → bigits_ok (bigits_ n) ∧ 0 ≤ exp_ n ∧ bigits_ n ≠ [].
Proof.
  intros [[Hok He (l & t & E & _)]|[E He]]; (split_and!; [try done|done|rewrite E; try done]); [by destruct l|].
  rewrite E. by apply Forall_singleton.
Qed.

Lemma num_bigits_pos n : wf n → exp_ n < num_bigits n.
Proof. intros (_ & _ & Hne)%wf_ok. unfold num_bigits. destruct (bigits_ n); [done|]. rewrite zlen_cons. pose proof (zlen_nonneg l). lia. Qed.

Lemma value_lt n : wf n → 0 ≤ value n < 2 ^ (32 * num_bigits n).
Proof.
  intros (Hok & He & _)%wf_ok. unfold value, num_bigits. pose proof (eval_bounds _ Hok). pose proof (pow32_pos _ He).
  pose proof (zlen_nonneg (bigits_ n)). replace (32 * (zlen (bigits_ n) + exp_ n)) with (32 * zlen (bigits_ n) + 32 * exp_ n) by lia.
  rewrite Z.pow_add_r by lia. split; [apply Z.mul_nonneg_nonneg; lia|apply Z.mul_lt_mono_pos_r; lia].
Qed.

Lemma value_ge n : canonical n → 2 ^ (32 * (num_bigits n - 1)) ≤ value n.
Proof.
  intros [Hok He (l & t & E & Ht)]. unfold value, num_bigits. rewrite E in *. apply Forall_app in Hok as [Hok _].
  rewrite eval_app, zlen_app. cbn [eval]. change (zlen [t]) with 1. pose proof (eval_bounds _ Hok). pose proof (pow32_pos _ He).
  pose proof (zlen_nonneg l). replace (32 * (zlen l + 1 + exp_ n - 1)) with (32 * zlen l + 32 * exp_ n) by lia.
  rewrite Z.pow_add_r by lia. apply Z.mul_le_mono_nonneg_r; [lia|]. pose proof (pow32_pos (zlen l)). nia.
Qed.

Lemma canonical_pos n : canonical n → 0 < value n.
Proof.
  intros Hc. pose proof (value_ge n Hc). pose proof (num_bigits_pos n (or_introl Hc)). destruct Hc as [_ He _].
  pose proof (pow32_pos (num_bigits n - 1)). lia.
Qed.

Lemma zero_value n : is_zero n → value n = 0.
Proof. intros [E _]. unfold value. by rewrite E. Qed.

Lemma wf_cases n : wf n → canonical n ∧ 0 < value n ∨ is_zero n ∧ value n = 0.
Proof. intros [Hc|Hz]; [left; auto using canonical_pos|right; auto using zero_value]. Qed.

(** How many bigits a number needs. *)
Lemma size_le n k : wf n → 1 ≤ k → value n < 2 ^ (32 * (exp_ n + k)) → zlen (bigits_ n) ≤ k.
Proof.
  intros [Hc|[E _]] Hk Hv; [|by rewrite E]. pose proof (value_ge n Hc) as Hge. pose proof (num_bigits_pos n (or_introl Hc)).
  destruct Hc as [_ He _]. assert (Hlt : 2 ^ (32 * (num_bigits n - 1)) < 2 ^ (32 * (exp_ n + k))) by lia.
  apply Z.pow_lt_mono_r_iff in Hlt; [|lia|lia]. unfold num_bigits in Hlt. lia.
Qed.
Lemma kept_ok n : zlen (bigits_ n) ≤ bigits_capacity → kept n = Ok n.
Proof. intros Hl. unfold kept, room. by rewrite assert_true by (apply Z.leb_le; lia). Qed.
Lemma kept_value n : wf n → value n < 2 ^ (32 * (exp_ n + bigits_capacity)) → kept n = Ok n.
Proof. intros. apply kept_ok, size_le; done. Qed.

(** A list that is written out. *)
Ltac each tac := repeat (apply Forall_cons_2; [solve [tac]|]); apply Forall_nil_2.

(** *** Products *)

Lemma multiply32_eval v c l : in_u 32 v → in_u 32 c → bigits_ok l →
  eval (multiply32_loop v c l) = eval l * v + c ∧ bigits_ok (multiply32_loop v c l).
Proof.
  intros Hv. revert c. induction l as [|d l IH]; intros c Hc Hl.
  - cbn [multiply32_loop]. destruct (Z.eqb_spec c 0) as [->|Hne]; [done|]. split; [simpl; lia|each done].
  - inversion_clear Hl as [|?? Hd Hl']. cbn [multiply32_loop]. unfold in_u in Hv, Hc, Hd.
    rewrite (u64_small (d * v + c)) by nia. set (r := d * v + c).
    assert (Hr : in_u 64 r) by (unfold in_u, r; nia). pose proof (high_range r Hr) as Hh.
    rewrite shiftr32, (wrapu_small 32 (r / 2 ^ 32)) by done. destruct (IH (r / 2 ^ 32) Hh Hl') as [E Hok].
    split; [|constructor; [apply u32_range|done]]. cbn [eval]. rewrite E.
    pose proof (split32 r) as Hs. rewrite shiftr32 in Hs. unfold r in *. lia.
Qed.

Lemma push_carry_eval c : in_u 64 c → eval (push_carry c) = c ∧ bigits_ok (push_carry c).
Proof.
  intros Hc. unfold push_carry. destruct (Z.eqb_spec c 0) as [->|Hne]; [done|]. rewrite !land_mask.
  pose proof (high_range c Hc) as Hh. rewrite shiftr32. pose proof (split32 c) as Hs. rewrite shiftr32 in Hs.
  destruct (Z.eqb_spec (c / 2 ^ 32) 0) as [E|E].
  - split; [cbn [eval]; lia|each ltac:(apply u32_range)].
  - rewrite (wrapu_small 32 (c / 2 ^ 32)) by done. split; [cbn [eval]; lia|each ltac:(apply u32_range || done)].
Qed.

Lemma multiply64_eval lo up c l : in_u 32 lo → in_u 32 up → in_u 64 c → bigits_ok l →
  eval (multiply64_loop lo up c l) = eval l * (lo + 2 ^ 32 * up) + c ∧ bigits_ok (multiply64_loop lo up c l).
Proof.
  intros Hlo Hup. revert c. induction l as [|d l IH]; intros c Hc Hl.
  - cbn [multiply64_loop]. destruct (push_carry_eval c Hc) as [-> Hok]. split; [simpl; lia|done].
  - inversion_clear Hl as [|?? Hd Hl']. cbn [multiply64_loop]. rewrite land_mask, !shiftr32.
    pose proof (u32_range c) as Hcl. pose proof (high_range c Hc) as Hch. pose proof (split32 c) as Hcs. rewrite shiftr32 in Hcs.
    unfold in_u in Hlo, Hup, Hd, Hcl, Hch.
    assert (Hr : in_u 64 (d * lo + u32 c)) by (unfold in_u; nia). rewrite (u64_small (d * lo + u32 c)) by done.
    set (r := d * lo + u32 c) in *. pose proof (high_range r Hr) as Hrh. pose proof (split32 r) as Hrs. rewrite shiftr32 in Hrs.
    unfold in_u in Hrh. rewrite (u64_small (d * up)) by nia.
    assert (Hc' : in_u 64 (d * up + r / 2 ^ 32 + c / 2 ^ 32)) by (unfold in_u; nia).
    rewrite (u64_small (d * up + _ + _)) by done. destruct (IH _ Hc' Hl') as [E Hok].
    split; [|constructor; [apply u32_range|done]]. cbn [eval]. rewrite E. unfold r in *. lia.
Qed.

Lemma shl_eval s c l : 0 < s < 32 → 0 ≤ c < 2 ^ s → bigits_ok l →
  eval (shl_loop s c l) = eval l * 2 ^ s + c ∧ bigits_ok (shl_loop s c l).
Proof.
  intros Hs. revert c. assert (Hp : 2 ^ 32 = 2 ^ s * 2 ^ (32 - s)) by (rewrite <- Z.pow_add_r by lia; f_equal; lia).
  assert (0 < 2 ^ s) by (apply Z.pow_pos_nonneg; lia). assert (0 < 2 ^ (32 - s)) by (apply Z.pow_pos_nonneg; lia).
  induction l as [|d l IH]; intros c Hc Hl.
  - cbn [shl_loop]. destruct (Z.eqb_spec c 0) as [->|Hne]; [done|]. split; [simpl; lia|each ltac:(unfold in_u; nia)].
  - inversion_clear Hl as [|?? Hd Hl']. cbn [shl_loop]. unfold bigit_bits. unfold in_u in Hd.
    rewrite Z.shiftl_mul_pow2, Z.shiftr_div_pow2 by lia.
    pose proof (Z_div_mod_eq_full d (2 ^ (32 - s))) as Hdm. pose proof (Z.mod_pos_bound d (2 ^ (32 - s)) ltac:(lia)) as Hm.
    assert (Hhi : 0 ≤ d / 2 ^ (32 - s) < 2 ^ s) by (split; [apply Z.div_pos; lia|apply Z.div_lt_upper_bound; lia]).
    assert (Hlow : u32 (d * 2 ^ s) = d mod 2 ^ (32 - s) * 2 ^ s).
    { unfold wrapu. rewrite Hp, Z.mul_comm, Zmult_mod_distr_l. lia. }
    rewrite Hlow. rewrite (wrapu_small 32 (_ + c)) by (unfold in_u; nia).
    destruct (IH (d / 2 ^ (32 - s)) Hhi Hl') as [E Hok]. split; [|constructor; [unfold in_u; nia|done]].
    cbn [eval]. rewrite E. nia.
Qed.

(** The top bigit is not zero when the number is large enough. *)
Definition topped l : Prop := ∃ l' t, l = l' ++ [t] ∧ 0 < t.

Lemma topped_spec l : bigits_ok l → l ≠ [] → topped l ↔ 2 ^ (32 * (zlen l - 1)) ≤ eval l.
Proof.
  intros Hok Hne. destruct (exists_last Hne) as (l' & t & ->). apply Forall_app in Hok as [Hok [Ht _]%Forall_cons].
  rewrite eval_app, zlen_app. cbn [eval]. change (zlen [t]) with 1. replace (zlen l' + 1 - 1) with (zlen l') by lia.
  pose proof (eval_bounds _ Hok) as Hb. pose proof (pow32_pos _ (zlen_nonneg l')) as Hp. unfold in_u in Ht. split.
  - intros (l2 & t2 & [<- [= <-]]%app_inj_2 & Ht2); [nia|done].
  - intros Hle. exists l', t. split; [done|]. destruct (decide (t = 0)) as [->|]; [|lia]. nia.
Qed.

(** What the loops do to the length: nothing, or they push bigits of which the last is not zero. *)
Definition grown l r : Prop := ∃ m t, r = m ++ t ∧ length m = length l ∧ (t = [] ∨ topped t).

Lemma grown_cons x d l r : grown l r → grown (d :: l) (x :: r).
Proof. intros (m & t & -> & Hm & Ht). exists (x :: m), t. simpl. auto. Qed.

Lemma grown_push l r : r = [] ∨ topped r → grown [] r.
Proof. intros Hr. by exists [], r. Qed.

Lemma topped_one x : 0 < x → topped [x].
Proof. intros. by exists [], x. Qed.

Lemma multiply32_grown v c l : in_u 32 v → in_u 32 c → grown l (multiply32_loop v c l).
Proof.
  intros Hv. revert c. induction l as [|d l IH]; intros c Hc; cbn [multiply32_loop].
  - apply (grown_push []). destruct (Z.eqb_spec c 0); [by left|right]. apply topped_one. unfold in_u in Hc. lia.
  - apply grown_cons, IH, u32_range.
Qed.

Lemma multiply64_grown lo up c l : in_u 32 lo → in_u 32 up → in_u 64 c → grown l (multiply64_loop lo up c l).
Proof.
  intros Hlo Hup. revert c. induction l as [|d l IH]; intros c Hc; cbn [multiply64_loop].
  - apply (grown_push []). unfold push_carry. destruct (Z.eqb_spec c 0); [by left|right].
    rewrite !land_mask, shiftr32. pose proof (high_range c Hc) as Hh. pose proof (split32 c) as Hs. rewrite shiftr32 in Hs.
    pose proof (u32_range c) as Hl. unfold in_u in Hl, Hh.
    destruct (Z.eqb_spec (c / 2 ^ 32) 0).
    + apply topped_one. lia.
    + exists [u32 c], (u32 (c / 2 ^ 32)). split; [done|]. rewrite wrapu_small by done. lia.
  - apply grown_cons, IH. by apply wrapu_range.
Qed.

Lemma shl_grown s c l : 0 < s < 32 → 0 ≤ c < 2 ^ s → bigits_ok l → grown l (shl_loop s c l).
Proof.
  intros Hs. revert c. induction l as [|d l IH]; intros c Hc Hl; cbn [shl_loop].
  - apply (grown_push []). destruct (Z.eqb_spec c 0); [by left|right]. apply topped_one. lia.
  - inversion_clear Hl as [|?? Hd Hl']. apply grown_cons, IH; [|done]. unfold bigit_bits, in_u in *.
    rewrite Z.shiftr_div_pow2 by lia. split; [apply Z.div_pos; [lia|apply Z.pow_pos_nonneg; lia]|].
    apply Z.div_lt_upper_bound; [apply Z.pow_pos_nonneg; lia|]. rewrite <- Z.pow_add_r by lia. replace (32 - s + s) with 32 by lia. lia.
Qed.

Lemma grown_topped l r : bigits_ok l → bigits_ok r → topped l → grown l r → eval l ≤ eval r → topped r.
Proof.
  intros Hl Hr Ht (m & t & -> & Hm & [->|(t' & x & -> & Hx)]) Hle.
  - rewrite app_nil_r in *. assert (Hne : l ≠ []) by (destruct Ht as (? & ? & -> & _); by destruct x).
    assert (Hz : zlen m = zlen l) by (unfold zlen; lia).
    apply topped_spec; [done|by destruct l, m|]. apply topped_spec in Ht; [|done..]. rewrite Hz. lia.
  - exists (m ++ t'), x. by rewrite app_assoc.
Qed.

(** What a product and a shift leave of a bigint. *)
Record scaled (k : Z) n n' : Prop := {
  sc_wf : wf n';
  sc_value : value n' = value n * k;
  sc_zero : is_zero n → is_zero n'
}.

Lemma scaled_loop k n r e : wf n → 0 < k → exp_ n ≤ e → grown (bigits_ n) r → bigits_ok r →
  (bigits_ n = [0] → r = [0]) → eval r * 2 ^ (32 * (e - exp_ n)) = eval (bigits_ n) * k → eval (bigits_ n) ≤ eval r →
  scaled k n (mkBig r e).
Proof.
  intros Hwf Hk He Hg Hr H0 Hv Hle. assert (Hz : is_zero n → is_zero (mkBig r e)).
  { intros [E Hn]. split; [by apply H0|simpl; lia]. }
  assert (Hval : value (mkBig r e) = value n * k).
  { unfold value. simpl. assert (0 ≤ exp_ n) by (by destruct (wf_ok n Hwf) as (_ & ? & _)).
    replace (32 * e) with (32 * (e - exp_ n) + 32 * exp_ n) by lia. rewrite Z.pow_add_r, Z.mul_assoc, Hv by lia. ring. }
  split; [|done|done]. destruct Hwf as [[Hok Hn Ht]|Hn]; [left|right; by apply Hz].
  split; [done|simpl; lia|]. by eapply (grown_topped (bigits_ n)).
Qed.

Lemma scaled_kept k n n' e : scaled k n n' → value n * k < 2 ^ (32 * (e + bigits_capacity)) → e = exp_ n' →
  ∃ n'', kept n' = Ok n'' ∧ scaled k n n'' ∧ exp_ n'' = e.
Proof. intros Hs Hlt ->. exists n'. split; [apply kept_value; [apply Hs|by rewrite (sc_value k n n' Hs)]|done]. Qed.

Lemma times_int_ok v n : wf n → 0 < v < 2 ^ 31 → value n * v < 2 ^ (32 * (exp_ n + bigits_capacity)) → ∃ n', times_int v n = Ok n' ∧ scaled v n n' ∧ exp_ n' = exp_ n.
Proof.
  intros Hwf Hv Hsize. unfold times_int. rewrite assert_true by (apply Z.ltb_lt; lia). ok_simpl. apply scaled_kept; [|done|done].
  unfold multiply32. rewrite wrapu_small by (unfold in_u; lia). destruct (wf_ok n Hwf) as (Hok & He & _).
  destruct (multiply32_eval v 0 (bigits_ n)) as [E Hok']; [unfold in_u; lia|done|done|]. pose proof (eval_bounds _ Hok).
  apply scaled_loop; try done; try lia.
  - apply multiply32_grown; [unfold in_u; lia|done].
  - intros ->. done.
  - rewrite E. replace (exp_ n - exp_ n) with 0 by lia. lia.
  - rewrite E. nia.
Qed.

Lemma times_u64_ok v n : wf n → 0 < v < 2 ^ 64 → value n * v < 2 ^ (32 * (exp_ n + bigits_capacity)) → ∃ n', times_u64 v n = Ok n' ∧ scaled v n n' ∧ exp_ n' = exp_ n.
Proof.
  intros Hwf Hv Hsize. unfold times_u64. rewrite assert_true by (apply Z.ltb_lt; lia). ok_simpl. apply scaled_kept; [|done|done].
  unfold multiply64. rewrite land_mask, shiftr32. destruct (wf_ok n Hwf) as (Hok & He & _).
  pose proof (u32_range v) as Hlo. assert (Hup : in_u 32 (v / 2 ^ 32)) by (apply high_range; unfold in_u; lia).
  pose proof (split32 v) as Hs. rewrite shiftr32 in Hs.
  destruct (multiply64_eval (u32 v) (v / 2 ^ 32) 0 (bigits_ n)) as [E Hok']; try done. pose proof (eval_bounds _ Hok).
  rewrite Hs in E. apply scaled_loop; try done; try lia.
  - by apply multiply64_grown.
  - intros ->. simpl. by rewrite land_mask.
  - rewrite E. replace (exp_ n - exp_ n) with 0 by lia. lia.
  - rewrite E. nia.
Qed.

Lemma shl_ok s n : wf n → 0 ≤ s → value n * 2 ^ s < 2 ^ (32 * (exp_ n + s / 32 + bigits_capacity)) → ∃ n', shl s n = Ok n' ∧ scaled (2 ^ s) n n' ∧ exp_ n' = exp_ n + s / 32.
Proof.
  intros Hwf Hs Hsize. unfold shl. rewrite assert_true by (apply Z.leb_le; lia). ok_simpl. unfold bigit_bits.
  pose proof (Z_div_mod_eq_full s 32) as Hd. pose proof (Z.mod_pos_bound s 32 ltac:(lia)) as Hm.
  assert (0 ≤ s / 32) by (apply Z.div_pos; lia). destruct (wf_ok n Hwf) as (Hok & He & Hne).
  assert (0 < 2 ^ s) by (apply Z.pow_pos_nonneg; lia).
  assert (Hp : 2 ^ s = 2 ^ (32 * (s / 32)) * 2 ^ (s mod 32)) by (rewrite <- Z.pow_add_r by lia; f_equal; lia).
  destruct (Z.eqb_spec (s mod 32) 0) as [E|E].
  - eexists. split; [reflexivity|]. split; [|done]. apply scaled_loop; try done; try lia.
    + exists (bigits_ n), []. rewrite app_nil_r. auto.
    + replace (exp_ n + s / 32 - exp_ n) with (s / 32) by lia. by rewrite Hp, E, Z.mul_1_r.
  - destruct (shl_eval (s mod 32) 0 (bigits_ n)) as [Ev Hok']; [lia|split; [done|apply Z.pow_pos_nonneg; lia]|done|].
    pose proof (eval_bounds _ Hok). assert (0 < 2 ^ (s mod 32)) by (apply Z.pow_pos_nonneg; lia).
    apply scaled_kept; [|done|done]. apply scaled_loop; try done; try lia.
    + apply shl_grown; [lia|split; [done|apply Z.pow_pos_nonneg; lia]|done].
    + intros ->. cbn [shl_loop]. unfold bigit_bits. by rewrite Z.shiftl_0_l, Z.shiftr_0_l.
    + rewrite Ev, Hp. replace (exp_ n + s / 32 - exp_ n) with (s / 32) by lia. lia.
    + rewrite Ev. nia.
Qed.

(** *** Leading zeros *)
Lemma drop_zeros_spec l : l ≠ [] → ∃ k r, l = replicate k 0 ++ r ∧ drop_zeros l = r ∧ r ≠ [] ∧ (r = [0] ∨ head r ≠ Some 0).
Proof.
  induction l as [|d l IH]; [done|]. intros _. destruct (decide (d = 0)) as [->|Hd].
  - destruct l as [|d' l].
    + exists 0%nat, [0]. auto.
    + destruct IH as (k & r & E & Hr & Hne & Hh); [done|]. exists (S k), r. split_and!; try done. simpl. by rewrite E.
  - exists 0%nat, (d :: l). split_and!; try done; [by destruct d|]. right. by intros [= ->].
Qed.

Lemma remove_zeros_ok n : bigits_ok (bigits_ n) → 0 ≤ exp_ n → bigits_ n ≠ [] →
  wf (remove_leading_zeros n) ∧ value (remove_leading_zeros n) = value n.
Proof.
  intros Hok He Hne. unfold remove_leading_zeros, value, wf, is_zero. simpl.
  destruct (drop_zeros_spec (reverse (bigits_ n))) as (k & r & E & -> & Hr & Hh).
  { intros E. apply Hne. rewrite <- (reverse_involutive (bigits_ n)), E. done. }
  assert (Hb : bigits_ n = reverse r ++ replicate k 0).
  { rewrite <- (reverse_involutive (bigits_ n)), E, reverse_app, reverse_replicate. done. }
  assert (Hev : eval (bigits_ n) = eval (reverse r)).
  { rewrite Hb, eval_app, <- (app_nil_r (replicate k 0)), eval_zeros. simpl. lia. }
  assert (Hok' : bigits_ok (reverse r)) by (rewrite Hb in Hok; by apply Forall_app in Hok as [? _]).
  split; [|by rewrite Hev]. destruct Hh as [->|Hh]; [by right|]. left. split; [done|done|]. simpl.
  destruct r as [|t r]; [done|]. rewrite reverse_cons in *. exists (reverse r), t. split; [done|].
  apply Forall_app in Hok' as [_ [Ht _]%Forall_cons]. unfold in_u in Ht. destruct (decide (t = 0)) as [->|]; [done|lia].
Qed.

(** *** Squares *)

(** The coefficients of the product of two lists. *)
Fixpoint conv (a b : list Z) (k : nat) : Z :=
  match a with
  | [] => 0
  | x :: a => x * default 0 (b !! k) + match k with O => 0 | S k => conv a b k end
  end.
(** [count] coefficients from [k] on, as a number. *)
Fixpoint coeffs (f : nat → Z) (count k : nat) : Z :=
  match count with O => 0 | S count => f k + 2 ^ 32 * coeffs f count (S k) end.

Lemma coeffs_ext f g count k : (∀ i, f i = g i) → coeffs f count k = coeffs g count k.
Proof. intros E. revert k. induction count as [|count IH]; intros k; simpl; [done|]. by rewrite E, IH. Qed.
Lemma coeffs_add f g count k : coeffs (λ i, f i + g i) count k = coeffs f count k + coeffs g count k.
Proof. revert k. induction count as [|count IH]; intros k; simpl; [done|]. rewrite IH. lia. Qed.
Lemma coeffs_scale x f count k : coeffs (λ i, x * f i) count k = x * coeffs f count k.
Proof. revert k. induction count as [|count IH]; intros k; simpl; [lia|]. rewrite IH. lia. Qed.
Lemma coeffs_shift f count k : coeffs (λ i, match i with O => 0 | S i => f i end) count (S k) = coeffs f count k.
Proof. revert k. induction count as [|count IH]; intros k; simpl; [done|]. by rewrite IH. Qed.
Lemma coeffs_cons_list (x : Z) l count k : coeffs (λ i, default 0 ((x :: l) !! i)) count (S k) = coeffs (λ i, default 0 (l !! i)) count k.
Proof. revert k. induction count as [|count IH]; intros k; simpl; [done|]. by rewrite IH. Qed.

Lemma coeffs_list l count : (length l ≤ count)%nat → coeffs (λ i, default 0 (l !! i)) count 0 = eval l.
Proof.
  revert l. induction count as [|count IH]; intros l Hl; [by destruct l; simpl in *; [|lia]|].
  destruct l as [|x l]; simpl.
  - specialize (IH [] ltac:(simpl; lia)). rewrite (coeffs_ext _ (λ i, 0 * 0)) by done. rewrite coeffs_scale. lia.
  - rewrite coeffs_cons_list, IH by (simpl in Hl; lia). done.
Qed.

Lemma coeffs_conv a b count : (length a + length b ≤ count)%nat → coeffs (conv a b) count 0 = eval a * eval b.
Proof.
  revert count. induction a as [|x a IH]; intros count Hc.
  - rewrite (coeffs_ext _ (λ i, 0 * 0)) by done. rewrite coeffs_scale. simpl. lia.
  - rewrite (coeffs_ext _ (λ k, x * default 0 (b !! k) + (λ k, match k with O => 0 | S k => conv a b k end) k)) by done.
    rewrite coeffs_add, coeffs_scale, coeffs_list by (simpl in Hc; lia). destruct count as [|count]; [simpl in Hc; lia|].
    cbn [coeffs]. rewrite coeffs_shift, IH by (simpl in Hc; lia). cbn [eval]. lia.
Qed.

(** The first [i] terms are zero when the second factor has no such coefficient. *)
Lemma conv_skip a b (i k : nat) : (i ≤ length a)%nat → (i ≤ k)%nat → (length b ≤ k - i + 1)%nat → conv a b k = conv (drop i a) b (k - i).
Proof.
  revert a k. induction i as [|i IH]; intros a k Ha Hk Hb; [by rewrite Nat.sub_0_r|].
  destruct a as [|x a]; [done|]. destruct k as [|k]; [lia|]. cbn [conv drop]. rewrite (lookup_ge_None_2 b) by lia.
  rewrite IH by (simpl in *; lia). rewrite Z.mul_0_r. done.
Qed.

Lemma conv_nonneg a b k : bigits_ok a → bigits_ok b → 0 ≤ conv a b k ≤ zlen a * 2 ^ 64.
Proof.
  intros Ha Hb. revert k. induction Ha as [|x a Hx _ IH]; intros k; [done|]. cbn [conv]. rewrite zlen_cons.
  assert (Hy : 0 ≤ default 0 (b !! k) < 2 ^ 32).
  { destruct (b !! k) as [y|] eqn:E; [|done]. simpl. eapply Forall_lookup_1 in Hb; [|done]. done. }
  unfold in_u in Hx. pose proof (zlen_nonneg a). destruct k as [|k]; [nia|]. specialize (IH k). nia.
Qed.

(** What [square] needs of its accumulator: a number of 128 bits. *)
Class AccumulatorLaws (A : Type) (num : A → Z) (valid : A → Prop) `{Accumulator A} : Prop := {
  law_range s : valid s → in_u 128 (num s);
  law_zero : valid sum_zero ∧ num sum_zero = 0;
  law_add s v : valid s → in_u 64 v → num s + v < 2 ^ 128 → valid (sum_add s v) ∧ num (sum_add s v) = num s + v;
  law_bigit s : valid s → sum_bigit s = u32 (num s);
  law_shift s : valid s → valid (sum_shift s) ∧ num (sum_shift s) = num s / 2 ^ 32
}.
#[export] Instance uint128_laws : AccumulatorLaws Z (λ s, s) (in_u 128).
Proof.
  split; simpl; intros; rewrite ?shiftr32; try done.
  - rewrite wrapu_small; unfold in_u in *; lia.
  - split; [|done]. unfold in_u in *. split; [apply Z.div_pos; lia|apply Z.div_lt_upper_bound; lia].
Qed.

Definition acc_num (a : accumulator) : Z := upper a * 2 ^ 64 + lower a.
Definition acc_valid (a : accumulator) : Prop := in_u 64 (lower a) ∧ in_u 64 (upper a).

#[export] Instance accumulator_laws : AccumulatorLaws accumulator acc_num acc_valid.
Proof.
  split; unfold acc_valid, acc_num; simpl.
  - intros [lo up] [Hl Hu]. unfold in_u in *. simpl in *. lia.
  - done.
  - intros [lo up] v [Hl Hu] Hv Hlt. unfold in_u, acc_add in *. simpl in *.
    assert (Hw : u64 (lo + v) = if lo + v <? 2 ^ 64 then lo + v else lo + v - 2 ^ 64).
    { destruct (Z.ltb_spec (lo + v) (2 ^ 64)); [apply u64_small; lia|].
      replace (lo + v) with (lo + v - 2 ^ 64 + 1 * 2 ^ 64) at 1 by lia. unfold wrapu. rewrite Z_mod_plus_full. apply Z.mod_small. lia. }
    rewrite Hw. destruct (Z.ltb_spec (lo + v) (2 ^ 64)) as [H1|H1].
    + rewrite (proj2 (Z.ltb_ge (lo + v) v)) by lia. lia.
    + rewrite (proj2 (Z.ltb_lt (lo + v - 2 ^ 64) v)) by lia. rewrite u64_small by lia. lia.
  - intros [lo up] [Hl Hu]. unfold acc_bigit, wrapu. simpl. replace (up * 2 ^ 64) with (up * 2 ^ 32 * 2 ^ 32) by lia.
    by rewrite Z.add_comm, Z_mod_plus_full.
  - intros [lo up] [Hl Hu]. unfold acc_shift. unfold in_u in *. simpl in *. rewrite Z.shiftl_mul_pow2, !Z.shiftr_div_pow2 by lia.
    pose proof (Z_div_mod_eq_full up (2 ^ 32)) as Hd. pose proof (Z.mod_pos_bound up (2 ^ 32) ltac:(lia)) as Hm.
    assert (Hlo : 0 ≤ lo / 2 ^ 32 < 2 ^ 32) by (split; [apply Z.div_pos; lia|apply Z.div_lt_upper_bound; lia]).
    assert (Hup : 0 ≤ up / 2 ^ 32 < 2 ^ 32) by (split; [apply Z.div_pos; lia|apply Z.div_lt_upper_bound; lia]).
    assert (Hw : u64 (up * 2 ^ 32) = up mod 2 ^ 32 * 2 ^ 32).
    { unfold wrapu. change (2 ^ 64) with (2 ^ 32 * 2 ^ 32). by rewrite Zmult_mod_distr_r. }
    assert (Hor : Z.lor (up mod 2 ^ 32 * 2 ^ 32) (lo / 2 ^ 32) = up mod 2 ^ 32 * 2 ^ 32 + lo / 2 ^ 32).
    { apply lor_add; lia. }
    rewrite Hw, Hor. split; [lia|].
    replace (up * 2 ^ 64 + lo) with (lo + up * 2 ^ 32 * 2 ^ 32) by lia. rewrite Z.div_add by lia. lia.
Qed.

Lemma read_at_nat {A} (i : nat) (l : list A) x : l !! i = Some x → read_at (Z.of_nat i) l = Ok x.
Proof. intros E. unfold read_at. rewrite (proj2 (Z.leb_le 0 _)) by lia. by rewrite Nat2Z.id, E. Qed.

Section square_ok.
Context {A : Type} {num : A → Z} {valid : A → Prop} `{AccumulatorLaws A num valid}.

Lemma add_terms_ok (count i j : nat) l (s : A) :
  bigits_ok l → (j < length l)%nat → count = (S j `min` (length l - i))%nat → valid s →
  num s + conv (drop i l) l j < 2 ^ 128 →
  ∃ s', add_terms count (Z.of_nat i) (Z.of_nat j) l s = Ok s' ∧ valid s' ∧ num s' = num s + conv (drop i l) l j.
Proof.
  intros Hok. revert i j s. induction count as [|count IH]; intros i j s Hj Hc Hs Hlt.
  - exists s. rewrite drop_ge by lia. simpl. split_and!; [done|done|lia].
  - destruct (lookup_lt_is_Some_2 l i) as [x Hx]; [lia|]. destruct (lookup_lt_is_Some_2 l j Hj) as [y Hy].
    pose proof (Forall_lookup_1 _ _ _ _ Hok Hx) as Hxr. pose proof (Forall_lookup_1 _ _ _ _ Hok Hy) as Hyr. unfold in_u in Hxr, Hyr.
    rewrite (drop_S l x i Hx) in *. cbn [conv] in *. rewrite Hy in *. change (default 0 (Some y)) with y in *.
    cbn [add_terms]. rewrite (read_at_nat i l x Hx), (read_at_nat j l y Hy). ok_simpl.
    assert (Hxy : in_u 64 (x * y)) by (unfold in_u; nia). rewrite (u64_small (x * y)) by done.
    set (rest := match j with O => 0 | S k => conv (drop (S i) l) l k end) in *.
    assert (Hrest : 0 ≤ rest) by (unfold rest; destruct j; [done|apply conv_nonneg; [by apply Forall_drop|done]]).
    destruct (law_add s (x * y) Hs Hxy) as [Hs' Hn]; [lia|]. destruct j as [|j].
    + exists (sum_add s (x * y)). assert (count = 0%nat) as -> by (apply lookup_lt_Some in Hx; lia). unfold rest in *. split_and!; [done|done|lia].
    + replace (Z.of_nat i + 1) with (Z.of_nat (S i)) by lia. replace (Z.of_nat (S j) - 1) with (Z.of_nat j) by lia.
      destruct (IH (S i) j (sum_add s (x * y))) as (s' & -> & Hv & Hn'); [lia|lia|done|unfold rest in *; lia|].
      exists s'. split_and!; [done|done|]. unfold rest. lia.
Qed.

Lemma column_ok (k : nat) l (s : A) :
  bigits_ok l → (k < 2 * length l)%nat → valid s → num s + conv l l k < 2 ^ 128 →
  ∃ s', column (zlen l) (Z.of_nat k) l s = Ok s' ∧ valid s' ∧ num s' = num s + conv l l k.
Proof.
  intros Hok Hk Hs Hlt. unfold column. destruct (Z.ltb_spec (Z.of_nat k) (zlen l)) as [Hlo|Hhi]; unfold zlen in *.
  - replace (Z.to_nat (Z.of_nat k + 1)) with (S k) by lia. apply (add_terms_ok (S k) 0 k l s); try done; lia.
  - set (i := (k - (length l - 1))%nat).
    assert (Hskip : conv l l k = conv (drop i l) l (length l - 1)).
    { rewrite (conv_skip l l i k) by lia. f_equal. lia. }
    rewrite Hskip in *. replace (Z.of_nat k - (Z.of_nat (length l) - 1)) with (Z.of_nat i) by lia.
    replace (Z.of_nat (length l) - 1) with (Z.of_nat (length l - 1)) by lia.
    apply add_terms_ok; try done; lia.
Qed.

Lemma square_loop_ok (count k : nat) l (s : A) :
  bigits_ok l → zlen l ≤ 2 ^ 31 → (count + k = 2 * length l)%nat → valid s → num s ≤ zlen l * 2 ^ 33 →
  ∃ r c, square_loop count (zlen l) (Z.of_nat k) l s = Ok r ∧ bigits_ok r ∧ length r = count ∧ 0 ≤ c ∧
    eval r + 2 ^ (32 * Z.of_nat count) * c = num s + coeffs (conv l l) count k.
Proof.
  intros Hok Hl. revert k s. induction count as [|count IH]; intros k s Hk Hs Hb.
  - exists [], (num s). pose proof (law_range s Hs) as Hr. unfold in_u in Hr. simpl. split_and!; try done; lia.
  - cbn [square_loop]. pose proof (conv_nonneg l l k Hok Hok) as Hc. pose proof (law_range s Hs) as Hr. unfold in_u in Hr.
    destruct (column_ok k l s) as (s1 & -> & Hs1 & Hn1); [done|lia|done|nia|]. ok_simpl.
    destruct (law_shift s1 Hs1) as [Hs2 Hn2]. replace (Z.of_nat k + 1) with (Z.of_nat (S k)) by lia.
    assert (Hb' : num (sum_shift s1) ≤ zlen l * 2 ^ 33).
    { rewrite Hn2, Hn1. pose proof (zlen_nonneg l). apply Z.div_le_upper_bound; lia. }
    destruct (IH (S k) (sum_shift s1)) as (r & c & -> & Hr' & Hlen & Hc' & E); [lia|done|done|]. ok_simpl.
    exists (sum_bigit s1 :: r), c. rewrite (law_bigit s1 Hs1). split_and!; [done|by constructor; [apply u32_range|]|simpl; lia|done|].
    cbn [eval coeffs]. pose proof (split32 (num s1)) as Hsp. rewrite shiftr32 in Hsp.
    replace (32 * Z.of_nat (S count)) with (32 + 32 * Z.of_nat count) by lia. rewrite Z.pow_add_r by lia. rewrite <- Hn2 in Hsp. lia.
Qed.

(** The square, in either accumulator, when there is room for it. *)
Lemma square_ok n : wf n → 2 * zlen (bigits_ n) ≤ bigits_capacity →
  ∃ n', square (A := A) n = Ok n' ∧ wf n' ∧ value n' = value n * value n ∧ exp_ n' = 2 * exp_ n.
Proof.
  intros Hwf Hl. destruct (wf_ok n Hwf) as (Hok & He & Hne). unfold square, room. destruct law_zero as [Hz0 Hz].
  rewrite assert_true by (apply Z.leb_le; lia). ok_simpl. unfold bigits_capacity in Hl.
  replace (Z.to_nat (2 * zlen (bigits_ n))) with (2 * length (bigits_ n))%nat by (unfold zlen; lia).
  pose proof (square_loop_ok (2 * length (bigits_ n)) 0 (bigits_ n) sum_zero) as Hloop. change (Z.of_nat 0) with 0 in Hloop.
  destruct Hloop as (r & c & -> & Hr & Hlen & Hc & E); [done|lia|lia|done| |].
  { rewrite Hz. pose proof (zlen_nonneg (bigits_ n)). lia. }
  ok_simpl. rewrite Hz, coeffs_conv in E by lia. pose proof (eval_bounds _ Hok) as Hb. pose proof (eval_bounds _ Hr) as Hbr.
  assert (Hsq : eval r = eval (bigits_ n) * eval (bigits_ n)).
  { replace (32 * Z.of_nat (2 * length (bigits_ n))) with (32 * zlen (bigits_ n) + 32 * zlen (bigits_ n)) in E by (unfold zlen; lia).
    pose proof (zlen_nonneg (bigits_ n)). rewrite Z.pow_add_r in E by lia.
    set (p := 2 ^ (32 * zlen (bigits_ n))) in *. assert (Hlt : eval (bigits_ n) * eval (bigits_ n) < p * p) by nia.
    assert (c = 0) as -> by nia. lia. }
  destruct (remove_zeros_ok (mkBig r 0)) as [Hw Hv]; [done|done|destruct r, (bigits_ n); simpl in *; try done; lia|].
  set (m := remove_leading_zeros (mkBig r 0)) in *. eexists. split; [reflexivity|].
  assert (Hm : eval (bigits_ m) = eval r).
  { unfold value in Hv. change (exp_ m) with 0 in Hv. cbn [bigits_ exp_] in Hv. lia. }
  split_and!.
  - destruct Hw as [[Hok' _ Ht]|[Hb0 _]]; [left; split; [done|simpl; lia|done]|right; split; [done|simpl; lia]].
  - unfold value. cbn [bigits_ exp_]. rewrite Hm, Hsq. replace (32 * (exp_ n * 2)) with (32 * exp_ n + 32 * exp_ n) by lia.
    rewrite Z.pow_add_r by lia. lia.
  - simpl. lia.
Qed.
End square_ok.

(** *** Assignment and powers of ten *)
Lemma assign_ok v : in_u 64 v → wf (assign v) ∧ value (assign v) = v ∧ exp_ (assign v) = 0.
Proof.
  intros Hv. unfold assign. rewrite !land_mask, shiftr32. pose proof (high_range v Hv) as Hh. pose proof (u32_range v) as Hl.
  pose proof (split32 v) as Hs. rewrite shiftr32 in Hs. rewrite (wrapu_small 32 (v / 2 ^ 32)) by done. unfold in_u in *.
  destruct (Z.eqb_spec (v / 2 ^ 32) 0) as [E|E].
  - split_and!; [|unfold value; cbn [bigits_ exp_ eval]; lia|done]. destruct (decide (u32 v = 0)) as [Ez|Ez].
    + right. split; [simpl; by rewrite Ez|done].
    + left. split; [each done|done|]. apply topped_one. lia.
  - split_and!; [|unfold value; cbn [bigits_ exp_ eval]; lia|done]. left. split; [each done|done|].
    exists [u32 v], (v / 2 ^ 32). split; [done|lia].
Qed.

Lemma land_pow2 e b : 0 ≤ b → Z.land e (2 ^ b) = Z.b2z (Z.testbit e b) * 2 ^ b.
Proof.
  intros Hb. apply Z.bits_inj'. intros i Hi. rewrite Z.land_spec, Z.pow2_bits_eqb by lia.
  destruct (Z.eqb_spec b i) as [->|Hne].
  - destruct (Z.testbit e i); simpl; [by rewrite Z.mul_1_l, Z.pow2_bits_true|by rewrite Z.bits_0].
  - rewrite andb_false_r. destruct (Z.testbit e b); simpl; [by rewrite Z.mul_1_l, Z.pow2_bits_false by lia|by rewrite Z.bits_0].
Qed.

Section pow10.
Context {A : Type} {num : A → Z} {valid : A → Prop} `{AccumulatorLaws A num valid}.

Lemma top_bit_ok (fuel : nat) exp b : 0 < exp < 2 ^ 30 → 0 ≤ b ≤ Z.log2 exp + 1 → (Z.log2 exp + 2 - b ≤ Z.of_nat fuel) →
  top_bit fuel exp (2 ^ b) = Ok (2 ^ (Z.log2 exp + 1)).
Proof.
  intros Hexp. revert b. induction fuel as [|fuel IH]; intros b Hb Hf; [lia|]. cbn [top_bit].
  destruct (Z.log2_spec exp) as [Hlo Hhi]; [lia|]. pose proof (Z.log2_nonneg exp).
  assert (Hlog : Z.log2 exp < 30) by (apply Z.log2_lt_pow2; lia).
  destruct (Z.leb_spec (2 ^ b) exp) as [Hle|Hgt].
  - assert (b ≤ Z.log2 exp) by (apply Z.log2_le_pow2; lia).
    rewrite Z.shiftl_mul_pow2, <- Z.pow_add_r by lia. rewrite wraps_small; [apply IH; lia|lia|].
    assert (2 ^ (b + 1) ≤ 2 ^ 30) by (apply Z.pow_le_mono_r; lia). assert (0 < 2 ^ (b + 1)) by (apply Z.pow_pos_nonneg; lia).
    unfold in_s. lia.
  - assert (b = Z.log2 exp + 1) as ->; [|done]. destruct (Z.lt_ge_cases b (Z.log2 exp + 1)); [|lia].
    assert (2 ^ b ≤ 2 ^ Z.log2 exp) by (apply Z.pow_le_mono_r; lia). lia.
Qed.

(** Powers of five that a bigint has room for; a square needs twice the bigits of its root. *)
Lemma pow5_small k : 0 ≤ k ≤ 331 → 5 ^ k < 2 ^ 800.
Proof. intros Hk. apply Z.le_lt_trans with (5 ^ 331); [apply Z.pow_le_mono_r; lia|by vm_compute]. Qed.
Lemma pow5_root k : 0 ≤ k ≤ 165 → 5 ^ k < 2 ^ (32 * 16).
Proof. intros Hk. apply Z.le_lt_trans with (5 ^ 165); [apply Z.pow_le_mono_r; lia|by vm_compute]. Qed.

(** The zero bits that the exponent counts need no room. *)
Lemma pow_room x s k : 0 ≤ s → x < 2 ^ (32 * k - 31) → 1 ≤ k → x * 2 ^ s < 2 ^ (32 * (s / 32 + k)).
Proof.
  intros Hs Hx Hk. pose proof (Z_div_mod_eq_full s 32). pose proof (Z.mod_pos_bound s 32 ltac:(lia)). pose proof (Z.div_pos s 32 Hs ltac:(lia)).
  assert (0 < 2 ^ s) by (apply Z.pow_pos_nonneg; lia).
  apply Z.lt_le_trans with (2 ^ (32 * k - 31) * 2 ^ s); [nia|]. rewrite <- Z.pow_add_r by lia. apply Z.pow_le_mono_r; lia.
Qed.

(** The bits of the exponent that have been used make up the power so far. *)
Lemma pow5_loop_ok (fuel : nat) exp b n : 0 < exp ≤ 330 → -1 ≤ b < Z.of_nat fuel → b ≤ Z.log2 exp → canonical n → exp_ n = 0 →
  value n = 5 ^ (Z.shiftr exp (b + 1)) →
  ∃ n', pow5_loop (A := A) fuel exp (if b <? 0 then 0 else 2 ^ b) n = Ok n' ∧ canonical n' ∧ exp_ n' = 0 ∧ value n' = 5 ^ exp.
Proof.
  intros Hexp. revert b n. induction fuel as [|fuel IH]; intros b n Hb Hlog Hc He Hv.
  - replace b with (-1) in * by lia. exists n. rewrite Z.shiftr_0_r in Hv. auto.
  - destruct (Z.ltb_spec b 0) as [Hneg|Hpos].
    { replace b with (-1) in * by lia. exists n. rewrite Z.shiftr_0_r in Hv. auto. }
    cbn [pow5_loop]. rewrite (proj2 (Z.eqb_neq (2 ^ b) 0)) by (pose proof (Z.pow_pos_nonneg 2 b); lia).
    assert (Hb1 : 2 ≤ 2 ^ (b + 1)) by (rewrite Z.pow_add_r by lia; pose proof (Z.pow_pos_nonneg 2 b); lia).
    assert (Hsh : 0 ≤ Z.shiftr exp (b + 1) ≤ 165).
    { rewrite Z.shiftr_div_pow2 by lia. split; [apply Z.div_pos; lia|]. apply Z.div_le_upper_bound; [lia|]. nia. }
    assert (Hlen : 2 * zlen (bigits_ n) ≤ bigits_capacity).
    { pose proof (size_le n 16 (or_introl Hc)) as Hs. unfold bigits_capacity. rewrite He, Hv in Hs. pose proof (pow5_root _ Hsh). lia. }
    destruct (square_ok n (or_introl Hc) Hlen) as (n1 & -> & Hw1 & Hv1 & He1). ok_simpl.
    assert (Hbit : Z.shiftr exp b = 2 * Z.shiftr exp (b + 1) + Z.b2z (Z.testbit exp b)).
    { rewrite !Z.shiftr_div_pow2, Z.testbit_spec' by lia.
      rewrite Z.pow_add_r, <- Zdiv_Zdiv by (try lia; apply Z.pow_nonneg; lia). change (2 ^ 1) with 2.
      pose proof (Z_div_mod_eq_full (exp / 2 ^ b) 2). lia. }
    assert (Hland : (Z.land exp (2 ^ b) =? 0) = negb (Z.testbit exp b)).
    { rewrite land_pow2 by lia. pose proof (Z.pow_pos_nonneg 2 b). destruct (Z.testbit exp b); simpl; [|done]. apply Z.eqb_neq. lia. }
    rewrite Hland. assert (Hnext : Z.shiftr (2 ^ b) 1 = if b - 1 <? 0 then 0 else 2 ^ (b - 1)).
    { rewrite Z.shiftr_div_pow2 by lia. change (2 ^ 1) with 2. destruct (Z.ltb_spec (b - 1) 0) as [|H1].
      - by replace b with 0 by lia.
      - replace b with (Z.succ (b - 1)) at 1 by lia. by rewrite Z.pow_succ_r, Z.mul_comm, Z.div_mul by lia. }
    rewrite Hnext. assert (Hc1 : canonical n1).
    { destruct (wf_cases n1 Hw1) as [[? _]|[_ Hz]]; [done|]. pose proof (canonical_pos n Hc). nia. }
    assert (Hpow : 5 ^ Z.shiftr exp b = value n1 * 5 ^ Z.b2z (Z.testbit exp b)).
    { rewrite Hbit, Z.pow_add_r, Z.pow_twice_r, Hv1, Hv by (destruct (Z.testbit exp b); simpl; lia). done. }
    assert (Hroom : 5 ^ Z.shiftr exp b < 2 ^ 800).
    { apply pow5_small. rewrite Hbit. destruct (Z.testbit exp b); simpl; lia. }
    destruct (Z.testbit exp b); cbn [negb].
    + destruct (times_int_ok 5 n1 Hw1) as (n2 & -> & [Hw2 Hv2 _] & He2); [lia| |].
      { rewrite He1, He. change (Z.b2z true) with 1 in Hpow. rewrite Z.pow_1_r in Hpow. rewrite <- Hpow. etransitivity; [exact Hroom|done]. }
      ok_simpl. apply IH; try lia.
      * destruct (wf_cases n2 Hw2) as [[? _]|[_ Hz]]; [done|]. pose proof (canonical_pos n1 Hc1). lia.
      * replace (b - 1 + 1) with b by lia. by rewrite Hv2, Hpow.
    + ok_simpl. apply IH; try lia; [done|]. replace (b - 1 + 1) with b by lia. rewrite Hpow. simpl. lia.
Qed.

(** Powers of ten; the exponent is that of the factor two. *)
Lemma assign_pow10_ok exp : 0 ≤ exp ≤ 330 →
  ∃ n, assign_pow10 (A := A) exp = Ok n ∧ canonical n ∧ exp_ n = exp / 32 ∧ value n = 10 ^ exp.
Proof.
  intros Hexp. unfold assign_pow10. rewrite assert_true by (apply Z.leb_le; lia). ok_simpl.
  destruct (Z.eqb_spec exp 0) as [->|Hne].
  { destruct (assign_ok 1) as (Hw & Hv & He); [done|]. exists (assign 1). split_and!; try done.
    destruct (wf_cases _ Hw) as [[? _]|[_ Hz]]; [done|lia]. }
  pose proof (Z.log2_nonneg exp). assert (Hlog : Z.log2 exp < 30) by (apply Z.log2_lt_pow2; lia).
  pose proof (top_bit_ok 32 exp 0) as Htop. change (2 ^ 0) with 1 in Htop. rewrite Htop by lia. ok_simpl.
  assert (Hb : Z.shiftr (Z.shiftr (2 ^ (Z.log2 exp + 1)) 1) 1 = if Z.log2 exp - 1 <? 0 then 0 else 2 ^ (Z.log2 exp - 1)).
  { rewrite Z.shiftr_shiftr by lia. change (1 + 1) with 2. rewrite Z.shiftr_div_pow2 by lia.
    destruct (Z.ltb_spec (Z.log2 exp - 1) 0) as [Hz|Hz]; [by replace (Z.log2 exp) with 0 by lia|].
    replace (Z.log2 exp + 1) with (Z.log2 exp - 1 + 2) by lia. rewrite Z.pow_add_r by lia. by rewrite Z.div_mul. }
  rewrite Hb. destruct (assign_ok 5) as (Hw & Hv & He); [done|].
  destruct (pow5_loop_ok 32 exp (Z.log2 exp - 1) (assign 5)) as (n & -> & Hc & Hn & Hval); try lia.
  - destruct (wf_cases _ Hw) as [[? _]|[_ Hz]]; [done|lia].
  - rewrite Hv. replace (Z.log2 exp - 1 + 1) with (Z.log2 exp) by lia. rewrite Z.shiftr_div_pow2 by lia.
    destruct (Z.log2_spec exp) as [Hlo Hhi]; [lia|]. rewrite Z.pow_succ_r in Hhi by lia.
    assert (exp / 2 ^ Z.log2 exp = 1) as ->; [|done]. symmetry. apply (Z.div_unique_pos _ _ _ (exp - 2 ^ Z.log2 exp)); lia.
  - ok_simpl. destruct (shl_ok exp n (or_introl Hc)) as (n' & -> & [Hw' Hv' _] & He'); [lia| |].
    { rewrite Hn, Hval. apply pow_room; [lia| |done]. apply Z.lt_trans with (2 ^ 800); [apply pow5_small; lia|done]. }
    exists n'.
    split_and!; [done| |lia|].
    + destruct (wf_cases _ Hw') as [[? _]|[_ Hz]]; [done|]. pose proof (canonical_pos n Hc). pose proof (Z.pow_pos_nonneg 2 exp). nia.
    + rewrite Hv', Hval. change 10 with (5 * 2). by rewrite Z.pow_mul_l.
Qed.
End pow10.

(** *** Comparisons *)
Lemma compare_down_app a b x : length a = length b →
  compare_down (a ++ x) b = (if compare_down a b =? 0 then compare_down x [] else compare_down a b) ∧
  compare_down b (a ++ x) = (if compare_down b a =? 0 then compare_down [] x else compare_down b a).
Proof.
  revert b. induction a as [|u a IH]; intros [|v b] Hl; try done. simpl in *. destruct (IH b) as [IH1 IH2]; [lia|].
  split.
  - destruct (Z.eqb_spec u v); [done|]. by destruct (v <? u).
  - destruct (Z.eqb_spec v u); [done|]. by destruct (u <? v).
Qed.

Lemma sgn_pos_eq x : 0 < x → Z.sgn x = 1.
Proof. intros. by apply Z.sgn_pos_iff. Qed.
Lemma sgn_neg_eq x : x < 0 → Z.sgn x = -1.
Proof. intros. by apply Z.sgn_neg_iff. Qed.

Lemma compare_down_eval (la lb : list Z) : length la = length lb → bigits_ok la → bigits_ok lb →
  compare_down (reverse la) (reverse lb) = Z.sgn (eval la - eval lb).
Proof.
  revert lb. induction la as [|a la IH] using rev_ind; intros lb Hl Ha Hb; [by destruct lb|].
  destruct (exists_last (l := lb)) as (lb' & b & ->). { intros ->. rewrite length_app in Hl. simpl in Hl. lia. }
  rewrite !length_app in Hl. simpl in Hl. assert (Hl' : length la = length lb') by lia.
  apply Forall_app in Ha as [Ha [Hxa _]%Forall_cons]. apply Forall_app in Hb as [Hb [Hxb _]%Forall_cons].
  rewrite !reverse_app, !eval_app. change (reverse [a]) with [a]. change (reverse [b]) with [b]. cbn [app compare_down eval].
  assert (Hz : zlen lb' = zlen la) by (unfold zlen; lia). rewrite Hz.
  pose proof (eval_bounds _ Ha) as Ba. pose proof (eval_bounds _ Hb) as Bb. rewrite Hz in Bb.
  pose proof (pow32_pos _ (zlen_nonneg la)). set (p := 2 ^ (32 * zlen la)) in *.
  destruct (Z.eqb_spec a b) as [->|Hne]; [rewrite IH by done; f_equal; lia|].
  destruct (Z.ltb_spec b a); symmetry; [apply sgn_pos_eq|apply sgn_neg_eq]; nia.
Qed.

(** The lower bigits that only one of the numbers has count as more than nothing. *)
Lemma compare_aligned (lo la lb : list Z) e : length la = length lb → bigits_ok (lo ++ la) → bigits_ok lb → 0 ≤ e →
  let lhs := mkBig (lo ++ la) e in let rhs := mkBig lb (e + zlen lo) in
  compare_down (reverse (lo ++ la)) (reverse lb) = (if value lhs =? value rhs then Z.sgn (zlen lo) else Z.sgn (value lhs - value rhs)) ∧
  compare_down (reverse lb) (reverse (lo ++ la)) = (if value lhs =? value rhs then - Z.sgn (zlen lo) else Z.sgn (value rhs - value lhs)).
Proof.
  intros Hl [Hlo Ha]%Forall_app Hb He lhs rhs. rewrite reverse_app.
  destruct (compare_down_app (reverse la) (reverse lb) (reverse lo)) as [E1 E2]; [by rewrite !length_reverse|]. rewrite E1, E2.
  rewrite !compare_down_eval by done. unfold value, lhs, rhs. cbn [bigits_ exp_]. rewrite eval_app. pose proof (zlen_nonneg lo).
  replace (32 * (e + zlen lo)) with (32 * zlen lo + 32 * e) by lia. rewrite Z.pow_add_r by lia.
  pose proof (eval_bounds _ Hlo) as Blo. pose proof (pow32_pos _ He). set (p := 2 ^ (32 * zlen lo)) in *. set (q := 2 ^ (32 * e)) in *.
  assert (Hx : compare_down (reverse lo) [] = Z.sgn (zlen lo) ∧ compare_down [] (reverse lo) = - Z.sgn (zlen lo)).
  { destruct lo as [|x lo]; [done|]. rewrite reverse_cons, zlen_cons. pose proof (zlen_nonneg lo). rewrite sgn_pos_eq by lia.
    by destruct (reverse lo). }
  destruct Hx as [-> ->]. set (x := eval lo) in *. set (y := eval la) in *. set (z := eval lb) in *.
  assert (Hd : (x + p * y) * q - z * (p * q) = q * (x + p * (y - z))) by ring.
  destruct (Z.lt_trichotomy y z) as [Hlt|[<-|Hgt]].
  - rewrite (sgn_neg_eq (y - z)), (sgn_pos_eq (z - y)) by lia. change (-1 =? 0) with false. change (1 =? 0) with false. assert (Hlow : x + p * y < p * z) by nia.
    assert ((x + p * y) * q < z * (p * q)) by nia.
    rewrite (proj2 (Z.eqb_neq _ _)) by lia. rewrite sgn_neg_eq, sgn_pos_eq by lia. done.
  - rewrite Z.sub_diag. cbn [Z.sgn Z.eqb]. destruct (Z.eqb_spec ((x + p * y) * q) (y * (p * q))) as [E|E]; [done|].
    assert (0 < x) by nia. rewrite (sgn_pos_eq (_ - _)), (sgn_neg_eq (_ - _)) by nia.
    destruct lo as [|u lo']; [done|]. rewrite zlen_cons. pose proof (zlen_nonneg lo'). by rewrite sgn_pos_eq by lia.
  - rewrite (sgn_pos_eq (y - z)), (sgn_neg_eq (z - y)) by lia. change (-1 =? 0) with false. change (1 =? 0) with false. assert (Hlow : p * z < x + p * y) by nia.
    assert (z * (p * q) < (x + p * y) * q) by nia.
    rewrite (proj2 (Z.eqb_neq _ _)) by lia. rewrite sgn_pos_eq, sgn_neg_eq by lia. done.
Qed.

(** [compare] of numbers without leading zeros: the sign of the difference, and where the numbers
    are equal the one with fewer zero bigits in its exponent counts as the greater one. *)
Lemma compare_spec lhs rhs : canonical lhs → canonical rhs →
  compare lhs rhs = if value lhs =? value rhs then Z.sgn (exp_ rhs - exp_ lhs) else Z.sgn (value lhs - value rhs).
Proof.
  intros Hl Hr. unfold compare. pose proof (value_ge _ Hl) as Gl. pose proof (value_ge _ Hr) as Gr.
  pose proof (value_lt _ (or_introl Hl)) as Ll. pose proof (value_lt _ (or_introl Hr)) as Lr.
  pose proof (num_bigits_pos _ (or_introl Hl)) as Pl. pose proof (num_bigits_pos _ (or_introl Hr)) as Pr.
  destruct Hl as [Okl Hel _], Hr as [Okr Her _].
  assert (Hmono : ∀ i j, 0 ≤ i < j → 2 ^ (32 * i) ≤ 2 ^ (32 * (j - 1))) by (intros; apply Z.pow_le_mono_r; lia).
  destruct (Z.eqb_spec (num_bigits lhs) (num_bigits rhs)) as [En|Nn].
  - unfold num_bigits in En. destruct (Z.le_ge_cases (exp_ lhs) (exp_ rhs)) as [Hle|Hge].
    + set (k := Z.to_nat (exp_ rhs - exp_ lhs)). set (lo := take k (bigits_ lhs)). set (hi := drop k (bigits_ lhs)).
      assert (Elo : bigits_ lhs = lo ++ hi) by (unfold lo, hi; by rewrite take_drop).
      assert (Hk : zlen lo = exp_ rhs - exp_ lhs) by (unfold lo, k; rewrite zlen_take; pose proof (zlen_nonneg (bigits_ rhs)); lia).
      destruct (compare_aligned lo hi (bigits_ rhs) (exp_ lhs)) as [E _]; [|by rewrite <- Elo|done|done|].
      { pose proof (f_equal zlen Elo) as Ez. rewrite zlen_app in Ez. unfold zlen in *. lia. }
      rewrite <- Elo, Hk in E. replace (exp_ lhs + (exp_ rhs - exp_ lhs)) with (exp_ rhs) in E by lia. destruct lhs, rhs. exact E.
    + set (k := Z.to_nat (exp_ lhs - exp_ rhs)). set (lo := take k (bigits_ rhs)). set (hi := drop k (bigits_ rhs)).
      assert (Elo : bigits_ rhs = lo ++ hi) by (unfold lo, hi; by rewrite take_drop).
      assert (Hk : zlen lo = exp_ lhs - exp_ rhs) by (unfold lo, k; rewrite zlen_take; pose proof (zlen_nonneg (bigits_ lhs)); lia).
      destruct (compare_aligned lo hi (bigits_ lhs) (exp_ rhs)) as [_ E]; [|by rewrite <- Elo|done|done|].
      { pose proof (f_equal zlen Elo) as Ez. rewrite zlen_app in Ez. unfold zlen in *. lia. }
      rewrite <- Elo, Hk in E. replace (exp_ rhs + (exp_ lhs - exp_ rhs)) with (exp_ lhs) in E by lia. rewrite E. clear E Elo.
      destruct lhs as [l1 e1], rhs as [l2 e2]. cbn [bigits_ exp_]. set (x := value (mkBig l1 e1)). set (y := value (mkBig l2 e2)).
      rewrite (Z.eqb_sym y x). destruct (x =? y); [|reflexivity]. rewrite <- Z.sgn_opp. f_equal. lia.
  - destruct (Z.ltb_spec (num_bigits rhs) (num_bigits lhs)) as [Hlt|Hge].
    + pose proof (Hmono (num_bigits rhs) (num_bigits lhs) ltac:(lia)). rewrite (proj2 (Z.eqb_neq _ _)) by lia. by rewrite sgn_pos_eq by lia.
    + pose proof (Hmono (num_bigits lhs) (num_bigits rhs) ltac:(lia)). rewrite (proj2 (Z.eqb_neq _ _)) by lia. by rewrite sgn_neg_eq by lia.
Qed.

(** Zero is less when its exponent is not greater. *)
Lemma compare_zero lhs rhs : is_zero lhs → canonical rhs → exp_ lhs ≤ exp_ rhs → compare lhs rhs = -1.
Proof.
  intros [El He] Hc Hle. unfold compare. pose proof (num_bigits_pos rhs (or_introl Hc)) as Hn.
  assert (Hz : num_bigits lhs = 1 + exp_ lhs) by (unfold num_bigits; rewrite El; done). rewrite Hz.
  destruct (Z.eqb_spec (1 + exp_ lhs) (num_bigits rhs)) as [E|E]; [|by rewrite (proj2 (Z.ltb_ge _ _)) by lia].
  rewrite El. destruct Hc as [_ _ (l & t & Er & Ht)]. rewrite Er, reverse_app. change (reverse [t]) with [t]. cbn [app].
  change (reverse [0]) with [0]. cbn [compare_down]. rewrite (proj2 (Z.eqb_neq 0 t)) by lia. by rewrite (proj2 (Z.ltb_ge _ _)) by lia.
Qed.

(** The [count] bigits of a number from position [m] on. *)
Fixpoint low n (m : Z) (count : nat) : Z :=
  match count with
  | O => 0
  | S count => low n m count + get_bigit n (m + Z.of_nat count) * 2 ^ (32 * Z.of_nat count)
  end.

Lemma get_bigit_range n i : bigits_ok (bigits_ n) → in_u 32 (get_bigit n i).
Proof.
  intros Hok. unfold get_bigit. case_match; [|done]. destruct (bigits_ n !! _) as [d|] eqn:E; [|done].
  simpl. by eapply Forall_lookup_1 in Hok.
Qed.

Lemma low_range n m count : bigits_ok (bigits_ n) → 0 ≤ low n m count < 2 ^ (32 * Z.of_nat count).
Proof.
  intros Hok. induction count as [|count IH]; [done|]. cbn [low]. pose proof (get_bigit_range n (m + Z.of_nat count) Hok) as Hg.
  unfold in_u in Hg. pose proof (pow32_pos (Z.of_nat count)). replace (32 * Z.of_nat (S count)) with (32 + 32 * Z.of_nat count) by lia.
  rewrite Z.pow_add_r by lia. nia.
Qed.

Lemma low_take n m count : m ≤ exp_ n →
  low n m count = 2 ^ (32 * (exp_ n - m)) * eval (take (count - Z.to_nat (exp_ n - m)) (bigits_ n)).
Proof.
  intros Hm. induction count as [|count IH]; [simpl; lia|]. cbn [low]. rewrite IH. unfold get_bigit, num_bigits.
  set (k := Z.to_nat (exp_ n - m)). destruct (decide (count < k)%nat) as [Hlt|Hge].
  - rewrite (proj2 (Z.leb_gt _ _)) by lia. cbn [andb]. replace (S count - k)%nat with 0%nat by lia. replace (count - k)%nat with 0%nat by lia. simpl. lia.
  - rewrite (proj2 (Z.leb_le (exp_ n) _)) by lia. cbn [andb]. replace (Z.to_nat _) with (count - k)%nat by lia.
    replace (S count - k)%nat with (S (count - k)) by lia. destruct (bigits_ n !! (count - k)%nat) as [d|] eqn:E.
    + pose proof (lookup_lt_Some _ _ _ E) as Hlt. rewrite (proj2 (Z.ltb_lt _ _)) by (unfold zlen; lia).
      rewrite (take_S_r _ _ d) by done. rewrite eval_app, zlen_take. change (default 0 (Some d)) with d. cbn [eval].
      rewrite Z.min_l by (unfold zlen; lia). replace (32 * Z.of_nat count) with (32 * (exp_ n - m) + 32 * Z.of_nat (count - k)) by lia.
      rewrite Z.pow_add_r by lia. lia.
    + apply lookup_ge_None in E. rewrite (proj2 (Z.ltb_ge _ _)) by (unfold zlen; lia). rewrite !take_ge by lia. lia.
Qed.

Lemma low_value n m k : bigits_ok (bigits_ n) → 0 ≤ m ≤ exp_ n → num_bigits n ≤ k → value n = low n m (Z.to_nat (k - m)) * 2 ^ (32 * m).
Proof.
  intros Hok Hm Hk. rewrite low_take by lia. rewrite take_ge by (unfold num_bigits, zlen in Hk; lia). unfold value.
  replace (32 * exp_ n) with (32 * (exp_ n - m) + 32 * m) by lia. rewrite Z.pow_add_r by lia. lia.
Qed.

(** The loop holds 0 or 1 times 2^32 as borrow. *)
Lemma add_compare_loop_ok (count : nat) m beta lhs1 lhs2 rhs :
  bigits_ok (bigits_ lhs1) → bigits_ok (bigits_ lhs2) → bigits_ok (bigits_ rhs) → 0 ≤ beta ≤ 1 →
  add_compare_loop count (m + Z.of_nat count - 1) (beta * 2 ^ 32) lhs1 lhs2 rhs =
  Z.sgn (low lhs1 m count + low lhs2 m count - low rhs m count - beta * 2 ^ (32 * Z.of_nat count)).
Proof.
  intros H1 H2 Hr. revert beta. induction count as [|count IH]; intros beta Hb.
  - simpl. assert (beta = 0 ∨ beta = 1) as [-> | ->] by lia; done.
  - cbn [add_compare_loop low]. replace (m + Z.of_nat (S count) - 1) with (m + Z.of_nat count) by lia.
    pose proof (get_bigit_range lhs1 (m + Z.of_nat count) H1) as G1. pose proof (get_bigit_range lhs2 (m + Z.of_nat count) H2) as G2.
    pose proof (get_bigit_range rhs (m + Z.of_nat count) Hr) as G3. unfold in_u in G1, G2, G3.
    pose proof (low_range lhs1 m count H1). pose proof (low_range lhs2 m count H2). pose proof (low_range rhs m count Hr).
    pose proof (pow32_pos (Z.of_nat count)). replace (32 * Z.of_nat (S count)) with (32 + 32 * Z.of_nat count) by lia.
    rewrite (Z.pow_add_r 2 32) by lia. set (p := 2 ^ (32 * Z.of_nat count)) in *.
    set (g1 := get_bigit lhs1 _) in *. set (g2 := get_bigit lhs2 _) in *. set (g3 := get_bigit rhs _) in *.
    rewrite (u64_small (g1 + g2)), (u64_small (g3 + _)) by lia.
    destruct (Z.ltb_spec (g3 + beta * 2 ^ 32) (g1 + g2)) as [Hgt|Hle].
    + symmetry. apply sgn_pos_eq. assert (p ≤ (g1 + g2 - g3 - beta * 2 ^ 32) * p) by nia. lia.
    + rewrite u64_small by lia. set (nb := g3 + beta * 2 ^ 32 - (g1 + g2)) in *.
      assert (Hn : low lhs1 m count + g1 * p + (low lhs2 m count + g2 * p) - (low rhs m count + g3 * p) - beta * (2 ^ 32 * p) =
        low lhs1 m count + low lhs2 m count - low rhs m count - nb * p) by (unfold nb; ring). rewrite Hn.
      destruct (Z.ltb_spec 1 nb) as [Hbig|Hsmall].
      * symmetry. apply sgn_neg_eq. assert (2 * p ≤ nb * p) by nia. lia.
      * rewrite Z.shiftl_mul_pow2 by done. change (2 ^ bigit_bits) with (2 ^ 32). rewrite u64_small by lia.
        apply IH. unfold nb. lia.
Qed.

(** What [add_compare] is given: zeros do not stand higher than [rhs]. *)
Definition below n rhs : Prop := wf n ∧ (is_zero n → exp_ n ≤ exp_ rhs).

Lemma below_le n rhs : below n rhs → canonical rhs → num_bigits rhs < num_bigits n → value rhs < value n.
Proof.
  intros [[Hc|Hz] Hb] Hr Hlt.
  - pose proof (value_ge n Hc). pose proof (value_lt rhs (or_introl Hr)). pose proof (num_bigits_pos rhs (or_introl Hr)).
    assert (2 ^ (32 * num_bigits rhs) ≤ 2 ^ (32 * (num_bigits n - 1))) by (apply Z.pow_le_mono_r; lia). lia.
  - specialize (Hb Hz). pose proof (num_bigits_pos rhs (or_introl Hr)). destruct Hz as [E _]. unfold num_bigits in *.
    rewrite E in Hlt. change (zlen [0]) with 1 in Hlt. lia.
Qed.

Lemma add_compare_spec lhs1 lhs2 rhs : below lhs1 rhs → below lhs2 rhs → canonical rhs →
  add_compare lhs1 lhs2 rhs = Z.sgn (value lhs1 + value lhs2 - value rhs).
Proof.
  intros B1 B2 Hr. pose proof B1 as [W1 _]. pose proof B2 as [W2 _]. unfold add_compare.
  pose proof (value_lt _ W1) as L1. pose proof (value_lt _ W2) as L2. pose proof (value_ge _ Hr) as Gr.
  pose proof (num_bigits_pos _ W1). pose proof (num_bigits_pos _ W2). pose proof (num_bigits_pos _ (or_introl Hr)).
  destruct (wf_ok _ W1) as (Ok1 & E1 & _). destruct (wf_ok _ W2) as (Ok2 & E2 & _). pose proof Hr as [Okr Er _].
  destruct (Z.ltb_spec (Z.max (num_bigits lhs1) (num_bigits lhs2) + 1) (num_bigits rhs)) as [Hs|Hs].
  { symmetry. apply sgn_neg_eq. set (x := Z.max _ _) in *.
    assert (2 ^ (32 * num_bigits lhs1) ≤ 2 ^ (32 * x)) by (apply Z.pow_le_mono_r; lia).
    assert (2 ^ (32 * num_bigits lhs2) ≤ 2 ^ (32 * x)) by (apply Z.pow_le_mono_r; lia).
    assert (2 ^ (32 * x) * 2 ^ 1 ≤ 2 ^ (32 * (num_bigits rhs - 1))) by (rewrite <- Z.pow_add_r by lia; apply Z.pow_le_mono_r; lia). lia. }
  destruct (Z.ltb_spec (num_bigits rhs) (Z.max (num_bigits lhs1) (num_bigits lhs2))) as [Hb|Hb].
  { symmetry. apply sgn_pos_eq. destruct (Z.max_spec (num_bigits lhs1) (num_bigits lhs2)) as [[_ E]|[_ E]]; rewrite E in Hb.
    - pose proof (below_le _ _ B2 Hr Hb). lia.
    - pose proof (below_le _ _ B1 Hr Hb). lia. }
  set (m := Z.min _ _). set (c := Z.to_nat (num_bigits rhs - m)). assert (Hm : 0 ≤ m) by lia.
  replace (num_bigits rhs - 1) with (m + Z.of_nat c - 1) by lia. change 0 with (0 * 2 ^ 32).
  rewrite add_compare_loop_ok by (done || lia). rewrite (low_value lhs1 m (num_bigits rhs)), (low_value lhs2 m (num_bigits rhs)),
    (low_value rhs m (num_bigits rhs)) by (done || lia). fold c. pose proof (pow32_pos m Hm) as Hp.
  rewrite Z.mul_0_l, Z.sub_0_r. set (d := low lhs1 m c + low lhs2 m c - low rhs m c).
  replace (_ + _ - _) with (d * 2 ^ (32 * m)) by (unfold d; ring). rewrite Z.sgn_mul, (sgn_pos_eq (2 ^ _)) by done. lia.
Qed.

(** *** Subtraction and division *)
Lemma subtract_bigits_ok x y b : in_u 32 x → in_u 32 y → 0 ≤ b ≤ 1 →
  ∃ x' b', subtract_bigits x y b = (x', b') ∧ in_u 32 x' ∧ 0 ≤ b' ≤ 1 ∧ x' = x - y - b + 2 ^ 32 * b' ∧ (y + b ≤ x → b' = 0).
Proof.
  unfold in_u. intros Hx Hy Hb. unfold subtract_bigits. change (bigit_bits * 2 - 1) with 63. destruct (Z.le_gt_cases (y + b) x) as [Hle|Hgt].
  - rewrite u64_small by lia. rewrite wrapu_small by (unfold in_u; lia). exists (x - y - b), 0.
    rewrite Z.shiftr_div_pow2, Z.div_small by lia. split_and!; try done; lia.
  - assert (Hw : u64 (x - y - b) = x - y - b + 2 ^ 64).
    { replace (x - y - b) with (x - y - b + 2 ^ 64 + (-1) * 2 ^ 64) at 1 by lia. unfold wrapu. rewrite Z_mod_plus_full. apply Z.mod_small. lia. }
    rewrite Hw. exists (x - y - b + 2 ^ 32), 1.
    assert (Hs : Z.shiftr (x - y - b + 2 ^ 64) 63 = 1).
    { rewrite Z.shiftr_div_pow2 by lia. symmetry. apply (Z.div_unique_pos _ _ _ (x - y - b + 2 ^ 63)); lia. }
    assert (Hl : u32 (x - y - b + 2 ^ 64) = x - y - b + 2 ^ 32).
    { replace (x - y - b + 2 ^ 64) with (x - y - b + 2 ^ 32 + (2 ^ 32 - 1) * 2 ^ 32) by lia. unfold wrapu. rewrite Z_mod_plus_full. apply Z.mod_small. lia. }
    rewrite Hs, Hl. split_and!; try done; lia.
Qed.

(** Right when at most one bigit is above those of [o]. *)
Lemma subtract_loop_ok l (o : list Z) b : bigits_ok l → bigits_ok o → 0 ≤ b ≤ 1 →
  (length o ≤ length l ≤ length o + 1)%nat → eval o + b ≤ eval l →
  ∃ r, subtract_loop l o b = Ok r ∧ bigits_ok r ∧ length r = length l ∧ eval r = eval l - eval o - b.
Proof.
  intros Hl Ho. revert b l Hl. induction Ho as [|y o Hy Ho IH]; intros b l Hl Hb Hlen Hle.
  - destruct (Z.eq_dec b 0) as [->|Hne].
    { exists l. destruct l; simpl; (split_and!; [done|done|done|lia]). }
    assert (b = 1) as -> by lia. destruct l as [|x [|? l]]; simpl in Hlen; [simpl in Hle; lia| |lia].
    inversion_clear Hl as [|?? Hx _]. destruct (subtract_bigits_ok x 0 1) as (x' & b' & E & Hx' & Hb' & Ev & Hz); [done|done|lia|].
    simpl in Hle. rewrite Hz in * by lia. exists [x']. cbn [subtract_loop borrow_loop]. cbn [Z.eqb]. rewrite E.
    split_and!; [done|each done|done|simpl; lia].
  - destruct l as [|x l]; [simpl in Hlen; lia|]. inversion_clear Hl as [|?? Hx Hl'].
    destruct (subtract_bigits_ok x y b) as (x' & b' & E & Hx' & Hb' & Ev & _); [done..|]. cbn [subtract_loop]. rewrite E.
    simpl in Hlen. cbn [eval] in Hle. unfold in_u in Hx'.
    destruct (IH b' l Hl') as (r & -> & Hr & Hlr & Er); [lia|lia|nia|]. ok_simpl. exists (x' :: r).
    split_and!; [done|by constructor|simpl; lia|]. cbn [eval]. lia.
Qed.

Lemma compare_ge n divisor : below n divisor → exp_ n ≤ exp_ divisor → canonical divisor → (0 <=? compare n divisor) = (value divisor <=? value n).
Proof.
  intros [Hw _] He Hd. pose proof (canonical_pos divisor Hd). destruct (wf_cases n Hw) as [[Hc _]|[Hz Ev]].
  - rewrite (compare_spec n divisor Hc Hd). destruct (Z.eqb_spec (value n) (value divisor)) as [E|E].
    + rewrite (proj2 (Z.leb_le _ _)) by (apply Z.sgn_nonneg; lia). symmetry. apply Z.leb_le. lia.
    + destruct (Z.leb_spec (value divisor) (value n)); [by rewrite sgn_pos_eq by lia|by rewrite sgn_neg_eq by lia].
  - rewrite compare_zero by done. symmetry. apply Z.leb_gt. lia.
Qed.

Lemma num_bigits_mono n n' : canonical n' → wf n → value n' ≤ value n → num_bigits n' ≤ num_bigits n.
Proof.
  intros Hc Hw Hle. pose proof (value_ge n' Hc) as Hge. pose proof (value_lt n Hw) as Hlt. pose proof (num_bigits_pos n' (or_introl Hc)).
  destruct Hc as [_ He _]. pose proof (num_bigits_pos n Hw). destruct (wf_ok n Hw) as (_ & Hen & _).
  destruct (Z.le_gt_cases (num_bigits n') (num_bigits n)) as [|Hgt]; [done|].
  assert (2 ^ (32 * num_bigits n) ≤ 2 ^ (32 * (num_bigits n' - 1))) by (apply Z.pow_le_mono_r; lia). lia.
Qed.

Lemma subtract_ok n other : wf n → canonical other → exp_ n ≤ exp_ other → num_bigits n ≤ num_bigits other + 1 → value other ≤ value n →
  ∃ n', subtract_aligned n other = Ok n' ∧ wf n' ∧ exp_ n' = exp_ n ∧ value n' = value n - value other.
Proof.
  intros Hw Hc He Hnum Hle. pose proof (canonical_pos other Hc) as Hpos.
  assert (Hcn : canonical n) by (destruct (wf_cases n Hw) as [[? _]|[_ Hz]]; [done|lia]).
  pose proof (num_bigits_mono n other Hc Hw Hle) as Hmono. unfold subtract_aligned.
  rewrite (assert_true (exp_ n <=? exp_ other)) by (apply Z.leb_le; lia). ok_simpl.
  rewrite compare_ge by (done || (split; [done|lia])). rewrite assert_true by (apply Z.leb_le; lia). ok_simpl.
  pose proof Hcn as [Ok1 En _]. pose proof Hc as [Ok2 Eo _]. set (i := Z.to_nat (exp_ other - exp_ n)).
  unfold num_bigits, zlen in Hnum, Hmono.
  assert (Hi : (i ≤ length (bigits_ n))%nat). { pose proof (num_bigits_pos other (or_introl Hc)) as Hp. unfold num_bigits, zlen in Hp. lia. }
  assert (Heq : eval (bigits_ n) = eval (take i (bigits_ n)) + 2 ^ (32 * Z.of_nat i) * eval (drop i (bigits_ n))).
  { rewrite <- (take_drop i (bigits_ n)) at 1. rewrite eval_app, zlen_take. unfold zlen. by rewrite Z.min_l by lia. }
  assert (Hlo : 0 ≤ eval (take i (bigits_ n)) < 2 ^ (32 * Z.of_nat i)).
  { pose proof (eval_bounds _ (Forall_take _ i _ Ok1)) as Hb. rewrite zlen_take in Hb. unfold zlen in Hb. by rewrite Z.min_l in Hb by lia. }
  assert (Hvo : value other = eval (bigits_ other) * 2 ^ (32 * Z.of_nat i) * 2 ^ (32 * exp_ n)).
  { unfold value. replace (32 * exp_ other) with (32 * Z.of_nat i + 32 * exp_ n) by lia. rewrite Z.pow_add_r by lia. lia. }
  pose proof (pow32_pos (exp_ n) En) as Hpn. pose proof (pow32_pos (Z.of_nat i)) as Hpi.
  set (p := 2 ^ (32 * Z.of_nat i)) in *. set (q := 2 ^ (32 * exp_ n)) in *.
  assert (Hev : eval (bigits_ other) ≤ eval (drop i (bigits_ n))).
  { rewrite Hvo in Hle. unfold value in Hle. fold q in Hle. rewrite Heq in Hle.
    apply Z.mul_le_mono_pos_r in Hle; [|done]. nia. }
  destruct (subtract_loop_ok (drop i (bigits_ n)) (bigits_ other) 0) as (r & -> & Hr & Hlr & Er); [by apply Forall_drop|done|lia|rewrite length_drop; lia|lia|].
  ok_simpl. eexists. split; [reflexivity|]. destruct (remove_zeros_ok (mkBig (take i (bigits_ n) ++ r) (exp_ n))) as [Hw' Hv'].
  - apply Forall_app. split; [by apply Forall_take|done].
  - done.
  - simpl. intros E. apply (f_equal length) in E. rewrite length_app, length_take, Hlr, length_drop in E. simpl in E.
    destruct (wf_ok n Hw) as (_ & _ & Hne). destruct (bigits_ n); [done|]. simpl in *. lia.
  - split_and!; [done|done|]. rewrite Hv', Hvo. unfold value at 1 2. cbn [bigits_ exp_]. fold q.
    rewrite eval_app, zlen_take. replace (Z.min _ _) with (Z.of_nat i) by (unfold zlen; lia). fold p. rewrite Er, Heq. ring.
Qed.

Lemma divmod_loop_ok (fuel : nat) quotient n divisor : wf n → canonical divisor → exp_ n ≤ exp_ divisor →
  num_bigits n ≤ num_bigits divisor + 1 → value divisor ≤ value n → value n / value divisor ≤ Z.of_nat fuel →
  ∃ n', divmod_loop fuel quotient n divisor = Ok (quotient + value n / value divisor, n') ∧
    value n' = value n mod value divisor ∧ wf n' ∧ exp_ n' = exp_ n.
Proof.
  intros Hw Hc. pose proof (canonical_pos divisor Hc) as Hpos. revert quotient n Hw. induction fuel as [|fuel IH];
    intros quotient n Hw He Hnum Hle Hf.
  { assert (1 ≤ value n / value divisor) by (apply Z.div_le_lower_bound; lia). lia. }
  cbn [divmod_loop]. destruct (subtract_ok n divisor Hw Hc He Hnum Hle) as (n1 & -> & Hw1 & He1 & Hv1). ok_simpl.
  rewrite compare_ge by first [done|lia|(split; [done|lia])].
  assert (Hdiv : value n / value divisor = 1 + value n1 / value divisor ∧ value n mod value divisor = value n1 mod value divisor).
  { replace (value n) with (value n1 + 1 * value divisor) by lia. rewrite Z.div_add, Z_mod_plus_full by lia. lia. }
  destruct Hdiv as [Hq Hm]. destruct (Z.leb_spec (value divisor) (value n1)) as [Hge|Hlt].
  - destruct (IH (quotient + 1) n1 Hw1) as (n' & -> & Hv' & Hw' & He'); [lia| |done|lia|].
    { assert (Hc1 : canonical n1) by (destruct (wf_cases n1 Hw1) as [[? _]|[_ Hz]]; [done|lia]).
      pose proof (num_bigits_mono n n1 Hc1 Hw). lia. }
    exists n'. split_and!; [do 2 f_equal; lia|lia|done|lia].
  - pose proof (value_lt n1 Hw1). exists n1. rewrite Hm, Hq, Z.div_small, Z.mod_small by lia. split_and!; try done.
Qed.

Lemma align_ok n other : wf n → 0 < value n → 0 ≤ exp_ other → num_bigits n ≤ Z.min (exp_ n) (exp_ other) + bigits_capacity →
  ∃ n', align n other = Ok n' ∧ canonical n' ∧ value n' = value n ∧ exp_ n' = Z.min (exp_ n) (exp_ other) ∧ num_bigits n' = num_bigits n.
Proof.
  intros Hw Hpos Ho Hsize. assert (Hc : canonical n) by (destruct (wf_cases n Hw) as [[? _]|[_ Hz]]; [done|lia]). unfold align.
  destruct (Z.leb_spec (exp_ n - exp_ other) 0) as [Hle|Hgt]; [exists n; split_and!; try done; lia|]. pose proof Hc as [Hok He (l & t & E & Ht)].
  set (k := Z.to_nat (exp_ n - exp_ other)). unfold num_bigits in Hsize.
  rewrite kept_ok by (simpl; rewrite zlen_app, zlen_replicate; lia). eexists. split; [reflexivity|].
  split_and!; [|unfold value|simpl; lia|unfold num_bigits]; cbn [bigits_ exp_].
  - split; [apply Forall_app; split; [by apply Forall_replicate|done]|simpl; lia|]. simpl. rewrite E, app_assoc. by eexists _, t.
  - rewrite eval_zeros. replace (32 * exp_ n) with (32 * Z.of_nat k + 32 * (exp_ n - (exp_ n - exp_ other))) by lia.
    rewrite (Z.pow_add_r 2 (32 * Z.of_nat k)) by lia. lia.
  - rewrite zlen_app, zlen_replicate. lia.
Qed.

(** Quotient and remainder, for a quotient that leaves no more than one bigit above the divisor;
    numbers that are equal must not differ in their exponents in the way that [compare] minds. *)
Lemma divmod_ok (fuel : nat) n divisor : below n divisor → canonical divisor → num_bigits n ≤ num_bigits divisor + 1 →
  (value n = value divisor → exp_ n ≤ exp_ divisor) → value n / value divisor ≤ Z.of_nat fuel →
  num_bigits divisor + 1 ≤ Z.min (exp_ n) (exp_ divisor) + bigits_capacity →
  ∃ n', divmod_assign fuel n divisor = Ok (value n / value divisor, n') ∧ value n' = value n mod value divisor ∧
    below n' divisor ∧ Z.min (exp_ n) (exp_ divisor) ≤ exp_ n' ≤ exp_ n ∧ (0 < value n / value divisor → exp_ n' ≤ exp_ divisor).
Proof.
  intros [Hw Hb] Hc Hnum Heq Hf Hsize. pose proof (canonical_pos divisor Hc) as Hpos. pose proof (value_lt n Hw) as Hn. unfold divmod_assign.
  assert (Hcmp : (compare n divisor <? 0) = (value n <? value divisor)).
  { destruct (wf_cases n Hw) as [[Hcn _]|[Hz Ev]].
    - rewrite (compare_spec n divisor Hcn Hc). destruct (Z.eqb_spec (value n) (value divisor)) as [E|E].
      + rewrite (proj2 (Z.ltb_ge _ _)) by (apply Z.sgn_nonneg; lia). symmetry. apply Z.ltb_ge. lia.
      + destruct (Z.ltb_spec (value n) (value divisor)); [by rewrite sgn_neg_eq by lia|by rewrite sgn_pos_eq by lia].
    - rewrite compare_zero by auto. symmetry. apply Z.ltb_lt. lia. }
  rewrite Hcmp. destruct (Z.ltb_spec (value n) (value divisor)) as [Hlt|Hge].
  { exists n. rewrite Z.div_small, Z.mod_small by lia. split_and!; try done; lia. }
  pose proof Hc as [_ Hed (l & t & E & Ht)]. rewrite E, zlen_app. change (zlen [t]) with 1.
  rewrite read_at_app by lia. ok_simpl. rewrite assert_true by (rewrite (proj2 (Z.eqb_neq t 0)) by lia; done). ok_simpl.
  destruct (align_ok n divisor Hw) as (n0 & -> & Ha & Hva & Hea & Hna); [lia|done|lia|]. ok_simpl.
  destruct (divmod_loop_ok fuel 0 n0 divisor) as (n' & -> & Hv' & Hw' & He'); [by left|done|lia|lia|lia|by rewrite Hva|].
  rewrite Hva in *. exists n'. split_and!; [done|done|split; [done|lia]|lia|lia|lia].
Qed.

(** ** Both accumulators give the same square *)
Lemma eval_inj (l l' : list Z) : length l = length l' → bigits_ok l → bigits_ok l' → eval l = eval l' → l = l'.
Proof.
  revert l'. induction l as [|d l IH]; intros [|d' l'] Hl Hok Hok' E; try done.
  inversion_clear Hok as [|?? Hd Hok1]. inversion_clear Hok' as [|?? Hd' Hok1']. cbn [eval] in E. unfold in_u in *.
  assert (eval l = eval l') by lia. f_equal; [lia|]. apply IH; simpl in *; auto.
Qed.

(** Without leading zeros the value and the exponent determine the bigits. *)
Lemma wf_unique n n' : wf n → wf n' → exp_ n = exp_ n' → value n = value n' → n = n'.
Proof.
  intros Hw Hw' He Hv. destruct (wf_cases n Hw) as [[Hc Hp]|[Hz Hp]], (wf_cases n' Hw') as [[Hc' Hp']|[Hz' Hp']]; try lia.
  - assert (Hn : num_bigits n = num_bigits n').
    { pose proof (num_bigits_mono n n' Hc' Hw). pose proof (num_bigits_mono n' n Hc Hw'). lia. }
    destruct n as [l e], n' as [l' e']. unfold num_bigits, value in *. simpl in *. subst e'. f_equal.
    destruct Hc as [Hok Hpos _], Hc' as [Hok' _ _]. simpl in *. pose proof (pow32_pos e Hpos).
    apply eval_inj; [unfold zlen in Hn; lia|done|done|nia].
  - destruct n, n'. destruct Hz as [? _], Hz' as [? _]. simpl in *. congruence.
Qed.

(** The compiler's 128-bit integers and the accumulator of two 64-bit words give the same square,
    for every number without leading zeros. *)
Theorem square_same_sums n : wf n → square (A := Z) n = square (A := accumulator) n.
Proof.
  intros Hw. destruct (Z.le_gt_cases (2 * zlen (bigits_ n)) bigits_capacity) as [Hl|Hl].
  2: { unfold square, room. by rewrite (proj2 (Z.leb_gt _ _) Hl). }
  destruct (square_ok (A := Z) n Hw Hl) as (n1 & -> & Hw1 & Hv1 & He1).
  destruct (square_ok (A := accumulator) n Hw Hl) as (n2 & -> & Hw2 & Hv2 & He2). f_equal. apply wf_unique; try done; lia.
Qed.

(** ** Two ways in which it goes wrong *)

(** The loop for what is left of the borrow does not move its index: with two bigits above those of
    the other number, 2^64 - 1 comes out wrong. *)
Lemma subtract_borrows_twice : ∃ n', subtract_aligned (mkBig [0; 0; 1] 0) (assign 1) = Ok n' ∧
  value n' ≠ value (mkBig [0; 0; 1] 0) - value (assign 1).
Proof. eexists. split; [reflexivity|]. by vm_compute. Qed.

(** Equal numbers with different exponents are told apart, and the quotient of a number by
    itself can be 0. *)
Lemma equal_not_equal : let n := mkBig [1] 1 in let divisor := mkBig [0; 1] 0 in
  value n = value divisor ∧ compare n divisor = -1 ∧ compare divisor n = 1 ∧ divmod_assign 2 n divisor = Ok (0, n).
Proof. by vm_compute. Qed.
