(* ===== verification/FloatFallback.v ===== *)
(** * FloatFallback: fallback_format of src/thirdParty/spdlog/fmt/bundled/format-inl.h

    A floating-point number as a significand and an exponent, and the printing of it with a given
    number of digits by exact arithmetic on the big integers of Bigint.v, which is what fmt falls
    back on when the fast way is not sure.  The number is taken from its bits.  The branch for a
    negative number of digits, the shortest representation, is left out: fmt uses another
    algorithm for it and never gets there. *)
From S2P Require Import Prelude Bigint.

(** ** class fp *)
Record fp := mkFp { f : Z; e : Z }.

Definition double_significand_size : Z := 52.
Definition implicit_bit : Z := Z.shiftl 1 double_significand_size.
Definition significand_size : Z := 64.

(** The bits [u] of a float or of a double; the result tells whether the predecessor is closer. *)
Definition assign_float (binary32 : bool) (u : Z) : fp * bool :=
  let float_significand_size := if binary32 then 23 else 52 in
  let exponent_size := (if binary32 then 32 else 64) - float_significand_size - 1 in
  let max_exponent := if binary32 then 128 else 1024 in
  let float_implicit_bit := Z.shiftl 1 float_significand_size in
  let significand_mask := float_implicit_bit - 1 in
  let exponent_mask := Z.land (2 ^ 63 - 1) (Z.lxor (2 ^ 64 - 1) significand_mask) in
  let exponent_bias := Z.shiftl 1 exponent_size - max_exponent - 1 in
  let f := Z.land u significand_mask in
  let biased_e := Z.shiftr (Z.land u exponent_mask) float_significand_size in
  let is_predecessor_closer := (f =? 0) && (1 <? biased_e) in
  let '(f, biased_e) := if negb (biased_e =? 0) then (f + float_implicit_bit, biased_e) else (f, 1) in
  (mkFp f (biased_e - exponent_bias - float_significand_size), is_predecessor_closer).

(** ** fallback_format

    The buffer is a list of character codes. *)

(** [lower] and [upper], which are for the shortest representation and no larger than these two,
    are left out. *)
Definition fraction (binary32 : bool) (d exp10 : Z) : outcome (bigint * bigint) :=
  let '(value, is_predecessor_closer) := assign_float binary32 d in
  let shift := if is_predecessor_closer : bool then 2 else 1 in
  let significand := u64 (Z.shiftl (f value) shift) in
  if 0 <=? e value then
    numerator ← shl (e value) (assign significand);
    denominator ← assign_pow10 (A := Z) exp10;
    denominator ← shl shift denominator;
    Ok (numerator, denominator)
  else if exp10 <? 0 then
    numerator ← assign_pow10 (A := Z) (- exp10);
    numerator ← times_u64 significand numerator;
    denominator ← shl (shift - e value) (assign 1);
    Ok (numerator, denominator)
  else
    denominator ← assign_pow10 (A := Z) exp10;
    denominator ← shl (shift - e value) denominator;
    Ok (assign significand, denominator).

(** A digit is below ten: ten subtractions at most. *)
Definition digit_fuel : nat := 10.

Fixpoint digits_loop (count : nat) (numerator denominator : bigint) (buf : list Z) : outcome (list Z * bigint) :=
  match count with
  | O => Ok (buf, numerator)
  | S count =>
      '(digit, numerator) ← divmod_assign digit_fuel numerator denominator;
      numerator ← times_int 10 numerator;
      digits_loop count numerator denominator (buf ++ [48 + digit])
  end.

(** The carry of a character [c] into the characters before it, the nearest first. *)
Fixpoint carry (c : Z) (before : list Z) : list Z :=
  match before with
  | [] => [c]
  | c' :: before => if 57 <? c then 48 :: carry (c' + 1) before else c :: c' :: before
  end.

Definition fallback_format (d num_digits : Z) (binary32 : bool) (exp10 : Z) : outcome (list Z * Z) :=
  '(numerator, denominator) ← fraction binary32 d exp10;
  let exp10 := exp10 - (num_digits - 1) in
  if num_digits =? 0 then
    denominator ← times_int 10 denominator;
    Ok ([if 0 <? add_compare numerator numerator denominator then 49 else 48], exp10)
  else
    '(buf, numerator) ← digits_loop (Z.to_nat (num_digits - 1)) numerator denominator [];
    '(digit, numerator) ← divmod_assign digit_fuel numerator denominator;
    let result := add_compare numerator numerator denominator in
    if (0 <? result) || ((result =? 0) && negb (digit mod 2 =? 0)) then
      if digit =? 9 then
        match reverse (carry (48 + 10) (reverse buf)) with
        | c :: rest => Ok (if c =? 48 + 10 then (49 :: rest, exp10 + 1) else (c :: rest, exp10))
        | [] => Err OutOfRange
        end
      else Ok (buf ++ [48 + (digit + 1)], exp10)
    else Ok (buf ++ [48 + digit], exp10).

(** ** What is printed *)

(** The number that digits stand for. *)
Definition to_num (buf : list Z) : Z := foldl (λ a c, 10 * a + (c - 48)) 0 buf.
Definition digit_chars (buf : list Z) : Prop := Forall (λ c, 48 ≤ c ≤ 57) buf.

(** [f * 2 ^ e / 10 ^ x] as a fraction. *)
Definition scaled_num (v : fp) (x : Z) : Z := f v * 2 ^ Z.max (e v) 0 * 10 ^ Z.max (- x) 0.
Definition scaled_den (v : fp) (x : Z) : Z := 2 ^ Z.max (- e v) 0 * 10 ^ Z.max x 0.

(** Rounding to the nearest integer, ties to even. *)
Definition round_half_even (n d : Z) : Z :=
  let q := n / d in
  let r := n mod d in
  if 2 * r <? d then q else if d <? 2 * r then q + 1 else if q mod 2 =? 0 then q else q + 1.


(** ** Digits and rounding *)
Lemma to_num_snoc buf c : to_num (buf ++ [c]) = 10 * to_num buf + (c - 48).
Proof. unfold to_num. by rewrite foldl_snoc. Qed.

Lemma to_num_nonneg buf : digit_chars buf → 0 ≤ to_num buf < 10 ^ zlen buf.
Proof.
  induction buf as [|c buf IH] using rev_ind; [done|]. intros [Hb [Hc _]%Forall_cons]%Forall_app. specialize (IH Hb).
  rewrite to_num_snoc, zlen_app. change (zlen [c]) with 1. pose proof (zlen_nonneg buf). rewrite Z.pow_add_r by lia. lia.
Qed.

Lemma round_scale n d c : 0 < d → 0 < c → round_half_even (n * c) (d * c) = round_half_even n d.
Proof.
  intros Hd Hc. unfold round_half_even. rewrite Z.div_mul_cancel_r, Z.mul_mod_distr_r by lia.
  assert (E1 : (2 * (n mod d * c) <? d * c) = (2 * (n mod d) <? d)) by (apply eq_true_iff_eq; rewrite !Z.ltb_lt; nia).
  assert (E2 : (d * c <? 2 * (n mod d * c)) = (d <? 2 * (n mod d))) by (apply eq_true_iff_eq; rewrite !Z.ltb_lt; nia).
  by rewrite E1, E2.
Qed.

(** Equal fractions round to the same integer. *)
Lemma round_cross n d n' d' : 0 < d → 0 < d' → n * d' = n' * d → round_half_even n d = round_half_even n' d'.
Proof. intros Hd Hd' E. rewrite <- (round_scale n d d'), E, (Z.mul_comm d d') by done. by apply round_scale. Qed.

(** From quotient and remainder. *)
Lemma round_divmod n d q r : 0 ≤ r < d → n = q * d + r →
  round_half_even n d = if (0 <? Z.sgn (r + r - d)) || ((Z.sgn (r + r - d) =? 0) && negb (q mod 2 =? 0)) then q + 1 else q.
Proof.
  intros Hr ->. unfold round_half_even. rewrite Z.div_add_l, (Z.div_small r), Z.add_0_r by lia.
  rewrite Z.add_comm, Z_mod_plus_full, (Z.mod_small r) by lia.
  destruct (Z.ltb_spec (2 * r) d); [by rewrite sgn_neg_eq by lia|]. destruct (Z.ltb_spec d (2 * r)); [by rewrite sgn_pos_eq by lia|].
  replace (r + r - d) with 0 by lia. simpl. by destruct (q mod 2 =? 0).
Qed.

(** *** The carry *)
Lemma carry_spec c before : 48 ≤ c ≤ 58 → digit_chars before →
  to_num (reverse (carry c before)) = to_num (reverse (c :: before)) ∧ length (carry c before) = S (length before) ∧
  (digit_chars (carry c before) ∨ ∃ k, carry c before = replicate k 48 ++ [58]).
Proof.
  revert c. induction before as [|c' before IH]; intros c Hc Hb.
  - split_and!; try done. cbn [carry]. destruct (decide (c = 58)) as [->|]; [right; by exists 0%nat|left].
    apply Forall_singleton. lia.
  - apply Forall_cons in Hb as [Hc' Hb]. cbn [carry]. destruct (Z.ltb_spec 57 c) as [Hgt|Hle].
    + assert (c = 58) as -> by lia. destruct (IH (c' + 1)) as (En & El & Hs); [lia|done|].
      split_and!; [|simpl; lia|].
      * rewrite !reverse_cons, !to_num_snoc, En, reverse_cons, to_num_snoc. lia.
      * destruct Hs as [Hs|[k Hs]]; [left; by constructor; [lia|]|right; exists (S k); by rewrite Hs].
    + split_and!; try done. left. constructor; [lia|]. by constructor.
Qed.

Lemma to_num_zeros c k : to_num (c :: replicate k 48) = (c - 48) * 10 ^ Z.of_nat k.
Proof.
  induction k as [|k IH]; [unfold to_num; simpl; lia|]. rewrite replicate_S_end, app_comm_cons, to_num_snoc, IH.
  replace (Z.of_nat (S k)) with (Z.of_nat k + 1) by lia. rewrite Z.pow_add_r by lia. lia.
Qed.

(** ** The loop *)
Section digits.
Context (den : bigint) (Hden : canonical den).
Abbreviation D := (value den).

(** Numbers with at least so many zero bits stay within the capacity. *)
Context (E0 : Z) (Hroom : num_bigits den + 1 ≤ E0 + bigits_capacity) (HE0 : E0 ≤ exp_ den).

Lemma den_pos : 0 < D.
Proof. by apply canonical_pos. Qed.

(** A number below ten times the denominator has at most one bigit more. *)
Lemma one_bigit_more n : below n den → value n < 10 * D → num_bigits n ≤ num_bigits den + 1.
Proof.
  intros [Hw Hb] Hlt. pose proof (value_lt den (or_introl Hden)) as Hd. pose proof (num_bigits_pos den (or_introl Hden)) as Hp.
  destruct Hw as [Hc|Hz].
  - pose proof (value_ge n Hc) as Hge. destruct (Z.le_gt_cases (num_bigits n) (num_bigits den + 1)) as [|Hgt]; [done|].
    destruct Hden as [_ He _]. assert (2 ^ (32 * num_bigits den) * 2 ^ 32 ≤ 2 ^ (32 * (num_bigits n - 1))); [|lia].
    rewrite <- Z.pow_add_r by lia. apply Z.pow_le_mono_r; lia.
  - specialize (Hb Hz). destruct Hz as [E _]. unfold num_bigits at 1. rewrite E. change (zlen [0]) with 1. lia.
Qed.

Lemma digit_ok n : below n den → E0 ≤ exp_ n → value n < 10 * D → (value n = D → exp_ n ≤ exp_ den) →
  ∃ q n', divmod_assign digit_fuel n den = Ok (q, n') ∧ 0 ≤ q ≤ 9 ∧ value n = q * D + value n' ∧ value n' < D ∧ below n' den ∧
    E0 ≤ exp_ n' ≤ exp_ n ∧ (0 < q → exp_ n' ≤ exp_ den).
Proof.
  intros Hb HE Hlt Heq. pose proof den_pos as Hpos. pose proof (value_lt n (proj1 Hb)) as Hn.
  assert (Hq : 0 ≤ value n / D ≤ 9).
  { split; [apply Z.div_pos; lia|]. assert (value n / D < 10); [|lia]. apply Z.div_lt_upper_bound; lia. }
  destruct (divmod_ok digit_fuel n den Hb Hden (one_bigit_more n Hb Hlt) Heq) as (n' & E & Hv & Hb' & He & Hq0); [change (Z.of_nat digit_fuel) with 10; lia|lia|].
  exists (value n / D), n'. pose proof (Z_div_mod_eq_full (value n) D). pose proof (Z.mod_pos_bound (value n) D Hpos).
  split_and!; try done; lia.
Qed.

Lemma den_room x : x ≤ D → x * 10 < 2 ^ (32 * (E0 + bigits_capacity)).
Proof.
  intros Hx. pose proof (value_lt den (or_introl Hden)) as Hd. pose proof (num_bigits_pos den (or_introl Hden)). destruct Hden as [_ He _].
  apply Z.lt_le_trans with (2 ^ (32 * num_bigits den) * 2 ^ 32); [lia|]. rewrite <- Z.pow_add_r by lia. apply Z.pow_le_mono_r; lia.
Qed.
Lemma times_ten n : wf n → E0 ≤ exp_ n → value n ≤ D → ∃ n', times_int 10 n = Ok n' ∧ scaled 10 n n' ∧ exp_ n' = exp_ n.
Proof.
  intros Hw HE Hn. apply times_int_ok; [done|lia|]. apply Z.lt_le_trans with (1 := den_room _ Hn).
  pose proof (num_bigits_pos den (or_introl Hden)). destruct Hden as [_ He _]. apply Z.pow_le_mono_r; lia.
Qed.

(** Either the exponents are in order, or nothing has been subtracted yet and no power of ten times
    the first numerator is the denominator. *)
Definition in_order (N0 : Z) n (buf : list Z) : Prop :=
  exp_ n ≤ exp_ den ∨ to_num buf = 0 ∧ ∀ k, 0 ≤ k → 10 ^ k * N0 ≠ D.

Lemma in_order_eq N0 i n buf : 0 ≤ i → in_order N0 n buf → 10 ^ i * N0 = 10 * to_num buf * D + value n → value n = D → exp_ n ≤ exp_ den.
Proof. intros Hi [|[E Hne]] Hinv Hv; [done|]. rewrite E in Hinv. destruct (Hne i Hi). lia. Qed.

Lemma digits_loop_ok (count : nat) (N0 i : Z) n buf : 0 ≤ i → below n den → E0 ≤ exp_ n → value n < 10 * D → digit_chars buf →
  10 ^ i * N0 = 10 * to_num buf * D + value n → in_order N0 n buf →
  ∃ buf' n', digits_loop count n den buf = Ok (buf', n') ∧ length buf' = (length buf + count)%nat ∧ digit_chars buf' ∧
    10 ^ (i + Z.of_nat count) * N0 = 10 * to_num buf' * D + value n' ∧ below n' den ∧ E0 ≤ exp_ n' ∧ value n' < 10 * D ∧ in_order N0 n' buf'.
Proof.
  revert i n buf. induction count as [|count IH]; intros i n buf Hi Hb HE Hlt Hbuf Hinv Ho.
  { exists buf, n. rewrite Z.add_0_r, Nat.add_0_r. by split_and!. }
  cbn [digits_loop]. destruct (digit_ok n Hb HE Hlt) as (q & n1 & -> & Hq & Hv1 & Hlt1 & Hb1 & He1 & Hq0).
  { by apply (in_order_eq N0 i n buf). }
  ok_simpl. destruct Hb1 as [Hw1 Hz1]. destruct (times_ten n1 Hw1) as (n2 & -> & [Hw2 Hv2 Hz2] & He2); [lia|lia|]. ok_simpl.
  assert (Hb2 : below n2 den).
  { split; [done|]. intros Hz. destruct (wf_cases n1 Hw1) as [[_ Hp]|[Hz' _]]; [|specialize (Hz1 Hz'); lia].
    apply zero_value in Hz. lia. }
  destruct (IH (i + 1) n2 (buf ++ [48 + q])) as (buf' & n' & E & Hl & Hb' & Hinv' & Hrest); [lia|done|lia|lia| | | |].
  - apply Forall_app. split; [done|]. apply Forall_singleton. lia.
  - rewrite to_num_snoc, Hv2, Z.pow_add_r by lia. lia.
  - pose proof (to_num_nonneg buf Hbuf) as Hnn. destruct (decide (q = 0)) as [->|Hne].
    + destruct Ho as [Ho|[Ho Hne]]; [left; lia|right]. split; [rewrite to_num_snoc; lia|done].
    + left. specialize (Hq0 ltac:(lia)). lia.
  - exists buf', n'. rewrite length_app in Hl. simpl in Hl. split_and!; [done|lia|done| |apply Hrest..].
    replace (i + Z.of_nat (S count)) with (i + 1 + Z.of_nat count) by lia. done.
Qed.
End digits.

(** ** The number behind the bits *)
Definition finite_positive (binary32 : bool) (u : Z) : Prop := 0 < u < (if binary32 then 2139095040 else 9218868437227405312).

Lemma assign_float_ok binary32 u : finite_positive binary32 u →
  let v := (assign_float binary32 u).1 in
  0 < f v < 2 ^ (if binary32 then 24 else 53) ∧ -1074 ≤ e v ≤ 971 ∧ (0 ≤ e v → 2 ^ (if binary32 then 23 else 52) ≤ f v).
Proof.
  unfold finite_positive, assign_float. intros Hu. set (s := if binary32 then 23 else 52).
  assert (Hs : s = 23 ∨ s = 52) by (destruct binary32; auto).
  rewrite !Z.shiftl_mul_pow2, !Z.mul_1_l by (destruct Hs as [-> | ->], binary32; done).
  assert (Hf : Z.land u (2 ^ s - 1) = u mod 2 ^ s).
  { rewrite <- Z.land_ones by lia. rewrite Z.ones_equiv. f_equal. }
  assert (He : Z.shiftr (Z.land u (Z.land (2 ^ 63 - 1) (Z.lxor (2 ^ 64 - 1) (2 ^ s - 1)))) s = u / 2 ^ s).
  { rewrite Z.shiftr_land, Z.shiftr_div_pow2 by lia.
    assert (Hm : Z.shiftr (Z.land (2 ^ 63 - 1) (Z.lxor (2 ^ 64 - 1) (2 ^ s - 1))) s = Z.ones (63 - s)) by (by destruct Hs as [-> | ->]).
    rewrite Hm, Z.land_ones by lia. apply Z.mod_small. split; [apply Z.div_pos; [lia|apply Z.pow_pos_nonneg; lia]|].
    apply Z.div_lt_upper_bound; [apply Z.pow_pos_nonneg; lia|]. destruct Hs as [-> | ->], binary32; simpl in *; lia. }
  rewrite Hf, He. pose proof (Z_div_mod_eq_full u (2 ^ s)) as Hd. pose proof (Z.mod_pos_bound u (2 ^ s) (Z.pow_pos_nonneg 2 s ltac:(lia) ltac:(lia))) as Hm.
  assert (Hq : 0 ≤ u / 2 ^ s < if binary32 then 255 else 2047).
  { split; [apply Z.div_pos; [lia|apply Z.pow_pos_nonneg; lia]|]. apply Z.div_lt_upper_bound; [apply Z.pow_pos_nonneg; lia|].
    unfold s. destruct binary32; lia. }
  destruct (Z.eqb_spec (u / 2 ^ s) 0) as [E|E]; cbn [negb fst f e]; unfold s in *; clear s Hs Hf He;
    destruct binary32; cbv beta iota in *; change (Z.shiftl 1 (32 - 23 - 1)) with 256; change (Z.shiftl 1 (64 - 52 - 1)) with 2048; lia.
Qed.

(** Powers that meet: significands of this size are no multiples of high powers of five. *)
Lemma pow10_small fv ev j k m : 0 ≤ m → 0 < fv < 5 ^ (m + 1) → 0 ≤ ev → 0 ≤ k → 0 ≤ j → 10 ^ k * (fv * 2 ^ ev) = 10 ^ j → 2 ^ ev * fv ≤ 10 ^ m.
Proof.
  intros Hm Hf He Hk Hj E. assert (Hp : 0 < 2 ^ ev) by (apply Z.pow_pos_nonneg; lia). assert (0 < 10 ^ k) by (apply Z.pow_pos_nonneg; lia).
  assert (Hx : 1 ≤ fv * 2 ^ ev) by nia. set (x := fv * 2 ^ ev) in *.
  assert (Hkj : k ≤ j). { destruct (Z.le_gt_cases k j) as [|Hgt]; [done|]. apply (Z.pow_lt_mono_r 10) in Hgt; [nia|lia|lia]. }
  assert (E' : x = 10 ^ (j - k)).
  { replace j with (k + (j - k)) in E by lia. rewrite Z.pow_add_r in E by lia. nia. }
  assert (Hdiv : (5 ^ (j - k) | fv)).
  { apply (Z.gauss _ (2 ^ ev)); [|].
    - rewrite Z.mul_comm. fold x. rewrite E'. change 10 with (5 * 2). rewrite Z.pow_mul_l. apply Z.divide_factor_l.
    - apply Z.coprime_pow_l; [lia|]. by apply Z.coprime_pow_r. }
  apply Z.divide_pos_le in Hdiv; [|lia]. rewrite Z.mul_comm. fold x. rewrite E'. apply Z.pow_le_mono_r; [lia|].
  destruct (Z.le_gt_cases (j - k) m) as [|Hgt]; [done|]. assert (5 ^ (m + 1) ≤ 5 ^ (j - k)) by (apply Z.pow_le_mono_r; lia). lia.
Qed.

(** ** The fraction *)
Lemma scaled_den_pos v x : 0 < scaled_den v x.
Proof. unfold scaled_den. pose proof (Z.pow_pos_nonneg 2 (Z.max (- e v) 0)). pose proof (Z.pow_pos_nonneg 10 (Z.max x 0)). nia. Qed.

(** [10 ^ k] times the fraction for [x] is the one for [x - k]. *)
Lemma scaled_shift v x k : 0 ≤ k → scaled_num v (x - k) * scaled_den v x = 10 ^ k * scaled_num v x * scaled_den v (x - k).
Proof.
  intros Hk. unfold scaled_num, scaled_den.
  assert (E : 10 ^ Z.max (- (x - k)) 0 * 10 ^ Z.max x 0 = 10 ^ k * 10 ^ Z.max (- x) 0 * 10 ^ Z.max (x - k) 0).
  { rewrite <- !Z.pow_add_r by lia. f_equal. lia. }
  set (a := 10 ^ Z.max (- (x - k)) 0) in *. set (b := 10 ^ Z.max x 0) in *. set (c := 10 ^ Z.max (- x) 0) in *. set (g := 10 ^ Z.max (x - k) 0) in *.
  transitivity (f v * 2 ^ Z.max (e v) 0 * 2 ^ Z.max (- e v) 0 * (a * b)); [ring|]. rewrite E. ring.
Qed.

Lemma pow10_lt k m : 0 ≤ m → 10 ^ k < 10 ^ m → k < m.
Proof. intros Hm Hlt. by apply Z.pow_lt_mono_r_iff in Hlt. Qed.

(** Ten to the [x] times [y], for the room it takes behind its zero bits. *)
Lemma pow10_room x y k : 0 ≤ x ≤ 330 → 0 < y ≤ 2 ^ 55 → 28 ≤ k → 10 ^ x * y < 2 ^ (32 * (x / 32 + k)).
Proof.
  intros Hx Hy Hk. replace (10 ^ x * y) with (5 ^ x * y * 2 ^ x) by (change 10 with (5 * 2); rewrite Z.pow_mul_l; ring).
  apply pow_room; [lia| |lia]. pose proof (pow5_small x ltac:(lia)). pose proof (Z.pow_pos_nonneg 5 x ltac:(lia) ltac:(lia)).
  apply Z.lt_le_trans with (2 ^ 800 * 2 ^ 55); [nia|]. rewrite <- Z.pow_add_r by lia. apply Z.pow_le_mono_r; lia.
Qed.

Lemma num_le n m : canonical n → value n < 2 ^ (32 * m) → 0 ≤ m → num_bigits n ≤ m.
Proof.
  intros Hc Hv Hm. pose proof (value_ge n Hc) as Hge. assert (Hlt : 2 ^ (32 * (num_bigits n - 1)) < 2 ^ (32 * m)) by lia.
  apply Z.pow_lt_mono_r_iff in Hlt; lia.
Qed.

Lemma wf_canonical n : wf n → 0 < value n → canonical n.
Proof. intros Hw Hp. destruct (wf_cases n Hw) as [[? _]|[_ Hz]]; [done|lia]. Qed.

(** The two numbers of [fraction]: their quotient, and room for the digits. *)
Record fraction_of v (exp10 : Z) n den : Prop := {
  fr_num : canonical n;
  fr_den : canonical den;
  fr_value : value n * scaled_den v exp10 = scaled_num v exp10 * value den;
  fr_digit : value n < 10 * value den;
  fr_room : num_bigits den + 1 ≤ Z.min (exp_ n) (exp_ den) + bigits_capacity;
  fr_order : in_order den (value n) n []
}.

Section fraction.
Context (binary32 : bool) (v : fp) (s exp10 : Z).
Context (Hs : s = 1 ∨ s = 2) (Hf : 0 < f v < 2 ^ (if binary32 then 24 else 53)) (He : -1074 ≤ e v ≤ 971).
Context (Hlow : 0 ≤ e v → 2 ^ (if binary32 then 23 else 52) ≤ f v).
Context (Hlt : scaled_num v (exp10 + 1) < scaled_den v (exp10 + 1)) (Hle : scaled_den v exp10 ≤ scaled_num v exp10).
Abbreviation sig := (f v * 2 ^ s).

Lemma sig_bounds : 0 < f v < 2 ^ 53 ∧ 0 < sig < 2 ^ 55 ∧ 0 < 2 ^ s ≤ 4.
Proof using Hs Hf. clear Hlow. assert (0 < f v < 2 ^ 53) by (destruct binary32; lia). destruct Hs as [-> | ->]; lia. Qed.
Lemma assign_sig : wf (assign sig) ∧ value (assign sig) = sig ∧ exp_ (assign sig) = 0.
Proof using Hs Hf. apply assign_ok. pose proof sig_bounds. unfold in_u. lia. Qed.

(** A large number, without a fraction. *)
Lemma fraction_large : 0 ≤ e v →
  ∃ n d den, shl (e v) (assign sig) = Ok n ∧ assign_pow10 (A := Z) exp10 = Ok d ∧ shl s d = Ok den ∧ fraction_of v exp10 n den.
Proof.
  intros Hpos. destruct sig_bounds as (Hf53 & Hsig & H2s). destruct assign_sig as (Hws & Hvs & Hes).
  assert (H2e : 0 < 2 ^ e v ≤ 2 ^ 971) by (split; [apply Z.pow_pos_nonneg; lia|apply Z.pow_le_mono_r; lia]).
  unfold scaled_num, scaled_den in Hlt, Hle. rewrite (Z.max_l (e v)), (Z.max_r (- e v)) in Hlt, Hle by lia.
  assert (Hx0 : 0 ≤ exp10).
  { destruct (Z.le_gt_cases 0 exp10); [done|]. rewrite (Z.max_r (exp10 + 1)) in Hlt by lia.
    pose proof (Z.pow_pos_nonneg 10 (Z.max (- (exp10 + 1)) 0)). nia. }
  rewrite (Z.max_r (- (exp10 + 1))), (Z.max_l (exp10 + 1)), (Z.pow_add_r 10 exp10) in Hlt by lia.
  rewrite (Z.max_r (- exp10)), (Z.max_l exp10) in Hle by lia. simpl (2 ^ 0) in *. simpl (10 ^ 0) in *. simpl (10 ^ 1) in *.
  assert (Hx : exp10 < 309).
  { apply pow10_lt; [lia|]. apply Z.le_lt_trans with (2 ^ 53 * 2 ^ 971); [nia|by vm_compute]. }
  destruct (shl_ok (e v) (assign sig) Hws Hpos) as (n & En & [Hwn Hvn _] & Hen).
  { rewrite Hvs, Hes. apply pow_room; [done| |done]. apply Z.lt_trans with (2 ^ 55); [lia|done]. }
  destruct (assign_pow10_ok (A := Z) exp10) as (d & Ed & Hcd & Hed & Hvd); [lia|].
  assert (H10 : 0 < 10 ^ exp10) by (apply Z.pow_pos_nonneg; lia).
  destruct (shl_ok s d (or_introl Hcd)) as (den & Eden & [Hwd Hvden _] & Heden); [lia| |].
  { rewrite Hvd, Hed, (Z.div_small s) by lia. rewrite Z.add_0_r. apply pow10_room; [lia|lia|done]. }
  rewrite (Z.div_small s), Z.add_0_r in Heden by lia. rewrite Hvs in Hvn. rewrite Hvd in Hvden. rewrite Hes in Hen.
  assert (Hcden : canonical den) by (apply wf_canonical; [done|nia]).
  exists n, d, den. split_and!; try done. split; [apply wf_canonical; [done|nia]|done| | | |].
  - unfold scaled_num, scaled_den. rewrite (Z.max_l (e v)), (Z.max_r (- e v)), (Z.max_r (- exp10)), (Z.max_l exp10) by lia.
    rewrite Hvn, Hvden. simpl (2 ^ 0). simpl (10 ^ 0). ring.
  - rewrite Hvn, Hvden. nia.
  - rewrite Hen, Heden, Hed. unfold bigits_capacity. pose proof (Z.div_pos (e v) 32 Hpos ltac:(lia)). pose proof (Z.div_pos exp10 32 Hx0 ltac:(lia)).
    assert (num_bigits den ≤ exp10 / 32 + 28) by (apply num_le; [done|rewrite Hvden; apply pow10_room; lia|lia]).
    assert (num_bigits den ≤ e v / 32 + 4); [|lia]. apply num_le; [done| |lia]. rewrite Hvden.
    apply Z.le_lt_trans with (sig * 2 ^ e v); [nia|]. apply pow_room; lia.
  - destruct (Z.lt_ge_cases (e v) 32) as [Hsmall|Hbig].
    { left. rewrite Hen, (Z.div_small (e v)) by lia. by destruct (wf_ok den Hwd) as (_ & ? & _). }
    right. split; [done|]. intros k Hk E. rewrite Hvn, Hvden in E. assert (E' : 10 ^ k * (f v * 2 ^ e v) = 10 ^ exp10) by nia.
    assert (Hbig' : 2 ^ 32 ≤ 2 ^ e v) by (apply Z.pow_le_mono_r; lia). destruct binary32.
    + pose proof (pow10_small (f v) (e v) exp10 k 10 ltac:(lia) ltac:(lia) Hpos Hk Hx0 E'). nia.
    + pose proof (pow10_small (f v) (e v) exp10 k 22 ltac:(lia) ltac:(lia) Hpos Hk Hx0 E'). nia.
Qed.

Lemma two_split : e v < 0 → 2 ^ (s - e v) = 2 ^ s * 2 ^ (- e v) ∧ 0 < 2 ^ (- e v).
Proof. intros. split; [rewrite <- Z.pow_add_r by lia; f_equal; lia|apply Z.pow_pos_nonneg; lia]. Qed.

(** A number below one. *)
Lemma fraction_small : e v < 0 → exp10 < 0 →
  ∃ d n den, assign_pow10 (A := Z) (- exp10) = Ok d ∧ times_u64 sig d = Ok n ∧ shl (s - e v) (assign 1) = Ok den ∧ fraction_of v exp10 n den.
Proof.
  intros Hneg Hx0. destruct sig_bounds as (Hf53 & Hsig & H2s). destruct (two_split Hneg) as [Hse H2e].
  unfold scaled_num, scaled_den in Hlt, Hle. rewrite (Z.max_r (e v)), (Z.max_l (- e v)) in Hlt, Hle by lia.
  rewrite (Z.max_l (- (exp10 + 1))), (Z.max_r (exp10 + 1)) in Hlt by lia. rewrite (Z.max_l (- exp10)), (Z.max_r exp10) in Hle by lia.
  simpl (2 ^ 0) in *. simpl (10 ^ 0) in *.
  assert (H10 : 10 ^ (- exp10) = 10 * 10 ^ (- (exp10 + 1))) by (rewrite <- (Z.pow_add_r 10 1) by lia; f_equal; lia).
  assert (H10' : 0 < 10 ^ (- (exp10 + 1))) by (apply Z.pow_pos_nonneg; lia).
  assert (Hx : - (exp10 + 1) < 324).
  { apply pow10_lt; [lia|]. apply Z.lt_trans with (2 ^ (- e v)); [nia|]. apply Z.le_lt_trans with (2 ^ 1074); [apply Z.pow_le_mono_r; lia|by vm_compute]. }
  destruct (assign_pow10_ok (A := Z) (- exp10)) as (d & Ed & Hcd & Hed & Hvd); [lia|].
  assert (Hroom : ∀ k, 28 ≤ k → 10 ^ (- exp10) * sig < 2 ^ (32 * (- exp10 / 32 + k))) by (intros; apply pow10_room; lia).
  destruct (times_u64_ok sig d (or_introl Hcd)) as (n & En & [Hwn Hvn _] & Hen); [lia|rewrite Hvd, Hed; apply Hroom; done|].
  destruct (assign_ok 1) as (Hw1 & Hv1 & He1); [done|].
  destruct (shl_ok (s - e v) (assign 1) Hw1) as (den & Eden & [Hwd Hvden _] & Heden); [lia|rewrite Hv1, He1; apply pow_room; [lia|done|done]|].
  rewrite Hvd in Hvn. rewrite Hv1, Z.mul_1_l in Hvden. rewrite He1, Z.add_0_l in Heden.
  assert (Hcden : canonical den) by (apply wf_canonical; [done|rewrite Hvden, Hse; nia]).
  exists d, n, den. split_and!; try done. split; [apply wf_canonical; [done|nia]|done| | | |left].
  - unfold scaled_num, scaled_den. rewrite (Z.max_r (e v)), (Z.max_l (- e v)), (Z.max_l (- exp10)), (Z.max_r exp10) by lia.
    rewrite Hvn, Hvden, Hse. simpl (2 ^ 0). simpl (10 ^ 0). ring.
  - rewrite Hvn, Hvden, Hse. nia.
  - rewrite Hen, Hed, Heden. unfold bigits_capacity. pose proof (Z.div_pos (- exp10) 32 ltac:(lia) ltac:(lia)). pose proof (Z.div_pos (s - e v) 32 ltac:(lia) ltac:(lia)).
    assert (num_bigits den ≤ - exp10 / 32 + 28).
    { apply num_le; [done| |lia]. apply Z.le_lt_trans with (10 ^ (- exp10) * sig); [rewrite Hvden, Hse; nia|by apply Hroom]. }
    assert (num_bigits den ≤ (s - e v) / 32 + 2); [|lia]. apply num_le; [done| |lia]. rewrite Hvden, <- (Z.mul_1_l (2 ^ _)). apply pow_room; lia.
  - rewrite Hen, Hed, Heden. apply Z.div_le_mono; [lia|].
    assert (Hm : 2 ^ (- (exp10 + 1)) < 2 ^ (- e v)).
    { assert (2 ^ (- (exp10 + 1)) ≤ 10 ^ (- (exp10 + 1))) by (apply Z.pow_le_mono_l; lia). nia. }
    apply Z.pow_lt_mono_r_iff in Hm; lia.
Qed.

(** A number above one with a fraction. *)
Lemma fraction_middle : e v < 0 → 0 ≤ exp10 →
  ∃ d den, assign_pow10 (A := Z) exp10 = Ok d ∧ shl (s - e v) d = Ok den ∧ fraction_of v exp10 (assign sig) den.
Proof.
  intros Hneg Hx0. destruct sig_bounds as (Hf53 & Hsig & H2s). destruct assign_sig as (Hws & Hvs & Hes). destruct (two_split Hneg) as [Hse H2e].
  unfold scaled_num, scaled_den in Hlt, Hle. rewrite (Z.max_r (e v)), (Z.max_l (- e v)) in Hlt, Hle by lia.
  rewrite (Z.max_r (- (exp10 + 1))), (Z.max_l (exp10 + 1)), (Z.pow_add_r 10) in Hlt by lia. rewrite (Z.max_r (- exp10)), (Z.max_l exp10) in Hle by lia.
  simpl (2 ^ 0) in *. simpl (10 ^ 0) in *. simpl (10 ^ 1) in *. assert (H10 : 0 < 10 ^ exp10) by (apply Z.pow_pos_nonneg; lia).
  assert (Hx : exp10 < 16) by (apply pow10_lt; [lia|]; apply Z.lt_trans with (2 ^ 53); [nia|done]).
  destruct (assign_pow10_ok (A := Z) exp10) as (d & Ed & Hcd & Hed & Hvd); [lia|].
  assert (Hd : 10 ^ exp10 * 2 ^ (s - e v) < 2 ^ (32 * 2)) by (rewrite Hse; change (2 ^ (32 * 2)) with (2 ^ 55 * 2 ^ 9); nia).
  destruct (shl_ok (s - e v) d (or_introl Hcd)) as (den & Eden & [Hwd Hvden _] & Heden); [lia| |].
  { rewrite Hvd. apply Z.lt_le_trans with (1 := Hd). rewrite Hed. pose proof (Z.div_pos exp10 32 Hx0 ltac:(lia)).
    pose proof (Z.div_pos (s - e v) 32 ltac:(lia) ltac:(lia)). unfold bigits_capacity. apply Z.pow_le_mono_r; lia. }
  rewrite Hvd in Hvden. assert (Hcden : canonical den) by (apply wf_canonical; [done|rewrite Hvden, Hse; nia]).
  assert (Hed0 : 0 ≤ exp_ den) by (by destruct (wf_ok den Hwd) as (_ & ? & _)).
  exists d, den. split_and!; try done. split; [apply wf_canonical; [done|lia]|done| | | |left; lia].
  - unfold scaled_num, scaled_den. rewrite (Z.max_r (e v)), (Z.max_l (- e v)), (Z.max_r (- exp10)), (Z.max_l exp10) by lia.
    rewrite Hvs, Hvden, Hse. simpl (2 ^ 0). simpl (10 ^ 0). ring.
  - rewrite Hvs, Hvden, Hse. nia.
  - rewrite Hes, Z.min_l by done. pose proof (num_le den 2 Hcden) as Hn. rewrite Hvden in Hn. specialize (Hn Hd). unfold bigits_capacity. lia.
Qed.
End fraction.

(** What [fraction] returns for a number from ten to the [exp10] to ten to the [exp10 + 1]. *)
Lemma fraction_ok binary32 d exp10 : finite_positive binary32 d →
  let v := (assign_float binary32 d).1 in
  scaled_num v (exp10 + 1) < scaled_den v (exp10 + 1) → scaled_den v exp10 ≤ scaled_num v exp10 →
  ∃ n den, fraction binary32 d exp10 = Ok (n, den) ∧ fraction_of v exp10 n den.
Proof.
  intros Hd v Hlt Hle. pose proof (assign_float_ok binary32 d Hd) as Hv. unfold fraction. subst v.
  destruct (assign_float binary32 d) as [v closer]. cbn [fst] in *. cbv zeta in *. destruct Hv as (Hf & He & Hlow).
  set (s := if closer then 2 else 1). assert (Hs : s = 1 ∨ s = 2) by (destruct closer; auto).
  destruct (sig_bounds binary32 v s Hs Hf) as (_ & Hsig & _). rewrite Z.shiftl_mul_pow2 by lia. rewrite u64_small by lia.
  destruct (Z.leb_spec 0 (e v)); [|destruct (Z.ltb_spec exp10 0)].
  - destruct (fraction_large binary32 v s exp10) as (n & t & den & -> & -> & E & Hfr); try done. ok_simpl. rewrite E. by exists n, den.
  - destruct (fraction_small binary32 v s exp10) as (t & n & den & -> & E & Eden & Hfr); try done. ok_simpl. rewrite E. ok_simpl. rewrite Eden. by exists n, den.
  - destruct (fraction_middle binary32 v s exp10) as (t & den & -> & E & Hfr); try done. ok_simpl. rewrite E. by eexists _, den.
Qed.

Lemma char_range q : 0 ≤ q ≤ 9 → digit_chars [48 + q].
Proof. intros. apply Forall_singleton. lia. Qed.

(** The last digit, rounded to even, with its carry. *)
Lemma last_digit_ok buf digit r D exp10 : digit_chars buf → 0 ≤ digit ≤ 9 → 0 ≤ r < D →
  let result := Z.sgn (r + r - D) in
  let n := (10 * to_num buf + digit) * D + r in
  ∃ buf' x, (if (0 <? result) || ((result =? 0) && negb (digit mod 2 =? 0)) then
      if digit =? 9 then
        match reverse (carry (48 + 10) (reverse buf)) with
        | c :: rest => Ok (if c =? 48 + 10 then (49 :: rest, exp10 + 1) else (c :: rest, exp10))
        | [] => Err OutOfRange
        end
      else Ok (buf ++ [48 + (digit + 1)], exp10)
    else Ok (buf ++ [48 + digit], exp10)) = Ok (buf', x) ∧
    zlen buf' = zlen buf + 1 ∧ digit_chars buf' ∧ (x = exp10 ∨ x = exp10 + 1) ∧
    to_num buf' * 10 ^ (x - exp10) = round_half_even n D.
Proof.
  intros Hbuf Hd Hr result n.
  assert (Hround : round_half_even n D = if (0 <? result) || ((result =? 0) && negb (digit mod 2 =? 0)) then 10 * to_num buf + digit + 1 else 10 * to_num buf + digit).
  { rewrite (round_divmod n D (10 * to_num buf + digit) r) by (done || unfold n; lia). fold result.
    replace (10 * to_num buf + digit) with (digit + 5 * to_num buf * 2) at 1 by lia. by rewrite Z_mod_plus_full. }
  rewrite Hround. assert (Hone : ∀ c, 48 ≤ c ≤ 57 → zlen (buf ++ [c]) = zlen buf + 1 ∧ digit_chars (buf ++ [c])).
  { intros c Hc. rewrite zlen_app. split; [done|]. apply Forall_app. split; [done|]. by apply Forall_singleton. }
  destruct (_ || _); [destruct (Z.eqb_spec digit 9) as [->|Hne]|].
  - destruct (carry_spec 58 (reverse buf)) as (En & El & Hs); [lia|by apply Forall_reverse|].
    rewrite reverse_cons, reverse_involutive, to_num_snoc in En. change (48 + 10) with 58.
    set (l := carry 58 (reverse buf)) in *. rewrite length_reverse in El.
    assert (Hlen : zlen (reverse l) = zlen buf + 1) by (unfold zlen; rewrite length_reverse; lia).
    destruct Hs as [Hs|[k Hs]].
    + assert (Hrl : digit_chars (reverse l)) by by apply Forall_reverse. destruct (reverse l) as [|c rest] eqn:E.
      { rewrite zlen_nil in Hlen. pose proof (zlen_nonneg buf). lia. }
      apply Forall_cons in Hrl as [Hc Hrest]. rewrite (proj2 (Z.eqb_neq c 58)) by lia. exists (c :: rest), exp10.
      split_and!; [done|done|by constructor|by left|]. rewrite Z.sub_diag, En. lia.
    + rewrite Hs, reverse_app, reverse_replicate in *. change (reverse [58]) with [58] in *. cbn [app] in *. cbn [Z.eqb Pos.eqb].
      exists (49 :: replicate k 48), (exp10 + 1). split_and!; [done|by rewrite !zlen_cons in *| |by right|].
      * constructor; [lia|]. by apply Forall_replicate.
      * rewrite !to_num_zeros in *. replace (exp10 + 1 - exp10) with 1 by lia. lia.
  - exists (buf ++ [48 + (digit + 1)]), exp10. destruct (Hone (48 + (digit + 1))) as [Hz Hc]; [lia|].
    split_and!; [done|done|done|by left|]. rewrite to_num_snoc, Z.sub_diag. lia.
  - exists (buf ++ [48 + digit]), exp10. destruct (Hone (48 + digit)) as [Hz Hc]; [lia|].
    split_and!; [done|done|done|by left|]. rewrite to_num_snoc, Z.sub_diag. lia.
Qed.

(** fallback_format, digit after digit. *)
Lemma fallback_ok (d num_digits : Z) (binary32 : bool) (exp10 : Z) :
  finite_positive binary32 d → 0 ≤ num_digits →
  let v := (assign_float binary32 d).1 in
  scaled_den v exp10 ≤ scaled_num v exp10 → scaled_num v (exp10 + 1) < scaled_den v (exp10 + 1) →
  let x := exp10 - (num_digits - 1) in
  ∃ buf x', fallback_format d num_digits binary32 exp10 = Ok (buf, x') ∧ zlen buf = Z.max 1 num_digits ∧ digit_chars buf ∧
    (x' = x ∨ x' = x + 1) ∧ to_num buf * 10 ^ (x' - x) = round_half_even (scaled_num v x) (scaled_den v x).
Proof.
  intros Hd Hnd v Hle Hlt x. destruct (fraction_ok binary32 d exp10 Hd Hlt Hle) as (n & den & E & [Hcn Hcd Hval Hn10 Hroom Hord]).
  fold v in Hval. unfold fallback_format. rewrite E. ok_simpl. fold x. pose proof (canonical_pos den Hcd) as Hpos.
  pose proof (scaled_den_pos v x) as Hdx. pose proof (scaled_den_pos v exp10) as Hd0. pose proof (canonical_pos n Hcn) as Hnpos.
  assert (Hnb : below n den) by (split; [by left|]; intros Hz; apply zero_value in Hz; lia).
  set (E0 := Z.min _ _) in Hroom. assert (HE : E0 ≤ exp_ den ∧ E0 ≤ exp_ n) by lia. destruct HE as [HEd HEn].
  destruct (Z.eqb_spec num_digits 0) as [Hz|Hne].
  - destruct (times_ten den Hcd E0 Hroom den (or_introl Hcd)) as (den' & -> & [Hw' Hv' _] & He'); [lia|lia|]. ok_simpl.
    assert (Hc' : canonical den') by (destruct (wf_cases den' Hw') as [[? _]|[_ Hz']]; [done|lia]).
    assert (Hnb' : below n den') by (destruct Hnb as [? Hb]; split; [done|rewrite He'; done]).
    rewrite add_compare_spec by done. rewrite (round_cross _ _ (value n) (value den')); [|done|lia|].
    2: { pose proof (scaled_shift v x 1 ltac:(lia)) as Hs. replace (x - 1) with exp10 in Hs by lia. nia. }
    rewrite (round_divmod (value n) (value den') 0 (value n)) by lia. rewrite andb_false_r, orb_false_r.
    replace (Z.max 1 num_digits) with 1 by lia. eexists _, x. split; [reflexivity|]. rewrite Z.sub_diag.
    destruct (0 <? _); (split_and!; [done|by apply Forall_singleton|by left|done]).
  - destruct (digits_loop_ok den Hcd E0 Hroom HEd (Z.to_nat (num_digits - 1)) (value n) 0 n []) as (buf & n1 & -> & Hl & Hb & Hinv & Hb1 & He1 & Hn1 & Ho1);
      [done|done|lia|done|by apply Forall_nil|change (to_num []) with 0; rewrite Z.pow_0_r; lia|done|].
    ok_simpl. rewrite Z.add_0_l, Z2Nat.id in Hinv by lia. destruct (digit_ok den Hcd E0 Hroom HEd n1 Hb1 He1 Hn1) as (q & n2 & -> & Hq & Hv2 & Hlt2 & Hb2 & _).
    { apply (in_order_eq den (value n) (num_digits - 1) n1 buf); try done. lia. }
    ok_simpl. rewrite add_compare_spec by done. pose proof (value_lt n2 (proj1 Hb2)) as Hn2.
    destruct (last_digit_ok buf q (value n2) (value den) x Hb Hq) as (buf' & x' & -> & Hz' & Hd' & Hx' & Hr'); [lia|].
    exists buf', x'. split_and!; try done.
    + rewrite Hz'. unfold zlen. rewrite Hl. simpl. lia.
    + rewrite Hr'. apply round_cross; [done|done|].
      pose proof (scaled_shift v exp10 (num_digits - 1) ltac:(lia)) as Hs. fold x in Hs.
      assert (Hnum : (10 * to_num buf + q) * value den + value n2 = 10 ^ (num_digits - 1) * value n) by lia. rewrite Hnum.
      set (p := 10 ^ (num_digits - 1)) in *. apply (Z.mul_reg_r _ _ (scaled_den v exp10)); [lia|].
      transitivity (p * (value n * scaled_den v exp10) * scaled_den v x); [ring|]. rewrite Hval.
      transitivity (p * scaled_num v exp10 * scaled_den v x * value den); [ring|]. rewrite <- Hs. ring.
Qed.

(** C35: the printing of floating-point numbers with a given number of digits is exact.  For
    every positive finite float or double from 10^exp10 to 10^(exp10 + 1), fallback_format returns that many
    decimal digits, and together with the exponent it returns they are the number rounded to
    that many digits, ties to even; with no digits asked for, one that tells whether it rounds up
    to ten to the next power.  No assertion fails, the one of the
    destructor that the numbers have fitted into their buffers included, and every loop ends. *)
Theorem fallback_rounds_to_even (d num_digits : Z) (binary32 : bool) (exp10 : Z) :
  finite_positive binary32 d → 0 ≤ num_digits →
  let v := (assign_float binary32 d).1 in
  scaled_den v exp10 ≤ scaled_num v exp10 → scaled_num v (exp10 + 1) < scaled_den v (exp10 + 1) →
  let x := exp10 - (num_digits - 1) in
  ∃ buf x', fallback_format d num_digits binary32 exp10 = Ok (buf, x') ∧ zlen buf = Z.max 1 num_digits ∧ digit_chars buf ∧
    (x' = x ∨ x' = x + 1) ∧ to_num buf * 10 ^ (x' - x) = round_half_even (scaled_num v x) (scaled_den v x).
Proof. exact (fallback_ok d num_digits binary32 exp10). Qed.

(** *** An example: a third with five digits, and 0.1 as a float with ten *)
Definition third : Z := 4599676419421066581.

Example fallback_third : fallback_format third 5 false (-1) = Ok ([51; 51; 51; 51; 51], -5) ∧
  fallback_format 1036831949 10 true (-1) = Ok ([49; 48; 48; 48; 48; 48; 48; 48; 49; 53], -10).
Proof. by vm_compute. Qed.

(** An exponent far above the number: its power of ten has no room in 32 bigits. *)
Example fallback_no_room : fallback_format third 5 false 1000 = Err AssertFailed.
Proof. by vm_compute. Qed.

Lemma fallback_rounds_to_even_witness : finite_positive false third ∧
  ∃ buf x', fallback_format third 5 false (-1) = Ok (buf, x') ∧ zlen buf = 5 ∧ digit_chars buf ∧
    (x' = -5 ∨ x' = -4) ∧
    to_num buf * 10 ^ (x' - -5) = round_half_even (scaled_num (assign_float false third).1 (-5)) (scaled_den (assign_float false third).1 (-5)).
Proof.
  split; [done|].
  refine (fallback_rounds_to_even third 5 false (-1) _ _ _ _); [done|done|by vm_compute|by vm_compute].
Defined.
