(* ===== verification/Grisu.v ===== *)
(** * Grisu: floating-point numbers with a given precision, src/thirdParty/spdlog/fmt/bundled/format-inl.h

    The fast way of fmt: the number is scaled by a cached power of ten to a 64-bit fixed-point
    number, its digits are read off, and an error that grows with them tells when they are no
    longer sure; then fallback_format of FloatFallback.v starts over.  format_float puts the two
    together.  In the end the number is rounded correctly, whichever way was taken. *)
From S2P Require Import Prelude FmtInt Bigint FloatFallback.

(** ** The tables of powers of ten, from 10^-348 to 10^340 in steps of eight *)
Definition grisu_pow10_significands : list Z :=
  [0xfa8fd5a0081c0288; 0xbaaee17fa23ebf76; 0x8b16fb203055ac76; 0xcf42894a5dce35ea; 0x9a6bb0aa55653b2d;
   0xe61acf033d1a45df; 0xab70fe17c79ac6ca; 0xff77b1fcbebcdc4f; 0xbe5691ef416bd60c; 0x8dd01fad907ffc3c;
   0xd3515c2831559a83; 0x9d71ac8fada6c9b5; 0xea9c227723ee8bcb; 0xaecc49914078536d; 0x823c12795db6ce57;
   0xc21094364dfb5637; 0x9096ea6f3848984f; 0xd77485cb25823ac7; 0xa086cfcd97bf97f4; 0xef340a98172aace5;
   0xb23867fb2a35b28e; 0x84c8d4dfd2c63f3b; 0xc5dd44271ad3cdba; 0x936b9fcebb25c996; 0xdbac6c247d62a584;
   0xa3ab66580d5fdaf6; 0xf3e2f893dec3f126; 0xb5b5ada8aaff80b8; 0x87625f056c7c4a8b; 0xc9bcff6034c13053;
   0x964e858c91ba2655; 0xdff9772470297ebd; 0xa6dfbd9fb8e5b88f; 0xf8a95fcf88747d94; 0xb94470938fa89bcf;
   0x8a08f0f8bf0f156b; 0xcdb02555653131b6; 0x993fe2c6d07b7fac; 0xe45c10c42a2b3b06; 0xaa242499697392d3;
   0xfd87b5f28300ca0e; 0xbce5086492111aeb; 0x8cbccc096f5088cc; 0xd1b71758e219652c; 0x9c40000000000000;
   0xe8d4a51000000000; 0xad78ebc5ac620000; 0x813f3978f8940984; 0xc097ce7bc90715b3; 0x8f7e32ce7bea5c70;
   0xd5d238a4abe98068; 0x9f4f2726179a2245; 0xed63a231d4c4fb27; 0xb0de65388cc8ada8; 0x83c7088e1aab65db;
   0xc45d1df942711d9a; 0x924d692ca61be758; 0xda01ee641a708dea; 0xa26da3999aef774a; 0xf209787bb47d6b85;
   0xb454e4a179dd1877; 0x865b86925b9bc5c2; 0xc83553c5c8965d3d; 0x952ab45cfa97a0b3; 0xde469fbd99a05fe3;
   0xa59bc234db398c25; 0xf6c69a72a3989f5c; 0xb7dcbf5354e9bece; 0x88fcf317f22241e2; 0xcc20ce9bd35c78a5;
   0x98165af37b2153df; 0xe2a0b5dc971f303a; 0xa8d9d1535ce3b396; 0xfb9b7cd9a4a7443c; 0xbb764c4ca7a44410;
   0x8bab8eefb6409c1a; 0xd01fef10a657842c; 0x9b10a4e5e9913129; 0xe7109bfba19c0c9d; 0xac2820d9623bf429;
   0x80444b5e7aa7cf85; 0xbf21e44003acdd2d; 0x8e679c2f5e44ff8f; 0xd433179d9c8cb841; 0x9e19db92b4e31ba9;
   0xeb96bf6ebadf77d9; 0xaf87023b9bf0ee6b].
Definition grisu_pow10_exponents : list Z :=
  [-1220; -1193; -1166; -1140; -1113; -1087; -1060; -1034; -1007; -980; -954; -927; -901; -874; -847; -821;
   -794; -768; -741; -715; -688; -661; -635; -608; -582; -555; -529; -502; -475; -449; -422; -396; -369;
   -343; -316; -289; -263; -236; -210; -183; -157; -130; -103; -77; -50; -24; 3; 30; 56; 83; 109; 136; 162;
   189; 216; 242; 269; 295; 322; 348; 375; 402; 428; 455; 481; 508; 534; 561; 588; 614; 641; 667; 694; 720;
   747; 774; 800; 827; 853; 880; 907; 933; 960; 986; 1013; 1039; 1066].
Definition powers_of_10_64 : list Z := [1] ++ FMT_POWERS_OF_10 1 ++ FMT_POWERS_OF_10 1000000000 ++ [10000000000000000000].
Definition log10_2_significand : Z := 0x4d104d427de7fbcc.

(** ** Scaling *)

(** lhs * rhs / 2^64, rounded half up, with 128-bit integers and without. *)
Definition multiply_int128 (lhs rhs : Z) : Z :=
  let product := wrapu 128 (lhs * rhs) in
  let f := u64 (Z.shiftr product 64) in
  if negb (Z.land (u64 product) (Z.shiftl 1 63) =? 0) then u64 (f + 1) else f.
Definition multiply_parts (lhs rhs : Z) : Z :=
  let mask := Z.shiftl 1 32 - 1 in
  let a := Z.shiftr lhs 32 in
  let b := Z.land lhs mask in
  let c := Z.shiftr rhs 32 in
  let d := Z.land rhs mask in
  let ac := u64 (a * c) in
  let bc := u64 (b * c) in
  let ad := u64 (a * d) in
  let bd := u64 (b * d) in
  let mid := u64 (Z.shiftr bd 32 + Z.land ad mask + Z.land bc mask + Z.shiftl 1 31) in
  u64 (ac + Z.shiftr ad 32 + Z.shiftr bc 32 + Z.shiftr mid 32).

Definition times (x y : fp) : fp := mkFp (multiply_int128 (f x) (f y)) (e x + e y + 64).

(** [normalize<0>]: subnormals first, then the eleven bits above a double's significand. *)
Fixpoint normalize_loop (fuel : nat) (value : fp) : outcome fp :=
  if Z.land (f value) implicit_bit =? 0 then
    match fuel with
    | O => Err OutOfFuel
    | S fuel => normalize_loop fuel (mkFp (u64 (Z.shiftl (f value) 1)) (e value - 1))
    end
  else Ok value.
Definition normalize (value : fp) : outcome fp :=
  value ← normalize_loop 64 value;
  let offset := significand_size - double_significand_size - 1 in
  Ok (mkFp (u64 (Z.shiftl (f value) offset)) (e value - offset)).

(** A power of ten with its decimal exponent; [Z.quot] is the division of int. *)
Definition get_cached_power (min_exponent : Z) : outcome (fp * Z) :=
  let shift := 32 in
  let significand := log10_2_significand in
  let index :=
    Z.shiftr ((min_exponent + significand_size - 1) * Z.shiftr significand shift + (Z.shiftl 1 shift - 1)) 32 in
  let first_dec_exp := -348 in
  let dec_exp_step := 8 in
  let index := Z.quot (index - first_dec_exp - 1) dec_exp_step + 1 in
  c ← read_at index grisu_pow10_significands;
  b ← read_at index grisu_pow10_exponents;
  Ok (mkFp c b, first_dec_exp + index * dec_exp_step).

(** ** Rounding under an error *)
Inductive round_direction := unknown | up | down.
#[export] Instance round_direction_eq_dec : EqDecision round_direction.
Proof. solve_decision. Defined.

Definition get_round_direction (divisor remainder error : Z) : outcome round_direction :=
  _ ← assert_ (remainder <? divisor);
  _ ← assert_ (error <? divisor);
  _ ← assert_ (error <? u64 (divisor - error));
  Ok (if (remainder <=? u64 (divisor - remainder)) && (u64 (error * 2) <=? u64 (divisor - u64 (remainder * 2))) then down
      else if (error <=? remainder) && (u64 (divisor - u64 (remainder - error)) <=? u64 (remainder - error)) then up
      else unknown).

(** ** The digits *)
Inductive digits_result := more | done_ | error_.

(** The size is the length of [h_buf]. *)
Record fixed_handler := mkHandler { h_buf : list Z; h_precision : Z; h_exp10 : Z; h_fixed : bool }.
Definition h_size (h : fixed_handler) : Z := zlen (h_buf h).

Definition on_start (divisor remainder error exp : Z) (h : fixed_handler) : outcome (digits_result * fixed_handler) :=
  if negb (h_fixed h) then Ok (more, h)
  else
    let precision := h_precision h + (exp + h_exp10 h) in
    let h := mkHandler (h_buf h) precision (h_exp10 h) (h_fixed h) in
    if 0 <? precision then Ok (more, h)
    else if precision <? 0 then Ok (done_, h)
    else
      dir ← get_round_direction divisor remainder error;
      match dir with
      | unknown => Ok (error_, h)
      | up => Ok (done_, mkHandler (h_buf h ++ [49]) precision (h_exp10 h) (h_fixed h))
      | down => Ok (done_, mkHandler (h_buf h ++ [48]) precision (h_exp10 h) (h_fixed h))
      end.

(** One is added to the last digit; the carry may reach the first. *)
Definition round_up (buf : list Z) (h : fixed_handler) : outcome fixed_handler :=
  match reverse buf with
  | [] => Err OutOfRange
  | c :: before =>
      match reverse (carry (c + 1) before) with
      | [] => Err OutOfRange
      | c :: rest =>
          if 57 <? c then
            if h_fixed h then Ok (mkHandler (49 :: rest ++ [48]) (h_precision h) (h_exp10 h) (h_fixed h))
            else Ok (mkHandler (49 :: rest) (h_precision h) (h_exp10 h + 1) (h_fixed h))
          else Ok (mkHandler (c :: rest) (h_precision h) (h_exp10 h) (h_fixed h))
      end
  end.

Definition on_digit (digit divisor remainder error : Z) (integral : bool) (h : fixed_handler) :
    outcome (digits_result * fixed_handler) :=
  _ ← assert_ (remainder <? divisor);
  let h := mkHandler (h_buf h ++ [digit]) (h_precision h) (h_exp10 h) (h_fixed h) in
  if negb integral && (remainder <=? error) then Ok (error_, h)
  else if h_size h <? h_precision h then Ok (more, h)
  else if negb integral && ((divisor <=? error) || (u64 (divisor - error) <=? error)) then Ok (error_, h)
  else
    _ ← (if integral then assert_ ((error =? 1) && (2 <? divisor)) else Ok tt);
    dir ← get_round_direction divisor remainder error;
    match dir with
    | down => Ok (done_, h)
    | unknown => Ok (error_, h)
    | up => h ← round_up (h_buf h) h; Ok (done_, h)
    end.

(** The switch: the divisor for the next of [exp] digits. *)
Definition divisor_for (exp : Z) : outcome Z :=
  match exp with
  | 10 => Ok 1000000000 | 9 => Ok 100000000 | 8 => Ok 10000000 | 7 => Ok 1000000 | 6 => Ok 100000
  | 5 => Ok 10000 | 4 => Ok 1000 | 3 => Ok 100 | 2 => Ok 10 | 1 => Ok 1
  | _ => Err AssertFailed
  end.

(** What the generator returns: the result, the handler, and [exp]. *)
Abbreviation generated := (digits_result * fixed_handler * Z)%type.

Fixpoint fractional_loop (fuel : nat) (shift fractional error exp : Z) (h : fixed_handler) : outcome generated :=
  match fuel with
  | O => Err OutOfFuel
  | S fuel =>
      let fractional := u64 (fractional * 10) in
      let error := u64 (error * 10) in
      let digit := 48 + Z.shiftr fractional shift in
      let fractional := Z.land fractional (Z.shiftl 1 shift - 1) in
      let exp := exp - 1 in
      '(result, h) ← on_digit digit (Z.shiftl 1 shift) fractional error false h;
      match result with
      | more => fractional_loop fuel shift fractional error exp h
      | _ => Ok (result, h, exp)
      end
  end.

(** At most ten digits before the point and twenty behind it; [shift] is [-value.e]. *)
Fixpoint integral_loop (fuel : nat) (shift integral fractional error exp : Z) (h : fixed_handler) : outcome generated :=
  match fuel with
  | O => Err OutOfFuel
  | S fuel =>
      divisor ← divisor_for exp;
      let digit := integral / divisor in
      let integral := integral mod divisor in
      let exp := exp - 1 in
      let remainder := u64 (u64 (Z.shiftl integral shift) + fractional) in
      power ← read_at exp powers_of_10_64;
      '(result, h) ← on_digit (48 + digit) (u64 (Z.shiftl power shift)) remainder error true h;
      match result with
      | more =>
          if 0 <? exp then integral_loop fuel shift integral fractional error exp h
          else fractional_loop 20 shift fractional error exp h
      | _ => Ok (result, h, exp)
      end
  end.

Definition grisu_gen_digits (value : fp) (error : Z) (h : fixed_handler) : outcome generated :=
  let shift := - e value in
  let integral := u32 (Z.shiftr (f value) shift) in
  _ ← assert_ (negb (integral =? 0));
  _ ← assert_ (integral =? Z.shiftr (f value) shift);
  let fractional := Z.land (f value) (Z.shiftl 1 shift - 1) in
  exp ← count_digits uint32 integral;
  power ← read_at (exp - 1) powers_of_10_64;
  '(result, h) ← on_start (u64 (Z.shiftl power shift)) (f value / 10) (u64 (error * 10)) exp h;
  match result with
  | more => integral_loop 10 shift integral fractional error exp h
  | _ => Ok (result, h, exp)
  end.

(** ** format_float, for a precision that is given *)
Fixpoint strip_zeros (rev_buf : list Z) (exp : Z) : list Z * Z :=
  match rev_buf with
  | 48 :: rev_buf => strip_zeros rev_buf (exp + 1)
  | _ => (rev_buf, exp)
  end.

(** [d] are the bits of a number that is not negative, of a float when [binary32] holds and of a
    double otherwise.  The code has promoted a float to a double when it gets here, which normalises
    to the same number ([normalize_same]). *)
Definition format_float (d : Z) (binary32 fixed showpoint : bool) (precision : Z) : outcome (list Z * Z) :=
  if d =? 0 then
    if (precision <=? 0) || negb fixed then Ok ([48], 0) else Ok (replicate (Z.to_nat precision) 48, - precision)
  else
    let min_exp := -60 in
    normalized ← normalize (assign_float binary32 d).1;
    '(cached_pow, cached_exp10) ← get_cached_power (min_exp - (e normalized + significand_size));
    let normalized := times normalized cached_pow in
    let max_double_digits := 767 in
    let precision := if max_double_digits <? precision then max_double_digits else precision in
    '(result, handler, exp) ← grisu_gen_digits normalized 1 (mkHandler [] precision (- cached_exp10) fixed);
    '(buf, exp) ←
      match result with
      | error_ => fallback_format d (h_precision handler) binary32 (exp + h_size handler - cached_exp10 - 1)
      | _ => Ok (h_buf handler, exp + h_exp10 handler)
      end;
    if negb fixed && negb showpoint
    then let '(rev_buf, exp) := strip_zeros (reverse buf) exp in Ok (reverse rev_buf, exp)
    else Ok (buf, exp).

(** ** Products *)

(** lhs * rhs / 2^64 rounded half up. *)
Definition rounded_product (lhs rhs : Z) : Z := (lhs * rhs + 2 ^ 63) / 2 ^ 64.

(** The top bit of a number. *)
Lemma land_top x k : 0 ≤ k → 0 ≤ x < 2 ^ (k + 1) → (Z.land x (2 ^ k) =? 0) = negb (2 ^ k <=? x).
Proof.
  intros Hk Hx. rewrite land_pow2 by lia. rewrite Z.pow_add_r in Hx by lia. assert (Hp : 0 < 2 ^ k) by (apply Z.pow_pos_nonneg; lia).
  assert (Ht : Z.testbit x k = (2 ^ k <=? x)).
  { apply eq_true_iff_eq. rewrite Z.testbit_true, Z.leb_le by lia. destruct (Z.le_gt_cases (2 ^ k) x) as [Hge|Hlt].
    - assert (x / 2 ^ k = 1) as ->; [|done]. symmetry. apply (Z.div_unique_pos _ _ _ (x - 2 ^ k)); lia.
    - rewrite Z.div_small by lia. split; [done|lia]. }
  rewrite Ht. destruct (2 ^ k <=? x); simpl; [|done]. apply Z.eqb_neq. lia.
Qed.

Lemma multiply_int128_ok lhs rhs : in_u 64 lhs → in_u 64 rhs → multiply_int128 lhs rhs = rounded_product lhs rhs.
Proof.
  unfold in_u, multiply_int128, rounded_product. intros Hl Hr. rewrite (wrapu_small 128) by (unfold in_u; nia).
  set (p := lhs * rhs). assert (Hp : 0 ≤ p ≤ (2 ^ 64 - 1) * (2 ^ 64 - 1)) by (unfold p; nia). clearbody p. clear Hl Hr.
  rewrite Z.shiftr_div_pow2, Z.shiftl_mul_pow2, Z.mul_1_l by lia.
  pose proof (Z_div_mod_eq_full p (2 ^ 64)) as Hd. pose proof (Z.mod_pos_bound p (2 ^ 64) ltac:(lia)) as Hm.
  change (u64 p) with (p mod 2 ^ 64). set (hi := p / 2 ^ 64) in *. set (lo := p mod 2 ^ 64) in *.
  assert (Hhi : 0 ≤ hi ≤ 2 ^ 64 - 2) by lia. rewrite (u64_small hi) by lia. rewrite land_top, negb_involutive by (simpl; lia).
  destruct (Z.leb_spec (2 ^ 63) lo); simpl.
  - rewrite u64_small by lia. apply (Z.div_unique_pos _ _ _ (lo - 2 ^ 63)); lia.
  - apply (Z.div_unique_pos _ _ _ (lo + 2 ^ 63)); lia.
Qed.

(** Without 128-bit integers the product is the same. *)
Lemma multiply_parts_ok lhs rhs : in_u 64 lhs → in_u 64 rhs → multiply_parts lhs rhs = rounded_product lhs rhs.
Proof.
  intros Hl Hr. unfold multiply_parts, rounded_product. change (Z.shiftl 1 32 - 1) with mask. rewrite !land_mask, !Z.shiftr_div_pow2 by lia.
  pose proof (split32 lhs) as Sl. pose proof (split32 rhs) as Sr. rewrite shiftr32 in Sl, Sr.
  pose proof (high_range lhs Hl) as Ha. pose proof (high_range rhs Hr) as Hc. pose proof (u32_range lhs) as Hb. pose proof (u32_range rhs) as Hd.
  set (a := lhs / 2 ^ 32) in *. set (b := u32 lhs) in *. set (c := rhs / 2 ^ 32) in *. set (d := u32 rhs) in *.
  assert (Hprod : ∀ x y, in_u 32 x → in_u 32 y → u64 (x * y) = x * y ∧ 0 ≤ x * y / 2 ^ 32 ≤ 2 ^ 32 - 2 ∧ x * y = u32 (x * y) + 2 ^ 32 * (x * y / 2 ^ 32)).
  { unfold in_u. intros x y Hx Hy. pose proof (split32 (x * y)) as Hs. rewrite shiftr32 in Hs. split_and!; [apply u64_small; nia|apply Z.div_pos; nia| |lia].
    assert (x * y / 2 ^ 32 < 2 ^ 32 - 1); [|lia]. apply Z.div_lt_upper_bound; nia. }
  destruct (Hprod a c Ha Hc) as (-> & Rac & Eac). destruct (Hprod b c Hb Hc) as (-> & Rbc & Ebc).
  destruct (Hprod a d Ha Hd) as (-> & Rad & Ead). destruct (Hprod b d Hb Hd) as (-> & Rbd & Ebd).
  pose proof (u32_range (b * c)) as Ubc. pose proof (u32_range (a * d)) as Uad. pose proof (u32_range (b * d)) as Ubd.
  unfold in_u in Ubc, Uad, Ubd. rewrite Z.shiftl_mul_pow2, Z.mul_1_l by lia.
  set (mid := b * d / 2 ^ 32 + u32 (a * d) + u32 (b * c) + 2 ^ 31). rewrite (u64_small mid) by (unfold mid; lia).
  pose proof (split32 mid) as Smid. rewrite shiftr32 in Smid. pose proof (u32_range mid) as Umid. unfold in_u in Umid.
  assert (Hsum : lhs * rhs = a * c * 2 ^ 64 + (a * d + b * c) * 2 ^ 32 + b * d) by (rewrite <- Sl, <- Sr; ring).
  assert (Hq : (lhs * rhs + 2 ^ 63) / 2 ^ 64 = a * c + a * d / 2 ^ 32 + b * c / 2 ^ 32 + mid / 2 ^ 32).
  { symmetry. apply (Z.div_unique_pos _ _ _ (2 ^ 32 * u32 mid + u32 (b * d))); [lia|]. unfold mid in *. lia. }
  assert (Hub : 0 ≤ (lhs * rhs + 2 ^ 63) / 2 ^ 64 < 2 ^ 64).
  { unfold in_u in Hl, Hr. split; [apply Z.div_pos; nia|apply Z.div_lt_upper_bound; nia]. }
  rewrite Hq in *. by apply u64_small.
Qed.

(** The product without 128-bit integers is the one with them. *)
Theorem multiply_same lhs rhs : in_u 64 lhs → in_u 64 rhs → multiply_parts lhs rhs = multiply_int128 lhs rhs.
Proof. intros. by rewrite multiply_parts_ok, multiply_int128_ok. Qed.

(** ** Normalisation *)
Lemma normalize_loop_ok (fuel : nat) v : 0 < f v < 2 ^ 53 → 2 ^ 52 ≤ f v * 2 ^ Z.of_nat fuel →
  ∃ k, normalize_loop fuel v = Ok (mkFp (f v * 2 ^ k) (e v - k)) ∧ 0 ≤ k ≤ Z.of_nat fuel ∧ 2 ^ 52 ≤ f v * 2 ^ k < 2 ^ 53.
Proof.
  revert v. induction fuel as [|fuel IH]; intros v Hf Hfuel; cbn [normalize_loop]; change implicit_bit with (2 ^ 52);
    rewrite land_top by (simpl; lia); destruct (Z.leb_spec (2 ^ 52) (f v)) as [Hge|Hlt]; cbn [negb].
  1, 3: exists 0; rewrite Z.mul_1_r, Z.sub_0_r; destruct v; simpl in *; split_and!; try done; lia.
  - simpl in Hfuel. lia.
  - rewrite Z.shiftl_mul_pow2, u64_small by lia. change (2 ^ 1) with 2.
    destruct (IH (mkFp (f v * 2) (e v - 1))) as (k & -> & Hk & Hr); cbn [f e] in *; [lia| |].
    { replace (Z.of_nat (S fuel)) with (1 + Z.of_nat fuel) in Hfuel by lia. rewrite Z.pow_add_r in Hfuel by lia. lia. }
    exists (k + 1). rewrite Z.pow_add_r by lia. change (2 ^ 1) with 2. split_and!; try lia. f_equal. f_equal; lia.
Qed.

Lemma normalize_ok v : 0 < f v < 2 ^ 53 →
  ∃ k, normalize v = Ok (mkFp (f v * 2 ^ k) (e v - k)) ∧ 0 ≤ k ≤ 75 ∧ 2 ^ 63 ≤ f v * 2 ^ k < 2 ^ 64.
Proof.
  intros Hf. unfold normalize. destruct (normalize_loop_ok 64 v Hf) as (k & -> & Hk & Hr); [simpl; lia|]. ok_simpl. cbn [f e].
  change (significand_size - double_significand_size - 1) with 11. exists (k + 11). rewrite Z.shiftl_mul_pow2, u64_small by lia.
  rewrite Z.pow_add_r by lia. split_and!; try lia. f_equal. f_equal; lia.
Qed.

Lemma pow2_window a i j : 0 < a → 0 ≤ i → 0 ≤ j → 2 ^ 63 ≤ a * 2 ^ i < 2 ^ 64 → 2 ^ 63 ≤ a * 2 ^ j < 2 ^ 64 → i = j.
Proof.
  intros Ha. assert (Hle : ∀ i j, 0 ≤ i → 2 ^ 63 ≤ a * 2 ^ i → a * 2 ^ j < 2 ^ 64 → j ≤ i).
  { intros i' j' Hi H1 H2. destruct (Z.le_gt_cases j' i') as [|Hgt]; [done|]. assert (2 ^ (i' + 1) ≤ 2 ^ j') by (apply Z.pow_le_mono_r; lia).
    rewrite Z.pow_add_r in H by lia. nia. }
  intros Hi Hj [H1 H2] [H3 H4]. apply Z.le_antisymm; by apply Hle.
Qed.

(** One number has one normal form: a float is normalised as the double it is promoted to. *)
Lemma normalize_same v w k : 0 < f v → 0 ≤ k → f w = f v * 2 ^ k → e w = e v - k → f w < 2 ^ 53 → normalize w = normalize v.
Proof.
  intros Hv Hk Ef Ee Hw. assert (H2 : 0 < 2 ^ k) by (apply Z.pow_pos_nonneg; lia).
  destruct (normalize_ok v) as (i & -> & Hi & Wi); [nia|]. destruct (normalize_ok w) as (j & -> & Hj & Wj); [nia|].
  rewrite Ef, <- Z.mul_assoc, <- Z.pow_add_r in * by lia. rewrite (pow2_window (f v) i (k + j)) by lia. f_equal. f_equal. lia.
Qed.

(** ** The cached powers: within half a unit of the last place, with an exponent in the window *)
Definition accurate (c : fp) (k : Z) : Prop :=
  2 ^ 63 ≤ f c < 2 ^ 64 ∧ Z.abs k ≤ 348 ∧
  2 * Z.abs (f c * 2 ^ Z.max (e c) 0 * 10 ^ Z.max (- k) 0 - 10 ^ Z.max k 0 * 2 ^ Z.max (- e c) 0) ≤ 2 ^ Z.max (e c) 0 * 10 ^ Z.max (- k) 0.
#[export] Instance accurate_dec c k : Decision (accurate c k).
Proof. apply _. Defined.
Definition cached_good (m : Z) (c : fp) (k : Z) : Prop := m ≤ e c ≤ m + 28 ∧ accurate c k.

Definition entry_check (i : Z) : bool :=
  match read_at i grisu_pow10_significands, read_at i grisu_pow10_exponents with
  | Ok c, Ok b => bool_decide (accurate (mkFp c b) (-348 + i * 8))
  | _, _ => false
  end.
Definition window_check (m : Z) : bool :=
  match get_cached_power m with Ok (c, _) => (m <=? e c) && (e c <=? m + 28) | Err _ => false end.

Lemma entries_all : forallb entry_check (seqZ 0 87) = true.
Proof. by vm_compute. Qed.
Lemma windows_all : forallb window_check (seqZ (-1084) 2098) = true.
Proof. by vm_compute. Qed.

Lemma get_cached_power_entry m c k : get_cached_power m = Ok (c, k) → accurate c k.
Proof.
  unfold get_cached_power. cbv zeta. set (i := Z.quot _ _ + 1). clearbody i. intros E.
  assert (Hi : 0 ≤ i < 87 ∨ read_at i grisu_pow10_significands = Err OutOfRange).
  { unfold read_at. destruct (Z.leb_spec 0 i); [|by right]. destruct (Z.lt_ge_cases i 87); [by left|right].
    rewrite lookup_ge_None_2; [done|]. change (length grisu_pow10_significands) with 87%nat. lia. }
  destruct Hi as [Hi|Hi]; [|by rewrite Hi in E].
  pose proof (forallb_seqZ _ _ i entries_all Hi) as Hc. unfold entry_check in Hc.
  destruct (read_at i grisu_pow10_significands) as [c0|]; [|done]. destruct (read_at i grisu_pow10_exponents) as [b|]; [|done].
  cbn in E. injection E as <- <-. by apply bool_decide_eq_true in Hc.
Qed.

(** For every exponent that the numbers of type double lead to. *)
Lemma get_cached_power_ok m : -1084 ≤ m ≤ 1013 → ∃ c k, get_cached_power m = Ok (c, k) ∧ cached_good m c k.
Proof.
  intros Hm. pose proof windows_all as Hw. rewrite forallb_forall in Hw. specialize (Hw m). unfold window_check in Hw.
  assert (Hin : In m (seqZ (-1084) 2098)) by (apply list_elem_of_In, elem_of_seqZ; lia). specialize (Hw Hin).
  destruct (get_cached_power m) as [[c k]|] eqn:E; [|done]. exists c, k. split; [done|].
  apply andb_true_iff in Hw as [H1%Z.leb_le H2%Z.leb_le]. split; [done|]. by apply get_cached_power_entry in E.
Qed.

(** ** Rounding *)

(** The integer [q] is nearest to [n / d], and no other is. *)
Definition nearest (n d q : Z) : Prop := 2 * Z.abs (q * d - n) < d.

Lemma nearest_round n d q : nearest n d q → round_half_even n d = q.
Proof.
  unfold nearest, round_half_even. intros Hq. pose proof (Z_div_mod_eq_full n d). pose proof (Z.mod_pos_bound n d).
  destruct (Z.ltb_spec (2 * (n mod d)) d); [|destruct (Z.ltb_spec d (2 * (n mod d))); [|case_match]]; nia.
Qed.

(** Whatever the remainder really is, within the error. *)
Lemma round_direction_ok divisor remainder error : in_u 64 divisor → 0 ≤ remainder < divisor → 0 ≤ error → 2 * error < divisor →
  ∃ dir, get_round_direction divisor remainder error = Ok dir ∧ (dir = down → 2 * (remainder + error) ≤ divisor) ∧
    (dir = up → error ≤ remainder ∧ divisor ≤ 2 * (remainder - error)).
Proof.
  unfold in_u. intros Hd Hr He Hlt. unfold get_round_direction. rewrite (assert_true (remainder <? divisor)) by (apply Z.ltb_lt; lia). ok_simpl.
  rewrite (assert_true (error <? divisor)) by (apply Z.ltb_lt; lia). ok_simpl. rewrite (u64_small (divisor - error)) by lia.
  rewrite (assert_true (error <? _)) by (apply Z.ltb_lt; lia). ok_simpl. eexists. split; [reflexivity|].
  rewrite (u64_small (divisor - remainder)), (u64_small (error * 2)) by lia.
  destruct (Z.leb_spec remainder (divisor - remainder)) as [Hh|Hh]; cbn [andb].
  - rewrite (u64_small (remainder * 2)), (u64_small (divisor - _)) by lia.
    destruct (Z.leb_spec (error * 2) (divisor - remainder * 2)); [split; [lia|done]|]. split; [by case_match|].
    destruct (Z.leb_spec error remainder); cbn [andb]; [|done]. rewrite (u64_small (remainder - error)), (u64_small (divisor - _)) by lia.
    case_match eqn:E; [|done]. apply Z.leb_le in E. lia.
  - split; [by case_match|]. destruct (Z.leb_spec error remainder); cbn [andb]; [|done].
    rewrite (u64_small (remainder - error)), (u64_small (divisor - _)) by lia. case_match eqn:E; [|done]. apply Z.leb_le in E. lia.
Qed.

(** ** Digits and the error

    A number [T = Tn / Td] that is not known, and [g] less than one from it. *)
Section digits.
Context (Tn Td g : Z) (HTd : 0 < Td) (Hg : Z.abs (g * Td - Tn) < Td).

(** With [M g = D U + R], rounding up or down is sound. *)
Lemma down_ok M U D R : 0 < M → 0 < U → 2 * M < U → 0 ≤ R → g * M = D * U + R → 2 * (R + M) ≤ U → nearest (Tn * M) (Td * U) D.
Proof.
  intros HM HU HMU HR E Hle. unfold nearest. assert (Hd : D * (Td * U) - Tn * M = M * (g * Td - Tn) - R * Td) by (transitivity (D * U * Td - Tn * M); [ring|]; replace (D * U) with (g * M - R) by lia; ring).
  rewrite Hd. assert (M * Z.abs (g * Td - Tn) < M * Td) by nia. rewrite <- (Z.abs_eq M) in H at 1 by lia. rewrite <- Z.abs_mul in H.
  assert (0 ≤ R * Td) by nia. assert ((2 * (R + M)) * Td ≤ U * Td) by nia. lia.
Qed.
Lemma up_ok M U D R : 0 < M → 0 < U → 2 * M < U → R < U → g * M = D * U + R → M ≤ R → U ≤ 2 * (R - M) → nearest (Tn * M) (Td * U) (D + 1).
Proof.
  intros HM HU HMU HR E HMR Hle. unfold nearest.
  assert (Hd : (D + 1) * (Td * U) - Tn * M = M * (g * Td - Tn) + (U - R) * Td) by (transitivity (D * U * Td + U * Td - Tn * M); [ring|]; replace (D * U) with (g * M - R) by lia; ring).
  rewrite Hd. assert (M * Z.abs (g * Td - Tn) < M * Td) by nia. rewrite <- (Z.abs_eq M) in H at 1 by lia. rewrite <- Z.abs_mul in H.
  assert (0 ≤ (U - R) * Td) by nia. assert (U * Td ≤ 2 * (R - M) * Td) by nia. lia.
Qed.
End digits.

(** The handler of a result: precision and format are kept, and its digits stand for [D] units. *)
Record round_result (h h' : fixed_handler) (n D : Z) : Prop := {
  rr_precision : h_precision h' = h_precision h;
  rr_fixed : h_fixed h' = h_fixed h;
  rr_chars : digit_chars (h_buf h');
  rr_exp10 : h_exp10 h ≤ h_exp10 h';
  rr_size : h_fixed h = false → h_size h' = n;
  rr_value : to_num (h_buf h') * 10 ^ (h_exp10 h' - h_exp10 h) = D }.

Lemma zeros_chars k : digit_chars (replicate k 48).
Proof. by apply Forall_replicate. Qed.

Lemma round_up_ok buf c h : digit_chars buf → 48 ≤ c ≤ 57 →
  ∃ h', round_up (buf ++ [c]) h = Ok h' ∧ round_result h h' (zlen buf + 1) (to_num (buf ++ [c]) + 1).
Proof.
  intros Hb Hc. unfold round_up. rewrite reverse_app. change (reverse [c]) with [c]. cbn [app].
  destruct (carry_spec (c + 1) (reverse buf)) as (En & El & Hs); [lia|by apply Forall_reverse|].
  rewrite reverse_cons, reverse_involutive, to_num_snoc in En. set (l := carry (c + 1) (reverse buf)) in *. rewrite length_reverse in El.
  assert (Hlen : zlen (reverse l) = zlen buf + 1) by (unfold zlen; rewrite length_reverse; lia). rewrite to_num_snoc.
  destruct Hs as [Hs|[k Hs]].
  - assert (Hrl : digit_chars (reverse l)) by by apply Forall_reverse.
    destruct (reverse l) as [|c' rest] eqn:E; [rewrite zlen_nil in Hlen; pose proof (zlen_nonneg buf); lia|].
    pose proof (proj1 (proj1 (Forall_cons _ _ _) Hrl)) as Hc'. rewrite (proj2 (Z.ltb_ge 57 c')) by lia. eexists. split; [reflexivity|].
    split; cbn [h_precision h_fixed h_buf h_exp10]; try done. rewrite Z.sub_diag, En. lia.
  - rewrite Hs, reverse_app, reverse_replicate in *. change (reverse [58]) with [58] in *. cbn [app] in *. cbn [Z.ltb Z.compare Pos.compare Pos.compare_cont].
    rewrite to_num_zeros in En. rewrite zlen_cons in Hlen. destruct (h_fixed h) eqn:Ef; eexists; (split; [reflexivity|]); split; cbn [h_precision h_fixed h_buf h_exp10]; try done.
    + constructor; [lia|]. apply Forall_app. split; [apply zeros_chars|]. by apply Forall_singleton.
    + by rewrite Ef.
    + rewrite app_comm_cons, to_num_snoc, to_num_zeros, (Z.sub_diag (h_exp10 h)). lia.
    + constructor; [lia|apply zeros_chars].
    + lia.
    + intros _. unfold h_size. cbn [h_buf]. by rewrite zlen_cons.
    + rewrite to_num_zeros. replace (h_exp10 h + 1 - h_exp10 h) with 1 by lia. lia.
Qed.

(** ** The handler *)
Section handler.
Context (Tn Td g : Z) (HTd : 0 < Td) (Hg : Z.abs (g * Td - Tn) < Td).

(** One digit: [g M = (10 buf + digit) U + R], with the error [M]. *)
Lemma on_digit_ok digit U R M integral h :
  digit_chars (h_buf h) → 0 ≤ digit ≤ 9 → 0 ≤ R < U → U < 2 ^ 64 → 0 < M < 2 ^ 64 → (integral = true → M = 1 ∧ 2 < U) →
  let buf := h_buf h ++ [48 + digit] in
  g * M = to_num buf * U + R →
  ∃ res h', on_digit (48 + digit) U R M integral h = Ok (res, h') ∧
    match res with
    | more => h' = mkHandler buf (h_precision h) (h_exp10 h) (h_fixed h) ∧ zlen buf < h_precision h ∧ (integral = false → M < R)
    | error_ => h_precision h' = h_precision h ∧ h_size h' = zlen buf
    | done_ => h_precision h ≤ zlen buf ∧ round_result h h' (zlen buf) (round_half_even (Tn * M) (Td * U))
    end.
Proof.
  intros Hb Hd HR HU HM Hint buf E. unfold on_digit. rewrite (assert_true (R <? U)) by (apply Z.ltb_lt; lia). ok_simpl. fold buf. cbv zeta.
  set (h1 := mkHandler buf _ _ _). destruct (negb integral && (R <=? M)) eqn:E1.
  { exists error_, h1. by split_and!. }
  destruct (Z.ltb_spec (h_size h1) (h_precision h1)) as [Hmore|Hstop].
  { exists more, h1. split_and!; try done. intros ->. apply Z.leb_gt in E1. lia. }
  destruct (negb integral && ((U <=? M) || (u64 (U - M) <=? M))) eqn:E2.
  { exists error_, h1. by split_and!. }
  assert (HMU : 2 * M < U).
  { destruct integral; [destruct Hint; lia|]. cbn [negb andb] in *. apply Z.leb_gt in E1. apply orb_false_iff in E2 as [E2 E3].
    rewrite u64_small in E3 by lia. apply Z.leb_gt in E3. lia. }
  assert (Ha : (if integral then assert_ ((M =? 1) && (2 <? U)) else Ok tt) = Ok tt).
  { destruct integral; [|done]. destruct Hint as [-> H2]; [done|]. apply assert_true. by rewrite (proj2 (Z.ltb_lt _ _)). }
  rewrite Ha. ok_simpl. destruct (round_direction_ok U R M) as (dir & -> & Hdown & Hup); [unfold in_u; lia|lia|lia|lia|]. ok_simpl.
  destruct dir; [by exists error_, h1|..].
  - specialize (Hup eq_refl). destruct (round_up_ok (h_buf h) (48 + digit) h1) as (h' & Eh & Hr); [done|lia|]. change (h_buf h1) with buf. unfold buf at 1. rewrite Eh. ok_simpl.
    exists done_, h'. split_and!; [done|done|]. rewrite (nearest_round _ _ (to_num buf + 1)) by (apply (up_ok Tn Td g HTd Hg M U (to_num buf) R); lia).
    destruct Hr as [H1 H2 H3 H4 H5 H6]. split; try done. intros Hf. rewrite (H5 Hf). unfold buf. by rewrite zlen_app.
  - specialize (Hdown eq_refl). exists done_, h1. split_and!; [done|done|]. rewrite (nearest_round _ _ (to_num buf)) by (apply (down_ok Tn Td g HTd Hg M U (to_num buf) R); lia).
    split; try done; cbn [h_buf h1 h_exp10].
    + apply Forall_app. split; [done|]. apply Forall_singleton. lia.
    + rewrite Z.sub_diag. lia.
Qed.

(** *** The generator

    [kappa] digits stand before the point of [g / 2^s]. *)
Context (s kappa : Z) (Hs : 32 ≤ s ≤ 60) (Hk : 1 ≤ kappa ≤ 10) (Hlow : 10 ^ (kappa - 1) * 2 ^ s ≤ g) (Hhigh : g < 10 ^ kappa * 2 ^ s) (Hg64 : g < 2 ^ 64).

(** The number in units of [10 ^ exp], rounded. *)
Definition rounded (exp : Z) : Z := round_half_even (Tn * 10 ^ Z.max (- exp) 0) (Td * (10 ^ Z.max exp 0 * 2 ^ s)).

Definition generated_ok (h : fixed_handler) (r : generated) : Prop :=
  let '(res, h', exp) := r in
  match res with
  | more => False
  | done_ => exp = kappa - h_precision h ∧ round_result h h' (h_precision h) (rounded exp)
  | error_ => h_precision h' = h_precision h ∧ exp + h_size h' = kappa ∧ 0 ≤ h_precision h
  end.

(** The digits before [exp], and what is left of [g]. *)
Record digits_so_far (h : fixed_handler) (exp R : Z) : Prop := {
  ds_chars : digit_chars (h_buf h);
  ds_size : h_size h = kappa - exp;
  ds_more : h_size h < h_precision h;
  ds_left : g * 10 ^ Z.max (- exp) 0 = to_num (h_buf h) * (10 ^ Z.max exp 0 * 2 ^ s) + R }.

(** A digit in the units of [exp], before the point or behind it. *)
Lemma digit_step h exp digit U R M integral :
  digit_chars (h_buf h) → h_size h = kappa - (exp + 1) → h_size h < h_precision h → 0 ≤ digit ≤ 9 → 0 ≤ R < U →
  U = 10 ^ Z.max exp 0 * 2 ^ s → U < 2 ^ 64 → M = 10 ^ Z.max (- exp) 0 → M < 2 ^ 64 → (integral = true → 0 ≤ exp) →
  g * M = (10 * to_num (h_buf h) + digit) * U + R →
  ∃ res h', on_digit (48 + digit) U R M integral h = Ok (res, h') ∧
    (res = more → digits_so_far h' exp R ∧ (integral = false → M < R) ∧ ∀ r, generated_ok h' r → generated_ok h r) ∧
    (res ≠ more → generated_ok h (res, h', exp)).
Proof.
  intros Hb Hsize Hmore Hd HR EU HU EM HM Hint E.
  assert (H2s : 2 ^ 32 ≤ 2 ^ s) by (apply Z.pow_le_mono_r; lia).
  assert (HM0 : 0 < M) by (rewrite EM; apply Z.pow_pos_nonneg; lia).
  set (buf := h_buf h ++ [48 + digit]). assert (Hbuf : zlen buf = kappa - exp) by (unfold buf, h_size in *; rewrite zlen_app; change (zlen [_]) with 1; lia).
  assert (Hnum : to_num buf = 10 * to_num (h_buf h) + digit) by (unfold buf; rewrite to_num_snoc; lia).
  destruct (on_digit_ok digit U R M integral h) as (res & h' & -> & Hres); try done.
  { intros Hi. specialize (Hint Hi). rewrite Z.max_r in EM by lia. rewrite Z.max_l in EU by lia. pose proof (Z.pow_pos_nonneg 10 exp). rewrite EM, EU. nia. }
  { fold buf. by rewrite Hnum. }
  fold buf in Hres. exists res, h'. split; [done|]. destruct res; (split; [intros Hm|intros Hm]; try done); clear Hm.
  - destruct Hres as (-> & Hsz & HMR). split_and!; [|done|].
    + split; cbn [h_buf h_precision]; [|done|done|].
      * apply Forall_app. split; [done|]. apply Forall_singleton. lia.
      * by rewrite <- EM, <- EU, Hnum.
    + intros [[[] ?] ?]; [done| |done]. by intros [? []].
  - destruct Hres as [Hsz Hr]. assert (Hp : zlen buf = h_precision h) by (unfold buf, h_size in *; rewrite zlen_app in *; change (zlen [_]) with 1 in *; lia).
    split; [lia|]. unfold rounded. by rewrite <- EM, <- EU, <- Hp.
  - destruct Hres as [Hp Hsz]. pose proof (zlen_nonneg (h_buf h) : 0 ≤ h_size h). split_and!; [done|rewrite Hsz; lia|lia].
Qed.

(** Behind the point: the error grows with the digits until it reaches what is left. *)
Lemma fractional_loop_ok (fuel : nat) fractional exp h : digits_so_far h exp fractional → -18 ≤ exp ≤ 0 → 20 + exp ≤ Z.of_nat fuel →
  0 ≤ fractional < 2 ^ s → exp = 0 ∨ 10 ^ (- exp) < fractional →
  ∃ r, fractional_loop fuel s fractional (10 ^ (- exp)) exp h = Ok r ∧ generated_ok h r.
Proof.
  revert fractional exp h. induction fuel as [|fuel IH]; intros F exp h [Hc Hsz Hm Hl] He Hf HF Herr; [lia|]. cbn [fractional_loop].
  assert (H2s : 2 ^ 32 ≤ 2 ^ s ≤ 2 ^ 60) by (split; apply Z.pow_le_mono_r; lia).
  assert (E10 : 10 ^ (- exp) * 10 = 10 ^ (- (exp - 1))) by (replace (- (exp - 1)) with (- exp + 1) by lia; by rewrite Z.pow_add_r by lia).
  assert (Hb10 : 0 < 10 ^ (- (exp - 1)) ≤ 10 ^ 19) by (split; [apply Z.pow_pos_nonneg; lia|apply Z.pow_le_mono_r; lia]).
  rewrite (u64_small (F * 10)), (u64_small (_ * 10)), E10 by lia. rewrite Z.shiftr_div_pow2, Z.shiftl_mul_pow2, Z.mul_1_l by lia.
  rewrite Z.sub_1_r, <- Z.ones_equiv, Z.land_ones by lia.
  pose proof (Z_div_mod_eq_full (F * 10) (2 ^ s)) as Hdm. pose proof (Z.mod_pos_bound (F * 10) (2 ^ s) ltac:(lia)) as Hmod.
  assert (Hq : 0 ≤ F * 10 / 2 ^ s ≤ 9) by (split; [apply Z.div_pos; lia|apply Z.lt_succ_r, Z.div_lt_upper_bound; lia]).
  rewrite (Z.max_l (- exp)), (Z.max_r exp), Z.mul_1_l in Hl by lia.
  destruct (digit_step h (exp - 1) (F * 10 / 2 ^ s) (2 ^ s) (F * 10 mod 2 ^ s) (10 ^ (- (exp - 1))) false) as (res & h' & -> & Hmore & Hstop);
    try done; try lia.
  { rewrite Z.max_r by lia. lia. }
  { f_equal. lia. }
  ok_simpl. destruct res; [|eexists; split; [reflexivity|by apply Hstop]..].
  destruct Hmore as (Hd & HMR & Hok); [done|]. specialize (HMR eq_refl).
  assert (He' : -18 ≤ exp - 1).
  { destruct (Z.le_gt_cases (-18) (exp - 1)); [done|]. assert (10 ^ 19 ≤ 10 ^ (- (exp - 1))) by (apply Z.pow_le_mono_r; lia). lia. }
  destruct (IH (F * 10 mod 2 ^ s) (exp - 1) h') as (r & -> & Hr); [done|lia|lia|done|by right|]. exists r. split; [done|by apply Hok].
Qed.

Lemma divisor_for_ok exp : 1 ≤ exp ≤ 10 → divisor_for exp = Ok (10 ^ (exp - 1)).
Proof.
  intros H. assert (Hin : exp ∈ seqZ 1 10) by (apply elem_of_seqZ; lia). revert exp H Hin.
  assert (Hall : Forall (λ exp, divisor_for exp = Ok (10 ^ (exp - 1))) (seqZ 1 10)) by by repeat constructor.
  intros exp _. by rewrite Forall_forall in Hall; apply Hall.
Qed.

Lemma powers_of_10_64_ok exp : 0 ≤ exp ≤ 19 → read_at exp powers_of_10_64 = Ok (10 ^ exp).
Proof.
  intros H. assert (Hin : exp ∈ seqZ 0 20) by (apply elem_of_seqZ; lia). revert exp H Hin.
  assert (Hall : Forall (λ exp, read_at exp powers_of_10_64 = Ok (10 ^ exp)) (seqZ 0 20)) by by repeat constructor.
  intros exp _. by rewrite Forall_forall in Hall; apply Hall.
Qed.

(** Before the point. *)
Lemma integral_loop_ok (fuel : nat) integral fractional exp h : digits_so_far h exp (integral * 2 ^ s + fractional) →
  1 ≤ exp ≤ kappa → exp ≤ Z.of_nat fuel → 0 ≤ integral < 10 ^ exp → 0 ≤ fractional < 2 ^ s →
  ∃ r, integral_loop fuel s integral fractional 1 exp h = Ok r ∧ generated_ok h r.
Proof.
  revert integral exp h. induction fuel as [|fuel IH]; intros I exp h [Hc Hsz Hm Hl] He Hf HI HF; [lia|]. cbn [integral_loop].
  rewrite divisor_for_ok by lia. ok_simpl. rewrite powers_of_10_64_ok by lia. ok_simpl.
  assert (H10 : 0 < 10 ^ (exp - 1)) by (apply Z.pow_pos_nonneg; lia). assert (H2s : 2 ^ 32 ≤ 2 ^ s) by (apply Z.pow_le_mono_r; lia).
  assert (HU : 10 ^ (exp - 1) * 2 ^ s < 2 ^ 64) by (assert (10 ^ (exp - 1) ≤ 10 ^ (kappa - 1)) by (apply Z.pow_le_mono_r; lia); nia).
  assert (E10 : 10 ^ exp = 10 * 10 ^ (exp - 1)) by (rewrite <- (Z.pow_add_r 10 1) by lia; f_equal; lia).
  pose proof (Z_div_mod_eq_full I (10 ^ (exp - 1))) as Hdm. pose proof (Z.mod_pos_bound I (10 ^ (exp - 1)) H10) as Hmod.
  assert (Hq : 0 ≤ I / 10 ^ (exp - 1) ≤ 9) by (split; [apply Z.div_pos; lia|apply Z.lt_succ_r, Z.div_lt_upper_bound; lia]).
  rewrite (Z.max_r (- exp)), (Z.max_l exp), E10, Z.mul_1_r in Hl by lia.
  set (p := 10 ^ (exp - 1)) in *. set (q := I / p) in *. set (I' := I mod p) in *. rewrite !Z.shiftl_mul_pow2 by lia.
  assert (HR : 0 ≤ I' * 2 ^ s + fractional < p * 2 ^ s) by nia.
  rewrite (u64_small (p * 2 ^ s)), (u64_small (I' * 2 ^ s)), (u64_small (_ + fractional)) by nia.
  destruct (digit_step h (exp - 1) q (p * 2 ^ s) (I' * 2 ^ s + fractional) 1 true) as (res & h' & -> & Hmore & Hstop); try done; try lia.
  { by rewrite Z.max_l by lia. }
  { by rewrite Z.max_r by lia. }
  ok_simpl. destruct res; [|eexists; split; [reflexivity|by apply Hstop]..].
  destruct Hmore as (Hd & _ & Hok); [done|]. destruct (Z.ltb_spec 0 (exp - 1)).
  - destruct (IH I' (exp - 1) h') as (r & -> & Hr); [done|lia|lia|done|done|]. exists r. split; [done|by apply Hok].
  - assert (exp = 1) as -> by lia. change (1 - 1) with 0 in *. change 1 with (10 ^ (- 0)) at 1.
    destruct (fractional_loop_ok 20 fractional 0 h') as (r & -> & Hr); [|lia|lia|done|by left|exists r; split; [done|by apply Hok]].
    change p with 1 in Hmod. replace (I' * 2 ^ s + fractional) with fractional in Hd by lia. done.
Qed.

(** The start of a fixed format: no digits, one digit, or the precision to generate. *)
Lemma on_start_ok p x10 fixed : (fixed = false → 0 < p) →
  let h0 := mkHandler [] (if fixed then p + (kappa + x10) else p) x10 fixed in
  ∃ res h', on_start (10 ^ (kappa - 1) * 2 ^ s) (g / 10) 10 kappa (mkHandler [] p x10 fixed) = Ok (res, h') ∧
    match res with
    | more => h' = h0 ∧ 0 < h_precision h0
    | _ => fixed = true ∧ ((h_precision h0 < 0 ∧ res = done_ ∧ h' = h0) ∨ (h_precision h0 = 0 ∧ generated_ok h0 (res, h', kappa)))
    end.
Proof.
  intros Hp h0. unfold on_start. cbn [h_fixed h_precision h_exp10 h_buf]. destruct fixed; cbn [negb].
  2: { exists more, h0. split_and!; [done|done|by apply Hp]. }
  fold h0. subst h0. cbn [h_precision]. cbv iota zeta. set (q := p + (kappa + x10)). set (h0 := mkHandler [] q x10 true).
  destruct (Z.ltb_spec 0 q); [by exists more, h0|]. destruct (Z.ltb_spec q 0); [exists done_, h0; split; [done|]; split; [done|by left]|].
  assert (q = 0) as Hq by lia. assert (H2s : 2 ^ 32 ≤ 2 ^ s) by (apply Z.pow_le_mono_r; lia).
  assert (E10 : 10 ^ kappa = 10 * 10 ^ (kappa - 1)) by (rewrite <- (Z.pow_add_r 10 1) by lia; f_equal; lia).
  assert (H10 : 0 < 10 ^ (kappa - 1)) by (apply Z.pow_pos_nonneg; lia).
  pose proof (Z_div_mod_eq_full g 10) as Hdm. pose proof (Z.mod_pos_bound g 10 ltac:(lia)) as Hmod.
  set (U := 10 ^ (kappa - 1) * 2 ^ s) in *. assert (HU : 2 ^ 32 ≤ U) by (unfold U; nia).
  assert (EU : 10 ^ kappa * 2 ^ s = 10 * U) by (unfold U; lia). rewrite EU in Hhigh.
  destruct (round_direction_ok U (g / 10) 10) as (dir & -> & Hdown & Hup); [unfold in_u; lia|lia|lia|lia|]. ok_simpl.
  assert (Hr : rounded kappa = round_half_even Tn (Td * (10 * U))) by (unfold rounded; rewrite Z.max_r, Z.max_l, Z.mul_1_r, EU by lia; done).
  destruct dir; eexists _, _; (split; [reflexivity|]); (split; [done|]); right; (split; [done|]).
  - split; [done|]. unfold h_size. cbn [h_buf h0 h_precision]. rewrite zlen_nil. lia.
  - specialize (Hup eq_refl). split; [cbn; lia|]. cbn [h_precision h0]. rewrite Hr, (nearest_round _ _ 1).
    + split; cbn; try done; [by apply Forall_singleton|by rewrite Z.sub_diag].
    + rewrite <- (Z.mul_1_r Tn). apply (up_ok Tn Td g HTd Hg 1 (10 * U) 0 g); lia.
  - specialize (Hdown eq_refl). split; [cbn; lia|]. cbn [h_precision h0]. rewrite Hr, (nearest_round _ _ 0).
    + split; cbn; try done. by apply Forall_singleton.
    + rewrite <- (Z.mul_1_r Tn). apply (down_ok Tn Td g HTd Hg 1 (10 * U) 0 g); lia.
Qed.

(** With [1] for the error of [g] and one digit at least. *)
Lemma gen_digits_ok e p x10 fixed : s = - e → (fixed = false → 0 < p) →
  let h0 := mkHandler [] (if fixed then p + (kappa + x10) else p) x10 fixed in
  ∃ res h' exp, grisu_gen_digits (mkFp g e) 1 (mkHandler [] p x10 fixed) = Ok (res, h', exp) ∧
    (generated_ok h0 (res, h', exp) ∨ fixed = true ∧ h_precision h0 < 0 ∧ res = done_ ∧ h' = h0 ∧ exp = kappa).
Proof.
  intros Es Hp h0. unfold grisu_gen_digits. cbn [FloatFallback.e FloatFallback.f]. rewrite <- Es.
  assert (H2s : 2 ^ 32 ≤ 2 ^ s) by (apply Z.pow_le_mono_r; lia). assert (H10 : 0 < 10 ^ (kappa - 1)) by (apply Z.pow_pos_nonneg; lia).
  rewrite Z.shiftr_div_pow2, Z.shiftl_mul_pow2, Z.mul_1_l by lia. rewrite Z.sub_1_r, <- Z.ones_equiv, Z.land_ones by lia.
  pose proof (Z_div_mod_eq_full g (2 ^ s)) as Hdm. pose proof (Z.mod_pos_bound g (2 ^ s) ltac:(lia)) as Hmod.
  assert (HI : 10 ^ (kappa - 1) ≤ g / 2 ^ s < 10 ^ kappa) by (split; [apply Z.div_le_lower_bound; lia|apply Z.div_lt_upper_bound; lia]).
  set (I := g / 2 ^ s) in *. assert (HI32 : I < 2 ^ 32) by (apply Z.div_lt_upper_bound; nia).
  assert (Hu : u32 I = I) by (apply wrapu_small; unfold in_u; lia). rewrite Hu.
  rewrite (assert_true (negb _)) by (apply negb_true_iff, Z.eqb_neq; lia). ok_simpl. rewrite Z.eqb_refl, (assert_true true) by done. ok_simpl.
  rewrite count_digits_exact, (to_string_len kappa) by (simpl; lia || done || unfold in_u; simpl; lia). ok_simpl.
  rewrite powers_of_10_64_ok by lia. ok_simpl. rewrite Z.shiftl_mul_pow2 by lia.
  rewrite (u64_small (_ * 2 ^ s)) by nia. rewrite (u64_small (1 * 10)) by done. change (1 * 10) with 10.
  destruct (on_start_ok p x10 fixed Hp) as (res & h' & -> & Hres). ok_simpl. fold h0 in Hres.
  destruct res; [|destruct Hres as [Hf Hr]..].
  - destruct Hres as [-> Hp0]. destruct (integral_loop_ok 10 I (g mod 2 ^ s) kappa h0) as ([[res h'] exp] & -> & Hr); [|lia|lia|lia|lia|].
    { split; [by apply Forall_nil|change (h_size h0) with 0; lia|done|]. change (to_num (h_buf h0)) with 0. rewrite Z.max_r, Z.mul_1_r by lia. lia. }
    exists res, h', exp. split; [done|by left].
  - exists done_, h', kappa. split; [done|]. destruct Hr as [(? & ? & ?)|[? ?]]; [right|left]; done.
  - exists error_, h', kappa. split; [done|]. destruct Hr as [(? & ? & ?)|[? ?]]; [done|left; done].
Qed.
End handler.

(** ** format_float *)

(** The product with the cached power [10 ^ K] is less than one from the number scaled by it. *)
Lemma scaled_product v k c K : 2 ^ 63 ≤ f v * 2 ^ k < 2 ^ 64 → 0 ≤ k →
  cached_good (- 60 - (e v - k + 64)) c K →
  let g := times (mkFp (f v * 2 ^ k) (e v - k)) c in
  32 ≤ - e g ≤ 60 ∧ 2 ^ 62 ≤ f g < 2 ^ 64 ∧
  Z.abs (f g * scaled_den v (- K) - scaled_num v (- K) * 2 ^ (- e g)) < scaled_den v (- K).
Proof.
  intros Hf Hk (He & Hc & _ & Hgood) g. cbn [g times f e]. rewrite multiply_int128_ok by (unfold in_u; lia).
  set (N := f v * 2 ^ k) in *. set (Td := scaled_den v (- K)). set (s := - (e v - k + e c + 64)).
  pose proof (Z_div_mod_eq_full (N * f c + 2 ^ 63) (2 ^ 64)) as Hd. pose proof (Z.mod_pos_bound (N * f c + 2 ^ 63) (2 ^ 64) ltac:(lia)) as Hm.
  change ((N * f c + 2 ^ 63) / 2 ^ 64) with (rounded_product N (f c)) in Hd. set (p := rounded_product N (f c)) in *.
  split; [unfold s; lia|]. split; [split; [apply Z.div_le_lower_bound; nia|apply Z.div_lt_upper_bound; nia]|].
  assert (HTd : 0 < Td) by apply scaled_den_pos.
  set (P := 2 ^ Z.max (e c) 0 * 10 ^ Z.max (- K) 0) in *. set (Q := 10 ^ Z.max K 0 * 2 ^ Z.max (- e c) 0) in *.
  assert (HP : 0 < P) by (unfold P; apply Z.mul_pos_pos; apply Z.pow_pos_nonneg; lia).
  replace (f c * 2 ^ Z.max (e c) 0 * 10 ^ Z.max (- K) 0) with (f c * P) in Hgood by (unfold P; ring).
  assert (Hcross : scaled_num v (- K) * 2 ^ s * (P * 2 ^ 64) = N * Q * Td).
  { unfold scaled_num, Td, scaled_den, P, Q, N. rewrite Z.opp_involutive.
    assert (E2 : 2 ^ Z.max (e v) 0 * 2 ^ s * 2 ^ Z.max (e c) 0 * 2 ^ 64 = 2 ^ k * 2 ^ Z.max (- e c) 0 * 2 ^ Z.max (- e v) 0).
    { rewrite <- !Z.pow_add_r by (unfold s; lia). f_equal. unfold s. lia. }
    set (a := 2 ^ Z.max (e v) 0) in *. set (b := 2 ^ s) in *. set (c1 := 2 ^ Z.max (e c) 0) in *. set (c2 := 2 ^ 64) in *.
    transitivity (f v * 10 ^ Z.max K 0 * 10 ^ Z.max (- K) 0 * (a * b * c1 * c2)); [ring|]. rewrite E2. ring. }
  set (W := P * 2 ^ 64) in *. assert (HW : 0 < W) by (unfold W; lia). set (X := p * Td - scaled_num v (- K) * 2 ^ s).
  assert (HX : X * W = Td * (P * (2 ^ 64 * p - N * f c) + N * (f c * P - Q))).
  { unfold X. rewrite Z.mul_sub_distr_r, Hcross. unfold W. ring. }
  assert (HabsX : Z.abs X * W = Td * Z.abs (P * (2 ^ 64 * p - N * f c) + N * (f c * P - Q))).
  { rewrite <- (Z.abs_eq W), <- Z.abs_mul, HX, Z.abs_mul, (Z.abs_eq Td) by lia. done. }
  set (y := 2 ^ 64 * p - N * f c) in *. assert (Hy : 2 * Z.abs y ≤ 2 ^ 64) by (unfold y; lia).
  set (z := f c * P - Q) in *. clearbody y z. clear Hd Hm Hcross HX.
  assert (H1 : 2 * Z.abs (P * y) ≤ W).
  { rewrite Z.abs_mul, (Z.abs_eq P) by lia. pose proof (Z.mul_le_mono_nonneg_l _ _ P ltac:(lia) Hy). unfold W. lia. }
  assert (H2 : 2 * Z.abs (N * z) < W).
  { rewrite Z.abs_mul, (Z.abs_eq N) by lia. pose proof (Z.mul_le_mono_nonneg_l _ _ N ltac:(lia) Hgood).
    pose proof (proj1 (Z.mul_lt_mono_pos_r P N (2 ^ 64) HP) (proj2 Hf)). unfold W. lia. }
  assert (H3 : Z.abs (P * y + N * z) < W) by lia. set (u := Z.abs (P * y + N * z)) in *. set (w := Z.abs X) in *.
  clearbody u W w. clear - HabsX H3 HTd HW. nia.
Qed.

Lemma strip_zeros_ok buf exp : digit_chars buf →
  ∃ k, 0 ≤ k ∧ (strip_zeros (reverse buf) exp).2 = exp + k ∧ digit_chars (reverse (strip_zeros (reverse buf) exp).1) ∧
    zlen (reverse (strip_zeros (reverse buf) exp).1) ≤ zlen buf ∧
    to_num (reverse (strip_zeros (reverse buf) exp).1) * 10 ^ k = to_num buf.
Proof.
  revert exp. induction buf as [|c buf IH] using rev_ind; intros exp Hb; [by exists 0; cbn; rewrite Z.add_0_r|].
  rewrite reverse_app. change (reverse [c]) with [c]. cbn [app]. apply Forall_app in Hb as [Hb [Hc _]%Forall_cons].
  destruct (decide (c = 48)) as [->|Hne].
  - destruct (IH (exp + 1) Hb) as (k & Hk & He & Hd & Hz & Hn). cbn [strip_zeros]. exists (k + 1). rewrite zlen_app. change (zlen [48]) with 1.
    split_and!; try done; try lia. rewrite to_num_snoc, <- Hn, Z.pow_add_r by lia. lia.
  - exists 0. assert (E : strip_zeros (c :: reverse buf) exp = (c :: reverse buf, exp)).
    { unfold strip_zeros. destruct c as [|q|]; [done| |done]. do 6 (destruct q as [q|q|]; try done). }
    rewrite E. cbn [fst snd]. rewrite reverse_cons, reverse_involutive, Z.mul_1_r, Z.add_0_r. split_and!; try done.
    apply Forall_app. split; [done|]. by apply Forall_singleton.
Qed.

Lemma kappa_exists I : 0 < I < 2 ^ 32 → ∃ kappa, 1 ≤ kappa ≤ 10 ∧ 10 ^ (kappa - 1) ≤ I < 10 ^ kappa.
Proof.
  intros HI. assert (Hc : I < 10 ∨ 10 ≤ I < 100 ∨ 100 ≤ I < 1000 ∨ 1000 ≤ I < 10000 ∨ 10000 ≤ I < 100000 ∨ 100000 ≤ I < 1000000 ∨
    1000000 ≤ I < 10000000 ∨ 10000000 ≤ I < 100000000 ∨ 100000000 ≤ I < 1000000000 ∨ 1000000000 ≤ I) by lia.
  destruct_or! Hc; [exists 1|exists 2|exists 3|exists 4|exists 5|exists 6|exists 7|exists 8|exists 9|exists 10]; simpl; lia.
Qed.

(** Units of [10 ^ exp] of the scaled number are units of [10 ^ (exp - K)]. *)
Lemma unit_cross v K s exp :
  scaled_num v (- K) * 2 ^ s * 10 ^ Z.max (- exp) 0 * scaled_den v (exp - K) =
  scaled_num v (exp - K) * (scaled_den v (- K) * (10 ^ Z.max exp 0 * 2 ^ s)).
Proof.
  destruct (Z.le_gt_cases 0 exp).
  - rewrite Z.max_r, Z.max_l, Z.mul_1_r by lia. pose proof (scaled_shift v (exp - K) exp ltac:(lia)) as E.
    replace (exp - K - exp) with (- K) in E by lia.
    transitivity (2 ^ s * (scaled_num v (- K) * scaled_den v (exp - K))); [ring|]. rewrite E. ring.
  - rewrite Z.max_l, Z.max_r, Z.mul_1_l by lia. pose proof (scaled_shift v (- K) (- exp) ltac:(lia)) as E.
    replace (- K - - exp) with (exp - K) in E by lia.
    transitivity (2 ^ s * (10 ^ (- exp) * scaled_num v (- K) * scaled_den v (exp - K))); [ring|]. rewrite <- E. ring.
Qed.

Lemma rounded_scaled v K s exp : 0 ≤ s →
  rounded (scaled_num v (- K) * 2 ^ s) (scaled_den v (- K)) s exp = round_half_even (scaled_num v (exp - K)) (scaled_den v (exp - K)).
Proof.
  intros Hs. pose proof (scaled_den_pos v (- K)). pose proof (scaled_den_pos v (exp - K)). pose proof (Z.pow_pos_nonneg 10 (Z.max exp 0)).
  pose proof (Z.pow_pos_nonneg 2 s). apply round_cross; [|done|apply unit_cross]. apply Z.mul_pos_pos; [lia|]. apply Z.mul_pos_pos; lia.
Qed.

(** *** No power of ten is just above a number

    A number below [10 ^ p] is below it by more than the error of [g] can hide.  This is checked for
    the largest multiple of [2 ^ grid p], the unit of doubles of that size. *)
Definition grid (p : Z) : Z :=
  let N := 10 ^ Z.max p 0 in
  let D := 10 ^ Z.max (- p) 0 in
  let l := Z.log2 N - Z.log2 D in
  Z.max (-1074) ((if N * 2 ^ Z.max (- l) 0 <? D * 2 ^ Z.max l 0 then l - 1 else l) - 52).
(** The quotient from its leading digits. *)
Definition quotient (a b : Z) : Z := let k := Z.max 0 (Z.log2 b - 120) in Z.shiftr (a - 1) k / Z.shiftr b k.
Definition apart_check (p : Z) : bool :=
  let a := 10 ^ Z.max p 0 * 2 ^ Z.max (- grid p) 0 in
  let b := 10 ^ Z.max (- p) 0 * 2 ^ Z.max (grid p) 0 in
  let r := quotient a b in
  (a <=? (r + 1) * b) && (a <=? 2 ^ 62 * (a - r * b)) && ((grid p =? -1074) || (2 ^ 52 * b <=? a)).

Lemma apart_all : forallb apart_check (seqZ (-348) 706) = true.
Proof. by vm_compute. Qed.

Lemma powers_apart v p : 0 < f v < 2 ^ 53 → -1074 ≤ e v → -348 ≤ p ≤ 357 →
  scaled_num v p < scaled_den v p → scaled_den v p ≤ 2 ^ 62 * (scaled_den v p - scaled_num v p).
Proof.
  intros Hf He Hp Hlt. pose proof apart_all as Hall. rewrite forallb_forall in Hall. specialize (Hall p).
  assert (Hin : In p (seqZ (-348) 706)) by (apply list_elem_of_In, elem_of_seqZ; lia). specialize (Hall Hin). unfold apart_check in Hall.
  assert (Hg : -1074 ≤ grid p) by (unfold grid; lia). set (q := grid p) in *. clearbody q.
  set (a := 10 ^ Z.max p 0 * 2 ^ Z.max (- q) 0) in *. set (b := 10 ^ Z.max (- p) 0 * 2 ^ Z.max q 0) in *.
  assert (Ha : 0 < a) by (unfold a; apply Z.mul_pos_pos; apply Z.pow_pos_nonneg; lia).
  assert (Hb : 0 < b) by (unfold b; apply Z.mul_pos_pos; apply Z.pow_pos_nonneg; lia).
  pose proof (scaled_den_pos v p) as Hd. assert (Hcross : scaled_num v p * a * 2 ^ Z.max (q - e v) 0 = f v * 2 ^ Z.max (e v - q) 0 * b * scaled_den v p).
  { unfold scaled_num, scaled_den, a, b.
    assert (E2 : 2 ^ Z.max (e v) 0 * 2 ^ Z.max (- q) 0 * 2 ^ Z.max (q - e v) 0 = 2 ^ Z.max (e v - q) 0 * 2 ^ Z.max q 0 * 2 ^ Z.max (- e v) 0).
    { rewrite <- !Z.pow_add_r by lia. f_equal. lia. }
    transitivity (f v * 10 ^ Z.max (- p) 0 * 10 ^ Z.max p 0 * (2 ^ Z.max (e v) 0 * 2 ^ Z.max (- q) 0 * 2 ^ Z.max (q - e v) 0)); [ring|].
    rewrite E2. ring. }
  cbv zeta in Hall. set (r := quotient a b) in *. clearbody r.
  apply andb_true_iff in Hall as [[Hab%Z.leb_le Hgap%Z.leb_le]%andb_true_iff Hsize]. set (N := scaled_num v p) in *. set (D := scaled_den v p) in *. clearbody a b N D.
  destruct (Z.le_gt_cases q (e v)) as [Hge|Hsmall].
  - rewrite (Z.max_r (q - e v)), (Z.max_l (e v - q)), Z.mul_1_r in Hcross by lia. set (m := f v * 2 ^ (e v - q)) in *. clearbody m.
    assert (Hm : m * b < a) by (apply (Z.mul_lt_mono_pos_r D); [done|]; rewrite <- Hcross; nia).
    assert (Hr : m ≤ r) by nia. assert (Hgap' : a ≤ 2 ^ 62 * (a - m * b)) by nia.
    apply (Z.mul_le_mono_pos_r _ _ a); [done|]. pose proof (Z.mul_le_mono_nonneg_r _ _ D ltac:(lia) Hgap'). lia.
  - apply orb_true_iff in Hsize as [Hq%Z.eqb_eq|Hsize%Z.leb_le]; [lia|]. rewrite (Z.max_l (q - e v)), (Z.max_r (e v - q)), Z.mul_1_r in Hcross by lia.
    assert (H2 : 2 ≤ 2 ^ (q - e v)) by (change 2 with (2 ^ 1) at 1; apply Z.pow_le_mono_r; lia). set (t := 2 ^ (q - e v)) in *. clearbody t.
    destruct (Z.le_gt_cases N 0) as [Hneg|Hpos]; [lia|]. assert (H1 : 2 * N * a ≤ N * a * t) by nia.
    assert (Hfb : f v * b * D ≤ (2 ^ 53 - 1) * b * D) by nia. assert (H3 : 2 ^ 52 * b * (2 * N) ≤ (2 ^ 53 - 1) * b * D) by nia.
    assert (H4 : 2 ^ 53 * N ≤ (2 ^ 53 - 1) * D) by nia. lia.
Qed.

(** The size of the number, in its units: at least a tenth, and less than one. *)
Lemma scaled_size v K s g kappa : 0 < f v < 2 ^ 53 → -1074 ≤ e v → Z.abs K ≤ 348 → 32 ≤ s → 1 ≤ kappa ≤ 10 → 2 ^ 62 ≤ g →
  10 ^ (kappa - 1) * 2 ^ s ≤ g < 10 ^ kappa * 2 ^ s →
  Z.abs (g * scaled_den v (- K) - scaled_num v (- K) * 2 ^ s) < scaled_den v (- K) →
  scaled_num v (kappa - K) < scaled_den v (kappa - K) ∧ scaled_den v (kappa - 1 - K) ≤ scaled_num v (kappa - 1 - K).
Proof.
  intros Hf He HK Hs Hk Hg62 Hg Herr. pose proof (scaled_den_pos v (- K)) as Hd. split.
  - pose proof (unit_cross v K s kappa) as E. rewrite (Z.max_r (- kappa)), (Z.max_l kappa), Z.mul_1_r in E by lia.
    pose proof (scaled_den_pos v (kappa - K)) as Hd'. set (T := scaled_num v (- K) * 2 ^ s) in *. set (D := scaled_den v (- K)) in *.
    set (U := 10 ^ kappa * 2 ^ s) in *. assert (HT : T < U * D) by nia. clearbody T U D. apply (Z.mul_lt_mono_pos_r (D * U)); [nia|]. rewrite <- E. nia.
  - destruct (Z.le_gt_cases (scaled_den v (kappa - 1 - K)) (scaled_num v (kappa - 1 - K))) as [|Hlt]; [done|]. exfalso.
    pose proof (powers_apart v (kappa - 1 - K) Hf He ltac:(lia) Hlt) as Hgap. pose proof (unit_cross v K s (kappa - 1)) as E.
    rewrite (Z.max_r (- (kappa - 1))), (Z.max_l (kappa - 1)), Z.mul_1_r in E by lia.
    pose proof (scaled_den_pos v (kappa - 1 - K)) as Hd'. assert (H10 : 0 < 10 ^ (kappa - 1)) by (apply Z.pow_pos_nonneg; lia).
    assert (H2s : 0 < 2 ^ s) by (apply Z.pow_pos_nonneg; lia).
    set (T := scaled_num v (- K) * 2 ^ s) in *. set (D := scaled_den v (- K)) in *. set (A := 10 ^ (kappa - 1) * 2 ^ s) in *.
    assert (HA : 0 < A) by (unfold A; nia). set (N' := scaled_num v (kappa - 1 - K)) in *. set (D' := scaled_den v (kappa - 1 - K)) in *.
    clearbody T D A N' D'. assert (HT : T < A * D) by (apply (Z.mul_lt_mono_pos_r D'); [done|]; rewrite E; nia).
    assert (HgA : g ≤ A) by nia. assert (HA62 : 2 ^ 62 ≤ A) by lia. assert (g = A) as -> by lia.
    assert (HT' : A * D - T < D) by nia. assert (H1 : (A * D - T) * D' = (D' - N') * (D * A)) by (rewrite Z.mul_sub_distr_r, E; ring).
    assert (H2 : (D' - N') * A < D') by nia. nia.
Qed.

Lemma scaled_num_nonneg d binary32 x : finite_positive binary32 d → 0 ≤ scaled_num (assign_float binary32 d).1 x.
Proof.
  intros Hd. destruct (assign_float_ok binary32 d Hd) as (Hf & _). unfold scaled_num.
  pose proof (Z.pow_nonneg 2 (Z.max (e (assign_float binary32 d).1) 0)). pose proof (Z.pow_nonneg 10 (Z.max (- x) 0)). nia.
Qed.

(** What the digits of a number say, rounded at [10 ^ x]. *)
Definition printed (v : fp) (buf : list Z) (exp x : Z) : Prop :=
  digit_chars buf ∧ (x ≤ exp ∨ buf = []) ∧ to_num buf * 10 ^ (exp - x) = round_half_even (scaled_num v x) (scaled_den v x).

(** The generator or, if it gives up, the exact way. *)
Lemma generated_printed d binary32 fixed p K g e kappa :
  finite_positive binary32 d → 0 ≤ p → (fixed = false → 0 < p) →
  let v := (assign_float binary32 d).1 in
  32 ≤ - e ≤ 60 → 1 ≤ kappa ≤ 10 → 10 ^ (kappa - 1) * 2 ^ (- e) ≤ g < 10 ^ kappa * 2 ^ (- e) → g < 2 ^ 64 → Z.abs K ≤ 348 →
  Z.abs (g * scaled_den v (- K) - scaled_num v (- K) * 2 ^ (- e)) < scaled_den v (- K) →
  scaled_num v (kappa - K) < scaled_den v (kappa - K) → scaled_den v (kappa - 1 - K) ≤ scaled_num v (kappa - 1 - K) →
  ∃ res h exp buf exp' x, grisu_gen_digits (mkFp g e) 1 (mkHandler [] p (- K) fixed) = Ok (res, h, exp) ∧
    match res with
    | error_ => fallback_format d (h_precision h) binary32 (exp + h_size h - K - 1)
    | _ => Ok (h_buf h, exp + h_exp10 h)
    end = Ok (buf, exp') ∧ printed v buf exp' x ∧ (if fixed then x = - p else x = kappa - K - p ∧ zlen buf = p).
Proof.
  intros Hd Hp0 Hp v Hs Hk Hg Hg64 HK Herr Hlt Hle. set (s := - e) in *.
  destruct (gen_digits_ok (scaled_num v (- K) * 2 ^ s) (scaled_den v (- K)) g (scaled_den_pos v (- K)) Herr s kappa Hs Hk (proj1 Hg) (proj2 Hg) Hg64
    e p (- K) fixed eq_refl Hp) as (res & h' & exp & E & Hr). set (P := if fixed then p + (kappa + - K) else p) in *.
  assert (Hx : if fixed then kappa - P - K = - p else kappa - P - K = kappa - K - p) by (unfold P; destruct fixed; lia).
  destruct Hr as [Hr|(-> & HP & -> & -> & ->)]; [destruct res; [done|..]|].
  - destruct Hr as [Hexp [Hpr Hfx Hch Hx10 Hsz Hval]]. cbn [h_precision h_fixed h_exp10 h_buf] in *. subst exp.
    rewrite rounded_scaled in Hval by lia. exists done_, h', (kappa - P), (h_buf h'), (kappa - P + h_exp10 h'), (kappa - P - K).
    split_and!; [done|done| |].
    + split; [done|]. split; [left; lia|]. rewrite <- Hval. f_equal. f_equal. lia.
    + destruct fixed; [done|]. split; [done|]. unfold P in Hsz. by apply Hsz.
  - destruct Hr as (Hpr & Hsz & HP). cbn [h_precision] in Hpr, HP.
    destruct (fallback_ok d P binary32 (kappa - K - 1) Hd) as (buf & x' & Ef & Hl & Hc & Hx' & Hval); [done|fold v; by replace (kappa - K - 1) with (kappa - 1 - K) by lia|fold v; by replace (kappa - K - 1 + 1) with (kappa - K) by lia|].
    replace (kappa - K - 1 - (P - 1)) with (kappa - P - K) in * by lia. fold v in Hval.
    exists error_, h', exp, buf, x', (kappa - P - K). split_and!; [done| | |].
    + rewrite Hpr, Hsz. done.
    + split; [done|]. split; [left; lia|done].
    + destruct fixed; [done|]. split; [done|]. rewrite Hl. unfold P. specialize (Hp eq_refl). lia.
  - cbn [h_buf h_exp10]. exists done_, (mkHandler [] P (- K) true), kappa, [], (kappa + - K), (kappa - P - K). split_and!; [done|done| |done].
    split; [by apply Forall_nil|]. split; [by right|]. cbn [h_precision] in HP. change (to_num []) with 0. rewrite Z.mul_0_l. symmetry. apply nearest_round.
    unfold nearest. pose proof (scaled_shift v (kappa - P - K) (- P) ltac:(lia)) as Hsh. replace (kappa - P - K - - P) with (kappa - K) in Hsh by lia.
    pose proof (scaled_den_pos v (kappa - K)). pose proof (scaled_den_pos v (kappa - P - K)).
    assert (10 ≤ 10 ^ (- P)) by (change 10 with (10 ^ 1) at 1; apply Z.pow_le_mono_r; lia).
    assert (Hn : 0 ≤ scaled_num v (kappa - P - K)) by by apply scaled_num_nonneg.
    set (N := scaled_num v (kappa - P - K)) in *. set (D := scaled_den v (kappa - P - K)) in *. set (B := scaled_den v (kappa - K)) in *.
    assert (Hlt' : 10 ^ (- P) * N * B < D * B) by (rewrite <- Hsh; nia). apply Z.mul_lt_mono_pos_r in Hlt'; [|done]. nia.
Qed.

Lemma normalized_ok binary32 d : finite_positive binary32 d →
  let v := (assign_float binary32 d).1 in
  ∃ k c K, normalize v = Ok (mkFp (f v * 2 ^ k) (e v - k)) ∧ 0 ≤ k ∧ 2 ^ 63 ≤ f v * 2 ^ k < 2 ^ 64 ∧
    get_cached_power (- 60 - (e v - k + significand_size)) = Ok (c, K) ∧ cached_good (- 60 - (e v - k + 64)) c K.
Proof.
  intros Hd v. destruct (assign_float_ok binary32 d Hd) as (Hf & He & _). fold v in Hf, He.
  destruct (normalize_ok v) as (k & En & Hk & Hn); [destruct binary32; lia|].
  assert (Hk' : 11 ≤ k ≤ 63).
  { split; [destruct (Z.le_gt_cases 11 k); [done|]|destruct (Z.le_gt_cases k 63); [done|]].
    - assert (2 ^ k ≤ 2 ^ 10) by (apply Z.pow_le_mono_r; lia). assert (f v < 2 ^ 53) by (destruct binary32; lia). nia.
    - assert (2 ^ 64 ≤ 2 ^ k) by (apply Z.pow_le_mono_r; lia). nia. }
  destruct (get_cached_power_ok (- 60 - (e v - k + significand_size))) as (c & K & Ec & Hc); [change significand_size with 64; lia|].
  exists k, c, K. split_and!; try done; lia.
Qed.

(** C29: floating-point numbers are printed with the digits that the exact number rounds to.  For
    every positive finite float or double and every precision, format_float returns a result, and
    the digits and the exponent it returns are the number rounded to the nearest multiple of a power
    of ten, ties to even.  In the fixed format the power is the one of the last decimal asked for,
    with 767 decimals at most.  In the others there are as many significant digits as asked for, 767
    at most: the number is at least 10^(x + n - 1) and below 10^(x + n).  Zeros at the end are removed
    unless the point is to be shown.  No assertion fails, no table or buffer is
    read out of bounds, and no integer overflow changes a digit. *)
Theorem format_float_rounds (d precision : Z) (binary32 fixed showpoint : bool) :
  finite_positive binary32 d → 0 ≤ precision → (fixed = false → 0 < precision) →
  let v := (assign_float binary32 d).1 in
  let n := Z.min precision 767 in
  ∃ buf exp x, format_float d binary32 fixed showpoint precision = Ok (buf, exp) ∧ digit_chars buf ∧ (x ≤ exp ∨ buf = []) ∧
    to_num buf * 10 ^ (exp - x) = round_half_even (scaled_num v x) (scaled_den v x) ∧
    if fixed then x = - n
    else zlen buf ≤ n ∧ (showpoint = true → zlen buf = n) ∧
      scaled_num v (x + n) < scaled_den v (x + n) ∧ scaled_den v (x + n - 1) ≤ scaled_num v (x + n - 1).
Proof.
  intros Hd Hp0 Hp v n. unfold format_float. rewrite (proj2 (Z.eqb_neq d 0)) by (destruct Hd; lia).
  destruct (normalized_ok binary32 d Hd) as (k & c & K & -> & Hk & Hn & Ec & Hc). fold v in Hn, Ec, Hc |- *. ok_simpl. cbv zeta. cbn [e]. rewrite Ec. ok_simpl.
  destruct (scaled_product v k c K Hn Hk Hc) as (Hs & Hg & Herr). destruct (times _ c) as [g e0]. cbn [e f] in Hs, Hg, Herr.
  assert (H2s : 2 ^ 32 ≤ 2 ^ (- e0) ≤ 2 ^ 60) by (split; apply Z.pow_le_mono_r; lia).
  destruct (kappa_exists (g / 2 ^ (- e0))) as (kappa & Hkap & HI).
  { split; [apply Z.div_str_pos; lia|apply Z.div_lt_upper_bound; lia]. }
  assert (Hgk : 10 ^ (kappa - 1) * 2 ^ (- e0) ≤ g < 10 ^ kappa * 2 ^ (- e0)).
  { pose proof (Z_div_mod_eq_full g (2 ^ (- e0))). pose proof (Z.mod_pos_bound g (2 ^ (- e0)) ltac:(lia)). nia. }
  destruct (assign_float_ok binary32 d Hd) as (Hf53 & He0 & _). fold v in Hf53, He0. destruct Hc as (Hce & Hcs & HK & Hcv).
  pose proof (scaled_size v K (- e0) g kappa ltac:(destruct binary32; lia) ltac:(lia) HK ltac:(lia) Hkap ltac:(lia) Hgk Herr) as Hsize.
  assert (Emin : (if 767 <? precision then 767 else precision) = n) by (unfold n; destruct (Z.ltb_spec 767 precision); lia). rewrite Emin.
  destruct (generated_printed d binary32 fixed n K g e0 kappa Hd ltac:(lia) ltac:(intros; specialize (Hp ltac:(done)); lia) Hs Hkap Hgk ltac:(lia))
    as (res & h & exp & buf & exp' & x & -> & Eres & (Hch & Hx & Hval) & Hfix); [done|done|apply Hsize..|]. ok_simpl. rewrite Eres. ok_simpl. fold v in Hval.
  destruct (negb fixed && negb showpoint) eqn:Estrip; [|exists buf, exp', x].
  - apply andb_true_iff in Estrip as [Ef Es]. destruct fixed; [done|]. destruct showpoint; [done|]. destruct Hfix as [-> Hz].
    destruct (strip_zeros_ok buf exp' Hch) as (j & Hj & E2 & Hc' & Hz' & Hn'). destruct (strip_zeros (reverse buf) exp') as [r ex]. cbn [fst snd] in *. subst ex.
    assert (Hbuf : buf ≠ []) by (intros ->; rewrite zlen_nil in Hz; specialize (Hp eq_refl); lia). destruct Hx as [Hx|]; [|done].
    exists (reverse r), (exp' + j), (kappa - K - n). replace (kappa - K - n + n - 1) with (kappa - 1 - K) by lia.
    replace (kappa - K - n + n) with (kappa - K) by lia. split_and!; try done; [left; lia| |lia|apply Hsize..].
    rewrite <- Hval, <- Hn'. replace (exp' + j - _) with (j + (exp' - (kappa - K - n))) by lia. rewrite Z.pow_add_r by lia. ring.
  - split_and!; try done. destruct fixed; [done|]. destruct Hfix as [-> Hz]. replace (kappa - K - n + n - 1) with (kappa - 1 - K) by lia.
    replace (kappa - K - n + n) with (kappa - K) by lia. split_and!; [lia|done|apply Hsize..].
Qed.

(** *** Examples: 2.5 with one digit takes the exact way, a tie; 0.999 to six decimals; 1e100 *)
Definition two_and_a_half : Z := 4612811918334230528.

Example format_float_examples :
  format_float two_and_a_half false false false 1 = Ok ([50], 0) ∧
  format_float 4607173411600762667 false true false 6 = Ok ([57; 57; 57; 48; 48; 48], -6) ∧
  format_float 6103021453049119613 false false false 10 = Ok ([49], 100).
Proof. by vm_compute. Qed.

Lemma format_float_rounds_witness : finite_positive false third ∧
  ∃ buf exp x, format_float third false false false 5 = Ok (buf, exp) ∧ digit_chars buf ∧ (x ≤ exp ∨ buf = []) ∧
    to_num buf * 10 ^ (exp - x) =
      round_half_even (scaled_num (assign_float false third).1 x) (scaled_den (assign_float false third).1 x) ∧
    (zlen buf ≤ 5 ∧ (false = true → zlen buf = 5) ∧
     scaled_num (assign_float false third).1 (x + 5) < scaled_den (assign_float false third).1 (x + 5) ∧
     scaled_den (assign_float false third).1 (x + 5 - 1) ≤ scaled_num (assign_float false third).1 (x + 5 - 1)).
Proof. split; [done|]. refine (format_float_rounds third 5 false false false _ _ _); done. Defined.

(** A precision of zero, as in "{:.0g}", is passed on to fallback_format, which then answers whether the
    number is above half of the next power of ten: 2.5 has no digits left and is printed as "00". *)
Lemma zero_precision_no_digits : format_float two_and_a_half false false false 0 = Ok ([], 2).
Proof. by vm_compute. Qed.

(** The limit of 767 significant digits is applied to decimals as well: the smallest double with the
    1074 decimals it has is cut off after 767. *)
Lemma fixed_precision_cut : ∃ buf, format_float 1 false true false 1074 = Ok (buf, -767).
Proof. eexists. vm_compute. reflexivity. Qed.
