(* ===== verification/LogFile.v ===== *)
(** * LogFile: src/thirdParty/spdlog/details/file_helper-inl.h, sinks/rotating_file_sink-inl.h
    and the file part of details/os-inl.h

    The log file of Ham's logger (Logger.v): how its names are made, how it is opened, and how
    it is rotated when it is full.  These operations throw [spdlog_ex] and are caught by the
    logger, so they run in a monad in which the state survives an exception.  The file system
    and stdio are the class [FileSystem]; [sim_fs] is an instance. *)
From S2P Require Import Prelude Throws.

Abbreviation path := (list byte).
Definition dot : byte := x2e.
Definition folder_sep : byte := x2f.

(** ** Strings: the last, and from an offset the first, place of a character *)
Fixpoint find_last (c : byte) (s : path) : option Z :=
  match s with
  | [] => None
  | b :: r => match find_last c r with
              | Some k => Some (k + 1)
              | None => if decide (b = c) then Some 0 else None
              end
  end.
Fixpoint find_first (c : byte) (s : path) : option Z :=
  match s with
  | [] => None
  | b :: r => if decide (b = c) then Some 0 else option_map (Z.add 1) (find_first c r)
  end.
Definition find_from (c : byte) (s : path) (offset : Z) : option Z :=
  option_map (Z.add offset) (find_first c (drop (Z.to_nat offset) s)).

(** ** File names *)

(** [substr(0, n)] and [substr(n)], for [n] within the string. *)
Definition substr_to (n : Z) (s : path) : path := take (Z.to_nat n) s.
Definition substr_from (n : Z) (s : path) : path := drop (Z.to_nat n) s.

Definition split_by_extension (fname : path) : path * path :=
  match find_last dot fname with
  | None => (fname, [])
  | Some ext_index =>
      if (ext_index =? 0) || (ext_index =? zlen fname - 1) then (fname, [])
      else
        match find_last folder_sep fname with
        | Some folder_index =>
            if ext_index - 1 <=? folder_index then (fname, [])
            else (substr_to ext_index fname, substr_from ext_index fname)
        | None => (substr_to ext_index fname, substr_from ext_index fname)
        end
  end.

Definition calc_filename (filename : path) (index : Z) : path :=
  if index =? 0 then filename
  else let '(basename, ext) := split_by_extension filename in basename ++ [dot] ++ to_string index ++ ext.

Definition dir_name (p : path) : path :=
  match find_last folder_sep p with Some pos => substr_to pos p | None => [] end.

(** ** The file system

    [fs_content] is what a file holds, the data that stdio still buffers included;
    [fs_stream] tells the file of an open stream.  [fclose] and [fflush] may fail, and what was
    buffered is lost then: the code does not look at their result, so [fs_failures], the number of
    such calls that failed, is kept to tell. *)
Class FileSystem (FS : Type) := {
  fs_exists : path → FS → bool;                   (* stat *)
  fs_mkdir : path → FS → FS * bool;
  fs_remove : path → FS → FS;
  fs_rename : path → path → FS → FS * bool;
  fs_fopen : path → bool → FS → FS * option Z;    (* "wb" truncates, "ab" appends; None is a null pointer *)
  fs_fclose : Z → FS → FS * bool;                 (* false when what was buffered could not be written *)
  fs_fwrite : Z → list byte → FS → FS * Z;
  fs_fflush : option Z → FS → FS * bool;
  fs_fstat : Z → FS → option Z;                   (* the size; None when the call fails *)
  fs_content : path → FS → option (list byte);
  fs_dir : path → FS → bool;
  fs_stream : Z → FS → option path;
  fs_failures : FS → nat
}.

(** Nothing but the files in [P] changed, and no directory appeared. *)
Definition fs_touched {FS} `{FileSystem FS} (P : path → Prop) (s s' : FS) : Prop :=
  (∀ p, ¬ P p → fs_content p s' = fs_content p s) ∧ (∀ p, fs_dir p s' = true → fs_dir p s = true).
(** And no flush or close failed, or one did, at the cost of the files of the streams. *)
Definition fs_frame {FS} `{FileSystem FS} (P : path → Prop) (s s' : FS) : Prop := fs_touched P s s' ∧ fs_failures s' = fs_failures s.
Definition fs_flushed {FS} `{FileSystem FS} (P : path → Prop) (s : FS) (r : FS * bool) : Prop :=
  if r.2 then fs_frame (λ _, False) s r.1 else fs_touched P s r.1 ∧ fs_failures r.1 = S (fs_failures s).

Class FileSystemLaws (FS : Type) `{FileSystem FS} : Prop := {
  law_exists p s : fs_exists p s = bool_decide (is_Some (fs_content p s)) || fs_dir p s;
  law_mkdir p s : (∀ q, fs_content q (fs_mkdir p s).1 = fs_content q s) ∧
    (∀ q, fs_dir q (fs_mkdir p s).1 = true → fs_dir q s = true ∨ q = p) ∧ fs_failures (fs_mkdir p s).1 = fs_failures s;
  law_remove p s : fs_frame (eq p) s (fs_remove p s) ∧
    (fs_content p (fs_remove p s) = None ∨ fs_content p (fs_remove p s) = fs_content p s);
  law_rename src dst s : fs_dir src s = false → src ≠ dst →
    let '(s', ok) := fs_rename src dst s in
    if ok then fs_frame (λ p, p = src ∨ p = dst) s s' ∧ fs_content dst s' = fs_content src s ∧ fs_content src s' = None
    else fs_frame (λ _, False) s s';
  law_fopen p trunc s :
    let '(s', fp) := fs_fopen p trunc s in
    match fp with
    | Some f => fs_frame (eq p) s s' ∧ fs_stream f s' = Some p ∧
        fs_content p s' = Some (if trunc then [] else default [] (fs_content p s))
    | None => fs_frame (λ _, False) s s'
    end;
  law_fclose f s : fs_flushed (λ p, fs_stream f s = Some p) s (fs_fclose f s);
  law_fwrite f d p s : fs_stream f s = Some p →
    let '(s', n) := fs_fwrite f d s in
    fs_frame (eq p) s s' ∧ 0 ≤ n ≤ zlen d ∧ fs_stream f s' = Some p ∧
    ∀ c, fs_content p s = Some c → fs_content p s' = Some (c ++ take (Z.to_nat n) d);
  (* a null pointer flushes every stream *)
  law_fflush fp s : fs_flushed (λ p, ∃ f, fs_stream f s = Some p ∧ (fp = None ∨ fp = Some f)) s (fs_fflush fp s) ∧
    ∀ f, fs_stream f (fs_fflush fp s).1 = fs_stream f s;
  (* on a stream that was just opened nothing is buffered *)
  law_fstat p s s' f n : fs_fopen p false s = (s', Some f) → fs_fstat f s' = Some n →
    n = zlen (default [] (fs_content p s))
}.

Lemma fs_frame_refl {FS} `{FileSystem FS} P (s : FS) : fs_frame P s s.
Proof. by repeat split. Qed.

(** ** file_helper and the rotating sink *)
Record file_helper := mkHelper { fd_ : option Z; filename_ : path }.
Record rotating_file_sink := mkSink {
  base_filename_ : path;
  max_size_ : Z;
  max_files_ : Z;
  current_size_ : Z;
  file_helper_ : file_helper
}.

(** A sink and the file system. *)
Record LW (FS : Type) := mkLW { sink : rotating_file_sink; fs : FS }.
Arguments mkLW {FS}. Arguments sink {FS}. Arguments fs {FS}.

Section sink.
Context {FS : Type} `{FileSystem FS}.
Abbreviation World := (LW FS).
Implicit Types w : World.

Definition set_fs (s : FS) w : World := mkLW (sink w) s.
Definition set_helper (h : file_helper) w : World :=
  let k := sink w in mkLW (mkSink (base_filename_ k) (max_size_ k) (max_files_ k) (current_size_ k) h) (fs w).
Definition set_size (n : Z) w : World :=
  let k := sink w in mkLW (mkSink (base_filename_ k) (max_size_ k) (max_files_ k) n (file_helper_ k)) (fs w).
Definition set_fd (fp : option Z) w : World := set_helper (mkHelper fp (filename_ (file_helper_ (sink w)))) w.
Definition set_filename (p : path) w : World := set_helper (mkHelper (fd_ (file_helper_ (sink w))) p) w.

Definition path_exists (p : path) : M World bool := λ w, (w, Done (fs_exists p (fs w))).
Definition mkdir_ (p : path) : M World bool := λ w, let '(s, ok) := fs_mkdir p (fs w) in (set_fs s w, Done ok).
Definition fopen (p : path) (trunc : bool) : M World (option Z) :=
  λ w, let '(s, fp) := fs_fopen p trunc (fs w) in (set_fs s w, Done fp).
Definition fclose (f : Z) : M World unit := modify (λ w, set_fs (fs_fclose f (fs w)).1 w).
Definition os_remove (p : path) : M World unit := modify (λ w, set_fs (fs_remove p (fs w)) w).
Definition os_rename (src dst : path) : M World bool :=
  λ w, let '(s, ok) := fs_rename src dst (fs w) in (set_fs s w, Done ok).

(** The loop of [create_dir] from [search_offset]; each turn moves the offset on. *)
Fixpoint create_dir_loop (fuel : nat) (p : path) (search_offset : Z) : M World bool :=
  match fuel with
  | O => crash OutOfFuel
  | S fuel =>
      let token_pos := default (zlen p) (find_from folder_sep p search_offset) in
      let subdir := substr_to token_pos p in
      bad ← (if bool_decide (subdir = []) then mret false
             else (e ← path_exists subdir;
                   if e : bool then mret false else (ok ← mkdir_ subdir; mret (negb ok))));
      if bad : bool then mret false
      else if token_pos + 1 <? zlen p then create_dir_loop fuel p (token_pos + 1) else mret true
  end.
Definition create_dir (p : path) : M World bool :=
  e ← path_exists p;
  if e : bool then mret true
  else if bool_decide (p = []) then mret false
  else create_dir_loop (S (length p)) p 0.

(** *** file_helper *)
Definition close : M World unit :=
  w ← get;
  match fd_ (file_helper_ (sink w)) with
  | Some f => _ ← fclose f; modify (set_fd None)
  | None => mret tt
  end.

Definition open_tries_ : nat := 5.
(** The tries that are left; between two of them [fopen] failed. *)
Fixpoint open_loop (tries : nat) (fname : path) (truncate : bool) : M World unit :=
  match tries with
  | O => w ← get; throw (str "Failed opening file " ++ filename_ (file_helper_ (sink w)) ++ str " for writing")
  | S tries =>
      _ ← create_dir (dir_name fname);
      ok ← (if truncate then tmp ← fopen fname true;
                              match tmp with Some f => _ ← fclose f; mret true | None => mret false end
            else mret true);
      if negb ok then open_loop tries fname truncate
      else
        fp ← fopen fname false;
        _ ← modify (set_fd fp);
        match fp with Some _ => mret tt | None => open_loop tries fname truncate end
  end.
Definition open (fname : path) (truncate : bool) : M World unit :=
  _ ← close;
  _ ← modify (set_filename fname);
  open_loop open_tries_ fname truncate.

Definition reopen (truncate : bool) : M World unit :=
  w ← get;
  let fname := filename_ (file_helper_ (sink w)) in
  if bool_decide (fname = []) then throw (str "Failed re opening file - was not opened before")
  else open fname truncate.

Definition write (buf : list byte) : M World unit :=
  w ← get;
  match fd_ (file_helper_ (sink w)) with
  | None => crash NullPointer
  | Some f =>
      let '(s, n) := fs_fwrite f buf (fs w) in
      _ ← modify (set_fs s);
      if n =? zlen buf then mret tt
      else throw (str "Failed writing to file " ++ filename_ (file_helper_ (sink w)))
  end.

Definition size : M World Z :=
  w ← get;
  match fd_ (file_helper_ (sink w)) with
  | None => throw (str "Cannot use size() on closed file " ++ filename_ (file_helper_ (sink w)))
  | Some f =>
      match fs_fstat f (fs w) with
      | Some n => mret n
      | None => throw (str "Failed getting file size from fd")
      end
  end.

(** Nobody looks at the result. *)
Definition flush : M World unit := modify (λ w, set_fs (fs_fflush (fd_ (file_helper_ (sink w))) (fs w)).1 w).

(** *** The sink *)
Definition rename_file_ (src_filename target_filename : path) : M World bool :=
  _ ← os_remove target_filename; os_rename src_filename target_filename.

(** The loop of [rotate_] for [i, i - 1 .. 1]. *)
Fixpoint rotate_loop (i : nat) (base : path) : M World unit :=
  match i with
  | O => mret tt
  | S j =>
      let src := calc_filename base (Z.of_nat j) in
      e ← path_exists src;
      if negb e then rotate_loop j base
      else
        let target := calc_filename base (Z.of_nat i) in
        ok ← rename_file_ src target;
        if ok : bool then rotate_loop j base
        else
          ok ← rename_file_ src target;
          if ok : bool then rotate_loop j base
          else
            _ ← reopen true;
            _ ← modify (set_size 0);
            throw (str "rotating_file_sink: failed renaming " ++ src ++ str " to " ++ target)
  end.
Definition rotate_ : M World unit :=
  w ← get;
  _ ← close;
  _ ← rotate_loop (Z.to_nat (max_files_ (sink w))) (base_filename_ (sink w));
  reopen true.

(** [formatted] is what the pattern formatter made of the message. *)
Definition sink_it_ (formatted : list byte) : M World unit :=
  _ ← modify (λ w, set_size (u64 (current_size_ (sink w) + zlen formatted)) w);
  w ← get;
  _ ← (if max_size_ (sink w) <? current_size_ (sink w)
       then _ ← rotate_; modify (set_size (zlen formatted))
       else mret tt);
  write formatted.

(** The constructor; the sink starts without a stream.  When it throws, the destructor of
    [file_helper_] closes the stream. *)
Definition rotating_file_sink_ctor (base_filename : path) (max_size max_files : Z) (rotate_on_open : bool)
    (s : FS) : World * result unit :=
  match (_ ← open (calc_filename base_filename 0) false;
         n ← size;
         _ ← modify (set_size n);
         if rotate_on_open && (0 <? n) then rotate_ else mret tt)
          (mkLW (mkSink base_filename max_size max_files 0 (mkHelper None [])) s) with
  | (w, Throw e) => ((close w).1, Throw e)
  | r => r
  end.
End sink.

(** ** Names *)
Lemma find_last_some c s k : find_last c s = Some k → ∃ l r, s = l ++ c :: r ∧ k = zlen l ∧ c ∉ r.
Proof.
  revert k. induction s as [|b s IH]; intros k; simpl; [done|].
  destruct (find_last c s) as [k'|] eqn:E.
  - intros [= <-]. destruct (IH k' eq_refl) as (l & r & -> & -> & Hr). exists (b :: l), r.
    split_and!; [done|by rewrite zlen_cons|done].
  - case_decide as Hb; [|done]. intros [= <-]. subst. exists [], s. split_and!; [done|done|].
    clear IH. induction s as [|b s IH]; [by intros ?%elem_of_nil|]. simpl in E.
    destruct (find_last c s); [done|]. case_decide; [done|]. intros [?|?]%elem_of_cons; [by subst|by apply IH].
Qed.

Lemma split_by_extension_app fname : (split_by_extension fname).1 ++ (split_by_extension fname).2 = fname.
Proof.
  unfold split_by_extension. destruct (find_last dot fname) as [k|]; [|apply app_nil_r].
  destruct (_ || _); [apply app_nil_r|].
  destruct (find_last folder_sep fname); [destruct (_ <=? _); [apply app_nil_r|]|]; apply take_drop.
Qed.

Lemma calc_filename_pos f i : 0 < i → calc_filename f i =
  (split_by_extension f).1 ++ [dot] ++ to_string i ++ (split_by_extension f).2.
Proof.
  intros Hi. unfold calc_filename. rewrite (proj2 (Z.eqb_neq i 0)) by lia. by destruct (split_by_extension f).
Qed.

(** The names of a sink differ, and none is shorter than the first. *)
Lemma calc_filename_len f i : 0 ≤ i → zlen f ≤ zlen (calc_filename f i) ∧ (0 < i → zlen f < zlen (calc_filename f i)).
Proof.
  intros Hi. destruct (decide (i = 0)) as [->|Hne]; [split; [done|lia]|].
  rewrite calc_filename_pos by lia. rewrite !zlen_app, (zlen_cons dot), zlen_nil.
  assert (zlen f = zlen (split_by_extension f).1 + zlen (split_by_extension f).2) as ->
    by (rewrite <- zlen_app; by rewrite split_by_extension_app).
  pose proof (zlen_nonneg (to_string i)). lia.
Qed.

Lemma calc_filename_inj f i j : 0 ≤ i → 0 ≤ j → calc_filename f i = calc_filename f j → i = j.
Proof.
  intros Hi Hj Heq. destruct (calc_filename_len f i Hi) as [_ Hli], (calc_filename_len f j Hj) as [_ Hlj].
  destruct (decide (i = 0)) as [->|Hni], (decide (j = 0)) as [->|Hnj]; [done| | |].
  - change (calc_filename f 0) with f in Heq. rewrite <- Heq in Hlj. lia.
  - change (calc_filename f 0) with f in Heq. rewrite Heq in Hli. lia.
  - rewrite !calc_filename_pos in Heq by lia. apply app_inv_head, app_inv_head, app_inv_tail in Heq.
    by apply to_string_inj.
Qed.

Lemma find_first_some c s k : find_first c s = Some k → 0 ≤ k < zlen s.
Proof.
  revert k. induction s as [|b s IH]; intros k; simpl; [done|]. rewrite zlen_cons. pose proof (zlen_nonneg s).
  case_decide; [intros [= <-]; lia|]. destruct (find_first c s); [|done]. intros [= <-]. specialize (IH _ eq_refl). lia.
Qed.

Lemma find_from_some c s off k : 0 ≤ off → find_from c s off = Some k → off ≤ k < zlen s.
Proof.
  intros Hoff. unfold find_from. destruct (find_first c _) as [k'|] eqn:E; [|done]. intros [= <-].
  apply find_first_some in E. rewrite zlen_drop in E. lia.
Qed.

Lemma dir_name_len p : p ≠ [] → zlen (dir_name p) < zlen p.
Proof.
  intros Hp. unfold dir_name. assert (0 < zlen p) by (destruct p; [done|rewrite zlen_cons; pose proof (zlen_nonneg p); lia]).
  destruct (find_last folder_sep p) as [k|] eqn:E; [|done].
  destruct (find_last_some _ _ _ E) as (l & r & -> & -> & _). unfold substr_to. rewrite zlen_take, zlen_app, zlen_cons.
  pose proof (zlen_nonneg l). pose proof (zlen_nonneg r). lia.
Qed.

(** ** The operations *)
Section files.
Context {FS : Type} `{FileSystemLaws FS}.
Abbreviation World := (LW FS).
Implicit Types (w : World) (s : FS) (p : path).

Lemma triple_fs {A} (P : World → Prop) (m : M World A) (Q : A → World → Prop) E :
  (∀ w, P w → ∃ a, m w = ((m w).1, Done a) ∧ Q a (m w).1) → triple P m Q E.
Proof. intros Hm w Hw. destruct (Hm w Hw) as (a & -> & Hq). exact Hq. Qed.

(** [create_dir] ends, and only makes directories no longer than its argument. *)
Lemma create_dir_triple p (P : World → Prop) E :
  (∀ w q, zlen q ≤ zlen p → P w → P (set_fs (fs_mkdir q (fs w)).1 w)) → triple P (create_dir p) (λ _, P) E.
Proof.
  intros HP. unfold create_dir.
  apply (triple_bind P _ _ (λ _, P)); [by apply triple_fs; eauto|]. intros [|]; [by apply triple_ret|].
  case_bool_decide as Hp; [by apply triple_ret|].
  assert (Hgen : ∀ fuel off, 0 ≤ off → off < zlen p → zlen p - off < Z.of_nat fuel →
    triple P (create_dir_loop fuel p off) (λ _, P) E).
  { induction fuel as [|fuel IH]; intros off Hoff Hlt Hf; [lia|]. cbn [create_dir_loop].
    set (k := default (zlen p) (find_from folder_sep p off)).
    assert (Hk : off ≤ k ≤ zlen p).
    { unfold k. destruct (find_from folder_sep p off) eqn:E'; simpl; [apply find_from_some in E'; lia|lia]. }
    apply (triple_bind P _ _ (λ _, P)).
    - case_bool_decide; [by apply triple_ret|]. apply (triple_bind P _ _ (λ _, P)); [by apply triple_fs; eauto|].
      intros [|]; [by apply triple_ret|]. apply (triple_bind P _ _ (λ _, P)); [|intros ok; by apply triple_ret].
      apply triple_fs. intros w Hw. unfold mkdir_.
      assert (Hq : zlen (substr_to k p) ≤ zlen p) by (unfold substr_to; rewrite zlen_take; lia).
      specialize (HP w _ Hq Hw). destruct (fs_mkdir (substr_to k p) (fs w)) as [s ok]. by exists ok.
    - intros [|]; [by apply triple_ret|]. destruct (Z.ltb_spec (k + 1) (zlen p)); [|by apply triple_ret].
      apply IH; lia. }
  assert (0 < zlen p) by (destruct p; [done|rewrite zlen_cons; pose proof (zlen_nonneg p); lia]).
  apply Hgen; unfold zlen in *; lia.
Qed.

(** *** The state of one sink

    [h] is what every file holds unless a flush or a close has failed since there were [failed0]
    failures, [fd] the open stream and [sz] the counted size of a sink whose [base_filename_],
    [max_size_] and [max_files_] are the Section's. *)
Definition files : Type := path → option (list byte).
Definition hset (p : path) (c : option (list byte)) (h : files) : files := λ q, if decide (q = p) then c else h q.

Context (base : path) (mx mf : Z) (Hbase : base ≠ []) (Hmf : 0 ≤ mf) (failed0 : nat).
Abbreviation name := (calc_filename base).

(** One of the names of the sink. *)
Definition named (p : path) : Prop := ∃ k, 0 ≤ k ≤ mf ∧ p = name k.

Record state (h : files) (fd : option Z) (sz : Z) (w : World) : Prop := {
  st_base : base_filename_ (sink w) = base;
  st_max : max_size_ (sink w) = mx;
  st_files : max_files_ (sink w) = mf;
  st_name : filename_ (file_helper_ (sink w)) = base;
  st_size : current_size_ (sink w) = sz;
  st_fd : fd_ (file_helper_ (sink w)) = fd;
  st_stream f : fd = Some f → fs_stream f (fs w) = Some base;
  st_lost : (failed0 ≤ fs_failures (fs w))%nat;
  st_content q : fs_failures (fs w) = failed0 → fs_content q (fs w) = h q;
  st_dir k : 0 ≤ k ≤ mf → fs_dir (name k) (fs w) = false
}.

Lemma hset_eq p c h : hset p c h p = c.
Proof. unfold hset. by rewrite decide_True. Qed.
Lemma hset_ne p q c h : q ≠ p → hset p c h q = h q.
Proof. intros. unfold hset. by rewrite decide_False. Qed.

Lemma state_ext h h' fd sz w : (∀ q, h q = h' q) → state h fd sz w → state h' fd sz w.
Proof. intros Heq []. split; try done. intros q. rewrite <- Heq. apply st_content0. Qed.

(** Once something was lost, the files may be any. *)
Lemma state_any h h' fd sz w : fs_failures (fs w) ≠ failed0 → state h fd sz w → state h' fd sz w.
Proof. intros Hne []. by split. Qed.

(** A step of the file system alone, with no stream open. *)
Lemma state_fs h h' sz w s : state h None sz w → (fs_failures (fs w) ≤ fs_failures s)%nat →
  (fs_failures s = failed0 → ∀ q, fs_content q s = h' q) →
  (∀ q, fs_dir q s = true → fs_dir q (fs w) = true) → state h' None sz (set_fs s w).
Proof.
  intros [] Hf Hc Hd. split; try done; simpl; [lia|intros; by apply Hc|]. intros k Hk. destruct (fs_dir (name k) s) eqn:E; [|done].
  apply Hd in E. by rewrite st_dir0 in E.
Qed.

Lemma state_frame h sz w s : state h None sz w → fs_frame (λ _, False) (fs w) s → state h None sz (set_fs s w).
Proof.
  intros Hst [[Hc Hd] Hf]. apply (state_fs h); [done|lia| |done]. intros E q. rewrite (Hc q) by tauto. apply Hst. lia.
Qed.

(** A flush or a close of the sink's stream. *)
Lemma flushed_failures P s r : fs_flushed P s r → (fs_failures s ≤ fs_failures r.1)%nat ∧
  (∀ q, fs_dir q r.1 = true → fs_dir q s = true) ∧
  (fs_failures r.1 = failed0 → (failed0 ≤ fs_failures s)%nat → fs_failures s = failed0 ∧ ∀ q, fs_content q r.1 = fs_content q s).
Proof.
  unfold fs_flushed. destruct r.2; [intros [[Hc Hd] Hf]|intros [[Hc Hd] Hf]].
  - split_and!; [lia|done|]. intros. split; [lia|]. intros q. apply Hc. tauto.
  - split_and!; [lia|done|]. lia.
Qed.

Lemma state_flushed h fd sz w P r : state h fd sz w → fs_flushed P (fs w) r →
  (∀ f, fd = Some f → fs_stream f r.1 = Some base) → state h fd sz (set_fs r.1 w).
Proof.
  intros [] Hr Hs. apply flushed_failures in Hr as (Hf & Hd & Hc). split; try done; simpl; [lia|..].
  - intros q E. destruct (Hc E) as [E' Hq]; [lia|]. rewrite Hq. by apply st_content0.
  - intros k Hk. destruct (fs_dir (name k) _) eqn:E'; [|done]. apply Hd in E'. by rewrite st_dir0 in E'.
Qed.

(** Two names of the sink are one only if their numbers are, and none names a directory above it. *)
Lemma name_ne i j : 0 ≤ i → 0 ≤ j → i ≠ j → name i ≠ name j.
Proof. intros Hi Hj Hne Heq. by apply calc_filename_inj in Heq. Qed.

Lemma state_mkdir h fd sz w q : zlen q ≤ zlen (dir_name base) → state h fd sz w →
  (∀ f, fd = Some f → fs_stream f (fs_mkdir q (fs w)).1 = Some base) → state h fd sz (set_fs (fs_mkdir q (fs w)).1 w).
Proof.
  intros Hq [] Hf. destruct (law_mkdir q (fs w)) as (Hc & Hd & Hfl). split; try done.
  - simpl. by rewrite Hfl.
  - intros q' E. simpl in *. rewrite Hc. apply st_content0. lia.
  - intros k Hk. simpl. destruct (fs_dir (name k) _) eqn:E; [|done]. destruct (Hd _ E) as [E'| <-].
    + by rewrite st_dir0 in E'.
    + destruct (calc_filename_len base k) as [Hl _]; [lia|]. pose proof (dir_name_len base Hbase). lia.
Qed.

Lemma state_unset h sz w : state h None sz w → state h None sz (set_fd None w).
Proof. intros []. by split. Qed.

(** *** file_helper *)
Lemma close_triple h fd sz E : triple (state h fd sz) close (λ _, state h None sz) E.
Proof.
  intros w Hst. pose proof (st_fd _ _ _ _ Hst) as Hfd. unfold close, get, mbind, M_bind. rewrite Hfd.
  destruct fd as [f|]; [|done].
  assert (Hst0 : state h None sz (set_fd None w)) by (destruct Hst; by split).
  by apply (state_flushed _ _ _ _ _ _ Hst0 (law_fclose f (fs w))).
Qed.

(** What the file holds once it is opened. *)
Definition opened_content (truncate : bool) (h : files) : list byte :=
  if truncate then [] else default [] (h base).

(** Opened: a stream on [base], with nothing buffered yet. *)
Definition opened (truncate : bool) (h : files) (sz : Z) (w : World) : Prop :=
  ∃ f, state (hset base (Some (opened_content truncate h)) h) (Some f) sz w ∧
    ∀ n, fs_failures (fs w) = failed0 → fs_fstat f (fs w) = Some n → n = zlen (opened_content truncate h).

(** Not opened: at most [base] was touched. *)
Definition shut (h : files) (sz : Z) (w : World) : Prop :=
  ∃ h', state h' None sz w ∧ ∀ q, q ≠ base → h' q = h q.

Lemma fopen_set_fd_triple h sz E :
  triple (state h None sz) (fp ← fopen base false; _ ← modify (set_fd fp); mret fp)
    (λ fp w, match fp with Some _ => opened false h sz w | None => state h None sz w end) E.
Proof.
  intros w Hst. unfold mbind, M_bind, fopen, modify, mret, M_ret.
  pose proof (law_fopen base false (fs w)) as Hl. pose proof (law_fstat base (fs w)) as Hn.
  destruct (fs_fopen base false (fs w)) as [s fp] eqn:E'. destruct fp as [f|].
  - destruct Hl as ([[Hc Hd] Hfl] & Hs & Hb). destruct Hst. exists f. split.
    + split; try done; simpl.
      * by intros ? [= <-].
      * by rewrite Hfl.
      * intros q Hlost. rewrite Hfl in Hlost. unfold hset. case_decide as Hq; [subst; by rewrite Hb, st_content0|].
        rewrite Hc; [by apply st_content0|]. by intros <-.
      * intros k Hk. destruct (fs_dir (name k) s) eqn:Ed; [|done]. apply Hd in Ed. by rewrite st_dir0 in Ed.
    + intros n Hlost Hf. simpl in Hf, Hlost. rewrite Hfl in Hlost. unfold opened_content. rewrite <- st_content0 by done. by apply (Hn s f n).
  - by apply state_unset, state_frame.
Qed.

Lemma fopen_trunc_triple h sz E :
  triple (state h None sz) (tmp ← fopen base true; match tmp with Some f => _ ← fclose f; mret true | None => mret false end)
    (λ ok, state (if ok : bool then hset base (Some []) h else h) None sz) E.
Proof.
  intros w Hst. unfold mbind, M_bind, fopen, fclose, modify, mret, M_ret.
  pose proof (law_fopen base true (fs w)) as Hl.
  destruct (fs_fopen base true (fs w)) as [s fp]. destruct fp as [f|].
  - destruct Hl as ([[Hc Hd] Hfl] & Hs & Hb).
    assert (Hst' : state (hset base (Some []) h) None sz (set_fs s w)).
    { apply (state_fs h); [done|lia| |done]. intros E' q. unfold hset. case_decide as Hq; [by subst|].
      rewrite Hc; [apply Hst; lia|]. by intros <-. }
    by apply (state_flushed _ _ _ _ _ _ Hst' (law_fclose f s)).
  - by apply state_frame.
Qed.

Lemma open_loop_triple tries truncate h sz :
  triple (state h None sz) (open_loop tries base truncate) (λ _, opened truncate h sz) (shut h sz).
Proof.
  revert h. induction tries as [|tries IH]; intros h; cbn [open_loop].
  { eapply triple_bind; [apply (triple_get _ (λ _, state h None sz)); eauto|]. intros w.
    apply triple_throw. intros w' Hst. by exists h. }
  apply (triple_bind _ _ _ (λ _, state h None sz)).
  { apply create_dir_triple. intros w q Hq Hst. by apply state_mkdir. }
  intros _. apply (triple_bind _ _ _ (λ ok, state (if (ok && truncate)%bool then hset base (Some []) h else h) None sz)).
  { destruct truncate; [|by apply triple_ret]. eapply triple_post; [apply fopen_trunc_triple with (E := λ _, False)| |done].
    intros [|] w; simpl; done. }
  intros [|]; cbn [negb andb]; [|apply IH].
  set (h1 := if truncate then hset base (Some []) h else h).
  assert (Hop : ∀ w, opened false h1 sz w → opened truncate h sz w).
  { intros w (f & Hst & Hn). unfold h1 in *. destruct truncate; [|by exists f].
    unfold opened_content in *. rewrite hset_eq in *. exists f. split; [|done].
    eapply state_ext; [|exact Hst]. intros q. unfold hset. by case_decide. }
  intros w Hst. pose proof (fopen_set_fd_triple h1 sz (λ _, False) w Hst) as Ht.
  unfold mbind, M_bind, mret, M_ret in Ht |- *. destruct (fopen base false w) as [w1 [fp|e|x]]; [|done..].
  unfold modify in *. destruct fp as [f|]; [by apply Hop|].
  specialize (IH h1 _ Ht). destruct (open_loop tries base truncate _) as [w2 [a|e|x]]; [| |done].
  - destruct IH as (f & Hst2 & Hn). unfold h1 in *. destruct truncate; [|by exists f]. exists f. split; [|done].
    eapply state_ext; [|exact Hst2]. intros q. unfold opened_content, hset. by case_decide.
  - destruct IH as (h2 & Hst2 & Hq). exists h2. split; [done|]. intros q Hne. rewrite Hq by done.
    unfold h1. destruct truncate; [by apply hset_ne|done].
Qed.

Lemma open_triple truncate h fd sz :
  triple (state h fd sz) (open base truncate) (λ _, opened truncate h sz) (shut h sz).
Proof.
  unfold open. apply (triple_bind _ _ _ (λ _, state h None sz)); [apply close_triple|intros _].
  apply (triple_bind _ _ _ (λ _, state h None sz)); [|intros _; apply open_loop_triple].
  apply triple_modify. intros w []. by split.
Qed.

Lemma reopen_triple truncate h fd sz :
  triple (state h fd sz) (reopen truncate) (λ _, opened truncate h sz) (shut h sz).
Proof.
  intros w Hst. pose proof (open_triple truncate h fd sz w Hst) as Ht.
  unfold reopen, get, mbind, M_bind. rewrite (st_name _ _ _ _ Hst). by rewrite bool_decide_false.
Qed.

Lemma write_triple h f sz buf c E : h base = Some c →
  (∀ w n, 0 ≤ n ≤ zlen buf → state (hset base (Some (c ++ take (Z.to_nat n) buf)) h) (Some f) sz w → E w) →
  triple (state h (Some f) sz) (write buf) (λ _, state (hset base (Some (c ++ buf)) h) (Some f) sz) E.
Proof.
  intros Hb HE w Hst. unfold write, get, mbind, M_bind. rewrite (st_fd _ _ _ _ Hst).
  pose proof (law_fwrite f buf base (fs w)) as Hl. specialize (Hl (st_stream _ _ _ _ Hst _ eq_refl)).
  destruct (fs_fwrite f buf (fs w)) as [s n]. destruct Hl as ([[Hc Hd] Hfl] & Hn & Hs & Hw). unfold modify.
  assert (Hst' : state (hset base (Some (c ++ take (Z.to_nat n) buf)) h) (Some f) sz (set_fs s w)).
  { destruct Hst. split; try done; simpl.
    - by intros ? [= <-].
    - by rewrite Hfl.
    - intros q E'. rewrite Hfl in E'. unfold hset. case_decide as Hq; [subst; apply Hw; by rewrite st_content0|].
      rewrite Hc; [by apply st_content0|]. by intros <-.
    - intros k Hk. destruct (fs_dir (name k) s) eqn:Ed; [|done]. apply Hd in Ed. by rewrite st_dir0 in Ed. }
  destruct (Z.eqb_spec n (zlen buf)) as [->|Hne].
  - unfold mret, M_ret. eapply state_ext; [|exact Hst']. intros q. unfold zlen, hset. rewrite Nat2Z.id, firstn_all. done.
  - unfold throw. by apply (HE _ n).
Qed.

Lemma flush_triple h fd sz E : triple (state h fd sz) flush (λ _, state h fd sz) E.
Proof.
  apply triple_modify. intros w Hst. destruct (law_fflush (fd_ (file_helper_ (sink w))) (fs w)) as [Hf Hs].
  apply (state_flushed _ _ _ _ _ _ Hst Hf). intros f E'. rewrite Hs. by apply (st_stream _ _ _ _ Hst).
Qed.

(** *** Rotation *)

(** One turn of the loop: file [j] takes the place of file [j + 1]. *)
Definition moved (j : nat) (h : files) : files :=
  match h (name (Z.of_nat j)) with
  | None => h
  | Some c => hset (name (Z.of_nat (S j))) (Some c) (hset (name (Z.of_nat j)) None h)
  end.
Fixpoint shifted (i : nat) (h : files) : files := match i with O => h | S j => shifted j (moved j h) end.

Lemma moved_ne j h q : q ≠ name (Z.of_nat j) → q ≠ name (Z.of_nat (S j)) → moved j h q = h q.
Proof. intros. unfold moved. destruct (h _); [|done]. by rewrite !hset_ne. Qed.

Lemma moved_src j h : moved j h (name (Z.of_nat j)) = None.
Proof.
  unfold moved. destruct (h _) eqn:E; [|done]. rewrite hset_ne, hset_eq; [done|]. apply name_ne; lia.
Qed.

Lemma moved_dst j h : moved j h (name (Z.of_nat (S j))) =
  match h (name (Z.of_nat j)) with Some c => Some c | None => h (name (Z.of_nat (S j))) end.
Proof. unfold moved. destruct (h (name (Z.of_nat j))); [by rewrite hset_eq|done]. Qed.

Lemma shifted_out i h q : (∀ k : nat, (k ≤ i)%nat → q ≠ name (Z.of_nat k)) → shifted i h q = h q.
Proof.
  revert h. induction i as [|j IH]; intros h Hq; [done|]. cbn [shifted].
  rewrite IH by (intros; apply Hq; lia). apply moved_ne; apply Hq; lia.
Qed.

Lemma name_nat_ne (i j : nat) : i ≠ j → name (Z.of_nat i) ≠ name (Z.of_nat j).
Proof. intros. apply name_ne; lia. Qed.

(** Every file moves up one place, and the last is lost unless nothing takes its place. *)
Lemma shifted_in i h : (0 < i)%nat →
  (∀ k : nat, (0 < k < i)%nat → shifted i h (name (Z.of_nat k)) = h (name (Z.of_nat (k - 1)))) ∧
  shifted i h (name (Z.of_nat i)) =
    match h (name (Z.of_nat (i - 1))) with Some c => Some c | None => h (name (Z.of_nat i)) end ∧
  shifted i h base = None.
Proof.
  revert h. induction i as [|j IH]; intros h Hi; [lia|]. cbn [shifted].
  replace (S j - 1)%nat with j by lia. destruct (decide (j = 0%nat)) as [->|Hj].
  { split_and!; [intros; lia|apply moved_dst|apply (moved_src 0)]. }
  destruct (IH (moved j h)) as (Hmid & Hlast & Hz); [lia|]. split_and!; [| |done].
  - intros k Hk. destruct (decide (k = j)) as [->|Hne].
    + rewrite Hlast, moved_src. rewrite moved_ne by (apply name_nat_ne; lia). by destruct (h _).
    + rewrite Hmid by lia. apply moved_ne; apply name_nat_ne; lia.
  - rewrite shifted_out by (intros; apply name_nat_ne; lia). apply moved_dst.
Qed.

(** A failed rotation: the files may have moved, those of others have not; the sink is empty
    and counts from 0, or has no stream and still counts more than it may hold. *)
Definition rotate_failed (h : files) (sz : Z) (w : World) : Prop :=
  ∃ h', (∀ q, ¬ named q → h' q = h q) ∧
    ((∃ f, state h' (Some f) 0 w ∧ h' base = Some []) ∨ state h' None sz w).

Lemma named_base : named base.
Proof. exists 0. by split. Qed.

Lemma path_exists_triple k h sz E : 0 ≤ k ≤ mf →
  triple (state h None sz) (path_exists (name k))
    (λ e w, state h None sz w ∧ (fs_failures (fs w) = failed0 → e = bool_decide (is_Some (h (name k))))) E.
Proof.
  intros Hk w Hst. simpl. split; [done|]. intros E'. rewrite law_exists, (st_dir _ _ _ _ Hst) by done.
  by rewrite orb_false_r, (st_content _ _ _ _ Hst).
Qed.

Lemma rename_file_triple j h sz n E : Z.of_nat (S j) ≤ mf →
  triple (λ w, fs_failures (fs w) = n ∧ ∃ h', state h' None sz w ∧ ∀ q, q ≠ name (Z.of_nat (S j)) → h' q = h q)
    (rename_file_ (name (Z.of_nat j)) (name (Z.of_nat (S j))))
    (λ ok w, fs_failures (fs w) = n ∧ if ok : bool
       then state (hset (name (Z.of_nat (S j))) (h (name (Z.of_nat j))) (hset (name (Z.of_nat j)) None h)) None sz w
       else ∃ h', state h' None sz w ∧ ∀ q, q ≠ name (Z.of_nat (S j)) → h' q = h q) E.
Proof.
  intros Hj w (Hn & h1 & Hst & Hh). set (src := name (Z.of_nat j)). set (dst := name (Z.of_nat (S j))).
  assert (Hne : src ≠ dst) by (apply name_nat_ne; lia).
  unfold rename_file_, os_remove, os_rename, modify, mbind, M_bind.
  destruct (law_remove dst (fs w)) as [[[Hc Hd] Hfl] _]. set (w1 := set_fs (fs_remove dst (fs w)) w).
  assert (Hw1 : state (λ q, fs_content q (fs w1)) None sz w1).
  { apply (state_fs h1); [done|lia|done|exact Hd]. }
  assert (Hsrc : fs_failures (fs w) = failed0 → ∀ q, q ≠ dst → fs_content q (fs w1) = h q).
  { intros El q Hq. simpl. rewrite Hc by (by intros <-). rewrite (st_content _ _ _ _ Hst) by done. by apply Hh. }
  pose proof (law_rename src dst (fs w1) (st_dir _ _ _ _ Hw1 (Z.of_nat j) ltac:(lia)) Hne) as Hl.
  destruct (fs_rename src dst (fs w1)) as [s ok]. destruct ok.
  - destruct Hl as ([[Hc2 Hd2] Hfl2] & Hdst & Hs). simpl in Hfl2. split; [simpl; lia|]. apply (state_fs (λ q, fs_content q (fs w1))); [done|simpl; lia| |done].
    intros El q. specialize (Hsrc ltac:(lia)). unfold hset. case_decide as H1; [subst q; rewrite Hdst; by apply Hsrc|].
    case_decide as H2; [by subst|]. rewrite Hc2; [by apply Hsrc|]. by intros [->| ->].
  - split; [destruct Hl as [_ Hfl2]; simpl in *; lia|]. destruct (decide (fs_failures (fs w) = failed0)) as [El|El].
    + exists (λ q, fs_content q (fs w1)). split; [by apply state_frame|by apply Hsrc].
    + exists h. split; [|done]. apply (state_any (λ q, fs_content q (fs w1))); [|by apply state_frame].
      destruct Hl as [_ Hfl2]. simpl in *. lia.
Qed.

Lemma rotate_loop_triple i h sz : Z.of_nat i ≤ mf →
  triple (state h None sz) (rotate_loop i base) (λ _, state (shifted i h) None sz) (rotate_failed h sz).
Proof.
  revert h. induction i as [|j IH]; intros h Hi; cbn [rotate_loop shifted]; [by apply triple_ret|].
  assert (Hnm : ∀ q, ¬ named q → q ≠ name (Z.of_nat j) ∧ q ≠ name (Z.of_nat (S j))).
  { intros q Hq. split; intros ->; apply Hq; eexists; split; [|done| |done]; lia. }
  assert (Hrest : triple (state (moved j h) None sz) (rotate_loop j base) (λ _, state (shifted j (moved j h)) None sz) (rotate_failed h sz)).
  { eapply triple_post; [apply IH; lia|done|]. intros w (h' & Ho & Hw). exists h'. split; [|done].
    intros q Hq. rewrite Ho by done. destruct (Hnm q Hq). by apply moved_ne. }
  eapply triple_bind; [apply path_exists_triple; lia|]. intros e w [Hst He].
  destruct e; cbn [negb].
  2: { apply Hrest. destruct (decide (fs_failures (fs w) = failed0)) as [El|El]; [|by apply (state_any h)].
       specialize (He El). symmetry in He. apply bool_decide_eq_false in He. unfold moved. destruct (h (name (Z.of_nat j))); [|done]. destruct He. by eexists. }
  assert (He' : fs_failures (fs w) = failed0 → is_Some (h (name (Z.of_nat j)))).
  { intros El. specialize (He El). symmetry in He. by apply bool_decide_eq_true in He. }
  assert (Hpre : ∃ h', state h' None sz w ∧ ∀ q, q ≠ name (Z.of_nat (S j)) → h' q = h q) by eauto.
  remember (fs_failures (fs w)) as n eqn:Hn. pose proof (conj (eq_sym Hn) Hpre) as Hpre'. rename He' into Hsome. clear Hst He Hpre Hn. revert w Hpre'.
  assert (Hok : ∀ w, fs_failures (fs w) = n ∧ state (hset (name (Z.of_nat (S j))) (h (name (Z.of_nat j))) (hset (name (Z.of_nat j)) None h)) None sz w →
    state (moved j h) None sz w).
  { intros w [Hn Hst]. destruct (decide (n = failed0)) as [El|El]; [|eapply state_any; [by rewrite Hn|done]].
    unfold moved. destruct (Hsome El) as [c Hc]. by rewrite Hc in *. }
  eapply triple_bind; [by apply rename_file_triple|]. intros [|]; [by eapply triple_pre|].
  eapply triple_bind; [by apply rename_file_triple|]. intros [|]; [by eapply triple_pre|].
  intros w (_ & h' & Hst & Hh). assert (Hh' : ∀ q, ¬ named q → h' q = h q).
  { intros q Hq. apply Hh. by destruct (Hnm q Hq). }
  pose proof (reopen_triple true h' None sz w Hst) as Hr. unfold mbind, M_bind.
  destruct (reopen true w) as [w1 [a|e|x]]; [| |done].
  - destruct Hr as (f & Hst1 & _). exists (hset base (Some []) h'). split.
    + intros q Hq. rewrite hset_ne; [by apply Hh'|]. intros ->. apply Hq, named_base.
    + left. exists f. split; [|apply hset_eq]. destruct Hst1. by split.
  - destruct Hr as (h2 & Hst1 & Hq1). exists h2. split; [|by right]. intros q Hq. rewrite Hq1; [by apply Hh'|].
    intros ->. apply Hq, named_base.
Qed.

(** A rotation moves every file up and opens an empty one. *)
Lemma rotate_triple h fd sz :
  triple (state h fd sz) rotate_ (λ _ w, ∃ f, state (hset base (Some []) (shifted (Z.to_nat mf) h)) (Some f) sz w)
    (rotate_failed h sz).
Proof.
  intros w Hst. pose proof (close_triple h fd sz (λ _, False) w Hst) as Hcl. unfold rotate_, get, mbind, M_bind.
  rewrite (st_files _ _ _ _ Hst), (st_base _ _ _ _ Hst). destruct (close w) as [w1 [a|e|x]]; [|done..].
  pose proof (rotate_loop_triple (Z.to_nat mf) h sz) as Hl. specialize (Hl ltac:(lia) w1 Hcl).
  destruct (rotate_loop _ _ w1) as [w2 [a'|e|x]]; [|done..].
  pose proof (reopen_triple true _ _ _ _ Hl) as Hr. destruct (reopen true w2) as [w3 [a2|e|x]]; [| |done].
  - destruct Hr as (f & Hst3 & _). by exists f.
  - destruct Hr as (h2 & Hst3 & Hq). exists h2. split; [|by right]. intros q Hnq. rewrite Hq.
    + apply shifted_out. intros k Hk ->. apply Hnq. exists (Z.of_nat k). split; [lia|done].
    + intros ->. apply Hnq, named_base.
Qed.

(** *** Writing a message *)

(** What the sink needs between messages: it has a stream and has counted all its file holds,
    or it has none and the next message makes it rotate. *)
Definition ready (h : files) (fd : option Z) (sz : Z) : Prop :=
  match fd with Some _ => ∃ c, h base = Some c ∧ zlen c ≤ sz | None => mx < sz end.

(** A message that fits is appended; one that does not starts a new file, and each old file
    moves up one place. *)
Definition delivered (h : files) (sz : Z) (msg : list byte) (h' : files) : Prop :=
  if mx <? sz + zlen msg then
    h' base = Some msg ∧
    (∀ k, 0 < k < mf → h' (name k) = h (name (k - 1))) ∧
    (0 < mf → h' (name mf) = match h (name (mf - 1)) with Some c => Some c | None => h (name mf) end) ∧
    (∀ q, ¬ named q → h' q = h q)
  else ∃ c, h base = Some c ∧ h' base = Some (c ++ msg) ∧ ∀ q, q ≠ base → h' q = h q.

(** [w] is in a state between messages, with at most [sz] bytes counted and the files of [h]
    that are not the sink's. *)
Definition between (h : files) (sz : Z) (w : World) : Prop :=
  ∃ h' fd sz', state h' fd sz' w ∧ ready h' fd sz' ∧ 0 ≤ sz' ≤ sz ∧ ∀ q, ¬ named q → h' q = h q.

Lemma shifted_files h k : 0 < k < mf → shifted (Z.to_nat mf) h (name k) = h (name (k - 1)).
Proof.
  intros Hk. destruct (shifted_in (Z.to_nat mf) h) as (Hm & _); [lia|].
  specialize (Hm (Z.to_nat k) ltac:(lia)). rewrite Z2Nat.id in Hm by lia. rewrite Hm. do 2 f_equal. lia.
Qed.

Lemma shifted_last_file h : 0 < mf → shifted (Z.to_nat mf) h (name mf) =
  match h (name (mf - 1)) with Some c => Some c | None => h (name mf) end.
Proof.
  intros Hk. destruct (shifted_in (Z.to_nat mf) h) as (_ & Hl & _); [lia|]. rewrite Z2Nat.id in Hl by lia.
  by replace (Z.of_nat (Z.to_nat mf - 1)) with (mf - 1) in Hl by lia.
Qed.

Lemma delivered_rotated h sz msg : mx < sz + zlen msg →
  delivered h sz msg (hset base (Some msg) (hset base (Some []) (shifted (Z.to_nat mf) h))).
Proof.
  intros Hlt. unfold delivered. rewrite (proj2 (Z.ltb_lt _ _)) by done. split_and!; [apply hset_eq| | |].
  - intros k Hk. rewrite !hset_ne by (apply (name_ne k 0); lia). by apply shifted_files.
  - intros Hk. rewrite !hset_ne by (apply (name_ne mf 0); lia). by apply shifted_last_file.
  - intros q Hq. rewrite !hset_ne by (intros ->; apply Hq, named_base). apply shifted_out.
    intros k Hk ->. apply Hq. exists (Z.of_nat k). split; [lia|done].
Qed.

(** The write that ends [sink_it_]. *)
Lemma write_between h0 h f sz c buf : h base = Some c → zlen c + zlen buf ≤ sz → (∀ q, ¬ named q → h q = h0 q) →
  triple (state h (Some f) sz) (write buf) (λ _, state (hset base (Some (c ++ buf)) h) (Some f) sz) (between h0 sz).
Proof.
  intros Hb Hsz Ho. pose proof (zlen_nonneg c). pose proof (zlen_nonneg buf). apply write_triple; [done|].
  intros w n Hn Hst. eexists _, _, _. split; [exact Hst|]. split_and!; [|lia..|].
  - exists (c ++ take (Z.to_nat n) buf). rewrite hset_eq. split; [done|]. rewrite zlen_app, zlen_take. lia.
  - intros q Hq. rewrite hset_ne; [by apply Ho|]. intros ->. apply Hq, named_base.
Qed.

Lemma sink_it_triple h fd sz msg : 0 ≤ mx → 0 ≤ sz → sz + zlen msg < 2 ^ 64 → ready h fd sz →
  triple (state h fd sz) (sink_it_ msg)
    (λ _ w, ∃ h' f sz', state h' (Some f) sz' w ∧ ready h' (Some f) sz' ∧ 0 ≤ sz' ≤ sz + zlen msg ∧
       zlen (default [] (h' base)) ≤ Z.max mx (zlen msg) ∧ delivered h sz msg h')
    (between h (sz + zlen msg)).
Proof.
  intros Hmx Hsz Hlt Hr w Hst. pose proof (zlen_nonneg msg).
  unfold sink_it_, modify, get, mbind, M_bind. rewrite (st_size _ _ _ _ Hst).
  rewrite u64_small by lia. set (w1 := set_size (sz + zlen msg) w).
  assert (Hst1 : state h fd (sz + zlen msg) w1) by (destruct Hst; by split).
  rewrite (st_max _ _ _ _ Hst1), (st_size _ _ _ _ Hst1). destruct (Z.ltb_spec mx (sz + zlen msg)) as [Hgt|Hle].
  - pose proof (rotate_triple h fd _ w1 Hst1) as Ht. destruct (rotate_ w1) as [w2 [a|e|x]]; [| |done].
    + destruct Ht as [f Hst2]. set (h2 := hset base (Some []) (shifted (Z.to_nat mf) h)) in *.
      assert (Hst3 : state h2 (Some f) (zlen msg) (set_size (zlen msg) w2)) by (destruct Hst2; by split).
      pose proof (delivered_rotated h sz msg Hgt) as Hd.
      pose proof (write_between h h2 f (zlen msg) [] msg (hset_eq _ _ _) ltac:(rewrite zlen_nil; lia)) as Hw.
      specialize (Hw ltac:(intros q Hq; unfold h2; rewrite hset_ne by (intros ->; apply Hq, named_base);
        apply shifted_out; intros k Hk ->; apply Hq; exists (Z.of_nat k); split; [lia|done])).
      specialize (Hw _ Hst3). destruct (write msg _) as [w3 [a'|e|x]]; [| |done].
      * eexists _, f, (zlen msg). split; [exact Hw|]. rewrite hset_eq. split_and!; [|lia..| |done].
        -- exists msg. by rewrite hset_eq.
        -- simpl. lia.
      * destruct Hw as (h' & fd' & sz' & ? & ? & ? & ?). exists h', fd', sz'. split_and!; [done|done|lia..|done].
    + destruct Ht as (h' & Ho & [(f & Hst2 & Hb)|Hst2]).
      * exists h', (Some f), 0. split_and!; [done| |lia..|done]. by exists [].
      * exists h', None, (sz + zlen msg). split_and!; [done|done|lia..|done].
  - destruct fd as [f|]; [|simpl in Hr; lia]. destruct Hr as (c & Hc & Hle').
    pose proof (write_between h h f (sz + zlen msg) c msg Hc ltac:(lia) ltac:(done) _ Hst1) as Hw.
    unfold mret, M_ret. destruct (write msg w1) as [w3 [a'|e|x]]; [| |done].
    + eexists _, f, _. split; [exact Hw|]. rewrite hset_eq. split_and!; [|lia..| |].
      * exists (c ++ msg). rewrite hset_eq, zlen_app. split; [done|lia].
      * simpl. rewrite zlen_app. lia.
      * unfold delivered. rewrite (proj2 (Z.ltb_ge _ _)) by done. exists c. split_and!; [done|apply hset_eq|].
        intros q Hq. by apply hset_ne.
    + exact Hw.
Qed.

(** *** The log as a whole *)

(** The files from number [n] down to the current one, oldest first. *)
Fixpoint archive (n : nat) (h : files) : list byte :=
  match n with
  | O => default [] (h base)
  | S m => default [] (h (name (Z.of_nat n))) ++ archive m h
  end.
Definition journal (h : files) : list byte := archive (Z.to_nat mf) h.

Lemma archive_ext n h h' : (∀ k : nat, (k ≤ n)%nat → h (name (Z.of_nat k)) = h' (name (Z.of_nat k))) → archive n h = archive n h'.
Proof.
  intros Heq. induction n as [|n IH]; cbn [archive].
  - by rewrite (Heq O ltac:(lia) : h base = h' base).
  - rewrite (Heq (S n)) by lia. rewrite IH; [done|]. intros k Hk. apply Heq. lia.
Qed.

Lemma archive_shift n h h' msg : h' base = Some msg →
  (∀ k : nat, (0 < k ≤ S n)%nat → h' (name (Z.of_nat k)) = h (name (Z.of_nat (k - 1)))) →
  archive (S n) h' = archive n h ++ msg.
Proof.
  intros Hb. induction n as [|n IH]; intros Hk.
  - cbn [archive]. rewrite Hb. rewrite (Hk 1%nat) by lia. done.
  - change (archive (S (S n)) h') with (default [] (h' (name (Z.of_nat (S (S n))))) ++ archive (S n) h').
    rewrite IH by (intros; apply Hk; lia). rewrite (Hk (S (S n))) by lia.
    replace (S (S n) - 1)%nat with (S n) by lia. cbn [archive]. by rewrite app_assoc.
Qed.

Lemma archive_append n h h' c msg : h base = Some c → h' base = Some (c ++ msg) → (∀ q, q ≠ base → h' q = h q) →
  archive n h' = archive n h ++ msg.
Proof.
  intros Hb Hb' Ho. induction n as [|n IH]; cbn [archive]; [by rewrite Hb, Hb'|].
  rewrite IH, app_assoc. do 2 f_equal. rewrite Ho; [done|]. apply (name_ne (Z.of_nat (S n)) 0); lia.
Qed.

(** A message ends the log, and only a front of it is lost. *)
Lemma delivered_journal h sz msg h' : delivered h sz msg h' → ∃ lost, journal h ++ msg = lost ++ journal h'.
Proof.
  unfold delivered, journal. case_match.
  2: { intros (c & Hb & Hb' & Ho). exists []. by rewrite (archive_append _ _ _ _ _ Hb Hb' Ho). }
  intros (Hb & Hmid & Hlast & _). remember (Z.to_nat mf) as n eqn:Hn. destruct n as [|n].
  { exists (default [] (h base)). cbn [archive]. by rewrite Hb. }
  specialize (Hlast ltac:(lia)). replace (mf - 1) with (Z.of_nat n) in Hlast by lia.
  replace mf with (Z.of_nat (S n)) in Hlast by lia.
  assert (Hmid' : ∀ k : nat, (0 < k ≤ n)%nat → h' (name (Z.of_nat k)) = h (name (Z.of_nat (k - 1)))).
  { intros k Hk. rewrite Hmid by lia. do 2 f_equal. lia. }
  destruct (h (name (Z.of_nat n))) as [c|] eqn:Hc.
  - exists (default [] (h (name (Z.of_nat (S n))))).
    rewrite (archive_shift n h h' msg Hb); [cbn [archive]; by rewrite app_assoc|].
    intros k Hk. destruct (decide (k = S n)) as [->|Hne]; [|apply Hmid'; lia].
    rewrite Hlast. replace (S n - 1)%nat with n by lia. by rewrite Hc.
  - destruct n as [|n].
    + exists []. cbn [archive app]. rewrite Hlast, Hb. change (h base = None) in Hc. rewrite Hc. simpl. by rewrite app_nil_r.
    + exists []. cbn [app]. change (archive (S (S n)) h') with (default [] (h' (name (Z.of_nat (S (S n))))) ++ archive (S n) h').
      rewrite (archive_shift n h h' msg Hb) by (intros; apply Hmid'; lia). rewrite Hlast. cbn [archive].
      rewrite Hc. simpl. by rewrite app_assoc.
Qed.

Lemma delivered_others h sz msg h' q : delivered h sz msg h' → ¬ named q → h' q = h q.
Proof.
  unfold delivered. intros Hd Hq. case_match.
  - destruct Hd as (_ & _ & _ & Hd). by apply Hd.
  - destruct Hd as (c & _ & _ & Hd). apply Hd. intros ->. apply Hq, named_base.
Qed.

(** Messages in a row, as long as none fails. *)
Fixpoint sink_all (msgs : list (list byte)) : M World unit :=
  match msgs with [] => mret tt | m :: r => _ ← sink_it_ m; sink_all r end.

Definition total (msgs : list (list byte)) : Z := zlen (concat msgs).

Lemma sink_all_triple msgs h fd sz : 0 ≤ mx → 0 ≤ sz → sz + total msgs < 2 ^ 64 → ready h fd sz →
  triple (state h fd sz) (sink_all msgs)
    (λ _ w, ∃ h' fd' sz', state h' fd' sz' w ∧ ready h' fd' sz' ∧ 0 ≤ sz' ≤ sz + total msgs ∧
      ∃ lost, journal h ++ concat msgs = lost ++ journal h')
    (between h (sz + total msgs)).
Proof.
  unfold total. intros Hmx. revert h fd sz. induction msgs as [|m r IH]; intros h fd sz Hsz Ht Hr; simpl in Ht |- *.
  { apply triple_ret. intros w Hst. exists h, fd, sz. change (concat []) with (@nil byte); rewrite (@app_nil_r byte).
    split_and!; [done|done|lia|change (zlen []) with 0; lia|]. by exists []. }
  rewrite zlen_app in Ht |- *. pose proof (zlen_nonneg (concat r)). pose proof (zlen_nonneg m).
  eapply triple_bind; [eapply triple_post; [apply sink_it_triple; [done|done|lia|done]|intros a w Hq; exact Hq|]|].
  { intros w (h' & fd' & sz' & ? & ? & ? & ?). exists h', fd', sz'. split_and!; [done|done|lia..|done]. }
  intros _ w (h1 & f & sz1 & Hst & Hr1 & Hsz1 & _ & Hd). pose proof (delivered_journal _ _ _ _ Hd) as [lost1 Hl1].
  pose proof (IH h1 (Some f) sz1 ltac:(lia) ltac:(lia) Hr1 w Hst) as Ht1.
  destruct (sink_all r w) as [w' [a|e|x]]; [| |done].
  - destruct Ht1 as (h' & fd' & sz' & ? & ? & ? & lost & Hl). exists h', fd', sz'. split_and!; [done|done|lia..|].
    exists (lost1 ++ lost). by rewrite app_assoc, Hl1, <- !app_assoc, Hl.
  - destruct Ht1 as (h' & fd' & sz' & ? & ? & ? & Ho). exists h', fd', sz'. split_and!; [done|done|lia..|].
    intros q Hq. rewrite Ho by done. by apply (delivered_others _ _ _ _ _ Hd).
Qed.

(** The first open closes nothing. *)
Lemma first_open_failures n :
  triple (λ w, fd_ (file_helper_ (sink w)) = None ∧ fs_failures (fs w) = n) (open base false)
    (λ _ w, fs_failures (fs w) = n) (λ w, fs_failures (fs w) = n).
Proof.
  assert (Hloop : ∀ tries, triple (λ w, fs_failures (fs w) = n) (open_loop tries base false) (λ _ w, fs_failures (fs w) = n) (λ w, fs_failures (fs w) = n)).
  { induction tries as [|tries IH]; cbn [open_loop].
    { eapply triple_bind; [apply (triple_get _ (λ _ w, fs_failures (fs w) = n)); eauto|]. intros w. by apply triple_throw. }
    apply (triple_bind _ _ _ (λ _ w, fs_failures (fs w) = n)).
    { apply create_dir_triple. intros w q _ Hn. destruct (law_mkdir q (fs w)) as (_ & _ & Hf). simpl. lia. }
    intros _. apply (triple_bind _ _ _ (λ ok w, ok = true ∧ fs_failures (fs w) = n)); [by apply triple_ret|]. intros ok w [-> Hn].
    cbn [negb]. unfold mbind, M_bind, fopen, modify. pose proof (law_fopen base false (fs w)) as Hl.
    destruct (fs_fopen base false (fs w)) as [s [f|]].
    - destruct Hl as ([_ Hf] & _). unfold mret, M_ret. simpl. lia.
    - destruct Hl as [_ Hf]. apply IH. simpl. lia. }
  intros w [Hfd Hn]. unfold open, close, get, mbind, M_bind. rewrite Hfd. apply Hloop. exact Hn.
Qed.

(** The constructor appends to what is there, and with [rotate_on_open] starts a new file. *)
Lemma size_triple h sz : triple (λ w, opened false h sz w ∧ fs_failures (fs w) = failed0) size
  (λ n w, (n = zlen (default [] (h base)) ∧ ∃ f, state (hset base (Some (default [] (h base))) h) (Some f) sz w) ∧ fs_failures (fs w) = failed0)
  (λ w, (∃ f, state (hset base (Some (default [] (h base))) h) (Some f) sz w) ∧ fs_failures (fs w) = failed0).
Proof.
  intros w [(f & Hst & Hn) Hf0]. unfold opened_content in *. unfold size, get, mbind, M_bind. rewrite (st_fd _ _ _ _ Hst).
  destruct (fs_fstat f (fs w)) as [n|]; [|by split; [exists f|]]. split; [|done]. split; [by apply Hn|by exists f].
Qed.

Lemma first_open_triple s : fs_failures s = failed0 → (∀ k, 0 ≤ k ≤ mf → fs_dir (name k) s = false) →
  triple (λ w, w = mkLW (mkSink base mx mf 0 (mkHelper None [])) s) (open base false)
    (λ _ w, opened false (λ q, fs_content q s) 0 w ∧ fs_failures (fs w) = failed0)
    (λ w, shut (λ q, fs_content q s) 0 w ∧ fs_failures (fs w) = failed0).
Proof.
  intros Hf Hd w ->. set (w0 := mkLW _ s).
  pose proof (first_open_failures failed0 w0 (conj eq_refl Hf)) as Hn.
  assert (Ho : match open base false w0 with (w', Done _) => opened false (λ q, fs_content q s) 0 w' | (w', Throw _) => shut (λ q, fs_content q s) 0 w' | (_, Crash _) => False end).
  { apply (open_loop_triple open_tries_ false). split; try done. simpl. lia. }
  by destruct (open base false w0) as [w' [a|e|x]].
Qed.

(** Closing touches no file but the sink's. *)
Lemma close_others h fd sz w q : state h fd sz w → q ≠ base → fs_content q (fs (close w).1) = fs_content q (fs w).
Proof.
  intros Hst Hq. unfold close, get, mbind, M_bind. rewrite (st_fd _ _ _ _ Hst). destruct fd as [f|]; [|done]. simpl.
  pose proof (law_fclose f (fs w)) as Hl. unfold fs_flushed in Hl.
  destruct (fs_fclose f (fs w)) as [s []]; simpl in *; [destruct Hl as [[Hc _] _]|destruct Hl as [[Hc _] _]]; apply Hc; [tauto|].
  rewrite (st_stream _ _ _ _ Hst f eq_refl). by intros [= <-].
Qed.

Lemma ctor_triple rotate_on_open s : fs_failures s = failed0 → (∀ k, 0 ≤ k ≤ mf → fs_dir (name k) s = false) →
  let h := λ q, fs_content q s in
  let h1 := hset base (Some (default [] (h base))) h in
  let n := zlen (default [] (h base)) in
  match rotating_file_sink_ctor base mx mf rotate_on_open s with
  | (w, Done _) => (∃ h' f, state h' (Some f) n w ∧ ready h' (Some f) n ∧
      h' = if rotate_on_open && (0 <? n) then hset base (Some []) (shifted (Z.to_nat mf) h1) else h1) ∧
      (rotate_on_open = false → fs_failures (fs w) = failed0)
  | (w, Throw _) => rotate_on_open = false ∨ fs_failures (fs w) = failed0 → ∀ q, ¬ named q → fs_content q (fs w) = fs_content q s
  | (_, Crash _) => False
  end.
Proof.
  intros Hf0 Hd h h1 n. pose proof (zlen_nonneg (default [] (h base))) as Hn0.
  assert (Hh1 : ∀ q, ¬ named q → h1 q = h q).
  { intros q Hq. apply hset_ne. intros ->. apply Hq, named_base. }
  set (E := λ w, (∃ h' fd sz, state h' fd sz w ∧ ∀ q, ¬ named q → h' q = h q) ∧ (rotate_on_open = false → fs_failures (fs w) = failed0)).
  set (body := _ ← open base false; n ← size; _ ← modify (set_size n);
    if rotate_on_open && (0 <? n) then rotate_ else mret tt).
  assert (Hb : triple (λ w, w = mkLW (mkSink base mx mf 0 (mkHelper None [])) s) body
    (λ _ w, (∃ f, state (if rotate_on_open && (0 <? n) then hset base (Some []) (shifted (Z.to_nat mf) h1) else h1) (Some f) n w) ∧
      (rotate_on_open = false → fs_failures (fs w) = failed0)) E).
  { apply (triple_bind _ _ _ (λ _ w, opened false h 0 w ∧ fs_failures (fs w) = failed0)).
    { eapply triple_post; [by apply first_open_triple|intros a w Hq; exact Hq|].
      intros w [(h' & Hw & Hq) Hfw]. split; [|done]. exists h', None, 0. split; [done|]. intros q Hnq. apply Hq. intros ->. apply Hnq, named_base. }
    intros _. eapply triple_bind.
    { eapply triple_post; [apply size_triple|intros a w Hq; exact Hq|]. intros w [[f Hw] Hfw]. split; [|done]. by exists h1, (Some f), 0. }
    intros n' w ((-> & f & Hst) & Hfw). fold h1 in Hst. unfold modify, mbind, M_bind. fold n.
    assert (Hst1 : state h1 (Some f) n (set_size n w)) by (destruct Hst; by split).
    destruct rotate_on_open; cbn [andb]; [|by split; [exists f|]].
    destruct (0 <? n); [|by split; [exists f|]]. pose proof (rotate_triple h1 (Some f) n _ Hst1) as Hr.
    destruct (rotate_ _) as [w2 [a|e|x]]; [by split| |done]. destruct Hr as (h' & Hq & Hs).
    assert (Ho : ∀ q, ¬ named q → h' q = h q) by (intros; rewrite Hq by done; by apply Hh1).
    split; [|done]. destruct Hs as [(f' & Hs & _)|Hs]; by eexists h', _, _. }
  specialize (Hb _ eq_refl). unfold rotating_file_sink_ctor. change (name 0) with base. fold body.
  destruct (body _) as [w [a|e|x]]; [| |done].
  - destruct Hb as [[f Hst] Hfw]. split; [|done]. eexists _, f. split; [exact Hst|]. split; [|done].
    destruct (rotate_on_open && (0 <? n)); simpl; [exists []|exists (default [] (h base)); unfold h1]; by rewrite hset_eq.
  - destruct Hb as [(h' & fd & sz & Hst & Ho) Hfw]. intros Hc q Hq.
    assert (Hne : q ≠ base) by (intros ->; apply Hq, named_base).
    pose proof (close_triple h' fd sz (λ _, False) w Hst) as Hcl.
    change (fs_content q (fs (close w).1) = fs_content q s). rewrite (close_others _ _ _ _ _ Hst Hne).
    rewrite (st_content _ _ _ _ Hst); [by apply Ho|]. destruct Hc as [Hc|Hc]; [by apply Hfw|].
    unfold close, get, mbind, M_bind in Hc. rewrite (st_fd _ _ _ _ Hst) in Hc. destruct fd as [f|]; [|done]. simpl in Hc.
    apply (flushed_failures _ _ _ (law_fclose f (fs w))); [done|apply Hst].
Qed.

(** *** A sink in use

    [h0] are the files when it was opened and [texts] what it was given since; if [whole], no
    message failed.  The sink has counted at most [T] bytes.  What the files hold is told unless
    a flush or a close failed, [state]. *)
Definition in_use (h0 : files) (whole : bool) (texts : list byte) (T : Z) (w : World) : Prop :=
  ∃ h fd sz, state h fd sz w ∧ ready h fd sz ∧ 0 ≤ sz ≤ T ∧ (∀ q, ¬ named q → h q = h0 q) ∧
    (whole = true → ∃ lost, journal h0 ++ texts = lost ++ journal h).

Lemma in_use_mono h0 whole texts T T' w : T ≤ T' → in_use h0 whole texts T w → in_use h0 whole texts T' w.
Proof. intros HT (h & fd & sz & ? & ? & ? & ? & ?). exists h, fd, sz. split_and!; [done|done|lia..|done|done]. Qed.

Lemma sink_it_in_use h0 whole texts T msg w : 0 ≤ mx → T + zlen msg < 2 ^ 64 → in_use h0 whole texts T w →
  match sink_it_ msg w with
  | (w', Done _) => in_use h0 whole (texts ++ msg) (T + zlen msg) w'
  | (w', Throw _) => in_use h0 false (texts ++ msg) (T + zlen msg) w'
  | (_, Crash _) => False
  end.
Proof.
  intros Hmx HT (h & fd & sz & Hst & Hr & Hsz & Ho & Hj).
  pose proof (sink_it_triple h fd sz msg Hmx ltac:(lia) ltac:(lia) Hr w Hst) as Hw.
  destruct (sink_it_ msg w) as [w' [a|e|x]]; [| |done].
  - destruct Hw as (h' & f & sz' & Hst' & Hr' & Hsz' & _ & Hd). exists h', (Some f), sz'.
    split_and!; [done|done|lia..| |].
    + intros q Hq. rewrite <- Ho by done. by apply (delivered_others _ _ _ _ _ Hd).
    + intros Hw. destruct (Hj Hw) as [lost Hl]. destruct (delivered_journal _ _ _ _ Hd) as [lost' Hl'].
      exists (lost ++ lost'). by rewrite app_assoc, Hl, <- !app_assoc, Hl'.
  - destruct Hw as (h' & fd' & sz' & Hst' & Hr' & Hsz' & Ho'). exists h', fd', sz'.
    split_and!; [done|done|lia..| |done]. intros q Hq. by rewrite Ho', Ho.
Qed.

Lemma flush_in_use h0 whole texts T w : in_use h0 whole texts T w →
  ∃ w', flush w = (w', Done tt) ∧ in_use h0 whole texts T w'.
Proof.
  intros (h & fd & sz & Hst & Hr & Hsz & Ho & Hj). pose proof (flush_triple h fd sz (λ _, False) w Hst) as Hf.
  eexists. split; [done|]. by exists h, fd, sz.
Qed.

Lemma ctor_in_use s : fs_failures s = failed0 → (∀ k, 0 ≤ k ≤ mf → fs_dir (name k) s = false) →
  match rotating_file_sink_ctor base mx mf false s with
  | (w, Done _) => in_use (λ q, fs_content q s) true [] (zlen (default [] (fs_content base s))) w ∧ fs_failures (fs w) = failed0
  | (w, Throw _) => ∀ q, ¬ named q → fs_content q (fs w) = fs_content q s
  | (_, Crash _) => False
  end.
Proof.
  intros Hf Hd. pose proof (ctor_triple false s Hf Hd) as Hc. cbv zeta in Hc. simpl in Hc.
  destruct (rotating_file_sink_ctor base mx mf false s) as [w [a|e|x]]; [|by apply Hc; left|done].
  destruct Hc as [(h' & f & Hst & Hr & ->) Hfw]. split; [|by apply Hfw]. eexists _, (Some f), _. split; [exact Hst|].
  pose proof (zlen_nonneg (default [] (fs_content base s))).
  assert (Hj : journal (hset base (Some (default [] (fs_content base s))) (λ q, fs_content q s)) = journal (λ q, fs_content q s)).
  { unfold journal. induction (Z.to_nat mf) as [|n IH]; cbn [archive]; [by rewrite hset_eq|].
    rewrite IH. f_equal. rewrite hset_ne; [done|]. apply (name_ne (Z.of_nat (S n)) 0); lia. }
  split_and!; [done|lia..| |].
  - intros q Hq. apply hset_ne. intros ->. apply Hq, named_base.
  - intros _. exists []. by rewrite app_nil_r, Hj.
Qed.
End files.

(** ** Properties *)
Section properties.
Context {FS : Type} `{FileSystemLaws FS} (base : path) (mx mf : Z).
Hypotheses (Hbase : base ≠ []) (Hmf : 0 ≤ mf) (Hmx : 0 ≤ mx).
Implicit Types (w : LW FS) (h : files).

(** A message that is written, and no file lost in a close, leaves a current file of at most
    [max_size], or of the message alone; it was appended, or every older file moved up by one and
    only the last was lost. *)
Theorem message_delivered h fd sz msg w w' : 0 ≤ sz → sz + zlen msg < 2 ^ 64 →
  state base mx mf (fs_failures (fs w)) h fd sz w → ready base mx h fd sz → sink_it_ msg w = (w', Done tt) →
  fs_failures (fs w') = fs_failures (fs w) →
  delivered base mx mf h sz msg (λ q, fs_content q (fs w')) ∧
  zlen (default [] (fs_content base (fs w'))) ≤ Z.max mx (zlen msg).
Proof.
  intros Hsz Ht Hst Hr Hrun Hf. pose proof (sink_it_triple base mx mf Hbase Hmf _ h fd sz msg Hmx Hsz Ht Hr w Hst) as Hd.
  rewrite Hrun in Hd. destruct Hd as (h' & f & sz' & Hst' & _ & _ & Hle & Hd).
  assert (Heq : ∀ q, h' q = fs_content q (fs w')) by (intros; symmetry; by apply Hst'). rewrite <- Heq. split; [|done].
  revert Hd. unfold delivered. case_match; setoid_rewrite Heq; done.
Qed.

(** C19: Messages that are all written end the log, and what is lost of it is its oldest part,
    provided that no close of the file on the way failed; the code cannot tell, it ignores the
    result ([failed_flush_loses_text]). *)
Theorem log_keeps_the_newest h fd sz msgs w w' : 0 ≤ sz → sz + total msgs < 2 ^ 64 →
  state base mx mf (fs_failures (fs w)) h fd sz w → ready base mx h fd sz → sink_all msgs w = (w', Done tt) →
  fs_failures (fs w') = fs_failures (fs w) →
  ∃ lost, journal base mf h ++ concat msgs = lost ++ journal base mf (λ q, fs_content q (fs w')).
Proof.
  intros Hsz Ht Hst Hr Hrun Hf. pose proof (sink_all_triple base mx mf Hbase Hmf _ msgs h fd sz Hmx Hsz Ht Hr w Hst) as Hd.
  rewrite Hrun in Hd. destruct Hd as (h' & fd' & sz' & Hst' & _ & _ & lost & ->). exists lost. f_equal.
  apply archive_ext. intros k Hk. symmetry. by apply Hst'.
Qed.
End properties.

(** ** A simulated file system

    [sim_faults] says which of the calls that may fail do: [fopen], [rename] and [fwrite], which
    then writes nothing.  [sim_full] says whether the disk is full when something is flushed or
    closed; the file is empty then, for what was in the buffer is lost. *)
Record sim := mkSimState {
  sim_files : path → option (list byte);
  sim_dirs : list path;
  sim_streams : Z → option path;
  sim_next : Z;
  sim_faults : list bool;
  sim_full : bool;
  sim_failures : nat
}.
Definition mkSim files dirs streams next faults : sim := mkSimState files dirs streams next faults false 0.

Definition sim_put (fl : path → option (list byte)) (s : sim) : sim :=
  mkSimState fl (sim_dirs s) (sim_streams s) (sim_next s) (sim_faults s) (sim_full s) (sim_failures s).
Definition sim_step (s : sim) : sim * bool :=
  (mkSimState (sim_files s) (sim_dirs s) (sim_streams s) (sim_next s) (tl (sim_faults s)) (sim_full s) (sim_failures s), hd false (sim_faults s)).
Definition sim_is_dir (p : path) (s : sim) : bool := bool_decide (p ∈ sim_dirs s).

Definition sim_rename (src dst : path) (s : sim) : sim * bool :=
  let '(s, bad) := sim_step s in
  match sim_files s src with
  | Some c => if bad || sim_is_dir src s || sim_is_dir dst s || bool_decide (src = dst) then (s, false)
              else (sim_put (hset dst (Some c) (hset src None (sim_files s))) s, true)
  | None => (s, false)
  end.
Definition sim_fopen (p : path) (trunc : bool) (s : sim) : sim * option Z :=
  let '(s, bad) := sim_step s in
  if bad || sim_is_dir p s then (s, None)
  else (mkSimState (hset p (Some (if trunc then [] else default [] (sim_files s p))) (sim_files s)) (sim_dirs s)
          (λ f, if f =? sim_next s then Some p else sim_streams s f) (sim_next s + 1) (sim_faults s) (sim_full s) (sim_failures s), Some (sim_next s)).
Definition sim_fwrite (f : Z) (d : list byte) (s : sim) : sim * Z :=
  let '(s, bad) := sim_step s in
  match sim_streams s f with
  | Some p => if bad then (s, 0) else (sim_put (hset p (Some (default [] (sim_files s p) ++ d)) (sim_files s)) s, zlen d)
  | None => (s, 0)
  end.

Definition sim_fail (fl : path → option (list byte)) (s : sim) : sim :=
  mkSimState fl (sim_dirs s) (sim_streams s) (sim_next s) (sim_faults s) (sim_full s) (S (sim_failures s)).
Definition sim_flush (f : option Z) (s : sim) : sim * bool :=
  match f ≫= sim_streams s with
  | Some p => if sim_full s then (sim_fail (hset p (Some []) (sim_files s)) s, false) else (s, true)
  | None => (s, true)
  end.

#[export] Instance sim_fs : FileSystem sim := {
  fs_exists p s := bool_decide (is_Some (sim_files s p)) || sim_is_dir p s;
  fs_mkdir p s := (mkSimState (sim_files s) (p :: sim_dirs s) (sim_streams s) (sim_next s) (sim_faults s) (sim_full s) (sim_failures s), true);
  fs_remove p s := sim_put (hset p None (sim_files s)) s;
  fs_rename := sim_rename;
  fs_fopen := sim_fopen;
  fs_fclose f := sim_flush (Some f);
  fs_fwrite := sim_fwrite;
  fs_fflush := sim_flush;
  fs_fstat f s := p ← sim_streams s f; c ← sim_files s p; Some (zlen c);
  fs_content p s := sim_files s p;
  fs_dir := sim_is_dir;
  fs_stream f s := sim_streams s f;
  fs_failures := sim_failures
}.

Ltac case_if := match goal with |- context [if ?b then _ else _] => destruct b end.

Lemma sim_flush_laws f s : fs_flushed (λ p, ∃ g, sim_streams s g = Some p ∧ (f = None ∨ f = Some g)) s (sim_flush f s) ∧
  ∀ g, sim_streams (sim_flush f s).1 g = sim_streams s g.
Proof.
  unfold fs_flushed, sim_flush. destruct (f ≫= sim_streams s) as [p|] eqn:E; [|split; [apply fs_frame_refl|done]].
  destruct (sim_full s); [|split; [apply fs_frame_refl|done]]. split; [|done]. simpl. split; [|done].
  split; [|done]. intros q Hq. simpl. apply hset_ne. intros ->. apply Hq. destruct f as [g|]; [|done]. exists g. auto.
Qed.

#[export] Instance sim_fs_laws : FileSystemLaws sim.
Proof.
  split.
  - done.
  - intros p s. split_and!; [done| |done]. simpl. intros q. unfold sim_is_dir. rewrite !bool_decide_eq_true. set_solver.
  - intros p s. simpl. split; [split; [split; [|done]|done]|left; apply hset_eq]. intros q Hq. apply hset_ne. by intros ->.
  - intros src dst s _ Hne. simpl. unfold sim_rename, sim_step. simpl.
    destruct (sim_files s src) as [c|] eqn:E; [|by split]. case_if; [by repeat split|]. simpl. split_and!.
    + split; [|done]. split; [|done]. intros q Hq. simpl. rewrite !hset_ne; [done|..]; intros ->; tauto.
    + by rewrite hset_eq.
    + by rewrite hset_ne, hset_eq.
  - intros p trunc s. simpl. unfold sim_fopen, sim_step. simpl. case_if; [by repeat split|]. simpl. split_and!.
    + split; [|done]. split; [|done]. intros q Hq. simpl. apply hset_ne. by intros ->.
    + by rewrite Z.eqb_refl.
    + by rewrite hset_eq.
  - intros f s. destruct (sim_flush_laws (Some f) s) as [Hl _]. unfold fs_flushed in *. simpl. destruct (sim_flush (Some f) s) as [s' []]; [done|].
    destruct Hl as [[Hc Hd] Hf]. split; [|done]. split; [|done]. intros q Hq. apply Hc. intros (g & Hg & [|[= ->]]); [done|by apply Hq].
  - intros f d p s Hs. simpl in *. unfold sim_fwrite, sim_step. simpl. rewrite Hs. pose proof (zlen_nonneg d). case_if.
    + split_and!; [by repeat split|lia..|done|]. simpl. intros c Hc. by rewrite app_nil_r.
    + split_and!; [|lia..|done|].
      * split; [|done]. split; [|done]. intros q Hq. simpl. apply hset_ne. by intros ->.
      * intros c Hc. simpl. rewrite hset_eq, Hc. unfold zlen. by rewrite Nat2Z.id, firstn_all.
  - intros fp s. apply sim_flush_laws.
  - intros p s s' f n. simpl. unfold sim_fopen, sim_step. simpl. case_if; [done|]. intros [= <- <-]. simpl.
    rewrite Z.eqb_refl. simpl. rewrite hset_eq. simpl. by intros [= <-].
Qed.

(** ** Examples *)
Definition demo_name : path := str "log/log.txt".

Example calc_filename_demo : calc_filename demo_name 3 = str "log/log.3.txt" ∧ calc_filename (str "/etc/rc.d/log") 1 = str "/etc/rc.d/log.1".
Proof. by vm_compute. Qed.

(** A full log of three files in a directory [log], of at most 10 bytes each. *)
Definition demo_fs (faults : list bool) : sim :=
  mkSim (hset demo_name (Some (str "aaaaaaaaaa")) (hset (calc_filename demo_name 1) (Some (str "b"))
    (hset (calc_filename demo_name 2) (Some (str "c")) (λ _, None)))) [str "log"] (λ _, None) 0 faults.
Definition demo_sink (faults : list bool) : LW sim := (rotating_file_sink_ctor demo_name 10 2 false (demo_fs faults)).1.
Definition demo_files (w : LW sim) : list (option (list byte)) :=
  (λ k, fs_content (calc_filename demo_name k) (fs w)) <$> [0; 1; 2].

Lemma demo_state faults : hd false faults = false →
  state demo_name 10 2 0 (λ q, fs_content q (fs (demo_sink faults))) (Some 0) 10 (demo_sink faults).
Proof.
  destruct faults as [|[] r]; [|done|]; intros _; split; try reflexivity; try (by intros ? [= <-]);
    intros k Hk; assert (k = 0 ∨ k = 1 ∨ k = 2) as [->|[->| ->]] by lia; reflexivity.
Qed.

Lemma run_done {W A} (r : W * A) (a : A) : r.2 = a → r = (r.1, a).
Proof. intros <-. apply surjective_pairing. Qed.

Definition demo_msgs : list (list byte) := [str "hello"; str "world"; str "!"].
Definition demo_one : LW sim := (sink_it_ (str "hello") (demo_sink [])).1.
Definition demo_all : LW sim := (sink_all demo_msgs (demo_sink [])).1.

Lemma demo_one_run : sink_it_ (str "hello") (demo_sink []) = (demo_one, Done tt).
Proof.
  unfold demo_one. assert (Hr : (sink_it_ (str "hello") (demo_sink [])).2 = Done tt) by by vm_compute.
  revert Hr. generalize (sink_it_ (str "hello") (demo_sink [])). intros r. apply run_done.
Qed.
Lemma demo_all_run : sink_all demo_msgs (demo_sink []) = (demo_all, Done tt).
Proof.
  unfold demo_all. assert (Hr : (sink_all demo_msgs (demo_sink [])).2 = Done tt) by by vm_compute.
  revert Hr. generalize (sink_all demo_msgs (demo_sink [])). intros r. apply run_done.
Qed.
Lemma demo_ready : ready demo_name 10 (λ q, fs_content q (fs (demo_sink []))) (Some 0) 10.
Proof. by exists (str "aaaaaaaaaa"). Qed.

Lemma message_delivered_witness :
  delivered demo_name 10 2 (λ q, fs_content q (fs (demo_sink []))) 10 (str "hello") (λ q, fs_content q (fs demo_one)) ∧
  zlen (default [] (fs_content demo_name (fs demo_one))) ≤ Z.max 10 (zlen (str "hello")).
Proof.
  refine (message_delivered demo_name 10 2 _ _ _ _ _ 10 _ (demo_sink []) _ _ _ (demo_state [] eq_refl) demo_ready demo_one_run _);
    [done|lia..|by vm_compute|by vm_compute].
Defined.

Lemma log_keeps_the_newest_witness : ∃ lost,
  journal demo_name 2 (λ q, fs_content q (fs (demo_sink []))) ++ concat demo_msgs =
    lost ++ journal demo_name 2 (λ q, fs_content q (fs demo_all)).
Proof.
  refine (log_keeps_the_newest demo_name 10 2 _ _ _ _ _ 10 _ (demo_sink []) _ _ _ (demo_state [] eq_refl) demo_ready demo_all_run _);
    [done|lia..|by vm_compute|by vm_compute].
Defined.

Example demo_rotates : demo_files demo_all =
  [Some (str "!"); Some (str "helloworld"); Some (str "aaaaaaaaaa")].
Proof. by vm_compute. Qed.

(** When the file cannot be opened again (no descriptor is left, say), each message that is
    dropped rotates once more: two dropped messages cost the two oldest files here, and
    nothing was written. *)
Theorem failed_reopens_lose_files :
  let faults := [false] ++ [false; false] ++ replicate 5 true ++ [false] ++ replicate 5 true in
  let '(w1, r1) := sink_it_ (str "hello") (demo_sink faults) in
  let '(w2, r2) := sink_it_ (str "hello") w1 in
  (∃ e, r1 = Throw e) ∧ (∃ e, r2 = Throw e) ∧
  demo_files (demo_sink faults) = [Some (str "aaaaaaaaaa"); Some (str "b"); Some (str "c")] ∧
  demo_files w1 = [None; Some (str "aaaaaaaaaa"); Some (str "b")] ∧
  demo_files w2 = [None; None; Some (str "aaaaaaaaaa")].
Proof. vm_compute. split_and!; [by eexists..|done|done|done]. Qed.

(** A full disk: the text that waits in the buffer is lost when it is flushed, and neither [write]
    nor [flush] reports it. *)
Theorem failed_flush_loses_text :
  let full := mkSimState (λ _, None) [str "log"] (λ _, None) 0 [] true 0 in
  let '(w0, r0) := rotating_file_sink_ctor demo_name 10 2 false full in
  let '(w1, r1) := (_ ← sink_it_ (str "hello"); flush) w0 in
  r0 = Done tt ∧ r1 = Done tt ∧ fs_content demo_name (fs w1) = Some [] ∧ fs_failures (fs w1) = 1%nat.
Proof. by vm_compute. Qed.
