(* ===== verification/CircularQ.v ===== *)
(** * CircularQ: src/thirdParty/spdlog/details/circular_q.h and backtracer-inl.h

    The bounded queue that keeps a logger's last messages, and its specification: a list from
    which the oldest element goes when a new one does not fit. *)
From S2P Require Import Prelude Throws.

Record circular_q (A : Type) := mkQ {
  max_items_ : Z;
  head_ : Z;
  tail_ : Z;
  overrun_counter_ : Z;
  v_ : list A
}.
Arguments mkQ {A}. Arguments max_items_ {A}. Arguments head_ {A}. Arguments tail_ {A}.
Arguments overrun_counter_ {A}. Arguments v_ {A}.

Section queue.
Context {A : Type} `{Inhabited A}.
Implicit Types (q : circular_q A) (x : A) (l : list A).

Definition empty_q : circular_q A := mkQ 0 0 0 0 [].
(** One place is kept free, to tell a full queue from an empty one. *)
Definition circular_q_ctor (max_items : Z) : circular_q A :=
  let n := u64 (max_items + 1) in mkQ n 0 0 0 (replicate (Z.to_nat n) inhabitant).

Definition push_back x q : circular_q A :=
  if 0 <? max_items_ q then
    let v := <[Z.to_nat (tail_ q) := x]> (v_ q) in
    let tail := u64 (tail_ q + 1) mod max_items_ q in
    if tail =? head_ q then
      mkQ (max_items_ q) (u64 (head_ q + 1) mod max_items_ q) tail (u64 (overrun_counter_ q + 1)) v
    else mkQ (max_items_ q) (head_ q) tail (overrun_counter_ q) v
  else q.

(** Both read the vector as it is: on an empty queue the element is not one of the queue's. *)
Definition front q : outcome A := from_option Ok (Err OutOfRange) (v_ q !! Z.to_nat (head_ q)).

Definition size q : Z :=
  if head_ q <=? tail_ q then tail_ q - head_ q else max_items_ q - (head_ q - tail_ q).

Definition at_ (i : Z) q : outcome A :=
  if size q <=? i then Err AssertFailed
  else from_option Ok (Err OutOfRange) (v_ q !! Z.to_nat (u64 (head_ q + i) mod max_items_ q)).

Definition pop_front q : circular_q A :=
  mkQ (max_items_ q) (u64 (head_ q + 1) mod max_items_ q) (tail_ q) (overrun_counter_ q) (v_ q).

Definition empty q : bool := tail_ q =? head_ q.
Definition full q : bool := if 0 <? max_items_ q then u64 (tail_ q + 1) mod max_items_ q =? head_ q else false.

(** The new queue and what is left of the old one. *)
Definition copy_moveable q : circular_q A * circular_q A := (q, mkQ 0 0 0 0 []).

(** ** What it stores *)
Definition slot q (k : Z) : nat := Z.to_nat ((head_ q + k) mod max_items_ q).
Definition items q : list A := (λ k, default inhabitant (v_ q !! slot q k)) <$> seqZ 0 (size q).

(** The indexes are within the vector; a vector of a queue fits in memory. *)
Record queue_wf q : Prop := {
  wf_disabled : max_items_ q = 0 → head_ q = 0 ∧ tail_ q = 0;
  wf_max : 0 ≤ max_items_ q < 2 ^ 63;
  wf_len : length (v_ q) = Z.to_nat (max_items_ q);
  wf_head : 0 < max_items_ q → 0 ≤ head_ q < max_items_ q;
  wf_tail : 0 < max_items_ q → 0 ≤ tail_ q < max_items_ q
}.

(** The specification: a list of at most [cap] elements. *)
Definition capacity q : Z := Z.max 0 (max_items_ q - 1).
Definition push_spec (cap : Z) x l : list A :=
  if zlen l <? cap then l ++ [x] else if 0 <? cap then tl l ++ [x] else [].

Lemma size_bounds q : queue_wf q → 0 ≤ size q ≤ capacity q ∧ (0 < max_items_ q → tail_ q = (head_ q + size q) mod max_items_ q).
Proof.
  intros [Hd Hm _ Hh Ht]. unfold size, capacity.
  destruct (decide (max_items_ q = 0)) as [E|E].
  { destruct (Hd E) as [-> ->]. rewrite E. simpl. split; lia. }
  specialize (Hh ltac:(lia)). specialize (Ht ltac:(lia)). case_match eqn:Hc; [|].
  - apply Z.leb_le in Hc. split; [lia|]. intros _. replace (head_ q + (tail_ q - head_ q)) with (tail_ q) by lia.
    by rewrite Z.mod_small by lia.
  - apply Z.leb_gt in Hc. split; [lia|]. intros _.
    replace (head_ q + (max_items_ q - (head_ q - tail_ q))) with (tail_ q + 1 * max_items_ q) by lia.
    rewrite Z.mod_add by lia. by rewrite Z.mod_small by lia.
Qed.

Lemma size_of q n : queue_wf q → 0 < max_items_ q → 0 ≤ n < max_items_ q → tail_ q = (head_ q + n) mod max_items_ q → size q = n.
Proof.
  intros Hwf Hm Hn Ht. pose proof (wf_head q Hwf Hm). unfold size. rewrite Ht.
  destruct (decide (head_ q + n < max_items_ q)).
  - rewrite Z.mod_small by lia. rewrite (proj2 (Z.leb_le _ _)) by lia. lia.
  - replace (head_ q + n) with (head_ q + n - max_items_ q + 1 * max_items_ q) by lia. rewrite Z.mod_add by lia.
    rewrite Z.mod_small by lia. rewrite (proj2 (Z.leb_gt _ _)) by lia. lia.
Qed.

Lemma zlen_items q : queue_wf q → zlen (items q) = size q.
Proof. intros Hwf. destruct (size_bounds q Hwf). unfold items, zlen. rewrite length_fmap, length_seqZ. lia. Qed.

Lemma lookup_items q k : items q !! k =
  if decide (Z.of_nat k < size q) then Some (default inhabitant (v_ q !! slot q (Z.of_nat k))) else None.
Proof.
  unfold items. rewrite list_lookup_fmap. case_decide as Hk.
  - rewrite lookup_seqZ_lt by done. simpl. by rewrite Z.add_0_l.
  - by rewrite lookup_seqZ_ge by lia.
Qed.

(** The slots of different numbers differ. *)
Lemma slot_ne q j k : queue_wf q → 0 ≤ j < max_items_ q → 0 ≤ k < max_items_ q → j ≠ k → slot q j ≠ slot q k.
Proof.
  intros Hwf Hj Hk Hne Heq. unfold slot in Heq. pose proof (wf_head q Hwf ltac:(lia)).
  apply Z2Nat.inj in Heq; [|apply Z.mod_pos_bound; lia..].
  apply Hne. rewrite (Z.mod_eq (head_ q + j)), (Z.mod_eq (head_ q + k)) in Heq by lia.
  set (a := (head_ q + j) / max_items_ q) in *. set (b := (head_ q + k) / max_items_ q) in *.
  assert (a < b ∨ a = b ∨ b < a) as [?|[E|?]] by lia; [nia|rewrite E in Heq; lia|nia].
Qed.

Lemma slot_tail q : queue_wf q → 0 < max_items_ q → slot q (size q) = Z.to_nat (tail_ q).
Proof. intros Hwf Hm. unfold slot. by destruct (size_bounds q Hwf) as [_ <-]. Qed.

Lemma queue_succ q z : queue_wf q → 0 < max_items_ q → 0 ≤ z < max_items_ q → 0 ≤ u64 (z + 1) mod max_items_ q < max_items_ q.
Proof. intros. apply Z.mod_pos_bound. lia. Qed.

(** The fields of a queue after a push. *)
Lemma push_fields q x : queue_wf q → 0 < max_items_ q →
  let tail := (head_ q + (size q + 1)) mod max_items_ q in
  tail_ (push_back x q) = tail ∧ v_ (push_back x q) = <[slot q (size q) := x]> (v_ q) ∧
  max_items_ (push_back x q) = max_items_ q ∧
  head_ (push_back x q) = if size q =? capacity q then (head_ q + 1) mod max_items_ q else head_ q.
Proof.
  intros Hwf Hm tail. destruct (size_bounds q Hwf) as [Hs Ht]. specialize (Ht Hm).
  pose proof (wf_tail q Hwf Hm). pose proof (wf_head q Hwf Hm). pose proof (wf_max q Hwf).
  assert (Htl : u64 (tail_ q + 1) mod max_items_ q = tail).
  { rewrite u64_small by lia. unfold tail. rewrite Ht, Zplus_mod_idemp_l. f_equal. lia. }
  unfold push_back. rewrite (proj2 (Z.ltb_lt _ _)) by done. rewrite Htl, slot_tail by done.
  unfold capacity in *. replace (size q =? Z.max 0 (max_items_ q - 1)) with (tail =? head_ q); [case_match; simpl|].
  - rewrite u64_small by lia. done.
  - done.
  - apply Bool.eq_true_iff_eq. rewrite !Z.eqb_eq. unfold tail. split; intros E.
    + destruct (decide (size q + 1 < max_items_ q)); [|lia]. exfalso.
      apply (slot_ne q (size q + 1) 0 Hwf); [lia..|]. unfold slot. rewrite E, Z.add_0_r, Z.mod_small by lia. done.
    + rewrite E. replace (head_ q + (Z.max 0 (max_items_ q - 1) + 1)) with (head_ q + 1 * max_items_ q) by lia.
      rewrite Z.mod_add by lia. apply Z.mod_small. lia.
Qed.

Lemma push_wf q x : queue_wf q → queue_wf (push_back x q).
Proof.
  intros Hwf. destruct (decide (0 < max_items_ q)) as [Hm|Hm].
  2: { unfold push_back. by rewrite (proj2 (Z.ltb_ge _ _)) by lia. }
  destruct (push_fields q x Hwf Hm) as (Ht & Hv & Hmx & Hh). pose proof (wf_max q Hwf).
  split; rewrite ?Hmx, ?Ht, ?Hv, ?Hh.
  - lia.
  - done.
  - rewrite length_insert. apply Hwf.
  - intros _. case_match; [apply Z.mod_pos_bound; lia|by apply Hwf].
  - intros _. apply Z.mod_pos_bound; lia.
Qed.

Lemma slot_insert q x k : queue_wf q → 0 ≤ k < max_items_ q → 0 ≤ size q < max_items_ q →
  default inhabitant (<[slot q (size q) := x]> (v_ q) !! slot q k) =
  if decide (k = size q) then x else default inhabitant (v_ q !! slot q k).
Proof.
  intros Hwf Hk Hs. case_decide as E.
  - subst k. rewrite list_lookup_insert_eq; [done|]. rewrite (wf_len q Hwf). unfold slot.
    pose proof (Z.mod_pos_bound (head_ q + size q) (max_items_ q)). lia.
  - rewrite list_lookup_insert_ne; [done|]. apply slot_ne; try done; lia.
Qed.

Theorem push_refines q x : queue_wf q → items (push_back x q) = push_spec (capacity q) x (items q).
Proof.
  intros Hwf. unfold push_spec. rewrite zlen_items by done. destruct (size_bounds q Hwf) as [Hs Htl].
  destruct (decide (0 < max_items_ q)) as [Hm|Hm].
  2: { unfold capacity in *. pose proof (wf_max q Hwf). rewrite (proj2 (Z.ltb_ge _ _)) by lia.
       rewrite (proj2 (Z.ltb_ge _ _)) by lia. unfold push_back. rewrite (proj2 (Z.ltb_ge _ _)) by lia.
       unfold items. by replace (size q) with 0 by lia. }
  specialize (Htl Hm). destruct (push_fields q x Hwf Hm) as (Ht & Hv & Hmx & Hh). pose proof (push_wf q x Hwf) as Hwf'.
  assert (Hc : capacity q = max_items_ q - 1) by (unfold capacity; lia). rewrite Hc in *.
  apply list_eq. intros k. rewrite lookup_items. destruct (Z.eqb_spec (size q) (max_items_ q - 1)) as [E|E].
  - rewrite (proj2 (Z.ltb_ge _ _)) by lia.
    assert (Hsz : size (push_back x q) = max_items_ q - 1).
    { apply size_of; [done|lia..|]. rewrite Hmx, Ht, Hh, E, Zplus_mod_idemp_l. f_equal. lia. }
    assert (Hslot : ∀ j, slot (push_back x q) j = slot q (j + 1)).
    { intros j. unfold slot. rewrite Hh, Hmx, Zplus_mod_idemp_l. do 2 f_equal. lia. }
    rewrite Hsz, Hslot, Hv. destruct (Z.ltb_spec 0 (max_items_ q - 1)); [|by rewrite decide_False by lia].
    assert (Hl : zlen (items q) = max_items_ q - 1) by (rewrite zlen_items by done; lia).
    assert (Htl' : length (tl (items q)) = Z.to_nat (max_items_ q - 2)).
    { unfold zlen in Hl. destruct (items q); simpl in *; lia. }
    case_decide as Hk.
    + rewrite slot_insert by (done || lia). destruct (decide (Z.of_nat k + 1 = size q)).
      * rewrite lookup_app_r by lia. by replace (k - length (tl (items q)))%nat with 0%nat by lia.
      * rewrite lookup_app_l by lia. rewrite lookup_tail, lookup_items, decide_True by lia. do 4 f_equal. lia.
    + symmetry. apply lookup_ge_None. rewrite length_app. simpl. lia.
  - rewrite (proj2 (Z.ltb_lt _ _)) by lia.
    assert (Hsz : size (push_back x q) = size q + 1).
    { apply size_of; [done|lia..|]. by rewrite Hmx, Ht, Hh. }
    assert (Hslot : ∀ j, slot (push_back x q) j = slot q j) by (intros j; unfold slot; by rewrite Hh, Hmx).
    rewrite Hsz, Hslot, Hv. assert (Hl : length (items q) = Z.to_nat (size q)) by (rewrite <- (zlen_items q) by done; unfold zlen; lia).
    case_decide as Hk.
    + rewrite slot_insert by (done || lia). case_decide.
      * rewrite lookup_app_r by lia. by replace (k - length (items q))%nat with 0%nat by lia.
      * rewrite lookup_app_l by lia. rewrite lookup_items, decide_True by lia. done.
    + symmetry. apply lookup_ge_None. rewrite length_app. simpl. lia.
Qed.

Lemma pop_wf q : queue_wf q → 0 < size q → queue_wf (pop_front q) ∧ size (pop_front q) = size q - 1.
Proof.
  intros Hwf Hs. destruct (size_bounds q Hwf) as [Hb Ht]. unfold capacity in Hb.
  pose proof (wf_max q Hwf). assert (Hm : 0 < max_items_ q) by lia. specialize (Ht Hm).
  pose proof (wf_head q Hwf Hm). assert (Hwf' : queue_wf (pop_front q)).
  { destruct Hwf. split; simpl; auto; [lia|]. intros _. apply Z.mod_pos_bound. lia. }
  split; [done|]. apply size_of; simpl; [done|lia..|]. rewrite u64_small by lia. rewrite Zplus_mod_idemp_l, Ht. f_equal. lia.
Qed.

(** Popping takes the first element off. *)
Lemma pop_refines q : queue_wf q → 0 < size q →
  ∃ x, front q = Ok x ∧ items q = x :: items (pop_front q).
Proof.
  intros Hwf Hs. destruct (pop_wf q Hwf Hs) as [Hwf' Hs']. destruct (size_bounds q Hwf) as [Hb _].
  unfold capacity in Hb. assert (Hm : 0 < max_items_ q) by lia. pose proof (wf_head q Hwf Hm). pose proof (wf_max q Hwf).
  destruct (lookup_lt_is_Some_2 (v_ q) (Z.to_nat (head_ q))) as [x Hx]; [rewrite (wf_len q Hwf); lia|].
  exists x. split; [unfold front; by rewrite Hx|]. apply list_eq. intros [|k].
  - rewrite lookup_items, decide_True by lia. unfold slot. rewrite Z.add_0_r, Z.mod_small by lia. by rewrite Hx.
  - simpl. rewrite !lookup_items, Hs'. replace (Z.of_nat (S k)) with (Z.of_nat k + 1) by lia.
    destruct (decide (Z.of_nat k + 1 < size q)); [rewrite decide_True by lia|by rewrite decide_False by lia].
    do 3 f_equal. unfold slot. simpl. rewrite u64_small by lia. rewrite Zplus_mod_idemp_l. do 2 f_equal. lia.
Qed.

Lemma ctor_wf n : 0 ≤ n < 2 ^ 63 - 1 → queue_wf (circular_q_ctor n) ∧ items (circular_q_ctor n) = [] ∧
  capacity (circular_q_ctor n) = n.
Proof.
  intros Hn. unfold circular_q_ctor. rewrite u64_small by lia. split_and!; [split; simpl; try lia|done|].
  - by rewrite length_replicate.
  - unfold capacity. simpl. lia.
Qed.

Lemma push_capacity q x : queue_wf q → capacity (push_back x q) = capacity q.
Proof.
  intros Hwf. unfold capacity. destruct (decide (0 < max_items_ q)) as [Hm|Hm].
  - by destruct (push_fields q x Hwf Hm) as (_ & _ & -> & _).
  - unfold push_back. by rewrite (proj2 (Z.ltb_ge _ _)) by lia.
Qed.

(** [full] is exact, and a push into a full queue is the one that is counted as an overrun. *)
Lemma full_size q : queue_wf q → 0 < max_items_ q → full q = bool_decide (size q = capacity q).
Proof.
  intros Hwf Hm. pose proof (wf_max q Hwf). pose proof (wf_head q Hwf Hm). unfold full.
  rewrite (proj2 (Z.ltb_lt 0 (max_items_ q)) Hm). destruct (size_bounds q Hwf) as [Hs Ht]. specialize (Ht Hm).
  pose proof (wf_tail q Hwf Hm). apply Bool.eq_true_iff_eq. rewrite Z.eqb_eq, bool_decide_eq_true. unfold capacity.
  rewrite u64_small, Ht, Zplus_mod_idemp_l by lia. split; intros E.
  - destruct (decide (size q + 1 < max_items_ q)); [|unfold capacity in Hs; lia]. exfalso.
    apply (slot_ne q (size q + 1) 0 Hwf); [lia..|]. unfold slot. rewrite Z.add_assoc, E, Z.add_0_r, Z.mod_small by lia. done.
  - rewrite E. replace (head_ q + (Z.max 0 (max_items_ q - 1)) + 1) with (head_ q + 1 * max_items_ q) by lia.
    rewrite Z.mod_add by lia. apply Z.mod_small. lia.
Qed.

Lemma push_overrun q x : 0 < max_items_ q →
  overrun_counter_ (push_back x q) = if full q then u64 (overrun_counter_ q + 1) else overrun_counter_ q.
Proof. intros Hm. unfold push_back, full. rewrite (proj2 (Z.ltb_lt _ _)) by done. by case_match. Qed.

Lemma push_items q x : queue_wf q → 0 < max_items_ q →
  items (push_back x q) = if full q then tl (items q ++ [x]) else items q ++ [x].
Proof.
  intros Hwf Hm. rewrite push_refines, full_size by done. unfold push_spec. rewrite zlen_items by done.
  destruct (size_bounds q Hwf) as [Hs _]. case_bool_decide as E.
  - rewrite (proj2 (Z.ltb_ge _ _)) by lia. pose proof (zlen_items q Hwf) as Hl.
    destruct (Z.ltb_spec 0 (capacity q)); destruct (items q) as [|y l]; try done; unfold zlen in Hl; simpl in Hl; lia.
  - by rewrite (proj2 (Z.ltb_lt _ _)) by lia.
Qed.

Definition pushes q l : circular_q A := foldl (λ q x, push_back x q) q l.

Lemma tail_drop (n : nat) l : tl (drop n l) = drop (S n) l.
Proof. revert l. induction n as [|n IH]; intros [|x l]; try done. apply IH. Qed.

Lemma push_spec_last n x l : 0 ≤ n →
  push_spec n x (drop (length l - Z.to_nat n) l) = drop (length (l ++ [x]) - Z.to_nat n) (l ++ [x]).
Proof.
  intros Hn. unfold push_spec. rewrite length_app. simpl. unfold zlen. rewrite length_drop.
  destruct (Z.ltb_spec (Z.of_nat (length l - (length l - Z.to_nat n))) n).
  - replace (length l - Z.to_nat n)%nat with 0%nat by lia. by replace (length l + 1 - Z.to_nat n)%nat with 0%nat by lia.
  - destruct (Z.ltb_spec 0 n).
    + rewrite drop_app_le by lia. replace (length l + 1 - Z.to_nat n)%nat with (S (length l - Z.to_nat n)) by lia.
      by rewrite tail_drop.
    + rewrite drop_ge; [done|]. rewrite length_app. simpl. lia.
Qed.

Lemma pushes_last n q l : 0 ≤ n → queue_wf q → capacity q = n → items q = [] →
  queue_wf (pushes q l) ∧ capacity (pushes q l) = n ∧ items (pushes q l) = drop (length l - Z.to_nat n) l.
Proof.
  intros Hn Hwf Hc He. induction l as [|x l IH] using rev_ind; [done|].
  destruct IH as (Hwf1 & Hc1 & Hi1). unfold pushes in *. rewrite foldl_snoc. split_and!.
  - by apply push_wf.
  - by rewrite push_capacity.
  - rewrite push_refines by done. rewrite Hc1, Hi1. by apply push_spec_last.
Qed.

(** *** backtracer *)
Record backtracer := mkTracer { enabled_ : bool; messages_ : circular_q A }.

Definition default_tracer : backtracer := mkTracer false empty_q.
Definition enable (size : Z) (t : backtracer) : backtracer := mkTracer true (circular_q_ctor size).
Definition disable (t : backtracer) : backtracer := mkTracer false (messages_ t).
Definition enabled (t : backtracer) : bool := enabled_ t.
Definition tracer_push_back x (t : backtracer) : backtracer := mkTracer (enabled_ t) (push_back x (messages_ t)).

(** The loop of [foreach_pop]: what is left of the queue if [fun_] does not throw. *)
Fixpoint pop_loop {W} (fuel : nat) (fun_ : A → M W unit) q : M W (circular_q A) :=
  if empty q then mret q
  else match fuel with
  | O => crash OutOfFuel
  | S fuel =>
      match front q with
      | Ok front_msg => _ ← fun_ front_msg; pop_loop fuel fun_ (pop_front q)
      | Err f => crash f
      end
  end.
Definition foreach_pop {W} (fun_ : A → M W unit) (t : backtracer) : M W backtracer :=
  q ← pop_loop (Z.to_nat (max_items_ (messages_ t))) fun_ (messages_ t); mret (mkTracer (enabled_ t) q).

(** The messages in a row. *)
Fixpoint foreach {W} (fun_ : A → M W unit) l : M W unit :=
  match l with [] => mret tt | x :: r => _ ← fun_ x; foreach fun_ r end.

Lemma empty_size q : queue_wf q → empty q = bool_decide (size q = 0).
Proof.
  intros Hwf. destruct (size_bounds q Hwf) as [Hb Ht]. unfold empty, size in *.
  pose proof (wf_disabled q Hwf). pose proof (wf_max q Hwf). pose proof (wf_head q Hwf). pose proof (wf_tail q Hwf).
  symmetry. case_bool_decide as E; symmetry; [apply Z.eqb_eq|apply Z.eqb_neq]; case_match eqn:Hc;
    rewrite ?Z.leb_le, ?Z.leb_gt in Hc; lia.
Qed.

Lemma pop_loop_foreach {W} fuel (fun_ : A → M W unit) q w : queue_wf q → size q ≤ Z.of_nat fuel →
  match foreach fun_ (items q) w with
  | (w', Done _) => ∃ q', pop_loop fuel fun_ q w = (w', Done q') ∧ queue_wf q' ∧ items q' = [] ∧ max_items_ q' = max_items_ q
  | (w', Throw e) => pop_loop fuel fun_ q w = (w', Throw e)
  | (w', Crash f) => pop_loop fuel fun_ q w = (w', Crash f)
  end.
Proof.
  revert q w. induction fuel as [|fuel IH]; intros q w Hwf Hf; destruct (size_bounds q Hwf) as [Hb _];
    cbn [pop_loop]; rewrite (empty_size q Hwf).
  { assert (Hs : size q = 0) by lia. rewrite bool_decide_true by done. unfold items at 1. rewrite Hs. simpl.
    exists q. split_and!; try done. unfold items. by rewrite Hs. }
  case_bool_decide as Hs.
  { unfold items at 1. rewrite Hs. simpl. exists q. split_and!; try done. unfold items. by rewrite Hs. }
  destruct (pop_refines q Hwf) as (x & Hx & Hi); [lia|]. rewrite Hx, Hi. cbn [foreach]. unfold mbind, M_bind.
  destruct (pop_wf q Hwf) as [Hwf1 Hs1]; [lia|].
  destruct (fun_ x w) as [w1 [a|e|f]]; [|done..].
  specialize (IH (pop_front q) w1 Hwf1 ltac:(lia)). destruct (foreach fun_ (items (pop_front q)) w1) as [w' [a'|e|f]]; [|done..].
  exact IH.
Qed.
End queue.

Section properties.
Context {A W : Type} `{Inhabited A}.

(** The backtrace is the last [n] messages, in order: [foreach_pop] hands exactly those to its
    function, stops, and leaves the queue empty; if the function throws, so does it. *)
Theorem backtrace_is_the_last_messages n (t : backtracer (A := A)) l (fun_ : A → M W unit) w : 0 ≤ n < 2 ^ 63 - 1 →
  let t' := foldl (λ t x, tracer_push_back x t) (enable n t) l in
  match foreach fun_ (drop (length l - Z.to_nat n) l) w with
  | (w', Done _) => ∃ t2, foreach_pop fun_ t' w = (w', Done t2) ∧ enabled t2 = true ∧ items (messages_ t2) = []
  | (w', Throw e) => foreach_pop fun_ t' w = (w', Throw e)
  | (w', Crash f) => foreach_pop fun_ t' w = (w', Crash f)
  end.
Proof.
  intros Hn t'. destruct (ctor_wf (A := A) n Hn) as (Hwf0 & Hi0 & Hc0).
  destruct (pushes_last n _ l (proj1 Hn) Hwf0 Hc0 Hi0) as (Hwf & _ & Hi).
  assert (messages_ t' = pushes (circular_q_ctor n) l ∧ enabled_ t' = true) as [Hm He].
  { unfold t', pushes. clear. induction l as [|x l IH] using rev_ind; [done|]. rewrite !foldl_snoc. simpl.
    destruct IH as [-> ->]. done. }
  unfold foreach_pop, mbind, M_bind. rewrite Hm, He. set (q := pushes _ l) in *.
  destruct (size_bounds q Hwf) as [Hb _]. pose proof (wf_max q Hwf).
  assert (Hf : size q ≤ Z.of_nat (Z.to_nat (max_items_ q))) by (unfold capacity in Hb; lia).
  pose proof (pop_loop_foreach _ fun_ q w Hwf Hf) as Hp. rewrite Hi in Hp.
  destruct (foreach fun_ _ w) as [w' [a|e|f]]; [|by rewrite Hp|by rewrite Hp].
  destruct Hp as (q' & -> & _ & Hq & _). by eexists.
Qed.
End properties.

Lemma backtrace_is_the_last_messages_witness :
  let t' := foldl (λ t x, tracer_push_back x t) (enable 2 (default_tracer (A := Z))) [5; 6; 7; 8] in
  ∃ t2, foreach_pop (λ x l, (l ++ [x], Done tt)) t' [] = ([7; 8], Done t2) ∧ enabled t2 = true ∧ items (messages_ t2) = [].
Proof.
  refine (backtrace_is_the_last_messages 2 default_tracer [5; 6; 7; 8] (λ x l, (l ++ [x], Done tt)) [] _). lia.
Defined.
