(* ===== verification/SpdLogger.v ===== *)
(** * SpdLogger: src/thirdParty/spdlog/logger.h, logger-inl.h, sinks/ansicolor_sink-inl.h,
    sinks/sink-inl.h, sinks/base_sink-inl.h and details/registry-inl.h

    The logging library below Ham's logger: sinks that write to the console or to a rotating
    file (LogFile.v), loggers that filter messages and catch what their sinks throw, and the
    registry that owns the loggers.  Objects are kept in lists and named by their index; an
    object that no [shared_ptr] of the registry reaches any more is destroyed ([release]).

    Formatting a message is the parameter [format] (pattern_formatter-inl.h): for a pattern and
    a message, the text and the range of it that is to be coloured. *)
From stdpp Require Import gmap.
From S2P Require Import Prelude Throws LogFile CircularQ.

#[export] Instance byte_countable : Countable byte := inj_countable Byte.to_N Byte.of_N Byte.of_to_N.

(** ** Levels and messages *)
Definition level_trace : Z := 0.
Definition level_debug : Z := 1.
Definition level_info : Z := 2.
Definition level_warn : Z := 3.
Definition level_err : Z := 4.
Definition level_critical : Z := 5.
Definition level_off : Z := 6.

Record source_loc := mkLoc { filename : path; line : Z; funcname : list byte }.
Definition no_loc : source_loc := mkLoc [] 0 [].

Record log_msg := mkMsg {
  logger_name : list byte;
  level : Z;
  time : Z;
  thread_id : Z;
  source : source_loc;
  payload : list byte
}.
#[export] Instance log_msg_inhabited : Inhabited log_msg := populate (mkMsg [] level_off 0 0 no_loc []).

Definition pattern : Type := list byte.
(** The text, and the first and the last place of the range to colour. *)
Record formatted := mkText { text : list byte; color_range_start : Z; color_range_end : Z }.

(** ** Sinks *)
Definition esc (s : string) : list byte := x1b :: str s.
Definition white : list byte := esc "[37m".
Definition cyan : list byte := esc "[36m".
Definition green : list byte := esc "[32m".
Definition yellow_bold : list byte := esc "[33m" ++ esc "[1m".
Definition red_bold : list byte := esc "[31m" ++ esc "[1m".
Definition bold_on_red : list byte := esc "[1m" ++ esc "[41m".
Definition reset : list byte := esc "[m".

Record ansicolor_sink := mkAnsi { should_do_colors_ : bool; colors_ : list (list byte) }.
Definition ansicolor_sink_ctor (in_color_terminal : bool) : ansicolor_sink :=
  mkAnsi in_color_terminal [white; cyan; green; yellow_bold; red_bold; bold_on_red; reset].

Inductive sink_impl := Console (c : ansicolor_sink) | Rotating (k : rotating_file_sink).
Record sink_obj := mkSinkObj { sink_level_ : Z; formatter_ : pattern; impl : sink_impl }.

Definition sink_should_log (s : sink_obj) (msg_level : Z) : bool := sink_level_ s <=? msg_level.

Definition print_range_ (t : list byte) (first last : Z) : list byte :=
  take (Z.to_nat (last - first)) (drop (Z.to_nat first) t).

(** What [ansicolor_sink::log] hands to stdout; there are only colours for the levels. *)
Definition console_text (c : ansicolor_sink) (msg_level : Z) (f : formatted) : outcome (list byte) :=
  if should_do_colors_ c && (color_range_start f <? color_range_end f) then
    match colors_ c !! Z.to_nat msg_level with
    | Some color => Ok (print_range_ (text f) 0 (color_range_start f) ++ color ++
                        print_range_ (text f) (color_range_start f) (color_range_end f) ++ reset ++
                        print_range_ (text f) (color_range_end f) (zlen (text f)))
    | None => Err OutOfRange
    end
  else Ok (print_range_ (text f) 0 (zlen (text f))).

(** ** Loggers and the registry *)
Record logger := mkLogger {
  name_ : list byte;
  sinks_ : list nat;
  level_ : Z;
  flush_level_ : Z;
  tracer_ : backtracer (A := log_msg)
}.
Definition logger_ctor (name : list byte) (sinks : list nat) : logger :=
  mkLogger name sinks level_info level_off default_tracer.

Record registry := mkRegistry {
  loggers_ : gmap (list byte) nat;
  log_levels_ : gmap (list byte) Z;
  reg_formatter_ : pattern;
  global_log_level_ : Z;
  reg_flush_level_ : Z;
  default_logger_ : option nat;
  automatic_registration_ : bool;
  backtrace_n_messages_ : Z
}.

(** A line that [err_handler_] printed to stderr. *)
Record report := mkReport { err_counter_ : Z; err_time : Z; err_logger : list byte; err_what : list byte }.

Record Log (FS : Type) := mkLog {
  sinks : list (option sink_obj);
  loggers : list (option logger);
  reg : registry;
  stdout : list byte;
  reports : list report;
  err_counter : Z;
  last_report_time : Z;
  now : Z;                         (* system_clock, in nanoseconds; the same throughout one call *)
  thread : Z;
  disk : FS
}.
Arguments mkLog {FS}. Arguments sinks {FS}. Arguments loggers {FS}. Arguments reg {FS}. Arguments stdout {FS}.
Arguments reports {FS}. Arguments err_counter {FS}. Arguments last_report_time {FS}. Arguments now {FS}.
Arguments thread {FS}. Arguments disk {FS}.

Section log.
Context {FS : Type} `{FileSystem FS} (format : pattern → log_msg → formatted).
Abbreviation World := (Log FS).
Implicit Types w : World.

Definition set_sinks v w : World := mkLog v (loggers w) (reg w) (stdout w) (reports w) (err_counter w) (last_report_time w) (now w) (thread w) (disk w).
Definition set_loggers v w : World := mkLog (sinks w) v (reg w) (stdout w) (reports w) (err_counter w) (last_report_time w) (now w) (thread w) (disk w).
Definition set_reg v w : World := mkLog (sinks w) (loggers w) v (stdout w) (reports w) (err_counter w) (last_report_time w) (now w) (thread w) (disk w).
Definition set_stdout v w : World := mkLog (sinks w) (loggers w) (reg w) v (reports w) (err_counter w) (last_report_time w) (now w) (thread w) (disk w).
Definition set_disk v w : World := mkLog (sinks w) (loggers w) (reg w) (stdout w) (reports w) (err_counter w) (last_report_time w) (now w) (thread w) v.
Definition set_now v w : World := mkLog (sinks w) (loggers w) (reg w) (stdout w) (reports w) (err_counter w) (last_report_time w) v (thread w) (disk w).
Definition set_reports v n t w : World := mkLog (sinks w) (loggers w) (reg w) (stdout w) v n t (now w) (thread w) (disk w).

Definition forM_ {A} (l : list A) (f : A → M World unit) : M World unit := foreach f l.

(** *** sink *)
Definition the_sink (i : nat) w : option sink_obj := sinks w !! i ≫= id.
Definition the_logger (l : nat) w : option logger := loggers w !! l ≫= id.
Definition put_sink (i : nat) (s : sink_obj) w : World := set_sinks (<[i := Some s]> (sinks w)) w.
Definition put_logger (l : nat) (g : logger) w : World := set_loggers (<[l := Some g]> (loggers w)) w.

Definition deref {A} (o : option A) : M World A := match o with Some a => mret a | None => crash NullPointer end.
Definition lift {A} (o : outcome A) : M World A := match o with Ok a => mret a | Err f => crash f end.

(** An operation of the file sink [i]. *)
Definition on_file {A} (i : nat) (s : sink_obj) (k : rotating_file_sink) (m : M (LW FS) A) : M World A := λ w,
  let '(lw, r) := m (mkLW k (disk w)) in
  (set_disk (fs lw) (put_sink i (mkSinkObj (sink_level_ s) (formatter_ s) (Rotating (sink lw))) w), r).

(** [ansicolor_sink::log], or [base_sink::log] of the rotating sink. *)
Definition sink_log (i : nat) (msg : log_msg) : M World unit :=
  w ← get;
  s ← deref (the_sink i w);
  match impl s with
  | Console c =>
      t ← lift (console_text c (level msg) (format (formatter_ s) msg));
      modify (λ w, set_stdout (stdout w ++ t) w)
  | Rotating k => on_file i s k (LogFile.sink_it_ (text (format (formatter_ s) msg)))
  end.

(** Flushing stdout changes nothing of what was handed to it. *)
Definition sink_flush (i : nat) : M World unit :=
  w ← get;
  s ← deref (the_sink i w);
  match impl s with
  | Console _ => mret tt
  | Rotating k => on_file i s k LogFile.flush
  end.

Definition sink_set_formatter (i : nat) (f : pattern) : M World unit :=
  w ← get;
  s ← deref (the_sink i w);
  modify (put_sink i (mkSinkObj (sink_level_ s) f (impl s))).

(** *** logger *)

(** At most one report a second. *)
Definition err_handler_ (name what : list byte) w : World :=
  let n := u64 (err_counter w + 1) in
  if now w - last_report_time w <? 1000000000 then set_reports (reports w) n (last_report_time w) w
  else set_reports (reports w ++ [mkReport n (now w) name what]) n (now w) w.

Definition catch_ (name : list byte) (m : M World unit) : M World unit := λ w,
  match m w with (w', Throw e) => (err_handler_ name e w', Done tt) | r => r end.

Definition should_log (g : logger) (msg_level : Z) : bool := level_ g <=? msg_level.
Definition should_flush_ (g : logger) (msg : log_msg) : bool :=
  (flush_level_ g <=? level msg) && negb (level msg =? level_off).

Definition flush_ (g : logger) : M World unit := forM_ (sinks_ g) (λ i, catch_ (name_ g) (sink_flush i)).

Definition sink_it_ (g : logger) (msg : log_msg) : M World unit :=
  _ ← forM_ (sinks_ g) (λ i,
        w ← get;
        s ← deref (the_sink i w);
        if sink_should_log s (level msg) then catch_ (name_ g) (sink_log i msg) else mret tt);
  if should_flush_ g msg then flush_ g else mret tt.

Definition set_tracer (g : logger) (t : backtracer) : logger := mkLogger (name_ g) (sinks_ g) (level_ g) (flush_level_ g) t.
Definition set_level (g : logger) (lvl : Z) : logger := mkLogger (name_ g) (sinks_ g) lvl (flush_level_ g) (tracer_ g).
Definition flush_on (g : logger) (lvl : Z) : logger := mkLogger (name_ g) (sinks_ g) (level_ g) lvl (tracer_ g).

Definition log_it_ (l : nat) (g : logger) (msg : log_msg) (log_enabled traceback_enabled : bool) : M World unit :=
  _ ← (if log_enabled then sink_it_ g msg else mret tt);
  if traceback_enabled then modify (put_logger l (set_tracer g (tracer_push_back msg (tracer_ g)))) else mret tt.

(** [log(loc, lvl, msg)]; and with [log_] the format string and its arguments are turned into
    the text first, which may throw.  [l] is a pointer that may be null. *)
Definition log_ (l : option nat) (loc : source_loc) (lvl : Z) (fmt : result (list byte)) : M World unit :=
  w ← get;
  i ← deref l;
  g ← deref (the_logger i w);
  let log_enabled := should_log g lvl in
  let traceback_enabled := enabled (tracer_ g) in
  if negb log_enabled && negb traceback_enabled then mret tt
  else
    catch_ (name_ g)
      match fmt with
      | Done buf => log_it_ i g (mkMsg (name_ g) lvl (now w) (thread w) loc buf) log_enabled traceback_enabled
      | Throw e => throw e
      | Crash f => crash f
      end.

Definition dump_backtrace_ (l : nat) : M World unit :=
  w ← get;
  g ← deref (the_logger l w);
  if enabled (tracer_ g) then
    let note s := mkMsg (name_ g) level_info (now w) (thread w) no_loc (str s) in
    _ ← sink_it_ g (note "****************** Backtrace Start ******************");
    t ← foreach_pop (sink_it_ g) (tracer_ g);
    _ ← modify (put_logger l (set_tracer g t));
    sink_it_ g (note "****************** Backtrace End ********************")
  else mret tt.

Definition set_formatter (l : nat) (f : pattern) : M World unit :=
  w ← get;
  g ← deref (the_logger l w);
  forM_ (sinks_ g) (λ i, sink_set_formatter i f).

Definition change_logger (l : nat) (f : logger → logger) : M World unit :=
  w ← get; g ← deref (the_logger l w); modify (put_logger l (f g)).

(** *** registry *)
Definition set_loggers_ v (r : registry) : registry :=
  mkRegistry v (log_levels_ r) (reg_formatter_ r) (global_log_level_ r) (reg_flush_level_ r) (default_logger_ r)
    (automatic_registration_ r) (backtrace_n_messages_ r).
Definition set_default_ v (r : registry) : registry :=
  mkRegistry (loggers_ r) (log_levels_ r) (reg_formatter_ r) (global_log_level_ r) (reg_flush_level_ r) v
    (automatic_registration_ r) (backtrace_n_messages_ r).

(** The loggers the registry holds, and their sinks. *)
Definition held_loggers (r : registry) : list nat :=
  match default_logger_ r with Some d => [d] | None => [] end ++ (map_to_list (loggers_ r)).*2.
Definition held_sinks (ls : list (option logger)) : list nat :=
  concat ((λ g, match g with Some g => sinks_ g | None => [] end) <$> ls).

(** The destructor of a sink: that of [file_helper] closes the file. *)
Definition destroy_sink (i : nat) w : World :=
  match the_sink i w with
  | Some s =>
      let w' := match impl s with
                | Console _ => w
                | Rotating k => set_disk (fs (LogFile.close (mkLW k (disk w))).1) w
                end in
      set_sinks (<[i := None]> (sinks w')) w'
  | None => w
  end.
Definition release w : World :=
  let keep := held_loggers (reg w) in
  let ls := imap (λ l g, if decide (l ∈ keep) then g else None) (loggers w) in
  let w1 := set_loggers ls w in
  let kept := held_sinks ls in
  foldl (λ w i, if decide (i ∈ kept) then w else destroy_sink i w) w1 (seq 0 (length (sinks w))).

Definition default_logger_raw : M World (option nat) := w ← get; mret (default_logger_ (reg w)).
Definition reg_get (name : list byte) w : option nat := loggers_ (reg w) !! name.

Definition set_default_logger (new_default_logger : option nat) : M World unit :=
  w ← get;
  m ← match default_logger_ (reg w) with
      | Some d => g ← deref (the_logger d w); mret (delete (name_ g) (loggers_ (reg w)))
      | None => mret (loggers_ (reg w))
      end;
  m ← match new_default_logger with
      | Some l => g ← deref (the_logger l w); mret (<[name_ g := l]> m)
      | None => mret m
      end;
  modify (λ w, release (set_reg (set_default_ new_default_logger (set_loggers_ m (reg w))) w)).

Definition apply_all (f : nat → M World unit) : M World unit :=
  w ← get; forM_ (map_to_list (loggers_ (reg w))).*2 f.

Definition registry_set_level (log_level : Z) : M World unit :=
  _ ← apply_all (λ l, change_logger l (λ g, set_level g log_level));
  modify (λ w, let r := reg w in set_reg (mkRegistry (loggers_ r) (log_levels_ r) (reg_formatter_ r) log_level
    (reg_flush_level_ r) (default_logger_ r) (automatic_registration_ r) (backtrace_n_messages_ r)) w).
Definition registry_flush_on (log_level : Z) : M World unit :=
  _ ← apply_all (λ l, change_logger l (λ g, flush_on g log_level));
  modify (λ w, let r := reg w in set_reg (mkRegistry (loggers_ r) (log_levels_ r) (reg_formatter_ r) (global_log_level_ r)
    log_level (default_logger_ r) (automatic_registration_ r) (backtrace_n_messages_ r)) w).
Definition registry_set_formatter (f : pattern) : M World unit :=
  _ ← modify (λ w, let r := reg w in set_reg (mkRegistry (loggers_ r) (log_levels_ r) f (global_log_level_ r)
    (reg_flush_level_ r) (default_logger_ r) (automatic_registration_ r) (backtrace_n_messages_ r)) w);
  apply_all (λ l, set_formatter l f).
Definition set_backtrace_n (n : Z) (r : registry) : registry :=
  mkRegistry (loggers_ r) (log_levels_ r) (reg_formatter_ r) (global_log_level_ r) (reg_flush_level_ r) (default_logger_ r)
    (automatic_registration_ r) n.
Definition registry_enable_backtrace (n_messages : Z) : M World unit :=
  _ ← modify (λ w, set_reg (set_backtrace_n n_messages (reg w)) w);
  apply_all (λ l, change_logger l (λ g, set_tracer g (enable n_messages (tracer_ g)))).
Definition registry_disable_backtrace : M World unit :=
  _ ← modify (λ w, set_reg (set_backtrace_n 0 (reg w)) w);
  apply_all (λ l, change_logger l (λ g, set_tracer g (disable (tracer_ g)))).
Definition flush_all : M World unit :=
  apply_all (λ l, w ← get; g ← deref (the_logger l w); flush_ g).

Definition register_logger_ (l : nat) : M World unit :=
  w ← get;
  g ← deref (the_logger l w);
  match loggers_ (reg w) !! name_ g with
  | Some _ => throw (str "logger with name '" ++ name_ g ++ str "' already exists")
  | None => modify (λ w, set_reg (set_loggers_ (<[name_ g := l]> (loggers_ (reg w))) (reg w)) w)
  end.
Definition initialize_logger (l : nat) : M World unit :=
  w ← get;
  let r := reg w in
  _ ← set_formatter l (reg_formatter_ r);
  g ← deref (the_logger l w);
  let new_level := default (global_log_level_ r) (log_levels_ r !! name_ g) in
  _ ← change_logger l (λ g, flush_on (set_level g new_level) (reg_flush_level_ r));
  _ ← (if 0 <? backtrace_n_messages_ r
       then change_logger l (λ g, set_tracer g (enable (backtrace_n_messages_ r) (tracer_ g)))
       else mret tt);
  if automatic_registration_ r then register_logger_ l else mret tt.

Definition drop (logger_name : list byte) : M World unit :=
  w ← get;
  let m := delete logger_name (loggers_ (reg w)) in
  d ← match default_logger_ (reg w) with
      | Some d => g ← deref (the_logger d w); mret (if decide (name_ g = logger_name) then None else Some d)
      | None => mret None
      end;
  modify (λ w, release (set_reg (set_default_ d (set_loggers_ m (reg w))) w)).
Definition drop_all : M World unit :=
  modify (λ w, release (set_reg (set_default_ None (set_loggers_ ∅ (reg w))) w)).
(** The periodic flusher and the thread pool of [async.h] are never set. *)
Definition registry_shutdown : M World unit := drop_all.
End log.
