(* ===== verification/PatternFormatter.v ===== *)
(** * PatternFormatter: src/thirdParty/spdlog/pattern_formatter.h, pattern_formatter-inl.h and
    details/fmt_helper.h

    How a message becomes a line: a pattern is compiled to a list of flag formatters, and each
    appends its field, padded or cut to a width.  This is what the parameter [format] of
    SpdLogger.v stands for.  The broken-down local time, the offset of the time zone and the
    process id are parameters; user-defined flags are left out, Ham has none. *)
From S2P Require Import Prelude Throws LogFile CircularQ SpdLogger.

(** ** fmt_helper *)
Record tm := mkTm { tm_sec : Z; tm_min : Z; tm_hour : Z; tm_mday : Z; tm_mon : Z; tm_year : Z; tm_wday : Z }.
Definition zero_tm : tm := mkTm 0 0 0 0 0 0 0.

Definition digit (n : Z) : byte := byte_of (48 + n).
(** [fmt::format_int]: FmtInt.v proves that it prints this, and that counting digits counts these. *)
Definition append_int (n : Z) : list byte := to_string n.
(** The argument is cast to an unsigned integer of [bits] bits first. *)
Definition count_digits (bits n : Z) : Z := zlen (to_string (wrapu bits n)).
Definition pad2 (n : Z) : list byte :=
  if (0 <=? n) && (n <? 100) then [digit (n / 10); digit (n mod 10)] else to_string n.
Definition pad_uint (bits n width : Z) : list byte :=
  replicate (Z.to_nat (width - count_digits bits n)) (digit 0) ++ append_int n.
Definition pad3 (n : Z) : list byte :=
  if n <? 1000 then [digit (n / 100); digit (n mod 100 / 10); digit (n mod 100 mod 10)] else append_int n.
Definition pad6 (n : Z) : list byte := pad_uint 64 n 6.
Definition pad9 (n : Z) : list byte := pad_uint 64 n 9.

(** Durations are nanoseconds, and [duration_cast] rounds towards zero. *)
Definition kSecond : Z := 1000000000.
Definition to_secs (t : Z) : Z := Z.quot t kSecond.
Definition time_fraction (unit t : Z) : Z := Z.quot t unit - to_secs t * (kSecond / unit).

(** ** Padding *)
Inductive pad_side := pad_left | pad_right | pad_center.
Record padding_info := mkPad { width_ : Z; side_ : pad_side; truncate_ : bool; pad_enabled_ : bool }.
Definition no_padding : padding_info := mkPad 0 pad_left false false.
Definition some_padding (width : Z) (side : pad_side) (truncate : bool) : padding_info := mkPad width side truncate true.

Definition spaces_size : Z := 64.
Definition pad_it (count : Z) (dest : list byte) : outcome (list byte) :=
  if count <=? spaces_size then Ok (dest ++ replicate (Z.to_nat count) x20) else Err OutOfRange.

(** A buffer that is resized to a negative size, as a [size_t], cannot be allocated. *)
Definition resize (new_size : Z) (dest : list byte) : outcome (list byte) :=
  if new_size <? 0 then Err LengthError else Ok (take (Z.to_nat new_size) dest).

(** A [scoped_padder] around the text that is appended while it lives. *)
Definition scoped_padder (wrapped_size : Z) (pad : padding_info) (body dest : list byte) : outcome (list byte) :=
  let remaining_pad := width_ pad - wrapped_size in
  '(dest, remaining_pad) ←
    (if remaining_pad <=? 0 then Ok (dest, remaining_pad)
     else match side_ pad with
     | pad_left => dest ← pad_it remaining_pad dest; Ok (dest, 0)
     | pad_center =>
         let half_pad := remaining_pad / 2 in
         let reminder := Z.land remaining_pad 1 in
         dest ← pad_it half_pad dest; Ok (dest, half_pad + reminder)
     | pad_right => Ok (dest, remaining_pad)
     end);
  let dest := dest ++ body in
  if 0 <=? remaining_pad then pad_it remaining_pad dest
  else if truncate_ pad then resize (zlen dest + remaining_pad) dest
  else Ok dest.

(** ** The flag formatters *)

(** The units of [elapsed_formatter]. *)
Inductive unit_ := nanoseconds | microseconds | milliseconds | seconds.
Definition unit_ns (u : unit_) : Z :=
  match u with nanoseconds => 1 | microseconds => 1000 | milliseconds => 1000000 | seconds => kSecond end.

(** The classes that append one padded field, with their state. *)
Inductive field :=
| name_formatter | level_formatter | short_level_formatter
| a_formatter | A_formatter | b_formatter | B_formatter | c_formatter | C_formatter | D_formatter
| Y_formatter | m_formatter | d_formatter | H_formatter | I_formatter | M_formatter | S_formatter
| e_formatter | f_formatter | F_formatter | E_formatter | p_formatter | r_formatter | R_formatter | T_formatter
| z_formatter (last_update_ offset_minutes_ : Z)
| t_formatter | pid_formatter | v_formatter
| source_location_formatter | source_filename_formatter | short_filename_formatter
| source_linenum_formatter | source_funcname_formatter
| elapsed_formatter (u : unit_) (last_message_time_ : Z).

Inductive flag_formatter :=
| Field (f : field) (padinfo_ : padding_info)
| ch_formatter (ch : byte)
| aggregate_formatter (str_ : list byte)
| color_start_formatter
| color_stop_formatter
| full_formatter (cache_timestamp_ : Z) (cached_datetime_ : list byte).

Definition level_names : list (list byte) :=
  str <$> ["trace"; "debug"; "info"; "warning"; "error"; "critical"; "off"]%string.
Definition short_level_names : list (list byte) := str <$> ["T"; "D"; "I"; "W"; "E"; "C"; "O"]%string.
Definition days : list (list byte) := str <$> ["Sun"; "Mon"; "Tue"; "Wed"; "Thu"; "Fri"; "Sat"]%string.
Definition full_days : list (list byte) :=
  str <$> ["Sunday"; "Monday"; "Tuesday"; "Wednesday"; "Thursday"; "Friday"; "Saturday"]%string.
Definition months : list (list byte) :=
  str <$> ["Jan"; "Feb"; "Mar"; "Apr"; "May"; "Jun"; "Jul"; "Aug"; "Sept"; "Oct"; "Nov"; "Dec"]%string.
Definition full_months : list (list byte) :=
  str <$> ["January"; "February"; "March"; "April"; "May"; "June"; "July"; "August"; "September"; "October";
           "November"; "December"]%string.

Definition at_index (l : list (list byte)) (i : Z) : outcome (list byte) :=
  if i <? 0 then Err OutOfRange else from_option Ok (Err OutOfRange) (l !! Z.to_nat i).

Definition ampm (t : tm) : list byte := if 12 <=? tm_hour t then str "PM" else str "AM".
Definition to12h (t : tm) : Z := if 12 <? tm_hour t then tm_hour t - 12 else tm_hour t.

(** [strrchr]: what follows the last separator. *)
Definition basename (filename : list byte) : list byte :=
  match find_last folder_sep filename with Some k => substr_from (k + 1) filename | None => filename end.

Definition loc_empty (l : source_loc) : bool := line l =? 0.

Section formatters.
(** [os::localtime] of the seconds since the epoch, [os::utc_minutes_offset], [os::pid]. *)
Context (localtime : Z → tm) (utc_minutes_offset : tm → Z) (pid : Z).

(** What [format] of a class appends: the size it declares to its padder, and its text. *)
Definition sized_text : Type := outcome (Z * list byte).
Definition whole (body : list byte) : sized_text := Ok (zlen body, body).
Definition with_size (n : Z) (body : list byte) : sized_text := Ok (n, body).

Definition name_format (m : log_msg) : sized_text := whole (logger_name m).
Definition level_format (m : log_msg) : sized_text := n ← at_index level_names (level m); whole n.
Definition short_level_format (m : log_msg) : sized_text := n ← at_index short_level_names (level m); whole n.
Definition a_format (t : tm) : sized_text := d ← at_index days (tm_wday t); whole d.
Definition A_format (t : tm) : sized_text := d ← at_index full_days (tm_wday t); whole d.
Definition b_format (t : tm) : sized_text := d ← at_index months (tm_mon t); whole d.
Definition B_format (t : tm) : sized_text := d ← at_index full_months (tm_mon t); whole d.
Definition c_format (t : tm) : sized_text :=
  d ← at_index days (tm_wday t);
  n ← at_index months (tm_mon t);
  with_size 24 (d ++ str " " ++ n ++ str " " ++ append_int (tm_mday t) ++ str " " ++ pad2 (tm_hour t) ++ str ":" ++
    pad2 (tm_min t) ++ str ":" ++ pad2 (tm_sec t) ++ str " " ++ append_int (tm_year t + 1900)).
Definition C_format (t : tm) : sized_text := with_size 2 (pad2 (Z.rem (tm_year t) 100)).
Definition D_format (t : tm) : sized_text :=
  with_size 10 (pad2 (tm_mon t + 1) ++ str "/" ++ pad2 (tm_mday t) ++ str "/" ++ pad2 (Z.rem (tm_year t) 100)).
Definition Y_format (t : tm) : sized_text := with_size 4 (append_int (tm_year t + 1900)).
Definition m_format (t : tm) : sized_text := with_size 2 (pad2 (tm_mon t + 1)).
Definition d_format (t : tm) : sized_text := with_size 2 (pad2 (tm_mday t)).
Definition H_format (t : tm) : sized_text := with_size 2 (pad2 (tm_hour t)).
Definition I_format (t : tm) : sized_text := with_size 2 (pad2 (to12h t)).
Definition M_format (t : tm) : sized_text := with_size 2 (pad2 (tm_min t)).
Definition S_format (t : tm) : sized_text := with_size 2 (pad2 (tm_sec t)).
Definition e_format (m : log_msg) : sized_text := with_size 3 (pad3 (u32 (time_fraction 1000000 (time m)))).
Definition f_format (m : log_msg) : sized_text := with_size 6 (pad6 (u64 (time_fraction 1000 (time m)))).
Definition F_format (m : log_msg) : sized_text := with_size 9 (pad9 (u64 (time_fraction 1 (time m)))).
Definition E_format (m : log_msg) : sized_text := with_size 10 (append_int (to_secs (time m))).
Definition p_format (t : tm) : sized_text := with_size 2 (ampm t).
Definition r_format (t : tm) : sized_text :=
  with_size 11 (pad2 (to12h t) ++ str ":" ++ pad2 (tm_min t) ++ str ":" ++ pad2 (tm_sec t) ++ str " " ++ ampm t).
Definition R_format (t : tm) : sized_text := with_size 5 (pad2 (tm_hour t) ++ str ":" ++ pad2 (tm_min t)).
Definition T_format (t : tm) : sized_text :=
  with_size 8 (pad2 (tm_hour t) ++ str ":" ++ pad2 (tm_min t) ++ str ":" ++ pad2 (tm_sec t)).
Definition z_format (offset_minutes : Z) : sized_text :=
  let total_minutes := Z.abs offset_minutes in
  with_size 6 ((if offset_minutes <? 0 then str "-" else str "+") ++ pad2 (total_minutes / 60) ++ str ":" ++ pad2 (total_minutes mod 60)).
(** The offset is looked up again after ten seconds. *)
Definition get_cached_offset (m : log_msg) (t : tm) (last_update offset_minutes : Z) : Z * Z :=
  if 10 * kSecond <=? time m - last_update then (time m, utc_minutes_offset t) else (last_update, offset_minutes).
Definition t_format (m : log_msg) : sized_text := with_size (count_digits 64 (thread_id m)) (append_int (thread_id m)).
Definition pid_format : sized_text := with_size (count_digits 32 (u32 pid)) (append_int (u32 pid)).
Definition v_format (m : log_msg) : sized_text := whole (payload m).
Definition source_location_format (m : log_msg) : sized_text :=
  with_size (zlen (filename (source m)) + count_digits 32 (line (source m)) + 1)
    (filename (source m) ++ str ":" ++ append_int (line (source m))).
Definition source_filename_format (m : log_msg) : sized_text := whole (filename (source m)).
Definition short_filename_format (m : log_msg) : sized_text := whole (basename (filename (source m))).
Definition source_linenum_format (m : log_msg) : sized_text :=
  with_size (count_digits 32 (line (source m))) (append_int (line (source m))).
Definition source_funcname_format (m : log_msg) : sized_text := whole (funcname (source m)).
Definition elapsed_format (u : unit_) (last_message_time : Z) (m : log_msg) : sized_text :=
  let delta_count := u64 (Z.quot (Z.max (time m - last_message_time) 0) (unit_ns u)) in
  with_size (count_digits 64 delta_count) (append_int delta_count).

(** The field after the message, and what it appends; [None]: it returns at once. *)
Definition run_field (f : field) (m : log_msg) (t : tm) : outcome (field * option (Z * list byte)) :=
  let put o := '(n, body) ← o; Ok (f, Some (n, body)) in
  let if_source o := if loc_empty (source m) then Ok (f, None) else put o in
  match f with
  | name_formatter => put (name_format m) | level_formatter => put (level_format m) | short_level_formatter => put (short_level_format m)
  | a_formatter => put (a_format t) | A_formatter => put (A_format t) | b_formatter => put (b_format t) | B_formatter => put (B_format t)
  | c_formatter => put (c_format t) | C_formatter => put (C_format t) | D_formatter => put (D_format t) | Y_formatter => put (Y_format t)
  | m_formatter => put (m_format t) | d_formatter => put (d_format t) | H_formatter => put (H_format t) | I_formatter => put (I_format t)
  | M_formatter => put (M_format t) | S_formatter => put (S_format t)
  | e_formatter => put (e_format m) | f_formatter => put (f_format m) | F_formatter => put (F_format m) | E_formatter => put (E_format m)
  | p_formatter => put (p_format t) | r_formatter => put (r_format t) | R_formatter => put (R_format t) | T_formatter => put (T_format t)
  | z_formatter last_update offset_minutes =>
      let '(last_update, offset_minutes) := get_cached_offset m t last_update offset_minutes in
      '(n, body) ← z_format offset_minutes; Ok (z_formatter last_update offset_minutes, Some (n, body))
  | t_formatter => put (t_format m) | pid_formatter => put pid_format | v_formatter => put (v_format m)
  | source_location_formatter => if_source (source_location_format m)
  | source_filename_formatter => if_source (source_filename_format m)
  | short_filename_formatter => if_source (short_filename_format m)
  | source_linenum_formatter => if_source (source_linenum_format m)
  | source_funcname_formatter => if_source (source_funcname_format m)
  | elapsed_formatter u last_message_time =>
      '(n, body) ← elapsed_format u last_message_time m; Ok (elapsed_formatter u (time m), Some (n, body))
  end.

(** The date part of [full_formatter], made anew when the second changes. *)
Definition full_datetime (t : tm) : list byte :=
  str "[" ++ append_int (tm_year t + 1900) ++ str "-" ++ pad2 (tm_mon t + 1) ++ str "-" ++ pad2 (tm_mday t) ++ str " " ++
  pad2 (tm_hour t) ++ str ":" ++ pad2 (tm_min t) ++ str ":" ++ pad2 (tm_sec t) ++ str ".".

Definition append_text (s : list byte) (o : formatted) : formatted :=
  mkText (text o ++ s) (color_range_start o) (color_range_end o).

(** The default format, with the second and the date it keeps. *)
Definition full_format (cache_timestamp : Z) (cached_datetime : list byte) (m : log_msg) (t : tm) (o : formatted) :
    outcome (Z * list byte * formatted) :=
  let secs := to_secs (time m) in
  let '(stamp, datetime) :=
    if negb (cache_timestamp =? secs) || (zlen cached_datetime =? 0) then (secs, full_datetime t)
    else (cache_timestamp, cached_datetime) in
  n ← at_index level_names (level m);
  let before := text o ++ datetime ++ pad3 (u32 (time_fraction 1000000 (time m))) ++ str "] " ++
    (if 0 <? zlen (logger_name m) then str "[" ++ logger_name m ++ str "] " else []) ++ str "[" in
  let after := str "] " ++
    (if loc_empty (source m) then []
     else str "[" ++ basename (filename (source m)) ++ str ":" ++ append_int (line (source m)) ++ str "] ") ++ payload m in
  Ok (stamp, datetime, mkText (before ++ n ++ after) (zlen before) (zlen (before ++ n))).

(** [format] of one flag formatter: it may change its state. *)
Definition run_flag (ff : flag_formatter) (m : log_msg) (t : tm) (o : formatted) : outcome (flag_formatter * formatted) :=
  match ff with
  | Field f pad =>
      '(f', r) ← run_field f m t;
      match r with
      | None => Ok (Field f' pad, o)
      | Some (n, body) =>
          dest ← (if pad_enabled_ pad then scoped_padder n pad body (text o) else Ok (text o ++ body));
          Ok (Field f' pad, mkText dest (color_range_start o) (color_range_end o))
      end
  | ch_formatter c => Ok (ff, append_text [c] o)
  | aggregate_formatter s => Ok (ff, append_text s o)
  | color_start_formatter => Ok (ff, mkText (text o) (zlen (text o)) (color_range_end o))
  | color_stop_formatter => Ok (ff, mkText (text o) (color_range_start o) (zlen (text o)))
  | full_formatter cache_timestamp cached_datetime =>
      '(stamp, datetime, o) ← full_format cache_timestamp cached_datetime m t o; Ok (full_formatter stamp datetime, o)
  end.

(** ** pattern_formatter *)
Record pattern_formatter := mkFormatter {
  pattern_ : pattern;
  eol_ : list byte;
  cached_tm_ : tm;
  last_log_secs_ : Z;
  formatters_ : list flag_formatter
}.

Fixpoint run_flags (fs : list flag_formatter) (m : log_msg) (t : tm) (o : formatted) : outcome (list flag_formatter * formatted) :=
  match fs with
  | [] => Ok ([], o)
  | f :: r => '(f', o) ← run_flag f m t o; '(r', o) ← run_flags r m t o; Ok (f' :: r', o)
  end.

Definition format (pf : pattern_formatter) (m : log_msg) : outcome (pattern_formatter * formatted) :=
  let secs := to_secs (time m) in
  let '(t, last) := if negb (secs =? last_log_secs_ pf) then (localtime secs, secs) else (cached_tm_ pf, last_log_secs_ pf) in
  '(fs, o) ← run_flags (formatters_ pf) m t (mkText [] 0 0);
  Ok (mkFormatter (pattern_ pf) (eol_ pf) t last fs, append_text (eol_ pf) o).
End formatters.

(** ** Compiling a pattern *)
Definition max_width : Z := 64.

Definition isdigit (c : byte) : bool := (48 <=? byte_val c) && (byte_val c <=? 57).

(** The digits of a width, which wraps at 64 bits. *)
Fixpoint pad_width (width : Z) (s : list byte) : Z * list byte :=
  match s with
  | c :: r => if isdigit c then pad_width (u64 (width * 10 + (byte_val c - 48))) r else (width, s)
  | [] => (width, [])
  end.

(** The padding, and what follows it in the pattern. *)
Definition handle_padspec_ (s : list byte) : padding_info * list byte :=
  match s with
  | [] => (no_padding, [])
  | c :: r =>
      let '(side, s) := if decide (c = x2d) then (pad_right, r) else if decide (c = x3d) then (pad_center, r) else (pad_left, s) in
      match s with
      | [] => (no_padding, s)
      | c :: r =>
          if isdigit c then
            let '(width, s) := pad_width (byte_val c - 48) r in
            let '(truncate, s) := match s with c :: r => if decide (c = x21) then (true, r) else (false, s) | [] => (false, s) end in
            (some_padding (Z.min width max_width) side truncate, s)
          else (no_padding, s)
      end
  end.

(** The formatters a flag adds; [now] is the clock, from which [elapsed_formatter] starts. *)
Definition handle_flag_ (now : Z) (flag : byte) (padding : padding_info) : list flag_formatter :=
  let field f := [Field f padding] in
  match flag with
  | "+" => [full_formatter 0 []]
  | "n" => field name_formatter | "l" => field level_formatter | "L" => field short_level_formatter
  | "t" => field t_formatter | "v" => field v_formatter
  | "a" => field a_formatter | "A" => field A_formatter | "b" | "h" => field b_formatter | "B" => field B_formatter
  | "c" => field c_formatter | "C" => field C_formatter | "Y" => field Y_formatter | "D" | "x" => field D_formatter
  | "m" => field m_formatter | "d" => field d_formatter | "H" => field H_formatter | "I" => field I_formatter
  | "M" => field M_formatter | "S" => field S_formatter | "e" => field e_formatter | "f" => field f_formatter
  | "F" => field F_formatter | "E" => field E_formatter | "p" => field p_formatter | "r" => field r_formatter
  | "R" => field R_formatter | "T" | "X" => field T_formatter | "z" => field (z_formatter 0 0) | "P" => field pid_formatter
  | "^" => [color_start_formatter] | "$" => [color_stop_formatter]
  | "@" => field source_location_formatter | "s" => field short_filename_formatter | "g" => field source_filename_formatter
  | "#" => field source_linenum_formatter | "!" => field source_funcname_formatter
  | "%" => [ch_formatter "%"]
  | "u" => field (elapsed_formatter nanoseconds now) | "i" => field (elapsed_formatter microseconds now)
  | "o" => field (elapsed_formatter milliseconds now) | "O" => field (elapsed_formatter seconds now)
  | _ =>
      if truncate_ padding then
        [Field source_funcname_formatter (mkPad (width_ padding) (side_ padding) false (pad_enabled_ padding)); aggregate_formatter [flag]]
      else [aggregate_formatter ["%"; flag]]
  end%byte.

(** The characters found so far, as a formatter. *)
Definition flush_chars (user_chars : list byte) : list flag_formatter :=
  match user_chars with [] => [] | _ => [aggregate_formatter user_chars] end.

(** The loop of [compile_pattern_], with the characters found so far. *)
Fixpoint compile_loop (fuel : nat) (now : Z) (user_chars s : list byte) : outcome (list flag_formatter) :=
  match s with
  | [] => Ok (flush_chars user_chars)
  | c :: r =>
      match fuel with
      | O => Err OutOfFuel
      | S fuel =>
          if decide (c = x25) then
            let '(padding, rest) := handle_padspec_ r in
            match rest with
            | [] => Ok (flush_chars user_chars)
            | flag :: rest =>
                fs ← compile_loop fuel now [] rest;
                Ok (flush_chars user_chars ++ handle_flag_ now flag padding ++ fs)
            end
          else compile_loop fuel now (user_chars ++ [c]) r
      end
  end.
Definition compile_pattern_ (now : Z) (p : pattern) : outcome (list flag_formatter) := compile_loop (length p) now [] p.

Definition default_eol : list byte := [x0a].
Definition pattern_formatter_ctor (now : Z) (p : pattern) : outcome pattern_formatter :=
  fs ← compile_pattern_ now p; Ok (mkFormatter p default_eol zero_tm 0 fs).
Definition default_formatter : pattern_formatter :=
  mkFormatter (str "%+") default_eol zero_tm 0 [full_formatter 0 []].
Definition clone (now : Z) (pf : pattern_formatter) : outcome pattern_formatter :=
  fs ← compile_pattern_ now (pattern_ pf); Ok (mkFormatter (pattern_ pf) (eol_ pf) zero_tm 0 fs).
Definition set_pattern (now : Z) (p : pattern) (pf : pattern_formatter) : outcome pattern_formatter :=
  fs ← compile_pattern_ now p; Ok (mkFormatter p (eol_ pf) (cached_tm_ pf) (last_log_secs_ pf) fs).

(** ** Padding *)

(** What a field looks like once it is padded or cut. *)
Definition spaces (n : Z) : list byte := replicate (Z.to_nat n) x20.
Definition padded (pad : padding_info) (body : list byte) : list byte :=
  let missing := width_ pad - zlen body in
  if missing <=? 0 then (if truncate_ pad then take (Z.to_nat (width_ pad)) body else body)
  else match side_ pad with
  | pad_left => spaces missing ++ body
  | pad_right => body ++ spaces missing
  | pad_center => spaces (missing / 2) ++ body ++ spaces (missing - missing / 2)
  end.

Lemma zlen_spaces n : 0 ≤ n → zlen (spaces n) = n.
Proof. intros. unfold spaces. rewrite zlen_replicate. lia. Qed.

Lemma zlen_padded pad body : 0 ≤ width_ pad →
  zlen (padded pad body) = if truncate_ pad then width_ pad else Z.max (width_ pad) (zlen body).
Proof.
  intros Hw. pose proof (zlen_nonneg body). unfold padded. destruct (Z.leb_spec (width_ pad - zlen body) 0).
  - case_match; [rewrite zlen_take; lia|lia].
  - assert (0 ≤ (width_ pad - zlen body) / 2 ≤ width_ pad - zlen body) by (split; [apply Z.div_pos; lia|apply Z.div_le_upper_bound; lia]).
    destruct (side_ pad); rewrite !zlen_app, !zlen_spaces by lia; case_match; lia.
Qed.

Lemma pad_it_ok n dest : 0 ≤ n ≤ 64 → pad_it n dest = Ok (dest ++ spaces n).
Proof. intros. unfold pad_it, spaces_size. by rewrite (proj2 (Z.leb_le _ _)) by lia. Qed.

Lemma half_reminder n : n / 2 + Z.land n 1 = n - n / 2.
Proof. change 1 with (Z.ones 1). rewrite Z.land_ones by lia. change (2 ^ 1) with 2. pose proof (Z.div_mod n 2). lia. Qed.

(** The padder does that when it was told the size of the text; a width has at most 64. *)
Theorem scoped_padder_pads pad body dest : 0 ≤ width_ pad ≤ max_width →
  scoped_padder (zlen body) pad body dest = Ok (dest ++ padded pad body).
Proof.
  unfold max_width. intros Hw. pose proof (zlen_nonneg body). pose proof (zlen_nonneg dest). unfold scoped_padder, padded.
  destruct (Z.leb_spec (width_ pad - zlen body) 0) as [Hle|Hgt]; ok_simpl.
  - destruct (Z.leb_spec 0 (width_ pad - zlen body)).
    + replace (width_ pad - zlen body) with 0 by lia. rewrite pad_it_ok by lia. unfold spaces. simpl. rewrite app_nil_r.
      do 2 f_equal. case_match; [|done]. rewrite firstn_all2; [done|]. unfold zlen in *. lia.
    + destruct (truncate_ pad); [|done]. unfold resize. rewrite (zlen_app dest).
      rewrite (proj2 (Z.ltb_ge _ _)) by lia. f_equal.
      replace (Z.to_nat _) with (length dest + Z.to_nat (width_ pad))%nat by (unfold zlen; lia). apply firstn_app_2.
  - assert (Hh : 0 ≤ (width_ pad - zlen body) / 2 ≤ width_ pad - zlen body) by (split; [apply Z.div_pos; lia|apply Z.div_le_upper_bound; lia]).
    destruct (side_ pad).
    + rewrite pad_it_ok by lia. ok_simpl. rewrite (proj2 (Z.leb_le 0 0)) by lia. rewrite pad_it_ok by lia.
      unfold spaces at 2. simpl. by rewrite app_nil_r, <- app_assoc.
    + ok_simpl. rewrite (proj2 (Z.leb_le 0 _)) by lia. rewrite pad_it_ok by lia. by rewrite <- app_assoc.
    + rewrite pad_it_ok by lia. ok_simpl. rewrite half_reminder, (proj2 (Z.leb_le 0 _)) by lia.
      rewrite pad_it_ok by lia. by rewrite <- !app_assoc.
Qed.

(** ** Patterns and what they are compiled to *)
Inductive item :=
| Text (s : list byte)
| Flag (pad : option (Z * pad_side * bool)) (c : byte).

Definition print_side (s : pad_side) : list byte := match s with pad_left => [] | pad_right => str "-" | pad_center => str "=" end.
Definition print_pad (pad : option (Z * pad_side * bool)) : list byte :=
  match pad with
  | Some (w, side, truncate) => print_side side ++ to_string w ++ (if truncate : bool then str "!" else [])
  | None => []
  end.
Definition print_item (i : item) : list byte :=
  match i with Text s => s | Flag pad c => str "%" ++ print_pad pad ++ [c] end.

Definition padding_of (pad : option (Z * pad_side * bool)) : padding_info :=
  match pad with Some (w, side, truncate) => some_padding w side truncate | None => no_padding end.
Definition compiled (now : Z) (i : item) : list flag_formatter :=
  match i with Text s => [aggregate_formatter s] | Flag pad c => handle_flag_ now c (padding_of pad) end.

(** A flag must not look like a part of its padding. *)
Definition item_ok (i : item) : Prop :=
  match i with
  | Text s => s ≠ [] ∧ x25 ∉ s
  | Flag None c => isdigit c = false ∧ c ≠ x2d ∧ c ≠ x3d
  | Flag (Some (w, _, truncate)) c => 0 ≤ w ≤ max_width ∧ (truncate = false → isdigit c = false ∧ c ≠ x21)
  end.
Definition is_text (i : item) : bool := match i with Text _ => true | _ => false end.
Fixpoint apart (l : list item) : Prop :=
  match l with i :: (j :: _) as r => is_text i && is_text j = false ∧ apart r | _ => True end.

(** The widths that are allowed, digit by digit. *)
Lemma small_widths : Forall (λ w, ∃ c0 ds, to_string w = c0 :: ds ∧ isdigit c0 = true ∧ c0 ≠ x2d ∧ c0 ≠ x3d ∧
  Forall (λ c, isdigit c = true) ds ∧ foldl (λ v c, u64 (v * 10 + (byte_val c - 48))) (byte_val c0 - 48) ds = w) (seqZ 0 65).
Proof.
  repeat (apply Forall_cons; split; [eexists _, _; split; [vm_compute; reflexivity|]; split_and!; [by vm_compute|done|done|by repeat constructor|by vm_compute]|]).
  done.
Qed.

Lemma pad_width_digits v ds d r : Forall (λ c, isdigit c = true) ds → isdigit d = false →
  pad_width v (ds ++ d :: r) = (foldl (λ v c, u64 (v * 10 + (byte_val c - 48))) v ds, d :: r).
Proof.
  intros Hds Hd. revert v. induction Hds as [|c ds Hc Hds IH]; intros v; simpl; [by rewrite Hd|]. by rewrite Hc, IH.
Qed.

Lemma handle_padspec_print w side truncate c r : 0 ≤ w ≤ max_width → (truncate = false → isdigit c = false ∧ c ≠ x21) →
  handle_padspec_ (print_pad (Some (w, side, truncate)) ++ c :: r) = (some_padding w side truncate, c :: r).
Proof.
  unfold max_width. intros Hw Hc. pose proof (proj1 (Forall_forall _ _) small_widths w) as Hs.
  destruct Hs as (c0 & ds & Hstr & Hc0 & Hm & He & Hds & Hv); [apply elem_of_seqZ; lia|].
  set (rest := (if truncate : bool then str "!" else []) ++ c :: r).
  assert (Hrest : ∃ d r', rest = d :: r' ∧ isdigit d = false).
  { unfold rest. destruct truncate; [by exists x21, (c :: r)|]. exists c, r. by destruct (Hc eq_refl). }
  assert (Hw' : pad_width (byte_val c0 - 48) (ds ++ rest) = (w, rest)).
  { destruct Hrest as (d & r' & -> & Hd). rewrite pad_width_digits by done. by rewrite Hv. }
  assert (Htr : (match rest with c :: r => if decide (c = x21) then (true, r) else (false, rest) | [] => (false, rest) end) = (truncate, c :: r)).
  { unfold rest. destruct truncate; [done|]. simpl. destruct (Hc eq_refl) as [_ Hne]. by rewrite decide_False. }
  assert (Hmin : Z.min w 64 = w) by lia.
  assert (Hgo : ∀ sd, (let '(width, s) := pad_width (byte_val c0 - 48) (ds ++ rest) in
     let '(truncate, s) := match s with c :: r => if decide (c = x21) then (true, r) else (false, s) | [] => (false, s) end in
     (some_padding (Z.min width max_width) sd truncate, s)) = (some_padding w sd truncate, c :: r)).
  { intros sd. rewrite Hw', Htr. unfold max_width. by rewrite Hmin. }
  unfold print_pad. rewrite Hstr, <- !app_assoc. fold rest. destruct side; simpl.
  - rewrite (decide_False _ _ Hm), (decide_False _ _ He), Hc0. apply Hgo.
  - rewrite Hc0. apply Hgo.
  - rewrite Hc0. apply Hgo.
Qed.

Lemma handle_padspec_none c r : isdigit c = false → c ≠ x2d → c ≠ x3d → handle_padspec_ (c :: r) = (no_padding, c :: r).
Proof. intros Hd Hm He. unfold handle_padspec_. by rewrite (decide_False _ _ Hm), (decide_False _ _ He), Hd. Qed.

Lemma padspec_item pad c r : item_ok (Flag pad c) → handle_padspec_ (print_pad pad ++ c :: r) = (padding_of pad, c :: r).
Proof.
  destruct pad as [[[w side] truncate]|]; simpl.
  - intros [Hw Hc]. by apply handle_padspec_print.
  - intros (? & ? & ?). by apply handle_padspec_none.
Qed.

(** Characters other than % are collected. *)
Lemma compile_text fuel now chars s r : x25 ∉ s → (length s ≤ fuel)%nat →
  compile_loop fuel now chars (s ++ r) = compile_loop (fuel - length s) now (chars ++ s) r.
Proof.
  revert fuel chars. induction s as [|c s IH]; intros fuel chars Hs Hf; simpl in *; [by rewrite app_nil_r, Nat.sub_0_r|].
  destruct fuel as [|fuel]; [lia|]. cbn [compile_loop]. rewrite decide_False by set_solver.
  rewrite IH by (set_solver || lia). rewrite <- app_assoc. done.
Qed.

Definition printed (l : list item) : list byte := concat (print_item <$> l).

Lemma compile_printed fuel now l chars : Forall item_ok l → apart l → (length (printed l) ≤ fuel)%nat →
  match l, chars with Text _ :: _, _ :: _ => False | _, _ => True end →
  compile_loop fuel now chars (printed l) = Ok (flush_chars chars ++ concat (compiled now <$> l)).
Proof.
  revert fuel chars. induction l as [|i l IH]; intros fuel chars Hok Hap Hf Hc.
  { destruct fuel; cbn; by rewrite app_nil_r. }
  apply Forall_cons in Hok as [Hi Hok]. unfold printed in *. cbn [fmap list_fmap concat] in *. rewrite length_app in Hf.
  assert (Hap' : apart l) by (destruct l; [done|apply Hap]).
  destruct i as [s|pad c].
  - destruct Hi as [Hne Hs]. destruct chars; [|done]. cbn [print_item] in *. rewrite compile_text by (done || lia).
    rewrite IH; [|done|done|lia|].
    + simpl. destruct s; [done|]. done.
    + destruct l as [|[]]; [done|by destruct Hap|done].
  - cbn [print_item app] in *. rewrite <- !app_assoc. cbn [str app]. destruct fuel as [|fuel]; [simpl in Hf; lia|].
    change (str "%") with [x25]. cbn [app compile_loop]. rewrite decide_True by done. rewrite padspec_item by done.
    rewrite IH; [|done|done| |by destruct l as [|[]]].
    + done.
    + rewrite !length_app in Hf. simpl in Hf. lia.
Qed.

Lemma pad_width_len v s : (length (pad_width v s).2 ≤ length s)%nat.
Proof. revert v. induction s as [|c s IH]; intros v; simpl; [lia|]. case_match; [|simpl; lia]. specialize (IH (u64 (v * 10 + (byte_val c - 48)))). lia. Qed.

Lemma padspec_len s : (length (handle_padspec_ s).2 ≤ length s)%nat.
Proof.
  destruct s as [|c r]; [done|]. unfold handle_padspec_.
  assert (Hgo : ∀ side s', (length s' ≤ length (c :: r))%nat → (length (match s' with
      | [] => (no_padding, s')
      | c :: r => if isdigit c then
          let '(width, s) := pad_width (byte_val c - 48) r in
          let '(truncate, s) := match s with c :: r => if decide (c = x21) then (true, r) else (false, s) | [] => (false, s) end in
          (some_padding (Z.min width max_width) side truncate, s) else (no_padding, s') end).2 ≤ length (c :: r))%nat).
  { intros side [|d s'] Hl; [simpl; lia|]. case_match; [|done].
    pose proof (pad_width_len (byte_val d - 48) s') as Hp. destruct (pad_width _ s') as [w s2]. simpl in *.
    destruct s2 as [|e s2]; [simpl; lia|]. case_decide; simpl in *; lia. }
  repeat case_decide; [apply (Hgo pad_right r)|apply (Hgo pad_center r)|apply (Hgo pad_left (c :: r))]; simpl; lia.
Qed.

(** Every pattern is compiled. *)
Lemma compile_total now p : ∃ fs, compile_pattern_ now p = Ok fs.
Proof.
  unfold compile_pattern_. assert (Hgo : ∀ fuel chars s, (length s ≤ fuel)%nat → ∃ fs, compile_loop fuel now chars s = Ok fs).
  { induction fuel as [|fuel IH]; intros chars [|c r] Hl; simpl in *; try lia; [by eexists..|].
    case_decide; [|apply IH; lia]. pose proof (padspec_len r) as Hp. destruct (handle_padspec_ r) as [pad rest]. simpl in Hp.
    destruct rest as [|flag rest]; [by eexists|]. destruct (IH [] rest) as [fs ->]; [simpl in Hp; lia|]. by eexists. }
  by apply Hgo.
Qed.

(** C38: A pattern is compiled to what it was written as: text and flags, each with its padding. *)
Theorem pattern_roundtrip now (l : list item) : Forall item_ok l → apart l →
  compile_pattern_ now (printed l) = Ok (concat (compiled now <$> l)).
Proof. intros Hok Hap. apply (compile_printed _ now l []); [done|done|lia|by destruct l as [|[]]]. Qed.

Lemma pattern_roundtrip_witness : compile_pattern_ 0 (str "[%-8l] %3!v 100%%") =
  Ok (concat (compiled 0 <$> [Text (str "["); Flag (Some (8, pad_right, false)) "l"; Text (str "] "); Flag (Some (3, pad_left, true)) "v";
    Text (str " 100"); Flag None "%"]))%byte.
Proof.
  refine (pattern_roundtrip 0 [Text (str "["); Flag (Some (8, pad_right, false)) "l"%byte; Text (str "] "); Flag (Some (3, pad_left, true)) "v"%byte;
    Text (str " 100"); Flag None "%"%byte] _ _).
  - assert (Ht : ∀ s, bool_decide (s ≠ [] ∧ x25 ∉ s) = true → item_ok (Text s)) by (intros s; apply bool_decide_eq_true).
    repeat (apply Forall_cons; split); try done; try (by apply Ht); simpl; unfold max_width; by split; [lia|].
  - by repeat split.
Defined.

(** ** Fields *)
Record tm_ok (t : tm) : Prop := {
  ok_sec : 0 ≤ tm_sec t ≤ 60;
  ok_min : 0 ≤ tm_min t < 60;
  ok_hour : 0 ≤ tm_hour t < 24;
  ok_mday : 1 ≤ tm_mday t ≤ 31;
  ok_mon : 0 ≤ tm_mon t < 12;
  ok_year : 0 ≤ tm_year t ∧ tm_year t + 1900 ≤ 9999;
  ok_wday : 0 ≤ tm_wday t < 7
}.

(** A message of the logger; from 2001 on the seconds have ten digits. *)
Record msg_ok (m : log_msg) : Prop := {
  ok_level : 0 ≤ level m ≤ level_off;
  ok_time : 10 ^ 9 * kSecond ≤ time m < 10 ^ 10 * kSecond;
  ok_thread : 0 ≤ thread_id m < 2 ^ 64;
  ok_line : 0 ≤ line (source m) < 2 ^ 31
}.

(** The fields whose declared size is that of their text. *)
Definition sized (f : field) : bool :=
  match f with c_formatter | D_formatter | z_formatter _ _ => false | _ => true end.

Lemma zlen_pad2 n : 0 ≤ n < 100 → zlen (pad2 n) = 2.
Proof. intros. unfold pad2. by rewrite (proj2 (Z.leb_le 0 n)), (proj2 (Z.ltb_lt n 100)) by lia. Qed.

Lemma zlen_to_string (k : nat) z : (0 < k)%nat → 10 ^ (Z.of_nat k - 1) ≤ z < 10 ^ Z.of_nat k → zlen (to_string z) = Z.of_nat k.
Proof. intros. unfold zlen. by rewrite (to_string_length_eq k). Qed.

Lemma zlen_pad3 n : 0 ≤ n < 1000 → zlen (pad3 n) = 3.
Proof. intros. unfold pad3. by rewrite (proj2 (Z.ltb_lt n 1000)) by lia. Qed.

Lemma zlen_pad_uint bits (k : nat) n : (0 < k)%nat → 10 ^ Z.of_nat k ≤ 2 ^ bits → 0 ≤ n < 10 ^ Z.of_nat k →
  zlen (pad_uint bits n (Z.of_nat k)) = Z.of_nat k.
Proof.
  intros Hk Hb Hn. unfold pad_uint, append_int, count_digits. rewrite wrapu_small by (unfold in_u; lia).
  rewrite zlen_app, zlen_replicate. pose proof (to_string_length k n Hk Hn). unfold zlen in *. lia.
Qed.

Lemma count_digits_ok bits n : in_u bits n → count_digits bits n = zlen (append_int n).
Proof. intros. unfold count_digits. by rewrite wrapu_small. Qed.

Lemma fraction_bounds u t : 0 ≤ t → 0 < u → kSecond = u * (kSecond / u) → 0 ≤ time_fraction u t < kSecond / u.
Proof.
  unfold time_fraction, to_secs, kSecond. intros Ht Hu Hd. rewrite !Z.quot_div_nonneg by lia.
  set (k := 1000000000 / u) in *. rewrite Hd. rewrite <- Z.div_div by nia.
  pose proof (Z.div_mod (t / u) k ltac:(nia)). pose proof (Z.mod_pos_bound (t / u) k ltac:(nia)). nia.
Qed.

Ltac unfold_formats := unfold name_format, level_format, short_level_format, a_format, A_format, b_format, B_format, c_format, C_format,
  D_format, Y_format, m_format, d_format, H_format, I_format, M_format, S_format, e_format, f_format, F_format, E_format, p_format,
  r_format, R_format, T_format, z_format, get_cached_offset, t_format, pid_format, v_format, source_location_format,
  source_filename_format, short_filename_format, source_linenum_format, source_funcname_format, elapsed_format, whole, with_size.

Section fields.
Context (localtime : Z → tm) (utc_minutes_offset : tm → Z) (pid : Z).
Abbreviation run_field := (run_field utc_minutes_offset pid).
Abbreviation run_flag := (run_flag utc_minutes_offset pid).
Abbreviation run_flags := (run_flags utc_minutes_offset pid).
Abbreviation format := (format localtime utc_minutes_offset pid).

(** Fields that do not depend on the messages before. *)
Definition steady (f : field) : bool := match f with z_formatter _ _ | elapsed_formatter _ _ => false | _ => true end.

Lemma at_index_ok l i : 0 ≤ i < zlen l → ∃ s, at_index l i = Ok s.
Proof.
  intros Hi. unfold at_index. rewrite (proj2 (Z.ltb_ge _ _)) by lia.
  destruct (lookup_lt_is_Some_2 l (Z.to_nat i)) as [s ->]; [unfold zlen in *; lia|]. by exists s.
Qed.

Ltac name_of l i := let Hn := fresh in destruct (at_index_ok l i) as [? Hn]; [change (zlen l) with (Z.of_nat (length l)); simpl; lia|rewrite Hn; ok_simpl].

(** Every field of a message has a text, and those of [sized] declare its length. *)
Lemma run_field_ok f m t : tm_ok t → msg_ok m →
  ∃ f' r, run_field f m t = Ok (f', r) ∧ (steady f = true → f' = f) ∧ sized f' = sized f ∧
    (sized f = true → match r with Some (n, body) => n = zlen body | None => True end).
Proof.
  intros [Hsec Hmin Hhour Hmday Hmon Hyear Hwday] [Hlev Htime Hth Hline].
  assert (H12 : 0 ≤ to12h t < 100) by (unfold to12h; case_match eqn:E; [apply Z.ltb_lt in E|apply Z.ltb_ge in E]; lia).
  assert (Hap : zlen (ampm t) = 2) by (unfold ampm; by case_match).
  assert (Hsrc : ∀ f (o : outcome (field * option (Z * list byte))),
    (∃ r, o = Ok (f, r) ∧ match r with Some (n, body) => n = zlen body | None => True end) →
    ∃ f' r, (if loc_empty (source m) then Ok (f, None) else o) = Ok (f', r) ∧ (steady f = true → f' = f) ∧ sized f' = sized f ∧
      (sized f = true → match r with Some (n, body) => n = zlen body | None => True end)).
  { intros g o (r & -> & Hr). destruct (loc_empty (source m)); [exists g, None|exists g, r]; by split_and!. }
  assert (Hfix : ∀ g n (body : list byte), zlen body = n → ∃ f' r, Ok (g, Some (n, body)) = Ok (f', r) ∧ (steady g = true → f' = g) ∧ sized f' = sized g ∧
      (sized g = true → match r with Some (n, body) => n = zlen body | None => True end)).
  { intros g n body Hn. by exists g, (Some (n, body)). }
  assert (Hsecs : 10 ^ 9 ≤ to_secs (time m) < 10 ^ 10).
  { unfold to_secs, kSecond in *. rewrite Z.quot_div_nonneg by lia. split; [apply Z.div_le_lower_bound|apply Z.div_lt_upper_bound]; lia. }
  assert (Hfr : ∀ u, 0 < u → kSecond = u * (kSecond / u) → 0 ≤ time_fraction u (time m) < kSecond / u) by
    (intros; apply fraction_bounds; [unfold kSecond in *; lia|done..]).
  assert (Hcd : count_digits 32 (line (source m)) = zlen (append_int (line (source m)))).
  { apply count_digits_ok. unfold in_u. lia. }
  unfold run_field, level_off in *. destruct f; unfold_formats; ok_simpl;
    try (by eexists _, _; split_and!); try (by apply Hsrc; eexists; split; [done|]); try (by apply Hsrc; eexists; split; [done|]; rewrite Hcd);
    try (by apply Hfix; rewrite ?zlen_app, ?zlen_pad2, ?Hap by (rewrite ?Z.rem_mod_nonneg by lia; try apply Z.mod_pos_bound; lia));
    try (by apply Hfix; rewrite count_digits_ok by (unfold in_u, wrapu; first [lia|apply Z.mod_pos_bound; lia]));
    try (by name_of level_names (level m); eexists _, _);
    try (by name_of short_level_names (level m); eexists _, _);
    try (by name_of days (tm_wday t); eexists _, _);
    try (by name_of full_days (tm_wday t); eexists _, _);
    try (by name_of months (tm_mon t); eexists _, _);
    try (by name_of full_months (tm_mon t); eexists _, _).
  - name_of days (tm_wday t). name_of months (tm_mon t). by eexists _, _.
  - apply Hfix. apply (zlen_to_string 4); lia.
  - apply Hfix. pose proof (Hfr 1000000 ltac:(lia) eq_refl) as Hf. change (kSecond / 1000000) with 1000 in Hf.
    rewrite wrapu_small by (unfold in_u; lia). by apply zlen_pad3.
  - apply Hfix. pose proof (Hfr 1000 ltac:(lia) eq_refl) as Hf. change (kSecond / 1000) with 1000000 in Hf.
    rewrite wrapu_small by (unfold in_u; lia). apply (zlen_pad_uint 64 6); lia.
  - apply Hfix. pose proof (Hfr 1 ltac:(lia) eq_refl) as Hf. change (kSecond / 1) with 1000000000 in Hf.
    rewrite wrapu_small by (unfold in_u; lia). apply (zlen_pad_uint 64 9); lia.
  - apply Hfix. apply (zlen_to_string 10); lia.
  - destruct (10 * kSecond <=? _); eexists _, _; by split_and!.
  - apply Hsrc. eexists. split; [done|]. cbv beta iota. rewrite !zlen_app, Hcd. change (zlen (str ":")) with 1. lia.
  - eexists _, _; split_and!; [done|done|done|intros _]. cbv beta iota. rewrite count_digits_ok; [done|]. apply Z.mod_pos_bound. lia.
Qed.


(** What a formatter adds to the line of [m], [t] being its local time. *)
Definition full_text (m : log_msg) (t : tm) : list byte :=
  full_datetime t ++ pad3 (u32 (time_fraction 1000000 (time m))) ++ str "] " ++
  (if 0 <? zlen (logger_name m) then str "[" ++ logger_name m ++ str "] " else []) ++
  str "[" ++ default [] (level_names !! Z.to_nat (level m)) ++ str "] " ++
  (if loc_empty (source m) then []
   else str "[" ++ basename (filename (source m)) ++ str ":" ++ append_int (line (source m)) ++ str "] ") ++ payload m.
Definition flag_text (ff : flag_formatter) (m : log_msg) (t : tm) : list byte :=
  match ff with
  | Field f pad =>
      match run_field f m t with
      | Ok (_, Some (_, body)) => if pad_enabled_ pad then padded pad body else body
      | _ => []
      end
  | ch_formatter c => [c]
  | aggregate_formatter s => s
  | color_start_formatter | color_stop_formatter => []
  | full_formatter _ _ => full_text m t
  end.
Definition line_text (fs : list flag_formatter) (m : log_msg) (t : tm) : list byte := concat ((λ ff, flag_text ff m t) <$> fs).

(** A padded field declares the size of its text.  The date that [full_formatter] keeps is that
    of its second. *)
Definition flag_ok (ff : flag_formatter) : Prop :=
  match ff with Field f pad => pad_enabled_ pad = true → sized f = true ∧ 0 ≤ width_ pad ≤ max_width | _ => True end.
Definition cache_ok (ff : flag_formatter) : Prop :=
  match ff with full_formatter stamp datetime => datetime = [] ∨ datetime = full_datetime (localtime stamp) | _ => True end.
Definition steady_flag (ff : flag_formatter) : bool := match ff with Field f _ => steady f | _ => true end.
Definition same_flag (ff ff' : flag_formatter) : Prop :=
  match ff, ff' with full_formatter _ _, full_formatter _ _ => True | _, _ => ff = ff' end.

Lemma run_flag_ok ff m t o : tm_ok t → t = localtime (to_secs (time m)) → msg_ok m → flag_ok ff → cache_ok ff →
  ∃ ff' first last, run_flag ff m t o = Ok (ff', mkText (text o ++ flag_text ff m t) first last) ∧
    flag_ok ff' ∧ cache_ok ff' ∧ (steady_flag ff = true → same_flag ff ff').
Proof.
  intros Ht Hloc Hm Hok Hc. destruct ff as [f pad|c|s| | |stamp datetime]; unfold PatternFormatter.run_flag, flag_text.
  - destruct (run_field_ok f m t Ht Hm) as (f' & r & Hr & Hst & Hsz & Hn). rewrite Hr. ok_simpl.
    destruct r as [[n body]|].
    + destruct (pad_enabled_ pad) eqn:Hp.
      * destruct (Hok Hp) as [Hs Hw]. rewrite (Hn Hs), scoped_padder_pads by done. ok_simpl. eexists _, _, _.
        split_and!; [done|intros _; by rewrite Hsz|done|]. intros H'. by rewrite (Hst H').
      * ok_simpl. eexists _, _, _. split_and!; [done|simpl; by rewrite Hp|done|]. intros H'. by rewrite (Hst H').
    + rewrite app_nil_r. destruct o. eexists _, _, _. split_and!; [done| |done|].
      * simpl. rewrite Hsz. apply Hok.
      * intros H'. by rewrite (Hst H').
  - by eexists _, _, _.
  - by eexists _, _, _.
  - rewrite app_nil_r. by eexists _, _, _.
  - rewrite app_nil_r. by eexists _, _, _.
  - assert (Hd : ∃ stamp', (if negb (stamp =? to_secs (time m)) || (zlen datetime =? 0) then (to_secs (time m), full_datetime t)
      else (stamp, datetime)) = (stamp', full_datetime t) ∧ full_datetime t = full_datetime (localtime stamp')).
    { destruct (Z.eqb_spec stamp (to_secs (time m))) as [->|_]; cbn [negb orb]; [|exists (to_secs (time m)); by rewrite <- Hloc].
      exists (to_secs (time m)). destruct Hc as [->| ->]; rewrite <- Hloc; [done|]. by destruct (zlen (full_datetime t) =? 0). }
    destruct Hd as (stamp' & Hc' & Hd). unfold full_format. rewrite Hc'. destruct (at_index_ok level_names (level m)) as [nm Hnm].
    { change (zlen level_names) with 7. pose proof (ok_level m Hm). unfold level_off in *. lia. }
    rewrite Hnm. ok_simpl. exists (full_formatter stamp' (full_datetime t)). eexists _, _. split_and!; [|done|by right|done].
    do 2 f_equal. f_equal. unfold full_text. unfold at_index in Hnm. case_match; [done|].
    destruct (level_names !! Z.to_nat (level m)) as [nm'|]; [|done]. injection Hnm as ->. cbn [default from_option id]. by rewrite <- !app_assoc.
Qed.

Lemma same_flag_text ff ff' m t : same_flag ff ff' → flag_text ff' m t = flag_text ff m t ∧ steady_flag ff' = steady_flag ff.
Proof. destruct ff, ff'; simpl; try done; by intros [= -> ->] || (by intros [= ->]). Qed.

Lemma same_line_text fs fs' m t : Forall2 same_flag fs fs' → line_text fs' m t = line_text fs m t ∧
  forallb steady_flag fs' = forallb steady_flag fs.
Proof.
  induction 1 as [|ff ff' fs fs' Hf Hfs IH]; [done|]. destruct (same_flag_text ff ff' m t Hf) as [E1 E2]. destruct IH as [IH1 IH2].
  split; [|simpl; by rewrite E2, IH2]. unfold line_text in *. cbn [fmap list_fmap concat]. by rewrite E1, IH1.
Qed.

Lemma run_flags_ok fs m t o : tm_ok t → t = localtime (to_secs (time m)) → msg_ok m → Forall flag_ok fs → Forall cache_ok fs →
  ∃ fs' first last, run_flags fs m t o = Ok (fs', mkText (text o ++ line_text fs m t) first last) ∧
    Forall flag_ok fs' ∧ Forall cache_ok fs' ∧ (forallb steady_flag fs = true → Forall2 same_flag fs fs').
Proof.
  intros Ht Hloc Hm Hok. revert o. induction Hok as [|ff fs Hf Hok IH]; intros o Hc.
  { exists []. destruct o as [d a b]. exists a, b. split_and!; try done. cbn. unfold line_text. simpl. by rewrite app_nil_r. }
  apply Forall_cons in Hc as [Hc Hcs]. cbn [PatternFormatter.run_flags].
  destruct (run_flag_ok ff m t o Ht Hloc Hm Hf Hc) as (ff' & a & b & -> & Hf' & Hc' & Hst). ok_simpl.
  destruct (IH (mkText (text o ++ flag_text ff m t) a b) Hcs) as (fs' & a' & b' & -> & Hfs' & Hcs' & Hsts). ok_simpl.
  exists (ff' :: fs'), a', b'. split_and!; [|by constructor..|].
  - cbn [text]. unfold line_text. cbn [fmap list_fmap concat]. by rewrite app_assoc.
  - cbn [forallb]. intros [H1 H2]%andb_true_iff. constructor; auto.
Qed.

(** A formatter in use: the broken-down time it keeps is that of its second. *)
Record pf_ok (pf : pattern_formatter) : Prop := {
  pf_flags : Forall flag_ok (formatters_ pf);
  pf_caches : Forall cache_ok (formatters_ pf);
  pf_time : last_log_secs_ pf = 0 ∨ cached_tm_ pf = localtime (last_log_secs_ pf)
}.

Lemma format_ok pf m : pf_ok pf → msg_ok m → tm_ok (localtime (to_secs (time m))) →
  ∃ pf' first last, format pf m =
      Ok (pf', mkText (line_text (formatters_ pf) m (localtime (to_secs (time m))) ++ eol_ pf) first last) ∧
    pf_ok pf' ∧ eol_ pf' = eol_ pf ∧
    (forallb steady_flag (formatters_ pf) = true → Forall2 same_flag (formatters_ pf) (formatters_ pf')).
Proof.
  intros [Hf Hc Ht] Hm Htm. assert (Hs : 0 < to_secs (time m)).
  { pose proof (ok_time m Hm). unfold to_secs, kSecond in *. rewrite Z.quot_div_nonneg by lia.
    apply Z.lt_le_trans with 1; [lia|]. apply Z.div_le_lower_bound; lia. }
  unfold PatternFormatter.format. set (secs := to_secs (time m)) in *.
  assert (Hsel : (if negb (secs =? last_log_secs_ pf) then (localtime secs, secs) else (cached_tm_ pf, last_log_secs_ pf)) = (localtime secs, secs)).
  { destruct (Z.eqb_spec secs (last_log_secs_ pf)) as [E|_]; [|done]. simpl. destruct Ht as [Ht|Ht]; [lia|]. by rewrite Ht, <- E. }
  rewrite Hsel. destruct (run_flags_ok (formatters_ pf) m (localtime secs) (mkText [] 0 0) Htm eq_refl Hm Hf Hc)
    as (fs' & a & b & -> & Hf' & Hc' & Hst). ok_simpl.
  eexists _, a, b. split; [done|]. split_and!; [|done|done]. split; [done|done|by right].
Qed.

(** The lines of messages in a row. *)
Fixpoint format_all (pf : pattern_formatter) (ms : list log_msg) : outcome (pattern_formatter * list (list byte)) :=
  match ms with
  | [] => Ok (pf, [])
  | m :: r => '(pf, o) ← format pf m; '(pf, ls) ← format_all pf r; Ok (pf, text o :: ls)
  end.
End fields.

Lemma same_flag_refl fs : Forall2 same_flag fs fs.
Proof. induction fs as [|ff fs IH]; constructor; [|done]. by destruct ff. Qed.

Lemma same_flag_trans fs1 fs2 fs3 : Forall2 same_flag fs1 fs2 → Forall2 same_flag fs2 fs3 → Forall2 same_flag fs1 fs3.
Proof.
  intros H1. revert fs3. induction H1 as [|x y l1 l2 Hxy H1 IH]; intros l3 H2; [done|].
  apply Forall2_cons_inv_l in H2 as (z & l3' & Hyz & H2 & ->). constructor; [|by apply IH]. destruct x, y, z; simpl in *; try done; congruence.
Qed.

Lemma format_all_ok localtime utc_minutes_offset pid fs pf ms : pf_ok localtime pf → eol_ pf = default_eol →
  Forall2 same_flag fs (formatters_ pf) → forallb steady_flag (formatters_ pf) = true →
  Forall (λ m, msg_ok m ∧ tm_ok (localtime (to_secs (time m)))) ms →
  ∃ pf', format_all localtime utc_minutes_offset pid pf ms = Ok (pf',
    (λ m, line_text utc_minutes_offset pid fs m (localtime (to_secs (time m))) ++ default_eol) <$> ms).
Proof.
  intros Hok He Hsame Hst Hms. revert pf Hok He Hsame Hst. induction Hms as [|m ms [Hm Htm] Hms IH]; intros pf Hok He Hsame Hst; [by eexists|].
  cbn [format_all fmap list_fmap].
  destruct (format_ok localtime utc_minutes_offset pid pf m Hok Hm Htm) as (pf2 & a & b & -> & Hok2 & He2 & Hs2). ok_simpl.
  specialize (Hs2 Hst). destruct (IH pf2 Hok2) as [pf3 ->].
  - by rewrite He2.
  - by eapply same_flag_trans.
  - by destruct (same_line_text utc_minutes_offset pid _ _ m zero_tm Hs2) as [_ ->].
  - ok_simpl. eexists. do 3 f_equal. cbn [text]. rewrite He. f_equal.
    by destruct (same_line_text utc_minutes_offset pid _ _ m (localtime (to_secs (time m))) Hsame).
Qed.

(** A formatter that was just compiled has nothing cached. *)
Lemma compile_caches localtime now p fs : compile_pattern_ now p = Ok fs → Forall (cache_ok localtime) fs.
Proof.
  assert (Hfl : ∀ chars, Forall (cache_ok localtime) (flush_chars chars)) by (intros [|]; by repeat constructor).
  assert (Hfg : ∀ c pad, Forall (cache_ok localtime) (handle_flag_ now c pad)).
  { intros c pad. destruct c; simpl; try case_match; repeat constructor. }
  unfold compile_pattern_. generalize (@nil byte) at 1. generalize (length p). intros fuel chars. revert chars p fs.
  induction fuel as [|fuel IH]; intros chars [|c r] fs'; simpl; try (by intros [= <-]).
  case_decide; [|apply IH]. destruct (handle_padspec_ r) as [pad [|flag rest]]; [by intros [= <-]|].
  intros (fs2 & H2 & [= <-])%bind_Ok_inv. apply Forall_app; split; [done|]. apply Forall_app; split; [done|]. by eapply IH.
Qed.

(** C39: The date, the broken-down time and the date text that a formatter keeps between messages do
    not show: a formatter made from a pattern gives each message the line that the pattern says,
    with the message's own time, every padded field padded or cut to its width, and it never
    fails. *)
Theorem lines_follow_the_pattern (localtime : Z → tm) (utc_minutes_offset : tm → Z) (pid now : Z) (p : pattern)
    (pf : pattern_formatter) (ms : list log_msg) :
  pattern_formatter_ctor now p = Ok pf →
  Forall flag_ok (formatters_ pf) → forallb steady_flag (formatters_ pf) = true →
  Forall (λ m, msg_ok m ∧ tm_ok (localtime (to_secs (time m)))) ms →
  ∃ pf', format_all localtime utc_minutes_offset pid pf ms = Ok (pf',
    (λ m, line_text utc_minutes_offset pid (formatters_ pf) m (localtime (to_secs (time m))) ++ default_eol) <$> ms).
Proof.
  intros Hp Hf Hst Hms. apply bind_Ok_inv in Hp as (fs & Hfs & [= <-]).
  apply format_all_ok; [|done|apply same_flag_refl|done|done]. split; [done|by eapply compile_caches|by left].
Qed.

(** ** Findings *)

(** [D_formatter] declares 10 characters for a date of 8: cut to 8, two more are lost. *)
Lemma short_date_overcut body dest : zlen body = 8 →
  scoped_padder 10 (some_padding 8 pad_left true) body dest = Ok (dest ++ take 6 body).
Proof.
  intros Hb. pose proof (zlen_nonneg dest). unfold scoped_padder. simpl. unfold resize. rewrite zlen_app, Hb.
  rewrite (proj2 (Z.ltb_ge _ _)) by lia. f_equal.
  replace (Z.to_nat _) with (length dest + 6)%nat by (unfold zlen; lia). apply firstn_app_2.
Qed.

(** The hour from 1 to 12 is 0 at midnight. *)
Lemma midnight_is_zero t : tm_hour t = 0 → pad2 (to12h t) = str "00".
Proof. intros Hh. unfold to12h. by rewrite Hh. Qed.

(** ** An example *)
Definition demo_tm : tm := mkTm 5 4 3 2 1 120 0.
Definition demo_msg (t : Z) (s : string) : log_msg :=
  mkMsg (str "Ham") level_warn t 77 (mkLoc (str "net/TcpServer.cc") 12 (str "start")) (str s).
Definition demo_pattern : pattern := str "%+ %-9l|%=9l|%3!!".
Definition demo_pf : pattern_formatter :=
  match pattern_formatter_ctor 0 demo_pattern with Ok pf => pf | Err _ => default_formatter end.
Definition demo_times : list log_msg := [demo_msg 1600000000123456789 "one"; demo_msg 1600000000923456789 "two"].

Example demo_lines : format_all (λ _, demo_tm) (λ _, 0) 1 demo_pf demo_times ≫= (λ r, Ok r.2) = Ok
  [str "[2020-02-02 03:04:05.123] [Ham] [warning] [TcpServer.cc:12] one warning  | warning |sta" ++ [x0a];
   str "[2020-02-02 03:04:05.923] [Ham] [warning] [TcpServer.cc:12] two warning  | warning |sta" ++ [x0a]].
Proof. by vm_compute. Qed.

Lemma lines_follow_the_pattern_witness : ∃ pf', format_all (λ _, demo_tm) (λ _, 0) 1 demo_pf demo_times = Ok (pf',
  (λ m, line_text (λ _, 0) 1 (formatters_ demo_pf) m demo_tm ++ default_eol) <$> demo_times).
Proof.
  refine (lines_follow_the_pattern (λ _, demo_tm) (λ _, 0) 1 0 demo_pattern demo_pf demo_times _ _ _ _).
  - by vm_compute.
  - by repeat (apply Forall_cons; split; [done|]).
  - by vm_compute.
  - by repeat (apply Forall_cons; split; [by split|]).
Defined.
