(* ===== verification/Logger.v ===== *)
(** * Logger: src/ham/base/Log.h and Log.cc

    Ham's logger: a console sink and a rotating file behind spdlog's default logger
    (SpdLogger.v), set up once by [init], and the macros the rest of the program logs with: a
    format string and arguments, which Fmt.v formats. *)
From stdpp Require Import gmap.
From S2P Require Import Prelude Throws LogFile CircularQ SpdLogger PatternFormatter.
From S2P Require Fmt.

(** ** strerror_tl

    [strerror_r] is libc's: from the buffer, what it leaves in it and the pointer it returns,
    which in GNU's version need not be the buffer; the code reads the buffer. *)
Definition kErrnoBufSize : Z := 512.
Definition strerror_tl (strerror_r : Z → list byte → Z → list byte * option (list byte))
    (t_errnobuf : list byte) (savedErrno : Z) : list byte :=
  (strerror_r savedErrno t_errnobuf kErrnoBufSize).1.

(** ** Logger *)
Inductive logLevel := trace | debug | info | warn | err | critical | off | n_levels.
Definition level_of (l : logLevel) : Z :=
  match l with trace => 0 | debug => 1 | info => 2 | warn => 3 | err => 4 | critical => 5 | off => 6 | n_levels => 7 end.

Record Logger (FS : Type) := mkHam { isInitialized_ : bool; spd : Log FS; cerr : list (list byte) }.
Arguments mkHam {FS}. Arguments isInitialized_ {FS}. Arguments spd {FS}. Arguments cerr {FS}.

Definition kMaxSize : Z := 1024 * 1024 * 5.
Definition kMaxFiles : Z := 5.
Definition kPattern : pattern := str "%Y-%m-%d %H:%M:%S [%l] [tid : %t] [%s : %# <%!>] %v".
Definition kDefaultPattern : pattern := str "%+".

Section ham_logger.
Context {FS : Type} `{FileSystem FS} (format : pattern → log_msg → formatted) (in_color_terminal : bool).
Abbreviation World := (Log FS).
Implicit Types w : World.

(** [std::make_shared] of a sink and of a logger. *)
Definition new_sink (i : sink_impl) : M World nat := λ w,
  (set_sinks (sinks w ++ [Some (mkSinkObj level_trace kDefaultPattern i)]) w, Done (length (sinks w))).
Definition new_logger (g : logger) : M World nat := λ w,
  (set_loggers (loggers w ++ [Some g]) w, Done (length (loggers w))).
Definition new_rotating_sink (filePath : path) (max_size max_files : Z) : M World nat := λ w,
  match rotating_file_sink_ctor filePath max_size max_files false (disk w) with
  | (lw, Done _) => new_sink (Rotating (sink lw)) (set_disk (fs lw) w)
  | (lw, Throw e) => (set_disk (fs lw) w, Throw e)
  | (lw, Crash f) => (set_disk (fs lw) w, Crash f)
  end.

(** The [try] block of [init]. *)
Definition init_try (loggerName : list byte) (filePath : path) (level : logLevel) : M World unit :=
  console_sink ← new_sink (Console (ansicolor_sink_ctor in_color_terminal));
  rotating_sink ← new_rotating_sink filePath kMaxSize kMaxFiles;
  logger ← new_logger (logger_ctor loggerName [console_sink; rotating_sink]);
  _ ← change_logger logger (λ g, set_level g (level_of level));
  _ ← set_formatter logger kPattern;
  _ ← change_logger logger (λ g, flush_on g level_warn);
  set_default_logger (Some logger).

Definition init (loggerName : list byte) (filePath : path) (level : logLevel) : M (Logger FS) bool := λ h,
  if isInitialized_ h then (h, Done true)
  else
    match init_try loggerName filePath level (spd h) with
    | (w, Done _) => (mkHam true w (cerr h), Done true)
    | (w, Throw what) => (mkHam false (release w) (cerr h ++ [what]), Done false)
    | (w, Crash f) => (mkHam false w (cerr h), Crash f)
    end.

Definition on_spd {A} (m : M World A) : M (Logger FS) A := λ h,
  let '(w, r) := m (spd h) in (mkHam (isInitialized_ h) w (cerr h), r).

Definition shutdown : M (Logger FS) unit := on_spd registry_shutdown.
Definition setLevel (level : logLevel) : M (Logger FS) unit := on_spd (registry_set_level (level_of level)).

(** The macros: a format string and its arguments, which fmt (Fmt.v) turns into the text. *)
Definition log_result (lvl : Z) (loc : source_loc) (text : result (list byte)) : M World unit :=
  l ← default_logger_raw; log_ format l loc lvl text.
Definition log_call (lvl : Z) (loc : source_loc) (fmt : list byte) (args : list Fmt.arg) : M World unit :=
  log_result lvl loc (Fmt.vformat_to args fmt).
Definition TRACE loc fmt args : M (Logger FS) unit := on_spd (log_call level_trace loc fmt args).
Definition DEBUG loc fmt args : M (Logger FS) unit := on_spd (log_call level_debug loc fmt args).
Definition INFO loc fmt args : M (Logger FS) unit := on_spd (log_call level_info loc fmt args).
Definition WARN loc fmt args : M (Logger FS) unit := on_spd (log_call level_warn loc fmt args).
Definition ERROR loc fmt args : M (Logger FS) unit := on_spd (log_call level_err loc fmt args).
Definition CRITICAL loc fmt args : M (Logger FS) unit := _ ← on_spd (log_call level_critical loc fmt args); crash Aborted.

(** The library before the program's first call: the registry's own logger on the console. *)
Definition first_use (s : FS) (now thread : Z) : Logger FS :=
  mkHam false
    (mkLog [Some (mkSinkObj level_trace kDefaultPattern (Console (ansicolor_sink_ctor in_color_terminal)))]
       [Some (logger_ctor [] [0%nat])]
       (mkRegistry {[ [] := 0%nat ]} ∅ kDefaultPattern level_info level_off (Some 0%nat) true 0)
       [] [] 0 0 now thread s) [].
End ham_logger.

(** ** The logger in use *)
Section up.
Context {FS : Type} `{FileSystemLaws FS} (format : pattern → log_msg → formatted) (in_color_terminal : bool).
Context (loggerName : list byte) (base : path) (Hbase : base ≠ []) (h0 : path → option (list byte)) (th : Z) (failed0 : nat).
Abbreviation World := (Log FS).
Implicit Types w : World.

Context (N : Z) (HN : 0 ≤ N).

Definition console : ansicolor_sink := ansicolor_sink_ctor in_color_terminal.

(** What a message shows on the console and puts into the file. *)
Definition shown (m : log_msg) : list byte :=
  match console_text console (level m) (format kPattern m) with Ok t => t | Err _ => [] end.
Definition filed (m : log_msg) : list byte := text (format kPattern m).

(** After [init]: level [lv], the console has had [out] and the file [texts], in at most [n]
    messages of at most [T] bytes together. *)
Record up (lv : Z) (out texts : list byte) (nw n T : Z) w : Prop := {
  up_default : default_logger_ (reg w) = Some 1%nat;
  up_map : loggers_ (reg w) = {[ loggerName := 1%nat ]};
  up_logger : the_logger 1 w = Some (mkLogger loggerName [1%nat; 2%nat] lv level_warn default_tracer);
  up_console : the_sink 1 w = Some (mkSinkObj level_trace kPattern (Console console));
  up_file : ∃ k, the_sink 2 w = Some (mkSinkObj level_trace kPattern (Rotating k)) ∧
    in_use base kMaxSize kMaxFiles failed0 h0 (err_counter w =? 0) texts T (mkLW k (disk w));
  up_out : stdout w = out;
  up_now : now w = nw;
  up_thread : thread w = th;
  up_errors : 0 ≤ err_counter w ≤ n
}.

Lemma the_sink_put i s w : is_Some (the_sink i w) → the_sink i (put_sink i s w) = Some s.
Proof.
  intros [s0 Hs]. unfold the_sink, put_sink in *. simpl in *. destruct (sinks w !! i) eqn:E; [|done].
  rewrite list_lookup_insert_eq; [done|]. by apply lookup_lt_Some in E.
Qed.

Lemma the_sink_put_ne i j s w : i ≠ j → the_sink j (put_sink i s w) = the_sink j w.
Proof. intros. unfold the_sink, put_sink. simpl. by rewrite list_lookup_insert_ne. Qed.

Lemma the_sink_disk i d w : the_sink i (set_disk d w) = the_sink i w.
Proof. done. Qed.

Lemma the_sink_reports i v n t w : the_sink i (set_reports v n t w) = the_sink i w.
Proof. done. Qed.

Lemma console_text_ok lvl f : 0 ≤ lvl ≤ 6 → ∃ t, console_text console lvl f = Ok t.
Proof.
  intros Hl. unfold console_text. case_match; [|by eexists].
  assert (lvl = 0 ∨ lvl = 1 ∨ lvl = 2 ∨ lvl = 3 ∨ lvl = 4 ∨ lvl = 5 ∨ lvl = 6) as Hc by lia.
  by destruct Hc as [->|[->|[->|[->|[->|[->| ->]]]]]]; eexists.
Qed.

(** The console takes every message. *)
Lemma up_console_log lv out texts nw n T msg w : 0 ≤ level msg ≤ 6 → up lv out texts nw n T w →
  ∃ w', catch_ loggerName (sink_log format 1 msg) w = (w', Done tt) ∧ up lv (out ++ shown msg) texts nw n T w'.
Proof.
  intros Hl []. destruct (console_text_ok (level msg) (format kPattern msg) Hl) as [t Ht].
  eexists. unfold catch_, sink_log, get, mbind, M_bind. rewrite up_console0. simpl.
  unfold mret, M_ret. rewrite Ht. split; [done|]. split; try done; simpl.
  unfold shown. by rewrite up_out0, Ht.
Qed.

(** The file may fail; then the error is counted, and the logger goes on. *)
Lemma up_file_log lv out texts nw n T msg w : zlen (filed msg) ≤ N → n + 1 < 2 ^ 64 → T + N < 2 ^ 64 → up lv out texts nw n T w →
  ∃ w', catch_ loggerName (sink_log format 2 msg) w = (w', Done tt) ∧ up lv out (texts ++ filed msg) nw (n + 1) (T + N) w'.
Proof.
  intros Hlen Hn HT []. destruct up_file0 as (k & Hk & Hu).
  unfold catch_, sink_log, get, mbind, M_bind. rewrite Hk. simpl. unfold mret, M_ret, on_file. fold (filed msg).
  pose proof (sink_it_in_use base kMaxSize kMaxFiles Hbase ltac:(done) failed0 h0 _ texts T (filed msg) (mkLW k (disk w)) ltac:(done) ltac:(lia) Hu) as Hs.
  destruct (LogFile.sink_it_ (filed msg) _) as [lw [a|e|x]]; [| |done].
  - destruct a. eexists. split; [done|]. split; try done; simpl; [| |lia].
    + by rewrite the_sink_disk, (the_sink_put_ne 2 1).
    + exists (sink lw). rewrite the_sink_disk, the_sink_put by (by eexists). split; [done|]. destruct lw.
      eapply in_use_mono; [|exact Hs]. lia.
  - eexists. split; [done|]. set (w1 := set_disk _ _).
    assert (Hu1 : up lv out (texts ++ filed msg) nw (n + 1) (T + N) (set_reports (reports w1) (err_counter w1 + 1) (last_report_time w1) w1)).
    { split; try done; simpl; [| |lia].
      - by rewrite the_sink_reports; unfold w1; rewrite the_sink_disk, (the_sink_put_ne 2 1).
      - exists (sink lw). rewrite the_sink_reports; unfold w1; rewrite the_sink_disk, the_sink_put by (by eexists). split; [done|]. destruct lw.
        rewrite (proj2 (Z.eqb_neq _ _)) by lia. eapply in_use_mono; [|exact Hs]. lia. }
    unfold err_handler_. rewrite u64_small by (simpl; lia). case_match; [done|]. destruct Hu1. by split.
Qed.

Lemma up_file_flush lv out texts nw n T w : up lv out texts nw n T w →
  ∃ w', catch_ loggerName (sink_flush 2) w = (w', Done tt) ∧ up lv out texts nw n T w'.
Proof.
  intros []. destruct up_file0 as (k & Hk & Hu). destruct (flush_in_use base kMaxSize kMaxFiles failed0 _ _ _ _ _ Hu) as (lw & Hf & Hu').
  unfold catch_, sink_flush, get, mbind, M_bind. rewrite Hk. unfold deref, mret, M_ret, on_file. cbn [impl]. rewrite Hf.
  eexists. split; [done|]. split; try done; simpl.
  - by rewrite the_sink_disk, (the_sink_put_ne 2 1).
  - exists (sink lw). rewrite the_sink_disk, the_sink_put by (by eexists). by destruct lw.
Qed.

Lemma up_console_flush lv out texts nw n T w : up lv out texts nw n T w →
  catch_ loggerName (sink_flush 1) w = (w, Done tt).
Proof. intros []. unfold catch_, sink_flush, get, mbind, M_bind. by rewrite up_console0. Qed.

Lemma up_mono lv out texts nw n n' T T' w : n ≤ n' → T ≤ T' → up lv out texts nw n T w → up lv out texts nw n' T' w.
Proof.
  intros ? ? []. destruct up_file0 as (k & Hk & Hu). split; try done; [|lia].
  exists k. split; [done|]. by eapply in_use_mono.
Qed.

Abbreviation the_logger_of lv := (mkLogger loggerName [1%nat; 2%nat] lv level_warn default_tracer).

Lemma up_sink_it lv out texts nw n T msg w : 0 ≤ level msg ≤ 6 → zlen (filed msg) ≤ N → n + 1 < 2 ^ 64 → T + N < 2 ^ 64 → up lv out texts nw n T w →
  ∃ w', SpdLogger.sink_it_ format (the_logger_of lv) msg w = (w', Done tt) ∧
    up lv (out ++ shown msg) (texts ++ filed msg) nw (n + 1) (T + N) w'.
Proof.
  intros Hl Hlen Hn HT Hup. destruct (up_console_log _ _ _ _ _ _ msg w Hl Hup) as (w1 & Hr1 & Hup1).
  destruct (up_file_log _ _ _ _ _ _ msg w1 Hlen Hn HT Hup1) as (w2 & Hr2 & Hup2).
  destruct (up_file_flush _ _ _ _ _ _ w2 Hup2) as (w3 & Hr3 & Hup3).
  destruct (up_file _ _ _ _ _ _ _ Hup1) as (k & Hk & _). pose proof (up_console _ _ _ _ _ _ _ Hup) as Hc.
  unfold SpdLogger.sink_it_, flush_, forM_, foreach, get, mbind, M_bind. cbn [sinks_ name_].
  rewrite Hc. unfold deref, mret, M_ret, sink_should_log. cbn [sink_level_]. unfold level_trace.
  rewrite (proj2 (Z.leb_le 0 (level msg))) by lia. rewrite Hr1, Hk. cbn [sink_level_]. unfold level_trace.
  rewrite (proj2 (Z.leb_le 0 (level msg))) by lia. rewrite Hr2.
  case_match; [rewrite (up_console_flush _ _ _ _ _ _ _ Hup2), Hr3|]; by eexists.
Qed.

Lemma in_use_whole b T texts (w : LW FS) : in_use base kMaxSize kMaxFiles failed0 h0 b texts T w → in_use base kMaxSize kMaxFiles failed0 h0 false texts T w.
Proof. intros (h & fd & sz & ? & ? & ? & ? & _). by exists h, fd, sz. Qed.

(** An exception while the arguments are formatted costs the message. *)
Lemma up_error lv out texts nw n T e w : n + 1 < 2 ^ 64 → up lv out texts nw n T w →
  up lv out texts nw (n + 1) T (err_handler_ loggerName e w).
Proof.
  intros Hn [].
  assert (Hup : ∀ v t, up lv out texts nw (n + 1) T (set_reports v (err_counter w + 1) t w)).
  { intros v t. split; try done; simpl; [|lia]. destruct up_file0 as (k & Hk & Hu). exists k. split; [done|].
    rewrite (proj2 (Z.eqb_neq _ _)) by lia. by eapply in_use_whole. }
  unfold err_handler_. rewrite u64_small by lia. case_match; apply Hup.
Qed.

(** What a call adds to the console, and to the file. *)
Definition call_msg (lvl : Z) loc (nw : Z) (buf : list byte) : log_msg := mkMsg loggerName lvl nw th loc buf.
Definition adds (put : log_msg → list byte) (lv lvl : Z) loc (nw : Z) (fmt : result (list byte)) : list byte :=
  match fmt with
  | Done buf => if lv <=? lvl then put (call_msg lvl loc nw buf) else []
  | _ => []
  end.

Lemma up_log_call lv out texts nw n T lvl loc fmt w : 0 ≤ lvl ≤ 6 → (∀ f, fmt ≠ Crash f) →
  (∀ buf, fmt = Done buf → zlen (filed (call_msg lvl loc nw buf)) ≤ N) → n + 1 < 2 ^ 64 → T + N < 2 ^ 64 →
  up lv out texts nw n T w →
  ∃ w', log_result format lvl loc fmt w = (w', Done tt) ∧
    up lv (out ++ adds shown lv lvl loc nw fmt) (texts ++ adds filed lv lvl loc nw fmt) nw (n + 1) (T + N) w' ∧
    (lvl < lv → w' = w).
Proof.
  intros Hl Hf Hlen Hn HT Hup. pose proof Hup as [].
  unfold log_result, default_logger_raw, log_, get, mbind, M_bind, mret, M_ret. rewrite up_default0.
  unfold deref, mret, M_ret. rewrite up_logger0. unfold should_log, adds. cbn [level_ tracer_ enabled default_tracer enabled_ negb].
  rewrite Bool.andb_true_r. rewrite up_now0, up_thread0. unfold log_it_. destruct (Z.leb_spec lv lvl) as [Hle|Hgt]; cbn [negb].
  - destruct fmt as [buf|e|f]; [| |by destruct (Hf f)].
    + destruct (up_sink_it _ _ _ _ _ _ (call_msg lvl loc nw buf) w Hl (Hlen buf eq_refl) Hn HT Hup) as (w' & Hr & Hup').
      unfold catch_, mbind, M_bind. cbn [name_]. unfold call_msg in Hr. rewrite Hr. exists w'. split_and!; [done|done|lia].
    + unfold catch_, throw. cbn [name_]. eexists. split_and!; [done| |lia]. rewrite !app_nil_r.
      eapply up_mono; [| |by apply up_error]; lia.
  - exists w. split_and!; [done| |done]. assert (Hnil : match fmt with Done _ | _ => [] end = @nil byte) by by destruct fmt.
    rewrite Hnil, !app_nil_r. eapply up_mono; [| |exact Hup]; lia.
Qed.

Lemma up_set_level lv lv' out texts nw n T w : up lv out texts nw n T w →
  ∃ w', registry_set_level lv' w = (w', Done tt) ∧ up lv' out texts nw n T w'.
Proof.
  intros []. unfold registry_set_level, apply_all, get, mbind, M_bind. rewrite up_map0, map_to_list_singleton.
  unfold forM_, foreach, change_logger, get, mbind, M_bind. cbn [fmap list_fmap snd]. rewrite up_logger0.
  eexists. split; [done|]. split; try done; simpl. unfold the_logger, put_logger in *. simpl in *.
  rewrite list_lookup_insert_eq; [done|]. destruct (loggers w !! 1%nat) eqn:E; [|done]. by apply lookup_lt_Some in E.
Qed.

Lemma up_clock lv out texts nw nw' n T w : up lv out texts nw n T w → up lv out texts nw' n T (set_now nw' w).
Proof. intros []. by split. Qed.
End up.

(** ** Sessions *)
Inductive log_op :=
| Call (lvl : logLevel) (loc : source_loc) (fmt : list byte) (args : list Fmt.arg)
| SetLevel (lvl : logLevel)
| Clock (t : Z).

Section sessions.
Context {FS : Type} `{FileSystem FS} (format : pattern → log_msg → formatted).

Definition macro (lvl : logLevel) : source_loc → list byte → list Fmt.arg → M (Logger FS) unit :=
  match lvl with
  | trace => TRACE format | debug => DEBUG format | info => INFO format | warn => WARN format | err => ERROR format
  | _ => CRITICAL format
  end.

Definition run_op (o : log_op) : M (Logger FS) unit :=
  match o with
  | Call lvl loc fmt args => macro lvl loc fmt args
  | SetLevel lvl => setLevel lvl
  | Clock t => on_spd (modify (set_now t))
  end.
End sessions.

(** The message of a CRITICAL call is the last.  The lines of the others have at most [N] bytes. *)
Definition ordinary (format : pattern → log_msg → formatted) (name : list byte) (th N : Z) (o : log_op) : Prop :=
  match o with
  | Call lvl loc fmt args => level_of lvl ≤ level_err ∧ Forall Fmt.arg_ok args ∧
      ∀ nw buf, Fmt.vformat_to args fmt = Done buf → zlen (filed format (call_msg name th (level_of lvl) loc nw buf)) ≤ N
  | _ => True
  end.

(** What a session puts somewhere, from level [lv] and time [nw] on. *)
Fixpoint session (name : list byte) (th : Z) (put : log_msg → list byte) (lv nw : Z) (ops : list log_op) : list byte :=
  match ops with
  | [] => []
  | Call lvl loc fmt args :: r => adds name th put lv (level_of lvl) loc nw (Fmt.vformat_to args fmt) ++ session name th put lv nw r
  | SetLevel l :: r => session name th put (level_of l) nw r
  | Clock t :: r => session name th put lv t r
  end.

Section run.
Context {FS : Type} `{FileSystemLaws FS} (format : pattern → log_msg → formatted) (in_color_terminal : bool).
Context (name : list byte) (base : path) (Hbase : base ≠ []) (h0 : path → option (list byte)) (th : Z) (failed0 : nat).
Context (N : Z) (HN : 0 ≤ N).
Abbreviation up := (up in_color_terminal name base h0 th failed0).
Abbreviation shown := (shown format in_color_terminal).
Abbreviation filed := (filed format).

Lemma macro_log_call lvl : level_of lvl ≤ level_err →
  ∀ loc fmt args, macro format lvl loc fmt args = on_spd (log_call (FS := FS) format (level_of lvl) loc fmt args).
Proof. destruct lvl; try done; by intros Hl; unfold level_err in Hl; simpl in Hl; lia. Qed.

Lemma run_ops_up ops lv out texts nw n T (g : Logger FS) : Forall (ordinary format name th N) ops →
  n + Z.of_nat (length ops) < 2 ^ 64 → T + Z.of_nat (length ops) * N < 2 ^ 64 → up lv out texts nw n T (spd g) →
  ∃ g', foreach (run_op format) ops g = (g', Done tt) ∧ isInitialized_ g' = isInitialized_ g ∧ ∃ lv' nw',
    up lv' (out ++ session name th shown lv nw ops) (texts ++ session name th filed lv nw ops) nw'
      (n + Z.of_nat (length ops)) (T + Z.of_nat (length ops) * N) (spd g').
Proof.
  intros Hord. revert lv out texts nw n T g. induction Hord as [|o ops Ho Hord IH]; intros lv out texts nw n T g Hn HT Hup.
  { exists g. split_and!; [done|done|]. exists lv, nw. simpl. rewrite !app_nil_r. eapply up_mono; [| |exact Hup]; lia. }
  assert (Hstep : ∀ lv1 out1 texts1 nw1 w1, run_op format o g = (mkHam (isInitialized_ g) w1 (cerr g), Done tt) →
    up lv1 out1 texts1 nw1 (n + 1) (T + N) w1 →
    out ++ session name th shown lv nw (o :: ops) = out1 ++ session name th shown lv1 nw1 ops →
    texts ++ session name th filed lv nw (o :: ops) = texts1 ++ session name th filed lv1 nw1 ops →
    ∃ g', foreach (run_op format) (o :: ops) g = (g', Done tt) ∧ isInitialized_ g' = isInitialized_ g ∧ ∃ lv' nw',
      up lv' (out ++ session name th shown lv nw (o :: ops)) (texts ++ session name th filed lv nw (o :: ops)) nw'
        (n + Z.of_nat (length (o :: ops))) (T + Z.of_nat (length (o :: ops)) * N) (spd g')).
  { intros lv1 out1 texts1 nw1 w1 Hr Hup1 -> ->. cbn [foreach length] in *.
    destruct (IH lv1 out1 texts1 nw1 (n + 1) (T + N) (mkHam (isInitialized_ g) w1 (cerr g))) as (g' & Hr' & Hi & lv' & nw' & Hup').
    - lia.
    - lia.
    - done.
    - exists g'. unfold mbind, M_bind. rewrite Hr. split_and!; [done|done|]. exists lv', nw'.
      eapply up_mono; [| |exact Hup']; lia. }
  cbn [length] in Hn, HT. destruct o as [lvl loc fmt args|lvl|t]; cbn [session] in Hstep |- *.
  - destruct Ho as (Hl & Hf & Hlen). pose proof (macro_log_call lvl Hl) as Hm. unfold level_err in Hl.
    destruct (up_log_call format in_color_terminal name base Hbase h0 th failed0 N HN lv out texts nw n T (level_of lvl) loc (Fmt.vformat_to args fmt) (spd g))
      as (w' & Hr & Hup' & _); [split; [by destruct lvl|lia]|by apply Fmt.vformat_no_crash|by apply Hlen|lia|lia|done|].
    eapply Hstep; [|exact Hup'|by rewrite app_assoc..]. simpl. rewrite Hm. unfold on_spd, log_call. by rewrite Hr.
  - destruct (up_set_level in_color_terminal name base h0 th failed0 lv (level_of lvl) out texts nw n T (spd g) Hup) as (w' & Hr & Hup').
    eapply Hstep; [|eapply up_mono; [| |exact Hup']; lia|done..]. simpl. unfold setLevel, on_spd. by rewrite Hr.
  - pose proof (up_clock in_color_terminal name base h0 th failed0 lv out texts nw t n T (spd g) Hup) as Hup'.
    eapply Hstep; [|eapply up_mono; [| |exact Hup']; lia|done..]. done.
Qed.
End run.

Section set_up.
Context {FS : Type} `{FileSystemLaws FS} (in_color_terminal : bool) (loggerName : list byte) (base : path) (Hbase : base ≠ []).
Abbreviation World := (Log FS).

(** The registry lets go of its own logger when Ham's becomes the default. *)
Lemma release_first s0 s1 s2 g0 g1 (w : World) c : loggers_ (reg w) = {[ loggerName := 1%nat ]} → default_logger_ (reg w) = Some 1%nat →
  sinks w = [Some s0; Some s1; Some s2] → loggers w = [Some g0; Some g1] → sinks_ g1 = [1%nat; 2%nat] → impl s0 = Console c →
  release w = set_sinks [None; Some s1; Some s2] (set_loggers [None; Some g1] w).
Proof.
  intros Hm Hd Hs Hl Hg Hc. unfold release, held_loggers. rewrite Hm, Hd, map_to_list_singleton, Hs, Hl.
  set (ls := imap _ _). assert (ls = [None; Some g1]) as -> by by vm_compute.
  assert (held_sinks [None; Some g1] = [1; 2])%nat as -> by (unfold held_sinks; cbn; by rewrite Hg).
  cbn [length seq foldl]. rewrite decide_True by (rewrite !list_elem_of_In; simpl; lia).
  rewrite decide_True by (rewrite !list_elem_of_In; simpl; lia).
  rewrite decide_False by (rewrite !list_elem_of_In; simpl; lia).
  unfold destroy_sink, the_sink. cbn. rewrite Hs. cbn. rewrite Hc. change (sinks (set_loggers [None; Some g1] w)) with (sinks w). by rewrite Hs.
Qed.

(** The [try] block once the file is open: Ham's logger is the default, and the sinks are its. *)
Definition set_up_log (lvl : logLevel) nw th (lw : LW FS) : World :=
  mkLog [Some (mkSinkObj level_trace kDefaultPattern (Console (ansicolor_sink_ctor in_color_terminal)));
         Some (mkSinkObj level_trace kPattern (Console (ansicolor_sink_ctor in_color_terminal)));
         Some (mkSinkObj level_trace kPattern (Rotating (sink lw)))]
    [Some (logger_ctor [] [0%nat]); Some (mkLogger loggerName [1%nat; 2%nat] (level_of lvl) level_warn default_tracer)]
    (mkRegistry (<[loggerName := 1%nat]> (delete [] {[ [] := 0%nat ]})) ∅ kDefaultPattern level_info level_off (Some 1%nat) true 0)
    [] [] 0 0 nw th (fs lw).

Lemma set_up_map lvl nw th lw : loggers_ (reg (set_up_log lvl nw th lw)) = {[ loggerName := 1%nat ]}.
Proof. unfold set_up_log. cbn [reg loggers_]. by rewrite delete_singleton_eq. Qed.

Lemma init_try_run lvl s nw th lw a : rotating_file_sink_ctor base kMaxSize kMaxFiles false s = (lw, Done a) →
  init_try in_color_terminal loggerName base lvl (spd (first_use in_color_terminal s nw th)) = (release (set_up_log lvl nw th lw), Done tt).
Proof.
  intros Hc. unfold init_try, new_sink, new_rotating_sink, first_use, mbind, M_bind.
  cbn [spd sinks set_sinks disk app length]. rewrite Hc. reflexivity.
Qed.

Lemma init_up lvl s nw th : (∀ k, 0 ≤ k ≤ kMaxFiles → fs_dir (calc_filename base k) s = false) →
  match init in_color_terminal loggerName base lvl (first_use in_color_terminal s nw th) with
  | (g, Done true) => isInitialized_ g = true ∧ cerr g = [] ∧
      up in_color_terminal loggerName base (λ q, fs_content q s) th (fs_failures s) (level_of lvl) [] [] nw 0
        (zlen (default [] (fs_content base s))) (spd g) ∧ fs_failures (disk (spd g)) = fs_failures s
  | (g, Done false) => isInitialized_ g = false ∧ (∃ what, cerr g = [what]) ∧ reg (spd g) = reg (spd (first_use in_color_terminal s nw th)) ∧
      ∀ q, ¬ named base kMaxFiles q → fs_content q (disk (spd g)) = fs_content q s
  | _ => False
  end.
Proof.
  intros Hd. pose proof (ctor_in_use base kMaxSize kMaxFiles Hbase ltac:(done) _ s eq_refl Hd) as Hc.
  unfold init. change (isInitialized_ (first_use in_color_terminal s nw th)) with false. cbv iota.
  destruct (rotating_file_sink_ctor base kMaxSize kMaxFiles false s) as [lw [a|e|x]] eqn:E; [| |done].
  - rewrite (init_try_run lvl s nw th lw a E). rewrite (release_first (mkSinkObj level_trace kDefaultPattern (Console (ansicolor_sink_ctor in_color_terminal)))
      (mkSinkObj level_trace kPattern (Console (ansicolor_sink_ctor in_color_terminal))) (mkSinkObj level_trace kPattern (Rotating (sink lw)))
      (logger_ctor [] [0%nat]) (mkLogger loggerName [1%nat; 2%nat] (level_of lvl) level_warn default_tracer)
      (set_up_log lvl nw th lw) (ansicolor_sink_ctor in_color_terminal)); [|apply set_up_map|done..].
    destruct Hc as [Hc Hf]. split_and!; [done|done| |exact Hf]. split; [done|apply set_up_map|done..| |done|done|done|done].
    exists (sink lw). split; [done|]. by destruct lw.
  - unfold init_try, new_sink, new_rotating_sink, first_use, mbind, M_bind. cbn [spd sinks set_sinks disk app length].
    rewrite E. cbn [isInitialized_ spd cerr].
    set (w1 := set_disk _ _). assert (Hr : reg (release w1) = reg w1 ∧ disk (release w1) = fs lw) by by vm_compute.
    destruct Hr as [Hr1 Hr2]. split_and!; [done|by exists e|exact Hr1|]. by rewrite Hr2.
Qed.
End set_up.

(** ** Properties *)
Lemma release_reg {FS} `{FileSystem FS} (w : Log FS) : reg (release w) = reg w.
Proof.
  unfold release. set (keep := imap _ _). set (kept := held_sinks keep).
  assert (Hf : ∀ l (w1 : Log FS), reg (foldl (λ w i, if decide (i ∈ kept) then w else destroy_sink i w) w1 l) = reg w1).
  { induction l as [|i l IH]; intros w1; [done|]. cbn [foldl]. rewrite IH. case_decide; [done|].
    unfold destroy_sink. destruct (the_sink i w1) as [s|]; [|done]. by destruct (impl s). }
  by rewrite Hf.
Qed.

Section properties.
Context {FS : Type} `{FileSystemLaws FS} (format : pattern → log_msg → formatted) (in_color_terminal : bool).
Context (name : list byte) (base : path) (Hbase : base ≠ []).


(** [shutdown] leaves no default logger, and [init] does not make another: it returns [true] at
    once, and the next message is logged through a null pointer. *)
Theorem log_after_shutdown_crashes (lvl lvl' : logLevel) loc fmt args (g : Logger FS) : isInitialized_ g = true →
  ∃ g', shutdown g = (g', Done tt) ∧ init in_color_terminal name base lvl g' = (g', Done true) ∧
    (macro format lvl' loc fmt args g').2 = Crash NullPointer.
Proof.
  intros Hi. eexists. split; [done|]. split; [unfold init; simpl; by rewrite Hi|].
  unfold macro, CRITICAL, TRACE, DEBUG, INFO, WARN, ERROR, on_spd, log_call, log_result, default_logger_raw, get, log_, mbind, M_bind, mret, M_ret.
  destruct lvl'; cbn [spd]; by rewrite release_reg.
Qed.
End properties.

(** GNU's [strerror_r] returns a string of its own for the errors it knows, and leaves the
    buffer alone: then [strerror_tl] gives what an earlier call left there, at first nothing. *)
Lemma strerror_tl_gnu (messages : Z → option (list byte)) (buf : list byte) (e : Z) (m : list byte) :
  messages e = Some m →
  strerror_tl (λ e buf _, match messages e with Some m => (buf, Some m) | None => (str "Unknown error " ++ to_string e, None) end) buf e = buf.
Proof. intros He. unfold strerror_tl. by rewrite He. Qed.

(** ** The lines of the log *)

(** A message without a source leaves its places empty. *)
Definition if_source (m : log_msg) (s : list byte) : list byte := if loc_empty (source m) then [] else s.
Definition date_text (t : tm) : list byte :=
  append_int (tm_year t + 1900) ++ str "-" ++ pad2 (tm_mon t + 1) ++ str "-" ++ pad2 (tm_mday t) ++ str " " ++
  pad2 (tm_hour t) ++ str ":" ++ pad2 (tm_min t) ++ str ":" ++ pad2 (tm_sec t).
Definition log_line (m : log_msg) (t : tm) : list byte :=
  date_text t ++ str " [" ++ default [] (level_names !! Z.to_nat (level m)) ++ str "] [tid : " ++ append_int (thread_id m) ++
  str "] [" ++ if_source m (basename (filename (source m))) ++ str " : " ++ if_source m (append_int (line (source m))) ++
  str " <" ++ if_source m (funcname (source m)) ++ str ">] " ++ payload m.

Definition kFormatters : list flag_formatter :=
  let field f := Field f no_padding in let text s := aggregate_formatter (str s) in
  [field Y_formatter; text "-"; field m_formatter; text "-"; field d_formatter; text " "; field H_formatter; text ":";
   field M_formatter; text ":"; field S_formatter; text " ["; field level_formatter; text "] [tid : "; field t_formatter;
   text "] ["; field short_filename_formatter; text " : "; field source_linenum_formatter; text " <";
   field source_funcname_formatter; text ">] "; field v_formatter]%string.

Lemma kPattern_compiled now : compile_pattern_ now kPattern = Ok kFormatters.
Proof. reflexivity. Qed.

Lemma kFormatters_line utc_minutes_offset pid m t : msg_ok m → line_text utc_minutes_offset pid kFormatters m t = log_line m t.
Proof.
  intros Hm. destruct (at_index_ok level_names (level m)) as [nm Hnm].
  { change (zlen level_names) with 7. pose proof (ok_level m Hm). unfold level_off in *. lia. }
  unfold line_text, kFormatters, log_line, date_text, if_source. cbn [fmap list_fmap concat flag_text run_field].
  unfold_formats. rewrite Hnm.
  unfold at_index in Hnm. case_match; [done|]. destruct (level_names !! Z.to_nat (level m)) as [nm'|]; [|done].
  injection Hnm as ->. ok_simpl. cbn [pad_enabled_ no_padding default from_option id].
  destruct (loc_empty (source m)); by rewrite <- !app_assoc, app_nil_r.
Qed.

(** Every line of the log has the local time to the second, the level, the thread, the source
    and the text of its message, and ends in a newline; no message fails to be formatted. *)
Theorem log_lines (localtime : Z → tm) (utc_minutes_offset : tm → Z) (pid now : Z) (ms : list log_msg) :
  Forall (λ m, msg_ok m ∧ tm_ok (localtime (to_secs (time m)))) ms →
  ∃ pf pf', pattern_formatter_ctor now kPattern = Ok pf ∧
    format_all localtime utc_minutes_offset pid pf ms = Ok (pf', (λ m, log_line m (localtime (to_secs (time m))) ++ default_eol) <$> ms).
Proof.
  intros Hms. exists (mkFormatter kPattern default_eol zero_tm 0 kFormatters).
  destruct (format_all_ok localtime utc_minutes_offset pid kFormatters (mkFormatter kPattern default_eol zero_tm 0 kFormatters) ms)
    as [pf' Hpf]; [|done|apply same_flag_refl|done|done|].
  { split; [by repeat (apply Forall_cons; split; [done|])|by repeat (apply Forall_cons; split; [done|])|by left]. }
  exists pf'. split; [done|]. rewrite Hpf. do 2 f_equal. apply list_fmap_ext. intros i m Hi.
  rewrite kFormatters_line; [done|]. by apply (Forall_lookup_1 _ _ _ _ Hms Hi).
Qed.

Lemma log_lines_witness : ∃ pf pf', pattern_formatter_ctor 0 kPattern = Ok pf ∧
  format_all (λ _, demo_tm) (λ _, 0) 1 pf demo_times = Ok (pf', [
    str "2020-02-02 03:04:05 [warning] [tid : 77] [TcpServer.cc : 12 <start>] one" ++ [x0a];
    str "2020-02-02 03:04:05 [warning] [tid : 77] [TcpServer.cc : 12 <start>] two" ++ [x0a]]).
Proof.
  refine (log_lines (λ _, demo_tm) (λ _, 0) 1 0 demo_times _).
  by repeat (apply Forall_cons; split; [by split|]).
Defined.

(** ** An example *)
Definition demo_format (p : pattern) (m : log_msg) : formatted := mkText (take 100 (payload m)) 0 0.
Definition demo_session : list log_op :=
  [Call debug no_loc (str "fd {}") [Fmt.int_arg 7]; Call trace no_loc (str "two") []; SetLevel trace;
   Call trace no_loc (str "{:>4}") [Fmt.string_arg (str "x")]; Call err no_loc (str "fd = {}") []].
Definition demo_log : Logger sim :=
  (init false (str "Ham") demo_name debug (first_use false (mkSim (λ _, None) [] (λ _, None) 0 []) 0 1)).1.

Lemma demo_init : init false (str "Ham") demo_name debug (first_use false (mkSim (λ _, None) [] (λ _, None) 0 []) 0 1) = (demo_log, Done true).
Proof.
  unfold demo_log. assert (Hr : (init false (str "Ham") demo_name debug (first_use false (mkSim (λ _, None) [] (λ _, None) 0 []) 0 1)).2 = Done true)
    by by vm_compute.
  revert Hr. generalize (init false (str "Ham") demo_name debug (first_use false (mkSim (λ _, None) [] (λ _, None) 0 []) 0 1)).
  intros r. apply run_done.
Qed.

Example demo_session_runs : let g := (foreach (run_op demo_format) demo_session demo_log).1 in
  stdout (spd g) = str "fd 7   x" ∧ fs_content demo_name (disk (spd g)) = Some (str "fd 7   x") ∧ err_counter (spd g) = 1.
Proof. by vm_compute. Qed.

