(* ===== verification/ProgramStart.v ===== *)
(** * ProgramStart: the objects that src/ham/net/EventLoop.cc makes before main, and the system calls that are checked

    IgnoreSigPipe and Log, in the order of their definition, on the logger of Logger.v, and the
    functions of net/EventLoop.cc, net/TimerQueue.cc and net/SocketOps.cc that look at the result of a
    system call and log.  The results are arguments, the file system is any. *)
From S2P Require Import Prelude Throws Fmt LogFile CircularQ SpdLogger Logger.

Record Process (FS : Type) := mkProcess { sigpipe_ignored : bool; the_log : Logger FS }.
Arguments mkProcess {FS}. Arguments sigpipe_ignored {FS}. Arguments the_log {FS}.

Section start.
Context {FS : Type} `{FileSystem FS} (format : pattern → log_msg → formatted) (in_color_terminal : bool).
(** What __FILE__, __LINE__ and the name of the function are at a line of a source file. *)
Context (here : string → Z → source_loc).
Abbreviation Proc := (Process FS).
Abbreviation Ham := (Logger FS).

Definition with_log {A} (m : M Ham A) : M Proc A := λ p,
  let '(g, r) := m (the_log p) in (mkProcess (sigpipe_ignored p) g, r).

Definition IgnoreSigPipe_ctor : M Proc unit :=
  _ ← modify (λ p, mkProcess true (the_log p));
  with_log (TRACE format (here "EventLoop.cc" 45) (str "Ignore SIGPIPE") []).

Definition log_name : list byte := str "log".
Definition log_path : path := str "logs/test.txt".

Definition Log_ctor : M Proc unit :=
  ok ← with_log (init in_color_terminal log_name log_path trace);
  if ok : bool then mret tt
  else with_log (ERROR format (here "EventLoop.cc" 58) (str "Logger init error") []).

(** [initObj], then [initLog]. *)
Definition static_init : M Proc unit := _ ← IgnoreSigPipe_ctor; Log_ctor.

(** ** Checked system calls

    Each takes what the system call returned. *)
Definition createEventfd (evtfd : Z) : M Ham Z :=
  _ ← (if evtfd <? 0 then ERROR format (here "EventLoop.cc" 26) (str "Failed in eventfd") [] else mret tt);
  mret evtfd.
Definition create_alarmFd (alarmFd : Z) : M Ham Z :=
  _ ← (if alarmFd <? 0 then CRITICAL format (here "TimerQueue.cc" 21) (str "Failed in create_alarmFd") [] else mret tt);
  mret alarmFd.
Definition createNonblockingOrDie (sockfd : Z) : M Ham Z :=
  _ ← (if sockfd <? 0 then CRITICAL format (here "SocketOps.cc" 39) (str "sockets::createNonblockingOrDie") [] else mret tt);
  mret sockfd.
Definition bindOrDie (ret : Z) : M Ham unit :=
  if ret <? 0 then ERROR format (here "SocketOps.cc" 50) (str "sockets::bindOrDie error") [] else mret tt.
Definition listenOrDie (ret : Z) : M Ham unit :=
  if ret <? 0 then ERROR format (here "SocketOps.cc" 59) (str "sockets::listenOrDie error") [] else mret tt.
Definition close (ret : Z) : M Ham unit :=
  if ret <? 0 then ERROR format (here "SocketOps.cc" 151) (str "sockets::close") [] else mret tt.
Definition shutdownWrite (ret : Z) : M Ham unit :=
  if ret <? 0 then ERROR format (here "SocketOps.cc" 157) (str "sockets::shutdownWrite") [] else mret tt.

(** The trace of IgnoreSigPipe meets the registry's own logger, which is at level info. *)
Lemma first_trace s nw th : IgnoreSigPipe_ctor (mkProcess false (first_use in_color_terminal s nw th)) =
  (mkProcess true (first_use in_color_terminal s nw th), Done tt).
Proof. reflexivity. Qed.
End start.

(** ** What a process starts with *)
Section started.
Context {FS : Type} `{FileSystemLaws FS} (format : pattern → log_msg → formatted) (in_color_terminal : bool).
Context (here : string → Z → source_loc).

(** The line about the failed init, by the registry's own logger. *)
Definition failed_msg (nw th : Z) : log_msg := mkMsg [] level_err nw th (here "EventLoop.cc" 58) (str "Logger init error").
Definition failed_line (nw th : Z) : list byte :=
  match console_text (ansicolor_sink_ctor in_color_terminal) level_err (format kDefaultPattern (failed_msg nw th)) with
  | Ok t => t
  | Err _ => []
  end.

(** After a failed [init]: the registry's own logger and its console are still there. *)
Definition after_failure (s : FS) (nw th : Z) : Log FS :=
  mkLog [Some (mkSinkObj level_trace kDefaultPattern (Console (ansicolor_sink_ctor in_color_terminal))); None]
    [Some (logger_ctor [] [0%nat])]
    (mkRegistry {[ [] := 0%nat ]} ∅ kDefaultPattern level_info level_off (Some 0%nat) true 0)
    [] [] 0 0 nw th s.

Lemma init_failed lvl name base s nw th lw e : rotating_file_sink_ctor base kMaxSize kMaxFiles false s = (lw, Throw e) →
  init in_color_terminal name base lvl (first_use in_color_terminal s nw th) =
  (mkHam false (after_failure (fs lw) nw th) [e], Done false).
Proof.
  intros E. unfold init, init_try, new_sink, new_rotating_sink, first_use, mbind, M_bind.
  cbn [isInitialized_ spd sinks set_sinks disk app length]. rewrite E. cbn [spd cerr app]. do 3 f_equal; vm_compute; reflexivity.
Qed.

Lemma failed_sink_log s nw th :
  sink_log format 0 (failed_msg nw th) (after_failure s nw th) =
  (set_stdout (failed_line nw th) (after_failure s nw th), Done tt).
Proof.
  destruct (console_text_ok in_color_terminal level_err (format kDefaultPattern (failed_msg nw th))) as [t Ht]; [by unfold level_err|].
  unfold failed_line. change (console in_color_terminal) with (ansicolor_sink_ctor in_color_terminal) in Ht. rewrite Ht.
  unfold sink_log, mbind, M_bind, get, deref, mret, M_ret. change (the_sink 0 (after_failure s nw th)) with
    (Some (mkSinkObj level_trace kDefaultPattern (Console (ansicolor_sink_ctor in_color_terminal)))).
  cbv beta iota. cbn [impl formatter_]. change (level (failed_msg nw th)) with level_err. rewrite Ht. reflexivity.
Qed.

Lemma error_after_failure s nw th cs :
  ERROR format (here "EventLoop.cc" 58) (str "Logger init error") [] (mkHam false (after_failure s nw th) cs) =
  (mkHam false (set_stdout (failed_line nw th) (after_failure s nw th)) cs, Done tt).
Proof.
  assert (Hs : SpdLogger.sink_it_ format (logger_ctor [] [0%nat]) (failed_msg nw th) (after_failure s nw th) =
    (set_stdout (failed_line nw th) (after_failure s nw th), Done tt)).
  { unfold SpdLogger.sink_it_, forM_, mbind, M_bind. cbn [sinks_ logger_ctor foreach]. unfold mbind, M_bind, get, deref, mret, M_ret.
    change (the_sink 0 (after_failure s nw th)) with
      (Some (mkSinkObj level_trace kDefaultPattern (Console (ansicolor_sink_ctor in_color_terminal)))).
    cbv beta iota. change (sink_should_log _ _) with true. cbv beta iota. unfold catch_. rewrite failed_sink_log. reflexivity. }
  assert (Hv : vformat_to [] (str "Logger init error") = Done (str "Logger init error")) by by vm_compute.
  unfold ERROR, on_spd, log_call. rewrite Hv. cbn [spd isInitialized_ cerr].
  assert (Hl : log_result format level_err (here "EventLoop.cc" 58) (Done (str "Logger init error")) (after_failure s nw th) =
    (set_stdout (failed_line nw th) (after_failure s nw th), Done tt)); [|by rewrite Hl].
  unfold log_result, log_, default_logger_raw, get, mbind, M_bind, mret, M_ret.
  change (default_logger_ (reg (after_failure s nw th))) with (Some 0%nat). unfold deref, mret, M_ret. cbv beta iota.
  change (the_logger 0 (after_failure s nw th)) with (Some (logger_ctor [] [0%nat])). cbv beta iota.
  change (should_log (logger_ctor [] [0%nat]) level_err) with true. change (enabled (tracer_ (logger_ctor [] [0%nat]))) with false.
  cbn [negb andb]. unfold catch_, log_it_, mbind, M_bind, mret, M_ret.
  change (mkMsg _ _ _ _ _ _) with (failed_msg nw th). rewrite Hs. reflexivity.
Qed.

(** C34: a process starts whatever the file system does.  The two global objects of EventLoop.cc
    never end the process; SIGPIPE is ignored from then on; and either the logger is initialised, with
    level trace, on an empty console and the file logs/test.txt, so that the trace of
    IgnoreSigPipe is shown nowhere, or the file could not be opened, its error is on stderr, and
    the console shows one line about it. *)
Theorem process_starts (s : FS) (nw th : Z) :
  (∀ k, 0 ≤ k ≤ kMaxFiles → fs_dir (calc_filename log_path k) s = false) →
  ∃ p, static_init format in_color_terminal here (mkProcess false (first_use in_color_terminal s nw th)) = (p, Done tt) ∧
    sigpipe_ignored p = true ∧
    (isInitialized_ (the_log p) = true ∧ cerr (the_log p) = [] ∧
      up in_color_terminal log_name log_path (λ q, fs_content q s) th (fs_failures s) level_trace [] [] nw 0
        (zlen (default [] (fs_content log_path s))) (spd (the_log p)) ∧
      fs_failures (disk (spd (the_log p))) = fs_failures s ∨
     isInitialized_ (the_log p) = false ∧ (∃ what, cerr (the_log p) = [what]) ∧
      stdout (spd (the_log p)) = failed_line nw th).
Proof.
  intros Hd. unfold static_init, mbind, M_bind. rewrite first_trace. unfold Log_ctor, with_log, mbind, M_bind. cbn [the_log].
  pose proof (init_up in_color_terminal log_name log_path ltac:(done) trace s nw th Hd) as Hup.
  pose proof (ctor_in_use log_path kMaxSize kMaxFiles ltac:(done) ltac:(done) _ s eq_refl Hd) as Hc.
  destruct (rotating_file_sink_ctor log_path kMaxSize kMaxFiles false s) as [lw [a|e|x]] eqn:E; [| |done].
  - assert (Hi : ∃ g, init in_color_terminal log_name log_path trace (first_use in_color_terminal s nw th) = (g, Done true)).
    { unfold init. change (isInitialized_ (first_use in_color_terminal s nw th)) with false. cbv iota.
      rewrite (init_try_run in_color_terminal log_name log_path trace s nw th lw a E). eauto. }
    destruct Hi as [g Hg]. rewrite Hg in *. eexists. split; [reflexivity|]. cbn. split; [done|]. left. by destruct Hup as (? & ? & ? & ?).
  - rewrite (init_failed trace log_name log_path s nw th lw e E). cbn [the_log sigpipe_ignored]. rewrite error_after_failure.
    eexists. split; [reflexivity|]. cbn. split; [done|]. right. eauto.
Qed.
End started.

(** *** An example: an empty file system, on which every operation succeeds or every one fails *)
Definition demo_disk (faults : list bool) : sim := mkSim (λ _, None) [] (λ _, None) 0 faults.
Definition demo_here (file : string) (line : Z) : source_loc := mkLoc (str file) line (str "f").
Definition demo_line (p : pattern) (m : log_msg) : formatted := mkText (payload m) 0 0.
Definition demo_start (faults : list bool) : Process sim * result unit :=
  static_init demo_line false demo_here (mkProcess false (first_use false (demo_disk faults) 0 1)).

Example demo_starts :
  isInitialized_ (the_log (demo_start []).1) = true ∧ stdout (spd (the_log (demo_start []).1)) = [] ∧
  isInitialized_ (the_log (demo_start (replicate 20 true)).1) = false ∧
  stdout (spd (the_log (demo_start (replicate 20 true)).1)) = str "Logger init error".
Proof. by vm_compute. Qed.

Lemma process_starts_witness : (∀ k, 0 ≤ k ≤ kMaxFiles → fs_dir (calc_filename log_path k) (demo_disk []) = false) ∧
  ∃ p, demo_start [] = (p, Done tt) ∧ sigpipe_ignored p = true ∧
    (isInitialized_ (the_log p) = true ∧ cerr (the_log p) = [] ∧
      up false log_name log_path (λ q, fs_content q (demo_disk [])) 1 (fs_failures (demo_disk [])) level_trace [] [] 0 0
        (zlen (default [] (fs_content log_path (demo_disk [])))) (spd (the_log p)) ∧
      fs_failures (disk (spd (the_log p))) = fs_failures (demo_disk []) ∨
     isInitialized_ (the_log p) = false ∧ (∃ what, cerr (the_log p) = [what]) ∧
      stdout (spd (the_log p)) = failed_line demo_line false demo_here 0 1).
Proof. split; [done|]. by apply (process_starts demo_line false demo_here (demo_disk []) 0 1). Defined.

(** ** What a failed system call does *)
Section checked.
Context {FS : Type} `{FileSystemLaws FS} (format : pattern → log_msg → formatted) (in_color_terminal : bool).
Context (here : string → Z → source_loc).
Context (name : list byte) (base : path) (Hbase : base ≠ []) (h0 : path → option (list byte)) (th : Z) (failed0 : nat).
Context (N : Z) (HN : 0 ≤ N).
Abbreviation up := (up in_color_terminal name base h0 th failed0).
Abbreviation shown := (shown format in_color_terminal).
Abbreviation msg lvl file line text nw := (call_msg name th lvl (here file line) nw (str text)).

(** A line of at most 64 characters, logged at a level that is shown. *)
Lemma line_logged lv out texts nw n T lvl file line text (g : Logger FS) :
  lv ≤ lvl → 0 ≤ lvl ≤ 6 → vformat_to [] (str text) = Done (str text) →
  zlen (filed format (msg lvl file line text nw)) ≤ N → n + 1 < 2 ^ 64 → T + N < 2 ^ 64 → up lv out texts nw n T (spd g) →
  ∃ w, on_spd (log_call format lvl (here file line) (str text) []) g = (mkHam (isInitialized_ g) w (cerr g), Done tt) ∧
    up lv (out ++ shown (msg lvl file line text nw)) (texts ++ filed format (msg lvl file line text nw)) nw (n + 1) (T + N) w.
Proof.
  intros Hl Hr Hv Hlen Hn HT Hup.
  destruct (up_log_call format in_color_terminal name base Hbase h0 th failed0 N HN lv out texts nw n T lvl (here file line)
    (Done (str text)) (spd g) Hr) as (w & Hw & Hup' & _); [done| |done..|].
  { by intros buf [= <-]. }
  exists w. unfold on_spd, log_call. rewrite Hv, Hw. split; [done|]. unfold adds in Hup'.
  by rewrite (proj2 (Z.leb_le _ _) Hl) in Hup'.
Qed.

(** The functions named OrDie: one for a socket ends the process, with its line on the console and
    handed to the file; those for bind and listen only log, and the caller goes on. *)
Lemma failed_calls lv out texts nw n T (g : Logger FS) fd :
  lv ≤ level_err → fd < 0 → n + 1 < 2 ^ 64 → T + N < 2 ^ 64 →
  (∀ lvl file line buf, zlen buf ≤ 64 → zlen (filed format (call_msg name th lvl (here file line) nw buf)) ≤ N) →
  up lv out texts nw n T (spd g) →
  (∃ g', createNonblockingOrDie format here fd g = (g', Crash Aborted) ∧
     stdout (spd g') = out ++ shown (msg level_critical "SocketOps.cc" 39 "sockets::createNonblockingOrDie" nw)) ∧
  (∃ g', create_alarmFd format here fd g = (g', Crash Aborted) ∧
     stdout (spd g') = out ++ shown (msg level_critical "TimerQueue.cc" 21 "Failed in create_alarmFd" nw)) ∧
  (∃ g', createEventfd format here fd g = (g', Done fd) ∧
     stdout (spd g') = out ++ shown (msg level_err "EventLoop.cc" 26 "Failed in eventfd" nw)) ∧
  (∃ g', bindOrDie format here fd g = (g', Done tt) ∧
     stdout (spd g') = out ++ shown (msg level_err "SocketOps.cc" 50 "sockets::bindOrDie error" nw)) ∧
  (∃ g', listenOrDie format here fd g = (g', Done tt) ∧
     stdout (spd g') = out ++ shown (msg level_err "SocketOps.cc" 59 "sockets::listenOrDie error" nw)).
Proof.
  intros Hl Hfd Hn HT Hlen Hup. assert (Hneg : (fd <? 0) = true) by by apply Z.ltb_lt.
  assert (Hlog : ∀ lvl file line text, level_err ≤ lvl ≤ 6 → vformat_to [] (str text) = Done (str text) →
    zlen (str text) ≤ 64 →
    ∃ w, on_spd (log_call format lvl (here file line) (str text) []) g = (mkHam (isInitialized_ g) w (cerr g), Done tt) ∧
      stdout w = out ++ shown (msg lvl file line text nw)).
  { intros lvl file line text Hr Hv Ht. unfold level_err in *.
    destruct (line_logged lv out texts nw n T lvl file line text g) as (w & Hw & Hup'); try done; try lia; [by apply Hlen|].
    exists w. split; [done|]. by destruct Hup'. }
  unfold createNonblockingOrDie, create_alarmFd, createEventfd, bindOrDie, listenOrDie. rewrite Hneg.
  unfold CRITICAL, ERROR, mbind, M_bind. split_and!.
  all: match goal with |- context [on_spd (log_call _ ?l (here ?f ?n) (str ?t) [])] =>
    destruct (Hlog l f n t ltac:(done) ltac:(by vm_compute) ltac:(by vm_compute)) as (w & Hw & Ho); rewrite Hw end;
    (eexists; split; [reflexivity|exact Ho]).
Qed.
End checked.
