(* ===== verification/Inet.v ===== *)
(** * Inet: src/ham/net/InetAddress.h/.cc, SocketOps.h/.cc and Socket.h/.cc

    Socket addresses in network byte order, and the wrappers around the socket calls.  The
    calls themselves belong to the kernel and are parameters where they are used; what the
    wrappers add to them (the classification of the errors of accept, the self-connection
    test, the default addresses) is modelled here. *)
From S2P Require Import Prelude Endian.

(** [struct sockaddr_in]; the port and the address are in network order. *)
Record sockaddr_in := mkSockaddr {
  sin_family : Z;
  sin_port : Z;
  s_addr : Z
}.

#[export] Instance sockaddr_in_eq_dec : EqDecision sockaddr_in.
Proof. solve_decision. Defined.

Definition AF_INET : Z := 2.
Definition kInaddrAny : Z := 0.
Definition sockaddr_zero : sockaddr_in := mkSockaddr 0 0 0.

(** ** SocketOps *)
Definition EINTR : Z := 4.
Definition EBADF : Z := 9.
Definition EAGAIN : Z := 11.
Definition ENOMEM : Z := 12.
Definition EPERM : Z := 1.
Definition EFAULT : Z := 14.
Definition EINVAL : Z := 22.
Definition ENFILE : Z := 23.
Definition EMFILE : Z := 24.
Definition EPROTO : Z := 71.
Definition ENOTSOCK : Z := 88.
Definition EOPNOTSUPP : Z := 95.
Definition ECONNABORTED : Z := 103.
Definition ENOBUFS : Z := 105.

Definition accept_expected (savedErrno : Z) : bool :=
  bool_decide (savedErrno ∈ [EAGAIN; ECONNABORTED; EINTR; EPROTO; EPERM; EMFILE]).

(** What [sockets::accept] makes of the result of accept4: errors that are not expected end
    the process.  The value of errno is the same when it returns. *)
Definition accept_result (connFd savedErrno : Z) : outcome (Z * Z) :=
  if connFd <? 0 then
    if accept_expected savedErrno then Ok (connFd, savedErrno) else Err Aborted
  else Ok (connFd, savedErrno).

(** [createNonblockingOrDie]: the result of socket(2). *)
Definition createNonblockingOrDie (sockfd : Z) : outcome Z :=
  if sockfd <? 0 then Err Aborted else Ok sockfd.

Definition getLocalAddr (getsockname : option sockaddr_in) : sockaddr_in :=
  match getsockname with Some a => a | None => sockaddr_zero end.
Definition getPeerAddr (getpeername : option sockaddr_in) : sockaddr_in :=
  match getpeername with Some a => a | None => sockaddr_zero end.

(** [getSocketError]: getsockopt either stores the pending error or fails with errno. *)
Definition getSocketError (getsockopt : Z + Z) : Z :=
  match getsockopt with inl optval => optval | inr errno => errno end.

Definition isSelfConnect (localaddr peeraddr : sockaddr_in) : bool :=
  (sin_port localaddr =? sin_port peeraddr) && (s_addr localaddr =? s_addr peeraddr).

(** ** InetAddress *)
Section inet.
(** The byte order of the host, and the conversions of <arpa/inet.h>. *)
Context (host : byte_order).
Context (inet_pton : list byte → option Z).
Context (inet_ntop : Z → list byte).

Definition ipPortToAddrin (ip : list byte) (port : Z) (addr : sockaddr_in) : sockaddr_in :=
  mkSockaddr AF_INET (hostToNetwork16 host port)
    (match inet_pton ip with Some a => a | None => s_addr addr end).

Definition toIpStr (addr : sockaddr_in) : list byte := inet_ntop (s_addr addr).

(** The three constructors. *)
Definition InetAddress_port (port : Z) : sockaddr_in :=
  mkSockaddr AF_INET (hostToNetwork16 host port) (hostToNetwork32 host kInaddrAny).
Definition InetAddress_ip (ip : list byte) (port : Z) : sockaddr_in :=
  ipPortToAddrin ip port sockaddr_zero.
Definition InetAddress_addr (addr : sockaddr_in) : sockaddr_in := addr.

Definition getPortNetEndian (a : sockaddr_in) : Z := sin_port a.
Definition getIpNetEndian (a : sockaddr_in) : Z := s_addr a.
Definition getPort (a : sockaddr_in) : Z := networkToHost16 host (getPortNetEndian a).
Definition getIpStr (a : sockaddr_in) : list byte := toIpStr a.
Definition getPortStr (a : sockaddr_in) : list byte := to_string (getPort a).
Definition getIpPortStr (a : sockaddr_in) : list byte := getIpStr a ++ str ":" ++ getPortStr a.
End inet.

(** ** Lemmas *)
Lemma bswap_range n z : 0 ≤ bswap n z < 256 ^ Z.of_nat n.
Proof.
  unfold bswap. pose proof (le_val_range (rev (le_bytes n z))) as H.
  unfold zlen in H. by rewrite length_rev, length_le_bytes in H.
Qed.

Lemma bswap_bswap n z : bswap n (bswap n z) = z mod 256 ^ Z.of_nat n.
Proof.
  unfold bswap. rewrite le_bytes_le_val' by (by rewrite length_rev, length_le_bytes).
  by rewrite rev_involutive, le_val_le_bytes.
Qed.

Lemma network16_roundtrip host p :
  0 ≤ p < 2 ^ 16 → networkToHost16 host (hostToNetwork16 host p) = p.
Proof.
  intros Hp. unfold networkToHost16, hostToNetwork16.
  rewrite (wrapu_small 16 p) by done. destruct host; simpl.
  - pose proof (bswap_range 2 p). rewrite wrapu_small by done. rewrite bswap_bswap.
    by apply Z.mod_small.
  - by apply wrapu_small.
Qed.

(** ** Properties *)

(** an address keeps its ip and port.  On a host of either byte order, an address built
    from an ip string the system can parse and print back, and a 16-bit port, reads back
    exactly that ip and that port; its port bytes in memory are most significant first; it
    is printed as "ip:port"; and two such addresses are taken for a self-connection exactly
    when both ip and port agree. *)
Theorem address_roundtrip (host : byte_order) (inet_pton : list byte → option Z)
    (inet_ntop : Z → list byte) (ip ip' : list byte) (port port' : Z) :
  (∀ s, s ∈ [ip; ip'] → match inet_pton s with Some a => inet_ntop a = s | None => False end) →
  0 ≤ port < 2 ^ 16 → 0 ≤ port' < 2 ^ 16 →
  let a := InetAddress_ip host inet_pton ip port in
  let a' := InetAddress_ip host inet_pton ip' port' in
  getPort host a = port ∧ getIpStr inet_ntop a = ip ∧
  store host 2 (getPortNetEndian a) = be_bytes 2 port ∧
  getIpPortStr host inet_ntop a = ip ++ str ":" ++ to_string port ∧
  isSelfConnect a a' = bool_decide (ip = ip' ∧ port = port').
Proof.
  intros Hip Hp Hp'. cbv zeta. unfold InetAddress_ip, ipPortToAddrin, getIpPortStr, getPortStr, getIpStr,
    toIpStr, getPort, getPortNetEndian, isSelfConnect. cbn [sin_port s_addr].
  pose proof (Hip ip ltac:(left)) as H1. pose proof (Hip ip' ltac:(right; left)) as H2.
  destruct (inet_pton ip) as [a|] eqn:E1; [|done]. destruct (inet_pton ip') as [b|] eqn:E2; [|done].
  rewrite network16_roundtrip by done. split_and!; [done|done| |by rewrite H1|].
  - unfold hostToNetwork16. rewrite store_htobe. by rewrite wrapu_small.
  - apply eq_true_iff_eq. rewrite andb_true_iff, !Z.eqb_eq, bool_decide_eq_true. split.
    + intros [Hport ->]. split; [congruence|]. apply (f_equal (networkToHost16 host)) in Hport.
      by rewrite !network16_roundtrip in Hport.
    + intros [-> ->]. by simplify_eq.
Qed.

Lemma address_roundtrip_witness :
  getPort little_endian (InetAddress_ip little_endian (λ _, Some 0x0100007f) (str "127.0.0.1") 8080) = 8080 ∧
  getIpStr (λ _, str "127.0.0.1")
    (InetAddress_ip little_endian (λ _, Some 0x0100007f) (str "127.0.0.1") 8080) = str "127.0.0.1" ∧
  store little_endian 2 (getPortNetEndian
    (InetAddress_ip little_endian (λ _, Some 0x0100007f) (str "127.0.0.1") 8080)) = be_bytes 2 8080 ∧
  getIpPortStr little_endian (λ _, str "127.0.0.1")
    (InetAddress_ip little_endian (λ _, Some 0x0100007f) (str "127.0.0.1") 8080) =
    str "127.0.0.1" ++ str ":" ++ to_string 8080 ∧
  isSelfConnect (InetAddress_ip little_endian (λ _, Some 0x0100007f) (str "127.0.0.1") 8080)
    (InetAddress_ip little_endian (λ _, Some 0x0100007f) (str "127.0.0.1") 8081) =
    bool_decide (str "127.0.0.1" = str "127.0.0.1" ∧ 8080 = 8081).
Proof.
  apply (address_roundtrip little_endian (λ _, Some 0x0100007f) (λ _, str "127.0.0.1")
    (str "127.0.0.1") (str "127.0.0.1") 8080 8081); [|lia|lia].
  intros s Hs. apply elem_of_cons in Hs as [->|Hs]; [reflexivity|].
  apply list_elem_of_singleton in Hs as ->. reflexivity.
Defined.
