(* ===== verification/SockKernel.v ===== *)
(** * SockKernel: the descriptors and sockets of the process

    What Acceptor and Connector use of the kernel (src/ham/net/SocketOps.cc and Socket.cc call
    it): the descriptor table with its limit, listening sockets with their queue of
    completed connections, and connecting sockets.  The laws state what the manual pages
    document; [sim_net] is an instance. *)
From S2P Require Import Prelude Inet.

Class SockKernel (K : Type) := {
  k_fds : K → gset Z;                            (* open descriptors *)
  k_full : K → bool;                             (* the limit of RLIMIT_NOFILE is reached *)
  k_backlog : Z → K → list sockaddr_in;          (* connections that wait to be accepted *)
  k_socket : K → K * Z;
  k_open_null : K → K * Z;                       (* open("/dev/null") *)
  k_close : Z → K → K;
  k_accept : Z → K → K * (Z * Z * sockaddr_in);  (* accept4: result, errno, address *)
  k_listen : Z → K → K;
  k_bind : Z → sockaddr_in → K → K;
  k_setReuseAddr : Z → bool → K → K;
  k_setReusePort : Z → bool → K → K;
  k_connect : Z → sockaddr_in → K → K * Z;       (* connect(2): 0 or the value of errno *)
  k_so_error : Z → K → K * Z;                    (* SO_ERROR, which reading clears *)
  k_sockname : Z → K → option sockaddr_in;
  k_peername : Z → K → option sockaddr_in
}.

(** [fd] is the descriptor a successful call returned. *)
Definition opened {K} `{SockKernel K} (k k' : K) (fd : Z) : Prop :=
  0 < fd ∧ (fd ∉ k_fds k) ∧ k_fds k' = {[fd]} ∪ k_fds k.

(** The limit leaves room for the standard descriptors, so descriptor 0 stays open. *)
Class SockKernelLaws (K : Type) `{SockKernel K} : Prop := {
  law_fd k fd : fd ∈ k_fds k → 0 ≤ fd;
  law_socket k : k_full k = false →
    opened k (k_socket k).1 (k_socket k).2 ∧ ∀ s, k_backlog s (k_socket k).1 = k_backlog s k;
  law_null k : k_full k = false →
    opened k (k_open_null k).1 (k_open_null k).2 ∧ ∀ s, k_backlog s (k_open_null k).1 = k_backlog s k;
  law_close fd k : fd ∈ k_fds k →
    k_fds (k_close fd k) = k_fds k ∖ {[fd]} ∧ k_full (k_close fd k) = false ∧
    ∀ s, s ≠ fd → k_backlog s (k_close fd k) = k_backlog s k;
  law_close_bad fd k : fd ∉ k_fds k → k_close fd k = k;
  law_accept_full s k : k_full k = true → ∃ a, k_accept s k = (k, (-1, EMFILE, a));
  law_accept_none s k : k_full k = false → k_backlog s k = [] → ∃ a, k_accept s k = (k, (-1, EAGAIN, a));
  law_accept s k a r : k_full k = false → k_backlog s k = a :: r →
    ∃ k' fd e, k_accept s k = (k', (fd, e, a)) ∧ opened k k' fd ∧ k_backlog s k' = r;
  law_listen s k : k_fds (k_listen s k) = k_fds k ∧ k_full (k_listen s k) = k_full k;
  law_bind s a k : k_fds (k_bind s a k) = k_fds k;
  law_reuse_addr s b k : k_fds (k_setReuseAddr s b k) = k_fds k;
  law_reuse_port s b k : k_fds (k_setReusePort s b k) = k_fds k;
  law_connect s a k : k_fds (k_connect s a k).1 = k_fds k;
  law_so_error s k : k_fds (k_so_error s k).1 = k_fds k
}.

Section derived.
Context {K : Type} `{SockKernelLaws K}.
Implicit Types k : K.

(** Closing what was just opened. *)
Lemma close_opened k k' fd : opened k k' fd → k_fds (k_close fd k') = k_fds k ∧ k_full (k_close fd k') = false.
Proof.
  intros (Hpos & Hnew & Hfds). destruct (law_close fd k') as (Hc & Hfull & _); [set_solver|].
  split; [|done]. rewrite Hc, Hfds. set_solver.
Qed.

Lemma opened_in k k' fd : opened k k' fd → fd ∈ k_fds k'.
Proof. intros (_ & _ & ->). set_solver. Qed.
End derived.

(** ** A small kernel for the examples *)
Record sim_net := mkSimNet {
  sn_fds : list Z;
  sn_limit : nat;
  sn_queue : list sockaddr_in;    (* at every listening socket *)
  sn_connect : Z;                 (* what connect reports *)
  sn_error : Z                    (* SO_ERROR *)
}.

(** One more than the largest descriptor in use (Linux takes the least unused one). *)
Definition sn_next (k : sim_net) : Z := 1 + foldr Z.max 2 (sn_fds k).
Definition sn_full (k : sim_net) : bool := (sn_limit k <=? length (sn_fds k))%nat.
Definition sn_with (k : sim_net) (l : list Z) (q : list sockaddr_in) : sim_net :=
  mkSimNet l (sn_limit k) q (sn_connect k) (sn_error k).
Definition sn_open (k : sim_net) : sim_net * Z :=
  if sn_full k then (k, -1) else (sn_with k (sn_next k :: sn_fds k) (sn_queue k), sn_next k).

#[export] Instance sim_net_kernel : SockKernel sim_net := {|
  k_fds k := list_to_set (List.filter (Z.leb 0) (sn_fds k));
  k_full := sn_full;
  k_backlog _ k := sn_queue k;
  k_socket := sn_open;
  k_open_null := sn_open;
  k_close fd k :=
    if bool_decide (fd ∈ sn_fds k) && (0 <=? fd)
    then mkSimNet (List.filter (λ x, negb (x =? fd)) (sn_fds k))
           (Nat.max (sn_limit k) (S (length (List.filter (λ x, negb (x =? fd)) (sn_fds k)))))
           (sn_queue k) (sn_connect k) (sn_error k)
    else k;
  k_accept s k :=
    if sn_full k then (k, (-1, EMFILE, sockaddr_zero))
    else match sn_queue k with
         | [] => (k, (-1, EAGAIN, sockaddr_zero))
         | a :: r => (sn_with k (sn_next k :: sn_fds k) r, (sn_next k, 0, a))
         end;
  k_listen _ k := k;
  k_bind _ _ k := k;
  k_setReuseAddr _ _ k := k;
  k_setReusePort _ _ k := k;
  k_connect _ _ k := (k, sn_connect k);
  k_so_error _ k := (mkSimNet (sn_fds k) (sn_limit k) (sn_queue k) (sn_connect k) 0, sn_error k);
  k_sockname _ _ := Some (mkSockaddr AF_INET 5000 1);
  k_peername _ _ := Some (mkSockaddr AF_INET 80 2) |}.

Lemma sn_next_gt k x : x ∈ sn_fds k → x < sn_next k.
Proof.
  unfold sn_next. induction (sn_fds k) as [|y l IH]; [by intros ?%elem_of_nil|].
  intros [->|Hin]%elem_of_cons; simpl; [lia|]. specialize (IH Hin). lia.
Qed.

Lemma sn_next_pos k : 2 < sn_next k.
Proof. unfold sn_next. induction (sn_fds k); simpl; lia. Qed.

Lemma sn_opened k q : opened (K := sim_net) k (sn_with k (sn_next k :: sn_fds k) q) (sn_next k).
Proof.
  pose proof (sn_next_pos k). split_and!; [lia| |].
  - simpl. rewrite elem_of_list_to_set, list_elem_of_In, filter_In, <- list_elem_of_In.
    intros [Hin%sn_next_gt _]. lia.
  - simpl. rewrite (proj2 (Z.leb_le 0 (sn_next k))) by lia. done.
Qed.

#[export] Instance sim_net_laws : SockKernelLaws sim_net.
Proof.
  split; try (intros; reflexivity); try (intros; split; reflexivity).
  - intros k fd. simpl. rewrite elem_of_list_to_set, list_elem_of_In, filter_In. lia.
  - intros k Hfull. simpl in *. unfold sn_open. rewrite Hfull. split; [apply sn_opened|done].
  - intros k Hfull. simpl in *. unfold sn_open. rewrite Hfull. split; [apply sn_opened|done].
  - intros fd k. simpl. rewrite elem_of_list_to_set, list_elem_of_In, filter_In, <- list_elem_of_In.
    intros [Hin Hpos]. rewrite bool_decide_eq_true_2, Hpos by done. simpl. split_and!; [| |done].
    + apply set_eq. intros x. rewrite elem_of_difference, !elem_of_list_to_set, elem_of_singleton.
      rewrite !list_elem_of_In, !filter_In, negb_true_iff, Z.eqb_neq. tauto.
    + unfold sn_full. simpl. apply Nat.leb_gt. lia.
  - intros fd k. simpl. rewrite elem_of_list_to_set, list_elem_of_In, filter_In, <- list_elem_of_In.
    intros Hn. destruct (bool_decide (fd ∈ sn_fds k)) eqn:E; [|done].
    apply bool_decide_eq_true in E. destruct (0 <=? fd); [|done]. exfalso. by apply Hn.
  - intros s k Hfull. simpl in *. rewrite Hfull. by eexists.
  - intros s k Hfull Hq. simpl in *. rewrite Hfull, Hq. by eexists.
  - intros s k a r Hfull Hq. simpl in *. rewrite Hfull, Hq. do 3 eexists. split; [done|].
    split; [apply sn_opened|done].
Qed.
