(* ===== verification/NetSocket.v ===== *)
(** * NetSocket: src/ham/net/Socket.h and Socket.cc

    The class Socket, which owns a descriptor: its wrappers around the system calls, and the
    life of its objects - construction from a descriptor, the move constructor, which leaves -1
    behind, and the destructor, which closes.  The other files keep the descriptor itself where
    the code has a member of this class. *)
From S2P Require Import Prelude Inet SockKernel.

(** Addresses of objects. *)
Abbreviation addr := Z.

Record Socket := mkSocket { sockfd_ : Z }.

(** The calls that only this class makes: setsockopt(2) on a connection and shutdown(2), each
    with its result. *)
Class SockOptions (K : Type) := {
  k_setTcpNoDelay : Z → bool → K → K * Z;
  k_setKeepAlive : Z → bool → K → K * Z;
  k_shutdown : Z → K → K * Z
}.

Section socket.
Context {K : Type} `{SockKernel K} `{SockOptions K}.
Implicit Types (s : Socket) (k : K).

Definition Socket_ctor (fd : Z) : Socket := mkSocket fd.
(** The new object, and what is left of the source. *)
Definition Socket_move (src : Socket) : Socket * Socket := (mkSocket (sockfd_ src), mkSocket (-1)).
Definition Socket_dtor s k : K := k_close (sockfd_ s) k.
Definition getFd s : Z := sockfd_ s.

Definition bindAddress s (addr : sockaddr_in) k : K := k_bind (sockfd_ s) addr k.
Definition listen s k : K := k_listen (sockfd_ s) k.
(** The descriptor, errno, and the caller's address object. *)
Definition accept s (peerAddr : sockaddr_in) k : outcome (K * (Z * Z * sockaddr_in)) :=
  let '(k, (fd, errno, addr)) := k_accept (sockfd_ s) k in
  '(connFd, errno) ← accept_result fd errno;
  Ok (k, (connFd, errno, if 0 <? connFd then addr else peerAddr)).

(** The setters, and whether a failure is logged: only when the option was to be turned on. *)
Definition shutdownWrite s k : K * bool := let '(k, ret) := k_shutdown (sockfd_ s) k in (k, ret <? 0).
Definition setTcpNoDelay s (on : bool) k : K * bool :=
  let '(k, ret) := k_setTcpNoDelay (sockfd_ s) on k in (k, (ret <? 0) && on).
Definition setKeepAlive s (on : bool) k : K * bool :=
  let '(k, ret) := k_setKeepAlive (sockfd_ s) on k in (k, (ret <? 0) && on).
Definition setReuseAddr s (on : bool) k : K := k_setReuseAddr (sockfd_ s) on k.
Definition setReusePort s (on : bool) k : K := k_setReusePort (sockfd_ s) on k.

(** ** The objects of a program *)
Record sock_heap := mkHeap { socks : gmap addr Socket; net : K }.

(** What a program may do: give a descriptor that no object has to a new one, move an object
    into a new one, destroy one. *)
Inductive heap_op := OpCtor (p : addr) (fd : Z) | OpMove (p q : addr) | OpDtor (p : addr).

Definition heap_run (op : heap_op) (h : sock_heap) : option sock_heap :=
  match op with
  | OpCtor p fd =>
      if bool_decide (socks h !! p = None ∧ fd ∈ k_fds (net h) ∧ map_Forall (λ _ s, sockfd_ s ≠ fd) (socks h))
      then Some (mkHeap (<[p := Socket_ctor fd]> (socks h)) (net h)) else None
  | OpMove p q =>
      s ← socks h !! p;
      if bool_decide (socks h !! q = None) then
        Some (mkHeap (<[q := (Socket_move s).1]> (<[p := (Socket_move s).2]> (socks h))) (net h)) else None
  | OpDtor p => s ← socks h !! p; Some (mkHeap (delete p (socks h)) (Socket_dtor s (net h)))
  end.
Fixpoint heap_runs (ops : list heap_op) (h : sock_heap) : option sock_heap :=
  match ops with [] => Some h | op :: ops => h ← heap_run op h; heap_runs ops h end.
End socket.
Arguments sock_heap : clear implicits.
Arguments mkHeap {K}. Arguments socks {K}. Arguments net {K}.

Section props.
Context {K : Type} `{SockKernelLaws K}.
Implicit Types (h : sock_heap K) (p q : addr) (s : Socket).

(** Every object has an open descriptor of its own, or -1 after it was moved from. *)
Record heap_inv h : Prop := {
  hi_open p s : socks h !! p = Some s → sockfd_ s = -1 ∨ sockfd_ s ∈ k_fds (net h);
  hi_own p q s s' : socks h !! p = Some s → socks h !! q = Some s' → sockfd_ s = sockfd_ s' → sockfd_ s ≠ -1 → p = q
}.

Lemma open_not_minus_one h : -1 ∉ k_fds (net h).
Proof. intros Hin%law_fd. lia. Qed.

Lemma close_fds fd (k : K) : k_fds (k_close fd k) = k_fds k ∖ {[fd]}.
Proof.
  destruct (decide (fd ∈ k_fds k)) as [Hin|Hn]; [by apply law_close|]. rewrite law_close_bad by done. set_solver.
Qed.

Lemma heap_run_inv op h h' : heap_inv h → heap_run op h = Some h' → heap_inv h'.
Proof.
  intros [Hopen Hown]. destruct op as [p fd|p q|p]; simpl.
  - case_bool_decide as Hc; [|done]. destruct Hc as (Hp & Hfd & Hne). intros [= <-]. split; simpl.
    + intros r s [[<- <-]|[_ ?]]%lookup_insert_Some; [by right|by eapply Hopen].
    + intros r1 r2 s1 s2 [[<- <-]|[_ H1]]%lookup_insert_Some [[<- <-]|[_ H2]]%lookup_insert_Some Heq Hs; try done.
      * by destruct (Hne r2 s2 H2).
      * by destruct (Hne r1 s1 H1).
      * by eapply Hown.
  - destruct (socks h !! p) as [s|] eqn:Hp; [|done]. simpl. case_bool_decide as Hq; [|done]. intros [= <-].
    assert (Hlook : ∀ r t, <[q := mkSocket (sockfd_ s)]> (<[p := mkSocket (-1)]> (socks h)) !! r = Some t →
      sockfd_ t = -1 ∨ ∃ r', socks h !! r' = Some t ∧ (r = q ∧ r' = p ∨ r = r' ∧ r ≠ q ∧ r ≠ p)).
    { intros r t [[<- <-]|[Hne [[<- <-]|[Hne2 Hr]]%lookup_insert_Some]]%lookup_insert_Some; [right|by left|right].
      - exists p. destruct s. split; [done|by left].
      - exists r. split; [done|by right]. }
    split; simpl.
    + intros r t [?|(r' & Hr & _)]%Hlook; [by left|by eapply Hopen].
    + intros r1 r2 t1 t2 [?|(r1' & H1 & Hc1)]%Hlook [?|(r2' & H2 & Hc2)]%Hlook Heq Hs; [congruence..|].
      pose proof (Hown r1' r2' t1 t2 H1 H2 Heq Hs). naive_solver.
  - destruct (socks h !! p) as [s|] eqn:Hp; [|done]. intros [= <-]. split; simpl.
    + intros r t [Hne Hr]%lookup_delete_Some. destruct (Hopen r t Hr) as [?|Hin]; [by left|].
      unfold Socket_dtor. rewrite close_fds. destruct (decide (sockfd_ t = -1)) as [|Ht]; [by left|right].
      apply elem_of_difference. split; [done|]. intros Heq%elem_of_singleton. apply Hne.
      symmetry. by eapply Hown.
    + intros r1 r2 t1 t2 [_ H1]%lookup_delete_Some [_ H2]%lookup_delete_Some. by eapply Hown.
Qed.

(** Whatever the order of moves and destructions, a descriptor is closed by the last object that
    has it and by no other: while an object has a descriptor it is open, and destroying one closes
    its own descriptor only, none at all after it was moved from. *)
Theorem sockets_own_descriptors (ops : list heap_op) h h' :
  heap_inv h → heap_runs ops h = Some h' →
  heap_inv h' ∧
  ∀ p s, socks h' !! p = Some s →
    (∀ h2, heap_run (OpDtor p) h' = Some h2 →
       k_fds (net h2) = if decide (sockfd_ s = -1) then k_fds (net h') else k_fds (net h') ∖ {[sockfd_ s]}) ∧
    ∀ q h2, heap_run (OpMove p q) h' = Some h2 →
      net h2 = net h' ∧ option_map sockfd_ (socks h2 !! q) = Some (sockfd_ s) ∧ option_map sockfd_ (socks h2 !! p) = Some (-1).
Proof.
  intros Hinv Hrun. assert (Hinv' : heap_inv h').
  { revert h Hinv Hrun. induction ops as [|op ops IH]; intros h Hinv Hrun; simpl in Hrun; [by injection Hrun as <-|].
    destruct (heap_run op h) as [h1|] eqn:Hop; [|done]. eapply IH; [|exact Hrun]. by eapply heap_run_inv. }
  split; [done|]. intros p s Hp. split.
  - intros h2. simpl. rewrite Hp. intros [= <-]. simpl. unfold Socket_dtor. rewrite close_fds.
    case_decide as Hs; [|done]. rewrite Hs. pose proof (open_not_minus_one h'). set_solver.
  - intros q h2. simpl. rewrite Hp. simpl. case_bool_decide as Hq; [|done]. intros [= <-]. split_and!; simpl; [done| |].
    + by rewrite lookup_insert_eq.
    + assert (q ≠ p) by congruence. by rewrite lookup_insert_ne, lookup_insert_eq.
Qed.

(** [accept] hands out the peer's address exactly when it hands out a descriptor. *)
Lemma accept_peer s peer (k k' : K) fd e a :
  accept s peer k = Ok (k', (fd, e, a)) →
  (0 < fd ∧ a = (k_accept (sockfd_ s) k).2.2) ∨ (fd <= 0 ∧ a = peer).
Proof.
  unfold accept. destruct (k_accept (sockfd_ s) k) as [k1 [[fd1 e1] a1]]. simpl.
  intros ([c e2] & _ & [= _ <- _ <-])%bind_Ok_inv. destruct (Z.ltb_spec 0 c); [by left|right]. split; [lia|done].
Qed.
End props.

(** Three objects over two descriptors of a process. *)
Lemma sockets_own_descriptors_example :
  option_map (λ h, (k_fds (net h), map_to_list (socks h)))
    (heap_runs [OpCtor 10 5; OpCtor 11 6; OpMove 10 12; OpDtor 10; OpDtor 11] (mkHeap ∅ (mkSimNet [6; 5; 2; 1; 0] 10 [] 0 0))) =
  Some ({[5; 2; 1; 0]}, [(12, mkSocket 5)]).
Proof. vm_compute. reflexivity. Qed.
