(* ===== verification/Buffer.v ===== *)
(** * Buffer: src/ham/net/Buffer.h and src/ham/net/Buffer.cc

    The storage is the [std::vector<char>] with the two [size_t] indices; a pointer into
    the storage is its offset from [begin()].  [size_t] arithmetic wraps at 2^64, every
    [assert] is checked, and every copy or read outside of the vector is the fault
    [OutOfRange].  The abstract value of a buffer is [content], the readable bytes; the
    theorems show that every operation keeps the invariant [wf], never faults inside its
    contract, and acts on [content] as on a queue of bytes. *)
From S2P Require Import Prelude Endian.

Definition kInitialSize : Z := 1024.
Definition kCheapPrepend : Z := 8.
Definition kCRLF : list byte := CRLF.

(** [std::vector<char>::max_size()]: PTRDIFF_MAX. *)
Definition vector_max_size : Z := 2 ^ 63 - 1.

Record Buffer := mkBuffer {
  buffer_ : list byte;
  readIndex_ : Z;
  writeIndex_ : Z
}.

Definition Buffer_new : Buffer :=
  {| buffer_ := replicate (Z.to_nat (kInitialSize + kCheapPrepend)) x00;
     readIndex_ := kCheapPrepend;
     writeIndex_ := kCheapPrepend |}.

Definition set_readIndex (b : Buffer) (i : Z) : Buffer :=
  mkBuffer (buffer_ b) i (writeIndex_ b).
Definition set_writeIndex (b : Buffer) (i : Z) : Buffer :=
  mkBuffer (buffer_ b) (readIndex_ b) i.
Definition set_buffer (b : Buffer) (l : list byte) : Buffer :=
  mkBuffer l (readIndex_ b) (writeIndex_ b).

Definition readableBytes (b : Buffer) : Z := u64 (writeIndex_ b - readIndex_ b).
Definition writableBytes (b : Buffer) : Z := u64 (zlen (buffer_ b) - writeIndex_ b).
Definition prependableBytes (b : Buffer) : Z := readIndex_ b.
Definition peek (b : Buffer) : Z := readIndex_ b.
Definition beginWrite (b : Buffer) : Z := writeIndex_ b.
Definition hasWritten (b : Buffer) (len : Z) : Buffer :=
  set_writeIndex b (u64 (writeIndex_ b + len)).

(** The constructor, with its assertions. *)
Definition Buffer_ctor : outcome Buffer :=
  let b := Buffer_new in
  assert_ (readableBytes b =? 0);;
  assert_ (writableBytes b =? kInitialSize);;
  assert_ (prependableBytes b =? kCheapPrepend);;
  Ok b.

Definition swap (a b : Buffer) : Buffer * Buffer := (b, a).

(** ** Searching *)
Definition findCRLF_from (b : Buffer) (start : Z) : outcome (option Z) :=
  assert_ (peek b <=? start);;
  assert_ (start <=? beginWrite b);;
  data ← read_range start (beginWrite b) (buffer_ b);
  let crlf := start + Z.of_nat (std_search kCRLF data) in
  Ok (if crlf =? beginWrite b then None else Some crlf).

Definition findCRLF (b : Buffer) : outcome (option Z) := findCRLF_from b (peek b).

(** [memchr] is [std::find] with a null pointer for "not found". *)
Definition findEOL_from (b : Buffer) (start : Z) : outcome (option Z) :=
  assert_ (peek b <=? start);;
  assert_ (start <=? beginWrite b);;
  data ← read_range start (beginWrite b) (buffer_ b);
  let n := std_find x0a data in
  Ok (if decide (n = length data) then None else Some (start + Z.of_nat n)).

Definition findEOL (b : Buffer) : outcome (option Z) := findEOL_from b (peek b).

(** ** Retrieving *)
Definition retrieveAll (b : Buffer) : Buffer :=
  set_writeIndex (set_readIndex b kCheapPrepend) kCheapPrepend.

Definition retrieve (b : Buffer) (len : Z) : outcome Buffer :=
  assert_ (len <=? readableBytes b);;
  if len <? readableBytes b
  then Ok (set_readIndex b (u64 (readIndex_ b + len)))
  else Ok (retrieveAll b).

Definition retrieveUtil (b : Buffer) (end_ : Z) : outcome Buffer :=
  assert_ (peek b <=? end_);;
  assert_ (end_ <=? beginWrite b);;
  retrieve b (end_ - peek b).

Definition retrieveAsString (b : Buffer) (len : Z) : outcome (list byte * Buffer) :=
  assert_ (len <=? readableBytes b);;
  res ← read_range (peek b) (peek b + len) (buffer_ b);
  b' ← retrieve b len;
  Ok (res, b').

Definition retrieveAllAsString (b : Buffer) : outcome (list byte * Buffer) :=
  retrieveAsString b (readableBytes b).

(** ** Growing *)
Definition resize (l : list byte) (n : Z) : outcome (list byte) :=
  if vector_max_size <? n then Err LengthError
  else if n <=? zlen l then Ok (take (Z.to_nat n) l)
  else Ok (l ++ replicate (Z.to_nat (n - zlen l)) x00).

Definition makeSpace (b : Buffer) (len : Z) : outcome Buffer :=
  if u64 (writableBytes b + prependableBytes b) <? u64 (len + kCheapPrepend) then
    l ← resize (buffer_ b) (u64 (writeIndex_ b + len));
    Ok (set_buffer b l)
  else
    assert_ (kCheapPrepend <? readIndex_ b);;
    let readable := readableBytes b in
    data ← read_range (readIndex_ b) (writeIndex_ b) (buffer_ b);
    l ← write_at kCheapPrepend data (buffer_ b);
    let b' := mkBuffer l kCheapPrepend (u64 (kCheapPrepend + readable)) in
    assert_ (readable =? readableBytes b');;
    Ok b'.

Definition ensureWritableBytes (b : Buffer) (len : Z) : outcome Buffer :=
  b' ← (if writableBytes b <? len then makeSpace b len else Ok b);
  assert_ (len <=? writableBytes b');;
  Ok b'.

(** The three overloads of [append] all come down to this one. *)
Definition append (b : Buffer) (data : list byte) : outcome Buffer :=
  let len := zlen data in
  b1 ← ensureWritableBytes b len;
  l ← write_at (beginWrite b1) data (buffer_ b1);
  Ok (hasWritten (set_buffer b1 l) len).

Definition prepend (b : Buffer) (data : list byte) : outcome Buffer :=
  let len := zlen data in
  assert_ (len <=? prependableBytes b);;
  let b1 := set_readIndex b (u64 (readIndex_ b - len)) in
  l ← write_at (readIndex_ b1) data (buffer_ b1);
  Ok (set_buffer b1 l).

(** [this] becomes the trimmed buffer; [other] is destroyed with the old storage. *)
Definition shrink (b : Buffer) (reserve : Z) : outcome Buffer :=
  other ← Buffer_ctor;
  let cur_readableBytes := readableBytes b in
  other1 ← ensureWritableBytes other (u64 (cur_readableBytes + reserve));
  data ← read_range (peek b) (peek b + cur_readableBytes) (buffer_ b);
  other2 ← append other1 data;
  let '(this, _) := swap b other2 in
  Ok this.

(** ** Integers in network order *)
Definition peekInt8 (b : Buffer) : outcome Z :=
  assert_ (1 <=? readableBytes b);;
  c ← read_at (peek b) (buffer_ b);
  Ok (wraps 8 (byte_val c)).

Definition peekInt16 (host : byte_order) (b : Buffer) : outcome Z :=
  assert_ (2 <=? readableBytes b);;
  bytes ← read_range (peek b) (peek b + 2) (buffer_ b);
  let be16 := wraps 16 (load host bytes) in
  Ok (wraps 16 (networkToHost16 host be16)).

Definition peekInt32 (host : byte_order) (b : Buffer) : outcome Z :=
  assert_ (4 <=? readableBytes b);;
  bytes ← read_range (peek b) (peek b + 4) (buffer_ b);
  let be32 := wraps 32 (load host bytes) in
  Ok (wraps 32 (networkToHost32 host be32)).

Definition peekInt64 (host : byte_order) (b : Buffer) : outcome Z :=
  assert_ (8 <=? readableBytes b);;
  bytes ← read_range (peek b) (peek b + 8) (buffer_ b);
  let be64 := wraps 64 (load host bytes) in
  Ok (wraps 64 (networkToHost64 host be64)).

Definition retrieveInt8 (b : Buffer) : outcome Buffer := retrieve b 1.
Definition retrieveInt16 (b : Buffer) : outcome Buffer := retrieve b 2.
Definition retrieveInt32 (b : Buffer) : outcome Buffer := retrieve b 4.
Definition retrieveInt64 (b : Buffer) : outcome Buffer := retrieve b 8.

Definition appendInt64 (host : byte_order) (b : Buffer) (x : Z) : outcome Buffer :=
  let be64 := wraps 64 (hostToNetwork64 host x) in append b (store host 8 be64).
Definition appendInt32 (host : byte_order) (b : Buffer) (x : Z) : outcome Buffer :=
  let be32 := wraps 32 (hostToNetwork32 host x) in append b (store host 4 be32).
Definition appendInt16 (host : byte_order) (b : Buffer) (x : Z) : outcome Buffer :=
  let be16 := wraps 16 (hostToNetwork16 host x) in append b (store host 2 be16).
Definition appendInt8 (host : byte_order) (b : Buffer) (x : Z) : outcome Buffer :=
  append b (store host 1 x).

Definition readInt8 (b : Buffer) : outcome (Z * Buffer) :=
  res ← peekInt8 b; b' ← retrieveInt8 b; Ok (res, b').
Definition readInt16 (host : byte_order) (b : Buffer) : outcome (Z * Buffer) :=
  res ← peekInt16 host b; b' ← retrieveInt16 b; Ok (res, b').
Definition readInt32 (host : byte_order) (b : Buffer) : outcome (Z * Buffer) :=
  res ← peekInt32 host b; b' ← retrieveInt32 b; Ok (res, b').
Definition readInt64 (host : byte_order) (b : Buffer) : outcome (Z * Buffer) :=
  res ← peekInt64 host b; b' ← retrieveInt64 b; Ok (res, b').

(** ** Reading from a descriptor

    What [::readv] did: an error with its errno, or the bytes it scattered over the
    vectors, in order. *)
Inductive readv_result :=
| ReadvError (err : Z)
| ReadvData (data : list byte).

Definition extraBufSize : Z := 65536.

(** [readv len0 len1] is the system call on the two vectors of these lengths.  The result
    is the new buffer, the returned [ssize_t] and what is stored to [*savedErrno]. *)
Definition readFd (b : Buffer) (readv : Z → Z → readv_result)
    : outcome (Buffer * Z * option Z) :=
  let writable := writableBytes b in
  match readv writable extraBufSize with
  | ReadvError err => Ok (b, -1, Some err)
  | ReadvData data =>
      let n := zlen data in
      l ← write_at (beginWrite b) (take (Z.to_nat writable) data) (buffer_ b);
      let extraBuf := take (Z.to_nat extraBufSize) (drop (Z.to_nat writable) data) in
      let b1 := set_buffer b l in
      if u64 n <=? writable then
        Ok (set_writeIndex b1 (u64 (writeIndex_ b1 + n)), n, None)
      else
        let b2 := set_writeIndex b1 (zlen (buffer_ b1)) in
        extra ← read_range 0 (n - writable) extraBuf;
        b3 ← append b2 extra;
        Ok (b3, n, None)
  end.

(** ** Invariant and abstract value *)
Record wf (b : Buffer) : Prop := {
  wf_read : 0 ≤ readIndex_ b ≤ writeIndex_ b;
  wf_write : writeIndex_ b ≤ zlen (buffer_ b);
  wf_min : kInitialSize + kCheapPrepend ≤ zlen (buffer_ b);
  wf_max : zlen (buffer_ b) ≤ vector_max_size
}.

Definition content (b : Buffer) : list byte :=
  slice (readIndex_ b) (writeIndex_ b) (buffer_ b).

(** Unfolds the invariant and the constants, and leaves linear arithmetic. *)
Ltac buffer_arith :=
  repeat match goal with H : wf _ |- _ => destruct H end; simpl in *;
  unfold kInitialSize, kCheapPrepend, vector_max_size, extraBufSize, prependableBytes,
    peek, beginWrite in *; simpl in *; lia.

Lemma readableBytes_wf b : wf b → readableBytes b = writeIndex_ b - readIndex_ b.
Proof. intros. apply u64_small. buffer_arith. Qed.

Lemma writableBytes_wf b : wf b → writableBytes b = zlen (buffer_ b) - writeIndex_ b.
Proof. intros. apply u64_small. buffer_arith. Qed.

Lemma zlen_content b : wf b → zlen (content b) = readableBytes b.
Proof.
  intros. rewrite readableBytes_wf by done. apply zlen_slice; buffer_arith.
Qed.

Lemma content_bound b : wf b → zlen (content b) + readIndex_ b = writeIndex_ b.
Proof. intros. rewrite zlen_content, readableBytes_wf by done. lia. Qed.

Lemma wf_new : wf Buffer_new.
Proof. split; vm_compute; intuition congruence. Qed.

Lemma content_new : content Buffer_new = [].
Proof. done. Qed.

Lemma Buffer_ctor_ok : Buffer_ctor = Ok Buffer_new.
Proof. vm_compute. done. Qed.

(** ** Contracts of the operations *)
Lemma retrieveAll_wf b : wf b → wf (retrieveAll b).
Proof. intros. split; buffer_arith. Qed.

Lemma retrieveAll_content b : content (retrieveAll b) = [].
Proof. apply slice_nil. simpl. lia. Qed.

Lemma retrieve_spec b len :
  wf b → 0 ≤ len ≤ readableBytes b →
  returns (retrieve b len) (λ b', wf b' ∧ content b' = drop (Z.to_nat len) (content b)
    ∧ zlen (buffer_ b') = zlen (buffer_ b)).
Proof.
  intros Hwf Hlen. unfold retrieve. rewrite assert_true by (apply Z.leb_le; lia). simpl.
  pose proof (readableBytes_wf b Hwf). destruct (Z.ltb_spec len (readableBytes b)); simpl.
  - rewrite u64_small by buffer_arith. split; [split; buffer_arith|]. split; [|done].
    unfold content. rewrite drop_slice by buffer_arith. done.
  - split; [by apply retrieveAll_wf|]. split; [|done]. rewrite retrieveAll_content, drop_ge; [done|].
    pose proof (zlen_content b Hwf) as E. unfold zlen in E. lia.
Qed.

Lemma retrieveUtil_spec b p :
  wf b → peek b ≤ p ≤ beginWrite b →
  returns (retrieveUtil b p) (λ b', wf b' ∧ content b' = drop (Z.to_nat (p - peek b)) (content b)
    ∧ zlen (buffer_ b') = zlen (buffer_ b)).
Proof.
  intros Hwf Hp. unfold retrieveUtil. rewrite !assert_true by (apply Z.leb_le; lia). simpl.
  apply retrieve_spec; [done|]. rewrite readableBytes_wf by done. buffer_arith.
Qed.

Lemma retrieveAsString_spec b len :
  wf b → 0 ≤ len ≤ readableBytes b →
  returns (retrieveAsString b len) (λ '(s, b'), wf b' ∧ s = take (Z.to_nat len) (content b) ∧
    content b' = drop (Z.to_nat len) (content b) ∧ zlen (buffer_ b') = zlen (buffer_ b)).
Proof.
  intros Hwf Hlen. unfold retrieveAsString. pose proof (readableBytes_wf b Hwf).
  rewrite assert_true by (apply Z.leb_le; lia). simpl.
  rewrite read_range_ok by buffer_arith. simpl.
  eapply returns_then; [by apply retrieve_spec|].
  intros b' (?&?&?). simpl. split_and!; try done.
  unfold content. rewrite take_slice by buffer_arith. done.
Qed.

Lemma retrieveAllAsString_spec b :
  wf b →
  returns (retrieveAllAsString b) (λ '(s, b'), wf b' ∧ s = content b ∧ content b' = []
    ∧ zlen (buffer_ b') = zlen (buffer_ b)).
Proof.
  intros Hwf. pose proof (zlen_content b Hwf) as E.
  pose proof (zlen_nonneg (content b)).
  eapply returns_mono; [apply retrieveAsString_spec; [done | lia]|].
  intros [s b'] (?&->&->&?). unfold zlen in E.
  rewrite take_ge, drop_ge by lia. done.
Qed.

Lemma resize_grow l n :
  zlen l ≤ n ≤ vector_max_size →
  resize l n = Ok (l ++ replicate (Z.to_nat (n - zlen l)) x00).
Proof.
  intros. unfold resize. destruct (Z.ltb_spec vector_max_size n); [lia|].
  destruct (Z.leb_spec n (zlen l)); [|done].
  assert (n = zlen l) as -> by lia. unfold zlen. rewrite Nat2Z.id.
  rewrite take_ge, Z.sub_diag by lia. simpl. by rewrite app_nil_r.
Qed.

(** The sums that [makeSpace] compares do not wrap for an allocatable length. *)
Lemma makeSpace_sums b len :
  wf b → 0 ≤ len ≤ vector_max_size →
  u64 (writableBytes b + prependableBytes b) = zlen (buffer_ b) - writeIndex_ b + readIndex_ b ∧
  u64 (len + kCheapPrepend) = len + kCheapPrepend.
Proof.
  intros Hwf Hlen. rewrite writableBytes_wf by done. split; apply u64_small; buffer_arith.
Qed.

Lemma makeSpace_spec b len :
  wf b → writableBytes b < len → writeIndex_ b + len ≤ vector_max_size →
  returns (makeSpace b len) (λ b', wf b' ∧ content b' = content b ∧ len ≤ writableBytes b'
    ∧ writeIndex_ b' ≤ writeIndex_ b).
Proof.
  intros Hwf Hw Hmax. pose proof (writableBytes_wf b Hwf). pose proof (readableBytes_wf b Hwf).
  assert (0 ≤ len ≤ vector_max_size) as Hlen by buffer_arith.
  destruct (makeSpace_sums b len Hwf Hlen) as [E1 E2].
  unfold makeSpace. rewrite E1, E2. destruct (Z.ltb_spec
    (zlen (buffer_ b) - writeIndex_ b + readIndex_ b) (len + kCheapPrepend)).
  - rewrite u64_small by buffer_arith. rewrite resize_grow by buffer_arith. simpl.
    set (b' := set_buffer b _).
    assert (zlen (buffer_ b') = writeIndex_ b + len) as Hz.
    { simpl. rewrite zlen_app, zlen_replicate. lia. }
    assert (wf b') by (split; rewrite ?Hz; buffer_arith).
    split_and!; [done| |rewrite writableBytes_wf, Hz by done; simpl; lia|done].
    apply slice_app_l; buffer_arith.
  - rewrite assert_true by (apply Z.ltb_lt; buffer_arith). simpl.
    rewrite read_range_ok by buffer_arith. simpl. fold (content b).
    assert (zlen (content b) = readableBytes b) as Hc by by apply zlen_content.
    rewrite write_at_ok by buffer_arith. simpl.
    set (l := take _ _ ++ _).
    assert (write_at kCheapPrepend (content b) (buffer_ b) = Ok l) as Hl
      by (apply write_at_ok; buffer_arith).
    pose proof (write_at_zlen _ _ _ _ Hl) as Hz.
    rewrite (u64_small (kCheapPrepend + _)) by buffer_arith.
    set (b' := mkBuffer l kCheapPrepend (kCheapPrepend + readableBytes b)).
    assert (wf b') by (split; simpl; rewrite ?Hz; buffer_arith).
    rewrite (readableBytes_wf b') by done.
    rewrite assert_true by (apply Z.eqb_eq; simpl; lia). simpl.
    split_and!; [done| |rewrite writableBytes_wf by done; simpl; rewrite Hz; buffer_arith|buffer_arith].
    unfold content at 1. simpl. rewrite <- Hc. by eapply write_at_slice_eq.
Qed.

(** Compaction runs only when bytes were consumed: its assertion
    [kCheapPrepend < readIndex_] cannot fail, also after [prepend]. *)
Lemma ensureWritableBytes_spec b len :
  wf b → 0 ≤ len → writeIndex_ b + len ≤ vector_max_size →
  returns (ensureWritableBytes b len) (λ b', wf b' ∧ content b' = content b
    ∧ len ≤ writableBytes b' ∧ writeIndex_ b' ≤ writeIndex_ b).
Proof.
  intros Hwf Hl Hmax. unfold ensureWritableBytes. apply returns_bind.
  eapply (returns_mono _ (λ b', wf b' ∧ content b' = content b ∧ len ≤ writableBytes b'
    ∧ writeIndex_ b' ≤ writeIndex_ b)).
  - destruct (Z.ltb_spec (writableBytes b) len); [by apply makeSpace_spec|].
    simpl. done.
  - intros b' (?&?&?&?). rewrite assert_true by (apply Z.leb_le; lia). done.
Qed.

Lemma append_spec b d :
  wf b → writeIndex_ b + zlen d ≤ vector_max_size →
  returns (append b d) (λ b', wf b' ∧ content b' = content b ++ d
    ∧ writeIndex_ b' ≤ writeIndex_ b + zlen d).
Proof.
  intros Hwf Hmax. unfold append. apply returns_bind.
  pose proof (zlen_nonneg d).
  eapply returns_mono; [by apply ensureWritableBytes_spec|].
  intros b1 (Hwf1 & Hc & Hw & Hi). rewrite writableBytes_wf in Hw by done.
  assert (beginWrite b1 + zlen d ≤ zlen (buffer_ b1)) by (unfold beginWrite; lia).
  rewrite write_at_ok by buffer_arith. simpl. set (l := take _ _ ++ _).
  assert (write_at (beginWrite b1) d (buffer_ b1) = Ok l) as Hl
    by (apply write_at_ok; buffer_arith).
  pose proof (write_at_zlen _ _ _ _ Hl) as Hz.
  unfold hasWritten. simpl. rewrite u64_small by buffer_arith.
  split; [split; simpl; rewrite ?Hz; buffer_arith|].
  split; [|lia].
  rewrite <- Hc. unfold content. simpl.
  rewrite (slice_split _ (writeIndex_ b1)) by buffer_arith. f_equal.
  - eapply write_at_slice_ne; [done|buffer_arith..].
  - by eapply write_at_slice_eq.
Qed.

Lemma prepend_spec b d :
  wf b → zlen d ≤ prependableBytes b →
  returns (prepend b d) (λ b', wf b' ∧ content b' = d ++ content b
    ∧ prependableBytes b' = prependableBytes b - zlen d).
Proof.
  intros Hwf Hp. unfold prepend. pose proof (zlen_nonneg d).
  rewrite assert_true by (apply Z.leb_le; lia). simpl.
  rewrite u64_small by buffer_arith. rewrite write_at_ok by buffer_arith. simpl.
  set (l := take _ _ ++ _).
  assert (write_at (readIndex_ b - zlen d) d (buffer_ b) = Ok l) as Hl
    by (apply write_at_ok; buffer_arith).
  pose proof (write_at_zlen _ _ _ _ Hl) as Hz.
  split; [split; simpl; rewrite ?Hz; buffer_arith|]. split; [|done].
  unfold content. simpl. rewrite (slice_split _ (readIndex_ b)) by buffer_arith. f_equal.
  - replace (readIndex_ b) with (readIndex_ b - zlen d + zlen d) at 2 by lia.
    by eapply write_at_slice_eq.
  - eapply write_at_slice_ne; [done|buffer_arith..].
Qed.

(** When the data fits, [append] neither moves nor reallocates. *)
Lemma append_in_place b d :
  wf b → zlen d ≤ writableBytes b →
  returns (append b d) (λ b', wf b' ∧ content b' = content b ++ d
    ∧ readIndex_ b' = readIndex_ b ∧ writableBytes b' = writableBytes b - zlen d).
Proof.
  intros Hwf Hd. pose proof (writableBytes_wf b Hwf). pose proof (zlen_nonneg d).
  assert (returns (append b d) (λ b', wf b' ∧ content b' = content b ++ d
    ∧ writeIndex_ b' ≤ writeIndex_ b + zlen d)) as Hs by (apply append_spec; [done | buffer_arith]).
  revert Hs. unfold append, ensureWritableBytes.
  destruct (Z.ltb_spec (writableBytes b) (zlen d)); [lia|]. simpl.
  rewrite assert_true by (apply Z.leb_le; lia). simpl.
  destruct (write_at _ _ _) as [l|] eqn:Hl; simpl; [|done].
  intros (Hwf' & Hc & _). split_and!; try done.
  rewrite writableBytes_wf by done. simpl. rewrite u64_small by buffer_arith.
  rewrite (write_at_zlen _ _ _ _ Hl). lia.
Qed.

Lemma shrink_spec b reserve :
  wf b → 0 ≤ reserve → kCheapPrepend + readableBytes b + reserve ≤ vector_max_size →
  returns (shrink b reserve) (λ b', wf b' ∧ content b' = content b
    ∧ reserve ≤ writableBytes b' ∧ prependableBytes b' ≤ kCheapPrepend).
Proof.
  intros Hwf Hr Hmax. unfold shrink. rewrite Buffer_ctor_ok. simpl.
  pose proof (readableBytes_wf b Hwf). pose proof (zlen_content b Hwf).
  rewrite u64_small by buffer_arith. eapply returns_then; [apply ensureWritableBytes_spec; [apply wf_new | buffer_arith..]|].
  intros o (Hwfo & Hco & Hwo & Hio). rewrite read_range_ok by buffer_arith. simpl.
  replace (peek b + readableBytes b) with (writeIndex_ b) by (unfold peek; lia).
  change (slice (peek b) (writeIndex_ b) (buffer_ b)) with (content b).
  eapply returns_then; [by apply append_in_place; [|lia]|].
  intros o' (? & Hc' & Hp & Hw'). simpl. rewrite Hc', Hw', Hco, content_new.
  split_and!; [done..|lia|]. unfold prependableBytes. rewrite Hp. buffer_arith.
Qed.

(** [readFd] appends exactly the received bytes, also when they spill into the stack
    buffer, and leaves the buffer alone on an error. *)
Lemma readFd_data b readv data :
  wf b → readv (writableBytes b) extraBufSize = ReadvData data →
  zlen data ≤ writableBytes b + extraBufSize →
  zlen (buffer_ b) + extraBufSize ≤ vector_max_size →
  returns (readFd b readv) (λ '(b', n, e),
    wf b' ∧ content b' = content b ++ data ∧ n = zlen data ∧ e = None).
Proof.
  intros Hwf Hk Hn Hmax. unfold readFd. rewrite Hk.
  pose proof (writableBytes_wf b Hwf) as Hw. pose proof (zlen_nonneg data).
  set (d1 := take (Z.to_nat (writableBytes b)) data).
  assert (zlen d1 = Z.min (writableBytes b) (zlen data)) as Hd1
    by (subst d1; rewrite zlen_take; buffer_arith).
  rewrite write_at_ok by buffer_arith. simpl. set (l := take _ _ ++ _).
  assert (write_at (beginWrite b) d1 (buffer_ b) = Ok l) as Hl
    by (apply write_at_ok; buffer_arith).
  pose proof (write_at_zlen _ _ _ _ Hl) as Hz.
  assert (slice (readIndex_ b) (writeIndex_ b + zlen d1) l = content b ++ d1) as Hcl.
  { rewrite (slice_split _ (writeIndex_ b)) by buffer_arith. f_equal.
    - eapply write_at_slice_ne; [done|buffer_arith..].
    - by eapply write_at_slice_eq. }
  rewrite (u64_small (zlen data)) by buffer_arith.
  destruct (Z.leb_spec (zlen data) (writableBytes b)); simpl.
  - rewrite u64_small by buffer_arith. split; [split; simpl; rewrite ?Hz; buffer_arith|].
    split; [|done]. unfold content at 1. simpl.
    replace (zlen data) with (zlen d1) by lia. rewrite Hcl. f_equal.
    subst d1. apply take_ge. unfold zlen in *. lia.
  - set (d2 := drop (Z.to_nat (writableBytes b)) data).
    assert (zlen d2 = zlen data - writableBytes b) as Hd2
      by (subst d2; rewrite zlen_drop; buffer_arith).
    rewrite (take_ge d2) by (unfold zlen in *; buffer_arith).
    rewrite <- Hd2, read_range_ok, slice_full by lia. simpl.
    set (b2 := set_writeIndex _ _).
    assert (wf b2) by (split; simpl; rewrite ?Hz; buffer_arith).
    eapply returns_then.
    { apply append_spec; [done|]. simpl. rewrite Hz. buffer_arith. }
    intros b3 (?&Hc3&?). simpl. rewrite Hc3. split_and!; try done.
    unfold content at 1. simpl.
    replace (zlen l) with (writeIndex_ b + zlen d1) by lia.
    rewrite Hcl, <- app_assoc. subst d1 d2. by rewrite take_drop.
Qed.

(** ** Searching *)
Lemma findCRLF_spec b :
  wf b → findCRLF b = Ok (let n := std_search kCRLF (content b) in
    if decide (n = length (content b)) then None else Some (peek b + Z.of_nat n)).
Proof.
  intros Hwf. unfold findCRLF, findCRLF_from.
  rewrite !assert_true by (apply Z.leb_le; buffer_arith). simpl.
  rewrite read_range_ok by buffer_arith. simpl. fold (content b).
  change (slice (peek b) (beginWrite b) (buffer_ b)) with (content b).
  pose proof (content_bound b Hwf). unfold beginWrite, peek, zlen in *.
  destruct (Z.eqb_spec (readIndex_ b + Z.of_nat (std_search kCRLF (content b))) (writeIndex_ b));
    case_decide; done || lia.
Qed.

Lemma findEOL_spec b :
  wf b → findEOL b = Ok (let n := std_find x0a (content b) in
    if decide (n = length (content b)) then None else Some (peek b + Z.of_nat n)).
Proof.
  intros Hwf. unfold findEOL, findEOL_from.
  rewrite !assert_true by (apply Z.leb_le; buffer_arith). simpl.
  rewrite read_range_ok by buffer_arith. done.
Qed.

(** ** Integers *)
Section integers.
Context (host : byte_order).

Lemma content_prefix b bs rest :
  wf b → content b = bs ++ rest →
  zlen bs ≤ readableBytes b ∧
  read_range (peek b) (peek b + zlen bs) (buffer_ b) = Ok bs.
Proof.
  intros Hwf Hc. pose proof (zlen_content b Hwf) as E. rewrite Hc, zlen_app in E.
  pose proof (zlen_nonneg rest). pose proof (zlen_nonneg bs).
  pose proof (readableBytes_wf b Hwf).
  split; [lia|]. rewrite read_range_ok by buffer_arith. f_equal.
  transitivity (take (Z.to_nat (zlen bs)) (content b)).
  - unfold content, peek. by rewrite take_slice by buffer_arith.
  - rewrite Hc. unfold zlen. by rewrite Nat2Z.id, take_app_length.
Qed.

(** Reading an integer at the front of the content, at each width. *)
Lemma peekInt8_front b c rest :
  wf b → content b = c :: rest → peekInt8 b = Ok (wraps 8 (be_val [c])).
Proof.
  intros Hwf Hc. destruct (content_prefix b [c] rest Hwf Hc) as [Hl _].
  change (zlen [c]) with 1 in Hl. unfold peekInt8.
  rewrite assert_true by (apply Z.leb_le; lia). simpl. unfold read_at, peek.
  destruct (Z.leb_spec 0 (readIndex_ b)); [|buffer_arith].
  assert (content b !! 0%nat = Some c) as Hc0 by (by rewrite Hc).
  unfold content in Hc0. rewrite slice_lookup in Hc0 by buffer_arith.
  case_decide; [|done]. rewrite Z.add_0_r in Hc0. rewrite Hc0. simpl.
  unfold be_val. simpl. by rewrite Z.add_0_r.
Qed.

Lemma peekInt16_front b bs rest :
  wf b → content b = bs ++ rest → length bs = 2%nat →
  peekInt16 host b = Ok (wraps 16 (be_val bs)).
Proof.
  intros Hwf Hc Hl. destruct (content_prefix b bs rest Hwf Hc) as [? Hr].
  assert (zlen bs = 2) as Hz by (unfold zlen; lia). rewrite Hz in *. unfold peekInt16.
  rewrite assert_true by (apply Z.leb_le; lia). simpl. rewrite Hr. simpl.
  unfold networkToHost16. by rewrite betoh_wrap_load by (done || lia).
Qed.

Lemma peekInt32_front b bs rest :
  wf b → content b = bs ++ rest → length bs = 4%nat →
  peekInt32 host b = Ok (wraps 32 (be_val bs)).
Proof.
  intros Hwf Hc Hl. destruct (content_prefix b bs rest Hwf Hc) as [? Hr].
  assert (zlen bs = 4) as Hz by (unfold zlen; lia). rewrite Hz in *. unfold peekInt32.
  rewrite assert_true by (apply Z.leb_le; lia). simpl. rewrite Hr. simpl.
  unfold networkToHost32. by rewrite betoh_wrap_load by (done || lia).
Qed.

Lemma peekInt64_front b bs rest :
  wf b → content b = bs ++ rest → length bs = 8%nat →
  peekInt64 host b = Ok (wraps 64 (be_val bs)).
Proof.
  intros Hwf Hc Hl. destruct (content_prefix b bs rest Hwf Hc) as [? Hr].
  assert (zlen bs = 8) as Hz by (unfold zlen; lia). rewrite Hz in *. unfold peekInt64.
  rewrite assert_true by (apply Z.leb_le; lia). simpl. rewrite Hr. simpl.
  unfold networkToHost64. by rewrite betoh_wrap_load by (done || lia).
Qed.

(** One integer of any of the four widths. *)
Inductive int_width := W8 | W16 | W32 | W64.

Definition width_bytes (w : int_width) : nat :=
  match w with W8 => 1 | W16 => 2 | W32 => 4 | W64 => 8 end.

Definition appendInt (b : Buffer) (w : int_width) (x : Z) : outcome Buffer :=
  match w with
  | W8 => appendInt8 host b x | W16 => appendInt16 host b x
  | W32 => appendInt32 host b x | W64 => appendInt64 host b x
  end.

Definition readInt (b : Buffer) (w : int_width) : outcome (Z * Buffer) :=
  match w with
  | W8 => readInt8 b | W16 => readInt16 host b
  | W32 => readInt32 host b | W64 => readInt64 host b
  end.

Lemma appendInt_bytes b w x : appendInt b w x = append b (be_bytes (width_bytes w) x).
Proof.
  destruct w; simpl.
  - unfold appendInt8. f_equal. by destruct host.
  - unfold appendInt16, hostToNetwork16. rewrite (store_wraps host 2) by lia.
    rewrite store_htobe. by rewrite (be_bytes_wrapu 2).
  - unfold appendInt32, hostToNetwork32. rewrite (store_wraps host 4) by lia.
    rewrite store_htobe. by rewrite (be_bytes_wrapu 4).
  - unfold appendInt64, hostToNetwork64. rewrite (store_wraps host 8) by lia.
    rewrite store_htobe. by rewrite (be_bytes_wrapu 8).
Qed.

Lemma wraps_be_val n x :
  (0 < n)%nat → in_s (8 * Z.of_nat n) x →
  wraps (8 * Z.of_nat n) (be_val (be_bytes n x)) = x.
Proof.
  intros Hn Hx. rewrite be_val_be_bytes, <- wrapu_256, wraps_wrapu by lia.
  apply wraps_small; [lia | done].
Qed.

Lemma readInt_front b w x rest :
  wf b → content b = be_bytes (width_bytes w) x ++ rest →
  in_s (8 * Z.of_nat (width_bytes w)) x →
  returns (readInt b w) (λ '(y, b'), y = x ∧ wf b' ∧ content b' = rest).
Proof.
  intros Hwf Hc Hx.
  assert (returns (retrieve b (Z.of_nat (width_bytes w)))
    (λ b', wf b' ∧ content b' = rest)) as Hret.
  { eapply returns_mono; [apply retrieve_spec; [done|]|].
    - rewrite <- zlen_content, Hc, zlen_app by done. unfold zlen.
      rewrite length_be_bytes. lia.
    - intros b' (?&->&_). split; [done|]. rewrite Hc, Nat2Z.id.
      rewrite drop_app_length'; [done|]. by rewrite length_be_bytes. }
  destruct w; cbn [readInt width_bytes] in *.
  - unfold readInt8, retrieveInt8. destruct (be_bytes 1 x) as [|c [|]] eqn:E;
      [done| |apply (f_equal length) in E; rewrite length_be_bytes in E; done].
    rewrite (peekInt8_front b c rest) by done. simpl. eapply returns_then; [exact Hret|]. intros b' [? ?]. simpl.
    rewrite <- E. by rewrite (wraps_be_val 1) by (lia || exact Hx).
  - unfold readInt16, retrieveInt16.
    rewrite (peekInt16_front b _ rest Hwf Hc) by apply length_be_bytes. simpl.
    eapply returns_then; [exact Hret|]. intros b' [? ?].
    simpl. by rewrite (wraps_be_val 2) by (lia || exact Hx).
  - unfold readInt32, retrieveInt32.
    rewrite (peekInt32_front b _ rest Hwf Hc) by apply length_be_bytes. simpl.
    eapply returns_then; [exact Hret|]. intros b' [? ?].
    simpl. by rewrite (wraps_be_val 4) by (lia || exact Hx).
  - unfold readInt64, retrieveInt64.
    rewrite (peekInt64_front b _ rest Hwf Hc) by apply length_be_bytes. simpl.
    eapply returns_then; [exact Hret|]. intros b' [? ?].
    simpl. by rewrite (wraps_be_val 8) by (lia || exact Hx).
Qed.

(** Sequences of integers. *)
Fixpoint appendInts (b : Buffer) (xs : list (int_width * Z)) : outcome Buffer :=
  match xs with
  | [] => Ok b
  | (w, x) :: xs' => b' ← appendInt b w x; appendInts b' xs'
  end.

Fixpoint readInts (b : Buffer) (ws : list int_width) : outcome (list Z * Buffer) :=
  match ws with
  | [] => Ok ([], b)
  | w :: ws' =>
      '(x, b') ← readInt b w;
      '(xs, b'') ← readInts b' ws';
      Ok (x :: xs, b'')
  end.

Definition ints_encoding (xs : list (int_width * Z)) : list byte :=
  concat (map (λ '(w, x), be_bytes (width_bytes w) x) xs).

Definition ints_in_range (xs : list (int_width * Z)) : Prop :=
  Forall (λ '(w, x), in_s (8 * Z.of_nat (width_bytes w)) x) xs.

Lemma ints_encoding_cons w x xs :
  ints_encoding ((w, x) :: xs) = be_bytes (width_bytes w) x ++ ints_encoding xs.
Proof. done. Qed.

Lemma appendInts_spec xs b :
  wf b → writeIndex_ b + zlen (ints_encoding xs) ≤ vector_max_size →
  returns (appendInts b xs) (λ b', wf b' ∧ content b' = content b ++ ints_encoding xs).
Proof.
  revert b. induction xs as [|[w x] xs IH]; intros b Hwf Hmax.
  - simpl. split; [done|]. unfold ints_encoding. simpl. by rewrite app_nil_r.
  - rewrite ints_encoding_cons in Hmax |- *. rewrite zlen_app in Hmax.
    cbn [appendInts]. rewrite appendInt_bytes. apply returns_bind.
    pose proof (zlen_nonneg (ints_encoding xs)).
    eapply returns_mono; [apply append_spec; [done|lia]|].
    intros b' (?&Hc&?). eapply returns_mono; [apply IH; [done|lia]|].
    intros b'' [? ->]. split; [done|]. by rewrite Hc, <- app_assoc.
Qed.

Lemma readInts_spec xs b rest :
  wf b → content b = ints_encoding xs ++ rest → ints_in_range xs →
  returns (readInts b xs.*1) (λ '(ys, b'), ys = xs.*2 ∧ wf b' ∧ content b' = rest).
Proof.
  revert b. induction xs as [|[w x] xs IH]; intros b Hwf Hc Hr; [done|].
  rewrite ints_encoding_cons, <- app_assoc in Hc. inversion_clear Hr as [|?? Hx Hxs].
  rewrite !fmap_cons. cbn [readInts fst snd]. eapply returns_then; [by eapply readInt_front|].
  intros [y b'] (->&?&?). eapply returns_then; [by apply IH|]. intros [ys b''] (->&?&?). done.
Qed.
End integers.

(** ** Refinement of a queue of bytes *)
Inductive buf_op :=
| OpAppend (d : list byte)
| OpPrepend (d : list byte)
| OpRetrieve (len : Z)
| OpRetrieveAll
| OpRetrieveAsString (len : Z)
| OpRetrieveAllAsString
| OpEnsureWritable (len : Z)
| OpShrink (reserve : Z)
| OpReadFd (readv : Z → Z → readv_result).

(** An operation on the code's buffer, with the bytes it hands to the caller. *)
Definition exec_op (b : Buffer) (op : buf_op) : outcome (Buffer * list byte) :=
  match op with
  | OpAppend d => b' ← append b d; Ok (b', [])
  | OpPrepend d => b' ← prepend b d; Ok (b', [])
  | OpRetrieve len => b' ← retrieve b len; Ok (b', [])
  | OpRetrieveAll => Ok (retrieveAll b, [])
  | OpRetrieveAsString len => '(s, b') ← retrieveAsString b len; Ok (b', s)
  | OpRetrieveAllAsString => '(s, b') ← retrieveAllAsString b; Ok (b', s)
  | OpEnsureWritable len => b' ← ensureWritableBytes b len; Ok (b', [])
  | OpShrink reserve => b' ← shrink b reserve; Ok (b', [])
  | OpReadFd readv => '(b', _, _) ← readFd b readv; Ok (b', [])
  end.

(** The same operation on the abstract queue; a descriptor delivers [received]. *)
Definition spec_op (q : list byte) (op : buf_op) (received : list byte)
    : list byte * list byte :=
  match op with
  | OpAppend d => (q ++ d, [])
  | OpPrepend d => (d ++ q, [])
  | OpRetrieve len => (drop (Z.to_nat len) q, [])
  | OpRetrieveAll => ([], [])
  | OpRetrieveAsString len => (drop (Z.to_nat len) q, take (Z.to_nat len) q)
  | OpRetrieveAllAsString => ([], q)
  | OpEnsureWritable _ | OpShrink _ => (q, [])
  | OpReadFd _ => (q ++ received, [])
  end.

Definition op_received (b : Buffer) (op : buf_op) : list byte :=
  match op with
  | OpReadFd readv =>
      match readv (writableBytes b) extraBufSize with ReadvData d => d | ReadvError _ => [] end
  | _ => []
  end.

(** What a caller owes: consume at most what is readable, prepend at most what is free
    in front, and stay below the vector's maximal size. *)
Definition op_ok (b : Buffer) (op : buf_op) : Prop :=
  match op with
  | OpAppend d => writeIndex_ b + zlen d ≤ vector_max_size
  | OpPrepend d => zlen d ≤ prependableBytes b
  | OpRetrieve len | OpRetrieveAsString len => 0 ≤ len ≤ readableBytes b
  | OpRetrieveAll | OpRetrieveAllAsString => True
  | OpEnsureWritable len => 0 ≤ len ∧ writeIndex_ b + len ≤ vector_max_size
  | OpShrink reserve =>
      0 ≤ reserve ∧ kCheapPrepend + readableBytes b + reserve ≤ vector_max_size
  | OpReadFd readv =>
      zlen (op_received b op) ≤ writableBytes b + extraBufSize ∧
      zlen (buffer_ b) + extraBufSize ≤ vector_max_size
  end.

Lemma exec_op_refines b op :
  wf b → op_ok b op →
  returns (exec_op b op) (λ '(b', out), wf b' ∧
    (content b', out) = spec_op (content b) op (op_received b op)).
Proof.
  intros Hwf Hok. destruct op; cbn [exec_op spec_op op_ok] in *; try apply returns_bind.
  - eapply returns_mono; [by apply append_spec|]. intros b' (?&Hc&?). simpl. by rewrite Hc.
  - eapply returns_mono; [by apply prepend_spec|]. intros b' (?&Hc&?). simpl. by rewrite Hc.
  - eapply returns_mono; [by apply retrieve_spec|]. intros b' (?&Hc&?). simpl. by rewrite Hc.
  - simpl. split; [by apply retrieveAll_wf | by rewrite retrieveAll_content].
  - eapply returns_mono; [by apply retrieveAsString_spec|]. intros [s b'] (?&->&Hc&?). simpl. by rewrite Hc.
  - eapply returns_mono; [by apply retrieveAllAsString_spec|]. intros [s b'] (?&->&Hc&?). simpl. by rewrite Hc.
  - destruct Hok. eapply returns_mono; [by apply ensureWritableBytes_spec|].
    intros b' (?&Hc&?). simpl. by rewrite Hc.
  - destruct Hok. eapply returns_mono; [by apply shrink_spec|]. intros b' (?&Hc&?). simpl. by rewrite Hc.
  - destruct Hok as [Hn Hm]. unfold op_received in *.
    destruct (readv _ _) as [err|d] eqn:E.
    + unfold readFd. rewrite E. simpl. by rewrite app_nil_r.
    + eapply returns_mono; [by eapply readFd_data|]. intros [[b' n] e] (?&Hc&?). simpl. by rewrite Hc.
Qed.

Fixpoint exec_ops (b : Buffer) (ops : list buf_op) : outcome (Buffer * list (list byte)) :=
  match ops with
  | [] => Ok (b, [])
  | op :: ops' =>
      '(b', out) ← exec_op b op;
      '(b'', outs) ← exec_ops b' ops';
      Ok (b'', out :: outs)
  end.

(** The contract holds at every state the run goes through. *)
Fixpoint ops_ok (b : Buffer) (ops : list buf_op) : Prop :=
  match ops with
  | [] => True
  | op :: ops' => op_ok b op ∧ ∀ b' out, exec_op b op = Ok (b', out) → ops_ok b' ops'
  end.

(** The abstract queue's run, fed with what the descriptors delivered. *)
Fixpoint spec_ops (q : list byte) (ops : list (buf_op * list byte))
    : list byte * list (list byte) :=
  match ops with
  | [] => (q, [])
  | (op, received) :: ops' =>
      let '(q', out) := spec_op q op received in
      let '(q'', outs) := spec_ops q' ops' in
      (q'', out :: outs)
  end.

(** ** Properties *)

(** C1: the buffer refines a queue of bytes.  Any sequence of appends, prepends,
    retrievals, growths, shrinks and descriptor reads that respects the contract runs to
    the end without an assertion failure, an exception or an access outside of the vector,
    and the readable bytes and everything handed out are what the abstract queue gives. *)
Theorem buffer_refines_queue (b : Buffer) (ops : list buf_op) :
  wf b → ops_ok b ops →
  ∃ b' outs received, exec_ops b ops = Ok (b', outs) ∧ wf b' ∧ length received = length ops ∧
    spec_ops (content b) (zip ops received) = (content b', outs).
Proof.
  revert b. induction ops as [|op ops IH]; intros b Hwf Hok.
  - exists b, [], []. done.
  - destruct Hok as [Hop Hrest].
    destruct (returns_inv _ _ (exec_op_refines b op Hwf Hop)) as ([b1 out] & E & Hwf1 & Hs).
    destruct (IH b1 Hwf1 (Hrest b1 out E)) as (b' & outs & rs & E' & Hwf' & Hlen & Hs').
    exists b', (out :: outs), (op_received b op :: rs). split_and!; [|done|simpl; lia|].
    + simpl. rewrite E. simpl. by rewrite E'.
    + simpl. rewrite <- Hs. by rewrite Hs'.
Qed.

Lemma buffer_refines_queue_witness :
  ∃ b' outs received,
    exec_ops Buffer_new [OpAppend (str "HTTP"); OpRetrieveAsString 2; OpPrepend (str "ab")]
      = Ok (b', outs) ∧ wf b' ∧ length received = 3%nat ∧
    spec_ops [] (zip [OpAppend (str "HTTP"); OpRetrieveAsString 2; OpPrepend (str "ab")]
      received) = (content b', outs).
Proof.
  apply (buffer_refines_queue Buffer_new
    [OpAppend (str "HTTP"); OpRetrieveAsString 2; OpPrepend (str "ab")]); [exact wf_new|].
  split; [vm_compute; congruence|]. intros b1 o1 E1. vm_compute in E1. injection E1 as <- <-.
  split; [vm_compute; intuition congruence|]. intros b2 o2 E2. vm_compute in E2.
  injection E2 as <- <-. split; [vm_compute; congruence|]. done.
Defined.

(** integers survive the trip through a buffer.  On a host of either byte order, a
    sequence of [appendInt8/16/32/64] on an empty buffer followed by the matching
    [readInt8/16/32/64] gives back every value, negative ones included, and leaves the
    buffer empty; the bytes in between are in network order. *)
Theorem int_codec_roundtrip (host : byte_order) (b : Buffer) (xs : list (int_width * Z)) :
  wf b → content b = [] → ints_in_range xs →
  writeIndex_ b + zlen (ints_encoding xs) ≤ vector_max_size →
  ∃ b1 b2, appendInts host b xs = Ok b1 ∧ content b1 = ints_encoding xs ∧
    readInts host b1 xs.*1 = Ok (xs.*2, b2) ∧ content b2 = [].
Proof.
  intros Hwf Hc Hr Hmax.
  destruct (returns_inv _ _ (appendInts_spec host xs b Hwf Hmax)) as (b1 & E1 & Hwf1 & Hc1).
  rewrite Hc in Hc1.
  destruct (returns_inv _ _ (readInts_spec host xs b1 [] Hwf1
    ltac:(by rewrite app_nil_r) Hr)) as ([ys b2] & E2 & -> & _ & Hc2).
  exists b1, b2. done.
Qed.

Lemma int_codec_roundtrip_witness :
  ∃ b1 b2, appendInts little_endian Buffer_new [(W8, -1); (W16, -2); (W32, -3)] = Ok b1 ∧
    content b1 = ints_encoding [(W8, -1); (W16, -2); (W32, -3)] ∧
    readInts little_endian b1 [W8; W16; W32] = Ok ([-1; -2; -3], b2) ∧ content b2 = [].
Proof.
  apply (int_codec_roundtrip little_endian Buffer_new [(W8, -1); (W16, -2); (W32, -3)]).
  - exact wf_new.
  - reflexivity.
  - repeat constructor; vm_compute; congruence.
  - vm_compute. congruence.
Defined.

(** [findCRLF] is exact.  It returns the null pointer when the readable bytes hold no
    "\r\n", and otherwise a pointer to the first one, which lies with both its bytes
    inside the readable range. *)
Theorem findCRLF_first (b : Buffer) :
  wf b →
  match findCRLF b with
  | Ok None => ∀ n, ¬ CRLF `prefix_of` drop n (content b)
  | Ok (Some p) =>
      peek b ≤ p ∧ p + 2 ≤ beginWrite b ∧
      CRLF `prefix_of` drop (Z.to_nat (p - peek b)) (content b) ∧
      ∀ n : nat, Z.of_nat n < p - peek b → ¬ CRLF `prefix_of` drop n (content b)
  | Err _ => False
  end.
Proof.
  intros Hwf. rewrite findCRLF_spec by done. cbv zeta.
  pose proof (std_search_le kCRLF (content b)) as Hle.
  case_decide as Hn.
  - intros n Hp. destruct (decide (n < length (content b))%nat).
    + apply (std_search_first kCRLF (content b) n); [lia | done].
    + rewrite drop_ge in Hp by lia. apply prefix_length in Hp. simpl in Hp. lia.
  - assert (std_search kCRLF (content b) < length (content b))%nat as Hlt by lia.
    pose proof (std_search_found _ _ Hlt) as Hp.
    pose proof (prefix_length _ _ Hp) as Hpl. rewrite length_drop in Hpl. simpl in Hpl.
    pose proof (content_bound b Hwf). unfold zlen, peek, beginWrite in *.
    rewrite Z.add_simpl_l, Nat2Z.id.
    split_and!; [lia | lia | done |]. intros n Hn'. apply std_search_first. unfold kCRLF in *. lia.
Qed.

Lemma findCRLF_first_witness :
  wf Buffer_new ∧ match findCRLF Buffer_new with Ok None => True | _ => False end.
Proof.
  split; [exact wf_new|]. pose proof (findCRLF_first Buffer_new wf_new) as H.
  destruct (findCRLF Buffer_new) as [[p|]|] eqn:E; [vm_compute in E; discriminate | exact I | exact H].
Defined.

(** the bound on the requested length is needed.  [writeIndex_ + len] wraps around for a
    length within [writeIndex_] of 2^64: [ensureWritableBytes] then passes all its
    assertions and returns with the vector cut below [writeIndex_], so that the write
    pointer is outside of the storage. *)
Theorem ensureWritableBytes_wraps (b : Buffer) (len : Z) :
  wf b → 2 ^ 64 - writeIndex_ b ≤ len < 2 ^ 64 - kCheapPrepend →
  ∃ b', ensureWritableBytes b len = Ok b' ∧ writeIndex_ b' = writeIndex_ b ∧
    zlen (buffer_ b') = writeIndex_ b + len - 2 ^ 64 ∧ zlen (buffer_ b') < writeIndex_ b'.
Proof.
  intros Hwf Hlen. pose proof (writableBytes_wf b Hwf) as Hw.
  unfold ensureWritableBytes, makeSpace.
  destruct (Z.ltb_spec (writableBytes b) len); [|buffer_arith].
  rewrite (u64_small (_ + prependableBytes b)) by buffer_arith.
  rewrite (u64_small (len + _)) by buffer_arith.
  destruct (Z.ltb_spec (writableBytes b + prependableBytes b) (len + kCheapPrepend));
    [|buffer_arith].
  assert (u64 (writeIndex_ b + len) = writeIndex_ b + len - 2 ^ 64) as ->.
  { unfold wrapu. rewrite <- (Z.mod_add _ (-1)) by lia. apply Z.mod_small. buffer_arith. }
  unfold resize. destruct (Z.ltb_spec vector_max_size (writeIndex_ b + len - 2 ^ 64));
    [buffer_arith|].
  destruct (Z.leb_spec (writeIndex_ b + len - 2 ^ 64) (zlen (buffer_ b))); [|buffer_arith].
  ok_simpl. set (b' := set_buffer b _).
  assert (zlen (buffer_ b') = writeIndex_ b + len - 2 ^ 64) as Hz.
  { simpl. rewrite zlen_take. buffer_arith. }
  assert (writableBytes b' = len) as Hw'.
  { unfold writableBytes. rewrite Hz. simpl. unfold wrapu.
    rewrite <- (Z.mod_add _ 1) by lia. rewrite Z.mod_small; buffer_arith. }
  rewrite Hw', assert_true by (apply Z.leb_le; lia). exists b'. simpl.
  split_and!; [done | done | done | ]. simpl in Hz. rewrite Hz. buffer_arith.
Qed.

Lemma ensureWritableBytes_wraps_witness :
  ∃ b b', append Buffer_new (str "abcdefgh") = Ok b ∧
    ensureWritableBytes b (2 ^ 64 - 9) = Ok b' ∧ writeIndex_ b' = writeIndex_ b ∧
    zlen (buffer_ b') = writeIndex_ b + (2 ^ 64 - 9) - 2 ^ 64 ∧
    zlen (buffer_ b') < writeIndex_ b'.
Proof.
  destruct (append Buffer_new (str "abcdefgh")) as [b|] eqn:E; [|vm_compute in E; discriminate].
  destruct (ensureWritableBytes_wraps b (2 ^ 64 - 9)) as (b' & ? & ? & ? & ?).
  - assert (returns (append Buffer_new (str "abcdefgh")) wf) as H.
    { eapply returns_mono; [apply append_spec; [exact wf_new | vm_compute; congruence]|].
      by intros ? []. }
    rewrite E in H. exact H.
  - vm_compute in E. injection E as <-. vm_compute. intuition congruence.
  - exists b, b'. split_and!; reflexivity || assumption.
Defined.
