(* ===== verification/StdMap.v ===== *)
(** * StdMap: std::map and std::set

    The ordered containers of the C++ library, as association lists sorted by a strict
    order.  A [std::set] is a map to [unit].  Iteration order is the list's order, which
    the HTTP response and the timer queue depend on. *)
From S2P Require Import Prelude.

(** The comparison object of a container: a decidable strict total order. *)
Class StdLess (K : Type) := std_ltb : K → K → bool.

Class StdLessLaws (K : Type) `{StdLess K} : Prop := {
  std_ltb_irrefl : ∀ a, std_ltb a a = false;
  std_ltb_trans : ∀ a b c, std_ltb a b = true → std_ltb b c = true → std_ltb a c = true;
  std_ltb_total : ∀ a b, std_ltb a b = false → std_ltb b a = false → a = b
}.

Section map.
Context {K V : Type} `{StdLessLaws K}.
Implicit Types (m : list (K * V)) (k : K) (v : V).

(** [m.find(k)] *)
Fixpoint map_find (k : K) (m : list (K * V)) : option V :=
  match m with
  | [] => None
  | (k', v) :: m' =>
      if std_ltb k k' then None else if std_ltb k' k then map_find k m' else Some v
  end.

(** [m[k] = v] *)
Fixpoint map_set (k : K) (v : V) (m : list (K * V)) : list (K * V) :=
  match m with
  | [] => [(k, v)]
  | (k', v') :: m' =>
      if std_ltb k k' then (k, v) :: (k', v') :: m'
      else if std_ltb k' k then (k', v') :: map_set k v m'
      else (k', v) :: m'
  end.

(** [m.erase(k)] *)
Fixpoint map_erase (k : K) (m : list (K * V)) : list (K * V) :=
  match m with
  | [] => []
  | (k', v') :: m' =>
      if std_ltb k k' then (k', v') :: m'
      else if std_ltb k' k then (k', v') :: map_erase k m'
      else m'
  end.

(** [m.insert({k, v})]: an existing entry is kept; the flag says whether it was new. *)
Definition map_insert (k : K) (v : V) (m : list (K * V)) : list (K * V) * bool :=
  match map_find k m with
  | Some _ => (m, false)
  | None => (map_set k v m, true)
  end.

(** The entries before [m.lower_bound(k)] and those from it on. *)
Fixpoint map_lower_bound (k : K) (m : list (K * V)) : list (K * V) * list (K * V) :=
  match m with
  | [] => ([], [])
  | (k', v') :: m' =>
      if std_ltb k' k
      then let '(lo, hi) := map_lower_bound k m' in ((k', v') :: lo, hi)
      else ([], m)
  end.

Definition key_lt (a b : K * V) : Prop := std_ltb a.1 b.1 = true.
Definition map_sorted (m : list (K * V)) : Prop := StronglySorted key_lt m.

Lemma std_ltb_asym a b : std_ltb a b = true → std_ltb b a = false.
Proof.
  intros Hab. destruct (std_ltb b a) eqn:E; [|done].
  pose proof (std_ltb_trans a b a Hab E) as C. by rewrite std_ltb_irrefl in C.
Qed.

Lemma std_ltb_cases a b :
  (std_ltb a b = true ∧ std_ltb b a = false) ∨
  (std_ltb a b = false ∧ std_ltb b a = true) ∨ a = b.
Proof.
  destruct (std_ltb a b) eqn:E1.
  - left. split; [done | by apply std_ltb_asym].
  - destruct (std_ltb b a) eqn:E2; [auto|]. right. right. by apply std_ltb_total.
Qed.

Lemma map_find_below k m :
  Forall (λ e, std_ltb k e.1 = true) m → map_find k m = None.
Proof. destruct 1 as [|[k' v'] m Hk _]; simpl in *; [done | by rewrite Hk]. Qed.

Lemma map_sorted_cons_inv k v m :
  map_sorted ((k, v) :: m) →
  map_sorted m ∧ Forall (λ e, std_ltb k e.1 = true) m.
Proof. intros Hm. inversion_clear Hm. by split. Qed.

Lemma map_sorted_cons k v m :
  map_sorted m → Forall (λ e, std_ltb k e.1 = true) m → map_sorted ((k, v) :: m).
Proof. intros. by constructor. Qed.

Lemma Forall_below_trans k k' m :
  std_ltb k k' = true → Forall (λ e, std_ltb k' e.1 = true) m →
  Forall (λ e, std_ltb k e.1 = true) m.
Proof.
  intros Hk Hm. eapply Forall_impl; [exact Hm|]. intros e He.
  by eapply std_ltb_trans.
Qed.

(** Case analysis on the order of two keys, with the comparisons rewritten. *)
Ltac key_cases a b :=
  let E1 := fresh "E" in let E2 := fresh "E" in
  destruct (std_ltb_cases a b) as [[E1 E2]|[[E1 E2]| ->]];
  rewrite ?E1, ?E2, ?std_ltb_irrefl in *.

Lemma map_set_Forall (P : K * V → Prop) k v m :
  P (k, v) → Forall P m → Forall P (map_set k v m).
Proof.
  intros Hkv Hm. induction Hm as [|[k' v'] m Hk' Hm IH]; simpl; [by constructor|].
  key_cases k k'; repeat constructor; auto.
Qed.

Lemma map_set_sorted k v m : map_sorted m → map_sorted (map_set k v m).
Proof.
  induction m as [|[k' v'] m IH]; simpl; intros Hm; [by repeat constructor|].
  apply map_sorted_cons_inv in Hm as [Hm Hlt].
  key_cases k k'.
  - apply map_sorted_cons; [by apply map_sorted_cons|].
    constructor; [done | by eapply Forall_below_trans].
  - apply map_sorted_cons; [by apply IH|]. by apply map_set_Forall.
  - by apply map_sorted_cons.
Qed.

Lemma map_erase_Forall (P : K * V → Prop) k m : Forall P m → Forall P (map_erase k m).
Proof.
  induction 1 as [|[k' v'] m Hk' Hm IH]; simpl; [done|].
  key_cases k k'; try constructor; auto.
Qed.

Lemma map_erase_sorted k m : map_sorted m → map_sorted (map_erase k m).
Proof.
  induction m as [|[k' v'] m IH]; simpl; intros Hm; [done|].
  pose proof Hm as Hm'. apply map_sorted_cons_inv in Hm' as [Hm' Hlt].
  key_cases k k'; [done| |done].
  apply map_sorted_cons; [by apply IH | by apply map_erase_Forall].
Qed.

Lemma map_find_set_eq k v m : map_find k (map_set k v m) = Some v.
Proof.
  induction m as [|[k' v'] m IH]; simpl; [by rewrite std_ltb_irrefl|].
  key_cases k k'; simpl; rewrite ?std_ltb_irrefl; try done.
  by rewrite E, E0, IH.
Qed.

Lemma map_find_set_ne k k' v m :
  map_sorted m → k ≠ k' → map_find k' (map_set k v m) = map_find k' m.
Proof.
  intros Hm Hne. induction m as [|[a w] m IH]; simpl.
  - key_cases k' k; done.
  - apply map_sorted_cons_inv in Hm as [Hm Hlt].
    key_cases k a; simpl.
    + key_cases k' k; try done.
      * by rewrite (std_ltb_trans k' k a).
    + by rewrite IH.
    + key_cases k' a; done.
Qed.

Lemma map_find_erase_eq k m : map_sorted m → map_find k (map_erase k m) = None.
Proof.
  intros Hm. induction m as [|[a w] m IH]; simpl; [done|].
  apply map_sorted_cons_inv in Hm as [Hm Hlt].
  key_cases k a; simpl; rewrite ?E, ?E0; auto. by apply map_find_below.
Qed.

Lemma map_find_erase_ne k k' m :
  map_sorted m → k ≠ k' → map_find k' (map_erase k m) = map_find k' m.
Proof.
  intros Hm Hne. induction m as [|[a w] m IH]; simpl; [done|].
  apply map_sorted_cons_inv in Hm as [Hm Hlt].
  key_cases k a; simpl; [done|by rewrite IH|].
  key_cases k' a; [|done|done].
  apply map_find_below. by eapply Forall_below_trans.
Qed.

Lemma map_find_elem k v m : map_sorted m → map_find k m = Some v ↔ (k, v) ∈ m.
Proof.
  intros Hm. induction m as [|[a w] m IH]; simpl.
  - split; [done | intros ?%elem_of_nil; done].
  - apply map_sorted_cons_inv in Hm as [Hm Hlt]. rewrite elem_of_cons.
    rewrite Forall_forall in Hlt. key_cases k a.
    + split; [done|]. intros [[= -> ->]|Hin]; [by rewrite std_ltb_irrefl in E|].
      apply Hlt in Hin. simpl in Hin. by rewrite Hin in E0.
    + rewrite IH by done. split; [auto|]. intros [[= -> ->]|Hin]; [|done].
      by rewrite std_ltb_irrefl in E0.
    + split; [intros [= ->]; auto|]. intros [[= ->]|Hin]; [done|].
      apply Hlt in Hin. simpl in Hin. by rewrite std_ltb_irrefl in Hin.
Qed.


Lemma key_eq_or_ne (a b : K) : a = b ∨ a ≠ b.
Proof.
  destruct (std_ltb_cases a b) as [[E _]|[[_ E]|?]]; [right|right|by left];
    intros ->; by rewrite std_ltb_irrefl in E.
Qed.

Lemma elem_of_map_set k v e m :
  map_sorted m → e ∈ map_set k v m ↔ e = (k, v) ∨ (e ∈ m ∧ e.1 ≠ k).
Proof.
  intros Hm. destruct e as [k' v'].
  rewrite <- map_find_elem by by apply map_set_sorted.
  rewrite <- map_find_elem by done. simpl.
  destruct (key_eq_or_ne k k') as [->|Hne].
  - rewrite map_find_set_eq. split; [intros [= ->]; by left | intros [[= ->]|[? ?]]; done].
  - rewrite map_find_set_ne by done.
    split; [intros; right; by split | intros [[= -> ->]|[? ?]]; done].
Qed.

Lemma elem_of_map_erase k e m :
  map_sorted m → e ∈ map_erase k m ↔ e ∈ m ∧ e.1 ≠ k.
Proof.
  intros Hm. destruct e as [k' v'].
  rewrite <- map_find_elem by by apply map_erase_sorted.
  rewrite <- map_find_elem by done. simpl.
  destruct (key_eq_or_ne k k') as [->|Hne].
  - rewrite map_find_erase_eq by done. split; [done | by intros [_ ?]].
  - rewrite map_find_erase_ne by done. split; [by split | by intros [? _]].
Qed.

Lemma map_insert_new k v m :
  map_find k m = None → map_insert k v m = (map_set k v m, true).
Proof. unfold map_insert. by intros ->. Qed.

Lemma map_sorted_app_inv m1 m2 :
  map_sorted (m1 ++ m2) → map_sorted m1 ∧ map_sorted m2.
Proof.
  induction m1 as [|e m1 IH]; simpl; intros Hm; [by split; [constructor|]|].
  inversion_clear Hm as [|?? Hs Hf]. destruct (IH Hs) as [??].
  split; [|done]. constructor; [done|]. by apply Forall_app in Hf as [? _].
Qed.

(** [lower_bound] splits the sequence into the smaller keys and the others. *)
Lemma map_lower_bound_app k m lo hi :
  map_lower_bound k m = (lo, hi) → m = lo ++ hi.
Proof.
  revert lo. induction m as [|[k' v'] m IH]; simpl; intros lo; [by intros [= <- <-]|].
  destruct (std_ltb k' k); [|by intros [= <- <-]].
  destruct (map_lower_bound k m) as [lo' hi']. intros [= <- <-].
  by rewrite (IH lo').
Qed.

Lemma map_lower_bound_lo k m lo hi :
  map_lower_bound k m = (lo, hi) → Forall (λ e, std_ltb e.1 k = true) lo.
Proof.
  revert lo. induction m as [|[k' v'] m IH]; simpl; intros lo; [by intros [= <- <-]|].
  destruct (std_ltb k' k) eqn:E; [|by intros [= <- <-]].
  destruct (map_lower_bound k m) as [lo' hi']. intros [= <- <-].
  constructor; [done | by apply IH].
Qed.

Lemma map_lower_bound_hi k m lo hi :
  map_sorted m → map_lower_bound k m = (lo, hi) →
  Forall (λ e, std_ltb e.1 k = false) hi.
Proof.
  revert lo. induction m as [|[k' v'] m IH]; simpl; intros lo Hm; [by intros [= <- <-]|].
  apply map_sorted_cons_inv in Hm as [Hm Hlt].
  destruct (std_ltb k' k) eqn:E.
  - destruct (map_lower_bound k m) as [lo' hi']. intros [= <- <-]. by eapply IH.
  - intros [= <- <-]. constructor; [done|]. eapply Forall_impl; [exact Hlt|].
    intros e He. simpl in He. destruct (std_ltb e.1 k) eqn:E'; [|done].
    by rewrite (std_ltb_trans k' e.1 k) in E.
Qed.

(** Two sorted sequences with the same entries are the same sequence. *)
Lemma map_sorted_head_least k v m e :
  map_sorted ((k, v) :: m) → e ∈ (k, v) :: m → e = (k, v) ∨ std_ltb k e.1 = true.
Proof.
  intros [_ Hlt]%map_sorted_cons_inv [->|Hin]%elem_of_cons; [by left|].
  right. rewrite Forall_forall in Hlt. by apply Hlt.
Qed.
End map.

(** ** Orders of the keys in use *)
#[export] Instance Z_less : StdLess Z := Z.ltb.
#[export] Instance Z_less_laws : StdLessLaws Z.
Proof. split; unfold std_ltb, Z_less; intros; lia. Qed.

(** [std::string::operator<]: lexicographic, bytes compared as unsigned. *)
Fixpoint bytes_ltb (a b : list byte) : bool :=
  match a, b with
  | _, [] => false
  | [], _ :: _ => true
  | x :: a', y :: b' =>
      (byte_val x <? byte_val y) || ((byte_val x =? byte_val y) && bytes_ltb a' b')
  end.

#[export] Instance bytes_less : StdLess (list byte) := bytes_ltb.

Lemma byte_val_inj x y : byte_val x = byte_val y → x = y.
Proof. intros E. by rewrite <- (byte_of_val x), E, byte_of_val. Qed.

#[export] Instance bytes_less_laws : StdLessLaws (list byte).
Proof.
  split; unfold std_ltb, bytes_less.
  - induction a as [|x a IH]; simpl; [done|]. rewrite IH. lia.
  - induction a as [|x a IH]; intros [|y b] [|z c]; simpl; try done.
    intros [?|[? ?]%andb_true_iff]%orb_true_iff [?|[? ?]%andb_true_iff]%orb_true_iff;
      apply orb_true_iff; try (left; lia).
    right. apply andb_true_iff. split; [lia | eauto].
  - induction a as [|x a IH]; intros [|y b]; simpl; try done.
    intros [H1 H2]%orb_false_iff [H3 H4]%orb_false_iff.
    assert (byte_val x = byte_val y) as E by lia.
    apply byte_val_inj in E as ->. rewrite Z.eqb_refl in *. simpl in *.
    f_equal. by apply IH.
Qed.

(** [std::pair::operator<] *)
#[export] Instance pair_less {A B} `{StdLess A, StdLess B} : StdLess (A * B) :=
  λ p q, std_ltb p.1 q.1 || (negb (std_ltb q.1 p.1) && std_ltb p.2 q.2).

Lemma pair_ltb_unfold {A B} `{StdLess A, StdLess B} (p q : A * B) :
  std_ltb p q = std_ltb p.1 q.1 || (negb (std_ltb q.1 p.1) && std_ltb p.2 q.2).
Proof. done. Qed.

#[export] Instance pair_less_laws {A B} `{StdLessLaws A, StdLessLaws B} :
  StdLessLaws (A * B).
Proof.
  split.
  - intros [a b]. rewrite pair_ltb_unfold. simpl. by rewrite !std_ltb_irrefl.
  - intros [a1 b1] [a2 b2] [a3 b3]. rewrite !pair_ltb_unfold. simpl.
    destruct (std_ltb_cases a1 a2) as [[E1 E2]|[[E1 E2]| ->]]; rewrite ?E1, ?E2; [| done |];
    destruct (std_ltb_cases a2 a3) as [[E3 E4]|[[E3 E4]| ->]]; rewrite ?E3, ?E4; simpl;
      try done.
    + by rewrite (std_ltb_trans a1 a2 a3).
    + by rewrite E1.
    + rewrite std_ltb_irrefl. simpl. apply std_ltb_trans.
  - intros [a1 b1] [a2 b2]. rewrite !pair_ltb_unfold. simpl.
    destruct (std_ltb_cases a1 a2) as [[E1 E2]|[[E1 E2]| ->]]; rewrite ?E1, ?E2; simpl;
      try done.
    rewrite ?std_ltb_irrefl. simpl. intros. f_equal. by apply std_ltb_total.
Qed.
