(* ===== verification/Timestamp.v ===== *)
(** * Timestamp: src/ham/base/Timestamp.h and src/ham/base/Timestamp.cc

    A time point is an [int64_t] of microseconds.  Intervals are C++ doubles, modelled by
    the IEEE 754 binary64 operations of the Standard Library's [SpecFloat] (round to
    nearest, ties to even); the cast back to [int64_t] truncates and is undefined outside
    of the type's range.  The system clock is an argument of [Timestamp::now], and of the code
    that reads it; localtime and put_time are an argument of [toFormatTime]. *)
From Stdlib Require Import SpecFloat.
From S2P Require Import Prelude StdMap.

(** ** double *)
Definition double := spec_float.
Definition double_of_Z (z : Z) : double := binary_normalize 53 1024 z 0 false.
Definition double_mul (x y : double) : double := SFmul 53 1024 x y.
Definition double_div (x y : double) : double := SFdiv 53 1024 x y.
Definition double_ltb (x y : double) : bool := SFltb x y.
Definition double_zero : double := S754_zero false.

(** [static_cast<int64_t>(x)] *)
Definition double_to_int64 (x : double) : outcome Z :=
  match x with
  | S754_zero _ => Ok 0
  | S754_finite s m e =>
      let mag := if 0 <=? e then Zpos m * 2 ^ e else Zpos m / 2 ^ (- e) in
      i64_check (if s then - mag else mag)
  | S754_infinity _ | S754_nan => Err OutOfRange
  end.

(** ** Timestamp *)
Record Timestamp := mkTimestamp { microsecondsFromEpoch_ : Z }.

Definition microsecondsFromEpoch (t : Timestamp) : Z := microsecondsFromEpoch_ t.
Definition kMicrosecondsPerSecond : Z := 1000 * 1000.
Definition secondsFromEpoch (t : Timestamp) : Z :=
  Z.quot (microsecondsFromEpoch_ t) kMicrosecondsPerSecond.
Definition valid (t : Timestamp) : bool := 0 <? microsecondsFromEpoch_ t.
Definition invalid : Timestamp := mkTimestamp 0.
Definition swap (this src : Timestamp) : Timestamp * Timestamp := (src, this).

(** [system_clock] counts nanoseconds. *)
Definition now (system_clock : Z) : Timestamp := mkTimestamp (Z.quot system_clock 1000).

Definition toFormatTime (localtime_text : Z → list byte) (t : Timestamp) : list byte :=
  localtime_text (Z.quot (microsecondsFromEpoch_ t) kMicrosecondsPerSecond).

Definition toString (t : Timestamp) : list byte :=
  to_string (Z.quot (microsecondsFromEpoch_ t) kMicrosecondsPerSecond) ++ str "." ++
  to_string (Z.rem (microsecondsFromEpoch_ t) kMicrosecondsPerSecond).

(** [operator<] and [operator==] *)
Definition timestamp_lt (lhs rhs : Timestamp) : bool :=
  microsecondsFromEpoch lhs <? microsecondsFromEpoch rhs.
Definition timestamp_eq (lhs rhs : Timestamp) : bool :=
  microsecondsFromEpoch lhs =? microsecondsFromEpoch rhs.

Definition timeDifference (lhs rhs : Timestamp) : outcome double :=
  diff ← i64_check (microsecondsFromEpoch lhs - microsecondsFromEpoch rhs);
  let diff := Z.quot diff kMicrosecondsPerSecond in
  Ok (double_of_Z diff).

Definition addTime (src : Timestamp) (secondsToBeAdded : double) : outcome Timestamp :=
  microseconds ← double_to_int64 (double_mul secondsToBeAdded (double_of_Z kMicrosecondsPerSecond));
  r ← i64_check (microsecondsFromEpoch src + microseconds);
  Ok (mkTimestamp r).

#[export] Instance Timestamp_eq_dec : EqDecision Timestamp.
Proof. solve_decision. Defined.

#[export] Instance Timestamp_less : StdLess Timestamp := timestamp_lt.
#[export] Instance Timestamp_less_laws : StdLessLaws Timestamp.
Proof.
  split; unfold std_ltb, Timestamp_less, timestamp_lt, microsecondsFromEpoch.
  - intros a. lia.
  - intros a b c. lia.
  - intros [a] [b]; simpl. intros. f_equal. lia.
Qed.

Lemma timestamp_lt_spec a b :
  timestamp_lt a b = true ↔ microsecondsFromEpoch_ a < microsecondsFromEpoch_ b.
Proof. apply Z.ltb_lt. Qed.

Lemma timestamp_eq_spec a b : timestamp_eq a b = true ↔ a = b.
Proof.
  unfold timestamp_eq, microsecondsFromEpoch. rewrite Z.eqb_eq.
  destruct a, b; simpl. split; [by intros -> | by intros [= ->]].
Qed.

(** ** Adding a positive interval *)
Lemma binary_round_aux_sign prec emax s m e l :
  match binary_round_aux prec emax s m e l with
  | S754_finite s' _ _ | S754_zero s' | S754_infinity s' => s' = s
  | S754_nan => True
  end.
Proof.
  unfold binary_round_aux. destruct (shr_fexp _ _ _ _ _) as [r1 e1].
  destruct (shr_fexp _ _ _ _ _) as [r2 e2]. destruct (shr_m r2); [done| |done].
  by destruct (_ <=? _).
Qed.

Lemma double_mul_nonneg d c z :
  double_ltb double_zero d = true → double_ltb double_zero c = true →
  double_to_int64 (double_mul d c) = Ok z → 0 ≤ z.
Proof.
  intros Hd Hc. unfold double_mul.
  destruct d as [| [|] | |[|] md ed]; try discriminate; destruct c as [| [|] | |[|] mc ec];
    try discriminate.
  unfold SFmul, xorb. pose proof (binary_round_aux_sign 53 1024 false (Zpos (md * mc)) (ed + ec) loc_Exact) as Hs.
  destruct (binary_round_aux _ _ _ _ _ _) as [?|?| |s m e]; [by intros [= <-]|done|done|].
  subst s. unfold double_to_int64. intros Hz. apply i64_check_inv in Hz as [-> _].
  destruct (Z.leb_spec 0 e).
  - apply Z.mul_nonneg_nonneg; [done|]. by apply Z.pow_nonneg.
  - apply Z.div_pos; [done|]. apply Z.pow_pos_nonneg; lia.
Qed.

Lemma addTime_forward now d e :
  double_ltb double_zero d = true → addTime now d = Ok e →
  microsecondsFromEpoch_ now ≤ microsecondsFromEpoch_ e ∧ in_s 64 (microsecondsFromEpoch_ e).
Proof.
  intros Hd Hrun. unfold addTime in Hrun. apply bind_Ok_inv in Hrun as (z & Hz & Hrun).
  apply bind_Ok_inv in Hrun as (r & Hr & Hrun). injection Hrun as <-.
  apply i64_check_inv in Hr as [-> Hr]. apply double_mul_nonneg in Hz; [|done|reflexivity].
  unfold microsecondsFromEpoch, in_s in *. simpl. lia.
Qed.

(** ** Properties *)

(** [toString] keeps all the information: two valid time points are printed alike only
    when they are equal (the missing zero padding of the microseconds makes the text
    unreadable as a decimal number, "1.5" for 1000005 us, but not ambiguous). *)
Theorem toString_injective (a b : Timestamp) :
  0 ≤ microsecondsFromEpoch_ a → 0 ≤ microsecondsFromEpoch_ b →
  toString a = toString b → a = b.
Proof.
  intros Ha Hb E. unfold toString in E. change (str ".") with [x2e] in E. simpl in E.
  assert (0 < kMicrosecondsPerSecond) as Hk by (vm_compute; done).
  apply digits_sep_inj in E as [E1 E2].
  - apply to_string_inj in E1, E2. destruct a as [a], b as [b]; simpl in *. f_equal.
    rewrite (Z.quot_rem' a kMicrosecondsPerSecond), E1, E2. symmetry. apply Z.quot_rem'.
  - unfold is_digit. vm_compute. intuition congruence.
  - apply to_string_digits. apply Z.quot_pos; lia.
  - apply to_string_digits. apply Z.quot_pos; lia.
Qed.

Lemma toString_injective_witness :
  toString (mkTimestamp 1000005) = str "1.5" ∧
  (toString (mkTimestamp 1500000) = str "1.5" → mkTimestamp 1500000 = mkTimestamp 1000005).
Proof.
  split; [vm_compute; reflexivity|]. intros E.
  apply (toString_injective (mkTimestamp 1500000) (mkTimestamp 1000005));
    [simpl; lia | simpl; lia |]. rewrite E. vm_compute. reflexivity.
Defined.

(** [timeDifference] is declared to return fractional seconds but truncates the
    microseconds before the conversion: whenever the two time points are less than one
    second apart the result is zero. *)
Theorem timeDifference_truncates (lhs rhs : Timestamp) :
  Z.abs (microsecondsFromEpoch_ lhs - microsecondsFromEpoch_ rhs) < kMicrosecondsPerSecond →
  timeDifference lhs rhs = Ok double_zero.
Proof.
  unfold kMicrosecondsPerSecond. intros H. unfold timeDifference, microsecondsFromEpoch.
  rewrite i64_check_ok by lia. simpl. f_equal.
  assert (Z.quot (microsecondsFromEpoch_ lhs - microsecondsFromEpoch_ rhs)
    kMicrosecondsPerSecond = 0) as ->; [|done].
  apply Z.quot_small_iff; unfold kMicrosecondsPerSecond; lia.
Qed.

Lemma timeDifference_truncates_witness :
  timeDifference (mkTimestamp 1999999) (mkTimestamp 1000000) = Ok double_zero.
Proof. apply timeDifference_truncates. vm_compute. reflexivity. Defined.
