(* ===== verification/HttpRequest.v ===== *)
(** * HttpRequest: src/ham/net/http/HttpRequest.h and HttpRequest.cc

    The request record with its setters.  A pair of pointers [start, end) into the input
    buffer is the list of bytes between them; [headers_] is the [std::map] of StdMap. *)
From S2P Require Import Prelude StdMap Timestamp.

Inductive Method := kInvalid | kGet | kPost | kHead | kPut | kDelete.
Inductive Version := kUnknown | kHttp10 | kHttp11.

#[export] Instance Method_eq_dec : EqDecision Method.
Proof. solve_decision. Defined.
#[export] Instance Version_eq_dec : EqDecision Version.
Proof. solve_decision. Defined.

Record HttpRequest := mkHttpRequest {
  method_ : Method;
  version_ : Version;
  receiveTime_ : Timestamp;
  path_ : list byte;
  query_ : list byte;
  body_ : list byte;
  headers_ : list (list byte * list byte)
}.

Definition HttpRequest_new : HttpRequest :=
  mkHttpRequest kInvalid kUnknown (mkTimestamp 0) [] [] [] [].

Definition setVersion (r : HttpRequest) (v : Version) : HttpRequest :=
  mkHttpRequest (method_ r) v (receiveTime_ r) (path_ r) (query_ r) (body_ r) (headers_ r).
Definition setReceiveTime (r : HttpRequest) (t : Timestamp) : HttpRequest :=
  mkHttpRequest (method_ r) (version_ r) t (path_ r) (query_ r) (body_ r) (headers_ r).
Definition setPath (r : HttpRequest) (p : list byte) : HttpRequest :=
  mkHttpRequest (method_ r) (version_ r) (receiveTime_ r) p (query_ r) (body_ r) (headers_ r).
Definition setQuery (r : HttpRequest) (q : list byte) : HttpRequest :=
  mkHttpRequest (method_ r) (version_ r) (receiveTime_ r) (path_ r) q (body_ r) (headers_ r).
Definition setBody (r : HttpRequest) (b : list byte) : HttpRequest :=
  mkHttpRequest (method_ r) (version_ r) (receiveTime_ r) (path_ r) (query_ r) b (headers_ r).
Definition set_method (r : HttpRequest) (m : Method) : HttpRequest :=
  mkHttpRequest m (version_ r) (receiveTime_ r) (path_ r) (query_ r) (body_ r) (headers_ r).
Definition set_headers (r : HttpRequest) (h : list (list byte * list byte)) : HttpRequest :=
  mkHttpRequest (method_ r) (version_ r) (receiveTime_ r) (path_ r) (query_ r) (body_ r) h.

Definition methodToString (r : HttpRequest) : list byte :=
  match method_ r with
  | kGet => str "GET"
  | kPost => str "POST"
  | kHead => str "HEAD"
  | kPut => str "PUT"
  | kDelete => str "DELETE"
  | kInvalid => str "UNKNOWN"
  end.

Definition method_of (m : list byte) : Method :=
  if decide (m = str "GET") then kGet
  else if decide (m = str "POST") then kPost
  else if decide (m = str "HEAD") then kHead
  else if decide (m = str "PUT") then kPut
  else if decide (m = str "DELETE") then kDelete
  else kInvalid.

Definition setMethod (r : HttpRequest) (m : list byte) : outcome (HttpRequest * bool) :=
  assert_ (bool_decide (method_ r = kInvalid));;
  let r' := set_method r (method_of m) in
  Ok (r', negb (bool_decide (method_ r' = kInvalid))).

(** [isspace] of <ctype.h> in the C locale. *)
Definition isspace (b : byte) : bool :=
  match b with x20 | x09 | x0a | x0b | x0c | x0d => true | _ => false end.

(** [while (cur < end && isspace( *cur)) ++cur;] *)
Fixpoint skip_spaces (l : list byte) : list byte :=
  match l with
  | b :: l' => if isspace b then skip_spaces l' else l
  | [] => []
  end.

(** [while (!value.empty() && isspace(value.back())) value.resize(value.size() - 1);] *)
Definition trim_back (l : list byte) : list byte := rev (skip_spaces (rev l)).

(** The line is [start, end); [colon] is the offset of the colon. *)
Definition addHeader (r : HttpRequest) (line : list byte) (colon : nat) : HttpRequest :=
  let field := take colon line in
  let value := trim_back (skip_spaces (drop (S colon) line)) in
  set_headers r (map_set field value (headers_ r)).

Definition getHeader (r : HttpRequest) (field : list byte) : list byte :=
  match map_find field (headers_ r) with Some v => v | None => [] end.

(** [swap] exchanges neither [query_] nor [body_]. *)
Definition swap (this that : HttpRequest) : HttpRequest * HttpRequest :=
  (mkHttpRequest (method_ that) (version_ that) (receiveTime_ that) (path_ that)
     (query_ this) (body_ this) (headers_ that),
   mkHttpRequest (method_ this) (version_ this) (receiveTime_ this) (path_ this)
     (query_ that) (body_ that) (headers_ this)).

(** ** Lemmas *)
Lemma method_of_toString m :
  m ≠ kInvalid → method_of (methodToString (set_method HttpRequest_new m)) = m.
Proof. by destruct m. Qed.

Lemma method_of_valid m : method_of m ≠ kInvalid → m = methodToString (set_method HttpRequest_new (method_of m)).
Proof. unfold method_of. repeat case_decide; simplify_eq; done. Qed.

(** A method name holds none of the characters that separate the parts of a line. *)
Lemma methodToString_clean r (c : byte) :
  c = x20 ∨ c = x0d ∨ c = x3a → c ∉ methodToString r.
Proof.
  intros Hc Hin. unfold methodToString in Hin.
  assert (∀ l : list byte, c ∈ l → bool_decide (c ∈ l) = true) as Hb
    by (intros; by apply bool_decide_eq_true).
  apply Hb in Hin. destruct Hc as [-> | [-> | ->]]; destruct (method_ r); vm_compute in Hin; done.
Qed.

Lemma skip_spaces_pad (n : nat) (l : list byte) :
  skip_spaces (replicate n x20 ++ l) = skip_spaces l.
Proof. induction n; simpl; auto. Qed.

(** A value that neither starts nor ends with white space. *)
Definition trimmed (l : list byte) : Prop :=
  match l with [] => True | b :: _ => isspace b = false end ∧
  match rev l with [] => True | b :: _ => isspace b = false end.

Lemma skip_spaces_trimmed (l r : list byte) :
  trimmed l → l ≠ [] → skip_spaces (l ++ r) = l ++ r.
Proof. destruct l as [|b l]; [done|]. intros [Hb _] _. simpl. by rewrite Hb. Qed.

Lemma skip_spaces_all (n : nat) : skip_spaces (replicate n x20) = [].
Proof. induction n; simpl; auto. Qed.

Lemma rev_replicate_byte (n : nat) (b : byte) : rev (replicate n b) = replicate n b.
Proof.
  induction n as [|n IH]; [done|]. simpl rev. rewrite IH.
  change [b] with (replicate 1 b). rewrite <- replicate_add. f_equal. lia.
Qed.

(** Padding around a header value is removed, the value is kept. *)
Lemma trim_padded (n m : nat) (v : list byte) :
  trimmed v →
  trim_back (skip_spaces (replicate n x20 ++ v ++ replicate m x20)) = v.
Proof.
  intros Hv. rewrite skip_spaces_pad. destruct (decide (v = [])) as [->|Hne].
  - simpl. by rewrite skip_spaces_all.
  - rewrite skip_spaces_trimmed by done. unfold trim_back. rewrite rev_app_distr.
    rewrite rev_replicate_byte, skip_spaces_pad.
    destruct Hv as [_ Hv]. destruct (rev v) as [|b l] eqn:E; simpl.
    + apply (f_equal (@rev byte)) in E. rewrite rev_involutive in E. done.
    + rewrite Hv, <- E. apply rev_involutive.
Qed.

Lemma getHeader_set r f v f' :
  map_sorted (headers_ r) →
  getHeader (set_headers r (map_set f v (headers_ r))) f' =
  if decide (f' = f) then v else getHeader r f'.
Proof.
  intros Hs. unfold getHeader. simpl. case_decide as E.
  - subst. by rewrite map_find_set_eq.
  - by rewrite map_find_set_ne.
Qed.
