(* ===== verification/HttpContext.v ===== *)
(** * HttpContext: src/ham/net/http/HttpContext.h and HttpContext.cc

    The request parser: a state machine over the input buffer.  The [while (hasMore)] loop
    is a fuelled iteration; [parse_fuel] is enough for every state but [kGotAll], where the
    loop body does nothing and the loop never ends ([parseRequest_gotAll_diverges]). *)
From S2P Require Import Prelude StdMap Timestamp Buffer HttpRequest.

Inductive ParseState := kExpectRequestLine | kExpectHeaders | kExpectBody | kGotAll.

#[export] Instance ParseState_eq_dec : EqDecision ParseState.
Proof. solve_decision. Defined.

Record HttpContext := mkHttpContext {
  request_ : HttpRequest;
  parseState_ : ParseState
}.

Definition HttpContext_new : HttpContext := mkHttpContext HttpRequest_new kExpectRequestLine.
Definition gotAll (c : HttpContext) : bool := bool_decide (parseState_ c = kGotAll).

Definition set_request (c : HttpContext) (r : HttpRequest) : HttpContext :=
  mkHttpContext r (parseState_ c).
Definition set_parseState (c : HttpContext) (s : ParseState) : HttpContext :=
  mkHttpContext (request_ c) s.

(** [reset] swaps the request with a fresh one; [parseState_] stays. *)
Definition reset (c : HttpContext) : HttpContext :=
  let '(r, _) := HttpRequest.swap (request_ c) HttpRequest_new in set_request c r.

(** [std::find] from offset [start] of the line. *)
Definition find_from (b : byte) (start : Z) (l : list byte) : Z :=
  start + Z.of_nat (std_find b l).

(** [line] is [begin, end); pointers are offsets from [begin].  The local string
    [s(start, end - 1)] is constructed before the length test. *)
Definition parseRequestLine (c : HttpContext) (line : list byte)
    : outcome (HttpContext * bool) :=
  let end_ := zlen line in
  let space := find_from x20 0 line in
  if space =? end_ then Ok (c, false)
  else
    '(r1, ok) ← setMethod (request_ c) (slice 0 space line);
    if negb ok then Ok (set_request c r1, false)
    else
      let start := space + 1 in
      let space := find_from x20 start (slice start end_ line) in
      let r2 :=
        if space =? end_ then r1
        else
          let question := find_from x3f start (slice start space line) in
          let r := if question =? space then r1
                   else setQuery r1 (slice (question + 1) space line) in
          setPath r (slice start question line) in
      let start := space + 1 in
      if end_ - 1 <? start then Err InvalidRange
      else if (end_ - start =? 8) && bool_decide (slice start (end_ - 1) line = str "HTTP/1.")
      then
        v ← read_at (end_ - 1) line;
        if decide (v = x30) then Ok (set_request c (setVersion r2 kHttp10), true)
        else if decide (v = x31) then Ok (set_request c (setVersion r2 kHttp11), true)
        else Ok (set_request c r2, false)
      else Ok (set_request c r2, false).

(** The variables of the loop. *)
Record loop_state := mkLoop {
  ls_context : HttpContext;
  ls_buffer : Buffer;
  ls_hasMore : bool;
  ls_ok : bool   (* okWithRequestLine *)
}.

(** One pass through the loop body: the next state, or the value of the early [return]. *)
Definition parse_iteration (receiveTime : Timestamp) (st : loop_state)
    : outcome (loop_state + HttpContext * Buffer * bool) :=
  let '(mkLoop c buf hasMore ok) := st in
  match parseState_ c with
  | kExpectRequestLine =>
      crlf ← findCRLF buf;
      match crlf with
      | None => Ok (inr (c, buf, false))
      | Some crlf =>
          line ← read_range (peek buf) crlf (buffer_ buf);
          '(c1, ok) ← parseRequestLine c line;
          if (ok : bool) then
            let c2 := set_request c1 (setReceiveTime (request_ c1) receiveTime) in
            buf' ← retrieveUtil buf (crlf + 2);
            Ok (inl (mkLoop (set_parseState c2 kExpectHeaders) buf' hasMore ok))
          else Ok (inl (mkLoop c1 buf false ok))
      end
  | kExpectHeaders =>
      crlf ← findCRLF buf;
      match crlf with
      | Some crlf =>
          line ← read_range (peek buf) crlf (buffer_ buf);
          let colon := std_find x3a line in
          let c1 :=
            if decide (colon = length line) then set_parseState c kExpectBody
            else set_request c (addHeader (request_ c) line colon) in
          buf' ← retrieveUtil buf (crlf + 2);
          Ok (inl (mkLoop c1 buf' hasMore ok))
      | None => Ok (inl (mkLoop c buf false ok))
      end
  | kExpectBody =>
      '(s, buf') ← retrieveAllAsString buf;
      Ok (inl (mkLoop (set_parseState (set_request c (setBody (request_ c) s)) kGotAll)
        buf' false ok))
  | kGotAll => Ok (inl st)
  end.

Fixpoint parse_loop (fuel : nat) (receiveTime : Timestamp) (st : loop_state)
    : outcome (HttpContext * Buffer * bool) :=
  if ls_hasMore st then
    match fuel with
    | O => Err OutOfFuel
    | S fuel' =>
        r ← parse_iteration receiveTime st;
        match r with
        | inl st' => parse_loop fuel' receiveTime st'
        | inr res => Ok res
        end
    end
  else Ok (ls_context st, ls_buffer st, ls_ok st).

Definition parseRequest_fuel (fuel : nat) (c : HttpContext) (inputBuffer : Buffer)
    (receiveTime : Timestamp) : outcome (HttpContext * Buffer * bool) :=
  parse_loop fuel receiveTime (mkLoop c inputBuffer true true).

(** Each pass over a line consumes at least two bytes; the body takes one more pass. *)
Definition parse_fuel (buf : Buffer) : nat := S (S (Z.to_nat (readableBytes buf))).

Definition parseRequest (c : HttpContext) (inputBuffer : Buffer) (receiveTime : Timestamp)
    : outcome (HttpContext * Buffer * bool) :=
  parseRequest_fuel (parse_fuel inputBuffer) c inputBuffer receiveTime.

(** ** The parser on the readable bytes

    The same machine without pointers: [next_line] cuts the text at the first CRLF. *)
Definition next_line (q : list byte) : option (list byte * list byte) :=
  let n := std_search kCRLF q in
  if decide (n = length q) then None else Some (take n q, drop (n + 2) q).

Definition header_line (c : HttpContext) (line : list byte) : HttpContext :=
  let colon := std_find x3a line in
  if decide (colon = length line) then set_parseState c kExpectBody
  else set_request c (addHeader (request_ c) line colon).

Definition text_state : Type := HttpContext * list byte * bool * bool.

Definition text_iteration (t : Timestamp) (st : text_state)
    : outcome (text_state + HttpContext * list byte * bool) :=
  let '(c, q, hasMore, ok) := st in
  match parseState_ c with
  | kExpectRequestLine =>
      match next_line q with
      | None => Ok (inr (c, q, false))
      | Some (line, rest) =>
          '(c1, ok) ← parseRequestLine c line;
          if (ok : bool) then
            Ok (inl (set_parseState (set_request c1 (setReceiveTime (request_ c1) t))
              kExpectHeaders, rest, hasMore, ok))
          else Ok (inl (c1, q, false, ok))
      end
  | kExpectHeaders =>
      match next_line q with
      | Some (line, rest) => Ok (inl (header_line c line, rest, hasMore, ok))
      | None => Ok (inl (c, q, false, ok))
      end
  | kExpectBody =>
      Ok (inl (set_parseState (set_request c (setBody (request_ c) q)) kGotAll, [], false, ok))
  | kGotAll => Ok (inl st)
  end.

Arguments parse_iteration : simpl never.
Arguments text_iteration : simpl never.

Fixpoint text_loop (fuel : nat) (t : Timestamp) (st : text_state)
    : outcome (HttpContext * list byte * bool) :=
  let '(c, q, hasMore, ok) := st in
  if hasMore then
    match fuel with
    | O => Err OutOfFuel
    | S fuel' =>
        r ← text_iteration t st;
        match r with inl st' => text_loop fuel' t st' | inr res => Ok res end
    end
  else Ok (c, q, ok).

(** The buffer of the code and the text of the reference parser. *)
Definition repr (b : Buffer) (q : list byte) : Prop := wf b ∧ content b = q.

Definition loop_repr (ls : loop_state) (st : text_state) : Prop :=
  let '(c, q, hasMore, ok) := st in
  ls_context ls = c ∧ repr (ls_buffer ls) q ∧ ls_hasMore ls = hasMore ∧ ls_ok ls = ok.

Definition result_repr (r : HttpContext * Buffer * bool) (s : HttpContext * list byte * bool)
    : Prop :=
  let '(c, b, res) := r in let '(c', q, res') := s in c = c' ∧ repr b q ∧ res = res'.

(** Two outcomes agree: the same fault, or related results. *)
Definition outcome_rel {A B} (R : A → B → Prop) (m : outcome A) (m' : outcome B) : Prop :=
  match m, m' with
  | Ok a, Ok b => R a b
  | Err f, Err f' => f = f'
  | _, _ => False
  end.

Arguments outcome_rel : simpl never.

Lemma outcome_rel_bind {A B A' B'} (R : A → B → Prop) (S : A' → B' → Prop) m m' k k' :
  outcome_rel R m m' → (∀ a b, R a b → outcome_rel S (k a) (k' b)) →
  outcome_rel S (m ≫= k) (m' ≫= k').
Proof. intros H Hk. destruct m, m'; try done. by apply Hk. Qed.

Lemma outcome_rel_returns {A B C} (R : B → C → Prop) (m : outcome A) (k : A → outcome B) m' :
  returns m (λ a, outcome_rel R (k a) m') → outcome_rel R (m ≫= k) m'.
Proof. by destruct m. Qed.

(** Reading the line up to the CRLF that [findCRLF] found. *)
Lemma read_line b q :
  repr b q →
  match findCRLF b, next_line q with
  | Ok None, None => True
  | Ok (Some p), Some (line, rest) =>
      read_range (peek b) p (buffer_ b) = Ok line ∧
      returns (retrieveUtil b (p + 2)) (λ b', repr b' rest)
  | _, _ => False
  end.
Proof.
  intros [Hwf <-]. rewrite findCRLF_spec by done. unfold next_line. cbv zeta.
  pose proof (std_search_le kCRLF (content b)) as Hle.
  case_decide as Hn; [done|]. set (n := std_search kCRLF (content b)) in *.
  assert (n < length (content b))%nat as Hlt by lia.
  pose proof (prefix_length _ _ (std_search_found _ _ Hlt)) as Hpl.
  rewrite length_drop in Hpl. fold n in Hpl. change (length kCRLF) with 2%nat in Hpl.
  pose proof (content_bound b Hwf) as Hcb. unfold zlen in Hcb. split.
  - rewrite read_range_ok by buffer_arith. f_equal. unfold content, peek.
    rewrite <- (Nat2Z.id n) at 2. rewrite take_slice by buffer_arith. done.
  - eapply returns_mono; [apply retrieveUtil_spec; [done | buffer_arith]|].
    intros b' (?&Hc&_). split; [done|]. rewrite Hc. f_equal. lia.
Qed.

(** A successful pass hands the same context, text and flags to the next one. *)
Definition step_repr (r : loop_state + HttpContext * Buffer * bool)
    (s : text_state + HttpContext * list byte * bool) : Prop :=
  match r, s with
  | inl ls, inl st => loop_repr ls st
  | inr x, inr y => result_repr x y
  | _, _ => False
  end.

Lemma parse_iteration_repr t ls st :
  loop_repr ls st →
  outcome_rel step_repr (parse_iteration t ls) (text_iteration t st).
Proof.
  destruct ls as [c b h ok], st as [[[c' q] h'] ok']. intros (Hc & Hq & Hh & Ho). simpl in *.
  subst. pose proof (read_line b q Hq) as Hline. unfold parse_iteration, text_iteration.
  destruct (parseState_ c').
  - destruct (findCRLF b) as [[p|]|], (next_line q) as [[line rest]|]; try done.
    destruct Hline as [E Hret]. ok_simpl. rewrite E. ok_simpl.
    destruct (parseRequestLine c' line) as [[c1 []]|f]; ok_simpl; try done.
    apply outcome_rel_returns. eapply returns_mono; [exact Hret|]. done.
  - destruct (findCRLF b) as [[p|]|], (next_line q) as [[line rest]|]; try done.
    destruct Hline as [E Hret]. ok_simpl. rewrite E. ok_simpl.
    apply outcome_rel_returns. eapply returns_mono; [exact Hret|]. done.
  - destruct Hq as [Hwf <-]. apply outcome_rel_returns.
    eapply returns_mono; [by apply retrieveAllAsString_spec|].
    intros [s b'] (?&->&?&?). done.
  - done.
Qed.

Lemma parse_loop_repr fuel t ls st :
  loop_repr ls st → outcome_rel result_repr (parse_loop fuel t ls) (text_loop fuel t st).
Proof.
  revert ls st. induction fuel as [|fuel IH]; intros [c b h ok] [[[c' q] h'] ok'];
    intros (? & ? & ? & ?); simpl in *; subst; destruct h'; try done.
  apply (outcome_rel_bind step_repr); [by apply parse_iteration_repr|].
  intros [ls|x] [st|y]; simpl; try done. intros. by apply IH.
Qed.

(** The code's parser is the reference parser on the readable bytes. *)
Lemma parseRequest_repr fuel c b q t :
  repr b q →
  outcome_rel result_repr (parseRequest_fuel fuel c b t) (text_loop fuel t (c, q, true, true)).
Proof. intros Hq. by apply parse_loop_repr. Qed.

(** ** Termination *)
Lemma next_line_shorter q line rest :
  next_line q = Some (line, rest) → (length rest + 2 ≤ length q)%nat.
Proof.
  unfold next_line. case_decide as Hn; [done|]. intros [= _ <-].
  pose proof (std_search_le kCRLF q).
  assert (std_search kCRLF q < length q)%nat as Hlt by lia.
  pose proof (prefix_length _ _ (std_search_found _ _ Hlt)) as Hpl.
  rewrite length_drop in *. change (length kCRLF) with 2%nat in Hpl. lia.
Qed.

Lemma header_line_state c line :
  parseState_ c = kExpectHeaders →
  parseState_ (header_line c line) = kExpectHeaders ∨
  parseState_ (header_line c line) = kExpectBody.
Proof. unfold header_line. case_decide; simpl; auto. Qed.

Lemma setMethod_request r m r' ok :
  setMethod r m = Ok (r', ok) →
  method_ r = kInvalid ∧ r' = set_method r (method_of m) ∧
  ok = negb (bool_decide (method_of m = kInvalid)).
Proof.
  unfold setMethod. intros H. outcome_inv. apply bool_decide_eq_true in H. done.
Qed.

Lemma parseRequestLine_state c line c' ok :
  parseRequestLine c line = Ok (c', ok) → parseState_ c' = parseState_ c.
Proof.
  unfold parseRequestLine. destruct (_ =? _); [by intros [= <- _]|]. intros H.
  apply bind_Ok_inv in H as ([r1 []] & _ & H); simpl in H; [|by injection H as <- _].
  destruct (_ <? _); [done|]. destruct (_ && _); [|by injection H as <- _].
  apply bind_Ok_inv in H as (v & _ & H).
  repeat case_decide; by injection H as <- _.
Qed.

(** A pass either stops the loop or shortens the text. *)
Lemma text_iteration_progress t c q ok st' :
  parseState_ c ≠ kGotAll →
  text_iteration t (c, q, true, ok) = Ok (inl st') →
  let '(c', q', h', _) := st' in
  h' = false ∨ (parseState_ c' ≠ kGotAll ∧ (length q' + 2 ≤ length q)%nat).
Proof.
  intros Hc. unfold text_iteration. destruct (parseState_ c) eqn:Es; [| | |done].
  - destruct (next_line q) as [[line rest]|] eqn:El; [|done]. intros H.
    apply bind_Ok_inv in H as ([c1 []] & _ & H); simpl in H; injection H as <-; [|by left].
    right. split; [done | by eapply next_line_shorter].
  - destruct (next_line q) as [[line rest]|] eqn:El; intros [= <-]; [|by left]. right.
    split; [|by eapply next_line_shorter].
    destruct (header_line_state c line Es) as [-> | ->]; done.
  - intros [= <-]. by left.
Qed.

Lemma text_iteration_fault t st : text_iteration t st ≠ Err OutOfFuel.
Proof.
  destruct st as [[[c q] h] ok]. unfold text_iteration. destruct (parseState_ c); try done.
  - destruct (next_line q) as [[line rest]|]; [|done].
    destruct (parseRequestLine c line) as [[c1 []]|f] eqn:E; simpl; try done.
    intros [= ->]. revert E. unfold parseRequestLine, setMethod, assert_, read_at.
    repeat (case_match; simpl); done.
  - by destruct (next_line q) as [[line rest]|].
Qed.

Lemma text_loop_enough fuel t c q ok :
  parseState_ c ≠ kGotAll → (length q + 2 ≤ fuel)%nat →
  text_loop fuel t (c, q, true, ok) ≠ Err OutOfFuel ∧
  ∀ more, text_loop (fuel + more) t (c, q, true, ok) = text_loop fuel t (c, q, true, ok).
Proof.
  revert c q ok. induction fuel as [|fuel IH]; intros c q ok Hc Hf; [lia|].
  cbn [text_loop Nat.add].
  pose proof (text_iteration_fault t (c, q, true, ok)) as Hfault.
  destruct (text_iteration t (c, q, true, ok)) as [[st'|res]|f] eqn:E; simpl; try done.
  - pose proof (text_iteration_progress t c q ok st' Hc E) as Hp.
    destruct st' as [[[c' q'] h'] ok']. destruct Hp as [->|[Hc' Hlen]].
    + split; [by destruct fuel | intros; by destruct fuel; destruct more].
    + destruct h'; [apply IH; [done | lia]|].
      split; [by destruct fuel | intros; by destruct fuel; destruct more].
  - split; [congruence | done].
Qed.

Lemma parse_loop_more n more t ls :
  parse_loop n t ls ≠ Err OutOfFuel → parse_loop (n + more) t ls = parse_loop n t ls.
Proof.
  revert ls. induction n as [|n IH]; intros ls; simpl.
  { destruct more; simpl; by destruct (ls_hasMore ls). }
  destruct (ls_hasMore ls); [|done].
  destruct (parse_iteration t ls) as [[ls'|]|]; simpl; try done. apply IH.
Qed.

Lemma outcome_rel_fault {A B} (R : A → B → Prop) m m' f :
  outcome_rel R m m' → m' ≠ Err f → m ≠ Err f.
Proof. destruct m, m'; cbv; congruence. Qed.

Lemma parse_fuel_content buf :
  wf buf → (length (content buf) + 2 ≤ parse_fuel buf)%nat.
Proof. intros. unfold parse_fuel. rewrite <- zlen_content by done. unfold zlen. lia. Qed.

(** C14: the parser's loop ends.  In every state but [kGotAll] the loop of [parseRequest]
    finishes within [parse_fuel] passes: it returns a result or stops in a fault of the
    code, and running it longer changes nothing. *)
Theorem parseRequest_terminates (c : HttpContext) (buf : Buffer) (t : Timestamp) :
  wf buf → parseState_ c ≠ kGotAll →
  parseRequest c buf t ≠ Err OutOfFuel ∧
  ∀ more, parseRequest_fuel (parse_fuel buf + more) c buf t = parseRequest c buf t.
Proof.
  intros Hwf Hc.
  destruct (text_loop_enough (parse_fuel buf) t c (content buf) true Hc
    (parse_fuel_content buf Hwf)) as [Hne _].
  assert (parseRequest c buf t ≠ Err OutOfFuel) as Hne'.
  { eapply outcome_rel_fault; [|exact Hne]. by apply parseRequest_repr. }
  split; [done|]. intros more. by apply parse_loop_more.
Qed.

Lemma parseRequest_terminates_witness :
  wf Buffer_new ∧ parseRequest HttpContext_new Buffer_new invalid ≠ Err OutOfFuel.
Proof.
  split; [exact wf_new|].
  apply (parseRequest_terminates HttpContext_new Buffer_new invalid wf_new). discriminate.
Defined.

(** a context that has got all of a request must not be used again.  From [kGotAll] the
    loop never ends, whatever the input; and [reset], which prepares the context for the
    next request of a persistent connection, keeps the state [kGotAll], and keeps the old
    query and body besides. *)
Theorem parseRequest_gotAll_diverges (c : HttpContext) (buf : Buffer) (t : Timestamp) :
  parseState_ c = kGotAll →
  parseState_ (reset c) = kGotAll ∧
  query_ (request_ (reset c)) = query_ (request_ c) ∧
  body_ (request_ (reset c)) = body_ (request_ c) ∧
  ∀ fuel, parseRequest_fuel fuel c buf t ↯ OutOfFuel.
Proof.
  intros Hc. split_and!; [done..|]. unfold parseRequest_fuel.
  induction fuel as [|fuel IH]; [done|]. simpl. unfold parse_iteration. by rewrite Hc.
Qed.

Definition spent_context : HttpContext := set_parseState HttpContext_new kGotAll.

Lemma parseRequest_gotAll_diverges_witness :
  parseState_ (reset spent_context) = kGotAll ∧
  query_ (request_ (reset spent_context)) = query_ (request_ spent_context) ∧
  body_ (request_ (reset spent_context)) = body_ (request_ spent_context) ∧
  ∀ fuel, parseRequest_fuel fuel spent_context Buffer_new invalid ↯ OutOfFuel.
Proof.
  apply (parseRequest_gotAll_diverges spent_context Buffer_new invalid). reflexivity.
Defined.
