(* ===== verification/UnitTests.v ===== *)
(** * UnitTests: src/ham/net/tests/Buffer_unittest.cc and src/ham/net/http/tests/HttpRequest_unittest.cc

    The unit tests of the program, run on the model: a test is the list of the lines whose
    expectation fails, so a test passes when it returns the empty list. *)
From S2P Require Import Prelude Endian Buffer Timestamp HttpRequest HttpContext.

(** EXPECT_EQ at a line: it does not stop the test. *)
Definition expect (line : Z) (ok : bool) : list Z := if ok then [] else [line].
Definition expect_Z (line x y : Z) : list Z := expect line (x =? y).
Definition expect_str (line : Z) (x y : list byte) : list Z := expect line (bool_decide (x = y)).
Definition expect_bool (line : Z) (x y : bool) : list Z := expect line (Bool.eqb x y).

(** Three expectations that most tests repeat. *)
Definition expect_sizes (line : Z) (b : Buffer) (readable writable prependable : Z) : list Z :=
  expect_Z line (readableBytes b) readable ++ expect_Z (line + 1) (writableBytes b) writable ++
  expect_Z (line + 2) (prependableBytes b) prependable.

Definition chars (n : Z) (c : byte) : list byte := replicate (Z.to_nat n) c.
Definition chr (c : byte) : Z := byte_val c.

Definition testBufferAppendRetrieve : outcome (list Z) :=
  buf ← Buffer_ctor;
  let e1 := expect_sizes 10 buf 0 kInitialSize kCheapPrepend in
  let str := chars 200 "x"%byte in
  buf ← append buf str;
  let e2 := expect_sizes 15 buf (zlen str) (kInitialSize - zlen str) kCheapPrepend in
  '(str2, buf) ← retrieveAsString buf 50;
  let e3 := expect_Z 20 (zlen str2) 50 ++
    expect_sizes 21 buf (zlen str - zlen str2) (kInitialSize - zlen str) (kCheapPrepend + zlen str2) in
  buf ← append buf str;
  let e4 := expect_sizes 26 buf (2 * zlen str - zlen str2) (kInitialSize - 2 * zlen str) (kCheapPrepend + zlen str2) in
  '(str3, buf) ← retrieveAllAsString buf;
  let e5 := expect_Z 31 (zlen str3) 350 ++ expect_sizes 32 buf 0 kInitialSize kCheapPrepend ++
    expect_str 35 str3 (chars 350 "x"%byte) in
  Ok (e1 ++ e2 ++ e3 ++ e4 ++ e5).

Definition testBufferGrow : outcome (list Z) :=
  buf ← Buffer_ctor;
  buf ← append buf (chars 400 "y"%byte);
  let e1 := expect_Z 41 (readableBytes buf) 400 ++ expect_Z 42 (writableBytes buf) (kInitialSize - 400) in
  buf ← retrieve buf 50;
  let e2 := expect_sizes 45 buf 350 (kInitialSize - 400) (kCheapPrepend + 50) in
  buf ← append buf (chars 1000 "z"%byte);
  let e3 := expect_sizes 50 buf 1350 0 (kCheapPrepend + 50) in
  let buf := retrieveAll buf in
  let e4 := expect_sizes 55 buf 0 1400 kCheapPrepend in
  Ok (e1 ++ e2 ++ e3 ++ e4).

Definition testBufferInsideGrow : outcome (list Z) :=
  buf ← Buffer_ctor;
  buf ← append buf (chars 800 "y"%byte);
  let e1 := expect_Z 64 (readableBytes buf) 800 ++ expect_Z 65 (writableBytes buf) (kInitialSize - 800) in
  buf ← retrieve buf 500;
  let e2 := expect_sizes 68 buf 300 (kInitialSize - 800) (kCheapPrepend + 500) in
  buf ← append buf (chars 300 "z"%byte);
  let e3 := expect_sizes 73 buf 600 (kInitialSize - 600) kCheapPrepend in
  Ok (e1 ++ e2 ++ e3).

Definition testBufferShrink : outcome (list Z) :=
  buf ← Buffer_ctor;
  buf ← append buf (chars 2000 "y"%byte);
  let e1 := expect_sizes 81 buf 2000 0 kCheapPrepend in
  buf ← retrieve buf 1500;
  let e2 := expect_sizes 86 buf 500 0 (kCheapPrepend + 1500) in
  buf ← shrink buf 0;
  let e3 := expect_Z 91 (readableBytes buf) 500 ++ expect_Z 92 (writableBytes buf) (kInitialSize - 500) in
  '(s, buf) ← retrieveAllAsString buf;
  Ok (e1 ++ e2 ++ e3 ++ expect_str 93 s (chars 500 "y"%byte) ++ expect_Z 94 (prependableBytes buf) kCheapPrepend).

Definition testBufferPrepend : outcome (list Z) :=
  buf ← Buffer_ctor;
  buf ← append buf (chars 200 "y"%byte);
  let e1 := expect_sizes 101 buf 200 (kInitialSize - 200) kCheapPrepend in
  buf ← prepend buf (chars 4 x00);
  let e2 := expect_sizes 107 buf 204 (kInitialSize - 200) (kCheapPrepend - 4) in
  Ok (e1 ++ e2).

Definition testBufferReadInt (host : byte_order) : outcome (list Z) :=
  buf ← Buffer_ctor;
  buf ← append buf (str "HTTP");
  i8 ← peekInt8 buf;
  top16 ← peekInt16 host buf;
  i32 ← peekInt32 host buf;
  let e1 := expect_Z 117 (readableBytes buf) 4 ++ expect_Z 118 i8 (chr "H"%byte) ++
    expect_Z 120 top16 (chr "H"%byte * 256 + chr "T"%byte) ++
    expect_Z 121 i32 (top16 * 256 * 256 + chr "T"%byte * 256 + chr "P"%byte) in
  '(a, buf) ← readInt8 buf;
  '(b, buf) ← readInt16 host buf;
  '(c, buf) ← readInt8 buf;
  let e2 := expect_Z 123 a (chr "H"%byte) ++ expect_Z 124 b (chr "T"%byte * 256 + chr "T"%byte) ++
    expect_Z 125 c (chr "P"%byte) ++ expect_Z 126 (readableBytes buf) 0 ++ expect_Z 127 (writableBytes buf) kInitialSize in
  buf ← appendInt8 host buf (-1);
  buf ← appendInt16 host buf (-2);
  buf ← appendInt32 host buf (-3);
  let e3 := expect_Z 132 (readableBytes buf) 7 in
  '(a, buf) ← readInt8 buf;
  '(b, buf) ← readInt16 host buf;
  '(c, buf) ← readInt32 host buf;
  Ok (e1 ++ e2 ++ e3 ++ expect_Z 133 a (-1) ++ expect_Z 134 b (-2) ++ expect_Z 135 c (-3)).

(** The test looks 90000 bytes into 100000; the sizes are a parameter here. *)
Definition testBufferFindEOL (size offset : Z) : outcome (list Z) :=
  buf ← Buffer_ctor;
  buf ← append buf (chars size "x"%byte);
  a ← findEOL buf;
  b ← findEOL_from buf (peek buf + offset);
  Ok (expect 141 (bool_decide (a = None)) ++ expect 142 (bool_decide (b = None))).

(** ** HttpRequest_unittest.cc *)
Definition index_text : list byte := str "GET /index.html HTTP/1.1" ++ CRLF ++ str "Host: www.chenshuo.com" ++ CRLF ++ CRLF.

(** What every test expects of the request. *)
Definition expect_request (line : Z) (c : HttpContext) : list Z :=
  let r := request_ c in
  expect line (bool_decide (method_ r = kGet)) ++ expect_str (line + 1) (path_ r) (str "/index.html") ++
  expect (line + 2) (bool_decide (version_ r = kHttp11)) ++
  expect_str (line + 3) (getHeader r (str "Host")) (str "www.chenshuo.com") ++
  expect_str (line + 4) (getHeader r (str "User-Agent")) [].

Definition testParseRequestAllInOne (now : Timestamp) : outcome (list Z) :=
  input ← Buffer_ctor;
  input ← append input index_text;
  '(context, _, ok) ← parseRequest HttpContext_new input now;
  Ok (expect_bool 16 ok true ++ expect_bool 17 (gotAll context) true ++ expect_request 19 context).

(** One turn of the loop: the request is cut after [sz1] bytes. *)
Definition in_two_pieces (now : Timestamp) (sz1 : nat) : outcome (list Z) :=
  let all := index_text in
  let context := HttpContext_new in
  input ← Buffer_ctor;
  input ← append input (take sz1 all);
  '(context, input, e1) ←
    (if (sz1 <=? 25)%nat
     then '(context, input, ok) ← parseRequest context input now; Ok (context, input, expect_bool 40 ok false)
     else Ok (context, input, []));
  let e2 := expect_bool 42 (negb (gotAll context)) true in
  input ← append input (drop sz1 all);
  '(context, _, ok) ← parseRequest context input now;
  Ok (e1 ++ e2 ++ expect_bool 46 ok true ++ expect_bool 47 (gotAll context) true ++ expect_request 49 context).

Fixpoint for_each_cut (f : nat → outcome (list Z)) (sizes : list nat) : outcome (list Z) :=
  match sizes with [] => Ok [] | n :: ns => e ← f n; es ← for_each_cut f ns; Ok (e ++ es) end.

Definition testParseRequestInTwoPieces (now : Timestamp) : outcome (list Z) :=
  for_each_cut (in_two_pieces now) (seq 0 (length index_text)).

Definition testParseRequestEmptyHeaderValue (now : Timestamp) : outcome (list Z) :=
  input ← Buffer_ctor;
  input ← append input (str "GET /index.html HTTP/1.1" ++ CRLF ++ str "Host: www.chenshuo.com" ++ CRLF ++
    str "User-Agent:" ++ CRLF ++ str "Accept-Encoding: " ++ CRLF ++ CRLF);
  '(context, _, ok) ← parseRequest HttpContext_new input now;
  Ok (expect_bool 67 ok true ++ expect_bool 68 (gotAll context) true ++ expect_request 70 context ++
      expect_str 75 (getHeader (request_ context) (str "Accept-Encoding")) []).

(** ** They pass *)
Lemma findEOL_passes size offset : 0 ≤ offset ≤ size → size < 2 ^ 62 → testBufferFindEOL size offset = Ok [].
Proof.
  intros Ho Hs. unfold testBufferFindEOL. rewrite Buffer_ctor_ok. ok_simpl.
  assert (Hlen : zlen (chars size "x"%byte) = size) by (unfold chars; rewrite zlen_replicate; lia).
  destruct (returns_inv _ _ (append_spec Buffer_new (chars size "x"%byte) wf_new
    ltac:(rewrite Hlen; change (writeIndex_ Buffer_new) with 8; unfold vector_max_size; lia))) as (b & -> & Hwf & Hc & _). ok_simpl.
  rewrite content_new in Hc. simpl in Hc. pose proof (content_bound b Hwf) as Hb. rewrite Hc, Hlen in Hb.
  assert (Hno : x0a ∉ content b).
  { rewrite Hc. unfold chars. intros Hin%elem_of_replicate. by destruct Hin. }
  assert (Hsplit : content b = slice (readIndex_ b) (readIndex_ b + offset) (buffer_ b) ++
    slice (readIndex_ b + offset) (writeIndex_ b) (buffer_ b)).
  { unfold content. apply slice_split; destruct Hwf; lia. }
  rewrite findEOL_spec, std_find_notin by done. ok_simpl. rewrite decide_True by done.
  unfold findEOL_from, peek, beginWrite. rewrite !assert_true by (apply Z.leb_le; lia). ok_simpl.
  rewrite read_range_ok by (destruct Hwf; lia). ok_simpl. rewrite std_find_notin.
  - by rewrite decide_True.
  - intros Hin. apply Hno. rewrite Hsplit. apply elem_of_app. by right.
Qed.

(** The tests of the buffer, on hosts of both byte orders, and of the parser, at any time: every
    expectation holds. *)
Theorem unit_tests_pass (host : byte_order) (now : Timestamp) :
  Forall (λ t, t = Ok [])
    [testBufferAppendRetrieve; testBufferGrow; testBufferInsideGrow; testBufferShrink; testBufferPrepend;
     testBufferReadInt host; testBufferFindEOL 100000 90000; testParseRequestAllInOne now;
     testParseRequestInTwoPieces now; testParseRequestEmptyHeaderValue now].
Proof.
  assert (Hr : testBufferReadInt host = Ok []) by by destruct host; vm_compute.
  repeat (apply Forall_cons; split); [vm_compute; reflexivity..|exact Hr|by apply findEOL_passes| | | |by apply Forall_nil];
    vm_compute; reflexivity.
Qed.
