(* ===== verification/HttpGrammar.v ===== *)
(** * HttpGrammar: what the request parser accepts

    A printer for request messages and the theorems that tie [HttpContext::parseRequest]
    to it: the round trip, resumption over several pieces, and the request lines that
    stop the process. *)
From S2P Require Import Prelude StdMap Timestamp Buffer HttpRequest HttpContext.

(** ** Request messages as text *)
Record header_text := mkHeader {
  h_field : list byte;
  h_before : nat;   (* spaces after the colon *)
  h_value : list byte;
  h_after : nat     (* spaces before the line end *)
}.

Record request_text := mkRequestText {
  rt_method : Method;
  rt_path : list byte;
  rt_query : option (list byte);
  rt_version : Version;
  rt_headers : list header_text;
  rt_body : list byte
}.

Definition method_text (m : Method) : list byte := methodToString (set_method HttpRequest_new m).

Definition version_digit (v : Version) : byte :=
  match v with kHttp10 => x30 | _ => x31 end.

Definition target_text (r : request_text) : list byte :=
  rt_path r ++ match rt_query r with Some q => x3f :: q | None => [] end.

Definition line_text (r : request_text) : list byte :=
  method_text (rt_method r) ++ x20 :: target_text r ++ x20 :: str "HTTP/1." ++
  [version_digit (rt_version r)].

Definition header_bytes (h : header_text) : list byte :=
  h_field h ++ x3a :: replicate (h_before h) x20 ++ h_value h ++ replicate (h_after h) x20.

Fixpoint headers_text (hs : list header_text) : list byte :=
  match hs with [] => [] | h :: hs' => header_bytes h ++ CRLF ++ headers_text hs' end.

Definition message_text (r : request_text) : list byte :=
  line_text r ++ CRLF ++ headers_text (rt_headers r) ++ CRLF ++ rt_body r.

(** A message the printer can be trusted with. *)
Record header_ok (h : header_text) : Prop := {
  ho_colon : x3a ∉ h_field h;
  ho_field : x0d ∉ h_field h;
  ho_value : x0d ∉ h_value h;
  ho_trimmed : trimmed (h_value h)
}.

Record request_ok (r : request_text) : Prop := {
  ro_method : rt_method r ≠ kInvalid;
  ro_version : rt_version r ≠ kUnknown;
  ro_path_space : x20 ∉ rt_path r;
  ro_path_question : x3f ∉ rt_path r;
  ro_path_cr : x0d ∉ rt_path r;
  ro_query : match rt_query r with Some q => (x20 ∉ q) ∧ (x0d ∉ q) | None => True end;
  ro_headers : Forall header_ok (rt_headers r)
}.

(** The request the parser should build from it, starting from [r0]. *)
Definition with_line (r0 : HttpRequest) (r : request_text) : HttpRequest :=
  mkHttpRequest (rt_method r) (rt_version r) (receiveTime_ r0) (rt_path r)
    (match rt_query r with Some q => q | None => query_ r0 end) (body_ r0) (headers_ r0).

Definition with_header (r0 : HttpRequest) (h : header_text) : HttpRequest :=
  set_headers r0 (map_set (h_field h) (h_value h) (headers_ r0)).

Definition parsed (r0 : HttpRequest) (t : Timestamp) (r : request_text) : HttpRequest :=
  setBody (foldl with_header (setReceiveTime (with_line r0 r) t) (rt_headers r)) (rt_body r).

(** ** Lemmas on the parts *)
Lemma next_line_text line rest :
  x0d ∉ line → next_line (line ++ CRLF ++ rest) = Some (line, rest).
Proof.
  intros Hl. unfold next_line, kCRLF, CRLF. simpl app.
  rewrite std_search_app by done. rewrite decide_False by (rewrite length_app; simpl; lia).
  rewrite take_app_length. f_equal. f_equal.
  rewrite <- drop_drop, drop_app_length. done.
Qed.

Lemma header_line_text c h :
  header_ok h → parseState_ c = kExpectHeaders →
  header_line c (header_bytes h) =
  mkHttpContext (with_header (request_ c) h) kExpectHeaders.
Proof.
  intros Hok Hc. destruct Hok as [Hcolon _ _ Htr]. unfold header_line, header_bytes.
  rewrite std_find_app by done.
  rewrite decide_False by (rewrite length_app; simpl; lia).
  unfold set_request. rewrite Hc. f_equal. unfold addHeader, with_header. f_equal. f_equal.
  - by rewrite take_app_length.
  - replace (S (length (h_field h))) with (length (h_field h) + 1)%nat by lia.
    rewrite <- drop_drop, drop_app_length. simpl. by rewrite drop_0, trim_padded.
Qed.

Lemma header_bytes_no_cr h : header_ok h → x0d ∉ header_bytes h.
Proof.
  intros []. unfold header_bytes. rewrite elem_of_app, elem_of_cons, !elem_of_app.
  intros [?|[?|[?|[?|?]]]]; try done;
    match goal with H : _ ∈ replicate _ _ |- _ => apply elem_of_replicate in H as [? ?]; done end.
Qed.

Lemma blank_line_text c : header_line c [] = set_parseState c kExpectBody.
Proof. done. Qed.

Lemma target_no_space r : request_ok r → x20 ∉ target_text r.
Proof.
  intros [_ _ ? _ _ Hq _]. unfold target_text. rewrite elem_of_app.
  intros [?|Hin]; [done|]. destruct (rt_query r) as [q|]; [|by apply elem_of_nil in Hin].
  destruct Hq. by apply elem_of_cons in Hin as [?|?].
Qed.

Lemma line_no_cr r : request_ok r → x0d ∉ line_text r.
Proof.
  intros [_ _ _ _ ? Hq _]. unfold line_text, target_text.
  rewrite elem_of_app, elem_of_cons, !elem_of_app, elem_of_cons, elem_of_app.
  intros [Hin|[?|[[?|Hin]|[?|[Hin|Hin]]]]]; try done.
  - revert Hin. apply methodToString_clean. auto.
  - destruct (rt_query r); [|by apply elem_of_nil in Hin].
    destruct Hq. by apply elem_of_cons in Hin as [?|?].
  - apply (bool_decide_pack (x0d ∈ str "HTTP/1.")) in Hin. by vm_compute in Hin.
  - apply list_elem_of_singleton in Hin. by destruct (rt_version r).
Qed.

(** Closes the side conditions of [slice_as]. *)
Ltac slice_side :=
  first [ rewrite <- ?app_assoc; reflexivity
        | autorewrite with zlen; simpl; lia ].

(** The part of [parseRequestLine] that splits the target at the question mark. *)
Lemma split_target r (pre post line : list byte) (r1 : HttpRequest) :
  request_ok r → line = pre ++ target_text r ++ post →
  let start := zlen pre in
  let space := start + zlen (target_text r) in
  let question := find_from x3f start (target_text r) in
  setPath (if question =? space then r1 else setQuery r1 (slice (question + 1) space line))
    (slice start question line) =
  mkHttpRequest (method_ r1) (version_ r1) (receiveTime_ r1) (rt_path r)
    (match rt_query r with Some q => q | None => query_ r1 end) (body_ r1) (headers_ r1).
Proof.
  intros [] ->. unfold target_text, find_from in *. destruct (rt_query r) as [q|].
  - rewrite std_find_app by done. fold (zlen (rt_path r)). autorewrite with zlen.
    destruct (Z.eqb_spec (zlen pre + zlen (rt_path r)) (zlen pre + (zlen (rt_path r) + (zlen q + 1))));
      [pose proof (zlen_nonneg q); lia|].
    rewrite (slice_as (pre ++ rt_path r ++ [x3f]) q post) by slice_side.
    rewrite (slice_as pre (rt_path r) (x3f :: q ++ post)) by slice_side. done.
  - rewrite app_nil_r, std_find_notin by done. fold (zlen (rt_path r)).
    rewrite Z.eqb_refl. by rewrite (slice_as pre (rt_path r) post).
Qed.

(** The request line: the method, the target and the version, each at its place. *)
Lemma parseRequestLine_text c r :
  request_ok r → method_ (request_ c) = kInvalid →
  parseRequestLine c (line_text r) = Ok (set_request c (with_line (request_ c) r), true).
Proof.
  intros Hok Hm. pose proof (target_no_space r Hok) as Htgt. pose proof Hok as [].
  set (m := method_text (rt_method r)). set (tgt := target_text r) in *.
  set (http := str "HTTP/1."). set (d := version_digit (rt_version r)).
  assert (line_text r = m ++ x20 :: tgt ++ x20 :: http ++ [d]) as -> by done.
  assert (zlen http = 7) as Hhttp by done.
  pose proof (zlen_nonneg m). pose proof (zlen_nonneg tgt).
  unfold parseRequestLine. set (line := m ++ _).
  assert (zlen line = zlen m + 1 + zlen tgt + 9) as Hlen
    by (subst line; autorewrite with zlen; lia).
  assert (find_from x20 0 line = zlen m) as ->.
  { unfold find_from, line. rewrite std_find_app; [done|]. apply methodToString_clean; auto. }
  destruct (Z.eqb_spec (zlen m) (zlen line)); [lia|].
  assert (slice 0 (zlen m) line = m) as ->
    by (apply (slice_as [] m (x20 :: tgt ++ x20 :: http ++ [d])); done).
  unfold setMethod. rewrite Hm, (bool_decide_true (kInvalid = kInvalid)) by done.
  cbn [assert_ mbind outcome_bind method_ set_method].
  assert (method_of m = rt_method r) as -> by (by apply method_of_toString).
  rewrite (bool_decide_false (rt_method r = kInvalid)) by done. cbn [negb].
  assert (slice (zlen m + 1) (zlen line) line = tgt ++ x20 :: http ++ [d]) as ->
    by (apply (slice_as (m ++ [x20]) (tgt ++ x20 :: http ++ [d]) []);
        rewrite ?Hlen, ?app_nil_r; subst line; slice_side).
  assert (find_from x20 (zlen m + 1) (tgt ++ x20 :: http ++ [d]) = zlen m + 1 + zlen tgt) as ->
    by (unfold find_from; by rewrite std_find_app).
  destruct (Z.eqb_spec (zlen m + 1 + zlen tgt) (zlen line)); [lia|].
  assert (slice (zlen m + 1) (zlen m + 1 + zlen tgt) line = tgt) as ->
    by (apply (slice_as (m ++ [x20]) tgt (x20 :: http ++ [d])); subst line; slice_side).
  pose proof (split_target r (m ++ [x20]) (x20 :: http ++ [d]) line
    (set_method (request_ c) (rt_method r)) Hok ltac:(subst line; slice_side)) as Hr2.
  cbv zeta in Hr2. rewrite zlen_app in Hr2. change (zlen [x20]) with 1 in Hr2.
  fold tgt in Hr2. rewrite Hr2. clear Hr2.
  destruct (Z.ltb_spec (zlen line - 1) (zlen m + 1 + zlen tgt + 1)); [lia|].
  rewrite (proj2 (Z.eqb_eq _ _)) by lia.
  assert (slice (zlen m + 1 + zlen tgt + 1) (zlen line - 1) line = http) as ->
    by (apply (slice_as (m ++ [x20] ++ tgt ++ [x20]) http [d]);
        rewrite ?Hlen; subst line; slice_side).
  rewrite (bool_decide_true (http = str "HTTP/1.")) by done. cbn [andb].
  assert (read_at (zlen line - 1) line = Ok d) as ->.
  { assert (line = (m ++ [x20] ++ tgt ++ [x20] ++ http) ++ d :: []) as E
      by (subst line; rewrite <- !app_assoc; reflexivity).
    rewrite E at 2. apply read_at_app. rewrite Hlen. autorewrite with zlen. lia. }
  ok_simpl. unfold d, version_digit, with_line. clear -ro_version0.
  revert ro_version0. by destruct (rt_version r).
Qed.

(** ** The loop over a whole message *)
Lemma text_loop_more n more t st :
  text_loop n t st ≠ Err OutOfFuel → text_loop (n + more) t st = text_loop n t st.
Proof.
  revert st. induction n as [|n IH]; intros [[[c q] h] ok]; simpl.
  { destruct more; simpl; by destruct h. }
  destruct h; [|done].
  destruct (text_iteration t _) as [[st'|]|]; simpl; try done. apply IH.
Qed.

Lemma text_loop_S n t c q ok :
  text_loop (S n) t (c, q, true, ok) =
  r ← text_iteration t (c, q, true, ok);
  match r with inl st' => text_loop n t st' | inr res => Ok res end.
Proof. done. Qed.

Lemma text_loop_gotAll n t c q ok :
  parseState_ c = kGotAll → text_loop n t (c, q, true, ok) ↯ OutOfFuel.
Proof.
  intros Hc. induction n as [|n IH]; [done|]. rewrite text_loop_S. unfold text_iteration.
  by rewrite Hc.
Qed.

Lemma text_loop_headers hs fuel t c rest ok :
  Forall header_ok hs → parseState_ c = kExpectHeaders →
  text_loop (length hs + fuel) t (c, headers_text hs ++ rest, true, ok) =
  text_loop fuel t
    (mkHttpContext (foldl with_header (request_ c) hs) kExpectHeaders, rest, true, ok).
Proof.
  intros Hhs. revert c. induction Hhs as [|h hs Hh _ IH]; intros c Hc.
  - simpl. destruct c; simpl in *. by subst.
  - cbn [length Nat.add text_loop headers_text foldl]. unfold text_iteration. rewrite Hc.
    rewrite <- !app_assoc, next_line_text by by apply header_bytes_no_cr.
    ok_simpl. rewrite header_line_text by done. by rewrite IH.
Qed.

Lemma text_loop_body fuel t c body ok :
  parseState_ c = kExpectHeaders →
  text_loop (2 + fuel) t (c, CRLF ++ body, true, ok) =
  Ok (mkHttpContext (setBody (request_ c) body) kGotAll, [], ok).
Proof.
  intros Hc. cbn [Nat.add]. rewrite text_loop_S. unfold text_iteration. rewrite Hc.
  rewrite <- (app_nil_l (CRLF ++ body)), next_line_text by apply not_elem_of_nil.
  ok_simpl. rewrite blank_line_text. by destruct fuel.
Qed.

Lemma length_headers_text hs : (2 * length hs ≤ length (headers_text hs))%nat.
Proof.
  induction hs as [|h hs IH]; simpl; [lia|]. rewrite length_app. simpl. lia.
Qed.

Lemma text_loop_message fuel t c r :
  request_ok r → parseState_ c = kExpectRequestLine → method_ (request_ c) = kInvalid →
  (length (message_text r) ≤ fuel)%nat →
  text_loop fuel t (c, message_text r, true, true) =
  Ok (mkHttpContext (parsed (request_ c) t r) kGotAll, [], true).
Proof.
  intros Hok Hc Hm Hf. pose proof (length_headers_text (rt_headers r)) as Hh.
  unfold message_text in Hf at 1. rewrite !length_app in Hf. simpl in Hf.
  assert (∃ k, fuel = S (length (rt_headers r) + (2 + k)))%nat as [k ->].
  { exists (fuel - S (length (rt_headers r) + 2))%nat. lia. }
  cbn [text_loop]. unfold text_iteration. rewrite Hc. unfold message_text at 1.
  rewrite next_line_text by by apply line_no_cr.
  rewrite parseRequestLine_text by done. ok_simpl.
  rewrite text_loop_headers by (done || apply Hok). by rewrite text_loop_body.
Qed.

(** From the reference parser back to the code. *)
Lemma parseRequest_of_text c b t c' q' res :
  wf b → text_loop (parse_fuel b) t (c, content b, true, true) = Ok (c', q', res) →
  ∃ b', parseRequest c b t = Ok (c', b', res) ∧ wf b' ∧ content b' = q'.
Proof.
  intros Hwf E.
  pose proof (parseRequest_repr (parse_fuel b) c b (content b) t (conj Hwf eq_refl)) as H.
  rewrite E in H. unfold parseRequest.
  destruct (parseRequest_fuel _ _ _ _) as [[[c1 b1] r1]|]; [|done].
  destruct H as (-> & [? ?] & ->). by exists b1.
Qed.

(** C5: the parser reads back what the printer writes.  A buffer that holds a complete
    request message (method, path, optional query, version, any number of headers with any
    padding around their values, and a body) is parsed to exactly that request, in state
    [kGotAll], with the whole input consumed. *)
Theorem parse_print_roundtrip (c : HttpContext) (b : Buffer) (t : Timestamp) (r : request_text) :
  wf b → content b = message_text r → request_ok r →
  parseState_ c = kExpectRequestLine → method_ (request_ c) = kInvalid →
  ∃ b', parseRequest c b t = Ok (mkHttpContext (parsed (request_ c) t r) kGotAll, b', true) ∧
    wf b' ∧ content b' = [].
Proof.
  intros Hwf Hb Hok Hc Hm. apply parseRequest_of_text; [done|].
  rewrite Hb. apply text_loop_message; try done.
  pose proof (parse_fuel_content b Hwf). rewrite Hb in *. lia.
Qed.

Definition sample_request : request_text :=
  mkRequestText kGet (str "/index.html") (Some (str "k=v")) kHttp11
    [mkHeader (str "Host") 1 (str "www.chenshuo.com") 0; mkHeader (str "User-Agent") 0 [] 2]
    (str "body").

Lemma sample_request_ok : request_ok sample_request.
Proof.
  split; try discriminate; try (apply (bool_decide_unpack _); vm_compute; exact I).
  repeat constructor; try (apply (bool_decide_unpack _); vm_compute; exact I);
      vm_compute; done.
Qed.

Definition buffer_of (q : list byte) : Buffer :=
  match append Buffer_new q with Ok b => b | Err _ => Buffer_new end.

Lemma buffer_of_repr q :
  zlen q ≤ 2 ^ 32 → wf (buffer_of q) ∧ content (buffer_of q) = q.
Proof.
  intros Hq. assert (returns (append Buffer_new q) (λ b', wf b' ∧ content b' = q)) as H.
  { eapply returns_mono; [apply append_spec; [apply wf_new|]|].
    - unfold vector_max_size. simpl. unfold kCheapPrepend. lia.
    - by intros b' (?&->&?). }
  unfold buffer_of. by destruct (append Buffer_new q).
Qed.

Lemma parse_print_roundtrip_witness :
  ∃ b', parseRequest HttpContext_new (buffer_of (message_text sample_request)) (mkTimestamp 7) =
    Ok (mkHttpContext (parsed HttpRequest_new (mkTimestamp 7) sample_request) kGotAll, b', true) ∧
    wf b' ∧ content b' = [].
Proof.
  apply (parse_print_roundtrip HttpContext_new (buffer_of (message_text sample_request))
    (mkTimestamp 7) sample_request).
  - apply buffer_of_repr. vm_compute. discriminate.
  - apply buffer_of_repr. vm_compute. discriminate.
  - exact sample_request_ok.
  - reflexivity.
  - reflexivity.
Defined.

(** ** Messages that arrive in pieces *)
Lemma next_line_app q1 q2 line rest :
  next_line q1 = Some (line, rest) → next_line (q1 ++ q2) = Some (line, rest ++ q2).
Proof.
  unfold next_line. case_decide as Hn; [done|]. intros [= <- <-].
  pose proof (std_search_le kCRLF q1).
  assert (std_search kCRLF q1 < length q1)%nat as Hlt by lia.
  rewrite std_search_app_found by done. rewrite decide_False by (rewrite length_app; lia).
  pose proof (prefix_length _ _ (std_search_found _ _ Hlt)) as Hpl.
  rewrite length_drop in Hpl. change (length kCRLF) with 2%nat in Hpl.
  rewrite take_app_le, drop_app_le by lia. done.
Qed.

(** When the loop stops in the middle of the headers, running it on the longer text goes
    through the same passes and arrives at the point where it stopped. *)
Lemma text_resume fuel t c q1 ok c1 q1' q2 :
  text_loop fuel t (c, q1, true, ok) = Ok (c1, q1', true) → parseState_ c1 = kExpectHeaders →
  ∃ k, (k ≤ fuel)%nat ∧ ∀ n,
    text_loop (k + n) t (c, q1 ++ q2, true, ok) = text_loop n t (c1, q1' ++ q2, true, true).
Proof.
  revert c q1 ok. induction fuel as [|fuel IH]; intros c q1 ok E Hc1; [done|].
  rewrite text_loop_S in E. unfold text_iteration in E.
  destruct (parseState_ c) eqn:Hc.
  - destruct (next_line q1) as [[line rest]|] eqn:El; [|done].
    destruct (parseRequestLine c line) as [[c2 []]|f] eqn:Ep; ok_simpl in E;
      [|by destruct fuel|done].
    destruct (IH _ _ _ E Hc1) as (k & Hk & Hn). exists (S k). split; [lia|]. intros n.
    cbn [Nat.add]. rewrite text_loop_S. unfold text_iteration.
    rewrite Hc, (next_line_app _ _ _ _ El), Ep. apply Hn.
  - destruct (next_line q1) as [[line rest]|] eqn:El.
    + ok_simpl in E.
      destruct (IH _ _ _ E Hc1) as (k & Hk & Hn). exists (S k). split; [lia|]. intros n.
      cbn [Nat.add]. rewrite text_loop_S. unfold text_iteration.
      rewrite Hc, (next_line_app _ _ _ _ El). apply Hn.
    + ok_simpl in E. exists 0%nat. split; [lia|]. intros n.
      destruct fuel; simpl in E; by injection E as <- <- ->.
  - ok_simpl in E. destruct fuel; simpl in E; injection E as <- <- _; done.
  - ok_simpl in E. by rewrite text_loop_gotAll in E.
Qed.

Lemma text_loop_more_headers n m t c q ok :
  parseState_ c = kExpectHeaders → (length q + 2 ≤ n)%nat → (length q + 2 ≤ m)%nat →
  text_loop n t (c, q, true, ok) = text_loop m t (c, q, true, ok).
Proof.
  intros Hc Hn Hm. assert (parseState_ c ≠ kGotAll) as Hc' by (by rewrite Hc).
  destruct (text_loop_enough (length q + 2) t c q ok Hc') as [_ H]; [lia|].
  replace n with (length q + 2 + (n - (length q + 2)))%nat by lia.
  replace m with (length q + 2 + (m - (length q + 2)))%nat by lia.
  by rewrite !H.
Qed.

(** C30: a kept context makes the parser insensitive to how the input is cut.  When a first
    piece leaves the context in the middle of the headers, parsing what is left of it
    followed by the second piece gives the same context, verdict and remaining input as
    parsing the whole text at once. *)
Theorem parse_resumes (c c1 : HttpContext) (b1 b1' b2 b12 : Buffer) (t : Timestamp)
    (q2 : list byte) :
  wf b1 → wf b1' → wf b2 → wf b12 →
  parseRequest c b1 t = Ok (c1, b1', true) → parseState_ c1 = kExpectHeaders →
  content b2 = content b1' ++ q2 → content b12 = content b1 ++ q2 →
  match parseRequest c1 b2 t, parseRequest c b12 t with
  | Ok (c', b', r'), Ok (c'', b'', r'') => c' = c'' ∧ content b' = content b'' ∧ r' = r''
  | Err f, Err f' => f = f'
  | _, _ => False
  end.
Proof.
  intros Hwf1 Hwf1' Hwf2 Hwf12 E Hc1 H2 H12.
  pose proof (parseRequest_repr (parse_fuel b1) c b1 _ t (conj Hwf1 eq_refl)) as R1.
  fold (parseRequest c b1 t) in R1. rewrite E in R1.
  destruct (text_loop (parse_fuel b1) t _) as [[[c1' q1'] r1]|] eqn:E1; [|done].
  destruct R1 as (<- & [_ Hq1'] & <-).
  destruct (text_resume _ _ _ _ _ _ _ q2 E1 Hc1) as (k & Hk & Hres).
  pose proof (parseRequest_repr (parse_fuel b2) c1 b2 _ t (conj Hwf2 eq_refl)) as R2.
  pose proof (parseRequest_repr (parse_fuel b12) c b12 _ t (conj Hwf12 eq_refl)) as R12.
  fold (parseRequest c1 b2 t) in R2. fold (parseRequest c b12 t) in R12.
  assert (text_loop (parse_fuel b12) t (c, content b12, true, true) =
    text_loop (parse_fuel b2) t (c1, content b2, true, true)) as Heq.
  { pose proof (parse_fuel_content b2 Hwf2) as Hf2. rewrite H12.
    rewrite <- (text_loop_more (parse_fuel b12) (k + parse_fuel b2)).
    2:{ rewrite <- H12. apply text_loop_enough; [|by apply parse_fuel_content].
        intros Hg. by rewrite text_loop_gotAll in E1. }
    replace (parse_fuel b12 + (k + parse_fuel b2))%nat
      with (k + (parse_fuel b12 + parse_fuel b2))%nat by lia.
    rewrite Hres, <- Hq1', <- H2. apply text_loop_more_headers; [done|lia|done]. }
  rewrite Heq in R12.
  destruct (parseRequest c1 b2 t) as [[[? ?] ?]|], (parseRequest c b12 t) as [[[? ?] ?]|],
    (text_loop (parse_fuel b2) t _) as [[[? ?] ?]|]; try done.
  - destruct R2 as (-> & [_ ->] & ->), R12 as (-> & [_ ->] & ->). done.
  - cbv in R2, R12. congruence.
Qed.

Lemma parseRequest_wf c b t c' b' r :
  wf b → parseRequest c b t = Ok (c', b', r) → wf b'.
Proof.
  intros Hwf E.
  pose proof (parseRequest_repr (parse_fuel b) c b _ t (conj Hwf eq_refl)) as H.
  fold (parseRequest c b t) in H. rewrite E in H.
  destruct (text_loop _ _ _) as [[[? ?] ?]|]; [|done]. by destruct H as (_ & [? _] & _).
Qed.

Definition piece1 : list byte := str "GET / HTTP/1.1" ++ CRLF ++ str "Ho".
Definition piece2 : list byte := str "st: a" ++ CRLF ++ CRLF.

Lemma parse_resumes_witness :
  ∃ c1 b1', parseRequest HttpContext_new (buffer_of piece1) invalid = Ok (c1, b1', true) ∧
  match parseRequest c1 (buffer_of (content b1' ++ piece2)) invalid,
        parseRequest HttpContext_new (buffer_of (piece1 ++ piece2)) invalid with
  | Ok (c', b', r'), Ok (c'', b'', r'') => c' = c'' ∧ content b' = content b'' ∧ r' = r''
  | Err f, Err f' => f = f'
  | _, _ => False
  end.
Proof.
  assert (match parseRequest HttpContext_new (buffer_of piece1) invalid with
    | Ok (c1, b1', r) => bool_decide (parseState_ c1 = kExpectHeaders) && r &&
        bool_decide (zlen (content b1') = 2)
    | Err _ => false end = true) as H by (vm_compute; reflexivity).
  destruct (parseRequest HttpContext_new (buffer_of piece1) invalid) as [[[c1 b1'] r]|] eqn:E;
    [|discriminate H].
  apply andb_true_iff in H as [[Hc Hr]%andb_true_iff Hl].
  apply bool_decide_eq_true in Hc, Hl. destruct r; [|discriminate Hr].
  exists c1, b1'. split; [reflexivity|].
  destruct (buffer_of_repr piece1) as [Hwf1 Hb1]; [vm_compute; discriminate|].
  destruct (buffer_of_repr (content b1' ++ piece2)) as [Hwf2 Hb2].
  { rewrite zlen_app, Hl. vm_compute. discriminate. }
  destruct (buffer_of_repr (piece1 ++ piece2)) as [Hwf12 Hb12]; [vm_compute; discriminate|].
  apply (parse_resumes HttpContext_new c1 (buffer_of piece1) b1'
    (buffer_of (content b1' ++ piece2)) (buffer_of (piece1 ++ piece2)) invalid piece2);
    try assumption.
  - exact (parseRequest_wf _ _ _ _ _ _ Hwf1 E).
Defined.

(** ** Request lines that stop the process *)
Lemma parseRequestLine_no_version c m target (trailing : bool) :
  m ≠ kInvalid → x20 ∉ target → method_ (request_ c) = kInvalid →
  parseRequestLine c (method_text m ++ x20 :: target ++ if trailing then [x20] else []) =
  Err InvalidRange.
Proof.
  intros Hm Ht Hc. set (mt := method_text m). set (tl := if trailing then [x20] else []).
  unfold parseRequestLine. set (line := mt ++ _).
  pose proof (zlen_nonneg mt). pose proof (zlen_nonneg target).
  assert (0 ≤ zlen tl ≤ 1) as Htl by (subst tl; destruct trailing; vm_compute; split; congruence).
  assert (zlen line = zlen mt + 1 + zlen target + zlen tl) as Hlen
    by (subst line; autorewrite with zlen; lia).
  assert (find_from x20 0 line = zlen mt) as ->.
  { unfold find_from, line. rewrite std_find_app; [done|]. apply methodToString_clean; auto. }
  destruct (Z.eqb_spec (zlen mt) (zlen line)); [lia|].
  assert (slice 0 (zlen mt) line = mt) as ->
    by (apply (slice_as [] mt (x20 :: target ++ tl)); done).
  unfold setMethod. rewrite Hc, (bool_decide_true (kInvalid = kInvalid)) by done.
  cbn [assert_ mbind outcome_bind method_ set_method].
  assert (method_of mt = m) as -> by (by apply method_of_toString).
  rewrite (bool_decide_false (m = kInvalid)) by done. cbn [negb].
  assert (slice (zlen mt + 1) (zlen line) line = target ++ tl) as ->
    by (apply (slice_as (mt ++ [x20]) (target ++ tl) []);
        rewrite ?Hlen, ?app_nil_r; subst line; slice_side).
  assert (find_from x20 (zlen mt + 1) (target ++ tl) = zlen mt + 1 + zlen target) as ->.
  { unfold find_from. subst tl. destruct trailing; [by rewrite std_find_app|].
    rewrite app_nil_r, std_find_notin by done. done. }
  by rewrite (proj2 (Z.ltb_lt _ _)) by lia.
Qed.

(** a request line without a version stops the server.  For every method, a first line
    "METHOD target" or "METHOD target " makes [parseRequestLine] construct a string from a
    reversed range (std::length_error, which nothing catches) instead of answering
    "400 Bad Request". *)
Theorem missing_version_faults (c : HttpContext) (b : Buffer) (t : Timestamp) (m : Method)
    (target rest : list byte) (trailing : bool) :
  wf b → m ≠ kInvalid → x20 ∉ target → x0d ∉ target →
  content b = (method_text m ++ x20 :: target ++ if trailing then [x20] else []) ++ CRLF ++ rest →
  parseState_ c = kExpectRequestLine → method_ (request_ c) = kInvalid →
  parseRequest c b t ↯ InvalidRange.
Proof.
  intros Hwf Hm Hs Hcr Hb Hc Hmi.
  pose proof (parseRequest_repr (parse_fuel b) c b _ t (conj Hwf eq_refl)) as R.
  fold (parseRequest c b t) in R.
  assert (text_loop (parse_fuel b) t (c, content b, true, true) ↯ InvalidRange) as E.
  { unfold parse_fuel. rewrite text_loop_S. unfold text_iteration. rewrite Hc, Hb.
    rewrite next_line_text; [by rewrite parseRequestLine_no_version|].
    rewrite elem_of_app, elem_of_cons, elem_of_app. intros [Hin|[?|[?|Hin]]]; try done.
    - revert Hin. apply methodToString_clean. auto.
    - destruct trailing; [by apply list_elem_of_singleton in Hin | by apply elem_of_nil in Hin]. }
  rewrite E in R. destruct (parseRequest c b t); [done|]. by cbv in R; subst.
Qed.

Lemma missing_version_faults_witness :
  parseRequest HttpContext_new (buffer_of (str "GET /index.html" ++ CRLF)) invalid =
  Err InvalidRange.
Proof.
  destruct (buffer_of_repr (str "GET /index.html" ++ CRLF)) as [Hwf Hb];
    [vm_compute; discriminate|].
  apply (missing_version_faults HttpContext_new _ invalid kGet (str "/index.html") [] false);
    try assumption; try discriminate; try reflexivity.
  - apply (bool_decide_unpack _). vm_compute. exact I.
  - apply (bool_decide_unpack _). vm_compute. exact I.
Defined.
