(* ===== verification/HttpResponse.v ===== *)
(** * HttpResponse: src/ham/net/http/HttpResponse.h and HttpResponse.cc

    The response record and its serialisation into a Buffer, one [append] after the
    other. *)
From S2P Require Import Prelude StdMap Buffer.

Inductive Version := kUnknownVersion | kHttp10 | kHttp11.
Inductive StateCode :=
| kUnknown | k200_Ok | k301_MovedPermanently | k400_BadRequest | k404_NotFound.

Definition state_code_int (c : StateCode) : Z :=
  match c with
  | kUnknown => 0 | k200_Ok => 200 | k301_MovedPermanently => 301
  | k400_BadRequest => 400 | k404_NotFound => 404
  end.

Record HttpResponse := mkHttpResponse {
  version_ : Version;
  stateCode_ : StateCode;
  stateMessage_ : list byte;
  body_ : list byte;
  closeConnection_ : bool;
  headers_ : list (list byte * list byte)
}.

Definition HttpResponse_new (closeConn : bool) : HttpResponse :=
  mkHttpResponse kUnknownVersion kUnknown [] [] closeConn [].

Definition setStateCode (r : HttpResponse) (c : StateCode) : HttpResponse :=
  mkHttpResponse (version_ r) c (stateMessage_ r) (body_ r) (closeConnection_ r) (headers_ r).
Definition setStateMessage (r : HttpResponse) (m : list byte) : HttpResponse :=
  mkHttpResponse (version_ r) (stateCode_ r) m (body_ r) (closeConnection_ r) (headers_ r).
Definition setBody (r : HttpResponse) (b : list byte) : HttpResponse :=
  mkHttpResponse (version_ r) (stateCode_ r) (stateMessage_ r) b (closeConnection_ r) (headers_ r).
Definition setCloseConnection (r : HttpResponse) (on : bool) : HttpResponse :=
  mkHttpResponse (version_ r) (stateCode_ r) (stateMessage_ r) (body_ r) on (headers_ r).
Definition addHeader (r : HttpResponse) (field value : list byte) : HttpResponse :=
  mkHttpResponse (version_ r) (stateCode_ r) (stateMessage_ r) (body_ r) (closeConnection_ r)
    (map_set field value (headers_ r)).
Definition setContentType (r : HttpResponse) (contentType : list byte) : HttpResponse :=
  addHeader r (str "Content-Type") contentType.
Definition closeConnection (r : HttpResponse) : bool := closeConnection_ r.

(** [snprintf(buf, 32, "Content-Length: %zd\r\n", size)]: at most 31 characters. *)
Definition content_length_buf (size : Z) : list byte :=
  take 31 (str "Content-Length: " ++ to_string (i64 size) ++ CRLF).

(** A run of [append] calls. *)
Fixpoint appends (b : Buffer) (ds : list (list byte)) : outcome Buffer :=
  match ds with
  | [] => Ok b
  | d :: ds' => b' ← append b d; appends b' ds'
  end.

(** The arguments of the calls, in order. *)
Definition header_chunks (hs : list (list byte * list byte)) : list (list byte) :=
  concat (map (λ h : list byte * list byte, [h.1; str ": "; h.2; CRLF]) hs).

Definition appendToBuffer (r : HttpResponse) (outputBuffer : Buffer) : outcome Buffer :=
  b ← append outputBuffer (str "Http/1.");
  b ← append b (match version_ r with kHttp10 => str "0 " | _ => str "1 " end);
  b ← append b (to_string (state_code_int (stateCode_ r)));
  b ← append b (stateMessage_ r);
  b ← append b CRLF;
  b ← (if closeConnection_ r then append b (str "Connection: close" ++ CRLF)
       else
         b ← append b (content_length_buf (zlen (body_ r)));
         append b (str "Connection: Keep-Alive" ++ CRLF));
  b ← appends b (header_chunks (headers_ r));
  b ← append b CRLF;
  append b (body_ r).

(** ** The bytes of a response *)
Definition status_line (r : HttpResponse) : list byte :=
  str "Http/1." ++ match version_ r with kHttp10 => str "0 " | _ => str "1 " end ++
  to_string (state_code_int (stateCode_ r)) ++ stateMessage_ r ++ CRLF.

Definition framing_lines (r : HttpResponse) : list byte :=
  if closeConnection_ r then str "Connection: close" ++ CRLF
  else str "Content-Length: " ++ to_string (zlen (body_ r)) ++ CRLF ++
       str "Connection: Keep-Alive" ++ CRLF.

Definition header_lines (hs : list (list byte * list byte)) : list byte :=
  concat (map (λ h : list byte * list byte, h.1 ++ str ": " ++ h.2 ++ CRLF) hs).

Definition response_text (r : HttpResponse) : list byte :=
  status_line r ++ framing_lines r ++ header_lines (headers_ r) ++ CRLF ++ body_ r.

Lemma appends_spec ds b :
  wf b → writeIndex_ b + zlen (concat ds) ≤ vector_max_size →
  returns (appends b ds) (λ b', wf b' ∧ content b' = content b ++ concat ds
    ∧ writeIndex_ b' ≤ writeIndex_ b + zlen (concat ds)).
Proof.
  revert b. induction ds as [|d ds IH]; intros b Hwf Hmax; simpl.
  - rewrite app_nil_r, zlen_nil. split_and!; [done..|lia].
  - simpl in Hmax. rewrite zlen_app in *. pose proof (zlen_nonneg (concat ds)).
    apply returns_bind. eapply returns_mono; [apply append_spec; [done|lia]|].
    intros b1 (?&Hc&?). eapply returns_mono; [apply IH; [done|lia]|].
    intros b2 (?&Hc2&?). rewrite Hc2, Hc, <- app_assoc. split_and!; [done..|lia].
Qed.

Lemma appends_app ds1 ds2 b : appends b (ds1 ++ ds2) = b' ← appends b ds1; appends b' ds2.
Proof.
  revert b. induction ds1 as [|d ds1 IH]; intros b; simpl; [done|].
  destruct (append b d); simpl; [apply IH|done].
Qed.

(** All the calls of [appendToBuffer] as one run. *)
Definition response_chunks (r : HttpResponse) : list (list byte) :=
  [str "Http/1."; match version_ r with kHttp10 => str "0 " | _ => str "1 " end;
   to_string (state_code_int (stateCode_ r)); stateMessage_ r; CRLF] ++
  (if closeConnection_ r then [str "Connection: close" ++ CRLF]
   else [content_length_buf (zlen (body_ r)); str "Connection: Keep-Alive" ++ CRLF]) ++
  header_chunks (headers_ r) ++ [CRLF; body_ r].

(** Steps over the next call when both sides make it. *)
Ltac same_append :=
  match goal with
  | |- mbind _ (append ?b ?d) = _ =>
      destruct (append b d); cbn [mbind outcome_bind appends]; [|reflexivity]
  | |- mbind _ (appends ?b ?d) = _ =>
      destruct (appends b d); cbn [mbind outcome_bind appends]; [|reflexivity]
  end.

Lemma appends_single d b : appends b [d] = append b d.
Proof. simpl. by destruct (append b d). Qed.

Lemma appendToBuffer_chunks r b : appendToBuffer r b = appends b (response_chunks r).
Proof.
  unfold appendToBuffer, response_chunks. rewrite appends_app. cbn [appends].
  do 5 same_append. rewrite appends_app. destruct (closeConnection_ r); cbn [appends].
  - same_append. rewrite appends_app. do 2 same_append. symmetry. apply appends_single.
  - destruct (append _ (content_length_buf _)); ok_simpl; [|done].
    same_append. rewrite appends_app. do 2 same_append. symmetry. apply appends_single.
Qed.

Lemma concat_header_chunks hs : concat (header_chunks hs) = header_lines hs.
Proof.
  unfold header_chunks, header_lines. induction hs as [|h hs IH]; [done|].
  cbn [map concat app]. by rewrite IH, !app_assoc.
Qed.

(** Up to 13 digits the formatted line fits the 32-byte array. *)
Lemma content_length_fits n :
  0 ≤ n < 10 ^ 13 → content_length_buf n = str "Content-Length: " ++ to_string n ++ CRLF.
Proof.
  intros Hn. unfold content_length_buf. rewrite wraps_small by (unfold in_s; lia).
  apply take_ge. rewrite !length_app. pose proof (to_string_length 13 n).
  change (length (str "Content-Length: ")) with 16%nat. simpl. lia.
Qed.

Lemma concat_response_chunks r :
  zlen (body_ r) < 10 ^ 13 → concat (response_chunks r) = response_text r.
Proof.
  intros Hn. unfold response_chunks, response_text, status_line, framing_lines.
  rewrite !concat_app, concat_header_chunks.
  destruct (closeConnection_ r); cbn [concat];
    rewrite ?content_length_fits by (split; [apply zlen_nonneg | done]);
    by rewrite ?app_nil_r, <- ?app_assoc.
Qed.

Lemma appendToBuffer_spec r b :
  wf b → zlen (body_ r) < 10 ^ 13 →
  writeIndex_ b + zlen (response_text r) ≤ vector_max_size →
  returns (appendToBuffer r b) (λ b', wf b' ∧ content b' = content b ++ response_text r).
Proof.
  intros Hwf Hn Hmax. rewrite <- concat_response_chunks in * by done.
  rewrite appendToBuffer_chunks. eapply returns_mono; [by apply appends_spec|]. by intros b' (? & ? & _).
Qed.

(** ** Properties *)

(** a response is written out completely and framed.  [appendToBuffer] appends the
    status line, then either "Connection: close" or the exact "Content-Length" of the body
    with "Connection: Keep-Alive", then the headers in key order, an empty line and the
    body; the Content-Length line is never cut by the 32-byte array for a body below
    10^13 bytes. *)
Theorem response_serialised (r : HttpResponse) (b : Buffer) :
  wf b → zlen (body_ r) < 10 ^ 13 →
  writeIndex_ b + zlen (response_text r) ≤ vector_max_size →
  ∃ b', appendToBuffer r b = Ok b' ∧ wf b' ∧ content b' = content b ++ response_text r.
Proof.
  intros Hwf Hn Hmax.
  destruct (returns_inv _ _ (appendToBuffer_spec r b Hwf Hn Hmax)) as (b' & ? & ? & ?). eauto.
Qed.

Lemma response_serialised_witness :
  ∃ b', appendToBuffer (setBody (setContentType (setStateCode (HttpResponse_new false) k200_Ok)
      (str "text/plain")) (str "hello")) Buffer_new = Ok b' ∧ wf b' ∧
    content b' = content Buffer_new ++
      (str "Http/1.1 200" ++ CRLF ++ str "Content-Length: 5" ++ CRLF ++
       str "Connection: Keep-Alive" ++ CRLF ++ str "Content-Type: text/plain" ++ CRLF ++
       CRLF ++ str "hello").
Proof.
  apply (response_serialised (setBody (setContentType
    (setStateCode (HttpResponse_new false) k200_Ok) (str "text/plain")) (str "hello")) Buffer_new).
  - exact wf_new.
  - vm_compute. reflexivity.
  - vm_compute. discriminate.
Defined.
