(* ===== verification/Channel.v ===== *)
(** * Channel: src/ham/net/Channel.h and Channel.cc

    A channel ties a file descriptor to the events its loop watches and to the callbacks
    that serve them.  Callbacks ([std::function] values) are tokens of a type [F]; what
    invoking a token does is the parameter [invoke] of [handleEvent], so that the same
    model serves the wakeup, timer, listening and connection channels.  Objects live at
    addresses, which are integers. *)
From S2P Require Import Prelude StdMap Timestamp.

(** ** Event bits of <sys/epoll.h> *)
Definition EPOLLIN : Z := 0x001.
Definition EPOLLPRI : Z := 0x002.
Definition EPOLLOUT : Z := 0x004.
Definition EPOLLERR : Z := 0x008.
Definition EPOLLHUP : Z := 0x010.
Definition EPOLLRDHUP : Z := 0x2000.

Definition has (mask bits : Z) : bool := negb (Z.land mask bits =? 0).

Definition kReadEvent_ : Z := Z.lor EPOLLIN EPOLLPRI.
Definition kWriteEvent_ : Z := EPOLLOUT.
Definition kNoneEvent_ : Z := 0.

Inductive status := kNew | kAdded | kDismissed | n_status.
#[export] Instance status_eq_dec : EqDecision status.
Proof. solve_decision. Defined.

Abbreviation addr := Z.

Record Channel (F : Type) := mkChannel {
  loop_ : addr;
  fd_ : Z;
  event_ : Z;
  revent_ : Z;
  status_ : status;
  isHandlingEvent_ : bool;
  tie_ : option addr;       (* the object the weak_ptr refers to *)
  tied_ : bool;
  readCb_ : option F;
  writeCb_ : option F;
  closeCb_ : option F;
  errorCb_ : option F
}.
Arguments mkChannel {F}.
Arguments loop_ {F}. Arguments fd_ {F}. Arguments event_ {F}. Arguments revent_ {F}.
Arguments status_ {F}. Arguments isHandlingEvent_ {F}. Arguments tie_ {F}. Arguments tied_ {F}.
Arguments readCb_ {F}. Arguments writeCb_ {F}. Arguments closeCb_ {F}. Arguments errorCb_ {F}.

Section channel.
Context {F : Type}.
Implicit Types c : Channel F.

Definition Channel_ctor (loop : addr) (fd : Z) : Channel F :=
  mkChannel loop fd 0 0 kNew false None false None None None None.

(** [assert(!isHandlingEvent_)] *)
Definition Channel_dtor c : outcome unit := assert_ (negb (isHandlingEvent_ c)).

Definition with_event c (e : Z) : Channel F :=
  mkChannel (loop_ c) (fd_ c) e (revent_ c) (status_ c) (isHandlingEvent_ c) (tie_ c) (tied_ c)
    (readCb_ c) (writeCb_ c) (closeCb_ c) (errorCb_ c).
Definition with_revent c (e : Z) : Channel F :=
  mkChannel (loop_ c) (fd_ c) (event_ c) e (status_ c) (isHandlingEvent_ c) (tie_ c) (tied_ c)
    (readCb_ c) (writeCb_ c) (closeCb_ c) (errorCb_ c).
Definition setStatus c (s : status) : Channel F :=
  mkChannel (loop_ c) (fd_ c) (event_ c) (revent_ c) s (isHandlingEvent_ c) (tie_ c) (tied_ c)
    (readCb_ c) (writeCb_ c) (closeCb_ c) (errorCb_ c).
Definition with_handling c (h : bool) : Channel F :=
  mkChannel (loop_ c) (fd_ c) (event_ c) (revent_ c) (status_ c) h (tie_ c) (tied_ c)
    (readCb_ c) (writeCb_ c) (closeCb_ c) (errorCb_ c).
(** [setRevent(uint32_t)] stores into an [int]. *)
Definition setRevent c (revent : Z) : Channel F := with_revent c (i32 revent).
Definition tie c (obj : addr) : Channel F :=
  mkChannel (loop_ c) (fd_ c) (event_ c) (revent_ c) (status_ c) (isHandlingEvent_ c)
    (Some obj) true (readCb_ c) (writeCb_ c) (closeCb_ c) (errorCb_ c).
Definition setReadCallback c (cb : F) : Channel F :=
  mkChannel (loop_ c) (fd_ c) (event_ c) (revent_ c) (status_ c) (isHandlingEvent_ c)
    (tie_ c) (tied_ c) (Some cb) (writeCb_ c) (closeCb_ c) (errorCb_ c).
Definition setWriteCallback c (cb : F) : Channel F :=
  mkChannel (loop_ c) (fd_ c) (event_ c) (revent_ c) (status_ c) (isHandlingEvent_ c)
    (tie_ c) (tied_ c) (readCb_ c) (Some cb) (closeCb_ c) (errorCb_ c).
Definition setCloseCallback c (cb : F) : Channel F :=
  mkChannel (loop_ c) (fd_ c) (event_ c) (revent_ c) (status_ c) (isHandlingEvent_ c)
    (tie_ c) (tied_ c) (readCb_ c) (writeCb_ c) (Some cb) (errorCb_ c).
Definition setErrorCallback c (cb : F) : Channel F :=
  mkChannel (loop_ c) (fd_ c) (event_ c) (revent_ c) (status_ c) (isHandlingEvent_ c)
    (tie_ c) (tied_ c) (readCb_ c) (writeCb_ c) (closeCb_ c) (Some cb).

Definition isWriting c : bool := has (event_ c) kWriteEvent_.
Definition isNoneEvent c : bool := event_ c =? kNoneEvent_.

(** What [enableReading], [enableWriting], [disableWriting] and [disableAll] do to
    [event_] before they call [update()]. *)
Definition reading_on (e : Z) : Z := Z.lor e kReadEvent_.
Definition writing_on (e : Z) : Z := Z.lor e kWriteEvent_.
Definition writing_off (e : Z) : Z := Z.land e (Z.lnot kWriteEvent_).
Definition all_off (e : Z) : Z := kNoneEvent_.

Definition eventsToString (fd event : Z) : list byte :=
  to_string fd ++ str ": " ++
  (if has event EPOLLIN then str "IN " else []) ++
  (if has event EPOLLPRI then str "PRI " else []) ++
  (if has event EPOLLOUT then str "OUT " else []) ++
  (if has event EPOLLHUP then str "HUP " else []) ++
  (if has event EPOLLRDHUP then str "RDHUP " else []) ++
  (if has event EPOLLERR then str "ERR " else []).
End channel.

(** ** Channels on the heap

    [handleEvent] runs user code between its reads of [revent_], so it works on a world
    that holds the channel objects. *)
Class ChannelHeap (W F : Type) := {
  chan_get : W → addr → option (Channel F);
  chan_put : addr → Channel F → W → W;
  obj_alive : W → addr → bool   (* does [weak_ptr::lock()] succeed? *)
}.

Class ChannelHeapLaws (W F : Type) `{ChannelHeap W F} : Prop := {
  chan_get_put w c ch : chan_get (chan_put c ch w) c = Some ch;
  chan_get_put_ne w c c' ch : c ≠ c' → chan_get (chan_put c ch w) c' = chan_get w c'
}.

Section handle_event.
Context {W F : Type} `{ChannelHeap W F} (invoke : F → option Timestamp → W → outcome W).

Definition deref (w : W) (c : addr) : outcome (Channel F) :=
  match chan_get w c with Some ch => Ok ch | None => Err NullPointer end.

Definition set_handling (h : bool) (c : addr) (w : W) : outcome W :=
  ch ← deref w c; Ok (chan_put c (with_handling ch h) w).

(** [if (revent_ & bits) { if (cb) cb(...); }] *)
Definition dispatch (cond : Z → bool) (cb : Channel F → option F) (arg : option Timestamp)
    (c : addr) (w : W) : outcome W :=
  ch ← deref w c;
  if cond (revent_ ch) then
    match cb ch with Some f => invoke f arg w | None => Ok w end
  else Ok w.

Definition hup_without_in (r : Z) : bool := has r EPOLLHUP && negb (has r EPOLLIN).
Definition readable (r : Z) : bool := has r (Z.lor (Z.lor EPOLLIN EPOLLPRI) EPOLLRDHUP).

Definition handleEventWithGuard (c : addr) (receiveTime : Timestamp) (w : W) : outcome W :=
  w ← set_handling true c w;
  w ← dispatch hup_without_in closeCb_ None c w;
  w ← dispatch (λ r, has r EPOLLERR) errorCb_ None c w;
  w ← dispatch readable readCb_ (Some receiveTime) c w;
  w ← dispatch (λ r, has r EPOLLOUT) writeCb_ None c w;
  set_handling false c w.

Definition handleEvent (c : addr) (retTime : Timestamp) (w : W) : outcome W :=
  ch ← deref w c;
  if tied_ ch then
    match tie_ ch with
    | Some obj => if obj_alive w obj then handleEventWithGuard c retTime w else Ok w
    | None => Ok w
    end
  else handleEventWithGuard c retTime w.
End handle_event.

(** ** Bits *)
Lemma has_reading_on e : has (reading_on e) EPOLLIN = true.
Proof.
  unfold has, reading_on, kReadEvent_. rewrite negb_true_iff, Z.eqb_neq. intros H.
  apply (f_equal (λ z, Z.testbit z 0)) in H.
  by rewrite Z.land_spec, !Z.lor_spec, orb_true_r in H.
Qed.

Lemma isWriting_on e : has (writing_on e) kWriteEvent_ = true.
Proof.
  unfold has, writing_on. rewrite negb_true_iff, Z.eqb_neq. intros H.
  apply (f_equal (λ z, Z.testbit z 2)) in H.
  by rewrite Z.land_spec, !Z.lor_spec, orb_true_r in H.
Qed.

Lemma isWriting_off e : has (writing_off e) kWriteEvent_ = false.
Proof.
  unfold has, writing_off. rewrite negb_false_iff, Z.eqb_eq.
  rewrite <- Z.land_assoc, (Z.land_comm (Z.lnot _)), Z.land_lnot_diag. apply Z.land_0_r.
Qed.

(** ** What [handleEvent] calls, and in which order *)
Section dispatch_order.
Context {W F : Type} `{ChannelHeapLaws W F} (invoke : F → option Timestamp → W → outcome W).

(** The callbacks an event mask asks for. *)
Definition wanted (ch : Channel F) (t : Timestamp) : list (F * option Timestamp) :=
  let pick (b : bool) (cb : option F) (arg : option Timestamp) :=
    if b then match cb with Some f => [(f, arg)] | None => [] end else [] in
  pick (hup_without_in (revent_ ch)) (closeCb_ ch) None ++
  pick (has (revent_ ch) EPOLLERR) (errorCb_ ch) None ++
  pick (readable (revent_ ch)) (readCb_ ch) (Some t) ++
  pick (has (revent_ ch) EPOLLOUT) (writeCb_ ch) None.

Fixpoint invoke_all (l : list (F * option Timestamp)) (w : W) : outcome W :=
  match l with
  | [] => Ok w
  | (f, arg) :: l' => w' ← invoke f arg w; invoke_all l' w'
  end.

Lemma invoke_all_app l1 l2 w :
  invoke_all (l1 ++ l2) w = w' ← invoke_all l1 w; invoke_all l2 w'.
Proof.
  revert w. induction l1 as [|[f a] l1 IH]; intros w; simpl; [done|].
  destruct (invoke f a w); simpl; auto.
Qed.

(** The callbacks leave the channel's [revent_] and its callbacks alone. *)
Definition keeps (c : addr) (ch : Channel F) (w : W) : Prop :=
  ∃ ch', chan_get w c = Some ch' ∧ revent_ ch' = revent_ ch ∧
    readCb_ ch' = readCb_ ch ∧ writeCb_ ch' = writeCb_ ch ∧
    closeCb_ ch' = closeCb_ ch ∧ errorCb_ ch' = errorCb_ ch.

Lemma dispatch_keeps cond cb arg c ch w :
  keeps c ch w → (∀ ch', revent_ ch' = revent_ ch → readCb_ ch' = readCb_ ch →
    writeCb_ ch' = writeCb_ ch → closeCb_ ch' = closeCb_ ch → errorCb_ ch' = errorCb_ ch →
    cb ch' = cb ch) →
  dispatch invoke cond cb arg c w =
    invoke_all (if cond (revent_ ch) then
                  match cb ch with Some f => [(f, arg)] | None => [] end else []) w.
Proof.
  intros (ch' & Hget & Hr & H1 & H2 & H3 & H4) Hcb. unfold dispatch, deref. rewrite Hget. simpl.
  rewrite Hr, (Hcb ch') by done. destruct (cond _); [|done].
  destruct (cb ch); [|done]. simpl. by destruct (invoke _ _ _).
Qed.

Lemma invoke_all_keeps c ch l w w' :
  (∀ f arg v v', keeps c ch v → invoke f arg v = Ok v' → keeps c ch v') →
  keeps c ch w → invoke_all l w = Ok w' → keeps c ch w'.
Proof.
  intros Hinv. revert w. induction l as [|[f a] l IH]; simpl; intros w Hk Hrun;
    outcome_inv; eauto.
Qed.

Lemma set_handling_get h c ch w :
  chan_get w c = Some ch → set_handling h c w = Ok (chan_put c (with_handling ch h) w).
Proof. intros Hget. unfold set_handling, deref. by rewrite Hget. Qed.

(** The body of [handleEventWithGuard] is the wanted callbacks in order. *)
Lemma handleEventWithGuard_runs c ch t w :
  chan_get w c = Some ch →
  (∀ f arg v v', keeps c ch v → invoke f arg v = Ok v' → keeps c ch v') →
  handleEventWithGuard invoke c t w =
    w' ← invoke_all (wanted ch t) (chan_put c (with_handling ch true) w);
    set_handling false c w'.
Proof.
  intros Hget Hinv. unfold handleEventWithGuard. rewrite (set_handling_get true c ch w Hget).
  ok_simpl.
  assert (Hk : keeps c ch (chan_put c (with_handling ch true) w)).
  { exists (with_handling ch true). by rewrite chan_get_put. }
  revert Hk. generalize (chan_put c (with_handling ch true) w). clear w Hget. intros w Hk.
  unfold wanted.
  repeat match goal with
    | |- context [invoke_all (_ ++ _) _] => rewrite invoke_all_app
    | Hk : keeps c ch ?v |- context [dispatch invoke ?cond ?cb ?arg c ?v] =>
        rewrite (dispatch_keeps cond cb arg c ch v Hk) by done;
        match goal with |- context [invoke_all ?l v] =>
          let E := fresh in
          destruct (invoke_all l v) eqn:E; ok_simpl; [|done];
          apply (invoke_all_keeps c ch) in E; [|done|done]; clear Hk
        end
    end.
  done.
Qed.
End dispatch_order.

(** ** Property *)

(** event dispatch.  For a channel whose owner is alive (or that is not tied),
    [handleEvent] runs exactly the callbacks its [revent_] asks for, in the order close
    (EPOLLHUP without EPOLLIN), error, read (EPOLLIN, EPOLLPRI or EPOLLRDHUP), write, and
    ends with [isHandlingEvent_] cleared; when the tied owner is gone it runs nothing and
    changes nothing.  The callbacks are only assumed not to reassign this channel's
    [revent_] and callbacks. *)
Theorem handleEvent_dispatches {W F} `{ChannelHeapLaws W F}
    (invoke : F → option Timestamp → W → outcome W) (c : addr) (ch : Channel F)
    (t : Timestamp) (w : W) :
  chan_get w c = Some ch →
  (∀ f arg v v', keeps c ch v → invoke f arg v = Ok v' → keeps c ch v') →
  let guarded := match tie_ ch with Some obj => obj_alive w obj | None => false end in
  if tied_ ch && negb guarded then handleEvent invoke c t w = Ok w
  else
    match invoke_all invoke (wanted ch t) (chan_put c (with_handling ch true) w) with
    | Ok w' => ∃ ch', handleEvent invoke c t w = Ok (chan_put c ch' w') ∧
        isHandlingEvent_ ch' = false
    | Err f => handleEvent invoke c t w ↯ f
    end.
Proof.
  intros Hget Hinv guarded.
  assert (Hguard : match invoke_all invoke (wanted ch t) (chan_put c (with_handling ch true) w) with
    | Ok w' => ∃ ch', handleEventWithGuard invoke c t w = Ok (chan_put c ch' w') ∧
        isHandlingEvent_ ch' = false
    | Err f => handleEventWithGuard invoke c t w ↯ f
    end).
  { rewrite (handleEventWithGuard_runs invoke c ch t w Hget Hinv).
    destruct (invoke_all _ _ _) as [w'|f] eqn:E; [|done]. ok_simpl.
    apply (invoke_all_keeps invoke c ch) in E; [|done|].
    - destruct E as (ch' & Hget' & _). rewrite (set_handling_get false c ch' w' Hget'). eauto.
    - exists (with_handling ch true). by rewrite chan_get_put. }
  unfold handleEvent, deref. rewrite Hget. ok_simpl.
  subst guarded. destruct (tied_ ch), (tie_ ch) as [obj|]; simpl; try done.
  by destruct (obj_alive w obj).
Qed.

(** A heap of channels with a log of the callbacks that ran. *)
Record log_world := mkLogWorld { lw_chans : gmap Z (Channel nat); lw_log : list nat }.
#[export] Instance log_heap : ChannelHeap log_world nat := {|
  chan_get w c := lw_chans w !! c;
  chan_put c ch w := mkLogWorld (<[c := ch]> (lw_chans w)) (lw_log w);
  obj_alive _ _ := true |}.
#[export] Instance log_heap_laws : ChannelHeapLaws log_world nat.
Proof.
  split; intros; simpl; [by rewrite lookup_insert_eq | by rewrite lookup_insert_ne].
Qed.
Definition log_invoke (f : nat) (_ : option Timestamp) (w : log_world) : outcome log_world :=
  Ok (mkLogWorld (lw_chans w) (lw_log w ++ [f])).

(** A connection channel (callbacks 0 to 3) with EPOLLHUP, EPOLLERR and EPOLLOUT reported. *)
Definition log_channel : Channel nat :=
  tie (setRevent (setErrorCallback (setCloseCallback (setWriteCallback
    (setReadCallback (Channel_ctor 0 7) 0%nat) 1%nat) 2%nat) 3%nat)
    (Z.lor EPOLLHUP (Z.lor EPOLLERR EPOLLOUT))) 5.

Lemma handleEvent_dispatches_witness :
  ∃ ch', handleEvent log_invoke 1 invalid (mkLogWorld {[1 := log_channel]} []) =
      Ok (chan_put 1 ch' (mkLogWorld (<[1 := with_handling log_channel true]>
        {[1 := log_channel]}) [2; 3; 1]%nat)) ∧
    isHandlingEvent_ ch' = false.
Proof.
  refine (handleEvent_dispatches log_invoke 1 log_channel invalid (mkLogWorld {[1 := log_channel]} []) _ _).
  - reflexivity.
  - intros f arg v v' Hk Hrun. injection Hrun as <-. exact Hk.
Defined.
