(* ===== verification/Epoller.v ===== *)
(** * Epoller: src/ham/net/Epoller.h and Epoller.cc

    The poller of an event loop, with the channel operations that go through it
    ([Channel::update] and [Channel::remove], [EventLoop::updateChannel] and
    [EventLoop::removeChannel]).  The kernel's side of epoll is the class [EpollKernel]. *)
From S2P Require Import Prelude StdMap Timestamp Channel.

(** ** The kernel *)
Definition EPOLL_CTL_ADD : Z := 1.
Definition EPOLL_CTL_DEL : Z := 2.
Definition EPOLL_CTL_MOD : Z := 3.

(** An [epoll_event]: [data.ptr] and [events]. *)
Abbreviation epoll_event := (addr * Z)%type.

(** The system calls on one epoll instance: [epoll_ctl] returns the new state and the
    result, [epoll_wait] the result and the events written to the array.  [interest] is
    the interest list, by descriptor. *)
Class EpollKernel (K : Type) := {
  epoll_ctl : K → Z → Z → epoll_event → K * Z;
  epoll_wait : K → Z → K * (Z * list epoll_event);
  interest : K → gmap Z epoll_event
}.

(** epoll_ctl(2), epoll_wait(2): a failed call changes nothing; ADD succeeds only for an
    absent descriptor and MOD only for a present one; DEL removes a present one; the
    events returned are at most [maxevents] and belong to the interest list. *)
Class EpollLaws (K : Type) `{EpollKernel K} : Prop := {
  ctl_fail k op fd ev :
    (epoll_ctl k op fd ev).2 < 0 → interest (epoll_ctl k op fd ev).1 = interest k;
  ctl_add k fd ev :
    0 ≤ (epoll_ctl k EPOLL_CTL_ADD fd ev).2 →
    interest k !! fd = None ∧ interest (epoll_ctl k EPOLL_CTL_ADD fd ev).1 = <[fd := ev]> (interest k);
  ctl_mod k fd ev :
    0 ≤ (epoll_ctl k EPOLL_CTL_MOD fd ev).2 →
    is_Some (interest k !! fd) ∧ interest (epoll_ctl k EPOLL_CTL_MOD fd ev).1 = <[fd := ev]> (interest k);
  ctl_del k fd ev :
    is_Some (interest k !! fd) →
    interest (epoll_ctl k EPOLL_CTL_DEL fd ev).1 = delete fd (interest k);
  wait_interest k max : interest (epoll_wait k max).1 = interest k;
  wait_max k max : 0 ≤ max → (epoll_wait k max).2.1 ≤ max;
  wait_length k max :
    0 < (epoll_wait k max).2.1 → zlen (epoll_wait k max).2.2 = (epoll_wait k max).2.1;
  wait_registered k max c r :
    (c, r) ∈ (epoll_wait k max).2.2 → ∃ fd e, interest k !! fd = Some (c, e)
}.

(** The calls that are legal for the interest list succeed (no resource limit is hit). *)
Definition accepts {K} `{EpollKernel K} (k : K) : Prop :=
  ∀ fd ev, (interest k !! fd = None → 0 ≤ (epoll_ctl k EPOLL_CTL_ADD fd ev).2) ∧
           (is_Some (interest k !! fd) → 0 ≤ (epoll_ctl k EPOLL_CTL_MOD fd ev).2).

(** ** The poller *)
Definition kInitEventListSize : Z := 16.

Record Epoller := mkEpoller {
  ep_loop : addr;
  epoll_fd_ : Z;
  retEpoll_event_ : list epoll_event;
  channelMap_ : gmap Z addr
}.

Definition Epoller_ctor (loop : addr) (epfd : Z) : Epoller :=
  mkEpoller loop epfd (replicate (Z.to_nat kInitEventListSize) (0, 0)) ∅.

Definition with_map (e : Epoller) (m : gmap Z addr) : Epoller :=
  mkEpoller (ep_loop e) (epoll_fd_ e) (retEpoll_event_ e) m.
Definition with_events (e : Epoller) (l : list epoll_event) : Epoller :=
  mkEpoller (ep_loop e) (epoll_fd_ e) l (channelMap_ e).

Definition operationToString (op : Z) : list byte :=
  if op =? EPOLL_CTL_ADD then str "ADD"
  else if op =? EPOLL_CTL_DEL then str "DEL"
  else if op =? EPOLL_CTL_MOD then str "MOD"
  else str "Unknown Operation".

(** What the methods touch: the poller, the channel objects, the kernel's epoll instance
    and the thread of the loop. *)
Record Poll (F K : Type) := mkPoll {
  threadId_ : Z;
  channels : gmap addr (Channel F);
  epoller_ : Epoller;
  kernel : K
}.
Arguments mkPoll {F K}.
Arguments threadId_ {F K}. Arguments channels {F K}. Arguments epoller_ {F K}.
Arguments kernel {F K}.

Section epoller.
Context {F K : Type} `{EpollKernel K}.
Implicit Types p : Poll F K.

Definition put_channel (c : addr) (ch : Channel F) p : Poll F K :=
  mkPoll (threadId_ p) (<[c := ch]> (channels p)) (epoller_ p) (kernel p).
Definition put_map (m : gmap Z addr) p : Poll F K :=
  mkPoll (threadId_ p) (channels p) (with_map (epoller_ p) m) (kernel p).
Definition put_events (l : list epoll_event) p : Poll F K :=
  mkPoll (threadId_ p) (channels p) (with_events (epoller_ p) l) (kernel p).
Definition put_kernel (k : K) p : Poll F K :=
  mkPoll (threadId_ p) (channels p) (epoller_ p) k.

Definition isInLoopThread (tid : Z) p : bool := threadId_ p =? tid.
(** [abortNotInLoopThread] ends in CRITICAL. *)
Definition assertInLoopThread (tid : Z) p : outcome unit :=
  if isInLoopThread tid p then Ok tt else Err Aborted.

Definition channel_at (c : addr) p : outcome (Channel F) :=
  match channels p !! c with Some ch => Ok ch | None => Err NullPointer end.

Definition map_at p (fd : Z) : option addr := channelMap_ (epoller_ p) !! fd.
Definition map_is p (fd : Z) (c : addr) : bool := bool_decide (map_at p fd = Some c).

Definition update (op : Z) (c : addr) p : outcome (Poll F K) :=
  ch ← channel_at c p;
  let r := epoll_ctl (kernel p) op (fd_ ch) (c, event_ ch) in
  let p := put_kernel r.1 p in
  if r.2 <? 0 then
    if op =? EPOLL_CTL_DEL then Ok p else Err Aborted
  else Ok p.

Definition updateChannel (tid : Z) (c : addr) p : outcome (Poll F K) :=
  _ ← assertInLoopThread tid p;
  ch ← channel_at c p;
  let fd := fd_ ch in
  if bool_decide (status_ ch = kNew) || bool_decide (status_ ch = kDismissed) then
    p ← (if bool_decide (status_ ch = kNew) then
           _ ← assert_ (bool_decide (map_at p fd = None));
           Ok (put_map (<[fd := c]> (channelMap_ (epoller_ p))) p)
         else
           _ ← assert_ (negb (bool_decide (map_at p fd = None)));
           _ ← assert_ (map_is p fd c);
           Ok p);
    update EPOLL_CTL_ADD c (put_channel c (setStatus ch kAdded) p)
  else
    _ ← assert_ (negb (bool_decide (map_at p fd = None)));
    _ ← assert_ (map_is p fd c);
    _ ← assert_ (bool_decide (status_ ch = kAdded));
    if isNoneEvent ch then
      p ← update EPOLL_CTL_DEL c p;
      Ok (put_channel c (setStatus ch kDismissed) p)
    else update EPOLL_CTL_MOD c p.

Definition removeChannel (tid : Z) (c : addr) p : outcome (Poll F K) :=
  _ ← assertInLoopThread tid p;
  ch ← channel_at c p;
  let fd := fd_ ch in
  _ ← assert_ (isNoneEvent ch);
  _ ← assert_ (negb (bool_decide (map_at p fd = None)));
  _ ← assert_ (map_is p fd c);
  _ ← assert_ (bool_decide (status_ ch = kAdded) || bool_decide (status_ ch = kDismissed));
  let n := match map_at p fd with Some _ => 1 | None => 0 end in
  let p := put_map (delete fd (channelMap_ (epoller_ p))) p in
  _ ← assert_ (n =? 1);
  p ← (if bool_decide (status_ ch = kAdded) then update EPOLL_CTL_DEL c p else Ok p);
  Ok (put_channel c (setStatus ch kNew) p).

(** The loop of [fillActiveChannels] over [retEpoll_event_[0 .. numOfEvents)]. *)
Fixpoint fill_loop (evs : list epoll_event) (active : list addr) p
    : outcome (list addr * Poll F K) :=
  match evs with
  | [] => Ok (active, p)
  | (c, events) :: evs' =>
      ch ← channel_at c p;
      _ ← assert_ (negb (bool_decide (map_at p (fd_ ch) = None)));
      _ ← assert_ (map_is p (fd_ ch) c);
      fill_loop evs' (active ++ [c]) (put_channel c (setRevent ch events) p)
  end.

Definition fillActiveChannels (numOfEvents : Z) (active : list addr) p
    : outcome (list addr * Poll F K) :=
  _ ← assert_ (u64 numOfEvents <=? zlen (retEpoll_event_ (epoller_ p)));
  fill_loop (take (Z.to_nat numOfEvents) (retEpoll_event_ (epoller_ p))) active p.

(** [epoll_wait] overwrites the front of the array. *)
Definition overwrite (evs arr : list epoll_event) : list epoll_event :=
  evs ++ drop (length evs) arr.

(** The timestamp [now] is the clock's value; it is returned with the active list. *)
Definition wait (now : Timestamp) (active : list addr) p
    : outcome (Timestamp * list addr * Poll F K) :=
  let size := zlen (retEpoll_event_ (epoller_ p)) in
  let r := epoll_wait (kernel p) size in
  let numOfEvents := r.2.1 in
  let p := put_kernel r.1 p in
  if 0 <? numOfEvents then
    let p := put_events (overwrite r.2.2 (retEpoll_event_ (epoller_ p))) p in
    '(active, p) ← fillActiveChannels numOfEvents active p;
    let arr := retEpoll_event_ (epoller_ p) in
    Ok (now, active,
        if numOfEvents =? zlen arr then put_events (arr ++ replicate (length arr) (0, 0)) p
        else p)
  else Ok (now, active, p).

(** ** Channel operations as the channel's owner calls them *)

(** [Channel::update] and [EventLoop::updateChannel]. *)
Definition loop_updateChannel (tid : Z) (c : addr) p : outcome (Poll F K) :=
  ch ← channel_at c p;
  _ ← assert_ (loop_ ch =? ep_loop (epoller_ p));
  _ ← assertInLoopThread tid p;
  updateChannel tid c p.

(** [Channel::remove] and [EventLoop::removeChannel]. *)
Definition remove (tid : Z) (c : addr) p : outcome (Poll F K) :=
  ch ← channel_at c p;
  _ ← assert_ (loop_ ch =? ep_loop (epoller_ p));
  _ ← assertInLoopThread tid p;
  removeChannel tid c p.

Definition change_event (f : Z → Z) (tid : Z) (c : addr) p : outcome (Poll F K) :=
  ch ← channel_at c p;
  loop_updateChannel tid c (put_channel c (with_event ch (f (event_ ch))) p).

Definition enableReading := change_event reading_on.
Definition enableWriting := change_event writing_on.
Definition disableWriting := change_event writing_off.
Definition disableAll := change_event all_off.
End epoller.

(** ** Invariant *)
Section invariant.
Context {F K : Type} `{EpollLaws K}.
Implicit Types p : Poll F K.

(** What the kernel is to watch for a descriptor. *)
Definition watched p (fd : Z) : option epoll_event :=
  c ← map_at p fd; ch ← channels p !! c;
  if bool_decide (status_ ch = kAdded) then Some (c, event_ ch) else None.

Record poll_inv p : Prop := {
  inv_map fd c : map_at p fd = Some c → ∃ ch, channels p !! c = Some ch ∧ fd_ ch = fd ∧
    (status_ ch = kAdded ∨ status_ ch = kDismissed);
  inv_status c ch : channels p !! c = Some ch → status_ ch = kNew ∨ map_at p (fd_ ch) = Some c;
  inv_interest fd : interest (kernel p) !! fd = watched p fd;
  inv_size : kInitEventListSize ≤ zlen (retEpoll_event_ (epoller_ p))
}.

(** The invariant is decidable: a check of the finite maps. *)
Definition poll_check p : bool :=
  bool_decide (map_Forall (λ fd c, match channels p !! c with
      | Some ch => (fd_ ch =? fd) && (bool_decide (status_ ch = kAdded) || bool_decide (status_ ch = kDismissed))
      | None => false
      end = true ∧ interest (kernel p) !! fd = watched p fd) (channelMap_ (epoller_ p))) &&
  bool_decide (map_Forall (λ c ch, status_ ch = kNew ∨ map_at p (fd_ ch) = Some c) (channels p)) &&
  bool_decide (map_Forall (λ fd ev, watched p fd = Some ev) (interest (kernel p))) &&
  (kInitEventListSize <=? zlen (retEpoll_event_ (epoller_ p))).

Lemma poll_check_inv p : poll_check p = true → poll_inv p.
Proof.
  unfold poll_check. rewrite !andb_true_iff, !bool_decide_eq_true, Z.leb_le. intros [[[Hm Hs] Hi] Hsize].
  split; [|exact Hs| |done].
  - intros fd c Hc. destruct (Hm fd c Hc) as [Hch _]. destruct (channels p !! c) as [ch|]; [|done].
    apply andb_true_iff in Hch as [Hfd%Z.eqb_eq Hst]. rewrite orb_true_iff, !bool_decide_eq_true in Hst.
    by exists ch.
  - intros fd. destruct (interest (kernel p) !! fd) as [ev|] eqn:Hev; [symmetry; by apply Hi|].
    destruct (map_at p fd) as [c|] eqn:Hc; [by destruct (Hm fd c Hc) as [_ <-]|]. unfold watched. by rewrite Hc.
Qed.

Lemma map_at_put_map m p fd : map_at (put_map m p) fd = m !! fd.
Proof. done. Qed.
Lemma map_at_put_channel c ch p fd : map_at (put_channel c ch p) fd = map_at p fd.
Proof. done. Qed.
Lemma map_at_put_kernel k p fd : map_at (put_kernel k p) fd = map_at p fd.
Proof. done. Qed.

(** Registered descriptors have distinct channels. *)
Lemma inv_map_inj p fd1 fd2 c :
  poll_inv p → map_at p fd1 = Some c → map_at p fd2 = Some c → fd1 = fd2.
Proof.
  intros Hinv H1 H2.
  destruct (inv_map p Hinv _ _ H1) as (ch1 & ? & ? & _),
    (inv_map p Hinv _ _ H2) as (ch2 & ? & ? & _).
  congruence.
Qed.

(** The state after a registration or a change of events. *)
Definition registered (c : addr) (ch' : Channel F) (k' : K) p : Poll F K :=
  mkPoll (threadId_ p) (<[c := ch']> (channels p))
    (with_map (epoller_ p) (<[fd_ ch' := c]> (channelMap_ (epoller_ p)))) k'.

(** The state after a removal. *)
Definition unregistered (c : addr) (ch' : Channel F) (k' : K) p : Poll F K :=
  mkPoll (threadId_ p) (<[c := ch']> (channels p))
    (with_map (epoller_ p) (delete (fd_ ch') (channelMap_ (epoller_ p)))) k'.

Definition registered_interest (c : addr) (ch' : Channel F) (m : gmap Z epoll_event) :=
  if bool_decide (status_ ch' = kAdded) then <[fd_ ch' := (c, event_ ch')]> m
  else delete (fd_ ch') m.

Lemma map_at_registered c ch' k' p fd :
  map_at (registered c ch' k' p) fd = if decide (fd = fd_ ch') then Some c else map_at p fd.
Proof.
  unfold map_at. simpl. case_decide; subst; [apply lookup_insert_eq|by apply lookup_insert_ne].
Qed.

Lemma map_at_unregistered c ch' k' p fd :
  map_at (unregistered c ch' k' p) fd = if decide (fd = fd_ ch') then None else map_at p fd.
Proof.
  unfold map_at. simpl. case_decide; subst; [apply lookup_delete_eq|by apply lookup_delete_ne].
Qed.

Lemma channels_set (m : gmap addr (Channel F)) c ch' c2 :
  <[c := ch']> m !! c2 = if decide (c2 = c) then Some ch' else m !! c2.
Proof. case_decide; subst; [apply lookup_insert_eq|by apply lookup_insert_ne]. Qed.

Lemma poll_inv_registered c ch ch' k' p :
  poll_inv p → channels p !! c = Some ch → fd_ ch' = fd_ ch →
  (status_ ch = kNew → map_at p (fd_ ch) = None) →
  status_ ch' = kAdded ∨ status_ ch' = kDismissed →
  interest k' = registered_interest c ch' (interest (kernel p)) →
  poll_inv (registered c ch' k' p).
Proof.
  intros Hinv Hc Hfd Hnew Hst Hk.
  assert (Hother : ∀ fd c2, fd ≠ fd_ ch' → map_at p fd = Some c2 → c2 ≠ c).
  { intros fd c2 Hne Hmap ->. destruct (inv_map p Hinv _ _ Hmap) as (ch2 & ? & ? & ?). congruence. }
  split.
  - intros fd c2. rewrite map_at_registered. simpl. rewrite channels_set. case_decide; subst.
    + intros [= <-]. rewrite decide_True by done. eauto.
    + intros Hmap. rewrite decide_False by eauto. by apply Hinv.
  - intros c2 ch2. simpl. rewrite channels_set, map_at_registered. case_decide; subst.
    + intros [= <-]. right. by rewrite decide_True.
    + intros Hc2. destruct (inv_status p Hinv _ _ Hc2) as [|Hmap]; [by left|right].
      rewrite decide_False; [done|]. intros Heq. rewrite Heq, Hfd in Hmap.
      destruct (inv_status p Hinv _ _ Hc) as [Hn|?]; [|congruence].
      by rewrite (Hnew Hn) in Hmap.
  - intros fd. unfold watched. rewrite map_at_registered. simpl. rewrite Hk.
    unfold registered_interest. case_decide as Hd; subst; simpl.
    + rewrite channels_set, decide_True by done. simpl.
      case_bool_decide; [apply lookup_insert_eq|apply lookup_delete_eq].
    + transitivity (interest (kernel p) !! fd).
      { case_bool_decide; [by rewrite lookup_insert_ne by done|by rewrite lookup_delete_ne by done]. }
      rewrite (inv_interest p Hinv). unfold watched. destruct (map_at p fd) eqn:Hmap; [|done].
      simpl. rewrite channels_set, decide_False; [done|eauto].
  - apply Hinv.
Qed.

Lemma poll_inv_unregistered c ch ch' k' p :
  poll_inv p → channels p !! c = Some ch → fd_ ch' = fd_ ch →
  map_at p (fd_ ch) = Some c → status_ ch' = kNew →
  interest k' = delete (fd_ ch') (interest (kernel p)) →
  poll_inv (unregistered c ch' k' p).
Proof.
  intros Hinv Hc Hfd Hreg Hst Hk.
  assert (Hother : ∀ fd c2, fd ≠ fd_ ch' → map_at p fd = Some c2 → c2 ≠ c).
  { intros fd c2 Hne Hmap ->. destruct (inv_map p Hinv _ _ Hmap) as (ch2 & ? & ? & ?). congruence. }
  split.
  - intros fd c2. rewrite map_at_unregistered. simpl. case_decide; [done|].
    intros Hmap. rewrite channels_set, decide_False by eauto. by apply Hinv.
  - intros c2 ch2. simpl. rewrite channels_set, map_at_unregistered. case_decide; subst.
    + intros [= <-]. by left.
    + intros Hc2. destruct (inv_status p Hinv _ _ Hc2) as [|Hmap]; [by left|right].
      rewrite decide_False; [done|]. congruence.
  - intros fd. unfold watched. rewrite map_at_unregistered. simpl. rewrite Hk.
    case_decide as Hd; subst; simpl; [apply lookup_delete_eq|].
    rewrite lookup_delete_ne by done. rewrite (inv_interest p Hinv). unfold watched.
    destruct (map_at p fd) eqn:Hmap; [|done].
    simpl. rewrite channels_set, decide_False; [done|eauto].
  - apply Hinv.
Qed.

(** *** Exact effect of the operations *)
Definition next_status (ch : Channel F) (e : Z) : status :=
  if bool_decide (status_ ch = kAdded) && (e =? 0) then kDismissed else kAdded.

Definition changed (f : Z → Z) (ch : Channel F) : Channel F :=
  setStatus (with_event ch (f (event_ ch))) (next_status ch (f (event_ ch))).

Lemma with_map_id p fd c :
  map_at p fd = Some c → with_map (epoller_ p) (<[fd := c]> (channelMap_ (epoller_ p))) = epoller_ p.
Proof.
  unfold map_at. intros Hmap. rewrite insert_id by done. by destruct (epoller_ p).
Qed.

(** Which system call an operation makes, and the channel it makes it with. *)
Definition ctl_for (ch : Channel F) (e : Z) : Z :=
  if bool_decide (status_ ch = kAdded) then
    if e =? 0 then EPOLL_CTL_DEL else EPOLL_CTL_MOD
  else EPOLL_CTL_ADD.

Definition change_pre (tid : Z) (c : addr) (ch : Channel F) p : Prop :=
  channels p !! c = Some ch ∧ tid = threadId_ p ∧ loop_ ch = ep_loop (epoller_ p) ∧
  (status_ ch = kNew → map_at p (fd_ ch) = None).

Lemma assertInLoopThread_ok tid p : tid = threadId_ p → assertInLoopThread tid p = Ok tt.
Proof. intros ->. unfold assertInLoopThread, isInLoopThread. by rewrite Z.eqb_refl. Qed.

Lemma assertInLoopThread_inv tid p u : assertInLoopThread tid p = Ok u → tid = threadId_ p.
Proof.
  unfold assertInLoopThread, isInLoopThread. destruct (Z.eqb_spec (threadId_ p) tid); [done|done].
Qed.

Lemma channel_at_inv c p ch : channel_at c p = Ok ch → channels p !! c = Some ch.
Proof. unfold channel_at. destruct (channels p !! c); [by intros [= ->]|done]. Qed.

Lemma channel_at_ok c p ch : channels p !! c = Some ch → channel_at c p = Ok ch.
Proof. unfold channel_at. by intros ->. Qed.

Lemma map_is_spec p fd c : map_is p fd c = true ↔ map_at p fd = Some c.
Proof. apply bool_decide_eq_true. Qed.

Lemma setStatus_id (ch : Channel F) s : status_ ch = s → setStatus ch s = ch.
Proof. intros <-. by destruct ch. Qed.

Lemma assert_found c p fd :
  map_at p fd = Some c → assert_ (negb (bool_decide (map_at p fd = None))) = Ok tt.
Proof. intros Hm. apply assert_true, negb_true_iff, bool_decide_eq_false. congruence. Qed.

Lemma assert_map_is c p fd : map_at p fd = Some c → assert_ (map_is p fd c) = Ok tt.
Proof. intros Hm. by apply assert_true, map_is_spec. Qed.

(** Under its precondition an operation is one system call on the changed state. *)
Lemma change_event_run f tid c ch p :
  poll_inv p → change_pre tid c ch p →
  let ch' := changed f ch in
  let r := epoll_ctl (kernel p) (ctl_for ch (event_ ch')) (fd_ ch) (c, event_ ch') in
  change_event f tid c p =
    if (r.2 <? 0) && negb (ctl_for ch (event_ ch') =? EPOLL_CTL_DEL) then Err Aborted
    else Ok (registered c ch' r.1 p).
Proof.
  intros Hinv (Hc & -> & Hloop & Hnew). cbv zeta. unfold change_event.
  rewrite (channel_at_ok _ _ _ Hc). ok_simpl.
  unfold loop_updateChannel, channel_at. cbn [put_channel channels].
  rewrite lookup_insert_eq. ok_simpl.
  rewrite assert_true by (simpl; rewrite Hloop; apply Z.eqb_refl). ok_simpl.
  rewrite assertInLoopThread_ok by done. ok_simpl.
  unfold updateChannel. rewrite assertInLoopThread_ok by done.
  unfold channel_at. cbn [mbind outcome_bind put_channel channels]. rewrite lookup_insert_eq.
  unfold changed, next_status, ctl_for, update, isNoneEvent, channel_at, registered.
  assert (Hm : map_at p (fd_ ch) = if bool_decide (status_ ch = kNew) then None else Some c).
  { case_bool_decide; [auto|]. by destruct (inv_status p Hinv _ _ Hc). }
  destruct (status_ ch) eqn:Hst; simpl in Hm |- *; rewrite ?Hst; simpl.
  - rewrite assert_true by by apply bool_decide_eq_true. simpl.
    rewrite lookup_insert_eq, andb_true_r. simpl. unfold put_map, put_channel, put_kernel. simpl.
    by rewrite insert_insert_eq.
  - rewrite (assert_found c), assert_map_is by done. simpl.
    unfold kNoneEvent_. destruct (f (event_ ch) =? 0); simpl;
      rewrite lookup_insert_eq; simpl; rewrite ?andb_true_r, ?andb_false_r;
      (destruct (_ <? 0); simpl; [try done|]);
      unfold put_channel, put_kernel; simpl;
      rewrite ?insert_insert_eq, with_map_id by done; [done..|by rewrite setStatus_id].
  - rewrite (assert_found c), assert_map_is by done. simpl.
    rewrite lookup_insert_eq, andb_true_r. simpl. unfold put_channel, put_kernel. simpl.
    by rewrite insert_insert_eq, with_map_id.
  - destruct (inv_map p Hinv _ _ Hm) as (? & ? & _ & [|]); congruence.
Qed.

Lemma change_event_pre f tid c p p' :
  poll_inv p → change_event f tid c p = Ok p' → ∃ ch, change_pre tid c ch p.
Proof.
  intros Hinv Hrun. unfold change_event in Hrun. apply bind_Ok_inv in Hrun as (ch & Hc & Hrun).
  apply channel_at_inv in Hc. exists ch. unfold loop_updateChannel, channel_at in Hrun.
  simpl in Hrun. rewrite lookup_insert_eq in Hrun. simpl in Hrun.
  apply bind_Ok_inv in Hrun as (u1 & Hl & Hrun). apply assert_Ok_inv in Hl.
  apply bind_Ok_inv in Hrun as (u2 & Ht & Hrun). apply assertInLoopThread_inv in Ht.
  split_and!; [done|done|by apply Z.eqb_eq|]. intros Hst.
  unfold updateChannel, channel_at in Hrun. rewrite assertInLoopThread_ok in Hrun by done.
  simpl in Hrun. rewrite lookup_insert_eq in Hrun. simpl in Hrun. rewrite Hst in Hrun. simpl in Hrun.
  apply bind_Ok_inv in Hrun as (p1 & Hrun & _). apply bind_Ok_inv in Hrun as (u3 & Hm & _).
  by apply assert_Ok_inv, bool_decide_eq_true in Hm.
Qed.

Lemma changed_status f ch : status_ (changed f ch) = kAdded ∨ status_ (changed f ch) = kDismissed.
Proof. unfold changed, next_status. simpl. destruct (_ && _); auto. Qed.

Lemma changed_added f ch : status_ ch ≠ kAdded → status_ (changed f ch) = kAdded.
Proof. intros Hst. unfold changed, next_status. simpl. by rewrite bool_decide_eq_false_2. Qed.

(** The system call made the interest list what the changed channel asks for. *)
Lemma ctl_interest f tid c ch p :
  poll_inv p → change_pre tid c ch p →
  let ch' := changed f ch in
  let r := epoll_ctl (kernel p) (ctl_for ch (event_ ch')) (fd_ ch) (c, event_ ch') in
  (r.2 <? 0) && negb (ctl_for ch (event_ ch') =? EPOLL_CTL_DEL) = false →
  interest r.1 = registered_interest c ch' (interest (kernel p)).
Proof.
  intros Hinv (Hc & _ & _ & Hnew). cbv zeta.
  unfold registered_interest, changed, next_status, ctl_for. simpl.
  case_bool_decide as Hst; simpl.
  - assert (Hm : map_at p (fd_ ch) = Some c).
    { destruct (inv_status p Hinv _ _ Hc); [congruence|done]. }
    destruct (_ =? 0) eqn:He; simpl; intros Hr.
    + apply ctl_del. rewrite (inv_interest p Hinv). unfold watched. rewrite Hm. simpl.
      rewrite Hc. simpl. rewrite bool_decide_eq_true_2 by done. eauto.
    + rewrite andb_true_r in Hr. apply Z.ltb_ge in Hr. by apply ctl_mod in Hr as [_ Hr].
  - intros Hr. rewrite andb_true_r in Hr. apply Z.ltb_ge in Hr. by apply ctl_add in Hr as [_ Hr].
Qed.

Lemma change_event_ok f tid c p p' :
  poll_inv p → change_event f tid c p = Ok p' →
  poll_inv p' ∧ ∃ ch k', change_pre tid c ch p ∧ p' = registered c (changed f ch) k' p.
Proof.
  intros Hinv Hrun. destruct (change_event_pre f tid c p p' Hinv Hrun) as [ch Hpre].
  pose proof (change_event_run f tid c ch p Hinv Hpre) as Heq. cbv zeta in Heq.
  pose proof (ctl_interest f tid c ch p Hinv Hpre) as Hint. cbv zeta in Hint.
  rewrite Hrun in Heq.
  destruct ((_ <? 0) && _) eqn:Hr; [discriminate|]. injection Heq as ->.
  split; [|eauto]. destruct Hpre as (Hc & _ & _ & Hnew).
  eapply poll_inv_registered; [done..|apply changed_status|by apply Hint].
Qed.

(** *** Removal *)
Definition remove_pre (tid : Z) (c : addr) (ch : Channel F) p : Prop :=
  channels p !! c = Some ch ∧ tid = threadId_ p ∧ loop_ ch = ep_loop (epoller_ p) ∧
  event_ ch = 0 ∧ status_ ch ≠ kNew.

Lemma remove_run tid c ch p :
  poll_inv p → remove_pre tid c ch p →
  remove tid c p = Ok (unregistered c (setStatus ch kNew)
    (if bool_decide (status_ ch = kAdded)
     then (epoll_ctl (kernel p) EPOLL_CTL_DEL (fd_ ch) (c, event_ ch)).1 else kernel p) p).
Proof.
  intros Hinv (Hc & -> & Hloop & He & Hst). unfold remove, removeChannel.
  assert (Hm : map_at p (fd_ ch) = Some c) by (destruct (inv_status p Hinv _ _ Hc); done).
  rewrite (channel_at_ok _ _ _ Hc). ok_simpl.
  rewrite (assert_true (loop_ ch =? _)) by (rewrite Hloop; apply Z.eqb_refl).
  rewrite assertInLoopThread_ok by done. ok_simpl.
  rewrite (assert_true (isNoneEvent ch)) by (unfold isNoneEvent; by rewrite He). ok_simpl.
  rewrite (assert_found c), assert_map_is by done. ok_simpl.
  rewrite Hm. rewrite (assert_true (_ || _)).
  2: { destruct (inv_map p Hinv _ _ Hm) as (ch2 & ? & _ & Hs).
       apply orb_true_iff. rewrite !bool_decide_eq_true. by simplify_eq. }
  simpl. unfold unregistered. simpl. case_bool_decide; [|done].
  unfold update. rewrite (channel_at_ok _ _ ch) by done. ok_simpl.
  simpl. by destruct (_ <? 0).
Qed.

Lemma remove_ok tid c ch p :
  poll_inv p → remove_pre tid c ch p →
  ∃ k', remove tid c p = Ok (unregistered c (setStatus ch kNew) k' p) ∧
    poll_inv (unregistered c (setStatus ch kNew) k' p).
Proof.
  intros Hinv Hpre. eexists. split; [by apply remove_run|].
  destruct Hpre as (Hc & _ & _ & He & Hst).
  assert (Hm : map_at p (fd_ ch) = Some c) by (destruct (inv_status p Hinv _ _ Hc); done).
  eapply poll_inv_unregistered; [done..|]. simpl.
  pose proof (inv_interest p Hinv (fd_ ch)) as Hi. unfold watched in Hi. rewrite Hm in Hi.
  simpl in Hi. rewrite Hc in Hi. simpl in Hi. case_bool_decide.
  - apply ctl_del. eauto.
  - by rewrite delete_id.
Qed.

Lemma remove_inv tid c p p' : remove tid c p = Ok p' → ∃ ch, remove_pre tid c ch p.
Proof.
  unfold remove, removeChannel. intros Hrun.
  repeat match type of Hrun with
    | (?m ≫= _) = Ok _ => let E := fresh "E" in apply bind_Ok_inv in Hrun as (? & E & Hrun)
    end.
  repeat match goal with
    | E : channel_at _ _ = Ok _ |- _ => apply channel_at_inv in E
    | E : assertInLoopThread _ _ = Ok _ |- _ => apply assertInLoopThread_inv in E
    | E : assert_ _ = Ok _ |- _ => apply assert_Ok_inv in E
    end.
  simplify_eq. eexists. split_and!; [done|done|by apply Z.eqb_eq|by apply Z.eqb_eq|].
  intros Hst. by rewrite Hst in *.
Qed.

(** *** Waiting *)

(** Changing other fields of a channel object keeps the invariant. *)
Lemma poll_inv_touch c ch ch' p :
  poll_inv p → channels p !! c = Some ch →
  fd_ ch' = fd_ ch → status_ ch' = status_ ch → event_ ch' = event_ ch →
  poll_inv (put_channel c ch' p).
Proof.
  intros Hinv Hc Hfd Hst Hev. split.
  - intros fd c2 Hmap. destruct (inv_map p Hinv _ _ Hmap) as (ch2 & Hc2 & ? & ?).
    simpl. rewrite channels_set. case_decide; subst; [|eauto].
    exists ch'. rewrite Hfd, Hst. by simplify_eq.
  - intros c2 ch2. simpl. rewrite channels_set. case_decide; subst.
    + intros [= <-]. rewrite Hst, Hfd. by apply Hinv.
    + by apply Hinv.
  - intros fd. simpl. rewrite (inv_interest p Hinv). unfold watched.
    rewrite map_at_put_channel. destruct (map_at p fd) as [c2|]; [|done]. simpl.
    rewrite channels_set. case_decide; subst; [|done]. rewrite Hc. simpl. by rewrite Hst, Hev.
  - apply Hinv.
Qed.

Lemma poll_inv_channel_of p fd c e :
  poll_inv p → interest (kernel p) !! fd = Some (c, e) →
  ∃ ch, channels p !! c = Some ch ∧ fd_ ch = fd ∧ map_at p fd = Some c ∧ event_ ch = e.
Proof.
  intros Hinv Hi. rewrite (inv_interest p Hinv) in Hi. unfold watched in Hi.
  destruct (map_at p fd) as [c2|] eqn:Hmap; [|done]. simpl in Hi.
  destruct (inv_map p Hinv _ _ Hmap) as (ch & Hc & Hfd & _). rewrite Hc in Hi. simpl in Hi.
  case_bool_decide; [|done]. simplify_eq. eauto.
Qed.

(** The channel objects after the kernel's reports were stored. *)
Definition store_revents (evs : list epoll_event) (m : gmap addr (Channel F)) :
    gmap addr (Channel F) :=
  foldl (λ m ev, alter (λ ch, setRevent ch ev.2) ev.1 m) m evs.

Lemma fill_loop_spec evs active p :
  poll_inv p → (∀ c r, (c, r) ∈ evs → ∃ fd e, interest (kernel p) !! fd = Some (c, e)) →
  let p' := mkPoll (threadId_ p) (store_revents evs (channels p)) (epoller_ p) (kernel p) in
  fill_loop evs active p = Ok (active ++ map fst evs, p') ∧ poll_inv p'.
Proof.
  revert active p. induction evs as [|[c r] evs IH]; intros active p Hinv Hreg; simpl.
  - rewrite app_nil_r. by destruct p.
  - destruct (Hreg c r) as (fd & e & Hi); [by left|].
    destruct (poll_inv_channel_of _ _ _ _ Hinv Hi) as (ch & Hc & Hfd & Hmap & _).
    rewrite (channel_at_ok _ _ _ Hc). ok_simpl.
    rewrite (assert_found c), assert_map_is by (by rewrite Hfd). ok_simpl.
    assert (Halter : alter (λ ch, setRevent ch r) c (channels p) = <[c := setRevent ch r]> (channels p)).
    { apply map_eq. intros c2. rewrite channels_set. case_decide; subst.
      - by rewrite lookup_alter_eq, Hc.
      - by rewrite lookup_alter_ne. }
    rewrite Halter.
    destruct (IH (active ++ [c]) (put_channel c (setRevent ch r) p)) as [Hrun Hinv'].
    + by eapply poll_inv_touch.
    + intros c2 r2 Hin. apply Hreg with r2. by right.
    + rewrite <- app_assoc in Hrun. done.
Qed.

Lemma wait_spec now active p :
  poll_inv p → zlen (retEpoll_event_ (epoller_ p)) < 2 ^ 31 →
  let size := zlen (retEpoll_event_ (epoller_ p)) in
  let n := (epoll_wait (kernel p) size).2.1 in
  let evs := if 0 <? n then (epoll_wait (kernel p) size).2.2 else [] in
  ∃ p', wait now active p = Ok (now, active ++ map fst evs, p') ∧ poll_inv p' ∧
    channels p' = store_revents evs (channels p) ∧
    channelMap_ (epoller_ p') = channelMap_ (epoller_ p) ∧
    threadId_ p' = threadId_ p ∧ ep_loop (epoller_ p') = ep_loop (epoller_ p) ∧
    zlen (retEpoll_event_ (epoller_ p')) = if n =? size then 2 * size else size.
Proof.
  intros Hinv Hsize. cbv zeta. unfold wait. set (size := zlen (retEpoll_event_ (epoller_ p))) in *.
  assert (Hge : kInitEventListSize ≤ size) by apply Hinv. unfold kInitEventListSize in Hge.
  pose proof (wait_max (kernel p) size ltac:(lia)) as Hmax.
  pose proof (wait_length (kernel p) size) as Hlen.
  pose proof (wait_interest (kernel p) size) as Hint.
  pose proof (wait_registered (kernel p) size) as Hreg.
  destruct (epoll_wait (kernel p) size) as [k' [n evs]]. simpl in *.
  assert (Hinv1 : poll_inv (put_kernel k' p)).
  { destruct Hinv as [I1 I2 I3 I4]. split; [done..| |done].
    intros fd. simpl. rewrite Hint. apply I3. }
  destruct (Z.ltb_spec 0 n) as [Hn|Hn]; simpl.
  2: { eexists. split; [by rewrite app_nil_r|].
       rewrite (proj2 (Z.eqb_neq n size)) by lia. done. }
  specialize (Hlen Hn).
  set (arr := overwrite evs (retEpoll_event_ (epoller_ p))).
  assert (Hevs : length evs = Z.to_nat n) by (unfold zlen in *; lia).
  assert (Harr : zlen arr = size).
  { unfold arr, overwrite, size, zlen. rewrite length_app, length_drop.
    unfold size, zlen in *. lia. }
  unfold fillActiveChannels. rewrite assert_true.
  2: { apply Z.leb_le. simpl. rewrite Harr, u64_small; lia. }
  ok_simpl.
  assert (Htake : take (Z.to_nat n) arr = evs).
  { unfold arr, overwrite. rewrite <- Hevs. apply take_app_length. }
  simpl. rewrite Htake.
  assert (Hinv2 : poll_inv (put_events arr (put_kernel k' p))).
  { destruct Hinv1 as [I1 I2 I3 I4]. split; [done..|]. simpl. rewrite Harr. done. }
  destruct (fill_loop_spec evs active _ Hinv2) as [Hrun Hinv3].
  { intros c r Hin. simpl. rewrite Hint. eauto. }
  rewrite Hrun. ok_simpl. eexists. split; [done|].
  simpl. rewrite Harr. destruct (n =? size) eqn:E; simpl.
  - split_and!; [|done..|].
    + destruct Hinv3 as [I1 I2 I3 I4]. split; [done..|]. simpl in *.
      rewrite zlen_app. pose proof (zlen_nonneg (replicate (length arr) (0, 0))).
      unfold kInitEventListSize. lia.
    + unfold zlen in *. rewrite length_app, length_replicate. lia.
  - done.
Qed.
End invariant.

(** ** Sequences of operations *)
Inductive chan_op :=
| OpNew (c : addr) (fd : Z)          (* construct a channel *)
| OpEnableReading (c : addr)
| OpEnableWriting (c : addr)
| OpDisableWriting (c : addr)
| OpDisableAll (c : addr)
| OpRemove (c : addr)
| OpDelete (c : addr).               (* destroy the channel object *)

Section sequences.
Context {F K : Type} `{EpollLaws K}.
Implicit Types p : Poll F K.

Definition delete_channel (c : addr) p : Poll F K :=
  mkPoll (threadId_ p) (delete c (channels p)) (epoller_ p) (kernel p).

Definition exec_op (tid : Z) (op : chan_op) p : outcome (Poll F K) :=
  match op with
  | OpNew c fd =>
      if channels p !! c is Some _ then Err OutOfRange
      else Ok (put_channel c (Channel_ctor (ep_loop (epoller_ p)) fd) p)
  | OpEnableReading c => enableReading tid c p
  | OpEnableWriting c => enableWriting tid c p
  | OpDisableWriting c => disableWriting tid c p
  | OpDisableAll c => disableAll tid c p
  | OpRemove c => remove tid c p
  | OpDelete c => ch ← channel_at c p; _ ← Channel_dtor ch; Ok (delete_channel c p)
  end.

Fixpoint exec_ops (tid : Z) (ops : list chan_op) p : outcome (Poll F K) :=
  match ops with
  | [] => Ok p
  | op :: ops' => p' ← exec_op tid op p; exec_ops tid ops' p'
  end.

(** The caller's side of the contract, on the state: a new object at a free address,
    one registered channel per descriptor, no removal before [disableAll], no
    destruction before removal. *)
Definition op_ok (op : chan_op) p : bool :=
  match op with
  | OpNew c fd => bool_decide (channels p !! c = None)
  | OpEnableReading c | OpEnableWriting c | OpDisableWriting c | OpDisableAll c =>
      match channels p !! c with
      | Some ch => (loop_ ch =? ep_loop (epoller_ p)) &&
          (negb (bool_decide (status_ ch = kNew)) || bool_decide (map_at p (fd_ ch) = None))
      | None => false
      end
  | OpRemove c =>
      match channels p !! c with
      | Some ch => (loop_ ch =? ep_loop (epoller_ p)) && (event_ ch =? 0) &&
          negb (bool_decide (status_ ch = kNew))
      | None => false
      end
  | OpDelete c =>
      match channels p !! c with
      | Some ch => bool_decide (status_ ch = kNew) && negb (isHandlingEvent_ ch)
      | None => false
      end
  end.

(** The contract holds at every operation that is reached. *)
Fixpoint ops_ok (tid : Z) (ops : list chan_op) p : bool :=
  match ops with
  | [] => true
  | op :: ops' =>
      op_ok op p && match exec_op tid op p with Ok p' => ops_ok tid ops' p' | Err _ => true end
  end.

Lemma poll_inv_new c ch p :
  poll_inv p → channels p !! c = None → status_ ch = kNew → poll_inv (put_channel c ch p).
Proof.
  intros Hinv Hc Hst.
  assert (Hne : ∀ fd c2, map_at p fd = Some c2 → c2 ≠ c).
  { intros fd2 c2 Hmap ->. destruct (inv_map p Hinv _ _ Hmap) as (? & ? & _). congruence. }
  split.
  - intros fd2 c2 Hmap. simpl. rewrite channels_set, decide_False by eauto. by apply Hinv.
  - intros c2 ch2. simpl. rewrite channels_set. case_decide; subst.
    + intros [= <-]. by left.
    + by apply Hinv.
  - intros fd2. simpl. rewrite (inv_interest p Hinv). unfold watched. rewrite map_at_put_channel.
    destruct (map_at p fd2) eqn:Hmap; [|done]. simpl. rewrite channels_set, decide_False by eauto.
    done.
  - apply Hinv.
Qed.

Lemma poll_inv_delete c ch p :
  poll_inv p → channels p !! c = Some ch → status_ ch = kNew → poll_inv (delete_channel c p).
Proof.
  intros Hinv Hc Hst.
  assert (Hne : ∀ fd c2, map_at p fd = Some c2 → c ≠ c2).
  { intros fd2 c2 Hmap <-. destruct (inv_map p Hinv _ _ Hmap) as (? & ? & _ & [|]); congruence. }
  assert (Hlook : ∀ fd c2, map_at p fd = Some c2 → delete c (channels p) !! c2 = channels p !! c2).
  { intros fd2 c2 Hmap. apply lookup_delete_ne. eauto. }
  split.
  - intros fd2 c2 Hmap. simpl. rewrite (Hlook fd2) by done. by apply Hinv.
  - intros c2 ch2. simpl. intros [_ Hc2]%lookup_delete_Some. by apply Hinv.
  - intros fd2. simpl. rewrite (inv_interest p Hinv). unfold watched.
    change (map_at (delete_channel c p) fd2) with (map_at p fd2).
    destruct (map_at p fd2) eqn:Hmap; [|done]. simpl. by rewrite (Hlook fd2).
  - apply Hinv.
Qed.

Lemma exec_op_inv tid op p p' :
  poll_inv p → op_ok op p = true → exec_op tid op p = Ok p' → poll_inv p'.
Proof.
  intros Hinv Hok. destruct op; simpl in *;
    try by intros Hrun%change_event_ok; [apply Hrun|done].
  - apply bool_decide_eq_true in Hok. rewrite Hok. intros [= <-]. by apply poll_inv_new.
  - intros Hrun. destruct (remove_inv _ _ _ _ Hrun) as [ch Hpre].
    destruct (remove_ok _ _ _ _ Hinv Hpre) as (k' & Hrun' & ?). congruence.
  - intros Hrun. outcome_inv. apply channel_at_inv in H1. rewrite H1 in Hok.
    apply andb_true_iff in Hok as [Hst _]. apply bool_decide_eq_true in Hst.
    by eapply poll_inv_delete.
Qed.

Lemma change_event_returns f tid c ch p :
  poll_inv p → accepts (kernel p) → change_pre tid c ch p →
  ∃ p', change_event f tid c p = Ok p'.
Proof.
  intros Hinv Hacc Hpre. pose proof (change_event_run f tid c ch p Hinv Hpre) as Heq.
  cbv zeta in Heq. rewrite Heq. destruct (_ && _) eqn:Hr; [|eauto]. exfalso.
  apply andb_true_iff in Hr as [Hr Hop]. apply Z.ltb_lt in Hr.
  destruct Hpre as (Hc & _ & _ & Hnew).
  destruct (Hacc (fd_ ch) (c, event_ (changed f ch))) as [Hadd Hmod].
  pose proof (inv_interest p Hinv (fd_ ch)) as Hi. unfold watched in Hi.
  unfold ctl_for in *. case_bool_decide as Hst.
  - destruct (inv_status p Hinv _ _ Hc) as [|Hm]; [congruence|].
    rewrite Hm in Hi. simpl in Hi. rewrite Hc in Hi. simpl in Hi.
    rewrite bool_decide_eq_true_2 in Hi by done.
    destruct (_ =? 0); [done|]. pose proof (Hmod ltac:(eauto)). lia.
  - enough (interest (kernel p) !! fd_ ch = None) as Hnone by (pose proof (Hadd Hnone); lia).
    rewrite Hi. destruct (inv_status p Hinv _ _ Hc) as [Hn|Hm].
    + by rewrite Hnew.
    + rewrite Hm. simpl. rewrite Hc. simpl. by rewrite bool_decide_eq_false_2.
Qed.

(** Taking a registered channel out of service. *)
Lemma disable_and_remove c ch p :
  poll_inv p → accepts (kernel p) → channels p !! c = Some ch →
  loop_ ch = ep_loop (epoller_ p) → status_ ch = kAdded →
  ∃ p1 p2, disableAll (threadId_ p) c p = Ok p1 ∧ remove (threadId_ p) c p1 = Ok p2 ∧
    poll_inv p2 ∧ threadId_ p2 = threadId_ p ∧ ep_loop (epoller_ p2) = ep_loop (epoller_ p) ∧
    (∀ fd, map_at p2 fd = if decide (fd = fd_ ch) then None else map_at p fd) ∧
    (∀ c', c' ≠ c → channels p2 !! c' = channels p !! c').
Proof.
  intros Hinv Hacc Hc Hloop Hst.
  assert (Hpre : change_pre (threadId_ p) c ch p) by (split_and!; congruence).
  destruct (change_event_returns all_off _ _ _ _ Hinv Hacc Hpre) as [p1 Hrun1].
  destruct (change_event_ok _ _ _ _ _ Hinv Hrun1) as (Hinv1 & ch1 & k1 & Hpre1 & ->).
  assert (ch1 = ch) as -> by (destruct Hpre as [? _], Hpre1 as [? _]; congruence).
  assert (Hrem : remove_pre (threadId_ p) c (changed all_off ch)
    (registered c (changed all_off ch) k1 p)).
  { split_and!; [apply lookup_insert_eq|done|done|done|].
    destruct (changed_status all_off ch) as [-> | ->]; done. }
  destruct (remove_ok _ _ _ _ Hinv1 Hrem) as (k2 & Hrun2 & Hinv2).
  eexists _, _. split_and!; [exact Hrun1|exact Hrun2|done|done|done| |].
  - intros fd. rewrite map_at_unregistered, map_at_registered. simpl. by case_decide.
  - intros c' Hne. simpl. by rewrite !lookup_insert_ne by done.
Qed.

Definition op_change (op : chan_op) : option (addr * (Z → Z)) :=
  match op with
  | OpEnableReading c => Some (c, reading_on) | OpEnableWriting c => Some (c, writing_on)
  | OpDisableWriting c => Some (c, writing_off) | OpDisableAll c => Some (c, all_off)
  | _ => None
  end.

Lemma op_ok_change op c f p :
  op_change op = Some (c, f) → op_ok op p = true ↔ ∃ ch, change_pre (threadId_ p) c ch p.
Proof.
  intros Hop.
  assert (Hok : op_ok op p = match channels p !! c with
      | Some ch => (loop_ ch =? ep_loop (epoller_ p)) &&
          (negb (bool_decide (status_ ch = kNew)) || bool_decide (map_at p (fd_ ch) = None))
      | None => false
      end) by (destruct op; simplify_eq/=; done).
  rewrite Hok. unfold change_pre. destruct (channels p !! c) as [ch|]; [|naive_solver].
  rewrite andb_true_iff, orb_true_iff, negb_true_iff, bool_decide_eq_false, bool_decide_eq_true,
    Z.eqb_eq.
  split.
  - intros [? Hor]. exists ch. split_and!; [done..|]. naive_solver.
  - intros (ch' & [= <-] & _ & ? & ?). split; [done|].
    destruct (decide (status_ ch = kNew)); auto.
Qed.

Lemma exec_op_change tid op c f p :
  op_change op = Some (c, f) → exec_op tid op p = change_event f tid c p.
Proof. destruct op; intros; simplify_eq/=; done. Qed.

Lemma op_ok_remove c p : op_ok (OpRemove c) p = true ↔ ∃ ch, remove_pre (threadId_ p) c ch p.
Proof.
  simpl. unfold remove_pre. destruct (channels p !! c) as [ch|]; [|naive_solver].
  rewrite !andb_true_iff, negb_true_iff, bool_decide_eq_false, !Z.eqb_eq. naive_solver.
Qed.
End sequences.

(** ** A kernel that satisfies the laws *)
Record sim_kernel := mkSimKernel {
  sim_interest : gmap Z epoll_event;
  sim_ready : list (Z * Z)          (* descriptor and pending events *)
}.

Definition sim_reports (k : sim_kernel) : list epoll_event :=
  omap (λ r : Z * Z, ev ← sim_interest k !! r.1;
    let bits := Z.land r.2 (Z.lor (ev : epoll_event).2 (Z.lor EPOLLERR EPOLLHUP)) in
    if bits =? 0 then None else Some (ev.1, bits)) (sim_ready k).

#[export] Instance sim_epoll : EpollKernel sim_kernel := {|
  epoll_ctl k op fd ev :=
    let m := sim_interest k in
    let set m' := (mkSimKernel m' (sim_ready k), 0) in
    match m !! fd with
    | None => if op =? EPOLL_CTL_ADD then set (<[fd := ev]> m) else (k, -1)
    | Some _ => if op =? EPOLL_CTL_MOD then set (<[fd := ev]> m)
                else if op =? EPOLL_CTL_DEL then set (delete fd m) else (k, -1)
    end;
  epoll_wait k max :=
    let evs := take (Z.to_nat max) (sim_reports k) in (k, (zlen evs, evs));
  interest := sim_interest |}.

#[export] Instance sim_epoll_laws : EpollLaws sim_kernel.
Proof.
  split; simpl.
  - intros k op fd ev. destruct (_ !! fd); [|by destruct (op =? _)].
    by destruct (op =? EPOLL_CTL_MOD), (op =? EPOLL_CTL_DEL).
  - intros k fd ev. destruct (_ !! fd) eqn:E; simpl; [done|eauto].
  - intros k fd ev. destruct (_ !! fd) eqn:E; simpl; [eauto|done].
  - intros k fd ev [x ->]. done.
  - done.
  - intros k max Hmax. unfold zlen. rewrite length_take. lia.
  - done.
  - intros k max c r Hin. assert ((c, r) ∈ sim_reports k) as Hin'.
    { rewrite <- (take_drop (Z.to_nat max)). apply elem_of_app. by left. }
    clear Hin. rename Hin' into Hin. apply list_elem_of_omap in Hin.
    destruct Hin as ([fd bits] & _ & Hev). simpl in Hev.
    destruct (sim_interest k !! fd) as [[c2 e]|] eqn:E; [|done]. simpl in Hev.
    destruct (_ =? 0); simplify_eq. eauto.
Qed.

Lemma sim_epoll_accepts (k : sim_kernel) : accepts k.
Proof.
  intros fd ev. split; simpl.
  - intros ->. done.
  - intros [x ->]. done.
Qed.

(** ** Properties *)

Definition Poll_ctor {F} (tid : Z) (loop : addr) (epfd : Z) (ready : list (Z * Z)) :
    Poll F sim_kernel :=
  mkPoll tid ∅ (Epoller_ctor loop epfd) (mkSimKernel ∅ ready).

Lemma poll_inv_ctor {F} tid loop epfd ready : poll_inv (F := F) (Poll_ctor tid loop epfd ready).
Proof.
  split; simpl.
  - intros fd c. unfold map_at. simpl. by rewrite lookup_empty.
  - intros c ch. by rewrite lookup_empty.
  - intros fd. unfold watched, map_at. simpl. by rewrite !lookup_empty.
  - unfold kInitEventListSize, zlen. simpl. lia.
Qed.

(** C6: the poller and the kernel stay in step.  Every sequence of channel operations
    (construct, enableReading, enableWriting, disableWriting, disableAll, remove, destroy)
    that follows the caller's contract and runs in the loop's thread completes without an
    assertion failing, and afterwards the kernel watches exactly the registered channels
    with their current event mask: each descriptor's interest entry is its channel's
    [event_] when the channel's status is kAdded and absent otherwise. *)
Theorem channel_ops_safe {F K} `{EpollLaws K} (Hacc : ∀ k : K, accepts k)
    (ops : list chan_op) (p : Poll F K) :
  poll_inv p → ops_ok (threadId_ p) ops p = true →
  ∃ p', exec_ops (threadId_ p) ops p = Ok p' ∧ poll_inv p' ∧
    ∀ fd, interest (kernel p') !! fd = watched p' fd.
Proof.
  generalize (eq_refl (threadId_ p)). generalize (threadId_ p) at 1 3 4. intros tid.
  revert p. induction ops as [|op ops IH]; intros p Htid Hinv Hok; simpl in *.
  { exists p. split_and!; [done..|apply Hinv]. }
  apply andb_true_iff in Hok as [Hok Hrest].
  assert (∃ p', exec_op tid op p = Ok p' ∧ threadId_ p' = threadId_ p) as (p' & Hrun & Htid').
  { subst tid. destruct (op_change op) as [[c f]|] eqn:Hc.
    - rewrite (exec_op_change _ _ c f) by done. apply (op_ok_change _ c f) in Hok as [ch Hpre]; [|done].
      destruct (change_event_returns f _ c ch p Hinv (Hacc _) Hpre) as [p' Hrun].
      destruct (change_event_ok _ _ _ _ _ Hinv Hrun) as (_ & ch' & k' & _ & ->). eauto.
    - destruct op; simplify_eq.
      + simpl in *. apply bool_decide_eq_true in Hok. rewrite Hok. eauto.
      + apply op_ok_remove in Hok as [ch Hpre].
        destruct (remove_ok _ _ _ _ Hinv Hpre) as (k' & Hrun & _). simpl. eauto.
      + simpl in *. unfold channel_at, Channel_dtor. destruct (channels p !! c); [|done].
        apply andb_true_iff in Hok as [_ Hidle]. simpl. rewrite Hidle. simpl. eauto. }
  rewrite Hrun in *. simpl. apply IH; [congruence| |done].
  by eapply exec_op_inv.
Qed.

Lemma channel_ops_safe_witness :
  ∃ p', exec_ops 1 [OpNew 100 7; OpEnableReading 100; OpEnableWriting 100; OpDisableAll 100;
      OpRemove 100; OpDelete 100] (Poll_ctor (F := nat) 1 50 3 []) = Ok p' ∧ poll_inv p' ∧
    ∀ fd, interest (kernel p') !! fd = watched p' fd.
Proof.
  apply (channel_ops_safe sim_epoll_accepts
    [OpNew 100 7; OpEnableReading 100; OpEnableWriting 100; OpDisableAll 100;
     OpRemove 100; OpDelete 100] (Poll_ctor (F := nat) 1 50 3 [])).
  - apply poll_inv_ctor.
  - vm_compute. reflexivity.
Defined.

(** misuse is always caught.  A channel operation that goes through the loop
    (enable*, disable*, remove) returns only in the loop's own thread and only when the
    contract holds: from another thread, for a channel of another loop, for a second
    channel on a registered descriptor, or for a removal with events still enabled, it
    stops with a failed assertion or abort instead of corrupting the poller. *)
Theorem channel_misuse_caught {F K} `{EpollLaws K} (tid : Z) (op : chan_op) (p p' : Poll F K) :
  poll_inv p → (op_change op ≠ None ∨ ∃ c, op = OpRemove c) →
  exec_op tid op p = Ok p' → tid = threadId_ p ∧ op_ok op p = true.
Proof.
  intros Hinv Hop Hrun. destruct (op_change op) as [[c f]|] eqn:Hc.
  - rewrite (exec_op_change _ _ c f) in Hrun by done.
    destruct (change_event_pre _ _ _ _ _ Hinv Hrun) as [ch Hpre].
    split; [apply Hpre|]. apply (op_ok_change _ c f); [done|]. exists ch. 
    by destruct Hpre as (? & -> & ?).
  - destruct Hop as [|[c ->]]; [done|].
    destruct (remove_inv _ _ _ _ Hrun) as [ch Hpre]. split; [apply Hpre|].
    apply op_ok_remove. exists ch. by destruct Hpre as (? & -> & ?).
Qed.

Lemma channel_misuse_caught_witness :
  1 = threadId_ (Poll_ctor (F := nat) 1 50 3 []) ∧
  op_ok (OpEnableReading 100) (put_channel 100 (Channel_ctor 50 7) (Poll_ctor (F := nat) 1 50 3 [])) = true.
Proof.
  eapply (channel_misuse_caught 1 (OpEnableReading 100)
    (put_channel 100 (Channel_ctor 50 7) (Poll_ctor (F := nat) 1 50 3 []))).
  - apply poll_inv_new; [apply poll_inv_ctor|reflexivity|reflexivity].
  - left. discriminate.
  - vm_compute. reflexivity.
Defined.

(** waiting.  [wait] never fails its assertions: it appends to the active list exactly
    the channels the kernel reported, in the kernel's order, stores each report in the
    channel's [revent_], keeps the invariant, and doubles the event array exactly when the
    kernel filled it. *)
Theorem wait_reports {F K} `{EpollLaws K} (now : Timestamp) (active : list addr) (p : Poll F K) :
  poll_inv p → zlen (retEpoll_event_ (epoller_ p)) < 2 ^ 31 →
  let size := zlen (retEpoll_event_ (epoller_ p)) in
  let n := (epoll_wait (kernel p) size).2.1 in
  let evs := if 0 <? n then (epoll_wait (kernel p) size).2.2 else [] in
  ∃ p', wait now active p = Ok (now, active ++ map fst evs, p') ∧ poll_inv p' ∧
    channels p' = store_revents evs (channels p) ∧
    zlen (retEpoll_event_ (epoller_ p')) = if n =? size then 2 * size else size.
Proof.
  intros Hinv Hsize. cbv zeta.
  destruct (wait_spec now active p Hinv Hsize) as (p' & ? & ? & ? & _ & _ & _ & ?). eauto.
Qed.

Definition wait_example : Poll nat sim_kernel :=
  registered 100 (changed reading_on (Channel_ctor 50 7))
    (mkSimKernel {[7 := (100, 3)]} [(7, 5)]) (Poll_ctor 1 50 3 []).

Lemma wait_example_inv : poll_inv wait_example.
Proof.
  apply (poll_inv_registered 100 (Channel_ctor 50 7) (changed reading_on (Channel_ctor 50 7)) _
    (put_channel 100 (Channel_ctor 50 7) (Poll_ctor 1 50 3 [])));
    [|reflexivity|reflexivity|reflexivity|by left|reflexivity].
  apply poll_inv_new; [apply poll_inv_ctor|reflexivity|reflexivity].
Qed.

Lemma wait_reports_witness :
  ∃ p', wait invalid [] wait_example = Ok (invalid, [100], p') ∧ poll_inv p' ∧
    channels p' = store_revents [(100, 1)] (channels wait_example) ∧
    zlen (retEpoll_event_ (epoller_ p')) = 16.
Proof. apply (wait_reports invalid [] wait_example wait_example_inv). reflexivity. Defined.

(** disabling twice re-arms the channel.  [disableAll] on a registered channel takes
    it out of the interest list, but a second [disableAll] puts it back with an empty
    event mask (the kernel then still reports EPOLLERR and EPOLLHUP for it), because
    [updateChannel] answers every update of a kDismissed channel with EPOLL_CTL_ADD. *)
Theorem disableAll_twice_rearms {F K} `{EpollLaws K} (Hacc : ∀ k : K, accepts k)
    (c : addr) (ch : Channel F) (p : Poll F K) :
  poll_inv p → channels p !! c = Some ch → loop_ ch = ep_loop (epoller_ p) →
  status_ ch = kAdded →
  ∃ p1 p2, disableAll (threadId_ p) c p = Ok p1 ∧ interest (kernel p1) !! fd_ ch = None ∧
    disableAll (threadId_ p) c p1 = Ok p2 ∧ interest (kernel p2) !! fd_ ch = Some (c, 0).
Proof.
  intros Hinv Hc Hloop Hst.
  assert (Hpre : change_pre (threadId_ p) c ch p) by (split_and!; congruence).
  destruct (change_event_returns all_off _ c ch p Hinv (Hacc _) Hpre) as [p1 Hrun1].
  destruct (change_event_ok _ _ _ _ _ Hinv Hrun1) as (Hinv1 & ch1 & k1 & Hpre1 & ->).
  assert (ch1 = ch) as -> by (destruct Hpre as [? _], Hpre1 as [? _]; congruence).
  assert (Hc1 : channels (registered c (changed all_off ch) k1 p) !! c = Some (changed all_off ch))
    by (simpl; apply lookup_insert_eq).
  assert (Hst1 : status_ (changed all_off ch) = kDismissed).
  { unfold changed, next_status. simpl. by rewrite Hst. }
  assert (Hpre2 : change_pre (threadId_ p) c (changed all_off ch)
    (registered c (changed all_off ch) k1 p)) by (split_and!; [done..|congruence]).
  destruct (change_event_returns all_off _ _ _ _ Hinv1 (Hacc _) Hpre2) as [p2 Hrun2].
  destruct (change_event_ok _ _ _ _ _ Hinv1 Hrun2) as (Hinv2 & ch2 & k2 & Hpre2' & ->).
  assert (ch2 = changed all_off ch) as -> by (destruct Hpre2 as [? _], Hpre2' as [? _]; congruence).
  assert (Hst2 : status_ (changed all_off (changed all_off ch)) = kAdded)
    by (apply changed_added; congruence).
  eexists _, _. split_and!; [exact Hrun1| |exact Hrun2|].
  - rewrite (inv_interest _ Hinv1). unfold watched. rewrite map_at_registered, decide_True by done.
    cbn [mbind option_bind]. rewrite Hc1. cbn [mbind option_bind]. by rewrite Hst1.
  - rewrite (inv_interest _ Hinv2). unfold watched. rewrite map_at_registered, decide_True by done.
    cbn [mbind option_bind registered channels]. rewrite lookup_insert_eq.
    cbn [mbind option_bind]. by rewrite bool_decide_eq_true_2.
Qed.

Lemma disableAll_twice_rearms_witness :
  ∃ p1 p2, disableAll 1 100 wait_example = Ok p1 ∧ interest (kernel p1) !! 7 = None ∧
    disableAll 1 100 p1 = Ok p2 ∧ interest (kernel p2) !! 7 = Some (100, 0).
Proof.
  apply (disableAll_twice_rearms sim_epoll_accepts 100 (changed reading_on (Channel_ctor 50 7))
    wait_example wait_example_inv); reflexivity.
Defined.
