(* ===== verification/TimerQueue.v ===== *)
(** * TimerQueue: src/ham/net/Timer.h, Timer.cc, TimerId.h, TimerQueue.h, TimerQueue.cc

    Timers are shared objects at addresses.  The queue is a [std::set] of pairs of an
    expiration time and a timer's address, ordered as C++ orders them.  A timer's callback
    is a token of a type [F]; [effects] gives the calls it makes back into this queue (its
    other effects do not concern the queue).  Clock readings are arguments.  The timerfd is
    represented by the last request made to it. *)
From S2P Require Import Prelude StdMap Timestamp Channel.

(** ** Timer *)
Record Timer (F : Type) := mkTimer {
  callback_ : F;
  expiration_ : Timestamp;
  interval_ : double;
  repeat_ : bool;
  serialNum_ : Z
}.
Arguments mkTimer {F}. Arguments callback_ {F}. Arguments expiration_ {F}.
Arguments interval_ {F}. Arguments repeat_ {F}. Arguments serialNum_ {F}.

(** The constructor increments the counter [s_numCreated_]. *)
Definition Timer_ctor {F} (numCreated : Z) (cb : F) (when : Timestamp) (interval : double) :
    Timer F * Z :=
  let n := i64 (numCreated + 1) in
  (mkTimer cb when interval (double_ltb double_zero interval) n, n).

Definition with_expiration {F} (t : Timer F) (e : Timestamp) : Timer F :=
  mkTimer (callback_ t) e (interval_ t) (repeat_ t) (serialNum_ t).

Definition restart {F} (t : Timer F) (now : Timestamp) : outcome (Timer F) :=
  if repeat_ t then
    e ← addTime now (interval_ t); Ok (with_expiration t e)
  else Ok (with_expiration t invalid).

(** ** TimerId: the timer (null for a default-constructed id) and its serial number *)
Record TimerId := mkTimerId { timer_ : option addr; id_serialNum_ : Z }.
Definition TimerId_ctor : TimerId := mkTimerId None 0.

(** ** detail *)
Record timespec := mkTimespec { tv_sec : Z; tv_nsec : Z }.

Definition howMuchTimeFromNow (now when : Timestamp) : outcome timespec :=
  microseconds ← i64_check (microsecondsFromEpoch when - microsecondsFromEpoch now);
  let microseconds := if microseconds <? 100 then 100 else microseconds in
  Ok (mkTimespec (Z.quot microseconds kMicrosecondsPerSecond)
        (Z.rem microseconds kMicrosecondsPerSecond * 1000)).

(** ** TimerQueue *)
Abbreviation timeEntry := (Timestamp * addr)%type.

Record TimerQueue (F : Type) := mkTimerQueue {
  tq_thread : Z;                              (* the loop's thread *)
  earliestChanged_ : bool;
  callingExpiredTimers_ : bool;
  timerList_ : list (timeEntry * unit);
  cancelingTimers_ : gset addr;
  timers : gmap addr (Timer F);               (* the timer objects *)
  s_numCreated_ : Z;
  alarm_ : option (Timestamp * timespec);     (* last timerfd_settime: when, and for how long *)
  ran_ : list addr                            (* history: the timers whose callback ran *)
}.
Arguments mkTimerQueue {F}. Arguments tq_thread {F}. Arguments earliestChanged_ {F}.
Arguments callingExpiredTimers_ {F}. Arguments timerList_ {F}. Arguments cancelingTimers_ {F}.
Arguments timers {F}. Arguments s_numCreated_ {F}. Arguments alarm_ {F}. Arguments ran_ {F}.

(** What a callback may ask of the queue. *)
Inductive tq_call (F : Type) :=
| CallAdd (cb : F) (when : Timestamp) (interval : double) (clock : Timestamp)
| CallCancel (id : TimerId).
Arguments CallAdd {F}. Arguments CallCancel {F}.

Section setters.
Context {F : Type}.
Implicit Types q : TimerQueue F.
Definition set_earliest (b : bool) q := mkTimerQueue (tq_thread q) b (callingExpiredTimers_ q)
  (timerList_ q) (cancelingTimers_ q) (timers q) (s_numCreated_ q) (alarm_ q) (ran_ q).
Definition set_calling (b : bool) q := mkTimerQueue (tq_thread q) (earliestChanged_ q) b
  (timerList_ q) (cancelingTimers_ q) (timers q) (s_numCreated_ q) (alarm_ q) (ran_ q).
Definition set_list (l : list (timeEntry * unit)) q := mkTimerQueue (tq_thread q) (earliestChanged_ q)
  (callingExpiredTimers_ q) l (cancelingTimers_ q) (timers q) (s_numCreated_ q) (alarm_ q) (ran_ q).
Definition set_canceling (c : gset addr) q := mkTimerQueue (tq_thread q) (earliestChanged_ q)
  (callingExpiredTimers_ q) (timerList_ q) c (timers q) (s_numCreated_ q) (alarm_ q) (ran_ q).
Definition set_timers (m : gmap addr (Timer F)) q := mkTimerQueue (tq_thread q) (earliestChanged_ q)
  (callingExpiredTimers_ q) (timerList_ q) (cancelingTimers_ q) m (s_numCreated_ q) (alarm_ q) (ran_ q).
Definition set_created n q := mkTimerQueue (tq_thread q) (earliestChanged_ q)
  (callingExpiredTimers_ q) (timerList_ q) (cancelingTimers_ q) (timers q) n (alarm_ q) (ran_ q).
Definition set_alarm a q := mkTimerQueue (tq_thread q) (earliestChanged_ q)
  (callingExpiredTimers_ q) (timerList_ q) (cancelingTimers_ q) (timers q) (s_numCreated_ q) a (ran_ q).
Definition add_ran a q := mkTimerQueue (tq_thread q) (earliestChanged_ q)
  (callingExpiredTimers_ q) (timerList_ q) (cancelingTimers_ q) (timers q) (s_numCreated_ q) (alarm_ q)
  (ran_ q ++ [a]).
End setters.

Section timer_queue.
Context {F : Type}.
(** [std::make_shared] gives the address of a new object. *)
Context (alloc : gmap addr (Timer F) → addr).
Context (effects : F → TimerQueue F → list (tq_call F)).
Implicit Types q : TimerQueue F.

Definition TimerQueue_ctor (tid : Z) : TimerQueue F :=
  mkTimerQueue tid false false [] ∅ ∅ 0 None [].

Definition assertInLoopThread (tid : Z) q : outcome unit :=
  if tq_thread q =? tid then Ok tt else Err Aborted.

Definition timer_at (a : addr) q : outcome (Timer F) :=
  match timers q !! a with Some t => Ok t | None => Err NullPointer end.

Definition resetAlarmFd (clock expiration : Timestamp) q : outcome (TimerQueue F) :=
  ts ← howMuchTimeFromNow clock expiration; Ok (set_alarm (Some (clock, ts)) q).

(** The one-shot timerfd has fired; reading it leaves it disarmed. *)
Definition readAlarmfd q : TimerQueue F := set_alarm None q.

Definition insert (tid : Z) (a : addr) q : outcome (TimerQueue F) :=
  _ ← assertInLoopThread tid q;
  t ← timer_at a q;
  let when := expiration_ t in
  let earliest := match timerList_ q with
                  | [] => true
                  | ((first, _), _) :: _ => timestamp_lt when first
                  end in
  let '(l, new) := map_insert (when, a) tt (timerList_ q) in
  _ ← assert_ new;
  Ok (set_list l (set_earliest earliest q)).

Definition addTimerInLoop (tid : Z) (clock : Timestamp) (a : addr) q : outcome (TimerQueue F) :=
  _ ← assertInLoopThread tid q;
  q ← insert tid a q;
  t ← timer_at a q;
  if earliestChanged_ q then resetAlarmFd clock (expiration_ t) q else Ok q.

Definition cancelTimerInLoop (tid : Z) (id : TimerId) q : outcome (TimerQueue F) :=
  _ ← assertInLoopThread tid q;
  match timer_ id with
  | None => Err NullPointer
  | Some a =>
      t ← timer_at a q;
      match map_find (expiration_ t, a) (timerList_ q) with
      | Some _ => Ok (set_list (map_erase (expiration_ t, a) (timerList_ q)) q)
      | None =>
          if callingExpiredTimers_ q then Ok (set_canceling ({[a]} ∪ cancelingTimers_ q) q)
          else Ok q
      end
  end.

(** [std::make_shared<Timer>(cb, when, interval)] *)
Definition make_timer (cb : F) (when : Timestamp) (interval : double) q : addr * TimerQueue F :=
  let a := alloc (timers q) in
  let '(t, n) := Timer_ctor (s_numCreated_ q) cb when interval in
  (a, set_created n (set_timers (<[a := t]> (timers q)) q)).

(** [addTimer] and [cancelTimer] called in the loop's thread, where [runInLoop] runs the
    bound functor at once. *)
Definition addTimer (tid : Z) (cb : F) (when : Timestamp) (interval : double)
    (clock : Timestamp) q : outcome (TimerId * TimerQueue F) :=
  let '(a, q) := make_timer cb when interval q in
  q ← addTimerInLoop tid clock a q;
  t ← timer_at a q;
  Ok (mkTimerId (Some a) (serialNum_ t), q).

Definition cancelTimer := cancelTimerInLoop.

Definition exec_call (tid : Z) (c : tq_call F) q : outcome (TimerQueue F) :=
  match c with
  | CallAdd cb when interval clock => '(_, q) ← addTimer tid cb when interval clock q; Ok q
  | CallCancel id => cancelTimer tid id q
  end.

Fixpoint exec_calls (tid : Z) (cs : list (tq_call F)) q : outcome (TimerQueue F) :=
  match cs with
  | [] => Ok q
  | c :: cs' => q ← exec_call tid c q; exec_calls tid cs' q
  end.

(** [timer->run()] *)
Definition run (tid : Z) (a : addr) q : outcome (TimerQueue F) :=
  t ← timer_at a q;
  exec_calls tid (effects (callback_ t) q) (add_ran a q).

Fixpoint run_all (tid : Z) (es : list (timeEntry * unit)) q : outcome (TimerQueue F) :=
  match es with
  | [] => Ok q
  | (e, _) :: es' => q ← run tid e.2 q; run_all tid es' q
  end.

(** The helper entry has a null pointer, which is address 0. *)
Definition getExpired (now : Timestamp) q : outcome (list (timeEntry * unit) * TimerQueue F) :=
  let '(before, rest) := map_lower_bound (now, 0) (timerList_ q) in
  let '(expired, rest) := match rest with
                          | ((t, a), u) :: rest' =>
                              if timestamp_eq t now then (before ++ [((t, a), u)], rest')
                              else (before, rest)
                          | [] => (before, rest)
                          end in
  _ ← assert_ (match rest with [] => true | ((t, _), _) :: _ => timestamp_lt now t end);
  Ok (expired, set_list rest q).

Fixpoint reset_loop (tid : Z) (expired : list (timeEntry * unit)) (now : Timestamp) q
    : outcome (TimerQueue F) :=
  match expired with
  | [] => Ok q
  | ((_, a), _) :: es =>
      t ← timer_at a q;
      q ← (if repeat_ t && negb (bool_decide (a ∈ cancelingTimers_ q)) then
             t' ← restart t now;
             insert tid a (set_timers (<[a := t']> (timers q)) q)
           else Ok q);
      reset_loop tid es now q
  end.

Definition reset (tid : Z) (expired : list (timeEntry * unit)) (now clock : Timestamp) q
    : outcome (TimerQueue F) :=
  q ← reset_loop tid expired now q;
  nextExpired ← (match timerList_ q with
                 | [] => Ok invalid
                 | ((_, a), _) :: _ => t ← timer_at a q; Ok (expiration_ t)
                 end);
  if valid nextExpired then resetAlarmFd clock nextExpired q else Ok q.

(** [now] is the reading of the clock on entry, [clock] the one in [resetAlarmFd]. *)
Definition handleRead (tid : Z) (now clock : Timestamp) q : outcome (TimerQueue F) :=
  _ ← assertInLoopThread tid q;
  let q := readAlarmfd q in
  '(expired, q) ← getExpired now q;
  q ← run_all tid expired (set_calling true (set_canceling ∅ q));
  reset tid expired now clock (set_calling false q).
End timer_queue.

(** ** Lemmas on times *)
Definition micros (t : Timestamp) : Z := microsecondsFromEpoch_ t.

(** When an alarm request goes off. *)
Definition deadline (al : Timestamp * timespec) : Z :=
  micros al.1 + tv_sec al.2 * 1000000 + tv_nsec al.2 / 1000.

Lemma howMuchTimeFromNow_spec now when ts :
  howMuchTimeFromNow now when = Ok ts →
  0 ≤ tv_nsec ts < 1000000000 ∧ deadline (now, ts) = Z.max (micros when) (micros now + 100).
Proof.
  unfold howMuchTimeFromNow. intros Hrun. apply bind_Ok_inv in Hrun as (d & Hd & Hrun).
  apply i64_check_inv in Hd as [-> _]. injection Hrun as <-.
  unfold deadline, micros, microsecondsFromEpoch, kMicrosecondsPerSecond in *. simpl.
  set (w := microsecondsFromEpoch_ when). set (n := microsecondsFromEpoch_ now).
  assert (Hd : ∃ d, (if w - n <? 100 then 100 else w - n) = d ∧ 100 ≤ d ∧ d = Z.max (w - n) 100).
  { eexists. split; [done|]. destruct (Z.ltb_spec (w - n) 100); lia. }
  destruct Hd as (d & -> & Hd & Hmax).
  rewrite Z.div_mul by done.
  pose proof (Z.quot_rem d 1000000). pose proof (Z.rem_bound_pos d 1000000).
  change (1000 * 1000) with 1000000. lia.
Qed.


(** ** Invariant *)
Section invariant.
Context {F : Type}.
Context (alloc : gmap addr (Timer F) → addr).
Context (effects : F → TimerQueue F → list (tq_call F)).
Implicit Types q : TimerQueue F.

(** A new object has a non-null address of its own; the times that callbacks ask for are
    [int64_t] values. *)
Definition call_typed (c : tq_call F) : Prop :=
  match c with CallAdd _ when _ _ => in_s 64 (micros when) | CallCancel _ => True end.
Context (Halloc : ∀ m, 0 < alloc m ∧ m !! alloc m = None).
Context (Heffects : ∀ cb q, Forall call_typed (effects cb q)).

(** The set is sorted and each entry is a live timer filed under its own expiration. *)
Definition entry_ok (m : gmap addr (Timer F)) (e : timeEntry * unit) : Prop :=
  0 < e.1.2 ∧ in_s 64 (micros e.1.1) ∧ ∃ t, m !! e.1.2 = Some t ∧ expiration_ t = e.1.1.

Record tq_inv q : Prop := {
  inv_sorted : map_sorted (timerList_ q);
  inv_entries : ∀ e, e ∈ timerList_ q → entry_ok (timers q) e;
  inv_repeat : ∀ a t, timers q !! a = Some t → repeat_ t = double_ltb double_zero (interval_ t)
}.

Definition first_time q : option Timestamp :=
  match timerList_ q with [] => None | ((t, _), _) :: _ => Some t end.

(** The alarm goes off in time for a timer that expires at [t]: by then, or 100 us after
    it was set if that is later. *)
Definition alarm_covers q (t : Timestamp) : Prop :=
  ∃ al, alarm_ q = Some al ∧ deadline al ≤ Z.max (micros t) (micros al.1 + 100).

Definition armed q : Prop := ∀ t, first_time q = Some t → alarm_covers q t.

(** While expired timers are being served the alarm is off, but every timer left is in
    the future, or the alarm was set for it. *)
Definition serving q : Prop := ∀ t, first_time q = Some t → 0 < micros t ∨ alarm_covers q t.

Lemma alarm_covers_le q q' t t' :
  alarm_ q' = alarm_ q → micros t ≤ micros t' → alarm_covers q t → alarm_covers q' t'.
Proof. intros Ha Hle (al & Hal & Hd). exists al. rewrite Ha. split; [done|lia]. Qed.

(** *** The ordered set *)
Lemma entry_ltb (t t' : Timestamp) (a a' : addr) :
  std_ltb (t, a) (t', a') = true ↔ micros t < micros t' ∨ (t = t' ∧ a < a').
Proof.
  rewrite pair_ltb_unfold. unfold std_ltb, Timestamp_less, Z_less, timestamp_lt,
    microsecondsFromEpoch, micros. simpl.
  rewrite orb_true_iff, andb_true_iff, negb_true_iff. destruct t as [t], t' as [t']. simpl.
  rewrite !Z.ltb_lt, Z.ltb_ge. split.
  - intros [?|[? ?]]; [by left|]. destruct (decide (t < t')); [by left|].
    right. split; [f_equal; lia|done].
  - intros [?|[[= ->] ?]]; [by left|right; lia].
Qed.

Lemma first_time_least q e :
  tq_inv q → e ∈ timerList_ q → ∃ t, first_time q = Some t ∧ micros t ≤ micros e.1.1.
Proof.
  intros Hinv Hin. pose proof (inv_sorted q Hinv) as Hs. unfold first_time.
  destruct (timerList_ q) as [|[[t a] u] l]; [by apply elem_of_nil in Hin|].
  exists t. split; [done|]. apply (map_sorted_head_least (t, a) u l e Hs) in Hin as [->|Hlt]; [done|].
  destruct e as [[t' a'] u']. apply entry_ltb in Hlt as [?|[-> _]]; simpl; lia.
Qed.

Lemma first_time_in q t : first_time q = Some t → ∃ a u, ((t, a), u) ∈ timerList_ q.
Proof.
  unfold first_time. destruct (timerList_ q) as [|[[t' a] u] l]; [done|].
  intros [= ->]. exists a, u. by left.
Qed.

(** A timer is filed at most once. *)
Lemma entry_unique q t1 t2 a u1 u2 :
  tq_inv q → ((t1, a), u1) ∈ timerList_ q → ((t2, a), u2) ∈ timerList_ q → t1 = t2.
Proof.
  intros Hinv H1 H2. destruct (inv_entries q Hinv _ H1) as (_ & _ & tm1 & Hm1 & E1),
    (inv_entries q Hinv _ H2) as (_ & _ & tm2 & Hm2 & E2). simpl in *. congruence.
Qed.

Lemma entry_ok_sub m m' e : m ⊆ m' → entry_ok m e → entry_ok m' e.
Proof.
  intros Hsub (? & ? & t & Ht & ?). split_and!; [done..|]. exists t. split; [|done].
  by eapply lookup_weaken.
Qed.

(** *** The operations on the state *)
Lemma tq_assertInLoopThread_inv tid q u : assertInLoopThread tid q = Ok u → tq_thread q = tid.
Proof. unfold assertInLoopThread. by destruct (Z.eqb_spec (tq_thread q) tid). Qed.

Lemma tq_assertInLoopThread_ok tid q : tq_thread q = tid → assertInLoopThread tid q = Ok tt.
Proof. unfold assertInLoopThread. intros ->. by rewrite Z.eqb_refl. Qed.

Lemma timer_at_inv a q t : timer_at a q = Ok t → timers q !! a = Some t.
Proof. unfold timer_at. destruct (timers q !! a); [by intros [= ->]|done]. Qed.

Lemma timer_at_ok a q t : timers q !! a = Some t → timer_at a q = Ok t.
Proof. unfold timer_at. by intros ->. Qed.

Definition earliest q (when : Timestamp) : bool :=
  match first_time q with None => true | Some first => timestamp_lt when first end.

(** [insert] succeeds exactly when the entry is not there yet. *)
Lemma insert_run tid a t q :
  tq_thread q = tid → timers q !! a = Some t →
  insert tid a q =
    match map_find (expiration_ t, a) (timerList_ q) with
    | Some _ => Err AssertFailed
    | None => Ok (set_list (map_set (expiration_ t, a) tt (timerList_ q))
                    (set_earliest (earliest q (expiration_ t)) q))
    end.
Proof.
  intros Ht Ha. unfold insert. rewrite tq_assertInLoopThread_ok, (timer_at_ok _ _ _ Ha) by done.
  ok_simpl. unfold map_insert, earliest, first_time.
  destruct (map_find _ _); [done|]. destruct (timerList_ q) as [|[[f b] u] l]; done.
Qed.

Lemma insert_inv tid a q q' :
  insert tid a q = Ok q' → ∃ t, tq_thread q = tid ∧ timers q !! a = Some t ∧
    map_find (expiration_ t, a) (timerList_ q) = None ∧
    q' = set_list (map_set (expiration_ t, a) tt (timerList_ q))
           (set_earliest (earliest q (expiration_ t)) q).
Proof.
  intros Hrun. pose proof Hrun as Hrun'. unfold insert in Hrun'.
  apply bind_Ok_inv in Hrun' as (? & Ht & Hrun'). apply tq_assertInLoopThread_inv in Ht.
  apply bind_Ok_inv in Hrun' as (t & Ha & _). apply timer_at_inv in Ha.
  rewrite (insert_run tid a t q Ht Ha) in Hrun. destruct (map_find _ _) eqn:E; [done|].
  exists t. by injection Hrun as <-.
Qed.

Lemma tq_inv_insert t a q b :
  tq_inv q → 0 < a → in_s 64 (micros (expiration_ t)) → timers q !! a = Some t →
  tq_inv (set_list (map_set (expiration_ t, a) tt (timerList_ q)) (set_earliest b q)).
Proof.
  intros Hinv Ha Hr Ht. split; simpl; [by apply map_set_sorted, Hinv| |apply Hinv].
  intros e [->|[Hin _]]%elem_of_map_set; [| |by apply Hinv].
  - split_and!; [done..|]. eauto.
  - by apply Hinv.
Qed.

(** The first entry's time after an insertion. *)
Lemma first_time_insert t a q b :
  first_time (set_list (map_set (t, a) tt (timerList_ q)) (set_earliest b q)) =
    Some (if earliest q t then t else default t (first_time q)).
Proof.
  unfold earliest, first_time. simpl.
  destruct (timerList_ q) as [|[[f c] u] l]; [done|]. cbn [map_set].
  destruct (timestamp_lt t f) eqn:E.
  - assert (std_ltb (t, a) (f, c) = true) as ->; [|done].
    apply entry_ltb. left. by apply timestamp_lt_spec.
  - destruct (std_ltb (t, a) (f, c)) eqn:E1.
    + apply entry_ltb in E1 as [E1|[-> _]]; [|done].
      apply timestamp_lt_spec in E1. congruence.
    + by destruct (std_ltb (f, c) (t, a)) eqn:E2.
Qed.

Lemma tq_inv_erase k q : tq_inv q → tq_inv (set_list (map_erase k (timerList_ q)) q).
Proof.
  intros Hinv. split; simpl; [by apply map_erase_sorted, Hinv| |apply Hinv].
  intros e [Hin _]%elem_of_map_erase; [|apply Hinv]. by apply Hinv.
Qed.

Lemma first_time_erase k q t :
  tq_inv q → first_time (set_list (map_erase k (timerList_ q)) q) = Some t →
  ∃ t0, first_time q = Some t0 ∧ micros t0 ≤ micros t.
Proof.
  intros Hinv Hf. apply first_time_in in Hf as (a & u & Hin). simpl in Hin.
  apply elem_of_map_erase in Hin as [Hin _]; [|apply Hinv].
  by apply (first_time_least q ((t, a), u)).
Qed.

(** *** Calls from callbacks and clients *)

(** The queue after calls: no timer object changes, entries are old ones or for timers
    created since. *)
Record grows q q' : Prop := {
  grows_thread : tq_thread q' = tq_thread q;
  grows_calling : callingExpiredTimers_ q' = callingExpiredTimers_ q;
  grows_timers : timers q ⊆ timers q';
  grows_list : ∀ e, e ∈ timerList_ q' → e ∈ timerList_ q ∨ timers q !! e.1.2 = None
}.

Lemma grows_refl q : grows q q.
Proof. split; auto. Qed.

Lemma grows_trans q1 q2 q3 : grows q1 q2 → grows q2 q3 → grows q1 q3.
Proof.
  intros [] []. split; try congruence; [by etrans|].
  intros e He. destruct (grows_list1 e He) as [He'|Hnone]; [by auto|].
  right. by eapply lookup_weaken_None.
Qed.

Lemma grows_make cb when interval q :
  tq_inv q → let '(a, q') := make_timer alloc cb when interval q in
  tq_inv q' ∧ grows q q' ∧ timerList_ q' = timerList_ q ∧ alarm_ q' = alarm_ q ∧
  ran_ q' = ran_ q ∧ 0 < a ∧ timers q !! a = None ∧ ∃ t, timers q' !! a = Some t ∧ expiration_ t = when.
Proof.
  intros Hinv. unfold make_timer, Timer_ctor. destruct (Halloc (timers q)) as [Hpos Hnone].
  set (a := alloc (timers q)) in *. set (t := mkTimer _ _ _ _ _).
  assert (Hsub : timers q ⊆ <[a := t]> (timers q)) by by apply insert_subseteq.
  split_and!; [|split; simpl; auto|done..|].
  - split; simpl; [apply Hinv| |].
    + intros e He. eapply entry_ok_sub; [done|by apply Hinv].
    + intros b t' [[<- <-]|[_ Ht']]%lookup_insert_Some; [done|by eapply inv_repeat].
  - exists t. simpl. by rewrite lookup_insert_eq.
Qed.

(** Both alarm conditions survive an operation. *)
Definition keeps_alarm q q' : Prop := (armed q → armed q') ∧ (serving q → serving q').

Lemma resetAlarmFd_inv clock t q q' :
  resetAlarmFd clock t q = Ok q' →
  ∃ ts, q' = set_alarm (Some (clock, ts)) q ∧
    deadline (clock, ts) = Z.max (micros t) (micros clock + 100).
Proof.
  unfold resetAlarmFd. intros Hrun. apply bind_Ok_inv in Hrun as (ts & Hts & [= <-]).
  exists ts. split; [done|]. by apply howMuchTimeFromNow_spec.
Qed.

Lemma addTimerInLoop_inv tid clock a q q' t :
  tq_inv q → 0 < a → timers q !! a = Some t → in_s 64 (micros (expiration_ t)) →
  addTimerInLoop tid clock a q = Ok q' →
  tq_inv q' ∧ keeps_alarm q q' ∧ tq_thread q' = tq_thread q ∧ ran_ q' = ran_ q ∧
  callingExpiredTimers_ q' = callingExpiredTimers_ q ∧
  timers q' = timers q ∧ timerList_ q' = map_set (expiration_ t, a) tt (timerList_ q).
Proof.
  intros Hinv Hpos Ha Hr Hrun. unfold addTimerInLoop in Hrun.
  apply bind_Ok_inv in Hrun as (_ & _ & Hrun). apply bind_Ok_inv in Hrun as (q1 & Hins & Hrun).
  apply insert_inv in Hins as (t' & _ & Ha' & _ & ->). simplify_eq.
  rewrite (timer_at_ok _ _ t) in Hrun by done. ok_simpl in Hrun.
  assert (Hinv1 : tq_inv (set_list (map_set (expiration_ t, a) tt (timerList_ q))
    (set_earliest (earliest q (expiration_ t)) q))) by by apply tq_inv_insert.
  pose proof (first_time_insert (expiration_ t) a q (earliest q (expiration_ t))) as Hfirst.
  simpl in Hrun. destruct (earliest q (expiration_ t)) eqn:He.
  - apply resetAlarmFd_inv in Hrun as (ts & -> & Hd).
    assert (Hcov : ∀ t', first_time (set_alarm (Some (clock, ts)) (set_list
        (map_set (expiration_ t, a) tt (timerList_ q)) (set_earliest true q))) = Some t' →
      alarm_covers (set_alarm (Some (clock, ts)) (set_list
        (map_set (expiration_ t, a) tt (timerList_ q)) (set_earliest true q))) t').
    { intros t' Ht'. change (first_time (set_list (map_set (expiration_ t, a) tt (timerList_ q))
        (set_earliest true q)) = Some t') in Ht'. rewrite Hfirst in Ht'. injection Ht' as <-.
      exists (clock, ts). split; [done|]. simpl. lia. }
    split_and!; [by destruct Hinv1|split; [by intros _|intros _ t' Ht'; right; auto]|done..].
  - injection Hrun as <-.
    assert (Hsame : first_time (set_list (map_set (expiration_ t, a) tt (timerList_ q))
      (set_earliest false q)) = first_time q).
    { rewrite Hfirst. unfold earliest in He. by destruct (first_time q). }
    split_and!; [done| |done..]. split; intros Hal t'; rewrite Hsame; apply Hal.
Qed.

Lemma cancelTimer_inv tid id q q' :
  tq_inv q → cancelTimer tid id q = Ok q' →
  tq_inv q' ∧ keeps_alarm q q' ∧ grows q q' ∧ ran_ q' = ran_ q.
Proof.
  intros Hinv Hrun. unfold cancelTimer, cancelTimerInLoop in Hrun.
  apply bind_Ok_inv in Hrun as (_ & _ & Hrun). destruct (timer_ id) as [a|]; [|done].
  apply bind_Ok_inv in Hrun as (t & _ & Hrun). destruct (map_find _ _).
  - injection Hrun as <-. split_and!; [by apply tq_inv_erase| | |done].
    + split; intros Hal t' Ht'; apply first_time_erase in Ht' as (t0 & Ht0 & Hle); try done.
      * eapply alarm_covers_le; [done..|by apply Hal].
      * destruct (Hal t0 Ht0) as [|]; [left; lia|right]. by eapply alarm_covers_le.
    + split; simpl; [done..|]. intros e [He _]%elem_of_map_erase; [by left|apply Hinv].
  - destruct (callingExpiredTimers_ q); injection Hrun as <-;
      (split_and!; [by destruct Hinv|split; auto|split; auto|done]).
Qed.

Lemma exec_call_inv tid c q q' :
  tq_inv q → call_typed c → exec_call alloc tid c q = Ok q' →
  tq_inv q' ∧ keeps_alarm q q' ∧ grows q q' ∧ ran_ q' = ran_ q.
Proof.
  intros Hinv Hc Hrun. destruct c as [cb when interval clock|id]; simpl in Hrun;
    [|by eapply cancelTimer_inv].
  apply bind_Ok_inv in Hrun as ([id q1] & Hrun & [= <-]).
  unfold addTimer in Hrun. pose proof (grows_make cb when interval q Hinv) as Hmake.
  destruct (make_timer _ _ _ _ _) as [a q0].
  destruct Hmake as (Hinv0 & Hg & Hl & Hal & Hrq & Hpos & Hnone & t & Ht & Hexp).
  apply bind_Ok_inv in Hrun as (q2 & Hadd & Hrun). apply bind_Ok_inv in Hrun as (t' & _ & [= _ <-]).
  simpl in Hc. rewrite <- Hexp in Hc.
  destruct (addTimerInLoop_inv _ _ _ _ _ _ Hinv0 Hpos Ht Hc Hadd)
    as (Hinv' & [Harm Hserv] & Hth & Hran & Hcall & Htim & Hlist).
  assert (Hft : first_time q0 = first_time q) by (unfold first_time; by rewrite Hl).
  split_and!; [done| | |by rewrite Hran].
  - split; intros Hal0; [apply Harm|apply Hserv]; intros t1 Ht1; rewrite Hft in Ht1.
    + eapply alarm_covers_le; [done..|by apply Hal0].
    + destruct (Hal0 _ Ht1); [by left|right]. by eapply alarm_covers_le.
  - destruct Hg. split; [congruence..|by rewrite Htim|].
    intros e. rewrite Hlist, Hl. intros [->|[He _]]%elem_of_map_set; [by right|by left|apply Hinv].
Qed.

Lemma keeps_alarm_trans q1 q2 q3 :
  keeps_alarm q1 q2 → keeps_alarm q2 q3 → keeps_alarm q1 q3.
Proof. intros [] []. split; auto. Qed.

Lemma exec_calls_inv tid cs q q' :
  tq_inv q → Forall call_typed cs → exec_calls alloc tid cs q = Ok q' →
  tq_inv q' ∧ keeps_alarm q q' ∧ grows q q' ∧ ran_ q' = ran_ q.
Proof.
  revert q. induction cs as [|c cs IH]; simpl; intros q Hinv Hcs Hrun.
  - injection Hrun as <-. split_and!; [done|by split|apply grows_refl|done].
  - apply Forall_cons in Hcs as [Hc Hcs]. apply bind_Ok_inv in Hrun as (q1 & Hrun1 & Hrun).
    destruct (exec_call_inv _ _ _ _ Hinv Hc Hrun1) as (Hinv1 & ? & ? & ?).
    destruct (IH _ Hinv1 Hcs Hrun) as (? & ? & ? & ?).
    split_and!; [done|by eapply keeps_alarm_trans|by eapply grows_trans|by etrans].
Qed.

Lemma run_inv tid a q q' :
  tq_inv q → run alloc effects tid a q = Ok q' →
  tq_inv q' ∧ keeps_alarm q q' ∧ grows q q' ∧ ran_ q' = ran_ q ++ [a].
Proof.
  intros Hinv Hrun. unfold run in Hrun. apply bind_Ok_inv in Hrun as (t & _ & Hrun).
  apply exec_calls_inv in Hrun as (? & ? & [] & ?); [|by destruct Hinv|apply Heffects].
  by split_and!.
Qed.

Lemma run_all_inv tid es q q' :
  tq_inv q → run_all alloc effects tid es q = Ok q' →
  tq_inv q' ∧ keeps_alarm q q' ∧ grows q q' ∧ ran_ q' = ran_ q ++ map (λ e, e.1.2) es.
Proof.
  revert q. induction es as [|[e u] es IH]; simpl; intros q Hinv Hrun.
  - injection Hrun as <-. rewrite app_nil_r. split_and!; [done|by split|apply grows_refl|done].
  - apply bind_Ok_inv in Hrun as (q1 & Hrun1 & Hrun).
    destruct (run_inv _ _ _ _ Hinv Hrun1) as (Hinv1 & ? & ? & Hr).
    destruct (IH _ Hinv1 Hrun) as (? & ? & ? & Hr2).
    split_and!; [done|by eapply keeps_alarm_trans|by eapply grows_trans|].
    by rewrite Hr2, Hr, <- app_assoc.
Qed.

(** *** Expired timers *)
Definition expired_at (now : Timestamp) (e : timeEntry * unit) : bool :=
  micros e.1.1 <=? micros now.

Definition expired_entries (now : Timestamp) q := List.filter (expired_at now) (timerList_ q).
Definition future_entries (now : Timestamp) q :=
  List.filter (λ e, negb (expired_at now e)) (timerList_ q).

(** At most one timer expires at the very instant [now]. *)
Definition no_tie (now : Timestamp) q : Prop :=
  ∀ a b u v, ((now, a), u) ∈ timerList_ q → ((now, b), v) ∈ timerList_ q → a = b.

Lemma filter_all {A} (f : A → bool) l : Forall (λ x, f x = true) l → List.filter f l = l.
Proof. induction 1 as [|x l Hx _ IH]; simpl; [done|]. by rewrite Hx, IH. Qed.

Lemma filter_none {A} (f : A → bool) l : Forall (λ x, f x = false) l → List.filter f l = [].
Proof. induction 1 as [|x l Hx _ IH]; simpl; [done|]. by rewrite Hx. Qed.

(** A split of the list at [now] is the split into expired and future entries. *)
Lemma split_filters now q l1 l2 :
  timerList_ q = l1 ++ l2 → Forall (λ e, expired_at now e = true) l1 →
  Forall (λ e, expired_at now e = false) l2 →
  expired_entries now q = l1 ∧ future_entries now q = l2.
Proof.
  intros Hl H1 H2. unfold expired_entries, future_entries. rewrite Hl, !List.filter_app.
  rewrite (filter_all _ l1 H1), (filter_none _ l2 H2), app_nil_r. split; [done|].
  rewrite filter_none, filter_all; [done| |].
  - eapply Forall_impl; [exact H2|]. by intros e ->.
  - eapply Forall_impl; [exact H1|]. by intros e ->.
Qed.

Lemma lower_bound_split now q lo hi :
  tq_inv q → map_lower_bound (now, 0) (timerList_ q) = (lo, hi) →
  timerList_ q = lo ++ hi ∧ Forall (λ e, micros e.1.1 < micros now) lo ∧
  Forall (λ e, micros now ≤ micros e.1.1) hi.
Proof.
  intros Hinv Hlb. pose proof (map_lower_bound_app _ _ _ _ Hlb) as Hl. split; [done|].
  assert (Hpos : ∀ e, e ∈ timerList_ q → 0 < e.1.2) by (intros e He; by apply Hinv).
  rewrite Hl in Hpos. split; apply Forall_forall; intros e He.
  - pose proof (map_lower_bound_lo _ _ _ _ Hlb) as Hlo. rewrite Forall_forall in Hlo.
    specialize (Hlo e He). destruct e as [[t a] u]. apply entry_ltb in Hlo as [|[-> Ha]]; [done|].
    specialize (Hpos ((now, a), u)). simpl in *. rewrite elem_of_app in Hpos. 
    assert (0 < a) by (apply Hpos; by left). lia.
  - pose proof (map_lower_bound_hi _ _ _ _ (inv_sorted q Hinv) Hlb) as Hhi.
    rewrite Forall_forall in Hhi. specialize (Hhi e He). destruct e as [[t a] u]. simpl in *.
    destruct (Z.le_gt_cases (micros now) (micros t)) as [|Hlt]; [done|].
    assert (std_ltb (t, a) (now, 0) = true) by (apply entry_ltb; left; lia). congruence.
Qed.

Lemma micros_inj t t' : micros t = micros t' → t = t'.
Proof. destruct t, t'; simpl. by intros ->. Qed.

Lemma getExpired_run now q :
  tq_inv q → no_tie now q →
  getExpired now q = Ok (expired_entries now q, set_list (future_entries now q) q).
Proof.
  intros Hinv Htie. unfold getExpired.
  destruct (map_lower_bound (now, 0) (timerList_ q)) as [lo hi] eqn:Hlb.
  destruct (lower_bound_split _ _ _ _ Hinv Hlb) as (Hl & Hlo & Hhi).
  assert (Hlo' : Forall (λ e, expired_at now e = true) lo).
  { eapply Forall_impl; [exact Hlo|]. intros e He. apply Z.leb_le. simpl in He. lia. }
  assert (Hdone : ∀ l1 l2, timerList_ q = l1 ++ l2 → Forall (λ e, expired_at now e = true) l1 →
    Forall (λ e, micros now < micros e.1.1) l2 →
    (_ ← assert_ (match l2 with [] => true | ((t, _), _) :: _ => timestamp_lt now t end);
     Ok (l1, set_list l2 q)) = Ok (expired_entries now q, set_list (future_entries now q) q)).
  { intros l1 l2 Hsplit H1 H2. rewrite assert_true.
    2: { destruct H2 as [|[[t a] u] l2 Ht _]; [done|]. by apply timestamp_lt_spec. }
    destruct (split_filters now q l1 l2 Hsplit H1) as [-> ->]; [|done].
    eapply Forall_impl; [exact H2|]. intros e He. apply Z.leb_gt. simpl in He. lia. }
  destruct hi as [|[[t a] u] hi]; [by apply Hdone|].
  apply Forall_cons in Hhi as [Ht Hhi]. simpl in Ht.
  pose proof (inv_sorted q Hinv) as Hs. rewrite Hl in Hs.
  apply map_sorted_app_inv in Hs as [_ Hs]. apply map_sorted_cons_inv in Hs as [_ Hs].
  assert (Hafter : ∀ e, e ∈ hi → micros t ≤ micros e.1.1).
  { intros [[t2 a2] u2] He. rewrite Forall_forall in Hs. specialize (Hs _ He).
    apply entry_ltb in Hs as [?|[-> _]]; simpl; lia. }
  destruct (timestamp_eq t now) eqn:Heq.
  - apply timestamp_eq_spec in Heq as ->. apply Hdone.
    + by rewrite <- app_assoc.
    + apply Forall_app. split; [done|]. constructor; [|done]. apply Z.leb_refl.
    + apply Forall_forall. intros [[t2 a2] u2] He. simpl.
      specialize (Hafter _ He). simpl in Hafter.
      destruct (Z.eq_dec (micros now) (micros t2)) as [E|]; [|lia]. exfalso.
      apply micros_inj in E as <-. rewrite Forall_forall in Hs. specialize (Hs _ He).
      apply entry_ltb in Hs as [?|[_ Hlt]]; [lia|].
      assert (a = a2); [|lia]. eapply Htie; rewrite Hl; apply elem_of_app; right;
        apply elem_of_cons; [by left|by right].
  - apply Hdone; [done..|]. 
    assert (micros t ≠ micros now).
    { intros E%micros_inj. subst. rewrite (proj2 (timestamp_eq_spec _ _)) in Heq; done. }
    constructor; [simpl; lia|]. apply Forall_forall. intros e He. specialize (Hafter e He). lia.
Qed.

(** *** Restarting *)
Definition not_filed (a : addr) q : Prop := ∀ t u, (((t, a), u) ∈ timerList_ q) → False.

Lemma tq_inv_heap a t t' q :
  tq_inv q → not_filed a q → timers q !! a = Some t → repeat_ t' = repeat_ t →
  interval_ t' = interval_ t → tq_inv (set_timers (<[a := t']> (timers q)) q).
Proof.
  intros Hinv Hnot Ht Hrep Hint. split; simpl; [apply Hinv| |].
  - intros [[t0 b] u] He. destruct (inv_entries q Hinv _ He) as (? & ? & tb & Htb & ?).
    split_and!; [done..|]. exists tb. split; [|done]. simpl in *.
    rewrite lookup_insert_ne; [done|]. intros <-. by apply (Hnot t0 u).
  - intros b tb [[<- <-]|[_ Hb]]%lookup_insert_Some; [|by eapply inv_repeat].
    rewrite Hrep, Hint. by eapply inv_repeat.
Qed.

(** The timers [reset] files again, with their new time. *)
Definition restarts q (now : Timestamp) (a : addr) (e : Timestamp) : Prop :=
  ∃ t, timers q !! a = Some t ∧ repeat_ t = true ∧ (a ∉ cancelingTimers_ q) ∧
    addTime now (interval_ t) = Ok e.

Definition refiled (e : Timestamp) (a : addr) (t : Timer F) q : TimerQueue F :=
  let q0 := set_timers (<[a := with_expiration t e]> (timers q)) q in
  set_list (map_set (e, a) tt (timerList_ q)) (set_earliest (earliest q e) q0).

Lemma insert_restarted tid e a t q :
  tq_inv q → tq_thread q = tid → not_filed a q → timers q !! a = Some t →
  insert tid a (set_timers (<[a := with_expiration t e]> (timers q)) q) = Ok (refiled e a t q).
Proof.
  intros Hinv Htid Hnot Ht.
  rewrite (insert_run tid a (with_expiration t e)) by (simpl; by rewrite ?lookup_insert_eq).
  simpl. destruct (map_find (e, a) (timerList_ q)) as [u|] eqn:Hf; [|done].
  apply map_find_elem in Hf; [|apply Hinv]. by apply Hnot in Hf.
Qed.

Lemma refiled_inv e a t q now :
  tq_inv q → 0 < a → not_filed a q → timers q !! a = Some t → repeat_ t = true →
  addTime now (interval_ t) = Ok e → 0 < micros now →
  tq_inv (refiled e a t q) ∧ (serving q → serving (refiled e a t q)).
Proof.
  intros Hinv Ha Hnot Ht Hrep Hadd Hnow.
  rewrite (inv_repeat q Hinv a t Ht) in Hrep.
  destruct (addTime_forward _ _ _ Hrep Hadd) as [Hle Hr]. fold (micros e) (micros now) in *.
  split.
  - apply (tq_inv_insert (with_expiration t e) a
      (set_timers (<[a := with_expiration t e]> (timers q)) q)); [|done|done|simpl; by rewrite lookup_insert_eq].
    by eapply tq_inv_heap.
  - intros Hserv t1 Ht1. unfold refiled in Ht1.
    change (first_time (set_list (map_set (e, a) tt (timerList_ q)) (set_earliest (earliest q e) q))
      = Some t1) in Ht1.
    rewrite first_time_insert in Ht1. injection Ht1 as <-. destruct (earliest q e) eqn:He; [left; lia|].
    unfold earliest in He. destruct (first_time q) as [t0|] eqn:Ht0; [|done]. simpl.
    destruct (Hserv t0 Ht0); [by left|right]. by eapply alarm_covers_le.
Qed.

Definition reset_pre (es : list (timeEntry * unit)) q : Prop :=
  Forall (λ e, 0 < e.1.2 ∧ is_Some (timers q !! e.1.2) ∧ not_filed e.1.2 q) es ∧
  NoDup (map (λ e, e.1.2) es).

Lemma reset_pre_refiled e0 e a t u es q :
  reset_pre (((e0, a), u) :: es) q → tq_inv q → reset_pre es (refiled e a t q).
Proof.
  intros [Hes Hnd] Hinv. apply Forall_cons in Hes as [_ Hes]. apply NoDup_cons in Hnd as [Hni Hnd].
  split; [|done]. apply Forall_forall. intros e1 He1. rewrite Forall_forall in Hes.
  destruct (Hes e1 He1) as (? & ? & Hnot). split_and!; [done| |].
  - simpl. destruct (decide (a = e1.1.2)) as [->|]; [by rewrite lookup_insert_eq|].
    by rewrite lookup_insert_ne.
  - intros t2 u2. simpl. intros [[= _ Heq _]|[Hin _]]%elem_of_map_set; [| |apply Hinv].
    + apply Hni. simpl in *. rewrite <- Heq. by apply (list_elem_of_fmap_2 (λ e, e.1.2)).
    + by apply Hnot in Hin.
Qed.

(** What [reset]'s loop does to the queue. *)
Record reset_post (es : list (timeEntry * unit)) (now : Timestamp) q q' : Prop := {
  post_inv : tq_inv q';
  post_serving : serving q → serving q';
  post_alarm : alarm_ q' = alarm_ q;
  post_ran : ran_ q' = ran_ q;
  post_list : ∀ e, e ∈ timerList_ q' ↔ e ∈ timerList_ q ∨
    (e.1.2 ∈ map (λ e, e.1.2) es ∧ restarts q now e.1.2 e.1.1)
}.

Lemma restarts_refiled e a t q now b e' :
  a ≠ b → restarts (refiled e a t q) now b e' ↔ restarts q now b e'.
Proof. intros Hne. unfold restarts. simpl. by rewrite lookup_insert_ne. Qed.

Lemma reset_loop_inv tid es now q q' :
  tq_inv q → 0 < micros now → reset_pre es q → reset_loop tid es now q = Ok q' →
  reset_post es now q q'.
Proof.
  revert q. induction es as [|[[e0 a] u] es IH]; intros q Hinv Hnow Hpre Hrun.
  { injection Hrun as <-. split; [done..|]. intros e. simpl. split; [by left|].
    intros [|[Hin _]]; [done|by apply elem_of_nil in Hin]. }
  pose proof Hpre as [Hes Hnd]. apply Forall_cons in Hes as [(Ha & _ & Hnot) Hes].
  apply NoDup_cons in Hnd as [Hni Hnd]. simpl in Ha, Hnot, Hni.
  simpl in Hrun. apply bind_Ok_inv in Hrun as (t & Ht & Hrun). apply timer_at_inv in Ht.
  destruct (repeat_ t && negb (bool_decide (a ∈ cancelingTimers_ q))) eqn:Hcond.
  - apply andb_true_iff in Hcond as [Hrep Hcanc]. rewrite negb_true_iff, bool_decide_eq_false in Hcanc.
    apply bind_Ok_inv in Hrun as (q1 & Hrun1 & Hrun).
    unfold restart in Hrun1. rewrite Hrep in Hrun1.
    apply bind_Ok_inv in Hrun1 as (t' & Ht' & Hrun1).
    apply bind_Ok_inv in Ht' as (e & Hadd & [= <-]).
    assert (Htid : tq_thread q = tid) by (by apply insert_inv in Hrun1 as (? & ? & _)).
    rewrite (insert_restarted tid e a t q) in Hrun1 by done. injection Hrun1 as <-.
    destruct (refiled_inv e a t q now) as [Hinv1 Hserv1]; [done..|].
    destruct (IH _ Hinv1 Hnow (reset_pre_refiled _ _ _ _ _ _ _ Hpre Hinv) Hrun) as [? ? ? ? Hl].
    split; [done|auto|done|done|]. intros [[e1 b] v]. rewrite Hl. simpl.
    rewrite elem_of_map_set, elem_of_cons by apply Hinv. simpl. split.
    + intros [[[= -> ->]|[Hin _]]|[Hb Hre]]; [|by left|].
      * right. split; [by left|]. by exists t.
      * right. split; [by right|]. apply restarts_refiled in Hre; [done|]. intros <-. done.
    + intros [Hin|[[->|Hb] Hre]].
      * left. right. split; [done|]. intros [= -> ->]. by apply Hnot in Hin.
      * left. left. destruct Hre as (t2 & Ht2 & _ & _ & Hadd2). simpl in *.
        destruct v. congruence.
      * right. split; [done|]. apply restarts_refiled; [|done]. intros <-. done.
  - simpl in Hrun. assert (Hpre' : reset_pre es q) by done.
    destruct (IH _ Hinv Hnow Hpre' Hrun) as [? ? ? ? Hl].
    split; [done..|]. intros e. rewrite Hl. simpl. rewrite elem_of_cons.
    split; [naive_solver|]. intros [|[[Heq|] Hre]]; [by left| |by right].
    rewrite Heq in Hre. destruct Hre as (t2 & Ht2 & Hrep & Hc & _). simplify_eq.
    rewrite Hrep, bool_decide_eq_false_2 in Hcond by done. done.
Qed.

Lemma reset_loop_total tid es now q :
  tq_inv q → tq_thread q = tid → 0 < micros now → reset_pre es q →
  (∀ a t, timers q !! a = Some t → repeat_ t = true → ∃ e, addTime now (interval_ t) = Ok e) →
  ∃ q', reset_loop tid es now q = Ok q'.
Proof.
  revert q. induction es as [|[[e0 a] u] es IH]; intros q Hinv Htid Hnow Hpre Hadd; [by eexists|].
  pose proof Hpre as [Hes Hnd]. apply Forall_cons in Hes as [(Ha & [t Ht] & Hnot) Hes].
  apply NoDup_cons in Hnd as [_ Hnd]. simpl in Ha, Ht, Hnot |- *.
  rewrite (timer_at_ok _ _ _ Ht). ok_simpl.
  destruct (repeat_ t && _) eqn:Hcond; [|by apply IH].
  apply andb_true_iff in Hcond as [Hrep _]. unfold restart. rewrite Hrep.
  destruct (Hadd a t Ht Hrep) as [e He]. rewrite He. ok_simpl.
  rewrite (insert_restarted tid e a t q) by done. ok_simpl.
  apply IH; [by eapply refiled_inv|done|done|by eapply reset_pre_refiled|].
  intros b tb Hb Hr. cbn [refiled timers set_list set_earliest set_timers] in Hb.
  apply lookup_insert_Some in Hb as [[<- <-]|[_ Hb]]; [by exists e|by eapply Hadd].
Qed.

(** *** Serving the expired timers *)
Lemma map_sorted_filter (f : timeEntry * unit → bool) l : map_sorted l → map_sorted (List.filter f l).
Proof.
  induction 1 as [|e l Hs IH Hlt]; simpl; [constructor|]. destruct (f e); [|done].
  constructor; [done|]. apply Forall_forall. intros x [Hx _]%list_elem_of_In%filter_In.
  rewrite Forall_forall in Hlt. by apply Hlt, list_elem_of_In.
Qed.

Lemma elem_of_filter_list {A} (f : A → bool) l x : x ∈ List.filter f l ↔ x ∈ l ∧ f x = true.
Proof. by rewrite list_elem_of_In, filter_In, <- list_elem_of_In. Qed.

Lemma map_sorted_NoDup (l : list (timeEntry * unit)) : map_sorted l → NoDup l.
Proof.
  induction 1 as [|e l Hs IH Hlt]; constructor; [|done]. intros Hin.
  rewrite Forall_forall in Hlt. specialize (Hlt e Hin). unfold key_lt in Hlt.
  by rewrite std_ltb_irrefl in Hlt.
Qed.

(** The state when the callbacks start. *)
Definition served (now : Timestamp) q : TimerQueue F :=
  set_calling true (set_canceling ∅ (set_list (future_entries now q) (readAlarmfd q))).

Lemma served_inv now q :
  tq_inv q → 0 < micros now → tq_inv (served now q) ∧ serving (served now q).
Proof.
  intros Hinv Hnow. split.
  - split; simpl; [by apply map_sorted_filter, Hinv| |apply Hinv].
    intros e [He _]%elem_of_filter_list. by apply Hinv.
  - intros t Ht. left. apply first_time_in in Ht as (a & u & Hin). simpl in Hin.
    apply elem_of_filter_list in Hin as [_ Hf]. apply negb_true_iff, Z.leb_gt in Hf. simpl in Hf. lia.
Qed.

Lemma expired_reset_pre now q q' :
  tq_inv q → grows (served now q) q' → reset_pre (expired_entries now q) q'.
Proof.
  intros Hinv Hg. split.
  - apply Forall_forall. intros [[t a] u] [He Hexp]%elem_of_filter_list.
    destruct (inv_entries q Hinv _ He) as (Ha & _ & tm & Htm & _). simpl in *.
    split_and!; [done| |].
    + exists tm. eapply lookup_weaken; [done|]. by apply (grows_timers _ _ Hg).
    + intros t2 u2 Hin. destruct (grows_list _ _ Hg _ Hin) as [Hf|Hnone]; simpl in *; [|congruence].
      apply elem_of_filter_list in Hf as [Hin2 Hf].
      assert (t2 = t) as -> by by eapply entry_unique.
      unfold expired_at in *. simpl in *. by rewrite Hexp in Hf.
  - apply (NoDup_fmap_2_strong (λ e : timeEntry * unit, e.1.2)).
    + intros [[t1 a1] []] [[t2 a2] []] H1 H2 Heq. simpl in Heq. subst a2.
      apply elem_of_filter_list in H1 as [H1 _], H2 as [H2 _].
      by rewrite (entry_unique q t1 t2 a1 tt tt Hinv H1 H2).
    + by apply map_sorted_NoDup, map_sorted_filter, Hinv.
Qed.

(** [getExpired]'s assertion excludes ties. *)
Lemma getExpired_no_tie now q r : tq_inv q → getExpired now q = Ok r → no_tie now q.
Proof.
  intros Hinv Hrun a b u v Ha Hb. unfold getExpired in Hrun.
  destruct (map_lower_bound (now, 0) (timerList_ q)) as [lo hi] eqn:Hlb.
  destruct (lower_bound_split _ _ _ _ Hinv Hlb) as (Hl & Hlo & Hhi).
  rewrite Forall_forall in Hlo.
  assert (Hin : ∀ c w, ((now, c), w) ∈ timerList_ q → ((now, c), w) ∈ hi).
  { intros c w Hc. rewrite Hl in Hc. apply elem_of_app in Hc as [Hc|Hc]; [|done].
    specialize (Hlo _ Hc). simpl in Hlo. lia. }
  apply Hin in Ha, Hb. clear Hin.
  pose proof (inv_sorted q Hinv) as Hs. rewrite Hl in Hs. apply map_sorted_app_inv in Hs as [_ Hs].
  assert (Hgt : ∀ l : list (timeEntry * unit), map_sorted l →
    match l with [] => true | ((t, _), _) :: _ => timestamp_lt now t end = true →
    ∀ (c : addr) (w : unit), ((now, c), w) ∈ l → False).
  { intros [|[[t c] w] l] Hsl Hlt c2 w2 Hin; [by apply elem_of_nil in Hin|].
    apply timestamp_lt_spec in Hlt. fold (micros now) (micros t) in Hlt.
    apply (map_sorted_head_least (t, c) w l _ Hsl) in Hin as [Heq|Hk].
    - assert (now = t) as <- by congruence. lia.
    - simpl in Hk. apply entry_ltb in Hk as [Hk|[Heq _]]; [lia|]. rewrite Heq in Hlt. lia. }
  destruct hi as [|[[t c] w] hi]; [by apply elem_of_nil in Ha|].
  destruct (timestamp_eq t now) eqn:Heq.
  - apply timestamp_eq_spec in Heq as ->. apply bind_Ok_inv in Hrun as (? & Hlt & _).
    apply assert_Ok_inv in Hlt. apply map_sorted_cons_inv in Hs as [Hs _].
    specialize (Hgt hi Hs Hlt).
    apply elem_of_cons in Ha as [[= <- _]|Ha], Hb as [[= <- _]|Hb]; [done|..];
      exfalso; by eapply Hgt.
  - apply bind_Ok_inv in Hrun as (? & Hlt & _). apply assert_Ok_inv in Hlt.
    exfalso. by eapply (Hgt _ Hs Hlt).
Qed.

(** The end of [reset] arms the alarm for the first entry. *)
Lemma reset_arms clock q q' :
  tq_inv q → serving q →
  (nextExpired ← (match timerList_ q with
                 | [] => Ok invalid
                 | ((_, a), _) :: _ => t ← timer_at a q; Ok (expiration_ t)
                 end);
   if valid nextExpired then resetAlarmFd clock nextExpired q else Ok q) = Ok q' →
  tq_inv q' ∧ armed q' ∧ timerList_ q' = timerList_ q ∧ ran_ q' = ran_ q.
Proof.
  intros Hinv Hserv Hrun. destruct (timerList_ q) as [|[[t a] u] l] eqn:Hl.
  - simpl in Hrun. injection Hrun as <-. split_and!; [done| |done..].
    intros t Ht. unfold first_time in Ht. by rewrite Hl in Ht.
  - destruct (inv_entries q Hinv ((t, a), u)) as (_ & _ & tm & Htm & Hexp); [rewrite Hl; by left|].
    simpl in Htm, Hexp. rewrite (timer_at_ok _ _ _ Htm) in Hrun. ok_simpl in Hrun.
    rewrite Hexp in Hrun.
    assert (Hft : first_time q = Some t) by (unfold first_time; by rewrite Hl).
    destruct (valid t) eqn:Hv.
    + apply resetAlarmFd_inv in Hrun as (ts & -> & Hd).
      split_and!; [by destruct Hinv| |done..]. intros t2 Ht2.
      change (first_time q = Some t2) in Ht2. exists (clock, ts). split; [done|].
      simpl. assert (t2 = t) as -> by congruence. lia.
    + injection Hrun as <-. split_and!; [done| |done..]. intros t2 Ht2.
      assert (t2 = t) as -> by congruence. destruct (Hserv t Hft) as [Hpos|]; [|done].
      apply Z.ltb_ge in Hv. fold (micros t) in Hv. lia.
Qed.

Lemma handleRead_inv tid now clock q q' :
  tq_inv q → 0 < micros now → handleRead alloc effects tid now clock q = Ok q' →
  tq_inv q' ∧ armed q'.
Proof.
  intros Hinv Hnow Hrun. unfold handleRead in Hrun.
  apply bind_Ok_inv in Hrun as (_ & _ & Hrun).
  assert (Hinv0 : tq_inv (readAlarmfd q)) by by destruct Hinv.
  apply bind_Ok_inv in Hrun as ([es q0] & Hget & Hrun).
  pose proof (getExpired_no_tie _ _ _ Hinv0 Hget) as Htie.
  rewrite getExpired_run in Hget by done. injection Hget as <- <-.
  apply bind_Ok_inv in Hrun as (q1 & Hcbs & Hrun).
  destruct (served_inv now q Hinv Hnow) as [Hsinv Hsserv].
  destruct (run_all_inv tid _ _ _ Hsinv Hcbs) as (Hinv1 & [_ Hserv1] & Hg & _).
  unfold reset in Hrun. apply bind_Ok_inv in Hrun as (q2 & Hloop & Hrun).
  destruct (reset_loop_inv tid (expired_entries now q) now (set_calling false q1) q2)
    as [Hinv2 Hserv2 _ _ _]; [by destruct Hinv1|done|by apply expired_reset_pre in Hg|done|].
  apply reset_arms in Hrun as (? & ? & _); [done|done|]. apply Hserv2.
  by apply Hserv1.
Qed.
End invariant.

(** ** Properties *)

(** A run of the queue in its loop: calls by clients and callbacks, and timer expirations. *)
Inductive tq_step {F} (alloc : gmap addr (Timer F) → addr)
    (effects : F → TimerQueue F → list (tq_call F)) (tid : Z) (q q' : TimerQueue F) : Prop :=
| step_call c : call_typed c → exec_call alloc tid c q = Ok q' → tq_step alloc effects tid q q'
| step_read now clock : 0 < micros now →
    handleRead alloc effects tid now clock q = Ok q' → tq_step alloc effects tid q q'.

Lemma tq_inv_ctor {F} tid : tq_inv (TimerQueue_ctor (F := F) tid).
Proof.
  split; simpl; [constructor|by intros e He%elem_of_nil|]. intros a t. by rewrite lookup_empty.
Qed.

(** C12: no timer is lost.  In every state the queue reaches from its construction by
    adding and cancelling timers (from clients and from callbacks, during an expiration or
    not) and by serving expirations, the set is sorted, every entry is filed under its
    timer's own expiration, and the alarm is set for the earliest entry: it goes off by
    that entry's time, or 100 us after it was set when that is later. *)
Theorem timer_queue_stays_armed {F} (alloc : gmap addr (Timer F) → addr)
    (effects : F → TimerQueue F → list (tq_call F)) (tid : Z) (q : TimerQueue F) :
  (∀ m, 0 < alloc m ∧ m !! alloc m = None) →
  (∀ cb q, Forall call_typed (effects cb q)) →
  rtc (tq_step alloc effects tid) (TimerQueue_ctor tid) q →
  tq_inv q ∧ ∀ e, e ∈ timerList_ q → alarm_covers q e.1.1.
Proof.
  intros Halloc Heff Hreach.
  assert (Hall : tq_inv q ∧ armed q).
  { remember (TimerQueue_ctor tid) as q0 eqn:Hq0.
    assert (Hq : tq_inv q0 ∧ armed q0) by (subst; split; [apply tq_inv_ctor|done]).
    clear Hq0. induction Hreach as [|q0 q1 q2 Hstep _ IH]; [done|]. apply IH.
    destruct Hq as [Hinv Harm], Hstep as [c Hc Hrun|now clock Hnow Hrun].
    - destruct (exec_call_inv alloc Halloc tid c q0 q1 Hinv Hc Hrun) as (? & [Hk _] & _). auto.
    - by eapply handleRead_inv. }
  destruct Hall as [Hinv Harm]. split; [done|]. intros e He.
  destruct (first_time_least q e Hinv He) as (t & Ht & Hle).
  eapply alarm_covers_le; [done|exact Hle|]. by apply Harm.
Qed.

(** The allocator of the examples: one above the largest address in use. *)
Definition bump_alloc {F} (m : gmap addr (Timer F)) : addr :=
  1 + foldr (λ e x, Z.max e.1 x) 0 (map_to_list m).

Lemma bump_alloc_fresh {F} (m : gmap addr (Timer F)) :
  0 < bump_alloc m ∧ m !! bump_alloc m = None.
Proof.
  assert (Hle : ∀ (l : list (addr * Timer F)) a t, (a, t) ∈ l →
    a ≤ foldr (λ e x, Z.max e.1 x) 0 l).
  { intros l a t. induction l as [|[b u] l IH]; [by intros Hin%elem_of_nil|].
    intros [[= -> ->]|Hin]%elem_of_cons; simpl; [lia|]. specialize (IH Hin). lia. }
  assert (Hnn : ∀ (l : list (addr * Timer F)), 0 ≤ foldr (λ e x, Z.max e.1 x) 0 l).
  { induction l; simpl; lia. }
  unfold bump_alloc. split; [specialize (Hnn (map_to_list m)); lia|].
  destruct (m !! _) eqn:E; [|done]. apply elem_of_map_to_list in E. apply Hle in E. lia.
Qed.

(** Callback 0 does nothing; callback 1 adds a one-shot timer. *)
Definition demo_effects (cb : nat) (q : TimerQueue nat) : list (tq_call nat) :=
  match cb with
  | S _ => [CallAdd 0%nat (mkTimestamp 9000) double_zero (mkTimestamp 2000)]
  | O => []
  end.

Lemma demo_effects_typed cb q : Forall call_typed (demo_effects cb q).
Proof.
  destruct cb; simpl; [constructor|]. constructor; [|constructor]. unfold call_typed, in_s. simpl. lia.
Qed.

Definition demo_queue : outcome (TimerQueue nat) :=
  q ← exec_call bump_alloc 1 (CallAdd 1%nat (mkTimestamp 1500) (double_of_Z 2) (mkTimestamp 1000))
        (TimerQueue_ctor 1);
  exec_call bump_alloc 1 (CallAdd 0%nat (mkTimestamp 1600) double_zero (mkTimestamp 1000)) q.

Definition demo_state : TimerQueue nat :=
  match demo_queue with Ok q => q | Err _ => TimerQueue_ctor 1 end.

Lemma demo_reachable : rtc (tq_step bump_alloc demo_effects 1) (TimerQueue_ctor 1) demo_state.
Proof.
  eapply rtc_l.
  { apply step_call with (CallAdd 1%nat (mkTimestamp 1500) (double_of_Z 2) (mkTimestamp 1000)).
    - unfold call_typed, in_s. simpl. lia.
    - vm_compute. reflexivity. }
  apply rtc_once. apply step_call with (CallAdd 0%nat (mkTimestamp 1600) double_zero (mkTimestamp 1000)).
  - unfold call_typed, in_s. simpl. lia.
  - vm_compute. reflexivity.
Qed.

Lemma timer_queue_stays_armed_witness :
  tq_inv demo_state ∧ ∀ e, e ∈ timerList_ demo_state → alarm_covers demo_state e.1.1.
Proof.
  exact (timer_queue_stays_armed bump_alloc demo_effects 1 demo_state
    bump_alloc_fresh demo_effects_typed demo_reachable).
Defined.

Lemma resetAlarmFd_total {F} clock t (q : TimerQueue F) :
  valid t = true → in_s 64 (micros t) → 0 ≤ micros clock < 2 ^ 63 →
  ∃ q', resetAlarmFd clock t q = Ok q'.
Proof.
  intros Hv Hr Hc. apply Z.ltb_lt in Hv. unfold resetAlarmFd, howMuchTimeFromNow, in_s, micros in *. change (64 - 1) with 63 in Hr.
  unfold microsecondsFromEpoch. rewrite i64_check_ok by lia. simpl. eauto.
Qed.

(** C4: expired timers run, in order, exactly once, and periodic ones come back.  When no
    two timers expire at the very microsecond of the clock reading, [handleRead] completes
    (given that the user's callbacks complete and periodic times stay in range); the
    callbacks it ran are those of exactly the timers with expiration at or before [now], in
    order of expiration; afterwards the queue holds what the callbacks left of the future
    timers and of those they added, plus each expired periodic timer that was not cancelled
    meanwhile, filed at [now] plus its interval, and the alarm covers every entry. *)
Theorem handleRead_serves_expired {F} (alloc : gmap addr (Timer F) → addr)
    (effects : F → TimerQueue F → list (tq_call F)) (tid : Z) (now clock : Timestamp)
    (q q1 : TimerQueue F) :
  (∀ m, 0 < alloc m ∧ m !! alloc m = None) →
  (∀ cb q, Forall call_typed (effects cb q)) →
  tq_inv q → tq_thread q = tid → 0 < micros now → 0 ≤ micros clock < 2 ^ 63 → no_tie now q →
  run_all alloc effects tid (expired_entries now q) (served now q) = Ok q1 →
  (∀ a t, timers q1 !! a = Some t → repeat_ t = true → ∃ e, addTime now (interval_ t) = Ok e) →
  ∃ q', handleRead alloc effects tid now clock q = Ok q' ∧
    ran_ q' = ran_ q ++ map (λ e, e.1.2) (expired_entries now q) ∧
    (∀ e, e ∈ timerList_ q' ↔ e ∈ timerList_ q1 ∨
      (e.1.2 ∈ map (λ e, e.1.2) (expired_entries now q) ∧ restarts q1 now e.1.2 e.1.1)) ∧
    ∀ e, e ∈ timerList_ q' → alarm_covers q' e.1.1.
Proof.
  intros Halloc Heff Hinv Htid Hnow Hclock Htie Hcbs Hadd.
  destruct (served_inv now q Hinv Hnow) as [Hsinv Hsserv].
  destruct (run_all_inv alloc effects Halloc Heff tid _ _ _ Hsinv Hcbs) as (Hinv1 & [_ Hserv1] & Hg & Hran1).
  assert (Hinv1' : tq_inv (set_calling false q1)) by by destruct Hinv1.
  assert (Hpre : reset_pre (expired_entries now q) (set_calling false q1))
    by by apply expired_reset_pre in Hg.
  destruct (reset_loop_total tid (expired_entries now q) now (set_calling false q1)) as [q2 Hloop];
    [done|by rewrite <- Htid; apply (grows_thread _ _ Hg)|done|done|done|].
  destruct (reset_loop_inv alloc Halloc tid _ _ _ _ Hinv1' Hnow Hpre Hloop) as [Hinv2 Hserv2 _ Hran2 Hl2].
  assert (∃ q', handleRead alloc effects tid now clock q = Ok q' ∧ tq_inv q' ∧ armed q' ∧
    timerList_ q' = timerList_ q2 ∧ ran_ q' = ran_ q2) as (q' & Hrun & Hinv' & Harm & Hl' & Hran').
  { unfold handleRead. rewrite tq_assertInLoopThread_ok by done. ok_simpl.
    rewrite getExpired_run; [|by destruct Hinv|done]. ok_simpl.
    change (expired_entries now (readAlarmfd q)) with (expired_entries now q).
    change (set_calling true _) with (served now q). rewrite Hcbs. ok_simpl.
    unfold reset. rewrite Hloop. ok_simpl.
    match goal with |- ∃ q', ?m = Ok q' ∧ _ => assert (∃ q', m = Ok q') as [q' Hq'] end.
    - destruct (timerList_ q2) as [|[[t a] u] l] eqn:Hl; [by eexists|].
      destruct (inv_entries q2 Hinv2 ((t, a), u)) as (_ & Hr & tm & Htm & Hexp); [rewrite Hl; by left|].
      simpl in Hr, Htm, Hexp. rewrite (timer_at_ok _ _ _ Htm). ok_simpl. rewrite Hexp.
      destruct (valid t) eqn:Hv; [|by eexists]. by apply resetAlarmFd_total.
    - exists q'. split; [done|]. eapply (reset_arms clock); [done|auto|done]. }
  exists q'. split_and!; [done|by rewrite Hran', Hran2|by rewrite Hl'|].
  intros e He. destruct (first_time_least q' e Hinv' He) as (t & Ht & Hle).
  eapply alarm_covers_le; [done|exact Hle|]. by apply Harm.
Qed.

Definition demo_served : TimerQueue nat :=
  match run_all bump_alloc demo_effects 1 (expired_entries (mkTimestamp 1550) demo_state)
          (served (mkTimestamp 1550) demo_state) with Ok q => q | Err _ => demo_state end.

Lemma demo_state_inv : tq_inv demo_state.
Proof.
  destruct (exec_call_inv bump_alloc bump_alloc_fresh 1
    (CallAdd 1%nat (mkTimestamp 1500) (double_of_Z 2) (mkTimestamp 1000)) (TimerQueue_ctor 1)
    (match exec_call bump_alloc 1 (CallAdd 1%nat (mkTimestamp 1500) (double_of_Z 2)
       (mkTimestamp 1000)) (TimerQueue_ctor 1) with Ok q => q | Err _ => TimerQueue_ctor 1 end))
    as [Hinv _]; [apply tq_inv_ctor|unfold call_typed, in_s; simpl; lia|vm_compute; reflexivity|].
  refine (proj1 (exec_call_inv bump_alloc bump_alloc_fresh 1
    (CallAdd 0%nat (mkTimestamp 1600) double_zero (mkTimestamp 1000)) _ demo_state Hinv _ _)).
  - unfold call_typed, in_s. simpl. lia.
  - vm_compute. reflexivity.
Qed.

(** The periodic timer at 1500 runs, adds a one-shot timer for 9000 and comes back two
    seconds later; the timer at 1600 stays. *)
Lemma handleRead_serves_expired_witness :
  map (λ e, micros e.1.1) (timerList_ demo_served) = [1600; 9000] ∧
  ∃ q', handleRead bump_alloc demo_effects 1 (mkTimestamp 1550) (mkTimestamp 1560) demo_state = Ok q' ∧
    ran_ q' = ran_ demo_state ++ map (λ e, e.1.2) (expired_entries (mkTimestamp 1550) demo_state) ∧
    (∀ e, e ∈ timerList_ q' ↔ e ∈ timerList_ demo_served ∨
      (e.1.2 ∈ map (λ e, e.1.2) (expired_entries (mkTimestamp 1550) demo_state) ∧
       restarts demo_served (mkTimestamp 1550) e.1.2 e.1.1)) ∧
    ∀ e, e ∈ timerList_ q' → alarm_covers q' e.1.1.
Proof.
  split; [vm_compute; reflexivity|].
  apply (handleRead_serves_expired bump_alloc demo_effects 1 (mkTimestamp 1550) (mkTimestamp 1560)
    demo_state demo_served bump_alloc_fresh demo_effects_typed demo_state_inv).
  - vm_compute. reflexivity.
  - vm_compute. reflexivity.
  - simpl. lia.
  - intros a b u v Ha. exfalso. revert Ha.
    rewrite <- (map_find_elem (mkTimestamp 1550, a) u (timerList_ demo_state) (inv_sorted _ demo_state_inv)).
    assert (Hl : timerList_ demo_state =
      [((mkTimestamp 1500, 1), tt); ((mkTimestamp 1600, 2), tt)]) by (vm_compute; reflexivity).
    rewrite Hl. simpl. discriminate.
  - vm_compute. reflexivity.
  - intros a t Hin Hrep. apply elem_of_map_to_list in Hin. revert Hin Hrep.
    assert (Hall : forallb (λ e : addr * Timer nat,
      match addTime (mkTimestamp 1550) (interval_ e.2) with Ok _ => true | Err _ => false end)
      (map_to_list (timers demo_served)) = true) by (vm_compute; reflexivity).
    intros Hin _. rewrite forallb_forall in Hall. apply list_elem_of_In in Hin.
    specialize (Hall _ Hin). cbn [snd] in Hall.
    destruct (addTime _ _) as [e|]; [by exists e|discriminate].
Defined.

(** two timers due at the same instant stop the loop.  When two timers expire at
    exactly the microsecond that [handleRead] reads from the clock, [getExpired] fails its
    assertion: the helper entry of [lower_bound] has a null timer pointer, so the entries
    at [now] sort after it, and only one of them is skipped. *)
Theorem simultaneous_expiry_asserts {F} (alloc : gmap addr (Timer F) → addr)
    (effects : F → TimerQueue F → list (tq_call F)) (now clock : Timestamp) (q : TimerQueue F)
    (a b : addr) :
  tq_inv q → a ≠ b → ((now, a), tt) ∈ timerList_ q → ((now, b), tt) ∈ timerList_ q →
  handleRead alloc effects (tq_thread q) now clock q ↯ AssertFailed.
Proof.
  intros Hinv Hne Ha Hb. unfold handleRead. rewrite tq_assertInLoopThread_ok by done.
  ok_simpl.
  assert (Hinv0 : tq_inv (readAlarmfd q)) by by destruct Hinv.
  destruct (getExpired now (readAlarmfd q)) as [r|f] eqn:Hget.
  - exfalso. apply Hne. by apply (getExpired_no_tie _ _ _ Hinv0 Hget a b tt tt).
  - ok_simpl. f_equal. unfold getExpired in Hget.
    destruct (map_lower_bound _ _) as [lo hi].
    destruct (match hi with [] => _ | _ => _ end) as [l1 l2].
    unfold assert_ in Hget. destruct (match l2 with [] => _ | _ => _ end); by simplify_eq/=.
Qed.

Definition tie_state : TimerQueue nat :=
  match (q ← exec_call bump_alloc 1 (CallAdd 0%nat (mkTimestamp 1600) double_zero (mkTimestamp 1000))
             (TimerQueue_ctor 1);
         exec_call bump_alloc 1 (CallAdd 0%nat (mkTimestamp 1600) double_zero (mkTimestamp 1000)) q)
  with Ok q => q | Err _ => TimerQueue_ctor 1 end.

Lemma tie_state_inv : tq_inv tie_state.
Proof.
  destruct (exec_calls_inv bump_alloc bump_alloc_fresh 1
    (replicate 2 (CallAdd 0%nat (mkTimestamp 1600) double_zero (mkTimestamp 1000)))
    (TimerQueue_ctor 1) tie_state) as [Hinv _]; [apply tq_inv_ctor| |vm_compute; reflexivity|exact Hinv].
  repeat constructor; unfold call_typed, in_s; simpl; lia.
Qed.

Lemma simultaneous_expiry_asserts_witness :
  handleRead bump_alloc demo_effects 1 (mkTimestamp 1600) (mkTimestamp 1610) tie_state
    ↯ AssertFailed.
Proof.
  assert (Hl : timerList_ tie_state =
    [((mkTimestamp 1600, 1), tt); ((mkTimestamp 1600, 2), tt)]) by (vm_compute; reflexivity).
  apply (simultaneous_expiry_asserts bump_alloc demo_effects (mkTimestamp 1600) (mkTimestamp 1610)
    tie_state 1 2 tie_state_inv).
  - discriminate.
  - rewrite Hl. left.
  - rewrite Hl. right. left.
Defined.
