(* ===== verification/Reactor.v ===== *)
(** * Reactor: what an event loop promises to the objects that live in it

    The interface through which TcpConnection, Acceptor and Connector use EventLoop
    (src/ham/net/EventLoop.h and Channel.h): the thread check, the channel operations and
    [queueInLoop].  Their theorems are proved against this interface; EventLoop.v's loop is
    the instance (ReactorLoop.v). *)
From S2P Require Import Prelude Timestamp Channel TimerQueue.

(** [L] is the loop's state, [F] the callbacks and [G] the functors its clients bind. *)
Class Reactor (L F G : Type) := {
  rt_isInLoopThread : Z → L → bool;
  rt_channel : L → addr → option (Channel F);
  rt_new_channel : addr → Channel F → L → L;
  rt_delete : addr → L → L;                         (* the channel object is destroyed *)
  rt_change : (Z → Z) → Z → addr → L → outcome L;   (* event_ = f(event_); update() *)
  rt_remove : Z → addr → L → outcome L;
  rt_queueInLoop : Z → G → L → L;
  rt_pending : L → list G;
  (* the channel exists in this loop, and if it is not registered its descriptor is free *)
  rt_ready : L → addr → Prop;
  (* the loop's own address; no channel is at this address, the descriptor is not in use *)
  rt_addr : L → addr;
  rt_can_add : L → addr → Z → Prop
}.

Section derived.
Context {L F G : Type} `{Reactor L F G}.
Implicit Types l : L.

Definition rt_assertInLoopThread (tid : Z) (l : L) : outcome unit :=
  if rt_isInLoopThread tid l then Ok tt else Err Aborted.

Definition rt_event (l : L) (c : addr) : option Z :=
  match rt_channel l c with Some ch => Some (event_ ch) | None => None end.

Definition rt_isWriting (l : L) (c : addr) : bool :=
  match rt_channel l c with Some ch => isWriting ch | None => false end.

(** Known to the poller. *)
Definition rt_registered (l : L) (c : addr) : bool :=
  match rt_channel l c with Some ch => negb (bool_decide (status_ ch = kNew)) | None => false end.

Definition rt_enableReading : Z → addr → L → outcome L := rt_change reading_on.
Definition rt_enableWriting : Z → addr → L → outcome L := rt_change writing_on.
Definition rt_disableWriting : Z → addr → L → outcome L := rt_change writing_off.
Definition rt_disableAll : Z → addr → L → outcome L := rt_change all_off.
End derived.

(** The loop's timers, for the objects that use them ([runAfter], [cancelTimer]). *)
Class LoopTimers (L G : Type) := {
  rt_runAfter : Z → double → G → L → outcome (TimerId * L);
  rt_cancelTimer : Z → TimerId → L → outcome L
}.

(** One pending functor leaves the queue to be run ([doPendingFunctors] runs them in order). *)
Class LoopRun (L G : Type) := rt_take : L → option (G * L).

(** The laws.  Other threads' calls do not change the loop's thread, and an operation on
    one channel leaves the others and the pending functors alone. *)
Class ReactorLaws (L F G : Type) `{Reactor L F G} : Prop := {
  law_ready l c : rt_ready l c → ∃ ch, rt_channel l c = Some ch;
  law_new l c (ch : Channel F) :
    rt_can_add l c (fd_ ch) → loop_ ch = rt_addr l → status_ ch = kNew →
    rt_ready (rt_new_channel c ch l) c ∧ rt_channel (rt_new_channel c ch l) c = Some ch ∧
    rt_pending (rt_new_channel c ch l) = rt_pending l ∧
    (∀ t, rt_isInLoopThread t (rt_new_channel c ch l) = rt_isInLoopThread t l);
  law_can_add l c a (ch : Channel F) :
    rt_ready l c → rt_channel l c = Some ch → status_ ch = kNew → rt_channel l a = None →
    rt_can_add l a (fd_ ch);
  law_tie l c (ch : Channel F) o :
    rt_ready l c → rt_channel l c = Some ch →
    rt_ready (rt_new_channel c (tie ch o) l) c ∧
    rt_channel (rt_new_channel c (tie ch o) l) c = Some (tie ch o) ∧
    rt_pending (rt_new_channel c (tie ch o) l) = rt_pending l ∧
    (∀ t, rt_isInLoopThread t (rt_new_channel c (tie ch o) l) = rt_isInLoopThread t l);
  law_change f tid c (l : L) :
    rt_ready l c → rt_isInLoopThread tid l = true →
    ∃ l', rt_change f tid c l = Ok l' ∧ rt_ready l' c ∧
      rt_event l' c = f <$> rt_event l c ∧ rt_registered l' c = true ∧
      (∀ c', c' ≠ c → rt_channel l' c' = rt_channel l c') ∧
      rt_pending l' = rt_pending l ∧
      (∀ t, rt_isInLoopThread t l' = rt_isInLoopThread t l);
  law_remove tid c l :
    rt_ready l c → rt_isInLoopThread tid l = true →
    rt_registered l c = true → rt_event l c = Some 0 →
    ∃ l', rt_remove tid c l = Ok l' ∧ rt_ready l' c ∧
      rt_event l' c = Some 0 ∧ rt_registered l' c = false ∧
      (∀ c', c' ≠ c → rt_channel l' c' = rt_channel l c') ∧
      rt_pending l' = rt_pending l ∧
      (∀ t, rt_isInLoopThread t l' = rt_isInLoopThread t l);
  law_remove_enabled tid c l e :
    rt_ready l c → rt_isInLoopThread tid l = true → rt_event l c = Some e → e ≠ 0 →
    rt_remove tid c l ↯ AssertFailed;
  law_delete l c (ch : Channel F) :
    rt_ready l c → rt_channel l c = Some ch → status_ ch = kNew →
    rt_channel (rt_delete c l) c = None ∧ rt_can_add (rt_delete c l) c (fd_ ch) ∧
    (∀ c', c' ≠ c → rt_channel (rt_delete c l) c' = rt_channel l c') ∧
    rt_pending (rt_delete c l) = rt_pending l ∧ rt_addr (rt_delete c l) = rt_addr l ∧
    (∀ t, rt_isInLoopThread t (rt_delete c l) = rt_isInLoopThread t l);
  law_change_channel f tid c l l' (ch : Channel F) :
    rt_ready l c → rt_change f tid c l = Ok l' → rt_channel l c = Some ch →
    ∃ st, rt_channel l' c = Some (setStatus (with_event ch (f (event_ ch))) st);
  law_remove_channel tid c l l' (ch : Channel F) :
    rt_ready l c → rt_remove tid c l = Ok l' → rt_channel l c = Some ch →
    rt_channel l' c = Some (setStatus ch kNew);
  law_change_can_add f tid c l l' (ch : Channel F) a b fd :
    rt_ready l c → rt_change f tid c l = Ok l' → rt_channel l c = Some ch → fd_ ch ≠ fd →
    rt_can_add l a fd → rt_channel l' b = None → rt_can_add l' b fd;
  law_queue_can_add tid g l a b fd :
    rt_can_add l a fd → rt_channel l b = None → rt_can_add (rt_queueInLoop tid g l) b fd;
  law_change_addr f tid c l l' : rt_change f tid c l = Ok l' → rt_addr l' = rt_addr l;
  law_remove_addr tid c l l' : rt_remove tid c l = Ok l' → rt_addr l' = rt_addr l;
  law_new_addr c (ch : Channel F) l : rt_addr (rt_new_channel c ch l) = rt_addr l;
  law_queue_addr tid g l : rt_addr (rt_queueInLoop tid g l) = rt_addr l;
  law_queue tid g l :
    rt_pending (rt_queueInLoop tid g l) = rt_pending l ++ [g] ∧
    (∀ c, rt_channel (rt_queueInLoop tid g l) c = rt_channel l c) ∧
    (∀ c, rt_ready l c → rt_ready (rt_queueInLoop tid g l) c) ∧
    (∀ t, rt_isInLoopThread t (rt_queueInLoop tid g l) = rt_isInLoopThread t l)
}.

(** What an operation on one channel leaves alone, whatever state the loop is in. *)
Definition rt_frame {L F G} `{Reactor L F G} (c : addr) (l l' : L) : Prop :=
  (∀ c', c' ≠ c → rt_channel l' c' = rt_channel l c') ∧ rt_pending l' = rt_pending l ∧
  (∀ t, rt_isInLoopThread t l' = rt_isInLoopThread t l) ∧ rt_addr l' = rt_addr l.

Class ReactorFrame (L F G : Type) `{Reactor L F G} `{LoopRun L G} : Prop := {
  frame_new c (ch : Channel F) l :
    rt_channel (rt_new_channel c ch l) c = Some ch ∧ rt_frame c l (rt_new_channel c ch l);
  frame_delete c l : rt_channel (rt_delete c l) c = None ∧ rt_frame c l (rt_delete c l);
  frame_change f tid c (l l' : L) : rt_change f tid c l = Ok l' →
    is_Some (rt_channel l c) ∧ is_Some (rt_channel l' c) ∧ rt_event l' c = f <$> rt_event l c ∧ rt_frame c l l';
  frame_remove tid c (l l' : L) : rt_remove tid c l = Ok l' →
    is_Some (rt_channel l c) ∧ is_Some (rt_channel l' c) ∧ rt_registered l' c = false ∧
    rt_event l' c = rt_event l c ∧ rt_frame c l l';
  frame_queue tid g (l : L) :
    rt_pending (rt_queueInLoop tid g l) = rt_pending l ++ [g] ∧
    (∀ c, rt_channel (rt_queueInLoop tid g l) c = rt_channel l c) ∧
    (∀ t, rt_isInLoopThread t (rt_queueInLoop tid g l) = rt_isInLoopThread t l) ∧
    rt_addr (rt_queueInLoop tid g l) = rt_addr l;
  frame_take (l : L) :
    match rt_pending l with
    | [] => rt_take l = None
    | g :: r => ∃ l', rt_take l = Some (g, l') ∧ rt_pending l' = r ∧
        (∀ c, rt_channel l' c = rt_channel l c) ∧ (∀ c, rt_ready l c → rt_ready l' c) ∧
        (∀ t, rt_isInLoopThread t l' = rt_isInLoopThread t l) ∧ rt_addr l' = rt_addr l
    end
}.

(** ** A registered channel through the operations *)
Section live.
Context {L F G : Type} `{ReactorLaws L F G} `{!LoopRun L G} `{!ReactorFrame L F G}.
Implicit Types l : L.

(** In a loop that takes operations on it, with event mask [e], and not being handled. *)
Record chan_live l (a : addr) (e : Z) : Prop := {
  cl_ready : rt_ready l a;
  cl_reg : rt_registered l a = true;
  cl_chan : ∃ ch, rt_channel l a = Some ch ∧ event_ ch = e ∧ isHandlingEvent_ ch = false
}.

Lemma chan_live_event l a e : chan_live l a e → rt_event l a = Some e.
Proof. intros [_ _ (ch & Hch & <- & _)]. unfold rt_event. by rewrite Hch. Qed.

Lemma chan_live_queue l a e tid g : chan_live l a e → chan_live (rt_queueInLoop tid g l) a e.
Proof.
  intros [Hr Hg (ch & Hch & He)]. destruct (law_queue tid g l) as (_ & Hc & Hready & _). split.
  - by apply Hready.
  - unfold rt_registered in *. by rewrite Hc.
  - exists ch. by rewrite Hc.
Qed.

Lemma chan_live_take l l' a e g : chan_live l a e → rt_take l = Some (g, l') → chan_live l' a e.
Proof.
  intros [Hr Hg (ch & Hch & He)] Ht. pose proof (frame_take l) as Hf.
  destruct (rt_pending l) as [|g2 r]; [congruence|]. destruct Hf as (l2 & Ht2 & _ & Hc & Hready & _).
  assert (l2 = l') as -> by congruence. split.
  - by apply Hready.
  - unfold rt_registered in *. by rewrite Hc.
  - exists ch. by rewrite Hc.
Qed.

Lemma chan_live_off l a e tid :
  chan_live l a e → rt_isInLoopThread tid l = true →
  ∃ l', rt_disableAll tid a l = Ok l' ∧ chan_live l' a 0 ∧ rt_pending l' = rt_pending l ∧
    (∀ t, rt_isInLoopThread t l' = rt_isInLoopThread t l).
Proof.
  intros [Hr Hg (ch & Hch & He & Hh)] Ht.
  destruct (law_change all_off tid a l Hr Ht) as (l' & Hrun & Hr' & _ & Hg' & _ & Hp & Hth).
  destruct (law_change_channel all_off tid a l l' ch Hr Hrun Hch) as [st Hch'].
  exists l'. split_and!; [done| |done|done]. split; [done|done|]. by eexists.
Qed.

Lemma chan_live_remove l a tid :
  chan_live l a 0 → rt_isInLoopThread tid l = true →
  ∃ l' ch, rt_remove tid a l = Ok l' ∧ rt_channel l' a = Some ch ∧ status_ ch = kNew ∧
    isHandlingEvent_ ch = false ∧ rt_pending l' = rt_pending l ∧
    (∀ t, rt_isInLoopThread t l' = rt_isInLoopThread t l).
Proof.
  intros Hl Ht. pose proof (chan_live_event _ _ _ Hl) as He. destruct Hl as [Hr Hg (ch & Hch & Hev & Hh)].
  destruct (law_remove tid a l Hr Ht Hg He) as (l' & Hrun & _ & _ & _ & _ & Hp & Hth).
  pose proof (law_remove_channel tid a l l' ch Hr Hrun Hch) as Hch'.
  exists l', (setStatus ch kNew). by split_and!.
Qed.
End live.
