(* ===== verification/EventLoop.v ===== *)
(** * EventLoop: src/ham/net/EventLoop.h and EventLoop.cc

    The loop as its own thread runs it: the poller, the active channels, the pending
    functors, the timer queue.  The loop among other threads is in LoopThreads.v. *)
From S2P Require Import Prelude StdMap Timestamp Channel Epoller.
From S2P Require TimerQueue.
Import TimerQueue (TimerQueue, TimerId, mkTimerId).

(** ** The wakeup descriptor

    eventfd(2): after a write (also one refused because the counter is at its maximum) the
    descriptor is readable; a read resets it. *)
Class EventFd (E : Type) := {
  efd_new : E;
  efd_write : E → E;
  efd_read : E → E;
  efd_readable : E → bool
}.

Class EventFdLaws (E : Type) `{EventFd E} : Prop := {
  efd_new_unreadable : efd_readable efd_new = false;
  efd_write_readable e : efd_readable (efd_write e) = true;
  efd_read_unreadable e : efd_readable (efd_read e) = false
}.

(** The counter of the manual page. *)
#[export] Instance counter_fd : EventFd N := {|
  efd_new := 0%N;
  efd_write n := if (n <? 2 ^ 64 - 2)%N then (n + 1)%N else n;
  efd_read _ := 0%N;
  efd_readable n := (0 <? n)%N |}.

#[export] Instance counter_fd_laws : EventFdLaws N.
Proof.
  split; [done| |done]. intros n. unfold efd_write, efd_readable, counter_fd.
  destruct (N.ltb_spec n (2 ^ 64 - 2)); apply N.ltb_lt; lia.
Qed.

(** ** The loop *)

(** The callbacks of the channels: the loop's own two, or a user's. *)
Inductive loop_cb (F : Type) := CbWakeup | CbAlarm | CbUser (f : F).
Arguments CbWakeup {F}. Arguments CbAlarm {F}. Arguments CbUser {F}.

(** The functors: those the timer queue binds, or a user's. *)
Inductive functor (G : Type) := FnAddTimer (a : addr) | FnCancelTimer (id : TimerId) | FnUser (g : G).
Arguments FnAddTimer {G}. Arguments FnCancelTimer {G}. Arguments FnUser {G}.

Record EventLoop (F G T K E : Type) := mkEventLoop {
  looping_ : bool;
  quit_ : bool;
  eventHandling_ : bool;
  callingPendingFunctors_ : bool;
  wakeup_fd_ : Z;
  wakeup_counter : E;                    (* the kernel's side of wakeup_fd_ *)
  epollerReturnTime_ : Timestamp;
  poll_ : Poll (loop_cb F) K;            (* epoller_, the channels and threadId_ *)
  wakeupChannel_ : addr;
  timerQueue_ : TimerQueue T;
  alarmChannel_ : addr;                  (* TimerQueue::alarmChannel_ *)
  activeChannels_ : list addr;
  pendingFunctors_ : list (functor G)
}.
Arguments mkEventLoop {F G T K E}. Arguments looping_ {F G T K E}. Arguments quit_ {F G T K E}.
Arguments eventHandling_ {F G T K E}. Arguments callingPendingFunctors_ {F G T K E}.
Arguments wakeup_fd_ {F G T K E}. Arguments wakeup_counter {F G T K E}.
Arguments epollerReturnTime_ {F G T K E}. Arguments poll_ {F G T K E}.
Arguments wakeupChannel_ {F G T K E}. Arguments timerQueue_ {F G T K E}.
Arguments alarmChannel_ {F G T K E}. Arguments activeChannels_ {F G T K E}.
Arguments pendingFunctors_ {F G T K E}.

Section setters.
Context {F G T K E : Type}.
Implicit Types l : EventLoop F G T K E.
Definition set_looping b l : EventLoop F G T K E := mkEventLoop b (quit_ l) (eventHandling_ l) (callingPendingFunctors_ l)
  (wakeup_fd_ l) (wakeup_counter l) (epollerReturnTime_ l) (poll_ l) (wakeupChannel_ l)
  (timerQueue_ l) (alarmChannel_ l) (activeChannels_ l) (pendingFunctors_ l).
Definition set_quit b l : EventLoop F G T K E := mkEventLoop (looping_ l) b (eventHandling_ l) (callingPendingFunctors_ l)
  (wakeup_fd_ l) (wakeup_counter l) (epollerReturnTime_ l) (poll_ l) (wakeupChannel_ l)
  (timerQueue_ l) (alarmChannel_ l) (activeChannels_ l) (pendingFunctors_ l).
Definition set_eventHandling b l : EventLoop F G T K E := mkEventLoop (looping_ l) (quit_ l) b (callingPendingFunctors_ l)
  (wakeup_fd_ l) (wakeup_counter l) (epollerReturnTime_ l) (poll_ l) (wakeupChannel_ l)
  (timerQueue_ l) (alarmChannel_ l) (activeChannels_ l) (pendingFunctors_ l).
Definition set_callingPending b l : EventLoop F G T K E := mkEventLoop (looping_ l) (quit_ l) (eventHandling_ l) b
  (wakeup_fd_ l) (wakeup_counter l) (epollerReturnTime_ l) (poll_ l) (wakeupChannel_ l)
  (timerQueue_ l) (alarmChannel_ l) (activeChannels_ l) (pendingFunctors_ l).
Definition set_counter c l : EventLoop F G T K E := mkEventLoop (looping_ l) (quit_ l) (eventHandling_ l) (callingPendingFunctors_ l)
  (wakeup_fd_ l) c (epollerReturnTime_ l) (poll_ l) (wakeupChannel_ l)
  (timerQueue_ l) (alarmChannel_ l) (activeChannels_ l) (pendingFunctors_ l).
Definition set_returnTime t l : EventLoop F G T K E := mkEventLoop (looping_ l) (quit_ l) (eventHandling_ l) (callingPendingFunctors_ l)
  (wakeup_fd_ l) (wakeup_counter l) t (poll_ l) (wakeupChannel_ l)
  (timerQueue_ l) (alarmChannel_ l) (activeChannels_ l) (pendingFunctors_ l).
Definition set_poll p l : EventLoop F G T K E := mkEventLoop (looping_ l) (quit_ l) (eventHandling_ l) (callingPendingFunctors_ l)
  (wakeup_fd_ l) (wakeup_counter l) (epollerReturnTime_ l) p (wakeupChannel_ l)
  (timerQueue_ l) (alarmChannel_ l) (activeChannels_ l) (pendingFunctors_ l).
Definition set_timerQueue q l : EventLoop F G T K E := mkEventLoop (looping_ l) (quit_ l) (eventHandling_ l) (callingPendingFunctors_ l)
  (wakeup_fd_ l) (wakeup_counter l) (epollerReturnTime_ l) (poll_ l) (wakeupChannel_ l)
  q (alarmChannel_ l) (activeChannels_ l) (pendingFunctors_ l).
Definition set_active cs l : EventLoop F G T K E := mkEventLoop (looping_ l) (quit_ l) (eventHandling_ l) (callingPendingFunctors_ l)
  (wakeup_fd_ l) (wakeup_counter l) (epollerReturnTime_ l) (poll_ l) (wakeupChannel_ l)
  (timerQueue_ l) (alarmChannel_ l) cs (pendingFunctors_ l).
Definition set_pending fs l : EventLoop F G T K E := mkEventLoop (looping_ l) (quit_ l) (eventHandling_ l) (callingPendingFunctors_ l)
  (wakeup_fd_ l) (wakeup_counter l) (epollerReturnTime_ l) (poll_ l) (wakeupChannel_ l)
  (timerQueue_ l) (alarmChannel_ l) (activeChannels_ l) fs.
End setters.

(** A [World] is a loop together with everything its callbacks and functors act on. *)
Section event_loop.
Context {F G T K E U : Type} `{EpollKernel K} `{EventFd E}.
Abbreviation Loop := (EventLoop F G T K E).
Abbreviation World := (Loop * U)%type.

(** User code, the clock, the allocator and the timers' calls into their queue. *)
Context (run_user_cb : F → option Timestamp → World → outcome World).
Context (run_user_fn : G → World → outcome World).
Context (now : U → Timestamp).
Context (alive : U → addr → bool).
Context (alloc : gmap addr (TimerQueue.Timer T) → addr).
Context (effects : T → TimerQueue T → list (TimerQueue.tq_call T)).

#[local] Instance loop_heap : ChannelHeap World (loop_cb F) := {|
  chan_get w c := channels (poll_ w.1) !! c;
  chan_put c ch w := (set_poll (put_channel c ch (poll_ w.1)) w.1, w.2);
  obj_alive w a := alive w.2 a |}.

Definition kEpollTimeMs : Z := 10000.

Definition loop_isInLoopThread (tid : Z) (l : Loop) : bool := isInLoopThread tid (poll_ l).
Definition loop_assertInLoopThread (tid : Z) (l : Loop) : outcome unit :=
  if loop_isInLoopThread tid l then Ok tt else Err Aborted.

(** The result of the [write] and [read] on the descriptor is only logged. *)
Definition wakeup (l : Loop) : Loop := set_counter (efd_write (wakeup_counter l)) l.
Definition handleWakeupFd (l : Loop) : Loop := set_counter (efd_read (wakeup_counter l)) l.

Definition queueInLoop (tid : Z) (f : functor G) (l : Loop) : Loop :=
  let l := set_pending (pendingFunctors_ l ++ [f]) l in
  if negb (loop_isInLoopThread tid l) || callingPendingFunctors_ l then wakeup l else l.

Definition quit (tid : Z) (l : Loop) : Loop :=
  let l := set_quit true l in
  if negb (loop_isInLoopThread tid l) then wakeup l else l.

Definition on_loop (g : Poll (loop_cb F) K → outcome (Poll (loop_cb F) K)) (l : Loop) : outcome Loop :=
  p ← g (poll_ l); Ok (set_poll p l).

Definition on_timers (g : TimerQueue T → outcome (TimerQueue T)) (w : World) : outcome World :=
  q ← g (timerQueue_ w.1); Ok (set_timerQueue q w.1, w.2).

(** Calling a functor. *)
Definition run_functor (tid : Z) (f : functor G) (w : World) : outcome World :=
  match f with
  | FnAddTimer a => on_timers (TimerQueue.addTimerInLoop tid (now w.2) a) w
  | FnCancelTimer id => on_timers (TimerQueue.cancelTimerInLoop tid id) w
  | FnUser g => run_user_fn g w
  end.

Definition runInLoop (tid : Z) (f : functor G) (w : World) : outcome World :=
  if loop_isInLoopThread tid w.1 then run_functor tid f w
  else Ok (queueInLoop tid f w.1, w.2).

(** [TimerQueue::addTimer] as any thread may call it. *)
Definition addTimer (tid : Z) (cb : T) (when : Timestamp) (interval : double) (w : World)
    : outcome (TimerId * World) :=
  let '(a, q) := TimerQueue.make_timer alloc cb when interval (timerQueue_ w.1) in
  w ← runInLoop tid (FnAddTimer a) (set_timerQueue q w.1, w.2);
  t ← TimerQueue.timer_at a (timerQueue_ w.1);
  Ok (mkTimerId (Some a) (TimerQueue.serialNum_ t), w).

Definition runAt (tid : Z) (time : Timestamp) (cb : T) (w : World) : outcome (TimerId * World) :=
  addTimer tid cb time double_zero w.
Definition runAfter (tid : Z) (delay : double) (cb : T) (w : World) : outcome (TimerId * World) :=
  when ← addTime (now w.2) delay; runAt tid when cb w.
Definition runEvery (tid : Z) (interval : double) (cb : T) (w : World) : outcome (TimerId * World) :=
  when ← addTime (now w.2) interval; addTimer tid cb when interval w.
Definition cancelTimer (tid : Z) (id : TimerId) (w : World) : outcome World :=
  runInLoop tid (FnCancelTimer id) w.

(** Calling a channel's callback. *)
Definition invoke_cb (tid : Z) (f : loop_cb F) (arg : option Timestamp) (w : World) : outcome World :=
  match f with
  | CbWakeup => Ok (handleWakeupFd w.1, w.2)
  | CbAlarm => on_timers (TimerQueue.handleRead alloc effects tid (now w.2) (now w.2)) w
  | CbUser g => run_user_cb g arg w
  end.

Fixpoint handle_all (tid : Z) (cs : list addr) (t : Timestamp) (w : World) : outcome World :=
  match cs with
  | [] => Ok w
  | c :: cs' => w ← handleEvent (invoke_cb tid) c t w; handle_all tid cs' t w
  end.

Fixpoint run_functors (tid : Z) (fs : list (functor G)) (w : World) : outcome World :=
  match fs with
  | [] => Ok w
  | f :: fs' => w ← run_functor tid f w; run_functors tid fs' w
  end.

Definition doPendingFunctors (tid : Z) (w : World) : outcome World :=
  let l := set_callingPending true w.1 in
  let functors := pendingFunctors_ l in
  w ← run_functors tid functors (set_pending [] l, w.2);
  Ok (set_callingPending false w.1, w.2).

(** The body of [loop]'s [while]. *)
Definition loop_iteration (tid : Z) (w : World) : outcome World :=
  let l := set_active [] w.1 in
  '(t, active, p) ← wait (now w.2) (activeChannels_ l) (poll_ l);
  let l := set_eventHandling true (set_returnTime t (set_active active (set_poll p l))) in
  w ← handle_all tid (activeChannels_ l) (epollerReturnTime_ l) (l, w.2);
  doPendingFunctors tid (set_eventHandling false w.1, w.2).

Fixpoint loop_while (fuel : nat) (tid : Z) (w : World) : outcome World :=
  if quit_ w.1 then Ok w
  else match fuel with
       | O => Err OutOfFuel
       | S fuel => w ← loop_iteration tid w; loop_while fuel tid w
       end.

Definition loop (fuel : nat) (tid : Z) (w : World) : outcome World :=
  w ← loop_while fuel tid (set_looping true w.1, w.2);
  Ok (set_looping false w.1, w.2).

(** ** Construction and destruction

    [this], [wc] and [ac] are the addresses of the loop and of its two channels, [fds]
    the descriptors the system returned, [other] the value of [t_loopInThisThread]. *)
Definition EventLoop_ctor (tid : Z) (this wc ac : addr) (epfd wfd afd : Z) (k : K)
    (other : option addr) : outcome Loop :=
  let p := mkPoll tid ∅ (Epoller_ctor this epfd) k in
  let p := put_channel wc (Channel_ctor this wfd) p in
  let p := put_channel ac (setReadCallback (Channel_ctor this afd) CbAlarm) p in
  p ← enableReading tid ac p;
  match other with
  | Some _ => Err Aborted
  | None =>
      ch ← channel_at wc p;
      p ← enableReading tid wc (put_channel wc (setReadCallback ch CbWakeup) p);
      Ok (mkEventLoop false false false false wfd efd_new invalid p wc
            (TimerQueue.TimerQueue_ctor tid) ac [] [])
  end.

(** The body of [~EventLoop], then the destructor of [timerQueue_]. *)
Definition EventLoop_dtor (tid : Z) (l : Loop) : outcome Loop :=
  _ ← assert_ (quit_ l);
  l ← on_loop (disableAll tid (wakeupChannel_ l)) l;
  l ← on_loop (remove tid (wakeupChannel_ l)) l;
  l ← on_loop (disableAll tid (alarmChannel_ l)) l;
  on_loop (remove tid (alarmChannel_ l)) l.
End event_loop.

(** ** Construction and destruction are balanced *)
Section lifecycle.
Context {F G T K E : Type} `{EpollLaws K} `{EventFdLaws E}.

Lemma poll_inv_fresh tid this epfd (k : K) :
  interest k = ∅ → poll_inv (F := loop_cb F) (mkPoll tid ∅ (Epoller_ctor this epfd) k).
Proof.
  intros Hk. split; simpl.
  - intros fd c. unfold map_at. simpl. by rewrite lookup_empty.
  - intros c ch. by rewrite lookup_empty.
  - intros fd. unfold watched, map_at. simpl. by rewrite Hk, !lookup_empty.
  - unfold kInitEventListSize, zlen. simpl. lia.
Qed.

Definition reading_channel (this : addr) (fd : Z) (cb : loop_cb F) : Channel (loop_cb F) :=
  changed reading_on (setReadCallback (Channel_ctor this fd) cb).

(** The poller of a new loop. *)
Record new_loop (tid this wc ac wfd afd : Z) (l : EventLoop F G T K E) : Prop := {
  nl_inv : poll_inv (poll_ l);
  nl_thread : threadId_ (poll_ l) = tid;
  nl_loop : ep_loop (epoller_ (poll_ l)) = this;
  nl_wc : channels (poll_ l) !! wc = Some (reading_channel this wfd CbWakeup);
  nl_ac : channels (poll_ l) !! ac = Some (reading_channel this afd CbAlarm);
  nl_map fd : map_at (poll_ l) fd = if decide (fd = wfd) then Some wc
                                     else if decide (fd = afd) then Some ac else None;
  nl_quit : quit_ l = false;
  nl_wakeup : wakeupChannel_ l = wc;
  nl_alarm : alarmChannel_ l = ac
}.

Lemma EventLoop_ctor_ok tid this wc ac epfd wfd afd (k : K) :
  (∀ k : K, accepts k) → wc ≠ ac → wfd ≠ afd → interest k = ∅ →
  ∃ l : EventLoop F G T K E, EventLoop_ctor tid this wc ac epfd wfd afd k None = Ok l ∧
    new_loop tid this wc ac wfd afd l.
Proof.
  intros Hacc Hc Hfd Hk. unfold EventLoop_ctor.
  pose proof (poll_inv_fresh tid this epfd k Hk) as Hinv0.
  set (p0 := mkPoll tid ∅ (Epoller_ctor this epfd) k) in *.
  set (p1 := put_channel wc (Channel_ctor this wfd) p0).
  assert (Hinv1 : poll_inv p1) by by apply poll_inv_new.
  set (p2 := put_channel ac (setReadCallback (Channel_ctor this afd) CbAlarm) p1).
  assert (Hinv2 : poll_inv p2).
  { apply poll_inv_new; [done| |done]. simpl. by rewrite lookup_insert_ne. }
  assert (Hmap2 : ∀ fd, map_at p2 fd = None) by (intros fd; apply lookup_empty).
  assert (Hpre2 : change_pre tid ac (setReadCallback (Channel_ctor this afd) CbAlarm) p2).
  { split_and!; [apply lookup_insert_eq|done|done|by intros _]. }
  destruct (change_event_returns reading_on _ _ _ _ Hinv2 (Hacc _) Hpre2) as [p3 Hrun3].
  destruct (change_event_ok _ _ _ _ _ Hinv2 Hrun3) as (Hinv3 & ch & k3 & Hpre3 & ->).
  assert (ch = setReadCallback (Channel_ctor this afd) CbAlarm) as ->
    by (destruct Hpre2 as [? _], Hpre3 as [? _]; congruence).
  fold (enableReading (F := loop_cb F) (K := K)) in Hrun3. rewrite Hrun3. ok_simpl.
  set (p3 := registered ac _ k3 p2) in *.
  assert (Hwc : channels p3 !! wc = Some (Channel_ctor this wfd)).
  { simpl. rewrite !lookup_insert_ne by done. apply lookup_insert_eq. }
  rewrite (channel_at_ok _ _ _ Hwc). ok_simpl.
  set (p4 := put_channel wc (setReadCallback (Channel_ctor this wfd) CbWakeup) p3).
  assert (Hinv4 : poll_inv p4) by by eapply poll_inv_touch.
  assert (Hpre4 : change_pre tid wc (setReadCallback (Channel_ctor this wfd) CbWakeup) p4).
  { split_and!; [apply lookup_insert_eq|done|done|]. intros _. unfold p4.
    rewrite map_at_put_channel. unfold p3. rewrite map_at_registered. simpl.
    by rewrite decide_False. }
  destruct (change_event_returns reading_on _ _ _ _ Hinv4 (Hacc _) Hpre4) as [p5 Hrun5].
  destruct (change_event_ok _ _ _ _ _ Hinv4 Hrun5) as (Hinv5 & ch & k5 & Hpre5 & ->).
  assert (ch = setReadCallback (Channel_ctor this wfd) CbWakeup) as ->
    by (destruct Hpre4 as [? _], Hpre5 as [? _]; congruence).
  fold (enableReading (F := loop_cb F) (K := K)) in Hrun5. rewrite Hrun5. ok_simpl.
  eexists. split; [done|]. split; simpl; try done.
  - apply lookup_insert_eq.
  - rewrite !lookup_insert_ne by done. apply lookup_insert_eq.
  - intros fd. rewrite map_at_registered. simpl. case_decide; [done|].
    unfold p4. rewrite map_at_put_channel. unfold p3. rewrite map_at_registered. simpl.
    case_decide; [done|]. apply Hmap2.
Qed.

Lemma new_loop_watches tid this wc ac wfd afd l fd :
  new_loop tid this wc ac wfd afd l →
  interest (kernel (poll_ l)) !! fd =
    if decide (fd = wfd) then Some (wc, kReadEvent_)
    else if decide (fd = afd) then Some (ac, kReadEvent_) else None.
Proof.
  intros [Hinv _ _ Hwc Hac Hmap _ _ _]. rewrite (inv_interest _ Hinv). unfold watched. rewrite Hmap.
  case_decide; [cbn [mbind option_bind]; by rewrite Hwc|].
  case_decide; [cbn [mbind option_bind]; by rewrite Hac|done].
Qed.

Lemma EventLoop_dtor_ok tid this wc ac wfd afd l :
  (∀ k : K, accepts k) → wc ≠ ac → wfd ≠ afd →
  new_loop tid this wc ac wfd afd l →
  ∃ l', EventLoop_dtor tid (set_quit true l) = Ok l' ∧ interest (kernel (poll_ l')) = ∅.
Proof.
  intros Hacc Hc Hfd [Hinv <- <- Hwc Hac Hmap _ Hw Ha]. unfold EventLoop_dtor. simpl.
  rewrite Hw.
  destruct (disable_and_remove wc _ (poll_ l) Hinv (Hacc _) Hwc)
    as (p1 & p2 & Hrun1 & Hrun2 & Hinv2 & Ht2 & Hl2 & Hm2 & Hc2); [done|done|].
  unfold on_loop. simpl. rewrite Hrun1. simpl. rewrite Hw, Hrun2. simpl.
  destruct (disable_and_remove ac (reading_channel (ep_loop (epoller_ (poll_ l))) afd CbAlarm) p2 Hinv2
    (Hacc _)) as (p3 & p4 & Hrun3 & Hrun4 & Hinv4 & _ & _ & Hm4 & _); [by rewrite Hc2|done|done|].
  rewrite Ht2 in Hrun3, Hrun4. rewrite Ha, Hrun3. simpl. rewrite Ha, Hrun4. simpl.
  eexists. split; [done|]. simpl. apply map_eq. intros fd.
  rewrite (inv_interest _ Hinv4), lookup_empty. unfold watched. rewrite Hm4. simpl.
  case_decide; [done|]. rewrite Hm2. simpl. case_decide; [done|]. rewrite Hmap.
  by rewrite !decide_False.
Qed.
End lifecycle.

(** ** Properties *)

(** a loop watches exactly its two descriptors from birth and leaves none behind.  The
    constructor, in a thread without another loop, registers the wakeup and the timer
    channel for reading and nothing else; the destructor is legal exactly after [quit] (it
    asserts it) and then empties the interest list.  In a thread that already has a loop
    the constructor aborts. *)
Theorem EventLoop_lifecycle {F G T K E} `{EpollLaws K} `{EventFdLaws E} (tid : Z)
    (this wc ac : addr) (epfd wfd afd : Z) (k : K) :
  (∀ k : K, accepts k) → wc ≠ ac → wfd ≠ afd → interest k = ∅ →
  (∃ l : EventLoop F G T K E, EventLoop_ctor tid this wc ac epfd wfd afd k None = Ok l ∧
     (∀ fd, interest (kernel (poll_ l)) !! fd =
        if decide (fd = wfd) then Some (wc, kReadEvent_)
        else if decide (fd = afd) then Some (ac, kReadEvent_) else None) ∧
     EventLoop_dtor tid l ↯ AssertFailed ∧
     ∃ l', EventLoop_dtor tid (quit tid l) = Ok l' ∧ interest (kernel (poll_ l')) = ∅) ∧
  ∀ other, EventLoop_ctor (F := F) (G := G) (T := T) (E := E) tid this wc ac epfd wfd afd k (Some other)
    ↯ Aborted.
Proof.
  intros Hacc Hc Hfd Hk.
  destruct (EventLoop_ctor_ok (F := F) (G := G) (T := T) (E := E) tid this wc ac epfd wfd afd k)
    as (l & Hrun & Hnew); [done..|].
  split.
  - exists l. split; [done|]. split; [by intros fd; eapply new_loop_watches|].
    split; [unfold EventLoop_dtor; by rewrite (nl_quit _ _ _ _ _ _ _ Hnew)|].
    unfold quit, loop_isInLoopThread, isInLoopThread. simpl.
    rewrite (nl_thread _ _ _ _ _ _ _ Hnew), Z.eqb_refl. cbn [negb].
    by apply (EventLoop_dtor_ok tid this wc ac wfd afd).
  - intros other. unfold EventLoop_ctor in *. apply bind_Ok_inv in Hrun as (p & Hp & _).
    by rewrite Hp.
Qed.

Lemma EventLoop_lifecycle_witness :
  (∃ l : EventLoop nat nat nat sim_kernel N,
     EventLoop_ctor 1 50 100 101 3 4 5 (mkSimKernel ∅ []) None = Ok l ∧
     (∀ fd, interest (kernel (poll_ l)) !! fd =
        if decide (fd = 4) then Some (100, kReadEvent_)
        else if decide (fd = 5) then Some (101, kReadEvent_) else None) ∧
     EventLoop_dtor 1 l ↯ AssertFailed ∧
     ∃ l', EventLoop_dtor 1 (quit 1 l) = Ok l' ∧ interest (kernel (poll_ l')) = ∅) ∧
  ∀ other, EventLoop_ctor (F := nat) (G := nat) (T := nat) (E := N) 1 50 100 101 3 4 5
    (mkSimKernel ∅ []) (Some other) ↯ Aborted.
Proof.
  apply (EventLoop_lifecycle 1 50 100 101 3 4 5 (mkSimKernel ∅ [])).
  - exact sim_epoll_accepts.
  - discriminate.
  - discriminate.
  - reflexivity.
Defined.
