(* ===== verification/LoopThreads.v ===== *)
(** * LoopThreads: the event loop among other threads (src/ham/net/EventLoop.cc)

    [queueInLoop] and [quit] may be called by any thread at any time.  Here each call is cut
    into its accesses to shared state (the push under the mutex, the write to [quit_], the
    write to the wakeup descriptor), the loop's iteration into its own (the test of
    [quit_], [epoll_wait], reading the wakeup descriptor, the swap under the mutex, the
    functors one by one), and a step relation interleaves them in every order. *)
From S2P Require Import Prelude Timestamp Epoller EventLoop.

(** The accesses to shared state. *)
Inductive instr (G : Type) :=
| IPush (g : G)     (* { lock_guard; pendingFunctors_.emplace_back(g); } *)
| IQuit             (* quit_ = true *)
| IWake.            (* wakeup() *)
Arguments IPush {G}. Arguments IQuit {G}. Arguments IWake {G}.

(** Where the loop's thread is in [loop]. *)
Inductive loop_pc (G : Type) :=
| AtCheck                    (* while(!quit_) *)
| AtWait                     (* in epoll_wait *)
| Handling (wake : bool)     (* handleEvent; is handleWakeupFd still to be called? *)
| AtSwap                     (* doPendingFunctors, before the swap *)
| Running (fs : list G)      (* doPendingFunctors, these functors left *)
| Finished.
Arguments AtCheck {G}. Arguments AtWait {G}. Arguments Handling {G}. Arguments AtSwap {G}.
Arguments Running {G}. Arguments Finished {G}.

Record sys (G E : Type) := mkSys {
  pending : list G;                  (* pendingFunctors_ *)
  efd : E;                           (* the wakeup descriptor *)
  quitting : bool;                   (* quit_ *)
  pc : loop_pc G;
  lcode : list (instr G);            (* what is left of the call the loop's thread is in *)
  others : gmap Z (list (instr G));  (* the same for the other threads *)
  pushed : list G;                   (* history: functors queued *)
  ran : list G                       (* history: functors run *)
}.
Arguments mkSys {G E}. Arguments pending {G E}. Arguments efd {G E}. Arguments quitting {G E}.
Arguments pc {G E}. Arguments lcode {G E}. Arguments others {G E}. Arguments pushed {G E}.
Arguments ran {G E}.

Section threads.
Context {G E : Type} `{EventFdLaws E}.
Implicit Types s : sys G E.

(** [callingPendingFunctors_] *)
Definition calling (p : loop_pc G) : bool := match p with Running _ => true | _ => false end.

(** [queueInLoop(g)] and [quit()], called in the loop's thread or in another one. *)
Definition queue_code (inLoop call : bool) (g : G) : list (instr G) :=
  IPush g :: (if negb inLoop || call then [IWake] else []).
Definition quit_code (inLoop : bool) : list (instr G) :=
  IQuit :: (if negb inLoop then [IWake] else []).

Definition exec_instr (i : instr G) s : sys G E :=
  match i with
  | IPush g => mkSys (pending s ++ [g]) (efd s) (quitting s) (pc s) (lcode s) (others s)
                 (pushed s ++ [g]) (ran s)
  | IQuit => mkSys (pending s) (efd s) true (pc s) (lcode s) (others s) (pushed s) (ran s)
  | IWake => mkSys (pending s) (efd_write (efd s)) (quitting s) (pc s) (lcode s) (others s)
               (pushed s) (ran s)
  end.

Definition set_lcode c s : sys G E :=
  mkSys (pending s) (efd s) (quitting s) (pc s) c (others s) (pushed s) (ran s).
Definition set_other t c s : sys G E :=
  mkSys (pending s) (efd s) (quitting s) (pc s) (lcode s) (<[t := c]> (others s)) (pushed s) (ran s).
Definition set_pc p s : sys G E :=
  mkSys (pending s) (efd s) (quitting s) p (lcode s) (others s) (pushed s) (ran s).
Definition clear_efd s : sys G E :=
  mkSys (pending s) (efd_read (efd s)) (quitting s) (Handling false) (lcode s) (others s) (pushed s) (ran s).
Definition swap_pending s : sys G E :=
  mkSys [] (efd s) (quitting s) (Running (pending s)) (lcode s) (others s) (pushed s) (ran s).
Definition run_one g fs s : sys G E :=
  mkSys (pending s) (efd s) (quitting s) (Running fs) (lcode s) (others s) (pushed s) (ran s ++ [g]).

(** User code runs in the loop's thread during these phases. *)
Definition in_user_code (p : loop_pc G) : bool :=
  match p with Handling _ | Running _ => true | _ => false end.

(** The loop's own steps. *)
Inductive loop_step s : sys G E → Prop :=
| step_check : pc s = AtCheck → lcode s = [] →
    loop_step s (set_pc (if quitting s then Finished else AtWait) s)
| step_wait_return : pc s = AtWait → loop_step s (set_pc (Handling (efd_readable (efd s))) s)
| step_handle_wakeup : pc s = Handling true → lcode s = [] → loop_step s (clear_efd s)
| step_handled : pc s = Handling false → lcode s = [] → loop_step s (set_pc AtSwap s)
| step_swap : pc s = AtSwap → loop_step s (swap_pending s)
| step_run g fs : pc s = Running (g :: fs) → lcode s = [] → loop_step s (run_one g fs s)
| step_ran : pc s = Running [] → lcode s = [] → loop_step s (set_pc AtCheck s)
| step_exec i c : lcode s = i :: c → loop_step s (set_lcode c (exec_instr i s)).

Inductive sys_step s : sys G E → Prop :=
| step_loop s' : loop_step s s' → sys_step s s'
(* a handler or functor in the loop's thread calls *)
| step_call_queue g : in_user_code (pc s) = true → lcode s = [] →
    sys_step s (set_lcode (queue_code true (calling (pc s)) g) s)
| step_call_quit : in_user_code (pc s) = true → lcode s = [] →
    sys_step s (set_lcode (quit_code true) s)
(* another thread calls, or goes on with its call *)
| step_other_queue t g : default [] (others s !! t) = [] →
    sys_step s (set_other t (queue_code false false g) s)
| step_other_quit t : default [] (others s !! t) = [] →
    sys_step s (set_other t (quit_code false) s)
| step_other_exec t i c : others s !! t = Some (i :: c) →
    sys_step s (set_other t c (exec_instr i s)).

(** [loop()] is entered with nothing queued. *)
Definition loop_start : sys G E := mkSys [] efd_new false AtCheck [] ∅ [] [].

(** ** Invariant *)
Definition will_wake s : Prop :=
  IWake ∈ lcode s ∨ ∃ t c, others s !! t = Some c ∧ IWake ∈ c.

(** [handleWakeupFd] and the swap are still ahead in this iteration. *)
Definition before_swap (p : loop_pc G) : bool :=
  match p with Handling _ | AtSwap => true | _ => false end.

(** The calls that can be under way. *)
Definition other_code_ok (c : list (instr G)) : Prop :=
  c = [] ∨ c = [IWake] ∨ c = [IQuit; IWake] ∨ ∃ g, c = [IPush g; IWake].
Definition loop_code_ok (p : loop_pc G) (c : list (instr G)) : Prop :=
  c = [] ∨ (in_user_code p = true ∧ (c = [IQuit] ∨ c = [IWake] ∨ ∃ g, c = queue_code true (calling p) g)).

Definition running (p : loop_pc G) : list G := match p with Running fs => fs | _ => [] end.

Record sys_inv s : Prop := {
  sinv_pending : pending s ≠ [] → before_swap (pc s) = false → pc s ≠ Finished →
    efd_readable (efd s) = true ∨ will_wake s;
  sinv_quit : quitting s = true → pc s = AtWait → efd_readable (efd s) = true ∨ will_wake s;
  sinv_lcode : loop_code_ok (pc s) (lcode s);
  sinv_others t c : others s !! t = Some c → other_code_ok c;
  sinv_fifo : pushed s = ran s ++ running (pc s) ++ pending s
}.

Lemma will_wake_pc p s : will_wake (set_pc p s) ↔ will_wake s.
Proof. done. Qed.

Lemma sys_inv_start : sys_inv loop_start.
Proof. split; simpl; [done|done|by left|by intros t c; rewrite lookup_empty|done]. Qed.

(** *** The effect of one access *)
Lemma exec_instr_wakes i s :
  efd_readable (efd s) = true → efd_readable (efd (exec_instr i s)) = true.
Proof. destruct i; simpl; [done|done|]. intros _. apply efd_write_readable. Qed.

Lemma exec_instr_fifo i s r :
  pushed s = r ++ pending s → pushed (exec_instr i s) = r ++ pending (exec_instr i s).
Proof. destruct i; simpl; [|done|done]. intros ->. by rewrite app_assoc. Qed.

Lemma exec_instr_frame i s :
  pc (exec_instr i s) = pc s ∧ lcode (exec_instr i s) = lcode s ∧
  others (exec_instr i s) = others s ∧ ran (exec_instr i s) = ran s.
Proof. by destruct i. Qed.

Lemma exec_instr_wait s i :
  (pending (exec_instr i s) ≠ [] → pending s ≠ [] ∨ ∃ g, i = IPush g) ∧
  (quitting (exec_instr i s) = true → quitting s = true ∨ i = IQuit).
Proof. destruct i; simpl; eauto. Qed.

(** What makes the poller return, before and after thread [t] takes a step of its call. *)
Definition woken s : Prop := efd_readable (efd s) = true ∨ will_wake s.

Lemma woken_other t i c s :
  others s !! t = Some (i :: c) → other_code_ok (i :: c) → woken s →
  woken (set_other t c (exec_instr i s)).
Proof.
  intros Ht Hok. destruct (exec_instr_frame i s) as (_ & Hlc & Hoth & _).
  intros [Hr|[Hl|(t' & c' & Ht' & Hin)]].
  - left. by apply exec_instr_wakes.
  - right. left. simpl. by rewrite Hlc.
  - destruct (decide (t' = t)) as [->|Hne].
    + destruct i; [..|left; simpl; apply efd_write_readable];
        right; right; exists t, c; (split; [simpl; by rewrite lookup_insert_eq|]);
        simplify_eq; by apply elem_of_cons in Hin as [?|?].
    + right. right. exists t', c'. split; [|done]. simpl. by rewrite Hoth, lookup_insert_ne.
Qed.

(** After a push or a [quit_ = true] by another thread its wakeup is still to come. *)
Lemma woken_other_new t i c s :
  other_code_ok (i :: c) → i ≠ IWake → woken (set_other t c (exec_instr i s)).
Proof.
  intros Hok Hi. right. right. exists t, c. split; [simpl; apply lookup_insert_eq|].
  destruct Hok as [Hok|[Hok|[Hok|[g Hok]]]]; simplify_eq; by left.
Qed.

Lemma other_code_ok_tail i c : other_code_ok (i :: c) → other_code_ok c.
Proof.
  intros [Hok|[Hok|[Hok|[g Hok]]]]; simplify_eq; [by left|right; by left..].
Qed.

Lemma sys_inv_other_exec t i c s :
  sys_inv s → others s !! t = Some (i :: c) → sys_inv (set_other t c (exec_instr i s)).
Proof.
  intros [Hp Hq Hl Ho Hf] Ht. pose proof (Ho _ _ Ht) as Hok.
  destruct (exec_instr_frame i s) as (Hpc & Hlc & Hoth & Hran).
  destruct (exec_instr_wait s i) as [Hpend Hquit].
  split.
  - simpl. rewrite Hpc. intros H1 H2 H3.
    destruct (Hpend H1) as [Hne|[g ->]]; [|by apply woken_other_new].
    apply woken_other; [done|done|by apply Hp].
  - simpl. rewrite Hpc. intros H1 H2.
    destruct (Hquit H1) as [Hne| ->]; [|by apply woken_other_new].
    apply woken_other; [done|done|by apply Hq].
  - simpl. by rewrite Hpc, Hlc.
  - simpl. rewrite Hoth. intros t' c' [[<- <-]|[_ Ht']]%lookup_insert_Some; [|by eauto].
    by apply other_code_ok_tail in Hok.
  - simpl. rewrite Hpc, Hran. rewrite app_assoc. apply exec_instr_fifo. by rewrite <- app_assoc.
Qed.

(** A thread that starts a call changes nothing shared yet. *)
Lemma sys_inv_other_call t c s :
  sys_inv s → default [] (others s !! t) = [] → other_code_ok c → sys_inv (set_other t c s).
Proof.
  intros [Hp Hq Hl Ho Hf] Ht Hok.
  assert (Hw : woken s → woken (set_other t c s)).
  { intros [?|[?|(t' & c' & Ht' & Hin)]]; [by left|right; by left|]. right. right.
    exists t', c'. split; [|done]. simpl. rewrite lookup_insert_ne; [done|]. intros <-.
    rewrite Ht' in Ht. simpl in Ht. subst c'. by apply elem_of_nil in Hin. }
  split; simpl; [by intros; apply Hw, Hp|by intros; apply Hw, Hq|done| |done].
  intros t' c' [[<- <-]|[_ Ht']]%lookup_insert_Some; [done|by eauto].
Qed.

Lemma woken_lcode c s : woken s → (IWake ∈ lcode s → IWake ∈ c) → woken (set_lcode c s).
Proof. intros [?|[?|?]] Hc; [by left|right; left; by apply Hc|right; by right]. Qed.

(** The loop's thread goes on with its own call. *)
Lemma sys_inv_exec i c s :
  sys_inv s → lcode s = i :: c → sys_inv (set_lcode c (exec_instr i s)).
Proof.
  intros [Hp Hq Hl Ho Hf] Hc. rewrite Hc in Hl.
  destruct Hl as [|[Huser Hcode]]; [done|].
  destruct (exec_instr_frame i s) as (Hpc & Hlc & Hoth & Hran).
  destruct (exec_instr_wait s i) as [Hpend Hquit].
  assert (Hwoken : woken s → woken (set_lcode c (exec_instr i s))).
  { intros [Hr|[Hw|Hw]].
    - left. by apply exec_instr_wakes.
    - destruct i; [..|left; simpl; apply efd_write_readable];
        right; left; simpl; rewrite Hc in Hw; by apply elem_of_cons in Hw as [?|?].
    - right. right. simpl. by rewrite Hoth. }
  split; simpl; rewrite ?Hpc, ?Hoth, ?Hran.
  - intros H1 H2 H3. destruct (Hpend H1) as [Hne|[g ->]]; [by apply Hwoken, Hp|].
    right. left. simpl. destruct (pc s); try done.
    destruct Hcode as [?|[?|[g' Hg]]]; simplify_eq. injection Hg as _ ->. by left.
  - intros _ Heq. by rewrite Heq in Huser.
  - destruct Hcode as [?|[?|[g' Heq]]]; simplify_eq; [by left|by left|].
    injection Heq as _ ->. unfold loop_code_ok. destruct (calling (pc s)); simpl; [|by left].
    right. split; [done|]. right. by left.
  - done.
  - rewrite app_assoc. apply exec_instr_fifo. by rewrite <- app_assoc.
Qed.

Lemma sys_inv_step s s' : sys_inv s → sys_step s s' → sys_inv s'.
Proof.
  intros Hinv Hstep. destruct Hstep as [s' Hloop|g Hu Hc|Hu Hc|t g Ht|t Ht|t i c Ht].
  - pose proof Hinv as [Hp Hq Hl Ho Hf].
    destruct Hloop as [Hpc Hc|Hpc|Hpc Hc|Hpc Hc|Hpc|g fs Hpc Hc|Hpc Hc|i c Hc];
      try (rewrite Hpc in *; split; simpl in *; try done).
    + intros H1 _ _. by apply Hp.
    + by destruct (quitting s).
    + rewrite Hc. by left.
    + by rewrite Hf; destruct (quitting s).
    + left. by destruct Hl as [|[? _]].
    + rewrite Hc. by left.
    + left. by destruct Hl as [|[? _]].
    + rewrite Hf. by rewrite app_nil_r.
    + intros H1 _ _. by apply Hp.
    + rewrite Hf. by rewrite <- app_assoc.
    + intros H1 _ _. by apply Hp.
    + rewrite Hc. by left.
    + by apply sys_inv_exec.
  - pose proof Hinv as [Hp Hq Hl Ho Hf]. split; simpl; [| |right; eauto|done|done].
    + intros. apply woken_lcode; [by apply Hp|]. rewrite Hc. by intros ?%elem_of_nil.
    + intros ? Heq. by rewrite Heq in Hu.
  - pose proof Hinv as [Hp Hq Hl Ho Hf]. split; simpl; [| |right; eauto|done|done].
    + intros. apply woken_lcode; [by apply Hp|]. rewrite Hc. by intros ?%elem_of_nil.
    + intros ? Heq. by rewrite Heq in Hu.
  - apply sys_inv_other_call; [done|done|]. do 3 right. by exists g.
  - apply sys_inv_other_call; [done|done|]. do 2 right. by left.
  - by apply sys_inv_other_exec.
Qed.

Lemma sys_inv_reachable s : rtc sys_step loop_start s → sys_inv s.
Proof.
  intros Hreach. remember loop_start as s0 eqn:Hs0.
  assert (Hinv : sys_inv s0) by (subst; apply sys_inv_start). clear Hs0.
  induction Hreach; [done|]. eauto using sys_inv_step.
Qed.
End threads.

(** ** Properties *)

Fixpoint exec_instrs {G E} `{EventFd E} (c : list (instr G)) (s : sys G E) : sys G E :=
  match c with [] => s | i :: c' => exec_instrs c' (exec_instr i s) end.

(** The part of an EventLoop that the threads share. *)
Definition shares {F G T K E} (l : EventLoop F G T K E) (s : sys (functor G) E) : Prop :=
  pending s = pendingFunctors_ l ∧ efd s = wakeup_counter l ∧ quitting s = quit_ l.

(** the interleaved calls are the loop's functions.  Run without interruption, the
    accesses of a queued call are [EventLoop::queueInLoop], and those of a quit call are
    [EventLoop::quit], for a caller in the loop's thread or in another one. *)
Theorem calls_refine {F G T K E} `{EventFd E} (tid : Z) (f : functor G) (l : EventLoop F G T K E)
    (s : sys (functor G) E) :
  shares l s →
  let inLoop := loop_isInLoopThread tid l in
  shares (queueInLoop tid f l) (exec_instrs (queue_code inLoop (callingPendingFunctors_ l) f) s) ∧
  shares (quit tid l) (exec_instrs (quit_code inLoop) s).
Proof.
  intros (Hp & He & Hq). unfold queueInLoop, quit, queue_code, quit_code, shares.
  change (loop_isInLoopThread tid (set_pending _ l)) with (loop_isInLoopThread tid l).
  change (loop_isInLoopThread tid (set_quit _ l)) with (loop_isInLoopThread tid l).
  split.
  - destruct (loop_isInLoopThread tid l), (callingPendingFunctors_ l) eqn:Hc; simpl; rewrite ?Hc;
      simpl; by rewrite Hp, ?He.
  - destruct (loop_isInLoopThread tid l); simpl; by rewrite ?He.
Qed.

Definition small_loop : EventLoop nat nat nat unit N :=
  mkEventLoop true false false false 4 efd_new invalid (mkPoll 1 ∅ (Epoller_ctor 50 3) tt) 100
    (TimerQueue.TimerQueue_ctor 1) 101 [] [].

Lemma calls_refine_witness :
  shares (queueInLoop 2 (FnUser 7%nat) small_loop)
    (exec_instrs (queue_code false false (FnUser 7%nat)) loop_start) ∧
  shares (quit 2 small_loop) (exec_instrs (quit_code false) loop_start).
Proof. exact (calls_refine 2 (FnUser 7%nat) small_loop loop_start (conj eq_refl (conj eq_refl eq_refl))). Defined.

(** C2: no wakeup is lost.  In every interleaving, whenever the loop's thread is in
    [epoll_wait] with a functor pending or with [quit_] set, the wakeup descriptor is
    readable, so [epoll_wait] returns at once, or the thread that queued or quit has its
    write to the descriptor still to do. *)
Theorem no_lost_wakeup {G E} `{EventFdLaws E} (s : sys G E) :
  rtc sys_step loop_start s → pc s = AtWait → (pending s ≠ [] ∨ quitting s = true) →
  efd_readable (efd s) = true ∨ ∃ t c, others s !! t = Some c ∧ IWake ∈ c.
Proof.
  intros Hreach%sys_inv_reachable Hpc Hwork. destruct Hreach as [Hp Hq Hl _ _].
  assert (Hwoken : efd_readable (efd s) = true ∨ will_wake s).
  { destruct Hwork; [apply Hp; by rewrite ?Hpc|by apply Hq]. }
  destruct Hwoken as [?|[Hin|?]]; [by left| |by right].
  rewrite Hpc in Hl. destruct Hl as [Hl|[? _]]; [|done]. rewrite Hl in Hin. by apply elem_of_nil in Hin.
Qed.

(** Another thread queues functor 7 while the loop is in [epoll_wait], and has not yet
    written to the descriptor. *)
Definition racing_state : sys nat N :=
  set_other 2 [IWake] (exec_instr (IPush 7%nat)
    (set_other 2 (queue_code false false 7%nat) (set_pc AtWait loop_start))).

Lemma racing_reachable : rtc sys_step loop_start racing_state.
Proof.
  eapply rtc_l; [apply step_loop, (step_check loop_start); reflexivity|].
  eapply rtc_l; [apply (step_other_queue (set_pc AtWait loop_start) 2 7%nat); reflexivity|].
  apply rtc_once. unfold racing_state. apply (step_other_exec _ 2 (IPush 7%nat) [IWake]). reflexivity.
Qed.

Lemma no_lost_wakeup_witness :
  efd_readable (efd racing_state) = true ∨
  ∃ t c, others racing_state !! t = Some c ∧ IWake ∈ c.
Proof.
  apply (no_lost_wakeup racing_state racing_reachable).
  - reflexivity.
  - left. discriminate.
Defined.

(** C11: functors run exactly once, in the order they were queued.  In every interleaving
    the functors queued so far are those that ran, followed by those of the batch being
    run, followed by those pending. *)
Theorem functors_fifo {G E} `{EventFdLaws E} (s : sys G E) :
  rtc sys_step loop_start s → pushed s = ran s ++ running (pc s) ++ pending s.
Proof. intros Hreach%sys_inv_reachable. apply Hreach. Qed.

Lemma functors_fifo_witness :
  pushed racing_state = ran racing_state ++ running (pc racing_state) ++ pending racing_state.
Proof. apply (functors_fifo racing_state racing_reachable). Defined.

Lemma run_batch {G E} `{EventFd E} fs (s : sys G E) :
  pc s = Running fs → lcode s = [] →
  ∃ s', rtc loop_step s s' ∧ pc s' = AtCheck ∧ ran s' = ran s ++ fs ∧
    pending s' = pending s ∧ quitting s' = quitting s ∧ lcode s' = [].
Proof.
  revert s. induction fs as [|g fs IH]; intros s Hpc Hc.
  - eexists. split; [by apply rtc_once, step_ran|]. by rewrite app_nil_r.
  - destruct (IH (run_one g fs s)) as (s' & Hrun & ? & Hran & ? & ? & ?); [done|done|].
    exists s'. split; [eapply rtc_l; [by eapply step_run|done]|].
    rewrite Hran. simpl. by rewrite <- app_assoc.
Qed.

(** C26: once it is woken, the loop serves everything that is pending.  From [epoll_wait],
    the steps of the loop's own thread lead through the handlers and the swap to the next
    test of [quit_], with every functor that was pending run, in order, and none left;
    if [quit_] is set the loop ends there. *)
Theorem pending_served {G E} `{EventFdLaws E} (s : sys G E) :
  rtc sys_step loop_start s → pc s = AtWait →
  ∃ s', rtc loop_step s s' ∧ pc s' = AtCheck ∧ ran s' = ran s ++ pending s ∧ pending s' = [] ∧
    (quitting s = true → ∃ s'', loop_step s' s'' ∧ pc s'' = Finished).
Proof.
  intros Hreach%sys_inv_reachable Hpc.
  assert (Hc : lcode s = []).
  { destruct (sinv_lcode s Hreach) as [|[Hu _]]; [done|by rewrite Hpc in Hu]. }
  assert (∃ s1, rtc loop_step s s1 ∧ pc s1 = AtSwap ∧ lcode s1 = [] ∧ pending s1 = pending s ∧
    ran s1 = ran s ∧ quitting s1 = quitting s) as (s1 & Hrun1 & Hpc1 & Hc1 & Hp1 & Hr1 & Hq1).
  { set (sh := set_pc (Handling (efd_readable (efd s))) s).
    assert (Hret : loop_step s sh) by by apply step_wait_return.
    destruct (efd_readable (efd s)) eqn:Hr.
    - exists (set_pc AtSwap (clear_efd sh)). split; [|done].
      eapply rtc_l; [exact Hret|]. eapply rtc_l; [by apply step_handle_wakeup|].
      apply rtc_once. by apply step_handled.
    - exists (set_pc AtSwap sh). split; [|done].
      eapply rtc_l; [exact Hret|]. apply rtc_once. by apply step_handled. }
  destruct (run_batch (pending s1) (swap_pending s1)) as (s2 & Hrun2 & Hpc2 & Hr2 & Hp2 & Hq2 & Hc2);
    [done|done|].
  exists s2. simpl in *. split_and!; [|done|by rewrite Hr2, Hr1, Hp1|done|].
  - etrans; [exact Hrun1|]. eapply rtc_l; [by apply step_swap|done].
  - intros Hq. eexists. split; [by apply step_check|]. simpl. by rewrite Hq2, Hq1, Hq.
Qed.

Lemma pending_served_witness :
  ∃ s', rtc loop_step racing_state s' ∧ pc s' = AtCheck ∧
    ran s' = ran racing_state ++ pending racing_state ∧ pending s' = [] ∧
    (quitting racing_state = true → ∃ s'', loop_step s' s'' ∧ pc s'' = Finished).
Proof. apply (pending_served racing_state racing_reachable). reflexivity. Defined.

(** a functor queued before [loop] sleeps.  A functor that the loop's own thread queues
    before it enters [loop] (when it is not in [doPendingFunctors]) does not wake the loop:
    [loop] goes into [epoll_wait] with that functor pending, an unreadable descriptor and no
    thread about to write to it, and stays there until another event or the poll's 10 s
    timeout. *)
Theorem queued_before_loop_sleeps {F G T K E} `{EventFdLaws E} (tid : Z) (f : functor G)
    (l : EventLoop F G T K E) :
  loop_isInLoopThread tid l = true → callingPendingFunctors_ l = false → quit_ l = false →
  efd_readable (wakeup_counter l) = false →
  ∃ s s' : sys (functor G) E, shares (queueInLoop tid f l) s ∧ pc s = AtCheck ∧ others s = ∅ ∧
    loop_step s s' ∧ pc s' = AtWait ∧ f ∈ pending s' ∧
    efd_readable (efd s') = false ∧ ¬ will_wake s'.
Proof.
  intros Hin Hcall Hquit Hr.
  set (s := mkSys (pendingFunctors_ l ++ [f]) (wakeup_counter l) false AtCheck [] ∅ [] []).
  exists s, (set_pc AtWait s). split_and!; try done.
  - unfold shares, queueInLoop.
    change (loop_isInLoopThread tid (set_pending _ l)) with (loop_isInLoopThread tid l).
    rewrite Hin. simpl. by rewrite Hcall.
  - by apply (step_check s).
  - simpl. apply elem_of_app. right. by apply list_elem_of_singleton.
  - intros [Hw|(t & c & Ht & _)]; [by apply elem_of_nil in Hw|]. simpl in Ht.
    by rewrite lookup_empty in Ht.
Qed.

Lemma queued_before_loop_sleeps_witness :
  ∃ s s' : sys (functor nat) N, shares (queueInLoop 1 (FnUser 7%nat) small_loop) s ∧
    pc s = AtCheck ∧ others s = ∅ ∧ loop_step s s' ∧ pc s' = AtWait ∧
    FnUser 7%nat ∈ pending s' ∧ efd_readable (efd s') = false ∧ ¬ will_wake s'.
Proof.
  apply (queued_before_loop_sleeps 1 (FnUser 7%nat) small_loop); reflexivity.
Defined.
