(* ===== verification/ReactorLoop.v ===== *)
(** * ReactorLoop: the event loop implements the Reactor interface

    The channel operations and [queueInLoop] of Epoller.v and EventLoop.v satisfy the laws of
    Reactor.v whenever the kernel accepts legal epoll_ctl calls. *)
From S2P Require Import Prelude Timestamp Channel Epoller TimerQueue EventLoop Reactor.

Section instance.
Context {F G T K E : Type} `{EpollLaws K} `{EventFdLaws E}.
Context (Hacc : ∀ k : K, accepts k).
Abbreviation Loop := (EventLoop F G T K E).
Implicit Types l : Loop.

Definition user_functor (f : functor G) : option G :=
  match f with FnUser g => Some g | _ => None end.

Definition loop_ready l (c : addr) : Prop :=
  poll_inv (poll_ l) ∧ ∃ ch, channels (poll_ l) !! c = Some ch ∧
    loop_ ch = ep_loop (epoller_ (poll_ l)) ∧
    (status_ ch = kNew → map_at (poll_ l) (fd_ ch) = None).

#[export] Instance loop_reactor : Reactor Loop (loop_cb F) G := {|
  rt_isInLoopThread := loop_isInLoopThread;
  rt_channel l c := channels (poll_ l) !! c;
  rt_new_channel c ch l := set_poll (put_channel c ch (poll_ l)) l;
  rt_delete c l := set_poll (delete_channel c (poll_ l)) l;
  rt_change f tid c l := on_loop (change_event f tid c) l;
  rt_remove tid c l := on_loop (remove tid c) l;
  rt_queueInLoop tid g l := queueInLoop tid (FnUser g) l;
  rt_pending l := omap user_functor (pendingFunctors_ l);
  rt_ready := loop_ready;
  rt_addr l := ep_loop (epoller_ (poll_ l));
  rt_can_add l c fd := poll_inv (poll_ l) ∧ channels (poll_ l) !! c = None ∧
    map_at (poll_ l) fd = None |}.

(** On a concrete loop the interface's conditions can be checked. *)
Definition live_check l (c : addr) (e : Z) : bool :=
  poll_check (poll_ l) &&
  match channels (poll_ l) !! c with
  | Some ch => (loop_ ch =? ep_loop (epoller_ (poll_ l))) && negb (bool_decide (status_ ch = kNew)) &&
      (event_ ch =? e) && negb (isHandlingEvent_ ch)
  | None => false
  end.

Lemma live_check_ok l c e : live_check l c e = true → chan_live l c e.
Proof.
  unfold live_check. intros [Hp Hc]%andb_true_iff. destruct (channels (poll_ l) !! c) as [ch|] eqn:Hch; [|done].
  rewrite !andb_true_iff, !negb_true_iff, bool_decide_eq_false, !Z.eqb_eq in Hc. destruct Hc as [[[Hl Hn] He] Hh].
  split.
  - split; [by apply poll_check_inv|]. by exists ch.
  - unfold rt_registered. simpl. rewrite Hch. by rewrite bool_decide_eq_false_2.
  - by exists ch.
Qed.

Lemma isInLoopThread_tid tid l : loop_isInLoopThread tid l = true → tid = threadId_ (poll_ l).
Proof. unfold loop_isInLoopThread, isInLoopThread. intros Heq%Z.eqb_eq. done. Qed.

Lemma loop_law_change f tid c l :
  loop_ready l c → loop_isInLoopThread tid l = true →
  ∃ l', on_loop (change_event f tid c) l = Ok l' ∧ loop_ready l' c ∧
    rt_event l' c = f <$> rt_event l c ∧ rt_registered l' c = true ∧
    (∀ c', c' ≠ c → rt_channel l' c' = rt_channel l c') ∧
    rt_pending l' = rt_pending l ∧
    (∀ t, rt_isInLoopThread t l' = rt_isInLoopThread t l).
Proof.
  intros (Hinv & ch & Hc & Hloop & Hnew) ->%isInLoopThread_tid.
  assert (Hpre : change_pre (threadId_ (poll_ l)) c ch (poll_ l)) by done.
  destruct (change_event_returns f (threadId_ (poll_ l)) c ch (poll_ l) Hinv (Hacc _) Hpre) as [p' Hrun].
  destruct (change_event_ok f (threadId_ (poll_ l)) c (poll_ l) p' Hinv Hrun) as (Hinv' & ch2 & k' & Hpre' & ->).
  assert (ch2 = ch) as -> by (destruct Hpre as [? _], Hpre' as [? _]; congruence).
  assert (Hnot : status_ (changed f ch) ≠ kNew) by (destruct (changed_status f ch) as [->| ->]; done).
  unfold on_loop. rewrite Hrun. eexists. split; [done|].
  unfold rt_event, rt_registered. simpl. rewrite Hc, lookup_insert_eq. split_and!; try done.
  - split; [done|]. exists (changed f ch). split; [apply lookup_insert_eq|].
    split; [done|]. by intros ?%Hnot.
  - by rewrite bool_decide_eq_false_2.
  - intros c' Hne. by rewrite lookup_insert_ne.
Qed.

Lemma loop_law_remove tid c l :
  loop_ready l c → loop_isInLoopThread tid l = true →
  rt_registered l c = true → rt_event l c = Some 0 →
  ∃ l', on_loop (remove tid c) l = Ok l' ∧ loop_ready l' c ∧
    rt_event l' c = Some 0 ∧ rt_registered l' c = false ∧
    (∀ c', c' ≠ c → rt_channel l' c' = rt_channel l c') ∧
    rt_pending l' = rt_pending l ∧
    (∀ t, rt_isInLoopThread t l' = rt_isInLoopThread t l).
Proof.
  intros (Hinv & ch & Hc & Hloop & Hnew) ->%isInLoopThread_tid.
  unfold rt_registered, rt_event. simpl. rewrite Hc. intros Hreg%negb_true_iff [= He].
  apply bool_decide_eq_false in Hreg.
  destruct (remove_ok (threadId_ (poll_ l)) c ch (poll_ l) Hinv) as (k' & Hrun & Hinv'); [done|].
  unfold on_loop. rewrite Hrun. eexists. split; [done|]. simpl. rewrite lookup_insert_eq.
  split_and!; try done.
  - split; [done|]. exists (setStatus ch kNew). split; [apply lookup_insert_eq|].
    split; [done|]. intros _. simpl. rewrite map_at_unregistered. by rewrite decide_True.
  - simpl. by rewrite He.
  - intros c' Hne. by rewrite lookup_insert_ne.
Qed.

Lemma loop_law_remove_enabled tid c l e :
  loop_ready l c → loop_isInLoopThread tid l = true → rt_event l c = Some e → e ≠ 0 →
  on_loop (remove tid c) l ↯ AssertFailed.
Proof.
  intros (Hinv & ch & Hc & Hloop & Hnew) ->%isInLoopThread_tid. unfold rt_event. simpl. rewrite Hc.
  intros [= <-] He. unfold on_loop, remove, removeChannel.
  rewrite (channel_at_ok _ _ _ Hc). ok_simpl.
  rewrite (assert_true (loop_ ch =? _)) by (rewrite Hloop; apply Z.eqb_refl).
  rewrite assertInLoopThread_ok by done. ok_simpl.
  rewrite (assert_false (isNoneEvent ch)); [done|]. by apply Z.eqb_neq.
Qed.

Lemma update_loop op c p p' :
  Epoller.update (F := loop_cb F) (K := K) op c p = Ok p' → ep_loop (epoller_ p') = ep_loop (epoller_ p).
Proof.
  unfold Epoller.update. destruct (channel_at c p); [|done]. ok_simpl.
  intros Hrun. repeat case_match; by simplify_eq.
Qed.

Lemma updateChannel_loop tid c (p p' : Poll (loop_cb F) K) :
  Epoller.updateChannel tid c p = Ok p' → ep_loop (epoller_ p') = ep_loop (epoller_ p).
Proof.
  unfold Epoller.updateChannel. intros (? & _ & (ch & _ & Hrun)%bind_Ok_inv)%bind_Ok_inv.
  destruct (_ || _).
  - apply bind_Ok_inv in Hrun as (p1 & Hp1 & Hup). apply update_loop in Hup as ->.
    destruct (bool_decide (status_ ch = kNew)).
    + apply bind_Ok_inv in Hp1 as (? & _ & [= <-]). done.
    + apply bind_Ok_inv in Hp1 as (? & _ & (? & _ & [= <-])%bind_Ok_inv). done.
  - apply bind_Ok_inv in Hrun as (? & _ & (? & _ & (? & _ & Hrun)%bind_Ok_inv)%bind_Ok_inv).
    destruct (isNoneEvent ch).
    + apply bind_Ok_inv in Hrun as (p1 & Hup%update_loop & [= <-]). done.
    + by apply update_loop in Hrun.
Qed.

Lemma change_event_loop f tid c (p p' : Poll (loop_cb F) K) :
  change_event f tid c p = Ok p' → ep_loop (epoller_ p') = ep_loop (epoller_ p).
Proof.
  unfold change_event, Epoller.loop_updateChannel.
  intros (ch & _ & (? & _ & (? & _ & (? & _ & Hrun)%bind_Ok_inv)%bind_Ok_inv)%bind_Ok_inv)%bind_Ok_inv.
  by apply updateChannel_loop in Hrun.
Qed.

Lemma remove_loop tid c (p p' : Poll (loop_cb F) K) :
  remove tid c p = Ok p' → ep_loop (epoller_ p') = ep_loop (epoller_ p).
Proof.
  unfold remove, Epoller.removeChannel. intros Hrun.
  repeat (apply bind_Ok_inv in Hrun as (? & ? & Hrun)). injection Hrun as <-. simpl.
  match goal with Hup : (if ?b then Epoller.update _ _ _ else _) = Ok _ |- _ => destruct b end.
  - match goal with Hup : Epoller.update _ _ _ = Ok _ |- _ => by apply update_loop in Hup end.
  - match goal with Hup : Ok _ = Ok _ |- _ => by injection Hup as <- end.
Qed.

#[export] Instance loop_reactor_laws : ReactorLaws Loop (loop_cb F) G.
Proof.
  split.
  - intros l c (_ & ch & Hc & _). by exists ch.
  - intros l c ch (Hinv & Hnone & Hfree) Hloop Hst. simpl. rewrite lookup_insert_eq.
    split_and!; try done. split; [by apply poll_inv_new|]. exists ch.
    split; [apply lookup_insert_eq|]. done.
  - intros l c a ch (Hinv & ch' & Hc & _ & Hnew) Hc' Hst Ha. simpl in *.
    assert (ch' = ch) as -> by congruence. split_and!; [done|done|by apply Hnew].
  - intros l c ch o (Hinv & ch' & Hc & Hloop & Hnew) Hc'. simpl in *. rewrite lookup_insert_eq.
    assert (ch' = ch) as -> by congruence.
    split_and!; try done. split; [by eapply poll_inv_touch|]. exists (Channel.tie ch o).
    split; [apply lookup_insert_eq|]. done.
  - apply loop_law_change.
  - apply loop_law_remove.
  - apply loop_law_remove_enabled.
  - intros l c ch (Hinv & ch' & Hc & Hloop & Hnew) Hc' Hst. simpl in *.
    assert (ch' = ch) as -> by congruence. rewrite lookup_delete_eq. split_and!; try done.
    + by eapply poll_inv_delete.
    + by apply Hnew.
    + intros c' Hne. by rewrite lookup_delete_ne.
  - intros f tid c l l' ch [Hinv _] (p & Hrun & [= <-])%bind_Ok_inv Hch.
    destruct (change_event_ok f tid c (poll_ l) p Hinv Hrun) as (_ & ch2 & k' & [Hc2 _] & ->).
    simpl in *. assert (ch2 = ch) as -> by congruence. rewrite lookup_insert_eq. by eexists.
  - intros tid c l l' ch [Hinv _] (p & Hrun & [= <-])%bind_Ok_inv Hch. simpl in *.
    destruct (remove_inv tid c (poll_ l) p Hrun) as [ch2 Hpre].
    assert (ch2 = ch) as -> by (destruct Hpre; congruence).
    destruct (remove_ok tid c ch (poll_ l) Hinv Hpre) as (k' & Hrun' & _).
    rewrite Hrun in Hrun'. injection Hrun' as ->. simpl. by rewrite lookup_insert_eq.
  - intros f tid c l l' ch a b fd [Hinv _] (p & Hrun & [= <-])%bind_Ok_inv Hch Hne (_ & _ & Hfree) Hb. simpl in *.
    destruct (change_event_ok f tid c (poll_ l) p Hinv Hrun) as (Hinv' & ch2 & k' & [Hc2 _] & ->).
    assert (ch2 = ch) as -> by congruence. split_and!; [done|done|].
    rewrite map_at_registered. simpl. by rewrite decide_False.
  - intros tid g l a b fd (Hinv & _ & Hfree) Hb. simpl in *. unfold queueInLoop in *.
    by destruct (negb _ || _).
  - intros f tid c l l' (p & Hrun & [= <-])%bind_Ok_inv. simpl. by apply change_event_loop in Hrun.
  - intros tid c l l' (p & Hrun & [= <-])%bind_Ok_inv. simpl. by apply remove_loop in Hrun.
  - done.
  - intros tid g l. simpl. unfold queueInLoop. by destruct (negb _ || _).
  - intros tid g l. simpl. unfold queueInLoop.
    destruct (negb _ || _); simpl; rewrite omap_app; done.
Qed.

(** The first of the users' functors; those of the timer queue are the loop's own business. *)
Fixpoint take_user (fs : list (functor G)) : option (G * list (functor G)) :=
  match fs with
  | [] => None
  | FnUser g :: r => Some (g, r)
  | f :: r => '(g, r) ← take_user r; Some (g, f :: r)
  end.

#[export] Instance loop_run : LoopRun Loop G := λ l,
  '(g, r) ← take_user (pendingFunctors_ l); Some (g, set_pending r l).

Lemma take_user_spec fs :
  match omap user_functor fs with
  | [] => take_user fs = None
  | g :: r => ∃ fs', take_user fs = Some (g, fs') ∧ omap user_functor fs' = r
  end.
Proof.
  induction fs as [|[a|id|g] fs IH]; simpl; [done| | |by eexists];
    change (list_omap _ _ user_functor fs) with (omap user_functor fs);
    (destruct (omap user_functor fs) as [|g r]; [by rewrite IH|]; destruct IH as (fs' & -> & <-); by eexists).
Qed.

Lemma update_channels op c (p p' : Poll (loop_cb F) K) :
  Epoller.update op c p = Ok p' →
  channels p' = channels p ∧ threadId_ p' = threadId_ p.
Proof.
  unfold Epoller.update. destruct (channel_at c p); [|done]. ok_simpl.
  intros Hrun. repeat case_match; by simplify_eq.
Qed.

(** The channel map and the thread after an operation that may fail. *)
Definition touches (c : addr) (p p' : Poll (loop_cb F) K) : Prop :=
  threadId_ p' = threadId_ p ∧ is_Some (channels p' !! c) ∧ ∀ c', c' ≠ c → channels p' !! c' = channels p !! c'.

Lemma touches_put c ch (p : Poll (loop_cb F) K) : touches c p (put_channel c ch p).
Proof. split_and!; [done|eexists; apply lookup_insert_eq|]. intros c' Hne. simpl. by rewrite lookup_insert_ne. Qed.

Lemma touches_trans c p1 p2 p3 : touches c p1 p2 → touches c p2 p3 → touches c p1 p3.
Proof.
  intros (Ht & _ & Ho1) (Ht2 & Hs & Ho2). split_and!; [congruence|done|].
  intros c' Hne. by rewrite Ho2, Ho1.
Qed.

Lemma touches_update op c (p p' : Poll (loop_cb F) K) : Epoller.update op c p = Ok p' → touches c p p'.
Proof.
  intros Hrun. pose proof (update_channels _ _ _ _ Hrun) as [Hc Ht]. split_and!; [done| |by rewrite Hc].
  rewrite Hc. unfold Epoller.update in Hrun. apply bind_Ok_inv in Hrun as (ch & Hch%channel_at_inv & _). eauto.
Qed.

Lemma touches_updateChannel tid c (p p' : Poll (loop_cb F) K) :
  Epoller.updateChannel tid c p = Ok p' → touches c p p'.
Proof.
  unfold Epoller.updateChannel. intros (? & _ & (ch & _ & Hrun)%bind_Ok_inv)%bind_Ok_inv.
  destruct (_ || _).
  - apply bind_Ok_inv in Hrun as (p1 & Hp1 & Hup%touches_update).
    assert (channels p1 = channels p ∧ threadId_ p1 = threadId_ p) as [Hc Ht].
    { destruct (bool_decide (status_ ch = kNew)).
      - by apply bind_Ok_inv in Hp1 as (? & _ & [= <-]).
      - by apply bind_Ok_inv in Hp1 as (? & _ & (? & _ & [= <-])%bind_Ok_inv). }
    destruct (touches_trans c p1 _ p' (touches_put c _ p1) Hup) as (? & ? & Ho).
    split_and!; [congruence|done|]. intros c' Hne. by rewrite Ho, Hc.
  - apply bind_Ok_inv in Hrun as (? & _ & (? & _ & (? & _ & Hrun)%bind_Ok_inv)%bind_Ok_inv).
    destruct (isNoneEvent ch); [|by apply touches_update in Hrun].
    apply bind_Ok_inv in Hrun as (p1 & Hup%touches_update & [= <-]).
    exact (touches_trans c p p1 _ Hup (touches_put c _ p1)).
Qed.

Lemma touches_change f tid c (p p' : Poll (loop_cb F) K) :
  change_event f tid c p = Ok p' → is_Some (channels p !! c) ∧ touches c p p'.
Proof.
  unfold change_event, Epoller.loop_updateChannel.
  intros (ch & Hch%channel_at_inv & (? & _ & (? & _ & (? & _ & Hrun)%bind_Ok_inv)%bind_Ok_inv)%bind_Ok_inv)%bind_Ok_inv.
  split; [by exists ch|]. apply touches_updateChannel in Hrun.
  exact (touches_trans c _ _ _ (touches_put c _ p) Hrun).
Qed.

Lemma touches_remove tid c (p p' : Poll (loop_cb F) K) :
  remove tid c p = Ok p' → is_Some (channels p !! c) ∧ touches c p p' ∧
    ∃ ch, channels p' !! c = Some ch ∧ status_ ch = kNew.
Proof.
  unfold remove. intros (ch & Hch%channel_at_inv & (? & _ & (? & _ & Hrun)%bind_Ok_inv)%bind_Ok_inv)%bind_Ok_inv.
  unfold Epoller.removeChannel in Hrun.
  do 7 apply bind_Ok_inv in Hrun as (? & _ & Hrun).
  apply bind_Ok_inv in Hrun as (p1 & Hup & [= <-]). split; [by exists ch|].
  set (p0 := put_map _ p) in Hup.
  assert (channels p1 = channels p ∧ threadId_ p1 = threadId_ p) as [Hc Ht].
  { destruct (bool_decide _); [|by injection Hup as <-]. by apply update_channels in Hup. }
  split.
  - split_and!; [by simpl; rewrite Ht|eexists; apply lookup_insert_eq|].
    intros c' Hne. simpl. by rewrite lookup_insert_ne, Hc.
  - eexists. split; [apply lookup_insert_eq|done].
Qed.

(** The event mask of a channel. *)
Definition event_at (c : addr) (p : Poll (loop_cb F) K) : option Z := event_ <$> channels p !! c.

Lemma updateChannel_event tid c (p p' : Poll (loop_cb F) K) :
  Epoller.updateChannel tid c p = Ok p' → event_at c p' = event_at c p.
Proof.
  unfold Epoller.updateChannel, event_at.
  intros (? & _ & (ch & Hch%channel_at_inv & Hrun)%bind_Ok_inv)%bind_Ok_inv. rewrite Hch.
  destruct (_ || _).
  - apply bind_Ok_inv in Hrun as (p1 & _ & [-> _]%update_channels). simpl. by rewrite lookup_insert_eq.
  - apply bind_Ok_inv in Hrun as (? & _ & (? & _ & (? & _ & Hrun)%bind_Ok_inv)%bind_Ok_inv).
    destruct (isNoneEvent ch); [|apply update_channels in Hrun as [-> _]; by rewrite Hch].
    apply bind_Ok_inv in Hrun as (p1 & _ & [= <-]). simpl. by rewrite lookup_insert_eq.
Qed.

Lemma change_event_event f tid c (p p' : Poll (loop_cb F) K) :
  change_event f tid c p = Ok p' → event_at c p' = f <$> event_at c p.
Proof.
  unfold change_event, Epoller.loop_updateChannel.
  intros (ch & Hch%channel_at_inv & (? & _ & (? & _ & (? & _ & Hrun)%bind_Ok_inv)%bind_Ok_inv)%bind_Ok_inv)%bind_Ok_inv.
  apply updateChannel_event in Hrun as ->. unfold event_at. simpl. by rewrite lookup_insert_eq, Hch.
Qed.

Lemma remove_event tid c (p p' : Poll (loop_cb F) K) :
  remove tid c p = Ok p' → event_at c p' = event_at c p.
Proof.
  unfold remove. intros (ch & Hch%channel_at_inv & (? & _ & (? & _ & Hrun)%bind_Ok_inv)%bind_Ok_inv)%bind_Ok_inv.
  unfold Epoller.removeChannel in Hrun. apply bind_Ok_inv in Hrun as (? & _ & Hrun).
  apply bind_Ok_inv in Hrun as (ch2 & Hch2%channel_at_inv & Hrun). do 5 apply bind_Ok_inv in Hrun as (? & _ & Hrun).
  apply bind_Ok_inv in Hrun as (p1 & _ & [= <-]). unfold event_at. simpl. by rewrite lookup_insert_eq, Hch2.
Qed.

Lemma rt_event_at l c : rt_event l c = event_at c (poll_ l).
Proof. unfold rt_event, event_at. simpl. by destruct (channels (poll_ l) !! c). Qed.

#[export] Instance loop_reactor_frame : ReactorFrame Loop (loop_cb F) G.
Proof.
  split.
  - intros c ch l. split; [apply lookup_insert_eq|]. split_and!; try done.
    intros c' Hne. simpl. by rewrite lookup_insert_ne.
  - intros c l. split; [apply lookup_delete_eq|]. split_and!; try done.
    intros c' Hne. simpl. by rewrite lookup_delete_ne.
  - intros f tid c l l' (p & Hrun & [= <-])%bind_Ok_inv.
    pose proof (change_event_loop f tid c _ _ Hrun) as Ha. pose proof (change_event_event f tid c _ _ Hrun) as He.
    apply touches_change in Hrun as (Hs & Ht & Hs' & Ho). rewrite !rt_event_at. split_and!; [done|done|done|].
    split_and!; try done.
    intros t. simpl. unfold loop_isInLoopThread, isInLoopThread. simpl. by rewrite Ht.
  - intros tid c l l' (p & Hrun & [= <-])%bind_Ok_inv.
    pose proof (remove_loop tid c _ _ Hrun) as Ha. pose proof (remove_event tid c _ _ Hrun) as He.
    apply touches_remove in Hrun as (Hs & (Ht & Hs' & Ho) & ch & Hch & Hnew). rewrite !rt_event_at.
    split_and!; [done|done| |done|].
    + unfold rt_registered. simpl. rewrite Hch. by rewrite bool_decide_eq_true_2.
    + split_and!; try done. intros t. simpl. unfold loop_isInLoopThread, isInLoopThread. simpl. by rewrite Ht.
  - intros tid g l. simpl. unfold queueInLoop.
    destruct (negb _ || _); simpl; rewrite omap_app; done.
  - intros l. simpl. unfold rt_take, loop_run. pose proof (take_user_spec (pendingFunctors_ l)) as Ht.
    destruct (omap user_functor (pendingFunctors_ l)) as [|g r]; [by rewrite Ht|].
    destruct Ht as (fs' & -> & Hr). eexists. split; [done|]. by split_and!.
Qed.

(** Timers on the loop, with the reading of its clock and the allocator of its timers. *)
Definition loop_timers (clock : Timestamp) (alloc : gmap addr (TimerQueue.Timer T) → addr)
    (bind_timer : G → T) : LoopTimers Loop G := {|
  rt_runAfter tid delay g l :=
    '(id, w) ← runAfter (λ (_ : G) (w : Loop * unit), Ok w) (λ _, clock) alloc tid delay (bind_timer g) (l, tt);
    Ok (id, w.1);
  rt_cancelTimer tid id l :=
    w ← cancelTimer (λ (_ : G) (w : Loop * unit), Ok w) (λ _, clock) tid id (l, tt);
    Ok w.1 |}.
End instance.
