(* ===== verification/Acceptor.v ===== *)
(** * Acceptor: src/ham/net/Acceptor.h and Acceptor.cc

    The listening socket on its loop, and the spare descriptor [idleFd_] with which it sheds
    connections when the process has no descriptor left. *)
From S2P Require Import Prelude Timestamp Inet SockKernel Channel Epoller EventLoop Reactor ReactorLoop.

Record Acceptor (C : Type) := mkAcceptor {
  listening_ : bool;
  idleFd_ : Z;
  acceptSocket_ : Z;
  acceptChannel_ : addr;
  newConnCallback_ : option C
}.
Arguments mkAcceptor {C}. Arguments listening_ {C}. Arguments idleFd_ {C}. Arguments acceptSocket_ {C}.
Arguments acceptChannel_ {C}. Arguments newConnCallback_ {C}.

(** The acceptor with its loop, the kernel and what the callback acts on. *)
Record AW (C L K U : Type) := mkAW { acc : Acceptor C; alp : L; kern : K; ausr : U }.
Arguments mkAW {C L K U}. Arguments acc {C L K U}. Arguments alp {C L K U}. Arguments kern {C L K U}.
Arguments ausr {C L K U}.

Section acceptor.
Context {C L F G K U : Type} `{SockKernel K} `{Reactor L F G}.
(** [std::bind(&Acceptor::handleRead, this, _1)] *)
Context (bind_read : F).
(** Calling the user's callback with the new descriptor and the peer's address. *)
Context (call : C → Z → sockaddr_in → AW C L K U → outcome (AW C L K U)).
Abbreviation World := (AW C L K U).
Implicit Types w : World.

Definition set_acc (a : Acceptor C) w : World := mkAW a (alp w) (kern w) (ausr w).
Definition set_alp (l : L) w : World := mkAW (acc w) l (kern w) (ausr w).
Definition set_kern (k : K) w : World := mkAW (acc w) (alp w) k (ausr w).
Definition setNewConnCallback (cb : C) (a : Acceptor C) : Acceptor C :=
  mkAcceptor (listening_ a) (idleFd_ a) (acceptSocket_ a) (acceptChannel_ a) (Some cb).
Definition set_listening (a : Acceptor C) : Acceptor C :=
  mkAcceptor true (idleFd_ a) (acceptSocket_ a) (acceptChannel_ a) (newConnCallback_ a).
Definition set_idleFd (fd : Z) (a : Acceptor C) : Acceptor C :=
  mkAcceptor (listening_ a) fd (acceptSocket_ a) (acceptChannel_ a) (newConnCallback_ a).
Definition isListening (a : Acceptor C) : bool := listening_ a.

(** Members in their order: the spare descriptor, the socket, the channel. *)
Definition Acceptor_ctor (loop chan : addr) (address : sockaddr_in) (reusePort : bool)
    (l : L) (k : K) (u : U) : outcome World :=
  let '(k, idleFd) := k_open_null k in
  let '(k, fd) := k_socket k in
  fd ← createNonblockingOrDie fd;
  let ch := Channel_ctor loop fd in
  _ ← assert_ (0 <? idleFd);
  let k := k_setReuseAddr fd true k in
  let k := k_setReusePort fd reusePort k in
  let k := k_bind fd address k in
  Ok (mkAW (mkAcceptor false idleFd fd chan None)
        (rt_new_channel chan (setReadCallback ch bind_read) l) k u).

(** The body, then the members in reverse order: the channel and the socket. *)
Definition Acceptor_dtor (tid : Z) w : outcome (L * K * U) :=
  l ← rt_disableAll tid (acceptChannel_ (acc w)) (alp w);
  l ← rt_remove tid (acceptChannel_ (acc w)) l;
  let k := k_close (idleFd_ (acc w)) (kern w) in
  ch ← (match rt_channel l (acceptChannel_ (acc w)) with Some ch => Ok ch | None => Err NullPointer end);
  _ ← Channel_dtor ch;
  let l := rt_delete (acceptChannel_ (acc w)) l in
  Ok (l, k_close (acceptSocket_ (acc w)) k, ausr w).

Definition listen (tid : Z) w : outcome World :=
  _ ← rt_assertInLoopThread tid (alp w);
  let w := set_acc (set_listening (acc w)) w in
  let w := set_kern (k_listen (acceptSocket_ (acc w)) (kern w)) w in
  l ← rt_enableReading tid (acceptChannel_ (acc w)) (alp w);
  Ok (set_alp l w).

Definition handleRead (tid : Z) w : outcome World :=
  _ ← rt_assertInLoopThread tid (alp w);
  let '(k, (fd, errno, peerAddr)) := k_accept (acceptSocket_ (acc w)) (kern w) in
  '(connfd, errno) ← accept_result fd errno;
  let w := set_kern k w in
  if 0 <? connfd then
    match newConnCallback_ (acc w) with
    | Some cb => call cb connfd peerAddr w
    | None => Ok (set_kern (k_close connfd (kern w)) w)
    end
  else if errno =? EMFILE then
    let k := k_close (idleFd_ (acc w)) (kern w) in
    let '(k, (fd, _, _)) := k_accept (acceptSocket_ (acc w)) k in
    let k := k_close fd k in
    let '(k, idleFd) := k_open_null k in
    Ok (set_kern k (set_acc (set_idleFd idleFd (acc w)) w))
  else Ok w.
End acceptor.

(** ** Properties *)
Section props.
Context {C L F G K U : Type} `{SockKernelLaws K} `{ReactorLaws L F G}.
Context (bind_read : F).
Context (call : C → Z → sockaddr_in → AW C L K U → outcome (AW C L K U)).
Implicit Types w : AW C L K U.

(** The acceptor owns its two descriptors. *)
Record acc_inv w : Prop := {
  ai_idle : idleFd_ (acc w) ∈ k_fds (kern w);
  ai_socket : acceptSocket_ (acc w) ∈ k_fds (kern w);
  ai_distinct : idleFd_ (acc w) ≠ acceptSocket_ (acc w)
}.

Lemma set_kern_id w : set_kern (kern w) w = w.
Proof. by destruct w. Qed.

Lemma assert_in_loop tid (l : L) : rt_isInLoopThread tid l = true → rt_assertInLoopThread tid l = Ok tt.
Proof. unfold rt_assertInLoopThread. by intros ->. Qed.

Lemma minus_one_closed (k : K) : k_close (-1) k = k.
Proof. apply law_close_bad. intros Hin%law_fd. lia. Qed.

(** Giving the spare descriptor to one connection and dropping it. *)
Lemma shed_one s idle (k : K) :
  idle ∈ k_fds k → s ∈ k_fds k → idle ≠ s →
  let k1 := k_close idle k in
  let a := k_accept s k1 in
  let k2 := k_close a.2.1.1 a.1 in
  k_fds k2 = k_fds k ∖ {[idle]} ∧ k_full k2 = false ∧ k_backlog s k2 = tail (k_backlog s k).
Proof.
  intros Hi Hs Hne. cbv zeta. destruct (law_close idle k Hi) as (Hfds & Hfull & Hq).
  rewrite <- (Hq s) by done. destruct (k_backlog s (k_close idle k)) as [|x r] eqn:Hb.
  - destruct (law_accept_none s _ Hfull Hb) as [a Ha]. rewrite Ha. simpl.
    rewrite minus_one_closed. by split_and!.
  - destruct (law_accept s _ x r Hfull Hb) as (k' & fd & e & Ha & Hopen & Hr). rewrite Ha. simpl.
    destruct (close_opened _ _ _ Hopen) as [Hfds' Hfull'].
    split_and!; [by rewrite Hfds', Hfds|done|]. destruct (law_close fd k') as (_ & _ & Hq');
      [by eapply opened_in|]. rewrite Hq'; [done|]. intros ->. destruct Hopen as (_ & Hn & _).
    apply Hn. rewrite Hfds. set_solver.
Qed.

Lemma handleRead_full tid w :
  acc_inv w → rt_isInLoopThread tid (alp w) = true → k_full (kern w) = true →
  ∃ k' idle', handleRead call tid w = Ok (set_kern k' (set_acc (set_idleFd idle' (acc w)) w)) ∧
    acc_inv (set_kern k' (set_acc (set_idleFd idle' (acc w)) w)) ∧
    k_fds k' = {[idle']} ∪ (k_fds (kern w) ∖ {[idleFd_ (acc w)]}) ∧
    k_backlog (acceptSocket_ (acc w)) k' = tail (k_backlog (acceptSocket_ (acc w)) (kern w)).
Proof.
  intros [Hi Hs Hne] Ht Hfull. unfold handleRead. rewrite assert_in_loop by done.
  ok_simpl. destruct (law_accept_full (acceptSocket_ (acc w)) _ Hfull) as [a Ha].
  rewrite Ha. unfold accept_result. simpl. fold EMFILE. cbn [kern set_kern].
  destruct (shed_one (acceptSocket_ (acc w)) (idleFd_ (acc w)) (kern w) Hi Hs Hne) as (Hfds & Hfull2 & Hq).
  destruct (k_accept (acceptSocket_ (acc w)) (k_close (idleFd_ (acc w)) (kern w))) as [k1 [[fd1 e1] a1]].
  simpl in *. destruct (law_null _ Hfull2) as [Hopen Hq2].
  destruct (k_open_null (k_close fd1 k1)) as [k2 idle']. simpl in *.
  exists k2, idle'. destruct Hopen as (Hpos & Hn & Hfds2). rewrite Hfds in *.
  split_and!; [done| |done|by rewrite Hq2, Hq]. split; simpl; [set_solver|set_solver|set_solver].
Qed.
End props.

(** C25: accepting.  In the loop's thread [handleRead] never faults before the user's callback
    and loses no descriptor.  With a descriptor free and a connection waiting, the oldest one
    is taken from the queue and handed to the callback with a fresh descriptor (closed again
    when there is no callback); with none waiting nothing changes.  With no descriptor left
    (EMFILE) the oldest waiting connection is accepted on the spare descriptor and dropped,
    the spare descriptor is open again afterwards, and the queue is one shorter: the loop
    does not spin on a connection it cannot accept. *)
Theorem handleRead_accepts {C L F G K U} `{SockKernelLaws K} `{ReactorLaws L F G}
    (call : C → Z → sockaddr_in → AW C L K U → outcome (AW C L K U)) (tid : Z) (w : AW C L K U) :
  let s := acceptSocket_ (acc w) in
  acc_inv w → rt_isInLoopThread tid (alp w) = true →
  if k_full (kern w) then
    ∃ k' idle', handleRead call tid w = Ok (set_kern k' (set_acc (set_idleFd idle' (acc w)) w)) ∧
      acc_inv (set_kern k' (set_acc (set_idleFd idle' (acc w)) w)) ∧
      k_fds k' = {[idle']} ∪ (k_fds (kern w) ∖ {[idleFd_ (acc w)]}) ∧
      k_backlog s k' = tail (k_backlog s (kern w))
  else
    match k_backlog s (kern w) with
    | [] => handleRead call tid w = Ok w
    | a :: r => ∃ k' fd, opened (kern w) k' fd ∧ k_backlog s k' = r ∧
        match newConnCallback_ (acc w) with
        | Some cb => handleRead call tid w = call cb fd a (set_kern k' w)
        | None => handleRead call tid w = Ok (set_kern (k_close fd k') w) ∧
            k_fds (k_close fd k') = k_fds (kern w)
        end
    end.
Proof.
  intros s Hinv Ht. destruct (k_full (kern w)) eqn:Hfull; [by apply handleRead_full|].
  unfold handleRead. rewrite assert_in_loop by done. ok_simpl. fold s.
  destruct (k_backlog s (kern w)) as [|a r] eqn:Hb.
  - destruct (law_accept_none s _ Hfull Hb) as [a Ha]. rewrite Ha. simpl. by rewrite set_kern_id.
  - destruct (law_accept s _ a r Hfull Hb) as (k' & fd & e & Ha & Hopen & Hr). rewrite Ha.
    exists k', fd. split_and!; [done|done|]. pose proof (proj1 Hopen) as Hpos.
    unfold accept_result. rewrite (proj2 (Z.ltb_ge fd 0)) by lia. ok_simpl.
    rewrite (proj2 (Z.ltb_lt 0 fd)) by done.
    change (newConnCallback_ (acc (set_kern k' w))) with (newConnCallback_ (acc w)).
    destruct (newConnCallback_ (acc w)); [done|]. split; [done|]. by eapply close_opened.
Qed.

(** A process with every descriptor in use and one connection waiting. *)
Abbreviation acc_loop := (EventLoop nat nat unit sim_kernel N).
#[export] Instance acc_loop_laws : ReactorLaws acc_loop (loop_cb nat) nat :=
  loop_reactor_laws sim_epoll_accepts.

Definition acc_loop_start : acc_loop :=
  mkEventLoop true false false false 100 efd_new invalid (Poll_ctor 1 50 101 []) 300
    (TimerQueue.TimerQueue_ctor 1) 301 [] [].
Definition acc_call (cb : nat) (fd : Z) (peer : sockaddr_in) (w : AW nat acc_loop sim_net (list Z)) :
    outcome (AW nat acc_loop sim_net (list Z)) :=
  Ok (mkAW (acc w) (alp w) (kern w) (ausr w ++ [fd])).
Definition acc_demo : AW nat acc_loop sim_net (list Z) :=
  mkAW (mkAcceptor true 4 5 200 (Some 0%nat)) acc_loop_start
    (mkSimNet [5; 4; 2; 1; 0] 5 [mkSockaddr 2 80 1] 0 0) [].

Lemma handleRead_accepts_witness :
  ∃ k' idle', handleRead acc_call 1 acc_demo =
      Ok (set_kern k' (set_acc (set_idleFd idle' (acc acc_demo)) acc_demo)) ∧
    acc_inv (set_kern k' (set_acc (set_idleFd idle' (acc acc_demo)) acc_demo)) ∧
    k_fds k' = {[idle']} ∪ (k_fds (kern acc_demo) ∖ {[4]}) ∧
    k_backlog 5 k' = tail (k_backlog 5 (kern acc_demo)).
Proof.
  assert (Hinv : acc_inv acc_demo).
  { split; [apply (bool_decide_unpack _); vm_compute; exact I..|discriminate]. }
  exact (handleRead_accepts acc_call 1 acc_demo Hinv eq_refl).
Defined.

(** an acceptor leaves nothing behind.  Constructed on a loop that can take its channel, with
    two descriptors free, then made to listen, it watches its socket for reading; its
    destructor unregisters and destroys the channel and closes both descriptors, so that the
    process has exactly the descriptors it had before. *)
Theorem Acceptor_lifecycle {C L F G K U} `{SockKernelLaws K} `{ReactorLaws L F G} (bind_read : F)
    (tid chan : addr) (address : sockaddr_in) (reusePort : bool) (l : L) (k : K) (u : U) :
  rt_isInLoopThread tid l = true → (∀ fd, fd ∉ k_fds k → rt_can_add l chan fd) →
  k_full k = false → k_full (k_open_null k).1 = false →
  ∃ w w' : AW C L K U, Acceptor_ctor bind_read (rt_addr l) chan address reusePort l k u = Ok w ∧
    acc_inv w ∧ isListening (acc w) = false ∧
    listen tid w = Ok w' ∧ acc_inv w' ∧ isListening (acc w') = true ∧
    rt_event (alp w') chan = Some kReadEvent_ ∧ rt_registered (alp w') chan = true ∧
    ∃ l' k', Acceptor_dtor tid w' = Ok (l', k', u) ∧ k_fds k' = k_fds k ∧ rt_channel l' chan = None.
Proof.
  intros Ht Hadd Hf1 Hf2. unfold Acceptor_ctor.
  destruct (law_null k Hf1) as [Ho1 _]. destruct (k_open_null k) as [k1 idle]. simpl in *.
  destruct (law_socket k1 Hf2) as [Ho2 _]. destruct (k_socket k1) as [k2 fd]. simpl in *.
  destruct Ho1 as (Hp1 & Hn1 & Hk1), Ho2 as (Hp2 & Hn2 & Hk2).
  unfold createNonblockingOrDie. rewrite (proj2 (Z.ltb_ge fd 0)) by lia. ok_simpl.
  rewrite assert_true by lia. ok_simpl.
  set (k3 := k_bind fd address (k_setReusePort fd reusePort (k_setReuseAddr fd true k2))).
  assert (Hk3 : k_fds k3 = {[fd]} ∪ ({[idle]} ∪ k_fds k)).
  { unfold k3. by rewrite law_bind, law_reuse_port, law_reuse_addr, Hk2, Hk1. }
  set (ch := setReadCallback (Channel_ctor (rt_addr l) fd) bind_read).
  destruct (law_new l chan ch) as (Hr1 & Hc1 & _ & Ht1); [apply Hadd; set_solver|done|done|].
  set (w := mkAW _ _ k3 u). exists w.
  assert (Hinvw : acc_inv w).
  { split; simpl; [rewrite Hk3; set_solver|rewrite Hk3; set_solver|]. intros ->. set_solver. }
  assert (Htw : rt_isInLoopThread tid (alp w) = true) by (simpl; by rewrite Ht1).
  destruct (law_change reading_on tid chan (alp w) Hr1 Htw) as (l2 & Hrun2 & Hr2 & He2 & Hg2 & _ & _ & Ht2).
  exists (set_alp l2 (set_kern (k_listen fd k3) (set_acc (set_listening (acc w)) w))).
  split_and!; [done|done|done| | |done| |done|].
  - unfold listen. rewrite assert_in_loop by done. ok_simpl.
    unfold rt_enableReading. simpl in Hrun2 |- *. by rewrite Hrun2.
  - destruct Hinvw as [? ? ?]. split; simpl; [|..|done]; by rewrite (proj1 (law_listen fd k3)).
  - simpl. rewrite He2. unfold rt_event. simpl. by rewrite Hc1.
  - unfold Acceptor_dtor. cbn [acc alp kern ausr set_alp set_kern set_acc].
    assert (Ht2' : rt_isInLoopThread tid l2 = true) by by rewrite Ht2.
    destruct (law_change all_off tid chan l2 Hr2 Ht2') as (l3 & Hrun3 & Hr3 & He3 & Hg3 & _ & _ & Ht3).
    unfold rt_disableAll. simpl acceptChannel_. rewrite Hrun3. ok_simpl.
    assert (Hev3 : rt_event l3 chan = Some 0).
    { rewrite He3, He2. unfold rt_event. simpl. by rewrite Hc1. }
    destruct (law_remove tid chan l3 Hr3) as (l4 & Hrun4 & Hr4 & _ & Hg4 & _); [by rewrite Ht3|done|done|].
    rewrite Hrun4. ok_simpl.
    destruct (law_change_channel reading_on tid chan (alp w) l2 ch Hr1 Hrun2 Hc1) as [st2 Hch2].
    destruct (law_change_channel all_off tid chan l2 l3 _ Hr2 Hrun3 Hch2) as [st3 Hch3].
    pose proof (law_remove_channel tid chan l3 l4 _ Hr3 Hrun4 Hch3) as Hch4. rewrite Hch4.
    cbn [mbind outcome_bind Channel_dtor].
    destruct (law_delete l4 chan _ Hr4 Hch4 eq_refl) as (Hnone & _).
    destruct (law_listen fd k3) as [Hkl _]. destruct Hinvw as [Hwi Hws Hwd]. simpl in Hwi, Hws, Hwd.
    destruct (law_close idle (k_listen fd k3)) as (Hcl1 & _); [by rewrite Hkl|].
    destruct (law_close fd (k_close idle (k_listen fd k3))) as (Hcl2 & _).
    { rewrite Hcl1, Hkl, Hk3. set_solver. }
    do 2 eexists. split_and!; [done| |done]. simpl. rewrite Hcl2, Hcl1, Hkl, Hk3.
    rewrite Hk1 in Hn2. set_solver.
Qed.

Definition acc_kernel : sim_net := mkSimNet [2; 1; 0] 10 [] 0 0.

Lemma Acceptor_lifecycle_witness :
  ∃ w w' : AW nat acc_loop sim_net (list Z),
    Acceptor_ctor (CbUser 7%nat) (rt_addr acc_loop_start) 200 (mkSockaddr 2 80 0) true acc_loop_start acc_kernel [] = Ok w ∧
    acc_inv w ∧ isListening (acc w) = false ∧
    listen 1 w = Ok w' ∧ acc_inv w' ∧ isListening (acc w') = true ∧
    rt_event (alp w') 200 = Some kReadEvent_ ∧ rt_registered (alp w') 200 = true ∧
    ∃ l' k', Acceptor_dtor 1 w' = Ok (l', k', []) ∧ k_fds k' = k_fds acc_kernel ∧ rt_channel l' 200 = None.
Proof.
  refine (Acceptor_lifecycle (CbUser 7%nat) 1 200 (mkSockaddr 2 80 0) true acc_loop_start acc_kernel []
    eq_refl _ eq_refl eq_refl).
  intros fd _. split; [apply poll_inv_ctor|]. by split.
Defined.
