(* ===== verification/Connector.v ===== *)
(** * Connector: src/ham/net/Connector.h and Connector.cc

    The client side of a connection until it is established: a non-blocking connect(2), a
    channel that waits for the socket to become writable, and retries with a growing delay.
    The object knows whether a [shared_ptr] owns it, because [retry] calls
    [shared_from_this()]. *)
From S2P Require Import Prelude Timestamp Inet SockKernel Channel Epoller TimerQueue EventLoop Reactor ReactorLoop Acceptor.

Inductive State := kDisconnected | kConnecting | kConnected.
#[export] Instance State_eq_dec : EqDecision State.
Proof. solve_decision. Defined.

Definition kMaxRetryDelayMs : Z := 30 * 1000.
Definition kInitRetryDelayMs : Z := 5000.

Definition EADDRINUSE : Z := 98.
Definition EADDRNOTAVAIL : Z := 99.
Definition ENETUNREACH : Z := 101.
Definition EISCONN : Z := 106.
Definition ECONNREFUSED : Z := 111.
Definition EINPROGRESS : Z := 115.

Record Connector (C : Type) := mkConnector {
  serverAddr_ : sockaddr_in;
  state_ : State;
  connectChannel_ : option addr;
  newConnCb_ : option C;
  connect_ : bool;
  retryDelayMs_ : Z;
  retryTimerId_ : TimerId;
  validTimer_ : bool;
  shared : bool                    (* is a shared_ptr the owner? *)
}.
Arguments mkConnector {C}. Arguments serverAddr_ {C}. Arguments state_ {C}. Arguments connectChannel_ {C}.
Arguments newConnCb_ {C}. Arguments connect_ {C}. Arguments retryDelayMs_ {C}. Arguments retryTimerId_ {C}.
Arguments validTimer_ {C}. Arguments shared {C}.

(** The bound callbacks and functors. *)
Inductive con_cb := CbHandleWrite | CbHandleError.
Inductive con_fn := FnStartInLoop | FnStopInLoop | FnResetChannel.

Record CW (C L K U : Type) := mkCW { con : Connector C; clp : L; ckern : K; cusr : U }.
Arguments mkCW {C L K U}. Arguments con {C L K U}. Arguments clp {C L K U}. Arguments ckern {C L K U}.
Arguments cusr {C L K U}.

Section connector.
Context {C L F G K U : Type} `{SockKernel K} `{Reactor L F G} `{LoopTimers L G}.
Context (bind_cb : con_cb → F) (bind_fn : con_fn → G).
(** Calling [newConnCb_], and the address of a new channel object. *)
Context (call : C → Z → CW C L K U → outcome (CW C L K U)).
Context (new_channel : L → addr).
Abbreviation World := (CW C L K U).
Implicit Types w : World.

Definition set_con (c : Connector C) w : World := mkCW c (clp w) (ckern w) (cusr w).
Definition set_clp (l : L) w : World := mkCW (con w) l (ckern w) (cusr w).
Definition set_ckern (k : K) w : World := mkCW (con w) (clp w) k (cusr w).
Definition set_state (s : State) w : World :=
  let c := con w in
  set_con (mkConnector (serverAddr_ c) s (connectChannel_ c) (newConnCb_ c) (connect_ c)
    (retryDelayMs_ c) (retryTimerId_ c) (validTimer_ c) (shared c)) w.
Definition set_channel (a : option addr) w : World :=
  let c := con w in
  set_con (mkConnector (serverAddr_ c) (state_ c) a (newConnCb_ c) (connect_ c)
    (retryDelayMs_ c) (retryTimerId_ c) (validTimer_ c) (shared c)) w.
Definition set_connect (b : bool) w : World :=
  let c := con w in
  set_con (mkConnector (serverAddr_ c) (state_ c) (connectChannel_ c) (newConnCb_ c) b
    (retryDelayMs_ c) (retryTimerId_ c) (validTimer_ c) (shared c)) w.
Definition set_delay (d : Z) w : World :=
  let c := con w in
  set_con (mkConnector (serverAddr_ c) (state_ c) (connectChannel_ c) (newConnCb_ c) (connect_ c)
    d (retryTimerId_ c) (validTimer_ c) (shared c)) w.
Definition set_timer (id : TimerId) w : World :=
  let c := con w in
  set_con (mkConnector (serverAddr_ c) (state_ c) (connectChannel_ c) (newConnCb_ c) (connect_ c)
    (retryDelayMs_ c) id true (shared c)) w.
Definition setNewConnectionCallback (cb : C) (c : Connector C) : Connector C :=
  mkConnector (serverAddr_ c) (state_ c) (connectChannel_ c) (Some cb) (connect_ c)
    (retryDelayMs_ c) (retryTimerId_ c) (validTimer_ c) (shared c).

Definition Connector_ctor (serverAddr : sockaddr_in) (shared : bool) : Connector C :=
  mkConnector serverAddr kDisconnected None None false kInitRetryDelayMs (mkTimerId None (-1)) false shared.

Definition assertLoop (tid : Z) w : outcome unit := rt_assertInLoopThread tid (clp w).
Definition on_clp (f : L → outcome L) w : outcome World := l ← f (clp w); Ok (set_clp l w).
Definition close (fd : Z) w : World := set_ckern (k_close fd (ckern w)) w.

(** Closes the socket and tries again later. *)
Definition retry (tid sockfd : Z) w : outcome World :=
  _ ← assert_ (bool_decide (state_ (con w) = kConnecting));
  let w := set_state kDisconnected (close sockfd w) in
  if connect_ (con w) then
    if shared (con w) then
      '(id, l) ← rt_runAfter tid (double_div (double_of_Z (retryDelayMs_ (con w))) (double_of_Z 1000))
                   (bind_fn FnStartInLoop) (clp w);
      let w := set_timer id (set_clp l w) in
      Ok (set_delay (Z.min (retryDelayMs_ (con w) * 2) kMaxRetryDelayMs) w)
    else Err BadWeakPtr
  else Ok w.

(** Waits for the socket to become writable. *)
Definition establishConnection (tid sockfd : Z) w : outcome World :=
  let w := set_state kConnecting w in
  _ ← assert_ (bool_decide (connectChannel_ (con w) = None));
  let a := new_channel (clp w) in
  let ch := Channel_ctor (rt_addr (clp w)) sockfd in
  let ch := setErrorCallback (setWriteCallback ch (bind_cb CbHandleWrite)) (bind_cb CbHandleError) in
  let w := set_clp (rt_new_channel a ch (clp w)) (set_channel (Some a) w) in
  on_clp (rt_enableWriting tid a) w.

Definition connect_pending (savedErrno : Z) : bool :=
  bool_decide (savedErrno ∈ [0; EISCONN; EINPROGRESS; EINTR]).
Definition connect_soft_error (savedErrno : Z) : bool :=
  bool_decide (savedErrno ∈ [EAGAIN; EADDRINUSE; EADDRNOTAVAIL; ECONNREFUSED; ENETUNREACH]).

Definition connect (tid : Z) w : outcome World :=
  let '(k, socket_fd) := k_socket (ckern w) in
  socket_fd ← createNonblockingOrDie socket_fd;
  let '(k, savedErrno) := k_connect socket_fd (serverAddr_ (con w)) k in
  let w := set_ckern k w in
  if connect_pending savedErrno then establishConnection tid socket_fd w
  else if connect_soft_error savedErrno then retry tid socket_fd w
  else Ok (close socket_fd w).

Definition startInLoop (tid : Z) w : outcome World :=
  _ ← assertLoop tid w;
  _ ← assert_ (bool_decide (state_ (con w) = kDisconnected));
  if connect_ (con w) then connect tid w else Ok w.

(** Unregisters the channel; the object itself is destroyed by a queued functor, because
    [handleEvent] of that channel may be running. *)
Definition removeAndResetChannel (tid : Z) w : outcome (Z * World) :=
  a ← (match connectChannel_ (con w) with Some a => Ok a | None => Err NullPointer end);
  ch ← (match rt_channel (clp w) a with Some ch => Ok ch | None => Err NullPointer end);
  w ← on_clp (rt_disableAll tid a) w;
  w ← on_clp (rt_remove tid a) w;
  Ok (fd_ ch, set_clp (rt_queueInLoop tid (bind_fn FnResetChannel) (clp w)) w).

Definition resetChannel w : outcome World :=
  match connectChannel_ (con w) with
  | Some a =>
      ch ← (match rt_channel (clp w) a with Some ch => Ok ch | None => Err NullPointer end);
      _ ← Channel_dtor ch;
      Ok (set_clp (rt_delete a (clp w)) (set_channel None w))
  | None => Ok w
  end.

Definition stopInLoop (tid : Z) w : outcome World :=
  _ ← assertLoop tid w;
  if bool_decide (state_ (con w) = kConnecting) then
    '(fd, w) ← removeAndResetChannel tid (set_state kDisconnected w);
    Ok (close fd w)
  else Ok w.

Definition run_fn (tid : Z) (f : con_fn) w : outcome World :=
  match f with
  | FnStartInLoop => startInLoop tid w
  | FnStopInLoop => stopInLoop tid w
  | FnResetChannel => resetChannel w
  end.

Definition runInLoop (tid : Z) (f : con_fn) w : outcome World :=
  if rt_isInLoopThread tid (clp w) then run_fn tid f w
  else Ok (set_clp (rt_queueInLoop tid (bind_fn f) (clp w)) w).

Definition start (tid : Z) w : outcome World := runInLoop tid FnStartInLoop (set_connect true w).

Definition restart (tid : Z) w : outcome World :=
  _ ← assertLoop tid w;
  startInLoop tid (set_delay kInitRetryDelayMs (set_connect true (set_state kDisconnected w))).

Definition stop (tid : Z) w : outcome World :=
  w ← runInLoop tid FnStopInLoop (set_connect false w);
  if validTimer_ (con w) then on_clp (rt_cancelTimer tid (retryTimerId_ (con w))) w else Ok w.

Definition Connector_dtor (tid : Z) w : outcome World :=
  w ← (if bool_decide (connectChannel_ (con w) = None) then Ok w else stop tid w);
  _ ← assert_ (bool_decide (connectChannel_ (con w) = None));
  Ok w.

Definition invoke (cb : option C) (fd : Z) w : outcome World :=
  match cb with Some f => call f fd w | None => Err NotCallable end.

(** [SO_ERROR] of the socket, and [sockets::isSelfConnect]. *)
Definition so_error (fd : Z) w : Z * World :=
  let '(k, err) := k_so_error fd (ckern w) in (err, set_ckern k w).
Definition self_connected (fd : Z) w : bool :=
  isSelfConnect (getLocalAddr (k_sockname fd (ckern w))) (getPeerAddr (k_peername fd (ckern w))).

Definition handleWrite (tid : Z) w : outcome World :=
  if bool_decide (state_ (con w) = kConnecting) then
    '(socket_fd, w) ← removeAndResetChannel tid w;
    let '(err, w) := so_error socket_fd w in
    if negb (err =? 0) then retry tid socket_fd w
    else if self_connected socket_fd w then retry tid socket_fd w
    else
      let w := set_state kConnected w in
      if connect_ (con w) then invoke (newConnCb_ (con w)) socket_fd w
      else Ok (close socket_fd w)
  else
    _ ← assert_ (bool_decide (state_ (con w) = kDisconnected));
    Ok w.

Definition handleError (tid : Z) w : outcome World :=
  _ ← assert_ (bool_decide (state_ (con w) = kConnecting));
  '(socket_fd, w) ← removeAndResetChannel tid w;
  let '(err, w) := so_error socket_fd w in
  retry tid socket_fd w.
End connector.

(** ** Lemmas *)
Section props.
Context {C L F G K U : Type} `{SockKernelLaws K} `{ReactorLaws L F G} `{LoopTimers L G}.
Context (bind_cb : con_cb → F) (bind_fn : con_fn → G).
Context (call : C → Z → CW C L K U → outcome (CW C L K U)).
Context (new_channel : L → addr).
Implicit Types w : CW C L K U.

(** A connect(2) is under way on [fd], with the channel at [a]. *)
Record connecting (fd : Z) (a : addr) w : Prop := {
  cn_state : state_ (con w) = kConnecting;
  cn_channel : connectChannel_ (con w) = Some a;
  cn_ready : rt_ready (clp w) a;
  cn_object : ∃ ch, rt_channel (clp w) a = Some ch ∧ fd_ ch = fd ∧ event_ ch = kWriteEvent_ ∧
    writeCb_ ch = Some (bind_cb CbHandleWrite) ∧ errorCb_ ch = Some (bind_cb CbHandleError);
  cn_registered : rt_registered (clp w) a = true;
  cn_open : fd ∈ k_fds (ckern w)
}.

(** The channel is out of the poller and waits for its destruction. *)
Record detached (a : addr) (l l' : L) : Prop := {
  dt_ready : rt_ready l' a;
  dt_new : ∃ ch ch', rt_channel l a = Some ch ∧ rt_channel l' a = Some ch' ∧ status_ ch' = kNew ∧
    isHandlingEvent_ ch' = isHandlingEvent_ ch ∧ fd_ ch' = fd_ ch;
  dt_pending : rt_pending l' = rt_pending l ++ [bind_fn FnResetChannel];
  dt_addr : rt_addr l' = rt_addr l;
  dt_thread t : rt_isInLoopThread t l' = rt_isInLoopThread t l
}.

Lemma assertLoop_in tid w : rt_isInLoopThread tid (clp w) = true → assertLoop tid w = Ok tt.
Proof. unfold assertLoop, rt_assertInLoopThread. by intros ->. Qed.

Lemma removeAndResetChannel_ok tid fd a w :
  connecting fd a w → rt_isInLoopThread tid (clp w) = true →
  ∃ l', removeAndResetChannel bind_fn tid w = Ok (fd, set_clp l' w) ∧ detached a (clp w) l'.
Proof.
  intros [_ Ha Hr (ch & Hch & <- & _ & _) _ _] Ht. unfold removeAndResetChannel. rewrite Ha.
  ok_simpl. rewrite Hch. ok_simpl. unfold on_clp, rt_disableAll.
  destruct (law_change all_off tid a _ Hr Ht) as (l1 & Hrun1 & Hr1 & He1 & Hg1 & _ & Hp1 & Ht1).
  rewrite Hrun1. cbn [mbind outcome_bind clp set_clp].
  destruct (law_change_channel all_off tid a _ l1 ch Hr Hrun1 Hch) as [st Hch1].
  destruct (law_remove tid a l1 Hr1) as (l2 & Hrun2 & Hr2 & _ & _ & _ & Hp2 & Ht2);
    [by rewrite Ht1|done|by unfold rt_event; rewrite Hch1|].
  pose proof (law_remove_channel tid a l1 l2 _ Hr1 Hrun2 Hch1) as Hch2.
  rewrite Hrun2. cbn [mbind outcome_bind clp set_clp].
  destruct (law_queue tid (bind_fn FnResetChannel) l2) as (Hp3 & Hch3 & Hr3 & Ht3).
  eexists. split; [done|]. split.
  - by apply Hr3.
  - exists ch. eexists. split; [done|]. rewrite Hch3. split_and!; [done|done|done|done].
  - by rewrite Hp3, Hp2, Hp1.
  - rewrite law_queue_addr, (law_remove_addr _ _ _ _ Hrun2). by apply (law_change_addr _ _ _ _ _ Hrun1).
  - intros t. by rewrite Ht3, Ht2, Ht1.
Qed.

(** Outside of [handleEvent] the queued functor destroys the channel. *)
Lemma resetChannel_ok a w :
  connectChannel_ (con w) = Some a → rt_ready (clp w) a →
  (∃ ch, rt_channel (clp w) a = Some ch ∧ status_ ch = kNew ∧ isHandlingEvent_ ch = false) →
  resetChannel w = Ok (set_clp (rt_delete a (clp w)) (set_channel None w)).
Proof.
  intros Ha Hr (ch & Hch & _ & Hh). unfold resetChannel. rewrite Ha, Hch. ok_simpl.
  unfold Channel_dtor. by rewrite Hh.
Qed.

Lemma establishConnection_ok tid fd w :
  let a := new_channel (clp w) in
  connectChannel_ (con w) = None → rt_isInLoopThread tid (clp w) = true →
  rt_can_add (clp w) a fd → fd ∈ k_fds (ckern w) →
  ∃ w', establishConnection bind_cb new_channel tid fd w = Ok w' ∧ connecting fd a w' ∧
    con w' = con (set_channel (Some a) (set_state kConnecting w)) ∧ ckern w' = ckern w ∧ cusr w' = cusr w ∧
    rt_pending (clp w') = rt_pending (clp w) ∧
    (∀ t, rt_isInLoopThread t (clp w') = rt_isInLoopThread t (clp w)).
Proof.
  intros a Hnone Ht Hadd Hopen. unfold establishConnection.
  rewrite bool_decide_eq_true_2 by done. cbn [assert_ mbind outcome_bind clp set_state set_con]. fold a.
  match goal with |- context [rt_new_channel a ?x _] => set (ch := x) end.
  destruct (law_new (clp w) a ch Hadd eq_refl eq_refl) as (Hr1 & Hch1 & Hp1 & Ht1).
  unfold on_clp, rt_enableWriting. cbn [clp set_clp].
  destruct (law_change writing_on tid a (rt_new_channel a ch (clp w)) Hr1)
    as (l2 & Hrun2 & Hr2 & _ & Hg2 & _ & Hp2 & Ht2); [by rewrite Ht1|].
  destruct (law_change_channel writing_on tid a _ l2 ch Hr1 Hrun2 Hch1) as [st Hch2].
  rewrite Hrun2. ok_simpl. eexists. split; [done|]. split_and!; try done.
  - split; try done. by eexists.
  - simpl. by rewrite Hp2, Hp1.
  - intros t. simpl. by rewrite Ht2, Ht1.
Qed.

Lemma startInLoop_connects tid w e :
  rt_isInLoopThread tid (clp w) = true → state_ (con w) = kDisconnected → connect_ (con w) = true →
  k_full (ckern w) = false →
  (k_connect (k_socket (ckern w)).2 (serverAddr_ (con w)) (k_socket (ckern w)).1).2 = e →
  ∃ fd k', opened (ckern w) k' fd ∧
    startInLoop bind_cb bind_fn new_channel tid w =
      if connect_pending e then establishConnection bind_cb new_channel tid fd (set_ckern k' w)
      else if connect_soft_error e then retry bind_fn tid fd (set_ckern k' w)
      else Ok (close fd (set_ckern k' w)).
Proof.
  intros Ht Hst Hc Hfull Hres. unfold startInLoop. rewrite assertLoop_in by done. ok_simpl.
  rewrite bool_decide_eq_true_2 by done. cbn [assert_ mbind outcome_bind]. rewrite Hc. unfold connect.
  destruct (law_socket (ckern w) Hfull) as [Hopen _]. destruct (k_socket (ckern w)) as [k1 fd].
  simpl in Hopen, Hres. unfold createNonblockingOrDie.
  rewrite (proj2 (Z.ltb_ge fd 0)) by (destruct Hopen; lia). ok_simpl.
  pose proof (law_connect fd (serverAddr_ (con w)) k1) as Hfds.
  destruct (k_connect fd (serverAddr_ (con w)) k1) as [k2 r]. simpl in *. subst r.
  exists fd, k2. split; [|done]. destruct Hopen as (? & ? & Heq). split_and!; [done|done|]. by rewrite Hfds.
Qed.

(** What [handleWrite] does with the socket, once the channel is detached. *)
Lemma handleWrite_run tid fd a w :
  connecting fd a w → rt_isInLoopThread tid (clp w) = true →
  ∃ l', detached a (clp w) l' ∧
    let w1 := set_ckern (k_so_error fd (ckern w)).1 (set_clp l' w) in
    handleWrite bind_fn call tid w =
      if negb ((k_so_error fd (ckern w)).2 =? 0) || self_connected fd w1 then retry bind_fn tid fd w1
      else if connect_ (con w) then invoke call (newConnCb_ (con w)) fd (set_state kConnected w1)
      else Ok (close fd (set_state kConnected w1)).
Proof.
  intros Hcn Ht. destruct (removeAndResetChannel_ok tid fd a w Hcn Ht) as (l' & Hrun & Hdt).
  exists l'. split; [done|]. unfold handleWrite.
  rewrite bool_decide_eq_true_2 by apply Hcn. rewrite Hrun. ok_simpl.
  unfold so_error. cbn [ckern set_clp]. destruct (k_so_error fd (ckern w)) as [k' err]. cbn [fst snd].
  destruct (negb (err =? 0)); [done|]. simpl orb. by destruct (self_connected _ _).
Qed.

Lemma connecting_close fd a w : connecting fd a w → k_fds (ckern (close fd w)) = k_fds (ckern w) ∖ {[fd]}.
Proof. intros Hcn. by destruct (law_close fd (ckern w) (cn_open _ _ _ Hcn)). Qed.
End props.

(** ** Properties *)

(** C24: connecting.  [start] in the loop's thread, with a descriptor free, opens one socket; when
    connect(2) succeeds or is in progress, the connector is connecting on it and waits for
    it to become writable.  When it does, and the socket has no error and is not connected
    to itself, the channel is unregistered, its destruction is queued, and the callback is
    called once with that descriptor, which is still open.  Run afterwards, the queued
    functor leaves the connector without a channel. *)
Theorem connect_succeeds {C L F G K U} `{SockKernelLaws K} `{ReactorLaws L F G} `{LoopTimers L G}
    (bind_cb : con_cb → F) (bind_fn : con_fn → G)
    (call : C → Z → CW C L K U → outcome (CW C L K U)) (new_channel : L → addr)
    (tid e : Z) (w : CW C L K U) (cb : C) :
  let a := new_channel (clp w) in
  rt_isInLoopThread tid (clp w) = true → state_ (con w) = kDisconnected →
  connectChannel_ (con w) = None → newConnCb_ (con w) = Some cb → k_full (ckern w) = false →
  (∀ fd, fd ∉ k_fds (ckern w) → rt_can_add (clp w) a fd) →
  (k_connect (k_socket (ckern w)).2 (serverAddr_ (con w)) (k_socket (ckern w)).1).2 = e → connect_pending e = true →
  ∃ fd w1, start bind_cb bind_fn new_channel tid w = Ok w1 ∧ opened (ckern w) (ckern w1) fd ∧
    connecting bind_cb fd a w1 ∧
    ∃ l', detached bind_fn a (clp w1) l' ∧
      let w2 := set_state kConnected (set_ckern (k_so_error fd (ckern w1)).1 (set_clp l' w1)) in
      ((k_so_error fd (ckern w1)).2 = 0 → self_connected fd w2 = false →
         handleWrite bind_fn call tid w1 = call cb fd w2 ∧ fd ∈ k_fds (ckern w2)) ∧
      ((∃ ch, rt_channel l' a = Some ch ∧ isHandlingEvent_ ch = false) →
         ∃ w3, resetChannel w2 = Ok w3 ∧ connectChannel_ (con w3) = None ∧ rt_channel (clp w3) a = None).
Proof.
  intros a Ht Hst Hnone Hcb Hfull Hadd Hres He. unfold start, runInLoop.
  change (clp (set_connect true w)) with (clp w). rewrite Ht. cbn [run_fn].
  destruct (startInLoop_connects bind_cb bind_fn new_channel tid (set_connect true w) e)
    as (fd & k' & Hopen & ->); [done..|]. rewrite He.
  change (ckern (set_connect true w)) with (ckern w) in Hopen.
  destruct (establishConnection_ok bind_cb new_channel tid fd (set_ckern k' (set_connect true w)))
    as (w1 & Hrun & Hcn & Hcon & Hk1 & _ & _ & Ht1); [done|done|by apply Hadd; destruct Hopen as (_ & ? & _)|
      by apply (opened_in (ckern w))|].
  change (new_channel (clp (set_ckern k' (set_connect true w)))) with a in Hcn, Hcon.
  exists fd, w1. split_and!; [done|by rewrite Hk1|done|].
  assert (Ht' : rt_isInLoopThread tid (clp w1) = true) by by rewrite Ht1.
  destruct (handleWrite_run bind_cb bind_fn call tid fd a w1 Hcn Ht') as (l' & Hdt & Hw).
  exists l'. split; [done|].
  set (w2 := set_state kConnected (set_ckern (k_so_error fd (ckern w1)).1 (set_clp l' w1))). split.
  - intros Herr Hself. cbv zeta in Hw. rewrite Hw, Herr. cbn [negb Z.eqb orb].
    change (self_connected fd _) with (self_connected fd w2). rewrite Hself.
    rewrite Hcon. cbn. rewrite Hcb. cbn [invoke]. split; [done|].
    unfold w2. simpl. rewrite law_so_error, Hk1. by apply (opened_in (ckern w)).
  - intros (ch & Hch & Hh). destruct Hdt as [Hr (ch0 & ch1 & _ & Hch1 & Hnew & _) _ _ _].
    assert (ch1 = ch) as -> by congruence.
    destruct (law_delete l' a ch Hr Hch Hnew) as (Hgone & _).
    rewrite (resetChannel_ok a); [|by simpl; rewrite Hcon|done|by exists ch].
    eexists. split_and!; done.
Qed.

(** The connector of the examples, on the loop of Acceptor.v's. *)
#[export] Instance con_timers : LoopTimers acc_loop nat :=
  loop_timers (mkTimestamp 1000) TimerQueue.bump_alloc (λ _, tt).
Definition con_bind_cb (f : con_cb) : loop_cb nat :=
  match f with CbHandleWrite => CbUser 1%nat | CbHandleError => CbUser 2%nat end.
Definition con_bind_fn (f : con_fn) : nat :=
  match f with FnStartInLoop => 1 | FnStopInLoop => 2 | FnResetChannel => 3 end%nat.
Abbreviation con_W := (CW nat acc_loop sim_net (list Z)).
Definition con_call (cb : nat) (fd : Z) (w : con_W) : outcome con_W :=
  Ok (mkCW (con w) (clp w) (ckern w) (cusr w ++ [fd])).

(** [connect_result] is what connect(2) reports, [so_err] what SO_ERROR holds later. *)
Definition con_new (shared : bool) (connect_result so_err : Z) : con_W :=
  mkCW (setNewConnectionCallback 9%nat (Connector_ctor (mkSockaddr AF_INET 80 2) shared))
    acc_loop_start (mkSimNet [2; 1; 0] 10 [] connect_result so_err) [].

Lemma acc_loop_can_add c fd : rt_can_add acc_loop_start c fd.
Proof. split; [apply poll_inv_ctor|]. by split. Qed.

Lemma connect_succeeds_witness :
  ∃ fd w1, start con_bind_cb con_bind_fn (λ _, 200) 1 (con_new false EINPROGRESS 0) = Ok w1 ∧
    opened (ckern (con_new false EINPROGRESS 0)) (ckern w1) fd ∧ connecting con_bind_cb fd 200 w1 ∧
    ∃ l', detached con_bind_fn 200 (clp w1) l' ∧
      let w2 := set_state kConnected (set_ckern (k_so_error fd (ckern w1)).1 (set_clp l' w1)) in
      ((k_so_error fd (ckern w1)).2 = 0 → self_connected fd w2 = false →
         handleWrite con_bind_fn con_call 1 w1 = con_call 9%nat fd w2 ∧ fd ∈ k_fds (ckern w2)) ∧
      ((∃ ch, rt_channel l' 200 = Some ch ∧ isHandlingEvent_ ch = false) →
         ∃ w3, resetChannel w2 = Ok w3 ∧ connectChannel_ (con w3) = None ∧ rt_channel (clp w3) 200 = None).
Proof.
  refine (connect_succeeds con_bind_cb con_bind_fn con_call (λ _, 200) 1 EINPROGRESS
    (con_new false EINPROGRESS 0) 9%nat eq_refl eq_refl eq_refl eq_refl eq_refl _ eq_refl eq_refl).
  intros fd _. apply acc_loop_can_add.
Defined.

(** After [start]: connecting on descriptor 3. *)
Definition con_opened (shared : bool) (so_err : Z) : con_W :=
  set_ckern (mkSimNet [3; 2; 1; 0] 10 [] EINPROGRESS so_err)
    (set_connect true (con_new shared EINPROGRESS so_err)).
Definition con_demo (shared : bool) (so_err : Z) : con_W :=
  match establishConnection con_bind_cb (λ _, 200) 1 3 (con_opened shared so_err) with
  | Ok w => w | Err _ => con_opened shared so_err
  end.

Lemma con_demo_connecting shared so_err :
  connecting con_bind_cb 3 200 (con_demo shared so_err) ∧
  rt_isInLoopThread 1 (clp (con_demo shared so_err)) = true ∧
  con (con_demo shared so_err) =
    con (set_channel (Some 200) (set_state kConnecting (con_opened shared so_err))) ∧
  ckern (con_demo shared so_err) = ckern (con_opened shared so_err).
Proof.
  destruct (establishConnection_ok con_bind_cb (λ _, 200) 1 3 (con_opened shared so_err))
    as (w & Hrun & Hcn & Hcon & Hk & _ & _ & Ht); [reflexivity|reflexivity|apply acc_loop_can_add| |].
  { apply (bool_decide_unpack _). vm_compute. exact I. }
  unfold con_demo. rewrite Hrun. split_and!; [exact Hcn|by rewrite Ht|exact Hcon|exact Hk].
Qed.

(** retrying.  When a connection attempt of a connector that a [shared_ptr] owns fails
    after the socket became writable, the socket is closed, and the attempt is scheduled
    again after the current delay (in seconds); the next delay is twice as long.  From the
    initial 5 s the delay of the n-th retry is 5 s times 2^n, but never more than 30 s. *)
Theorem retry_backoff {C L F G K U} `{SockKernelLaws K} `{ReactorLaws L F G} `{LoopTimers L G}
    (bind_cb : con_cb → F) (bind_fn : con_fn → G)
    (call : C → Z → CW C L K U → outcome (CW C L K U)) (tid fd : Z) (a : addr) (w : CW C L K U) :
  connecting bind_cb fd a w → rt_isInLoopThread tid (clp w) = true → shared (con w) = true →
  connect_ (con w) = true → (k_so_error fd (ckern w)).2 ≠ 0 →
  ∃ l', detached bind_fn a (clp w) l' ∧
    (∀ id l'', rt_runAfter tid (double_div (double_of_Z (retryDelayMs_ (con w))) (double_of_Z 1000))
                 (bind_fn FnStartInLoop) l' = Ok (id, l'') →
      ∃ w', handleWrite bind_fn call tid w = Ok w' ∧ clp w' = l'' ∧ state_ (con w') = kDisconnected ∧
        (fd ∉ k_fds (ckern w')) ∧ retryTimerId_ (con w') = id ∧ validTimer_ (con w') = true ∧
        retryDelayMs_ (con w') = Z.min (retryDelayMs_ (con w) * 2) kMaxRetryDelayMs) ∧
    ∀ n, Nat.iter n (λ d, Z.min (d * 2) kMaxRetryDelayMs) kInitRetryDelayMs =
      Z.min (kInitRetryDelayMs * 2 ^ Z.of_nat n) kMaxRetryDelayMs.
Proof.
  intros Hcn Ht Hsh Hc Herr.
  destruct (handleWrite_run bind_cb bind_fn call tid fd a w Hcn Ht) as (l' & Hdt & Hw).
  exists l'. split_and!; [done| |].
  - intros id l'' Hrun. cbv zeta in Hw. apply Z.eqb_neq in Herr. rewrite Herr in Hw. cbn [negb orb] in Hw.
    rewrite Hw. unfold retry. cbn [con set_ckern set_clp]. rewrite bool_decide_eq_true_2 by apply Hcn.
    cbn [assert_ mbind outcome_bind].
    change (con (set_clp l' w)) with (con w). change (clp (set_clp l' w)) with l'.
    cbn [con close set_ckern set_state set_con connect_ shared retryDelayMs_ clp].
    change (con (set_clp l' w)) with (con w). change (clp (set_clp l' w)) with l'. rewrite Hc, Hsh, Hrun.
    ok_simpl. eexists. split_and!; try done. simpl.
    assert (Hfd : fd ∈ k_fds (k_so_error fd (ckern w)).1) by (rewrite law_so_error; apply Hcn).
    destruct (law_close fd _ Hfd) as (Hcl & _). rewrite Hcl. set_solver.
  - induction n as [|n IH]; [done|]. rewrite Nat.iter_succ, IH, Nat2Z.inj_succ, Z.pow_succ_r by lia.
    unfold kMaxRetryDelayMs, kInitRetryDelayMs. lia.
Qed.

Lemma retry_backoff_witness :
  ∃ l', detached con_bind_fn 200 (clp (con_demo true ECONNREFUSED)) l' ∧
    (∀ id l'', rt_runAfter 1 (double_div (double_of_Z (retryDelayMs_ (con (con_demo true ECONNREFUSED))))
                 (double_of_Z 1000)) (con_bind_fn FnStartInLoop) l' = Ok (id, l'') →
      ∃ w', handleWrite con_bind_fn con_call 1 (con_demo true ECONNREFUSED) = Ok w' ∧ clp w' = l'' ∧
        state_ (con w') = kDisconnected ∧
        (3 ∉ k_fds (ckern w')) ∧ retryTimerId_ (con w') = id ∧ validTimer_ (con w') = true ∧
        retryDelayMs_ (con w') =
          Z.min (retryDelayMs_ (con (con_demo true ECONNREFUSED)) * 2) kMaxRetryDelayMs) ∧
    ∀ n, Nat.iter n (λ d, Z.min (d * 2) kMaxRetryDelayMs) kInitRetryDelayMs =
      Z.min (kInitRetryDelayMs * 2 ^ Z.of_nat n) kMaxRetryDelayMs.
Proof.
  destruct (con_demo_connecting true ECONNREFUSED) as (Hcn & Ht & Hcon & Hk).
  apply (retry_backoff con_bind_cb con_bind_fn con_call 1 3 200 (con_demo true ECONNREFUSED) Hcn Ht).
  - rewrite Hcon. reflexivity.
  - rewrite Hcon. reflexivity.
  - rewrite Hk. discriminate.
Defined.

(** a connection refused at once ends the process.  When connect(2) itself reports one of
    the errors after which the connector means to retry, [retry] fails its assertion: it
    expects the state kConnecting, which only [establishConnection] sets. *)
Theorem refused_at_once_asserts {C L F G K U} `{SockKernelLaws K} `{ReactorLaws L F G} `{LoopTimers L G}
    (bind_cb : con_cb → F) (bind_fn : con_fn → G) (new_channel : L → addr) (tid e : Z) (w : CW C L K U) :
  rt_isInLoopThread tid (clp w) = true → state_ (con w) = kDisconnected → k_full (ckern w) = false →
  (k_connect (k_socket (ckern w)).2 (serverAddr_ (con w)) (k_socket (ckern w)).1).2 = e → connect_soft_error e = true →
  start bind_cb bind_fn new_channel tid w ↯ AssertFailed.
Proof.
  intros Ht Hst Hfull Hres He. unfold start, runInLoop.
  change (clp (set_connect true w)) with (clp w). rewrite Ht. cbn [run_fn].
  destruct (startInLoop_connects bind_cb bind_fn new_channel tid (set_connect true w) e)
    as (fd & k' & _ & ->); [done..|].
  assert (connect_pending e = false) as ->.
  { apply bool_decide_eq_true in He. apply bool_decide_eq_false. set_unfold in He.
    destruct He as [->|[->|[->|[->|[->|[]]]]]]; vm_compute; intros Hin; set_solver. }
  rewrite He. unfold retry. cbn [con set_ckern set_connect set_con state_]. rewrite Hst. done.
Qed.

Lemma refused_at_once_asserts_witness :
  start con_bind_cb con_bind_fn (λ _, 200) 1 (con_new true ECONNREFUSED 0) ↯ AssertFailed.
Proof.
  apply (refused_at_once_asserts con_bind_cb con_bind_fn (λ _, 200) 1 ECONNREFUSED
    (con_new true ECONNREFUSED 0)); reflexivity.
Defined.

(** a connector cannot be destroyed while it connects.  The destructor calls [stop], which
    closes the socket and unregisters the channel but leaves its destruction to a queued
    functor, and then asserts that there is no channel. *)
Theorem destroyed_while_connecting_asserts {C L F G K U} `{SockKernelLaws K} `{ReactorLaws L F G}
    `{LoopTimers L G} (bind_cb : con_cb → F) (bind_fn : con_fn → G) (new_channel : L → addr)
    (tid fd : Z) (a : addr) (w : CW C L K U) :
  connecting bind_cb fd a w → rt_isInLoopThread tid (clp w) = true → validTimer_ (con w) = false →
  (∃ w', stop bind_cb bind_fn new_channel tid w = Ok w' ∧ state_ (con w') = kDisconnected ∧
     (fd ∉ k_fds (ckern w')) ∧ connectChannel_ (con w') = Some a ∧ validTimer_ (con w') = false) ∧
  Connector_dtor bind_cb bind_fn new_channel tid w ↯ AssertFailed.
Proof.
  intros Hcn Ht Hvalid.
  assert (Hstop : ∃ w', stop bind_cb bind_fn new_channel tid w = Ok w' ∧ state_ (con w') = kDisconnected ∧
     (fd ∉ k_fds (ckern w')) ∧ connectChannel_ (con w') = Some a ∧ validTimer_ (con w') = false).
  { unfold stop, runInLoop. change (clp (set_connect false w)) with (clp w). rewrite Ht. cbn [run_fn].
    unfold stopInLoop. rewrite assertLoop_in by done. ok_simpl.
    change (state_ (con (set_connect false w))) with (state_ (con w)).
    rewrite bool_decide_eq_true_2 by apply Hcn.
    destruct (removeAndResetChannel_ok bind_cb bind_fn tid fd a w Hcn Ht) as (l' & Hrun & Hdt).
    assert (Hrun' : removeAndResetChannel bind_fn tid (set_state kDisconnected (set_connect false w)) =
      Ok (fd, set_clp l' (set_state kDisconnected (set_connect false w)))).
    { revert Hrun. unfold removeAndResetChannel, on_clp. cbn.
      destruct (connectChannel_ (con w)) as [a'|]; [|done]. cbn.
      destruct (rt_channel (clp w) a'); [|done]. cbn.
      destruct (rt_disableAll tid a' (clp w)) as [l1|]; [|done]. cbn.
      destruct (rt_remove tid a' l1) as [l2|]; [|done]. cbn. by intros [= -> <-]. }
    rewrite Hrun'. ok_simpl.
    change (validTimer_ (con (close fd _))) with (validTimer_ (con w)). rewrite Hvalid.
    eexists. split_and!; [done|done| |apply Hcn|done]. simpl.
    destruct (law_close fd (ckern w) (cn_open _ _ _ _ Hcn)) as (Hcl & _). rewrite Hcl. set_solver. }
  split; [done|]. destruct Hstop as (w' & Hrun & _ & _ & Ha & _). unfold Connector_dtor.
  rewrite (cn_channel _ _ _ _ Hcn). cbn [bool_decide]. rewrite bool_decide_eq_false_2 by done.
  rewrite Hrun. ok_simpl. by rewrite Ha.
Qed.

Lemma destroyed_while_connecting_asserts_witness :
  (∃ w', stop con_bind_cb con_bind_fn (λ _, 200) 1 (con_demo false 0) = Ok w' ∧
     state_ (con w') = kDisconnected ∧ (3 ∉ k_fds (ckern w')) ∧ connectChannel_ (con w') = Some 200 ∧
     validTimer_ (con w') = false) ∧
  Connector_dtor con_bind_cb con_bind_fn (λ _, 200) 1 (con_demo false 0) ↯ AssertFailed.
Proof.
  destruct (con_demo_connecting false 0) as (Hcn & Ht & Hcon & Hk).
  apply (destroyed_while_connecting_asserts con_bind_cb con_bind_fn (λ _, 200) 1 3 200 (con_demo false 0) Hcn Ht).
  rewrite Hcon. reflexivity.
Defined.
