(* ===== verification/TcpConnection.v ===== *)
(** * TcpConnection: src/ham/net/TcpConnection.h and TcpConnection.cc

    One connection in its loop.  The loop is used through the [Reactor] interface, the
    socket through the class [Socket]; the user's callbacks are tokens of a type [C] that
    [call] interprets.  Functors bound to [this] are values of [conn_fn]. *)
From S2P Require Import Prelude Timestamp Inet Buffer Channel Reactor.

(** ** The socket *)
Definition EWOULDBLOCK : Z := 11.
Definition EPIPE : Z := 32.
Definition ECONNRESET : Z := 104.

(** The system calls on the connection's descriptor.  [sk_sent] is what the kernel took for
    transmission so far, [sk_wr_shut] whether the write side was shut down. *)
Class Socket (S : Type) := {
  sk_write : S → list byte → S * (Z * Z);       (* ::write: result and errno *)
  sk_readv : S → Z → Z → S * readv_result;      (* ::readv on two vectors *)
  sk_shutdownWrite : S → S;
  sk_setKeepAlive : bool → S → S;
  sk_setTcpNoDelay : bool → S → S;
  sk_sent : S → list byte;
  sk_wr_shut : S → bool
}.

Class SocketLaws (S : Type) `{Socket S} : Prop := {
  write_ok s d : 0 ≤ (sk_write s d).2.1 → (sk_write s d).2.1 ≤ zlen d ∧
    sk_sent (sk_write s d).1 = sk_sent s ++ take (Z.to_nat (sk_write s d).2.1) d;
  write_fail s d : (sk_write s d).2.1 < 0 → sk_sent (sk_write s d).1 = sk_sent s;
  write_shut s d : sk_wr_shut (sk_write s d).1 = sk_wr_shut s;
  readv_len s n m d : 0 ≤ n + m → (sk_readv s n m).2 = ReadvData d → zlen d ≤ n + m;
  readv_sent s n m : sk_sent (sk_readv s n m).1 = sk_sent s ∧
    sk_wr_shut (sk_readv s n m).1 = sk_wr_shut s;
  shutdown_sent s : sk_sent (sk_shutdownWrite s) = sk_sent s;
  shutdown_shut s : sk_wr_shut (sk_shutdownWrite s) = true
}.

(** ** The connection *)
Inductive State := kDisconnected | kConnecting | kConnected | kDisconnecting.
#[export] Instance State_eq_dec : EqDecision State.
Proof. solve_decision. Defined.

Record TcpConnection (C X : Type) := mkTcpConnection {
  this_ : addr;                 (* the object's address, for shared_from_this *)
  name_ : list byte;
  state_ : State;
  channel_ : addr;
  inputBuffer_ : Buffer;
  outputBuffer_ : Buffer;
  highWaterMark_ : Z;
  connectionCallback_ : option C;
  messageCallback_ : option C;
  closeCallback_ : option C;
  writeCompleteCallback_ : option C;
  highWaterMarkCallback_ : option C;
  context_ : option X           (* boost::any *)
}.
Arguments mkTcpConnection {C X}. Arguments this_ {C X}. Arguments name_ {C X}.
Arguments state_ {C X}. Arguments channel_ {C X}. Arguments inputBuffer_ {C X}.
Arguments outputBuffer_ {C X}. Arguments highWaterMark_ {C X}.
Arguments connectionCallback_ {C X}. Arguments messageCallback_ {C X}.
Arguments closeCallback_ {C X}. Arguments writeCompleteCallback_ {C X}.
Arguments highWaterMarkCallback_ {C X}. Arguments context_ {C X}.

(** The callbacks of the channel and the functors, all bound to the connection. *)
Inductive conn_cb := CbRead | CbWrite | CbClose | CbError.
Inductive conn_fn (C : Type) :=
| FnSendInLoop (msg : list byte)
| FnShutdownInLoop
| FnForceCloseInLoop
| FnEstablish
| FnDestroy
| FnWriteComplete (cb : C)
| FnHighWaterMark (cb : C) (len : Z).
Arguments FnSendInLoop {C}. Arguments FnShutdownInLoop {C}. Arguments FnForceCloseInLoop {C}.
Arguments FnEstablish {C}. Arguments FnDestroy {C}. Arguments FnWriteComplete {C}.
Arguments FnHighWaterMark {C}.

(** The argument of a user callback besides the connection. *)
Inductive cb_arg := ArgNone | ArgTime (t : Timestamp) | ArgLen (n : Z).

(** The public operations that user code calls on a connection. *)
Inductive user_op := UserSend (msg : list byte) | UserShutdown | UserForceClose.

Section connection.
Context {C X S L F G U : Type} `{Socket S} `{Reactor L F G}.

(** The world of a connection's code: itself, its loop, its socket and the user's data. *)
Record W := mkW { conn : TcpConnection C X; lp : L; sock : S; usr : U }.

(** [std::bind] of a member function, and calls of user callbacks. *)
Context (bind_cb : conn_cb → F) (bind_fn : conn_fn C → G).
Context (call : C → cb_arg → W → outcome W).

Implicit Types (c : TcpConnection C X) (w : W).

Definition set_conn c w : W := mkW c (lp w) (sock w) (usr w).
Definition set_lp (l : L) w : W := mkW (conn w) l (sock w) (usr w).
Definition set_sock (s : S) w : W := mkW (conn w) (lp w) s (usr w).
Definition set_usr (u : U) w : W := mkW (conn w) (lp w) (sock w) u.

Definition setState (s : State) c : TcpConnection C X :=
  mkTcpConnection (this_ c) (name_ c) s (channel_ c) (inputBuffer_ c) (outputBuffer_ c)
    (highWaterMark_ c) (connectionCallback_ c) (messageCallback_ c) (closeCallback_ c)
    (writeCompleteCallback_ c) (highWaterMarkCallback_ c) (context_ c).
Definition set_input (b : Buffer) c : TcpConnection C X :=
  mkTcpConnection (this_ c) (name_ c) (state_ c) (channel_ c) b (outputBuffer_ c)
    (highWaterMark_ c) (connectionCallback_ c) (messageCallback_ c) (closeCallback_ c)
    (writeCompleteCallback_ c) (highWaterMarkCallback_ c) (context_ c).
Definition set_output (b : Buffer) c : TcpConnection C X :=
  mkTcpConnection (this_ c) (name_ c) (state_ c) (channel_ c) (inputBuffer_ c) b
    (highWaterMark_ c) (connectionCallback_ c) (messageCallback_ c) (closeCallback_ c)
    (writeCompleteCallback_ c) (highWaterMarkCallback_ c) (context_ c).
Definition setContext (x : X) c : TcpConnection C X :=
  mkTcpConnection (this_ c) (name_ c) (state_ c) (channel_ c) (inputBuffer_ c) (outputBuffer_ c)
    (highWaterMark_ c) (connectionCallback_ c) (messageCallback_ c) (closeCallback_ c)
    (writeCompleteCallback_ c) (highWaterMarkCallback_ c) (Some x).
Definition setCallbacks (cc mc clc wc : option C) c : TcpConnection C X :=
  mkTcpConnection (this_ c) (name_ c) (state_ c) (channel_ c) (inputBuffer_ c) (outputBuffer_ c)
    (highWaterMark_ c) cc mc clc wc (highWaterMarkCallback_ c) (context_ c).

Definition put_state (s : State) w : W := set_conn (setState s (conn w)) w.
Definition isConnected c : bool := bool_decide (state_ c = kConnected).

(** The constructor: the connection and its channel with the four callbacks. *)
Definition TcpConnection_ctor (this : addr) (loop : addr) (name : list byte) (sockfd : Z)
    (channel : addr) (s : S) (l : L) (u : U) : W :=
  let ch := Channel_ctor loop sockfd in
  let ch := setReadCallback ch (bind_cb CbRead) in
  let ch := setWriteCallback ch (bind_cb CbWrite) in
  let ch := setCloseCallback ch (bind_cb CbClose) in
  let ch := setErrorCallback ch (bind_cb CbError) in
  mkW (mkTcpConnection this name kConnecting channel Buffer_new Buffer_new (64 * 1024 * 1024)
         None None None None None None)
      (rt_new_channel channel ch l) (sk_setKeepAlive true s) u.

Definition assertLoop (tid : Z) w : outcome unit := rt_assertInLoopThread tid (lp w).
Definition on_lp (f : L → outcome L) w : outcome W := l ← f (lp w); Ok (set_lp l w).
Definition queue (tid : Z) (f : conn_fn C) w : W := set_lp (rt_queueInLoop tid (bind_fn f) (lp w)) w.

(** Calling a [std::function]. *)
Definition invoke (cb : option C) (arg : cb_arg) w : outcome W :=
  match cb with Some f => call f arg w | None => Err NotCallable end.

(** [assert(state_ = State::kConnecting)] assigns, and the value assigned is not 0. *)
Definition establishConnection (tid : Z) w : outcome W :=
  _ ← assertLoop tid w;
  let w := put_state kConnecting w in
  let w := put_state kConnected w in
  ch ← (match rt_channel (lp w) (channel_ (conn w)) with Some ch => Ok ch | None => Err NullPointer end);
  let w := set_lp (rt_new_channel (channel_ (conn w)) (tie ch (this_ (conn w))) (lp w)) w in
  w ← on_lp (rt_enableReading tid (channel_ (conn w))) w;
  invoke (connectionCallback_ (conn w)) ArgNone w.

Definition destoryConnection (tid : Z) w : outcome W :=
  _ ← assertLoop tid w;
  w ← (if bool_decide (state_ (conn w) = kConnected) then
         w ← on_lp (rt_disableAll tid (channel_ (conn w))) (put_state kDisconnected w);
         invoke (connectionCallback_ (conn w)) ArgNone w
       else Ok w);
  on_lp (rt_remove tid (channel_ (conn w))) w.

Definition handleClose (tid : Z) w : outcome W :=
  _ ← assertLoop tid w;
  w ← on_lp (rt_disableAll tid (channel_ (conn w))) (put_state kDisconnected w);
  invoke (closeCallback_ (conn w)) ArgNone w.

(** [SO_ERROR] is read and logged. *)
Definition handleError w : outcome W := Ok w.

(** The inner block of [sendInLoop]: the rest goes to the output buffer. *)
Definition append_remaining (tid : Z) (data : list byte) (n_wrote remaining : Z) w : outcome W :=
  let old_len := readableBytes (outputBuffer_ (conn w)) in
  let w := match highWaterMarkCallback_ (conn w) with
           | Some cb =>
               if (old_len <? highWaterMark_ (conn w)) && (highWaterMark_ (conn w) <=? u64 (old_len + remaining))
               then queue tid (FnHighWaterMark cb (u64 (old_len + remaining))) w else w
           | None => w
           end in
  rest ← read_range n_wrote (n_wrote + remaining) data;
  out ← append (outputBuffer_ (conn w)) rest;
  let w := set_conn (set_output out (conn w)) w in
  if rt_isWriting (lp w) (channel_ (conn w)) then Ok w
  else on_lp (rt_enableWriting tid (channel_ (conn w))) w.

Definition sendInLoop (tid : Z) (data : list byte) w : outcome W :=
  _ ← assertLoop tid w;
  let len := zlen data in
  if negb (rt_isWriting (lp w) (channel_ (conn w))) && (readableBytes (outputBuffer_ (conn w)) =? 0) then
    let r := sk_write (sock w) data in
    let w := set_sock r.1 w in
    let '(remaining, n_wrote, faultError, w) :=
      if 0 <=? r.2.1 then
        let remaining := u64 (len - r.2.1) in
        (remaining, r.2.1, false,
         match writeCompleteCallback_ (conn w) with
         | Some cb => if remaining =? 0 then queue tid (FnWriteComplete cb) w else w
         | None => w
         end)
      else
        (len, 0,
         negb (r.2.2 =? EWOULDBLOCK) && ((r.2.2 =? EPIPE) || (r.2.2 =? ECONNRESET)), w) in
    _ ← assert_ (remaining <=? len);
    if negb faultError && (0 <? remaining) then append_remaining tid data n_wrote remaining w
    else Ok w
  else Ok w.

Definition shutdownInLoop (tid : Z) w : outcome W :=
  _ ← assertLoop tid w;
  if negb (rt_isWriting (lp w) (channel_ (conn w))) then
    let w := put_state kDisconnected w in
    Ok (set_sock (sk_shutdownWrite (sock w)) w)
  else Ok w.

Definition forceCloseInLoop (tid : Z) w : outcome W :=
  _ ← assertLoop tid w;
  if bool_decide (state_ (conn w) = kConnected) || bool_decide (state_ (conn w) = kDisconnecting)
  then handleClose tid w else Ok w.

(** Calling a functor bound to the connection. *)
Definition run_fn (tid : Z) (f : conn_fn C) w : outcome W :=
  match f with
  | FnSendInLoop msg => sendInLoop tid msg w
  | FnShutdownInLoop => shutdownInLoop tid w
  | FnForceCloseInLoop => forceCloseInLoop tid w
  | FnEstablish => establishConnection tid w
  | FnDestroy => destoryConnection tid w
  | FnWriteComplete cb => call cb ArgNone w
  | FnHighWaterMark cb n => call cb (ArgLen n) w
  end.

Definition runInLoop (tid : Z) (f : conn_fn C) w : outcome W :=
  if rt_isInLoopThread tid (lp w) then run_fn tid f w else Ok (queue tid f w).

Definition forceClose (tid : Z) w : outcome W :=
  if bool_decide (state_ (conn w) = kConnected) || bool_decide (state_ (conn w) = kDisconnecting)
  then Ok (queue tid FnForceCloseInLoop (put_state kDisconnecting w))
  else Ok w.

Definition send (tid : Z) (msg : list byte) w : outcome W :=
  if bool_decide (state_ (conn w) = kConnected) then
    if rt_isInLoopThread tid (lp w) then sendInLoop tid msg w
    else runInLoop tid (FnSendInLoop msg) w
  else Ok w.

(** [send(Buffer&)]: the buffer is emptied when the connection is up. *)
Definition send_buffer (tid : Z) (buffer : Buffer) w : outcome (Buffer * W) :=
  if bool_decide (state_ (conn w) = kConnected) then
    if rt_isInLoopThread tid (lp w) then
      data ← read_range (peek buffer) (peek buffer + readableBytes buffer) (buffer_ buffer);
      w ← sendInLoop tid data w;
      Ok (retrieveAll buffer, w)
    else
      '(data, buffer) ← retrieveAllAsString buffer;
      w ← runInLoop tid (FnSendInLoop data) w;
      Ok (buffer, w)
  else Ok (buffer, w).

Definition shutdown (tid : Z) w : outcome W :=
  if bool_decide (state_ (conn w) = kConnected) then
    runInLoop tid FnShutdownInLoop (put_state kDisconnecting w)
  else Ok w.

Definition handleRead (tid : Z) (receiveTime : Timestamp) w : outcome W :=
  _ ← assertLoop tid w;
  let r := sk_readv (sock w) (writableBytes (inputBuffer_ (conn w))) extraBufSize in
  let w := set_sock r.1 w in
  '(b, n, _) ← readFd (inputBuffer_ (conn w)) (λ _ _, r.2);
  let w := set_conn (set_input b (conn w)) w in
  if 0 <? n then invoke (messageCallback_ (conn w)) (ArgTime receiveTime) w
  else if n =? 0 then handleClose tid w
  else handleError w.

Definition handleWrite (tid : Z) w : outcome W :=
  _ ← assertLoop tid w;
  if rt_isWriting (lp w) (channel_ (conn w)) then
    let out := outputBuffer_ (conn w) in
    data ← read_range (peek out) (peek out + readableBytes out) (buffer_ out);
    let r := sk_write (sock w) data in
    let w := set_sock r.1 w in
    if 0 <? r.2.1 then
      out ← retrieve out r.2.1;
      let w := set_conn (set_output out (conn w)) w in
      if readableBytes out =? 0 then
        w ← on_lp (rt_disableWriting tid (channel_ (conn w))) w;
        let w := match writeCompleteCallback_ (conn w) with
                 | Some cb => queue tid (FnWriteComplete cb) w
                 | None => w
                 end in
        if bool_decide (state_ (conn w) = kDisconnecting) then shutdownInLoop tid w else Ok w
      else Ok w
    else Ok w
  else Ok w.

(** The channel's callbacks. *)
Definition run_cb (tid : Z) (f : conn_cb) (t : Timestamp) w : outcome W :=
  match f with
  | CbRead => handleRead tid t w
  | CbWrite => handleWrite tid w
  | CbClose => handleClose tid w
  | CbError => handleError w
  end.

(** What user code does with a connection it holds, and reading of the input buffer. *)
Definition conn_user_op (tid : Z) (op : user_op) (w : W) : outcome W :=
  match op with
  | UserSend msg => send tid msg w
  | UserShutdown => shutdown tid w
  | UserForceClose => forceClose tid w
  end.
Definition consume (n : Z) w : outcome W :=
  b ← Buffer.retrieve (inputBuffer_ (conn w)) n; Ok (set_conn (set_input b (conn w)) w).
End connection.
Arguments W : clear implicits.

(** The functors of [send] and [shutdown] bind a plain [this]; all others hold the object. *)
Definition plain_this {C} (f : conn_fn C) : bool :=
  match f with FnSendInLoop _ | FnShutdownInLoop => true | _ => false end.

(** A connection as an object in a store, with the members that [W] keeps outside of the
    record and those that the connection's own code only stores. *)
Record conn_obj (C X S : Type) := mkObj {
  ob_conn : TcpConnection C X;
  ob_loop : addr;
  ob_sock : S;
  ob_fd : Z;
  ob_local : sockaddr_in;
  ob_peer : sockaddr_in
}.
Arguments mkObj {C X S}. Arguments ob_conn {C X S}. Arguments ob_loop {C X S}. Arguments ob_sock {C X S}.
Arguments ob_fd {C X S}. Arguments ob_local {C X S}. Arguments ob_peer {C X S}.

(** ** Invariant *)
Section invariant.
Context {C X S L F G U : Type} `{SocketLaws S} `{ReactorLaws L F G}.
Context (bind_cb : conn_cb → F) (bind_fn : conn_fn C → G).
Context (call : C → cb_arg → W C X S L U → outcome (W C X S L U)).
Implicit Types w : W C X S L U.

Definition output w : list byte := content (outputBuffer_ (conn w)).
Definition writing w : bool := rt_isWriting (lp w) (channel_ (conn w)).

(** The buffers are well formed, an empty output buffer has its indices reset, and the
    loop watches for writability only while output is pending. *)
Record conn_inv w : Prop := {
  ci_in : wf (inputBuffer_ (conn w));
  ci_out : wf (outputBuffer_ (conn w));
  ci_reset : output w = [] → writeIndex_ (outputBuffer_ (conn w)) = kCheapPrepend;
  ci_ready : rt_ready (lp w) (channel_ (conn w));
  ci_writing : writing w = true → output w ≠ []
}.

Lemma readable_output w : wf (outputBuffer_ (conn w)) →
  readableBytes (outputBuffer_ (conn w)) = zlen (output w).
Proof. intros. symmetry. by apply zlen_content. Qed.

Lemma zlen_0_nil {A} (l : list A) : zlen l = 0 ↔ l = [].
Proof. unfold zlen. destruct l; simpl; split; intros; [done|done|lia|done]. Qed.

Lemma assertLoop_ok tid w : rt_isInLoopThread tid (lp w) = true → assertLoop tid w = Ok tt.
Proof. unfold assertLoop, rt_assertInLoopThread. by intros ->. Qed.

Lemma read_content b : wf b →
  read_range (peek b) (peek b + readableBytes b) (buffer_ b) = Ok (content b).
Proof.
  intros Hwf. pose proof (readableBytes_wf b Hwf). rewrite read_range_ok by buffer_arith.
  unfold content, peek. do 2 f_equal. lia.
Qed.

(** An operation on the connection's channel, seen from the connection. *)
Lemma change_channel f tid w :
  rt_ready (lp w) (channel_ (conn w)) → rt_isInLoopThread tid (lp w) = true →
  ∃ l', on_lp (rt_change f tid (channel_ (conn w))) w = Ok (set_lp l' w) ∧
    rt_ready l' (channel_ (conn w)) ∧
    rt_event l' (channel_ (conn w)) = f <$> rt_event (lp w) (channel_ (conn w)) ∧
    rt_registered l' (channel_ (conn w)) = true ∧
    rt_pending l' = rt_pending (lp w) ∧
    (∀ t, rt_isInLoopThread t l' = rt_isInLoopThread t (lp w)).
Proof.
  intros Hr Ht. destruct (law_change f tid _ _ Hr Ht) as (l' & Hrun & ? & ? & ? & _ & ? & ?).
  exists l'. unfold on_lp. rewrite Hrun. by split_and!.
Qed.

Lemma isWriting_event (l : L) a :
  rt_isWriting l a = match rt_event l a with Some e => has e kWriteEvent_ | None => false end.
Proof. unfold rt_isWriting, rt_event. by destruct (rt_channel l a). Qed.

Lemma ready_event (l : L) a : rt_ready l a → ∃ e, rt_event l a = Some e.
Proof. intros [ch Hc]%law_ready. unfold rt_event. rewrite Hc. eauto. Qed.

Lemma isWriting_change (l l' : L) a f b :
  rt_ready l a → rt_event l' a = f <$> rt_event l a →
  (∀ e, has (f e) kWriteEvent_ = b) → rt_isWriting l' a = b.
Proof.
  intros [e He]%ready_event Heq Hf. rewrite isWriting_event, Heq, He. simpl. apply Hf.
Qed.

(** Queueing a functor does not concern the connection. *)
Lemma queue_frame tid f w :
  conn (queue bind_fn tid f w) = conn w ∧ sock (queue bind_fn tid f w) = sock w ∧
  usr (queue bind_fn tid f w) = usr w ∧
  writing (queue bind_fn tid f w) = writing w ∧
  (∀ t, rt_isInLoopThread t (lp (queue bind_fn tid f w)) = rt_isInLoopThread t (lp w)) ∧
  (rt_ready (lp w) (channel_ (conn w)) →
   rt_ready (lp (queue bind_fn tid f w)) (channel_ (conn w))).
Proof.
  destruct (law_queue tid (bind_fn f) (lp w)) as (_ & Hch & Hready & Hth).
  split_and!; try done.
  - unfold writing, queue. simpl. unfold rt_isWriting. by rewrite Hch.
  - intros Hr. by apply Hready.
Qed.

(** What an operation leaves alone. *)
Definition fixed (c : TcpConnection C X) : addr * Buffer * option X :=
  (channel_ c, inputBuffer_ c, context_ c).
Definition same_user w w' : Prop :=
  usr w' = usr w ∧ fixed (conn w') = fixed (conn w) ∧
  (∀ t, rt_isInLoopThread t (lp w') = rt_isInLoopThread t (lp w)).

(** Output that is pending is watched for. *)
Definition flowing w : Prop := output w ≠ [] → writing w = true.

(** *** sendInLoop *)

(** Did the write fail in a way that gives the data up? *)
Definition write_fault (r : S * (Z * Z)) : bool :=
  (r.2.1 <? 0) && negb (r.2.2 =? EWOULDBLOCK) && ((r.2.2 =? EPIPE) || (r.2.2 =? ECONNRESET)).

(** The bytes the connection takes charge of when [data] is sent: all of them when no
    output is pending and the connection is not broken, otherwise none. *)
Definition taken (data : list byte) w : list byte :=
  if readableBytes (outputBuffer_ (conn w)) =? 0 then
    if write_fault (sk_write (sock w) data) then [] else data
  else [].

Lemma sendInLoop_busy tid data w :
  conn_inv w → rt_isInLoopThread tid (lp w) = true → output w ≠ [] →
  sendInLoop bind_fn tid data w = Ok w ∧ taken data w = [].
Proof.
  intros Hinv Ht Hne. unfold sendInLoop, taken. rewrite assertLoop_ok by done.
  ok_simpl. rewrite (readable_output w (ci_out w Hinv)).
  assert (Hnz : zlen (output w) ≠ 0) by by rewrite zlen_0_nil.
  apply Z.eqb_neq in Hnz. rewrite Hnz, andb_false_r. done.
Qed.

(** Up to functors queued and the socket's state. *)
Record sim w w1 : Prop := {
  sim_conn : conn w1 = conn w;
  sim_usr : usr w1 = usr w;
  sim_writing : writing w1 = writing w;
  sim_thread t : rt_isInLoopThread t (lp w1) = rt_isInLoopThread t (lp w);
  sim_ready : rt_ready (lp w) (channel_ (conn w)) → rt_ready (lp w1) (channel_ (conn w))
}.

Lemma sim_sock s' w : sim w (set_sock s' w).
Proof. by split. Qed.

Lemma sim_trans w1 w2 w3 : sim w1 w2 → sim w2 w3 → sim w1 w3.
Proof.
  intros [Hc1 ? ? Ht1 Hr1] [Hc2 ? ? Ht2 Hr2]. split; try congruence.
  rewrite Hc1 in Hr2. auto.
Qed.

Lemma sim_queue tid f w : sim w (queue bind_fn tid f w).
Proof. destruct (queue_frame tid f w) as (? & ? & ? & ? & ? & ?). by split. Qed.

Lemma conn_inv_sim w w1 : sim w w1 → conn_inv w → conn_inv w1.
Proof.
  intros [Hc _ Hw _ Hr] [? ? ? ? ?]. split; unfold output in *; rewrite ?Hc, ?Hw; auto.
Qed.

Lemma append_remaining_ok tid data n w :
  conn_inv w → rt_isInLoopThread tid (lp w) = true → output w = [] →
  0 ≤ n < zlen data → zlen data + kCheapPrepend ≤ vector_max_size →
  ∃ w', append_remaining bind_fn tid data n (zlen data - n) w = Ok w' ∧ conn_inv w' ∧ flowing w' ∧
    same_user w w' ∧ state_ (conn w') = state_ (conn w) ∧ sock w' = sock w ∧
    output w' = drop (Z.to_nat n) data.
Proof.
  intros Hinv Ht Hout Hn Hmax. unfold append_remaining. cbv zeta.
  set (w1 := match highWaterMarkCallback_ (conn w) with Some _ => _ | None => w end).
  assert (Hsim : sim w w1 ∧ sock w1 = sock w).
  { unfold w1. destruct (highWaterMarkCallback_ _); [|by split].
    destruct (_ && _); [|by split]. split; [apply sim_queue|].
    by destruct (queue_frame tid (FnHighWaterMark c (u64 (readableBytes (outputBuffer_ (conn w)) +
      (zlen data - n)))) w) as (_ & ? & _). }
  clearbody w1. destruct Hsim as [Hsim Hsock].
  pose proof (conn_inv_sim _ _ Hsim Hinv) as Hinv1. destruct Hsim as [Hc Hu Hw Hth _].
  rewrite read_range_ok by lia. ok_simpl.
  replace (n + (zlen data - n)) with (zlen data) by lia.
  assert (Hrest : slice n (zlen data) data = drop (Z.to_nat n) data).
  { unfold slice. apply take_ge. rewrite length_drop. unfold zlen. lia. }
  rewrite Hrest. set (rest := drop (Z.to_nat n) data).
  assert (Hzr : zlen rest = zlen data - n).
  { unfold rest, zlen in *. rewrite length_drop. lia. }
  assert (Hout1 : output w1 = []) by (unfold output; by rewrite Hc).
  destruct (returns_inv _ _ (append_spec (outputBuffer_ (conn w1)) rest (ci_out w1 Hinv1)
    ltac:(rewrite (ci_reset w1 Hinv1 Hout1); lia))) as (out & Happ & Hwf & Hco & _).
  fold (output w1) in Hco. rewrite Hout1 in Hco. simpl in Hco.
  rewrite Happ. ok_simpl. cbv zeta.
  set (w2 := set_conn (set_output out (conn w1)) w1).
  assert (Hnw : rt_isWriting (lp w2) (channel_ (conn w2)) = false).
  { destruct (rt_isWriting _ _) eqn:E; [|done]. by apply (ci_writing w1 Hinv1) in E. }
  rewrite Hnw.
  destruct (change_channel writing_on tid w2) as (l' & Hrun & Hready & Hev & _ & _ & Hth2);
    [apply Hinv1|by rewrite <- Ht; apply Hth|].
  unfold rt_enableWriting. rewrite Hrun.
  assert (Hwr : rt_isWriting l' (channel_ (conn w2)) = true).
  { apply (isWriting_change (lp w2) l' _ writing_on true); [apply Hinv1|done|apply isWriting_on]. }
  assert (Hne : rest ≠ []) by (rewrite <- zlen_0_nil; lia).
  eexists. split; [done|]. unfold output. simpl. rewrite Hco. split_and!; try done.
  - split; unfold output, writing; simpl; rewrite ?Hco; try done. apply Hinv1.
  - by intros _.
  - unfold same_user, w2. simpl. rewrite Hu, Hc. split_and!; [done..|]. intros t. by rewrite Hth2, <- Hth.
  - by rewrite Hc.
Qed.

Lemma sendInLoop_idle tid data w :
  conn_inv w → rt_isInLoopThread tid (lp w) = true → output w = [] →
  zlen data + kCheapPrepend ≤ vector_max_size →
  ∃ w', sendInLoop bind_fn tid data w = Ok w' ∧ conn_inv w' ∧ flowing w' ∧ same_user w w' ∧
    state_ (conn w') = state_ (conn w) ∧ sk_wr_shut (sock w') = sk_wr_shut (sock w) ∧
    sk_sent (sock w') ++ output w' = sk_sent (sock w) ++ taken data w.
Proof.
  intros Hinv Ht Hout Hmax. unfold sendInLoop, taken. rewrite assertLoop_ok by done.
  ok_simpl. rewrite (readable_output w (ci_out w Hinv)), Hout.
  change (zlen (@nil byte) =? 0) with true.
  assert (Hnw : rt_isWriting (lp w) (channel_ (conn w)) = false).
  { destruct (rt_isWriting _ _) eqn:E; [|done]. by apply (ci_writing w Hinv) in E. }
  rewrite Hnw. cbn [negb andb].
  pose proof (write_ok (sock w) data) as Hok. pose proof (write_fail (sock w) data) as Hfail.
  pose proof (write_shut (sock w) data) as Hshut. unfold write_fault.
  destruct (sk_write (sock w) data) as [s' [n e]]. cbn [fst snd] in *.
  pose proof (zlen_nonneg data) as Hnn.
  assert (Hlen : zlen data < 2 ^ 63) by (unfold vector_max_size, kCheapPrepend in *; lia).
  set (w0 := set_sock s' w).
  assert (Hdone : ∀ w1, sim w0 w1 → sock w1 = s' → conn_inv w1 ∧ flowing w1 ∧ same_user w w1 ∧
    state_ (conn w1) = state_ (conn w) ∧ sk_wr_shut (sock w1) = sk_wr_shut (sock w) ∧ output w1 = []).
  { intros w1 Hsim Hs. assert (conn_inv w1).
    { eapply conn_inv_sim; [exact Hsim|]. by eapply conn_inv_sim; [apply sim_sock|]. }
    destruct Hsim as [Hc Hu Hw Hth _].
    assert (output w1 = []) by (unfold output; by rewrite Hc).
    split_and!; try done; [|unfold same_user; by rewrite Hc, Hu|by rewrite Hc|by rewrite Hs]. 
    by intros ?. }
  assert (Hrest : ∀ w1 k, sim w0 w1 → sock w1 = s' → 0 ≤ k < zlen data →
    ∃ w', append_remaining bind_fn tid data k (zlen data - k) w1 = Ok w' ∧ conn_inv w' ∧ flowing w' ∧
      same_user w w' ∧ state_ (conn w') = state_ (conn w) ∧ sk_wr_shut (sock w') = sk_wr_shut (sock w) ∧
      sk_sent (sock w') = sk_sent s' ∧ output w' = drop (Z.to_nat k) data).
  { intros w1 k Hsim Hs Hk. destruct (Hdone w1 Hsim Hs) as (Hi1 & _ & (Hu1 & Hch1 & Ht1) & Hst1 & Hsh1 & Ho1).
    destruct (append_remaining_ok tid data k w1) as (w' & Hrun & ? & ? & (Hu' & Hch' & Ht') & Hst' & Hs' & ?);
      [done|by rewrite Ht1|done|done|done|].
    exists w'. rewrite Hs', Hs. split_and!; try done; [|by rewrite Hst'].
    split_and!; [by rewrite Hu'|by rewrite Hch'|intros t; by rewrite Ht']. }
  destruct (Z.leb_spec 0 n) as [Hn|Hn].
  - destruct (Hok Hn) as [Hle Hsent]. rewrite (u64_small (zlen data - n)) by lia.
    set (w1 := match writeCompleteCallback_ (conn w0) with Some _ => _ | None => w0 end).
    assert (Hsim1 : sim w0 w1 ∧ sock w1 = s').
    { unfold w1. destruct (writeCompleteCallback_ _); [|by split].
      destruct (_ =? 0); [|by split]. split; [apply sim_queue|]. by apply queue_frame. }
    clearbody w1. destruct Hsim1 as [Hsim1 Hs1].
    rewrite assert_true by (apply Z.leb_le; lia). cbn [mbind outcome_bind negb andb].
    rewrite (proj2 (Z.ltb_ge n 0)) by lia. cbn [andb].
    destruct (Z.ltb_spec 0 (zlen data - n)).
    + destruct (Hrest w1 n) as (w' & Hrun & ? & ? & ? & ? & ? & Hse & Ho); [done|done|lia|].
      exists w'. split_and!; try done. by rewrite Hse, Hsent, Ho, <- app_assoc, take_drop.
    + destruct (Hdone w1) as (? & ? & ? & ? & ? & Ho); [done|done|].
      exists w1. split_and!; try done. rewrite Hs1, Hsent, Ho, app_nil_r. f_equal.
      apply take_ge. unfold zlen in *. lia.
  - rewrite assert_true by (apply Z.leb_le; lia). ok_simpl.
    rewrite (proj2 (Z.ltb_lt n 0)) by lia. cbn [andb].
    destruct (negb (e =? EWOULDBLOCK) && _) eqn:Hfault; cbn [negb andb].
    + destruct (Hdone w0) as (? & ? & ? & ? & ? & Ho); [by split|done|].
      exists w0. split_and!; try done. rewrite Ho. unfold w0. simpl. by rewrite Hfail.
    + destruct (Z.ltb_spec 0 (zlen data)).
      * destruct (Hrest w0 0) as (w' & Hrun & ? & ? & ? & ? & ? & Hse & Ho); [by split|done|lia|].
        rewrite Z.sub_0_r in Hrun. exists w'. split_and!; try done. by rewrite Hse, Ho, Hfail.
      * destruct (Hdone w0) as (? & ? & ? & ? & ? & Ho); [by split|done|].
        assert (data = []) as -> by (apply zlen_0_nil; lia).
        exists w0. split_and!; try done. rewrite Ho. unfold w0. simpl. by rewrite Hfail.
Qed.

(** *** handleWrite *)
Lemma retrieve_reset b len b' :
  wf b → 0 ≤ len → retrieve b len = Ok b' → content b' = [] → writeIndex_ b' = kCheapPrepend.
Proof.
  intros Hwf Hpos Hrun Hc. pose proof (zlen_content b Hwf) as Hz.
  unfold retrieve in Hrun. apply bind_Ok_inv in Hrun as (? & Hle & Hrun).
  apply assert_Ok_inv, Z.leb_le in Hle.
  destruct (returns_inv _ _ (retrieve_spec b len Hwf ltac:(lia))) as (b2 & Hrun2 & _ & Hc2 & _).
  unfold retrieve in Hrun2. rewrite assert_true in Hrun2 by by apply Z.leb_le. simpl in Hrun2.
  destruct (Z.ltb_spec len (readableBytes b)); [|by injection Hrun as <-].
  exfalso. assert (b2 = b') as -> by congruence. rewrite Hc in Hc2.
  apply (f_equal zlen) in Hc2. unfold zlen in *. rewrite length_drop in Hc2. simpl in Hc2. lia.
Qed.

(** The write side is shut only when everything was flushed, and then the state is
    kDisconnected. *)
Definition shut_ok w : Prop :=
  sk_wr_shut (sock w) = true → output w = [] ∧ state_ (conn w) = kDisconnected.

Lemma shutdownInLoop_idle tid w :
  conn_inv w → rt_isInLoopThread tid (lp w) = true → writing w = false →
  ∃ w', shutdownInLoop tid w = Ok w' ∧ conn_inv w' ∧ sim (put_state kDisconnected w) w' ∧
    sk_sent (sock w') = sk_sent (sock w) ∧ sk_wr_shut (sock w') = true.
Proof.
  intros Hinv Ht Hw. unfold shutdownInLoop. rewrite assertLoop_ok by done.
  ok_simpl. fold (writing w). rewrite Hw. cbn [negb].
  eexists. split; [done|]. split_and!.
  - destruct Hinv. by split.
  - apply sim_sock.
  - apply shutdown_sent.
  - apply shutdown_shut.
Qed.

Lemma put_state_inv st w : conn_inv w → conn_inv (put_state st w).
Proof. intros []. by split. Qed.

(** What [handleWrite] and [shutdown] may do to the state and the write side. *)
Definition progress w w' : Prop :=
  (state_ (conn w') = state_ (conn w) ∧ sk_wr_shut (sock w') = sk_wr_shut (sock w)) ∨
  (output w' = [] ∧ state_ (conn w') = kDisconnected ∧ sk_wr_shut (sock w') = true).

(** After everything was written; the channel is still watched for writability. *)
Lemma drained tid w :
  wf (inputBuffer_ (conn w)) → wf (outputBuffer_ (conn w)) →
  writeIndex_ (outputBuffer_ (conn w)) = kCheapPrepend → rt_ready (lp w) (channel_ (conn w)) →
  rt_isInLoopThread tid (lp w) = true → output w = [] →
  ∃ w', (w ← on_lp (rt_disableWriting tid (channel_ (conn w))) w;
      let w := match writeCompleteCallback_ (conn w) with
               | Some cb => queue bind_fn tid (FnWriteComplete cb) w
               | None => w
               end in
      if bool_decide (state_ (conn w) = kDisconnecting) then shutdownInLoop tid w else Ok w) = Ok w' ∧
    conn_inv w' ∧ flowing w' ∧ same_user w w' ∧ output w' = [] ∧
    sk_sent (sock w') = sk_sent (sock w) ∧ progress w w' ∧
    (state_ (conn w) = kDisconnecting → sk_wr_shut (sock w') = true).
Proof.
  intros Hwi Hwo Hres Hrdy Ht Hout.
  destruct (change_channel writing_off tid w) as (l' & Hrun & Hready & Hev & _ & _ & Hth);
    [done|done|].
  unfold rt_disableWriting. rewrite Hrun. ok_simpl.
  assert (Hnw : rt_isWriting l' (channel_ (conn w)) = false).
  { apply (isWriting_change (lp w) l' _ writing_off false); [done|done|apply isWriting_off]. }
  set (w1 := match writeCompleteCallback_ _ with Some _ => _ | None => _ end).
  assert (Hsim : sim (set_lp l' w) w1 ∧ sock w1 = sock w).
  { unfold w1. destruct (writeCompleteCallback_ _); [|by split]. split; [apply sim_queue|].
    by apply (queue_frame tid (FnWriteComplete c) (set_lp l' w)). }
  cbv zeta. clearbody w1. destruct Hsim as [Hsim Hs1].
  assert (Hinv0 : conn_inv (set_lp l' w)).
  { split; try done. intros Hw. unfold writing in Hw. simpl in Hw. congruence. }
  pose proof (conn_inv_sim _ _ Hsim Hinv0) as Hinv1.
  destruct Hsim as [Hc Hu Hw Hth1 _].
  assert (Hnw1 : writing w1 = false) by (rewrite Hw; exact Hnw).
  assert (Hout1 : output w1 = []) by (unfold output; by rewrite Hc).
  assert (Hsame : same_user w w1).
  { unfold same_user. rewrite Hu, Hc. split_and!; [done|done|]. intros t. rewrite Hth1. apply Hth. }
  rewrite Hc. simpl. case_bool_decide as Hst.
  - destruct (shutdownInLoop_idle tid w1) as (w' & Hrun' & Hinv' & [Hc' Hu' Hw' Hth' _] & Hsent & Hshut);
      [done|by rewrite Hth1; simpl; rewrite Hth|done|].
    assert (Hout' : output w' = []) by (unfold output in *; by rewrite Hc').
    exists w'. split_and!; try done.
    + by intros Hne.
    + unfold same_user in *. rewrite Hu', Hc'. simpl. destruct Hsame as (? & ? & Hth2).
      split_and!; [done|done|]. intros t. rewrite Hth'. apply Hth2.
    + by rewrite Hsent, Hs1.
    + right. by rewrite Hc'.
  - exists w1. split_and!; try done.
    + by intros Hne.
    + by rewrite Hs1.
    + left. by rewrite Hc, Hs1.
Qed.

Lemma handleWrite_ok tid w :
  conn_inv w → rt_isInLoopThread tid (lp w) = true → flowing w →
  ∃ w', handleWrite bind_fn tid w = Ok w' ∧ conn_inv w' ∧ flowing w' ∧ same_user w w' ∧
    sk_sent (sock w') ++ output w' = sk_sent (sock w) ++ output w ∧ progress w w' ∧
    (writing w = true → output w' = [] → state_ (conn w) = kDisconnecting →
     sk_wr_shut (sock w') = true).
Proof.
  intros Hinv Ht Hflow. unfold handleWrite. rewrite assertLoop_ok by done. ok_simpl.
  fold (writing w). destruct (writing w) eqn:Hw.
  2: { exists w. split_and!; try done. by left. }
  rewrite read_content by apply Hinv. ok_simpl. fold (output w).
  pose proof (write_ok (sock w) (output w)) as Hok. pose proof (write_fail (sock w) (output w)) as Hfail.
  pose proof (write_shut (sock w) (output w)) as Hshut.
  destruct (sk_write (sock w) (output w)) as [s' [n e]]. cbn [fst snd] in *. simpl.
  assert (Hstill : n ≤ 0 → ∃ w', Ok (set_sock s' w) = Ok w' ∧ conn_inv w' ∧ flowing w' ∧ same_user w w' ∧
    sk_sent (sock w') ++ output w' = sk_sent (sock w) ++ output w ∧ progress w w' ∧
    (true = true → output w' = [] → state_ (conn w) = kDisconnecting → sk_wr_shut (sock w') = true)).
  { intros Hn. exists (set_sock s' w).
    split_and!; [done|by eapply conn_inv_sim; [apply sim_sock|]|done|done| |by left|].
    - f_equal. simpl. destruct (Z.eq_dec n 0) as [->|]; [|apply Hfail; lia].
      destruct Hok as [_ ->]; [done|]. apply app_nil_r.
    - intros _ Hnil. by apply (ci_writing w Hinv) in Hw. }
  destruct (Z.ltb_spec 0 n) as [Hn|Hn]; [|by apply Hstill]. clear Hstill Hfail.
  destruct (Hok ltac:(lia)) as [Hle Hsent]. clear Hok.
  pose proof (readable_output w (ci_out w Hinv)) as Hread.
  destruct (returns_inv _ _ (retrieve_spec (outputBuffer_ (conn w)) n (ci_out w Hinv) ltac:(lia)))
    as (out & Hret & Hwf & Hc & _). rewrite Hret. ok_simpl. fold (output w) in Hc.
  set (w1 := set_conn (set_output out (conn w)) (set_sock s' w)).
  assert (Hsplit : sk_sent s' ++ content out = sk_sent (sock w) ++ output w).
  { by rewrite Hsent, Hc, <- app_assoc, take_drop. }
  pose proof (zlen_content out Hwf) as Hzo. rewrite <- Hzo.
  destruct (Z.eqb_spec (zlen (content out)) 0) as [Hz|Hz].
  - apply zlen_0_nil in Hz.
    destruct (drained tid w1) as (w' & Hrun & Hinv' & Hflow' & Hsame & Hout' & Hsent' & Hprog & Hsh);
      [apply Hinv|done|apply (retrieve_reset (outputBuffer_ (conn w)) n); [apply Hinv|lia|done|done]|apply Hinv|done|done|].
    exists w'. split_and!; try done.
    + rewrite Hsent', Hout'. unfold w1. simpl. by rewrite <- Hsplit, Hz.
    + destruct Hprog as [[Hst Hsh']|?]; [left|by right]. rewrite Hst, Hsh'. simpl. by rewrite Hshut.
  - exists w1. split_and!; try done.
    + split; try done; [apply Hinv| |apply Hinv|].
      * intros Hnil. by apply zlen_0_nil in Hnil.
      * intros _ Hnil. by apply zlen_0_nil in Hnil.
    + by intros _.
    + by left.
    + intros _ Hnil. by apply zlen_0_nil in Hnil.
Qed.

Lemma handleWrite_idle tid w :
  rt_isInLoopThread tid (lp w) = true → writing w = false → handleWrite bind_fn tid w = Ok w.
Proof.
  intros Ht Hw. unfold handleWrite. rewrite assertLoop_ok by done. ok_simpl.
  fold (writing w). by rewrite Hw.
Qed.

(** *** The events of an established connection in its loop's thread *)
Inductive conn_event :=
| EvSend (msg : list byte)
| EvWritable
| EvShutdown.

Definition exec_event (tid : Z) (ev : conn_event) w : outcome (W C X S L U) :=
  match ev with
  | EvSend msg => send bind_fn call tid msg w
  | EvWritable => handleWrite bind_fn tid w
  | EvShutdown => shutdown bind_fn call tid w
  end.

Fixpoint exec_events (tid : Z) (evs : list conn_event) w : outcome (W C X S L U) :=
  match evs with
  | [] => Ok w
  | ev :: evs' => w ← exec_event tid ev w; exec_events tid evs' w
  end.

(** The bytes an event puts in the connection's charge. *)
Definition event_taken (ev : conn_event) w : list byte :=
  match ev with
  | EvSend msg => if bool_decide (state_ (conn w) = kConnected) then taken msg w else []
  | _ => []
  end.

Fixpoint events_taken (tid : Z) (evs : list conn_event) w : list byte :=
  match evs with
  | [] => []
  | ev :: evs' =>
      event_taken ev w ++
      match exec_event tid ev w with Ok w' => events_taken tid evs' w' | Err _ => [] end
  end.

Definition event_ok (ev : conn_event) : Prop :=
  match ev with EvSend msg => zlen msg + kCheapPrepend ≤ vector_max_size | _ => True end.

(** The phases: connected; shutting down with output left; shut down. *)
Definition life w : Prop :=
  (state_ (conn w) = kConnected ∧ sk_wr_shut (sock w) = false) ∨
  (state_ (conn w) = kDisconnecting ∧ sk_wr_shut (sock w) = false ∧ output w ≠ []) ∨
  (state_ (conn w) = kDisconnected ∧ sk_wr_shut (sock w) = true ∧ output w = []).

Record up (tid : Z) w : Prop := {
  up_inv : conn_inv w;
  up_flow : flowing w;
  up_life : life w;
  up_thread : rt_isInLoopThread tid (lp w) = true
}.

(** What [up] says does not depend on the input, the context and the user's data. *)
Lemma up_set_input tid b w : up tid w → wf b → up tid (set_conn (set_input b (conn w)) w).
Proof. intros [Hi Hf Hl Ht] Hb. split; [destruct Hi; by split|exact Hf|exact Hl|exact Ht]. Qed.

Lemma up_setContext tid x w : up tid w → up tid (set_conn (setContext x (conn w)) w).
Proof. intros [Hi Hf Hl Ht]. split; [destruct Hi; by split|exact Hf|exact Hl|exact Ht]. Qed.

Lemma up_set_usr tid u w : up tid w → up tid (set_usr u w).
Proof. intros [[Hi Ho Hr Hrd Hw] Hf Hl Ht]. split; [by split|exact Hf|exact Hl|exact Ht]. Qed.

Lemma up_read tid b s w :
  up tid w → wf b → sk_wr_shut s = sk_wr_shut (sock w) → up tid (set_conn (set_input b (conn w)) (set_sock s w)).
Proof.
  intros [[Hi Ho Hr Hrd Hw] Hf Hl Ht] Hb Hs. split; [by split|exact Hf| |exact Ht].
  unfold life in *. simpl. by rewrite Hs.
Qed.

Lemma same_user_thread w w' tid :
  same_user w w' → rt_isInLoopThread tid (lp w) = true → rt_isInLoopThread tid (lp w') = true.
Proof. intros (_ & _ & Hth) Ht. by rewrite Hth. Qed.

Lemma exec_send tid msg w :
  up tid w → event_ok (EvSend msg) →
  ∃ w', send bind_fn call tid msg w = Ok w' ∧ up tid w' ∧ same_user w w' ∧
    state_ (conn w') = state_ (conn w) ∧
    sk_sent (sock w') ++ output w' = (sk_sent (sock w) ++ output w) ++ event_taken (EvSend msg) w.
Proof.
  intros [Hinv Hflow Hlife Ht] Hok. unfold send, event_taken. rewrite Ht.
  case_bool_decide as Hst.
  2: { exists w. rewrite app_nil_r. by split_and!. }
  destruct (decide (output w = [])) as [Hout|Hout].
  - destruct (sendInLoop_idle tid msg w Hinv Ht Hout Hok)
      as (w' & Hrun & Hinv' & Hflow' & Hsame & Hst' & Hsh & Heq).
    exists w'. rewrite Hout, app_nil_r. split_and!; try done.
    split; try done; [|by eapply same_user_thread]. left. rewrite Hst', Hsh.
    split; [done|]. destruct Hlife as [[? ?]|[(? & ? & _)|(? & _)]]; congruence.
  - destruct (sendInLoop_busy tid msg w Hinv Ht Hout) as [Hrun ->].
    exists w. rewrite app_nil_r. by split_and!.
Qed.

Lemma exec_writable tid w :
  up tid w →
  ∃ w', handleWrite bind_fn tid w = Ok w' ∧ up tid w' ∧
    sk_sent (sock w') ++ output w' = sk_sent (sock w) ++ output w.
Proof.
  intros [Hinv Hflow Hlife Ht]. destruct (writing w) eqn:Hw.
  2: { exists w. split; [by apply handleWrite_idle|]. done. }
  destruct (handleWrite_ok tid w Hinv Ht Hflow)
    as (w' & Hrun & Hinv' & Hflow' & Hsame & Heq & Hprog & Hdone).
  exists w'. split_and!; try done. split; try done; [|by eapply same_user_thread].
  assert (Hne : output w ≠ []) by by apply Hinv.
  destruct Hprog as [[Hst Hsh]|(Ho & Hst & Hsh)]; [|by right; right].
  unfold life. rewrite Hst, Hsh. destruct Hlife as [?|[(Hd & Hs & _)|(_ & _ & ?)]]; [by left| |done].
  right. left. split_and!; [done|done|]. intros Hnil.
  specialize (Hdone Hw Hnil Hd). congruence.
Qed.

Lemma exec_shutdown tid w :
  up tid w →
  ∃ w', shutdown bind_fn call tid w = Ok w' ∧ up tid w' ∧ same_user w w' ∧
    sk_sent (sock w') ++ output w' = sk_sent (sock w) ++ output w ∧
    state_ (conn w') ≠ kConnected.
Proof.
  intros [Hinv Hflow Hlife Ht]. unfold shutdown. case_bool_decide as Hst.
  2: { exists w. by split_and!. }
  set (w1 := put_state kDisconnecting w). unfold runInLoop.
  replace (rt_isInLoopThread tid (lp w1)) with true by (symmetry; exact Ht). cbn [run_fn].
  pose proof (put_state_inv kDisconnecting w Hinv) as Hinv1. fold w1 in Hinv1.
  assert (Hs0 : sk_wr_shut (sock w) = false).
  { destruct Hlife as [[? ?]|[(? & ? & _)|(? & _)]]; congruence. }
  destruct (writing w) eqn:Hw.
  - exists w1. split_and!; try done.
    + unfold shutdownInLoop. rewrite assertLoop_ok by done. ok_simpl.
      change (rt_isWriting (lp w1) (channel_ (conn w1))) with (writing w). by rewrite Hw.
    + split; try done. right. left. split_and!; [done|done|]. by apply (ci_writing w Hinv).
  - destruct (shutdownInLoop_idle tid w1 Hinv1 Ht Hw) as (w' & Hrun & Hinv' & Hsim & Hsent & Hshut).
    destruct Hsim as [Hc Hu Hw' Hth _].
    assert (Hout : output w = []).
    { destruct (decide (output w = [])) as [|Hne]; [done|]. apply Hflow in Hne. congruence. }
    assert (Hout' : output w' = []) by (unfold output in *; by rewrite Hc).
    exists w'. split_and!; try done.
    + split; try done; [by intros Hne| |by rewrite Hth]. right. right. by rewrite Hc.
    + unfold same_user. rewrite Hu, Hc. split_and!; [done|done|exact Hth].
    + rewrite Hsent, Hout'. simpl. by rewrite Hout.
    + by rewrite Hc.
Qed.

(** The state never returns to kConnected. *)
Lemma exec_event_ok tid ev w :
  up tid w → event_ok ev →
  ∃ w', exec_event tid ev w = Ok w' ∧ up tid w' ∧
    sk_sent (sock w') ++ output w' = (sk_sent (sock w) ++ output w) ++ event_taken ev w ∧
    (state_ (conn w) ≠ kConnected ∨ ev = EvShutdown → state_ (conn w') ≠ kConnected).
Proof.
  intros Hup Hok. destruct ev as [msg| |]; simpl.
  - destruct (exec_send tid msg w Hup Hok) as (w' & ? & ? & _ & Hst & ?).
    exists w'. split_and!; try done. rewrite Hst. by intros [?|?].
  - destruct (exec_writable tid w Hup) as (w' & Hrun & Hup' & ?).
    exists w'. rewrite app_nil_r. split_and!; try done. intros [Hst|?]; [|done].
    destruct (writing w) eqn:Hw.
    + destruct (handleWrite_ok tid w (up_inv _ _ Hup) (up_thread _ _ Hup) (up_flow _ _ Hup))
        as (w2 & Hrun2 & _ & _ & _ & _ & [[Hst2 _]|(_ & Hst2 & _)] & _);
        assert (w2 = w') as -> by congruence; rewrite Hst2; done.
    + rewrite handleWrite_idle in Hrun; [by injection Hrun as <-|apply Hup|done].
  - destruct (exec_shutdown tid w Hup) as (w' & ? & ? & _ & ? & ?).
    exists w'. by rewrite app_nil_r.
Qed.

Lemma exec_events_ok tid evs w :
  up tid w → Forall event_ok evs →
  ∃ w', exec_events tid evs w = Ok w' ∧ up tid w' ∧
    sk_sent (sock w') ++ output w' = (sk_sent (sock w) ++ output w) ++ events_taken tid evs w ∧
    (state_ (conn w) ≠ kConnected ∨ EvShutdown ∈ evs → state_ (conn w') ≠ kConnected).
Proof.
  revert w. induction evs as [|ev evs IH]; simpl; intros w Hup Hok.
  - exists w. rewrite app_nil_r. split_and!; try done. by intros [?|?%elem_of_nil].
  - apply Forall_cons in Hok as [Hok Hoks].
    destruct (exec_event_ok tid ev w Hup Hok) as (w1 & Hrun1 & Hup1 & Heq1 & Hst1).
    destruct (IH w1 Hup1 Hoks) as (w2 & Hrun2 & Hup2 & Heq2 & Hst2).
    rewrite Hrun1. ok_simpl. exists w2. split_and!; try done.
    + by rewrite Heq2, Heq1, <- app_assoc.
    + intros [Hc|[Heq|Hin]%elem_of_cons]; apply Hst2; [left; auto|left; auto|by right].
Qed.

(** *** Establishing *)
Definition sk_ready (s : S) : Prop := sk_wr_shut s = false.

(** [establishConnection] up to the connection callback. *)
Lemma establish_run tid w ch :
  let a := channel_ (conn w) in
  rt_ready (lp w) a → rt_channel (lp w) a = Some ch → rt_isInLoopThread tid (lp w) = true →
  ∃ l' st, establishConnection call tid w =
      invoke call (connectionCallback_ (conn w)) ArgNone (set_lp l' (put_state kConnected w)) ∧
    rt_ready l' a ∧ rt_registered l' a = true ∧
    rt_channel l' a = Some (setStatus (with_event (tie ch (this_ (conn w))) (reading_on (event_ ch))) st) ∧
    (∀ c', c' ≠ a → rt_channel l' c' = rt_channel (rt_new_channel a (tie ch (this_ (conn w))) (lp w)) c') ∧
    rt_pending l' = rt_pending (lp w) ∧
    (∀ t, rt_isInLoopThread t l' = rt_isInLoopThread t (lp w)).
Proof.
  intros a Hr Hch Ht. unfold establishConnection. rewrite assertLoop_ok by done.
  cbn [mbind outcome_bind put_state set_conn setState conn lp channel_ this_]. fold a. rewrite Hch.
  ok_simpl. destruct (law_tie _ _ ch (this_ (conn w)) Hr Hch) as (Hr1 & Hch1 & Hp1 & Hth1).
  set (l1 := rt_new_channel a (tie ch (this_ (conn w))) (lp w)) in *.
  destruct (law_change reading_on tid a l1 Hr1) as (l2 & Hrun & Hr2 & _ & Hg2 & Ho2 & Hp2 & Hth2); [by rewrite Hth1|].
  destruct (law_change_channel reading_on tid a l1 l2 _ Hr1 Hrun Hch1) as [st Hch2].
  exists l2, st. unfold on_lp, rt_enableReading. simpl. fold a. fold l1. rewrite Hrun. ok_simpl.
  split_and!; [done|done|done|done|done|by rewrite Hp2, Hp1|intros t; by rewrite Hth2, Hth1].
Qed.

Lemma establish_ok tid w w' cb :
  wf (inputBuffer_ (conn w)) → outputBuffer_ (conn w) = Buffer_new →
  rt_ready (lp w) (channel_ (conn w)) → rt_event (lp w) (channel_ (conn w)) = Some 0 →
  sk_wr_shut (sock w) = false → rt_isInLoopThread tid (lp w) = true →
  connectionCallback_ (conn w) = Some cb → (∀ w, ∃ u, call cb ArgNone w = Ok (mkW (conn w) (lp w) (sock w) u)) →
  establishConnection call tid w = Ok w' →
  up tid w' ∧ output w' = [] ∧ state_ (conn w') = kConnected ∧ sock w' = sock w.
Proof.
  intros Hwi Hwo Hrdy Hev Hs Ht Hcb Hcall. unfold establishConnection. rewrite assertLoop_ok by done.
  cbn [mbind outcome_bind put_state set_conn setState conn lp channel_ this_].
  destruct (law_ready _ _ Hrdy) as [ch Hch]. rewrite Hch. ok_simpl.
  destruct (law_tie _ _ ch (this_ (conn w)) Hrdy Hch) as (Hrdy1 & Hch1 & _ & Hth1).
  match goal with |- on_lp _ ?v ≫= _ = _ → _ => set (w1 := v) end.
  destruct (change_channel reading_on tid w1) as (l' & Hrun & Hrdy2 & Hev2 & _ & _ & Hth2);
    [done|by simpl; rewrite Hth1|].
  match goal with |- ?m ≫= _ = _ → _ =>
    change m with (on_lp (rt_change reading_on tid (channel_ (conn w1))) w1) end.
  rewrite Hrun. ok_simpl. unfold invoke. simpl. rewrite Hcb. destruct (Hcall (set_lp l' w1)) as [u ->]. intros [= <-].
  assert (Hout : output (set_lp l' w1) = []).
  { unfold output. simpl. rewrite Hwo. apply content_new. }
  assert (Hnw : writing (set_lp l' w1) = false).
  { assert (Hev1 : rt_event (lp w1) (channel_ (conn w1)) = Some 0).
    { unfold rt_event in *. rewrite Hch in Hev. injection Hev as He. unfold w1. simpl.
      rewrite Hch1. simpl. by rewrite He. }
    unfold writing. change (channel_ (conn (set_lp l' w1))) with (channel_ (conn w1)).
    change (lp (set_lp l' w1)) with l'. by rewrite isWriting_event, Hev2, Hev1. }
  change (output _) with (output (set_lp l' w1)).
  split_and!; try done. split.
  - split; try done.
    + simpl. rewrite Hwo. apply wf_new.
    + intros _. simpl. by rewrite Hwo.
    + unfold writing in *. simpl in *. by rewrite Hnw.
  - by intros ?.
  - by left.
  - simpl. rewrite Hth2. simpl. by rewrite Hth1.
Qed.
End invariant.
