(* ===== verification/TcpFlow.v ===== *)
(** * TcpFlow: what a connection does with its data and its life

    Properties of TcpConnection.v, proved against the Reactor and Socket interfaces, with
    their witnesses on the event loop of EventLoop.v and a small socket. *)
From S2P Require Import Prelude Timestamp Buffer Channel Epoller EventLoop Reactor ReactorLoop TcpConnection.

(** ** A socket for the examples: each write takes at most [ss_room] bytes *)
Record sim_socket := mkSimSocket {
  ss_sent : list byte;
  ss_shut : bool;
  ss_room : Z;
  ss_input : readv_result
}.

#[export] Instance sim_sock : Socket sim_socket := {|
  sk_write s d :=
    let n := Z.min (Z.max 0 (ss_room s)) (zlen d) in
    if (n =? 0) && (0 <? zlen d) then (s, (-1, EWOULDBLOCK))
    else (mkSimSocket (ss_sent s ++ take (Z.to_nat n) d) (ss_shut s) (ss_room s) (ss_input s), (n, 0));
  sk_readv s n m :=
    (s, match ss_input s with
        | ReadvData d => ReadvData (take (Z.to_nat (n + m)) d)
        | e => e
        end);
  sk_shutdownWrite s := mkSimSocket (ss_sent s) true (ss_room s) (ss_input s);
  sk_setKeepAlive _ s := s;
  sk_setTcpNoDelay _ s := s;
  sk_sent := ss_sent;
  sk_wr_shut := ss_shut |}.

Lemma zlen_take_le {A} n (l : list A) : 0 ≤ n → zlen (take (Z.to_nat n) l) ≤ n.
Proof. intros. unfold zlen. rewrite length_take. lia. Qed.

#[export] Instance sim_sock_laws : SocketLaws sim_socket.
Proof.
  split; simpl; try done.
  - intros s d. pose proof (zlen_nonneg d). destruct (_ && _); simpl; [lia|]. intros _. split; [lia|done].
  - intros s d. pose proof (zlen_nonneg d). destruct (_ && _); simpl; [done|lia].
  - intros s d. by destruct (_ && _).
  - intros s n m d Hnm. destruct (ss_input s) as [e|l]; [done|]. intros [= <-]. by apply zlen_take_le.
Qed.

(** ** A connection on an event loop *)
Abbreviation demo_loop := (EventLoop conn_cb (conn_fn nat) unit sim_kernel N).
Abbreviation demo_W := (W nat unit sim_socket demo_loop (list nat)).

#[export] Instance demo_reactor_laws : ReactorLaws demo_loop (loop_cb conn_cb) (conn_fn nat) :=
  loop_reactor_laws sim_epoll_accepts.

(** The callbacks only record that they ran. *)
Definition demo_call (cb : nat) (arg : cb_arg) (w : demo_W) : outcome demo_W :=
  Ok (mkW (conn w) (lp w) (sock w) (usr w ++ [cb])).

Definition demo_loop_start : demo_loop :=
  mkEventLoop true false false false 4 efd_new invalid (Poll_ctor 1 50 3 []) 100
    (TimerQueue.TimerQueue_ctor 1) 101 [] [].

(** A new connection on descriptor 7: callback 0 for connection, 1 for message, 2 for
    close, 3 for write completion. *)
Definition demo_new (room : Z) (input : readv_result) : demo_W :=
  let w := TcpConnection_ctor CbUser 500 50 (str "127.0.0.1:80#1") 7 200
    (mkSimSocket [] false room input) demo_loop_start [] in
  set_conn (setCallbacks (Some 0%nat) (Some 1%nat) (Some 2%nat) (Some 3%nat) (conn w)) w.

Lemma demo_new_ready room input : rt_ready (lp (demo_new room input)) 200.
Proof.
  apply (law_new (L := demo_loop) (F := loop_cb conn_cb) (G := conn_fn nat) demo_loop_start 200
    (setErrorCallback (setCloseCallback (setWriteCallback (setReadCallback
      (Channel_ctor 50 7) (CbUser CbRead)) (CbUser CbWrite)) (CbUser CbClose)) (CbUser CbError)));
    [|reflexivity|reflexivity].
  split; [apply poll_inv_ctor|]. by split.
Qed.

(** ** Properties *)
Section flow.
Context {C X S L F G U : Type} `{SocketLaws S} `{ReactorLaws L F G}.
Context (bind_cb : conn_cb → F) (bind_fn : conn_fn C → G).
Context (call : C → cb_arg → W C X S L U → outcome (W C X S L U)).
Implicit Types w : W C X S L U.

Lemma handleClose_ok tid w :
  rt_ready (lp w) (channel_ (conn w)) → rt_isInLoopThread tid (lp w) = true →
  ∃ l', rt_ready l' (channel_ (conn w)) ∧ rt_event l' (channel_ (conn w)) = Some 0 ∧
    rt_registered l' (channel_ (conn w)) = true ∧
    (∀ t, rt_isInLoopThread t l' = rt_isInLoopThread t (lp w)) ∧
    handleClose call tid w =
      invoke call (closeCallback_ (conn w)) ArgNone (set_lp l' (put_state kDisconnected w)).
Proof.
  intros Hr Ht.
  destruct (change_channel all_off tid (put_state kDisconnected w))
    as (l' & Hrun & Hr' & Hev & Hreg & _ & Hth); [done|done|].
  exists l'. destruct (ready_event _ _ Hr) as [e He].
  split_and!; [done|simpl in Hev; by rewrite Hev, He|done|done|].
  unfold handleClose. rewrite assertLoop_ok by done. ok_simpl.
  change (channel_ (conn w)) with (channel_ (conn (put_state kDisconnected w))).
  unfold rt_disableAll. by rewrite Hrun.
Qed.

(** What [handleRead] does once [readv] returned data. *)
Lemma handleRead_data tid t w data :
  conn_inv w → rt_isInLoopThread tid (lp w) = true →
  (sk_readv (sock w) (writableBytes (inputBuffer_ (conn w))) extraBufSize).2 = ReadvData data →
  zlen (buffer_ (inputBuffer_ (conn w))) + extraBufSize ≤ vector_max_size →
  ∃ b, wf b ∧ content b = content (inputBuffer_ (conn w)) ++ data ∧
    let w1 := set_conn (set_input b (conn w))
      (set_sock (sk_readv (sock w) (writableBytes (inputBuffer_ (conn w))) extraBufSize).1 w) in
    handleRead call tid t w =
      if 0 <? zlen data then invoke call (messageCallback_ (conn w)) (ArgTime t) w1
      else handleClose call tid w1.
Proof.
  intros Hinv Ht Hread Hmax. unfold handleRead. rewrite assertLoop_ok by done.
  cbn [mbind outcome_bind conn sock set_sock]. rewrite Hread.
  assert (Hlen : zlen data ≤ writableBytes (inputBuffer_ (conn w)) + extraBufSize).
  { apply readv_len in Hread; [done|]. pose proof (ci_in w Hinv) as Hwf.
    rewrite writableBytes_wf by done. destruct Hwf. unfold extraBufSize. lia. }
  destruct (returns_inv _ _ (readFd_data _ (λ _ _, ReadvData data) data (ci_in w Hinv) eq_refl Hlen Hmax))
    as ([[b n] e] & Hrun & Hwf & Hc & -> & ->).
  exists b. split_and!; [done|done|]. rewrite Hrun. ok_simpl.
  destruct (Z.ltb_spec 0 (zlen data)); [done|].
  pose proof (zlen_nonneg data). by rewrite (proj2 (Z.eqb_eq _ _)) by lia.
Qed.
End flow.

(** data arrives in the input buffer.  When [readv] delivers bytes, [handleRead] appends
    exactly those bytes to the input buffer, also those beyond its writable space, and then
    runs the message callback once, with the connection in that state. *)
Theorem handleRead_delivers {C X S L F G U} `{SocketLaws S} `{ReactorLaws L F G}
    (call : C → cb_arg → W C X S L U → outcome (W C X S L U)) (tid : Z) (t : Timestamp)
    (w : W C X S L U) (data : list byte) (cb : C) :
  conn_inv w → rt_isInLoopThread tid (lp w) = true → data ≠ [] →
  (sk_readv (sock w) (writableBytes (inputBuffer_ (conn w))) extraBufSize).2 = ReadvData data →
  zlen (buffer_ (inputBuffer_ (conn w))) + extraBufSize ≤ vector_max_size →
  messageCallback_ (conn w) = Some cb →
  ∃ b, wf b ∧ content b = content (inputBuffer_ (conn w)) ++ data ∧
    handleRead call tid t w = call cb (ArgTime t) (set_conn (set_input b (conn w))
      (set_sock (sk_readv (sock w) (writableBytes (inputBuffer_ (conn w))) extraBufSize).1 w)).
Proof.
  intros Hinv Ht Hne Hread Hmax Hcb.
  destruct (handleRead_data call tid t w data Hinv Ht Hread Hmax) as (b & Hwf & Hc & Hrun).
  exists b. split_and!; [done|done|]. cbv zeta in Hrun. rewrite Hrun, Hcb.
  rewrite (proj2 (Z.ltb_lt 0 (zlen data))); [done|].
  pose proof (zlen_nonneg data). rewrite <- zlen_0_nil in Hne. lia.
Qed.

(** The connection of the examples, established. *)
Definition demo_up (room : Z) (input : readv_result) : demo_W :=
  match establishConnection demo_call 1 (demo_new room input) with
  | Ok w => w | Err _ => demo_new room input
  end.

Lemma demo_established room input :
  establishConnection demo_call 1 (demo_new room input) = Ok (demo_up room input).
Proof. vm_compute. reflexivity. Qed.

Lemma demo_up_ok room input :
  up 1 (demo_up room input) ∧ output (demo_up room input) = [] ∧
  state_ (conn (demo_up room input)) = kConnected ∧ sock (demo_up room input) = mkSimSocket [] false room input.
Proof.
  apply (establish_ok demo_call 1 (demo_new room input) (demo_up room input) 0%nat);
    [apply wf_new|reflexivity|apply demo_new_ready|reflexivity|reflexivity|reflexivity|reflexivity| |
     apply demo_established].
  intros w. by eexists.
Qed.

Definition demo_get : demo_W := demo_up 5 (ReadvData (str "GET")).

Lemma handleRead_delivers_witness :
  ∃ b, wf b ∧ content b = content (inputBuffer_ (conn demo_get)) ++ str "GET" ∧
    handleRead demo_call 1 invalid demo_get =
      demo_call 1%nat (ArgTime invalid) (set_conn (set_input b (conn demo_get))
        (set_sock (sk_readv (sock demo_get) (writableBytes (inputBuffer_ (conn demo_get))) extraBufSize).1
           demo_get)).
Proof.
  apply (handleRead_delivers demo_call 1 invalid demo_get (str "GET") 1%nat).
  - apply demo_up_ok.
  - apply demo_up_ok.
  - discriminate.
  - vm_compute. reflexivity.
  - vm_compute. discriminate.
  - vm_compute. reflexivity.
Defined.

(** C3: the output stream keeps its order and loses nothing it took.  For an established
    connection and any sequence of [send], writability and [shutdown] events in its loop's
    thread, every call completes, and what the kernel accepted followed by what is still
    buffered is what it was before, followed by the messages the connection took charge
    of, in the order they were sent ([taken]: a message is taken when the connection is
    kConnected and no earlier output is pending, unless the write fails with EPIPE or
    ECONNRESET). *)
Theorem stream_in_order {C X S L F G U} `{SocketLaws S} `{ReactorLaws L F G}
    (bind_fn : conn_fn C → G) (call : C → cb_arg → W C X S L U → outcome (W C X S L U))
    (tid : Z) (evs : list conn_event) (w : W C X S L U) :
  up tid w → Forall event_ok evs →
  ∃ w', exec_events bind_fn call tid evs w = Ok w' ∧ up tid w' ∧
    sk_sent (sock w') ++ output w' =
      sk_sent (sock w) ++ output w ++ events_taken bind_fn call tid evs w.
Proof.
  intros Hup Hok. destruct (exec_events_ok bind_fn call tid evs w Hup Hok) as (w' & ? & ? & Heq & _).
  exists w'. by rewrite app_assoc.
Qed.

Lemma event_ok_short evs : forallb (λ ev : conn_event,
    match ev with EvSend msg => zlen msg <? 1000 | _ => true end) evs = true → Forall event_ok evs.
Proof.
  intros Hall. apply Forall_forall. intros ev Hin. rewrite forallb_forall in Hall.
  apply list_elem_of_In, Hall in Hin. destruct ev; simpl in *; [|done..].
  unfold kCheapPrepend, vector_max_size. lia.
Qed.

(** A slow socket: 5 bytes per write.  "hello world" is taken and flushed in pieces. *)
Definition demo_events : list conn_event :=
  [EvSend (str "hello world"); EvWritable; EvWritable; EvSend (str "!")].

Lemma stream_in_order_witness :
  events_taken id demo_call 1 demo_events (demo_up 5 (ReadvData [])) = str "hello world!" ∧
  ∃ w', exec_events id demo_call 1 demo_events (demo_up 5 (ReadvData [])) = Ok w' ∧ up 1 w' ∧
    sk_sent (sock w') ++ output w' =
      sk_sent (sock (demo_up 5 (ReadvData []))) ++ output (demo_up 5 (ReadvData [])) ++
      events_taken id demo_call 1 demo_events (demo_up 5 (ReadvData [])).
Proof.
  split; [vm_compute; reflexivity|].
  exact (stream_in_order id demo_call 1 demo_events (demo_up 5 (ReadvData []))
    (proj1 (demo_up_ok 5 (ReadvData []))) (event_ok_short demo_events eq_refl)).
Defined.

(** C28: the end of the stream comes after the data.  Once [shutdown] was called among any
    sends and writability events, the connection is no longer kConnected, and the write
    side of the socket is shut exactly when the output buffer is empty: never before the
    last buffered byte was accepted, and at once when it is. *)
Theorem fin_after_data {C X S L F G U} `{SocketLaws S} `{ReactorLaws L F G}
    (bind_fn : conn_fn C → G) (call : C → cb_arg → W C X S L U → outcome (W C X S L U))
    (tid : Z) (evs : list conn_event) (w : W C X S L U) :
  up tid w → Forall event_ok evs → EvShutdown ∈ evs →
  ∃ w', exec_events bind_fn call tid evs w = Ok w' ∧ state_ (conn w') ≠ kConnected ∧
    (sk_wr_shut (sock w') = true ↔ output w' = []).
Proof.
  intros Hup Hok Hin.
  destruct (exec_events_ok bind_fn call tid evs w Hup Hok) as (w' & Hrun & Hup' & _ & Hst).
  exists w'. split_and!; [done|by apply Hst; right|].
  specialize (Hst (or_intror Hin)).
  destruct (up_life _ _ Hup') as [[? _]|[(_ & Hs & Hne)|(_ & Hs & Hnil)]]; [done| |by rewrite Hs, Hnil].
  rewrite Hs. split; [done|]. by intros ?%Hne.
Qed.

Lemma fin_after_data_witness :
  ∃ w', exec_events id demo_call 1 [EvSend (str "hello world"); EvShutdown; EvWritable; EvWritable]
      (demo_up 5 (ReadvData [])) = Ok w' ∧ state_ (conn w') ≠ kConnected ∧
    (sk_wr_shut (sock w') = true ↔ output w' = []).
Proof.
  apply (fin_after_data id demo_call 1 [EvSend (str "hello world"); EvShutdown; EvWritable; EvWritable]
    (demo_up 5 (ReadvData []))).
  - apply demo_up_ok.
  - apply event_ok_short. reflexivity.
  - right. left.
Defined.

(** a message sent while output is pending is lost.  [send] on a connected connection
    whose output buffer is not empty returns without writing, without buffering and
    without an error: the buffering is inside the branch for an empty buffer. *)
Theorem send_while_pending_lost {C X S L F G U} `{SocketLaws S} `{ReactorLaws L F G}
    (bind_fn : conn_fn C → G) (call : C → cb_arg → W C X S L U → outcome (W C X S L U))
    (tid : Z) (msg : list byte) (w : W C X S L U) :
  up tid w → state_ (conn w) = kConnected → output w ≠ [] →
  send bind_fn call tid msg w = Ok w.
Proof.
  intros Hup Hst Hne. unfold send. rewrite bool_decide_eq_true_2 by done.
  rewrite (up_thread _ _ Hup). apply (sendInLoop_busy bind_fn tid msg w); [apply Hup|apply Hup|done].
Qed.

Definition demo_pending : demo_W :=
  match send id demo_call 1 (str "hello world") (demo_up 5 (ReadvData [])) with
  | Ok w => w | Err _ => demo_up 5 (ReadvData [])
  end.

Lemma demo_pending_up : up 1 demo_pending.
Proof.
  destruct (exec_send id demo_call 1 (str "hello world") (demo_up 5 (ReadvData [])))
    as (w' & Hrun & Hup & _); [apply demo_up_ok|vm_compute; discriminate|].
  unfold demo_pending. rewrite Hrun. exact Hup.
Qed.

Lemma send_while_pending_lost_witness :
  output demo_pending = str " world" ∧ send id demo_call 1 (str "!") demo_pending = Ok demo_pending.
Proof.
  split; [vm_compute; reflexivity|]. apply (send_while_pending_lost id demo_call 1 (str "!") demo_pending).
  - exact demo_pending_up.
  - vm_compute. reflexivity.
  - vm_compute. discriminate.
Defined.

(** a connection that was shut down cannot be closed from this side.  After [shutdown]
    has completed the state is kDisconnected although the connection is still registered
    for reading: [forceClose] then does nothing, and [destoryConnection] (the server's
    destructor calls it on every connection) fails the assertion of [removeChannel],
    because it disables the channel only in state kConnected. *)
Theorem shutdown_leaves_no_exit {C X S L F G U} `{SocketLaws S} `{ReactorLaws L F G}
    (bind_fn : conn_fn C → G) (call : C → cb_arg → W C X S L U → outcome (W C X S L U))
    (tid : Z) (w : W C X S L U) :
  up tid w → output w = [] → (∃ e, rt_event (lp w) (channel_ (conn w)) = Some e ∧ has e EPOLLIN = true) →
  ∃ w', shutdown bind_fn call tid w = Ok w' ∧
    (state_ (conn w) = kConnected → forceClose bind_fn tid w' = Ok w' ∧
       destoryConnection call tid w' ↯ AssertFailed).
Proof.
  intros Hup Hout (e & He & Hin).
  destruct (decide (state_ (conn w) = kConnected)) as [Hst|Hst].
  2: { exists w. unfold shutdown. by rewrite bool_decide_eq_false_2. }
  unfold shutdown. rewrite bool_decide_eq_true_2 by done. unfold runInLoop.
  set (w1 := put_state kDisconnecting w).
  assert (Hnw : writing w1 = false).
  { destruct (writing w1) eqn:E; [|done]. by apply (ci_writing _ (up_inv _ _ Hup)) in E. }
  pose proof (put_state_inv kDisconnecting w (up_inv _ _ Hup)) as Hinv1. fold w1 in Hinv1.
  replace (rt_isInLoopThread tid (lp w1)) with true by (symmetry; apply Hup). cbn [run_fn].
  unfold shutdownInLoop. rewrite assertLoop_ok by apply Hup. ok_simpl.
  fold (writing w1). rewrite Hnw. cbn [negb]. eexists. split; [done|]. intros _. split; [done|].
  unfold destoryConnection. rewrite assertLoop_ok by apply Hup. ok_simpl.
  rewrite bool_decide_eq_false_2 by done. ok_simpl. unfold on_lp.
  rewrite (law_remove_enabled tid _ _ e); [done|apply (up_inv _ _ Hup)|apply Hup|exact He|].
  intros ->. discriminate.
Qed.

Lemma shutdown_leaves_no_exit_witness :
  ∃ w', shutdown id demo_call 1 (demo_up 5 (ReadvData [])) = Ok w' ∧
    (state_ (conn (demo_up 5 (ReadvData []))) = kConnected → forceClose id 1 w' = Ok w' ∧
       destoryConnection demo_call 1 w' ↯ AssertFailed).
Proof.
  apply (shutdown_leaves_no_exit id demo_call 1 (demo_up 5 (ReadvData []))).
  - apply demo_up_ok.
  - apply demo_up_ok.
  - exists kReadEvent_. split; vm_compute; reflexivity.
Defined.

(** a peer that closes ends the connection without telling the user.  When [readv]
    reports the end of the stream, [handleRead] moves the connection to kDisconnected,
    disables all its events and runs the close callback only; [destoryConnection], which
    the close callback arranges, then unregisters the channel and runs nothing.  The
    connection callback, which reported the connection's start, is never run for its end.
    (The callbacks are assumed to leave the connection alone: [log] is what they record.) *)
Theorem peer_close_is_silent {C X S L F G U} `{SocketLaws S} `{ReactorLaws L F G}
    (log : C → cb_arg → U → U) (tid : Z) (t : Timestamp) (w : W C X S L U) (cb : C) :
  let call := λ f arg (v : W C X S L U), Ok (mkW (conn v) (lp v) (sock v) (log f arg (usr v))) in
  up tid w →
  (sk_readv (sock w) (writableBytes (inputBuffer_ (conn w))) extraBufSize).2 = ReadvData [] →
  zlen (buffer_ (inputBuffer_ (conn w))) + extraBufSize ≤ vector_max_size →
  closeCallback_ (conn w) = Some cb →
  ∃ w1 w2, handleRead call tid t w = Ok w1 ∧ state_ (conn w1) = kDisconnected ∧
    rt_event (lp w1) (channel_ (conn w1)) = Some 0 ∧ usr w1 = log cb ArgNone (usr w) ∧
    destoryConnection call tid w1 = Ok w2 ∧
    rt_registered (lp w2) (channel_ (conn w2)) = false ∧ usr w2 = usr w1.
Proof.
  intros call Hup Hread Hmax Hcb. pose proof (up_thread _ _ Hup) as Ht.
  destruct (handleRead_data call tid t w [] (up_inv _ _ Hup) Ht Hread Hmax) as (b & _ & _ & Hrun).
  cbv zeta in Hrun. cbn [zlen length] in Hrun.
  match type of Hrun with _ = (if _ then _ else handleClose _ _ ?v) => set (w0 := v) in * end.
  destruct (handleClose_ok call tid w0) as (l' & Hr' & Hev & Hreg & Hth & Hclose);
    [apply (up_inv _ _ Hup)|exact Ht|].
  change (closeCallback_ (conn w0)) with (closeCallback_ (conn w)) in Hclose. rewrite Hcb in Hclose.
  change (0 <? zlen (@nil byte)) with false in Hrun. rewrite Hclose in Hrun.
  set (w1 := mkW (conn (put_state kDisconnected w0)) l' (sock w0) (log cb ArgNone (usr w0))).
  assert (Hw1 : handleRead call tid t w = Ok w1) by exact Hrun.
  destruct (law_remove tid (channel_ (conn w1)) (lp w1)) as (l2 & Hrem & _ & _ & Hreg2 & _);
    [done|by simpl; rewrite Hth|done|done|].
  exists w1, (set_lp l2 w1). split_and!; try done.
  unfold destoryConnection. rewrite assertLoop_ok by (simpl; by rewrite Hth).
  ok_simpl. rewrite bool_decide_eq_false_2 by done. ok_simpl.
  unfold on_lp. by rewrite Hrem.
Qed.

Lemma peer_close_is_silent_witness :
  ∃ w1 w2, handleRead demo_call 1 invalid (demo_up 5 (ReadvData [])) = Ok w1 ∧
    state_ (conn w1) = kDisconnected ∧ rt_event (lp w1) (channel_ (conn w1)) = Some 0 ∧
    usr w1 = usr (demo_up 5 (ReadvData [])) ++ [2%nat] ∧
    destoryConnection demo_call 1 w1 = Ok w2 ∧
    rt_registered (lp w2) (channel_ (conn w2)) = false ∧ usr w2 = usr w1.
Proof.
  apply (peer_close_is_silent (λ f _ u, u ++ [f]) 1 invalid (demo_up 5 (ReadvData [])) 2%nat).
  - apply demo_up_ok.
  - vm_compute. reflexivity.
  - vm_compute. discriminate.
  - vm_compute. reflexivity.
Defined.

(** The write is the last thing that happens to the socket. *)
Lemma append_remaining_sock {C X S L F G U} `{Socket S} `{Reactor L F G} (bind_fn : conn_fn C → G)
    tid data n m (x y : W C X S L U) :
  append_remaining bind_fn tid data n m x = Ok y → sock y = sock x.
Proof.
  unfold append_remaining. cbv zeta. intros (rest & _ & (out & _ & Hrun)%bind_Ok_inv)%bind_Ok_inv.
  match type of Hrun with context [set_output out (conn ?v)] => set (x1 := v) in * end.
  assert (Hs : sock x1 = sock x).
  { unfold x1. destruct (highWaterMarkCallback_ (conn x)); [|done]. by destruct (_ && _). }
  destruct (rt_isWriting _ _); [by injection Hrun as <-|].
  by apply bind_Ok_inv in Hrun as (l & _ & [= <-]).
Qed.

Lemma sendInLoop_sock {C X S L F G U} `{Socket S} `{Reactor L F G} (bind_fn : conn_fn C → G)
    tid data (x y : W C X S L U) :
  writing x = false → readableBytes (outputBuffer_ (conn x)) = 0 →
  sendInLoop bind_fn tid data x = Ok y → sock y = (sk_write (sock x) data).1.
Proof.
  intros Hw Ho (? & _ & Hrun)%bind_Ok_inv. cbv zeta in Hrun. fold (writing x) in Hrun. rewrite Hw, Ho in Hrun.
  cbn [negb andb Z.eqb] in Hrun. set (xs := set_sock (sk_write (sock x) data).1 x) in *.
  change ((sk_write (sock x) data).1) with (sock xs). clearbody xs.
  destruct (0 <=? _).
  - match type of Hrun with context [append_remaining _ _ _ _ _ ?v] => set (x1 := v) in * end.
    assert (Hs : sock x1 = sock xs).
    { unfold x1. destruct (writeCompleteCallback_ (conn xs)); [|done]. by destruct (_ =? 0). }
    apply bind_Ok_inv in Hrun as (? & _ & Hrun). destruct (_ && _); [|by injection Hrun as <-].
    apply append_remaining_sock in Hrun. congruence.
  - apply bind_Ok_inv in Hrun as (? & _ & Hrun). destruct (_ && _); [|by injection Hrun as <-].
    by apply append_remaining_sock in Hrun.
Qed.

(** a message that another thread sends just before the connection closes stops the
    process.  [send] queues [sendInLoop] while the connection is up; the loop then handles
    the close, which disables the channel and leads to [destoryConnection]; but the queued
    [sendInLoop] runs before it and does not look at the state: when the kernel takes only
    a part of the message the channel is enabled again, and [destoryConnection] fails the
    assertion of [removeChannel]. *)
Theorem late_send_breaks_teardown {C X S L F G U} `{SocketLaws S} `{ReactorLaws L F G} (bind_fn : conn_fn C → G)
    (log : C → cb_arg → U → U) (tid tid' : Z) (msg : list byte) (w : W C X S L U) (cb : C) :
  let call := λ f arg (v : W C X S L U), Ok (mkW (conn v) (lp v) (sock v) (log f arg (usr v))) in
  up tid w → state_ (conn w) = kConnected → rt_isInLoopThread tid' (lp w) = false →
  output w = [] → 0 ≤ (sk_write (sock w) msg).2.1 < zlen msg → zlen msg + kCheapPrepend ≤ vector_max_size →
  closeCallback_ (conn w) = Some cb →
  ∃ w1 w2 w3, send bind_fn call tid' msg w = Ok w1 ∧
    rt_pending (lp w1) = rt_pending (lp w) ++ [bind_fn (FnSendInLoop msg)] ∧
    handleClose call tid w1 = Ok w2 ∧ state_ (conn w2) = kDisconnected ∧
    rt_event (lp w2) (channel_ (conn w2)) = Some 0 ∧
    TcpConnection.run_fn bind_fn call tid (FnSendInLoop msg) w2 = Ok w3 ∧
    destoryConnection call tid w3 ↯ AssertFailed.
Proof.
  intros call Hup Hst Ht' Hout Hn Hmax Hcb. pose proof (up_inv _ _ Hup) as Hinv. pose proof (up_thread _ _ Hup) as Ht.
  set (w1 := queue bind_fn tid' (FnSendInLoop msg) w).
  destruct (queue_frame bind_fn tid' (FnSendInLoop msg) w) as (Hc1 & Hs1 & _ & _ & Hth1 & Hr1). fold w1 in Hc1, Hs1, Hth1, Hr1.
  destruct (handleClose_ok call tid w1) as (l' & Hr' & Hev & _ & Hth & Hclose);
    [rewrite Hc1; apply Hr1, Hinv|by rewrite Hth1|].
  rewrite Hc1, Hcb in Hclose. rewrite Hc1 in Hr', Hev.
  set (w2 := mkW (setState kDisconnected (conn w1)) l' (sock w1) (log cb ArgNone (usr w1))).
  assert (Hc2 : conn w2 = setState kDisconnected (conn w)) by by rewrite <- Hc1.
  assert (Ho2 : output w2 = []) by (unfold output; by rewrite Hc2).
  assert (Hw2 : writing w2 = false).
  { unfold writing. rewrite isWriting_event, Hc2. change (lp w2) with l'. simpl channel_. by rewrite Hev. }
  assert (Hinv2 : conn_inv w2).
  { split; [rewrite Hc2; apply (ci_in _ Hinv)|rewrite Hc2; apply (ci_out _ Hinv)| | |by rewrite Hw2].
    - intros _. rewrite Hc2. by apply (ci_reset _ Hinv).
    - rewrite Hc2. exact Hr'. }
  assert (Ht2 : rt_isInLoopThread tid (lp w2) = true) by (simpl; by rewrite Hth, Hth1).
  assert (Hsk : sock w2 = sock w) by exact Hs1.
  destruct (sendInLoop_idle bind_fn tid msg w2 Hinv2 Ht2 Ho2 Hmax)
    as (w3 & Hsend & Hinv3 & Hflow & (_ & Hfix & Hth3) & Hst3 & _ & Heq).
  assert (Hread2 : readableBytes (outputBuffer_ (conn w2)) = 0).
  { rewrite (readable_output w2) by apply Hinv2. by rewrite Ho2. }
  pose proof (sendInLoop_sock bind_fn tid msg w2 w3 Hw2 Hread2 Hsend) as Hs3. rewrite Hsk in Hs3.
  destruct (write_ok (sock w) msg) as [_ Hsent]; [lia|].
  assert (Hne : output w3 ≠ []).
  { intros Ho3. rewrite Hs3, Ho3, app_nil_r, Hsk, Hsent in Heq. apply app_inv_head in Heq.
    unfold taken in Heq. rewrite Hread2, Hsk in Heq. unfold write_fault in Heq.
    rewrite (proj2 (Z.ltb_ge _ 0)) in Heq by lia. cbn [andb Z.eqb] in Heq.
    apply (f_equal (@length _)) in Heq. rewrite length_take in Heq. unfold zlen in Hn. lia. }
  pose proof (Hflow Hne) as Hw3. unfold writing in Hw3. rewrite isWriting_event in Hw3.
  destruct (rt_event (lp w3) (channel_ (conn w3))) as [e|] eqn:He3; [|done].
  exists w1, w2, w3. split_and!; [| | |by rewrite Hc2| | |].
  - unfold send. rewrite bool_decide_eq_true_2 by done. unfold runInLoop. by rewrite Ht'.
  - by destruct (law_queue tid' (bind_fn (FnSendInLoop msg)) (lp w)) as (? & _).
  - exact Hclose.
  - rewrite Hc2. exact Hev.
  - exact Hsend.
  - unfold destoryConnection. rewrite assertLoop_ok by by rewrite Hth3. ok_simpl.
    rewrite Hst3, Hc2. rewrite bool_decide_eq_false_2 by done. ok_simpl. unfold on_lp.
    rewrite (law_remove_enabled tid _ _ e); [done|apply Hinv3|by rewrite Hth3|exact He3|].
    intros ->. discriminate.
Qed.

Lemma late_send_breaks_teardown_witness :
  ∃ w1 w2 w3, send id demo_call 2 (str "hello") (demo_up 3 (ReadvData [])) = Ok w1 ∧
    rt_pending (lp w1) = rt_pending (lp (demo_up 3 (ReadvData []))) ++ [FnSendInLoop (str "hello")] ∧
    handleClose demo_call 1 w1 = Ok w2 ∧ state_ (conn w2) = kDisconnected ∧
    rt_event (lp w2) (channel_ (conn w2)) = Some 0 ∧
    TcpConnection.run_fn id demo_call 1 (FnSendInLoop (str "hello")) w2 = Ok w3 ∧
    destoryConnection demo_call 1 w3 ↯ AssertFailed.
Proof.
  apply (late_send_breaks_teardown id (λ f _ u, u ++ [f]) 1 2 (str "hello") (demo_up 3 (ReadvData [])) 2%nat).
  - apply demo_up_ok.
  - vm_compute. reflexivity.
  - vm_compute. reflexivity.
  - vm_compute. reflexivity.
  - split; vm_compute; [discriminate|reflexivity].
  - vm_compute. discriminate.
  - vm_compute. reflexivity.
Defined.
