(* ===== verification/HttpServer.v ===== *)
(** * HttpServer: src/ham/net/http/HttpServer.h and HttpServer.cc

    The server's three callbacks on one connection, whose context holds the parser's
    HttpContext.  The user's [httpCallback_] fills in the response and is a parameter. *)
From S2P Require Import Prelude StdMap Timestamp Buffer Channel Reactor.
From S2P Require Import HttpRequest HttpContext HttpGrammar.
From S2P Require HttpResponse.
From S2P Require Import Epoller EventLoop ReactorLoop TcpConnection TcpFlow.

Section server.
Context {C S L F G U : Type} `{Socket S} `{Reactor L F G}.
Context (bind_fn : conn_fn C → G).
Context (call : C → cb_arg → W C HttpContext S L U → outcome (W C HttpContext S L U)).
(** [httpCallback_]: empty until [setHttpCallback]. *)
Context (httpCallback_ : option (HttpRequest → HttpResponse.HttpResponse → HttpResponse.HttpResponse)).
Abbreviation World := (W C HttpContext S L U).

Definition onConnection (w : World) : World :=
  if isConnected (conn w) then set_conn (setContext HttpContext_new (conn w)) w else w.

Definition isShortConn (request : HttpRequest) : bool :=
  let connType := getHeader request (str "Connection") in
  bool_decide (connType = str "close") ||
  (bool_decide (version_ request = kHttp10) && negb (bool_decide (connType = str "Keep-Alive"))).

Definition onRequest (tid : Z) (request : HttpRequest) (w : World) : outcome World :=
  let response := HttpResponse.HttpResponse_new (isShortConn request) in
  response ← (match httpCallback_ with Some f => Ok (f request response) | None => Err NotCallable end);
  buf ← Buffer_ctor;
  buf ← HttpResponse.appendToBuffer response buf;
  '(_, w) ← send_buffer bind_fn call tid buf w;
  if HttpResponse.closeConnection response then shutdown bind_fn call tid w else Ok w.

Definition bad_request : list byte := str "HTTP/1.1 400 Bad Request" ++ CRLF ++ CRLF.

(** [context] is a copy of the connection's context: what the parser and [reset] do to it
    ends with the call. *)
Definition onMessage (tid : Z) (receiveTime : Timestamp) (w : World) : outcome World :=
  context ← (match context_ (conn w) with Some x => Ok x | None => Err BadAnyCast end);
  '(context, inputBuffer, ok) ← parseRequest context (inputBuffer_ (conn w)) receiveTime;
  let w := set_conn (set_input inputBuffer (conn w)) w in
  w ← (if ok : bool then Ok w
       else w ← send bind_fn call tid bad_request w; shutdown bind_fn call tid w);
  if gotAll context then
    w ← onRequest tid (request_ context) w;
    let context := reset context in
    Ok w
  else Ok w.
End server.

(** ** What the callbacks do *)
Section server_props.
Context {C S L F G U : Type} `{SocketLaws S} `{ReactorLaws L F G}.
Context (bind_fn : conn_fn C → G).
Context (call : C → cb_arg → W C HttpContext S L U → outcome (W C HttpContext S L U)).
Implicit Types w : W C HttpContext S L U.

Lemma send_buffer_ok tid buf w :
  up tid w → wf buf → zlen (content buf) + kCheapPrepend ≤ vector_max_size →
  ∃ buf' w', send_buffer bind_fn call tid buf w = Ok (buf', w') ∧ up tid w' ∧ same_user w w' ∧
    state_ (conn w') = state_ (conn w) ∧
    sk_sent (sock w') ++ output w' =
      (sk_sent (sock w) ++ output w) ++ event_taken (EvSend (content buf)) w.
Proof.
  intros Hup Hwf Hlen.
  destruct (exec_send bind_fn call tid (content buf) w Hup Hlen) as (w' & Hrun & ? & ? & ? & ?).
  unfold send_buffer, send in *. case_bool_decide.
  - rewrite (up_thread _ _ Hup) in *. rewrite read_content by done. ok_simpl.
    rewrite Hrun. by exists (retrieveAll buf), w'.
  - injection Hrun as <-. by exists buf, w.
Qed.

(** The end of [onRequest]. *)
Lemma onRequest_ok tid f request w :
  let resp := f request (HttpResponse.HttpResponse_new (isShortConn request)) in
  up tid w → state_ (conn w) = kConnected →
  zlen (HttpResponse.body_ resp) < 10 ^ 13 →
  kCheapPrepend + zlen (HttpResponse.response_text resp) ≤ vector_max_size →
  ∃ w', onRequest bind_fn call (Some f) tid request w = Ok w' ∧ up tid w' ∧ same_user w w' ∧
    sk_sent (sock w') ++ output w' =
      (sk_sent (sock w) ++ output w) ++ event_taken (EvSend (HttpResponse.response_text resp)) w ∧
    (state_ (conn w') = kConnected ↔ HttpResponse.closeConnection resp = false).
Proof.
  intros resp Hup Hst Hbody Hlen. unfold onRequest. ok_simpl.
  rewrite Buffer_ctor_ok. ok_simpl. fold resp.
  destruct (returns_inv _ _ (HttpResponse.appendToBuffer_spec resp Buffer_new wf_new Hbody Hlen))
    as (buf & Happ & Hwf & Hc). rewrite Happ. ok_simpl.
  rewrite content_new in Hc. simpl in Hc.
  destruct (send_buffer_ok tid buf w Hup Hwf) as (buf' & w1 & Hsend & Hup1 & Hsame1 & Hst1 & Heq);
    [rewrite Hc; lia|].
  rewrite Hsend. ok_simpl. rewrite Hc in Heq.
  destruct (HttpResponse.closeConnection resp) eqn:Hclose.
  - destruct (exec_shutdown bind_fn call tid w1 Hup1) as (w2 & Hsh & Hup2 & Hsame2 & Heq2 & Hst2).
    exists w2. split_and!; try done.
    + destruct Hsame1 as (Hu1 & Hf1 & Hth1), Hsame2 as (Hu2 & Hf2 & Hth2).
      split_and!; [congruence|congruence|]. intros t. by rewrite Hth2.
    + by rewrite Heq2.
  - exists w1. split_and!; try done. by rewrite Hst1.
Qed.

(** [onMessage] on a complete request. *)
Lemma onMessage_serves f tid t w (r : request_text) :
  let request := parsed HttpRequest_new t r in
  let resp := f request (HttpResponse.HttpResponse_new (isShortConn request)) in
  up tid w → state_ (conn w) = kConnected → output w = [] →
  context_ (conn w) = Some HttpContext_new →
  content (inputBuffer_ (conn w)) = message_text r → request_ok r →
  zlen (HttpResponse.body_ resp) < 10 ^ 13 →
  kCheapPrepend + zlen (HttpResponse.response_text resp) ≤ vector_max_size →
  ∃ w', onMessage bind_fn call (Some f) tid t w = Ok w' ∧ up tid w' ∧
    content (inputBuffer_ (conn w')) = [] ∧
    sk_sent (sock w') ++ output w' =
      sk_sent (sock w) ++ taken (HttpResponse.response_text resp) w ∧
    (state_ (conn w') = kConnected ↔ HttpResponse.closeConnection resp = false).
Proof.
  intros request resp Hup Hst Hout Hctx Hin Hok Hbody Hlen. unfold onMessage. rewrite Hctx.
  ok_simpl.
  pose proof (ci_in _ (up_inv _ _ Hup)) as Hwf.
  destruct (parseRequest_of_text HttpContext_new (inputBuffer_ (conn w)) t
    (mkHttpContext (parsed HttpRequest_new t r) kGotAll) [] true Hwf) as (b & Hrun & Hwfb & Hb).
  { rewrite Hin. apply text_loop_message; try done.
    pose proof (parse_fuel_content _ Hwf). rewrite Hin in *. lia. }
  rewrite Hrun. ok_simpl.
  destruct (onRequest_ok tid f request (set_conn (set_input b (conn w)) w))
    as (w' & Hreq & Hup' & (_ & Hfix & _) & Heq & Hst'); [by apply up_set_input|done|done|done|].
  change (gotAll (mkHttpContext (parsed HttpRequest_new t r) kGotAll)) with true. cbv iota.
  cbn [request_]. fold request. rewrite Hreq. ok_simpl.
  exists w'. split_and!; try done.
  - unfold fixed in Hfix. injection Hfix as _ Hi _. rewrite Hi. exact Hb.
  - rewrite Heq. change (output (set_conn (set_input b (conn w)) w)) with (output w).
    rewrite Hout, app_nil_r. f_equal. unfold event_taken. by rewrite bool_decide_eq_true_2.
Qed.
End server_props.

(** ** Properties *)

(** a complete request is answered.  When the input buffer of an idle, connected
    connection holds exactly one request message, [onMessage] parses it, runs the user's
    callback once on exactly the request that was written, hands the response's bytes to
    the connection, and shuts the connection down exactly when the response says so (which
    by default is when the client asked for it: "Connection: close", or HTTP/1.0 without
    "Keep-Alive").  The input is consumed. *)
Theorem http_request_served {C S L F G U} `{SocketLaws S} `{ReactorLaws L F G}
    (bind_fn : conn_fn C → G)
    (call : C → cb_arg → W C HttpContext S L U → outcome (W C HttpContext S L U))
    (f : HttpRequest → HttpResponse.HttpResponse → HttpResponse.HttpResponse) (tid : Z)
    (t : Timestamp) (w : W C HttpContext S L U) (r : request_text) :
  let request := parsed HttpRequest_new t r in
  let resp := f request (HttpResponse.HttpResponse_new (isShortConn request)) in
  up tid w → state_ (conn w) = kConnected → output w = [] →
  context_ (conn w) = Some HttpContext_new →
  content (inputBuffer_ (conn w)) = message_text r → request_ok r →
  zlen (HttpResponse.body_ resp) < 10 ^ 13 →
  kCheapPrepend + zlen (HttpResponse.response_text resp) ≤ vector_max_size →
  ∃ w', onMessage bind_fn call (Some f) tid t w = Ok w' ∧ up tid w' ∧
    content (inputBuffer_ (conn w')) = [] ∧
    sk_sent (sock w') ++ output w' =
      sk_sent (sock w) ++ taken (HttpResponse.response_text resp) w ∧
    (state_ (conn w') = kConnected ↔ HttpResponse.closeConnection resp = false).
Proof. intros request resp. apply onMessage_serves. Qed.


(** The connection of TcpFlow's examples as the server's: [onConnection] gave it a fresh
    context.  [http_demo q] has [q] waiting in its input buffer. *)
Abbreviation http_W := (W nat HttpContext sim_socket demo_loop (list nat)).

Definition http_call (cb : nat) (arg : cb_arg) (w : http_W) : outcome http_W := Ok w.

Definition http_new : http_W :=
  let w := TcpConnection_ctor CbUser 500 50 (str "127.0.0.1:80#1") 7 200
    (mkSimSocket [] false 1000 (ReadvData [])) demo_loop_start [] in
  set_conn (setCallbacks (Some 0%nat) (Some 1%nat) (Some 2%nat) (Some 3%nat) (conn w)) w.

Definition http_up : http_W :=
  match establishConnection http_call 1 http_new with Ok w => w | Err _ => http_new end.

Lemma http_up_ok :
  up 1 http_up ∧ output http_up = [] ∧ state_ (conn http_up) = kConnected ∧
  sock http_up = mkSimSocket [] false 1000 (ReadvData []).
Proof.
  apply (establish_ok http_call 1 http_new http_up 0%nat);
    [apply wf_new|reflexivity|exact (demo_new_ready 1000 (ReadvData []))|
     reflexivity|reflexivity|reflexivity|reflexivity| |vm_compute; reflexivity].
  intros w. exists (usr w). by destruct w.
Qed.

Definition http_demo (q : list byte) : http_W :=
  let w := onConnection http_up in set_conn (set_input (buffer_of q) (conn w)) w.

Lemma http_wait (w : http_W) q :
  up 1 w → state_ (conn w) = kConnected → output w = [] → zlen q ≤ 2 ^ 32 →
  let w' := set_conn (set_input (buffer_of q) (conn (onConnection w))) (onConnection w) in
  up 1 w' ∧ state_ (conn w') = kConnected ∧ output w' = [] ∧
  context_ (conn w') = Some HttpContext_new ∧ content (inputBuffer_ (conn w')) = q.
Proof.
  intros Hup Hst Hout Hq. destruct (buffer_of_repr q Hq) as [Hwf Hc].
  assert (Hon : onConnection w = set_conn (setContext HttpContext_new (conn w)) w).
  { unfold onConnection, isConnected. by rewrite Hst. }
  rewrite Hon. split_and!; [apply up_set_input; [by apply up_setContext|done]|done..].
Qed.

Lemma http_demo_ok q :
  zlen q ≤ 2 ^ 32 →
  up 1 (http_demo q) ∧ state_ (conn (http_demo q)) = kConnected ∧ output (http_demo q) = [] ∧
  context_ (conn (http_demo q)) = Some HttpContext_new ∧ content (inputBuffer_ (conn (http_demo q))) = q.
Proof.
  destruct http_up_ok as (Hup & Hout & Hst & _). exact (http_wait http_up q Hup Hst Hout).
Qed.

(** A user's handler: 200 with the request's body. *)
Definition http_echo (q : HttpRequest) (r : HttpResponse.HttpResponse) : HttpResponse.HttpResponse :=
  HttpResponse.setBody (HttpResponse.setStateCode r HttpResponse.k200_Ok) (body_ q).

Lemma sample_short : zlen (message_text sample_request) ≤ 2 ^ 32.
Proof. vm_compute. discriminate. Qed.

Lemma http_request_served_witness :
  ∃ w', onMessage id http_call (Some http_echo) 1 invalid (http_demo (message_text sample_request)) = Ok w' ∧
    up 1 w' ∧ content (inputBuffer_ (conn w')) = [] ∧
    sk_sent (sock w') ++ output w' =
      sk_sent (sock (http_demo (message_text sample_request))) ++
      taken (HttpResponse.response_text (http_echo (parsed HttpRequest_new invalid sample_request)
        (HttpResponse.HttpResponse_new (isShortConn (parsed HttpRequest_new invalid sample_request)))))
        (http_demo (message_text sample_request)) ∧
    (state_ (conn w') = kConnected ↔
     HttpResponse.closeConnection (http_echo (parsed HttpRequest_new invalid sample_request)
        (HttpResponse.HttpResponse_new (isShortConn (parsed HttpRequest_new invalid sample_request)))) = false).
Proof.
  destruct (http_demo_ok (message_text sample_request) sample_short) as (Hup & Hst & Hout & Hctx & Hin).
  apply (http_request_served id http_call http_echo 1 invalid (http_demo (message_text sample_request))
    sample_request); [exact Hup|exact Hst|exact Hout|exact Hctx|exact Hin|exact sample_request_ok| |].
  - vm_compute. reflexivity.
  - vm_compute. discriminate.
Defined.

(** The request line alone moves the copied context on, and is taken out of the buffer. *)
Lemma parse_line_only b t r :
  wf b → content b = line_text r ++ CRLF → request_ok r →
  ∃ c b', parseRequest HttpContext_new b t = Ok (c, b', true) ∧ gotAll c = false ∧
    wf b' ∧ content b' = [].
Proof.
  intros Hwf Hb Hok.
  pose proof (parse_fuel_content b Hwf) as Hf.
  set (c := mkHttpContext (setReceiveTime (with_line HttpRequest_new r) t) kExpectHeaders).
  destruct (parseRequest_of_text HttpContext_new b t c [] true Hwf) as (b' & Hrun & Hwf' & Hc').
  { rewrite Hb. destruct (parse_fuel b) as [|[|n]] eqn:Efuel;
      [rewrite Hb, length_app in Hf; simpl in Hf; lia..|].
    rewrite text_loop_S. unfold text_iteration. cbn [parseState_ HttpContext_new].
    rewrite <- (app_nil_r CRLF), next_line_text by by apply line_no_cr.
    rewrite parseRequestLine_text by done. ok_simpl.
    by destruct n. }
  by exists c, b'.
Qed.

(** A header line is not a request line: what precedes its first space, if it has one,
    contains the colon. *)
Lemma header_not_request_line h :
  x20 ∉ h_field h →
  ∃ c, parseRequestLine HttpContext_new (header_bytes h) = Ok (c, false) ∧
    parseState_ c = kExpectRequestLine.
Proof.
  intros Hf. unfold parseRequestLine. case_match eqn:E; [by eexists|].
  apply Z.eqb_neq in E. unfold find_from in *. set (n := std_find x20 (header_bytes h)) in *.
  assert (Hm : method_of (slice 0 (0 + Z.of_nat n) (header_bytes h)) = kInvalid).
  { destruct (decide (method_of (slice 0 (0 + Z.of_nat n) (header_bytes h)) = kInvalid)) as [?|Hne]; [done|].
    apply method_of_valid in Hne. exfalso.
    apply (methodToString_clean (set_method HttpRequest_new
      (method_of (slice 0 (0 + Z.of_nat n) (header_bytes h)))) x3a); [auto|]. rewrite <- Hne.
    assert (Hn : (length (h_field h) < n)%nat).
    { subst n. unfold header_bytes. rewrite std_find_skip by done. simpl. lia. }
    unfold slice. rewrite Z.sub_0_r, Z.add_0_l, Nat2Z.id. simpl. rewrite ?drop_0.
    unfold header_bytes. rewrite take_app_ge by lia.
    destruct (n - length (h_field h))%nat as [|k] eqn:Ek; [lia|]. set_solver. }
  unfold setMethod. cbn [request_ HttpContext_new HttpRequest_new method_ set_method].
  rewrite Hm. change (bool_decide (kInvalid = kInvalid)) with true.
  cbn [assert_ mbind outcome_bind negb]. by eexists.
Qed.

Lemma parse_header_only b t h rest :
  wf b → content b = header_bytes h ++ CRLF ++ rest → header_ok h → x20 ∉ h_field h →
  ∃ c b', parseRequest HttpContext_new b t = Ok (c, b', false) ∧ gotAll c = false ∧ wf b'.
Proof.
  intros Hwf Hb Hok Hsp. pose proof (parse_fuel_content b Hwf) as Hf.
  destruct (header_not_request_line h Hsp) as (c & Hline & Hc).
  destruct (parseRequest_of_text HttpContext_new b t c (content b) false Hwf) as (b' & Hrun & Hwf' & _).
  { rewrite Hb. destruct (parse_fuel b) as [|n] eqn:Efuel; [lia|].
    rewrite text_loop_S. unfold text_iteration. cbn [parseState_ HttpContext_new].
    rewrite next_line_text by by apply header_bytes_no_cr.
    rewrite Hline. ok_simpl. by destruct n. }
  exists c, b'. split_and!; [done| |done]. unfold gotAll. by rewrite Hc.
Qed.

(** a request that arrives in two pieces is refused.  [onMessage] runs the parser on a
    copy of the connection's context, so when the first piece is the request line, that line
    is removed from the input buffer and forgotten; the header line that arrives next is
    read as a request line, answered with "400 Bad Request", and the connection is shut
    down - although the request is well formed, and the parser itself resumes correctly
    (HttpGrammar.parse_resumes). *)
Theorem split_request_rejected {C S L F G U} `{SocketLaws S} `{ReactorLaws L F G}
    (bind_fn : conn_fn C → G)
    (call : C → cb_arg → W C HttpContext S L U → outcome (W C HttpContext S L U))
    (cb : option (HttpRequest → HttpResponse.HttpResponse → HttpResponse.HttpResponse)) (tid : Z)
    (t : Timestamp) (w : W C HttpContext S L U) (r : request_text) (h : header_text) (rest : list byte) :
  up tid w → state_ (conn w) = kConnected → output w = [] →
  context_ (conn w) = Some HttpContext_new →
  content (inputBuffer_ (conn w)) = line_text r ++ CRLF → request_ok r →
  header_ok h → x20 ∉ h_field h →
  ∃ w1, onMessage bind_fn call cb tid t w = Ok w1 ∧ up tid w1 ∧
    content (inputBuffer_ (conn w1)) = [] ∧ sk_sent (sock w1) ++ output w1 = sk_sent (sock w) ∧
    ∀ b, wf b → content b = header_bytes h ++ CRLF ++ rest →
      ∃ w2, onMessage bind_fn call cb tid t (set_conn (set_input b (conn w1)) w1) = Ok w2 ∧
        up tid w2 ∧ state_ (conn w2) ≠ kConnected ∧
        sk_sent (sock w2) ++ output w2 = sk_sent (sock w) ++ taken bad_request w.
Proof.
  intros Hup Hst Hout Hctx Hin Hr Hh Hsp.
  destruct (parse_line_only (inputBuffer_ (conn w)) t r) as (c & b1 & Hrun & Hg & Hwf1 & Hc1);
    [apply (up_inv _ _ Hup)|done|done|].
  exists (set_conn (set_input b1 (conn w)) w). unfold onMessage. rewrite Hctx.
  ok_simpl. rewrite Hrun. ok_simpl. rewrite Hg.
  split_and!; [done|by apply up_set_input|done| |].
  { change (output (set_conn (set_input b1 (conn w)) w)) with (output w). by rewrite Hout, app_nil_r. }
  intros b Hb Hcb.
  destruct (parse_header_only b t h rest Hb Hcb Hh Hsp) as (c2 & b2 & Hrun2 & Hg2 & Hwf2).
  cbn [conn set_conn context_ set_input inputBuffer_]. rewrite Hctx. ok_simpl.
  rewrite Hrun2. ok_simpl. rewrite Hg2.
  set (w0 := set_conn (set_input b2 _) _).
  pose proof (up_set_input tid b2 _ (up_set_input tid b _ (up_set_input tid b1 w Hup Hwf1) Hb) Hwf2)
    as Hup0. fold w0 in Hup0.
  destruct (exec_send bind_fn call tid bad_request w0 Hup0) as (w1 & Hsend & Hup1 & _ & _ & Heq1);
    [vm_compute; discriminate|].
  destruct (exec_shutdown bind_fn call tid w1 Hup1) as (w2 & Hsh & Hup2 & _ & Heq2 & Hst2).
  rewrite Hsend. ok_simpl. rewrite Hsh. ok_simpl.
  exists w2. split_and!; try done. rewrite Heq2, Heq1.
  change (output w0) with (output w). change (sock w0) with (sock w). rewrite Hout, app_nil_r.
  f_equal. unfold event_taken. by rewrite bool_decide_eq_true_2.
Qed.

Definition first_piece : list byte := line_text sample_request ++ CRLF.

Lemma split_request_rejected_witness :
  ∃ w1, onMessage id http_call (Some http_echo) 1 invalid (http_demo first_piece) = Ok w1 ∧ up 1 w1 ∧
    content (inputBuffer_ (conn w1)) = [] ∧
    sk_sent (sock w1) ++ output w1 = sk_sent (sock (http_demo first_piece)) ∧
    ∀ b, wf b → content b = header_bytes (mkHeader (str "Host") 1 (str "a") 0) ++ CRLF ++ CRLF →
      ∃ w2, onMessage id http_call (Some http_echo) 1 invalid (set_conn (set_input b (conn w1)) w1) = Ok w2 ∧
        up 1 w2 ∧ state_ (conn w2) ≠ kConnected ∧
        sk_sent (sock w2) ++ output w2 =
          sk_sent (sock (http_demo first_piece)) ++ taken bad_request (http_demo first_piece).
Proof.
  assert (Hlen : zlen first_piece ≤ 2 ^ 32) by (vm_compute; discriminate).
  destruct (http_demo_ok first_piece Hlen) as (Hup & Hst & Hout & Hctx & Hin).
  apply (split_request_rejected id http_call (Some http_echo) 1 invalid (http_demo first_piece)
    sample_request (mkHeader (str "Host") 1 (str "a") 0) CRLF);
    [exact Hup|exact Hst|exact Hout|exact Hctx|exact Hin|exact sample_request_ok| |].
  - split; [apply (bool_decide_unpack _); vm_compute; exact I..|vm_compute; done].
  - apply (bool_decide_unpack _); vm_compute; exact I.
Defined.
