(* ===== verification/Monitor.v ===== *)
(** * Monitor: threads that share a mutex and condition variables

    A thread is represented by the point of its code it is at, a system of threads by the
    list of these points.  A critical section is one step, because the mutex is held; a
    wait on a condition variable is a point the thread stays at until [notify_one],
    [notify_all] or a spurious wakeup moves it on. *)
From S2P Require Import Prelude.

Section monitor.
Context {P : Type}.
Implicit Types (f : P → bool) (ts : list P) (p q : P).

(** How many threads are at such a point. *)
Definition count f ts : nat := length (List.filter f ts).

(** [notify_one]: some waiting thread goes on, if there is one.  [wake] gives the point a
    waiting thread goes on from. *)
Inductive notify_one (wake : P → option P) ts : list P → Prop :=
| notify_nobody : Forall (λ p, wake p = None) ts → notify_one wake ts ts
| notify_thread i p q : ts !! i = Some p → wake p = Some q → notify_one wake ts (<[i := q]> ts).

(** The first thread that waits is woken. *)
Fixpoint notify_first (wake : P → option P) ts : list P :=
  match ts with
  | [] => []
  | p :: ts => match wake p with Some q => q :: ts | None => p :: notify_first wake ts end
  end.

Lemma notify_first_one wake ts : notify_one wake ts (notify_first wake ts).
Proof.
  induction ts as [|p ts IH]; simpl; [by apply notify_nobody|].
  destruct (wake p) as [q|] eqn:E; [by apply (notify_thread wake (p :: ts) 0 p q)|].
  destruct IH as [Hall|i x y Hi Hy]; [by apply notify_nobody; constructor|].
  by apply (notify_thread wake (p :: ts) (S i) x y).
Qed.

Definition notify_all (wake : P → option P) ts : list P :=
  map (λ p, match wake p with Some q => q | None => p end) ts.

Definition waits (wake : P → option P) p : bool := match wake p with Some _ => true | None => false end.

Lemma count_insert f ts i p q :
  ts !! i = Some p →
  (count f (<[i := q]> ts) + Nat.b2n (f p) = count f ts + Nat.b2n (f q))%nat.
Proof.
  unfold count. revert i. induction ts as [|x ts IH]; intros [|i] Hi; simpl in *; try done.
  - injection Hi as ->. destruct (f p), (f q); simpl; lia.
  - specialize (IH i Hi). destruct (f x); simpl; lia.
Qed.

Lemma count_lookup f ts i p : ts !! i = Some p → f p = true → (0 < count f ts)%nat.
Proof.
  intros Hi Hf. unfold count. destruct (List.filter f ts) eqn:E; [|simpl; lia]. exfalso.
  assert (Hin : In p (List.filter f ts)).
  { apply filter_In. split; [|done]. by eapply list_elem_of_In, list_elem_of_lookup_2. }
  by rewrite E in Hin.
Qed.

Lemma count_pos f ts : (0 < count f ts)%nat → ∃ i p, ts !! i = Some p ∧ f p = true.
Proof.
  unfold count. destruct (List.filter f ts) as [|p l] eqn:E; [simpl; lia|]. intros _.
  assert (Hin : In p (List.filter f ts)) by (rewrite E; by left).
  apply filter_In in Hin as [Hin Hf]. apply list_elem_of_In, list_elem_of_lookup_1 in Hin as [i Hi].
  by exists i, p.
Qed.

Lemma count_zero f ts : Forall (λ p, f p = false) ts → count f ts = 0%nat.
Proof.
  intros Hall. destruct (decide (count f ts = 0%nat)) as [|Hne]; [done|].
  destruct (count_pos f ts ltac:(lia)) as (i & p & Hi & Hp).
  rewrite Forall_lookup in Hall. by rewrite (Hall _ _ Hi) in Hp.
Qed.

(** A thread that is woken is no longer waiting, and goes on at a point of [f]. *)
Lemma count_notify_one wake f ts ts' :
  notify_one wake ts ts' → (∀ p q, wake p = Some q → f p = false ∧ f q = true ∧ wake q = None) →
  (0 < count (waits wake) ts)%nat →
  count f ts' = S (count f ts) ∧ S (count (waits wake) ts') = count (waits wake) ts.
Proof.
  intros Hn Hw Hpos. destruct Hn as [Hall|i p q Hi Hq].
  - rewrite count_zero in Hpos; [lia|]. eapply Forall_impl; [exact Hall|]. intros p Hp. unfold waits.
    by rewrite Hp.
  - destruct (Hw _ _ Hq) as (Hp & Hfq & Hwq).
    pose proof (count_insert f ts i p q Hi) as H1.
    pose proof (count_insert (waits wake) ts i p q Hi) as H2. unfold waits at 2 4 in H2.
    rewrite Hp, Hfq in H1. rewrite Hq, Hwq in H2. simpl in *. lia.
Qed.

(** Points that are neither waited at nor woken to do not notice. *)
Lemma count_notify_other wake f ts ts' :
  notify_one wake ts ts' → (∀ p q, wake p = Some q → f p = f q) → count f ts' = count f ts.
Proof.
  intros Hn Hw. destruct Hn as [Hall|i p q Hi Hq]; [done|].
  pose proof (count_insert f ts i p q Hi) as H1. rewrite (Hw _ _ Hq) in H1. lia.
Qed.

Lemma count_notify_le wake f ts ts' :
  notify_one wake ts ts' → (∀ p q, wake p = Some q → f p = false) → (count f ts ≤ count f ts')%nat.
Proof.
  intros Hn Hw. destruct Hn as [Hall|i p q Hi Hq]; [done|].
  pose proof (count_insert f ts i p q Hi) as H1. rewrite (Hw _ _ Hq) in H1. simpl in H1. lia.
Qed.

Lemma notify_one_waiting_le wake ts ts' :
  notify_one wake ts ts' → (∀ p q, wake p = Some q → wake q = None) →
  (count (waits wake) ts' ≤ count (waits wake) ts)%nat.
Proof.
  intros Hn Hw. destruct Hn as [Hall|i p q Hi Hq]; [done|].
  pose proof (count_insert (waits wake) ts i p q Hi) as H1. unfold waits at 2 4 in H1.
  rewrite (Hw _ _ Hq), Hq in H1. simpl in H1. lia.
Qed.

(** While somebody still waits, the notification has moved another one on. *)
Lemma notify_one_wakes wake f ts ts' :
  notify_one wake ts ts' → (∀ p q, wake p = Some q → f p = false ∧ f q = true ∧ wake q = None) →
  (count (waits wake) ts' ≤ count (waits wake) ts)%nat ∧
  ((0 < count (waits wake) ts')%nat → count f ts' = S (count f ts)).
Proof.
  intros Hn Hw.
  assert (Hle : (count (waits wake) ts' ≤ count (waits wake) ts)%nat).
  { apply notify_one_waiting_le; [done|]. intros p q Hq. by apply Hw in Hq as (_ & _ & ->). }
  split; [done|]. intros Hpos. by destruct (count_notify_one wake f ts ts' Hn Hw); [lia|].
Qed.

Lemma notify_all_nobody wake ts :
  (∀ p q, wake p = Some q → wake q = None) → count (waits wake) (notify_all wake ts) = 0%nat.
Proof.
  intros Hw. apply count_zero, Forall_forall. intros p. unfold notify_all.
  rewrite list_elem_of_fmap. intros (x & -> & _). unfold waits.
  destruct (wake x) as [q|] eqn:E; [by rewrite (Hw _ _ E)|by rewrite E].
Qed.

Lemma count_notify_all wake f ts :
  (∀ p q, wake p = Some q → f p = f q) → count f (notify_all wake ts) = count f ts.
Proof.
  intros Hw. unfold count, notify_all. induction ts as [|x ts IH]; [done|]. simpl.
  destruct (wake x) as [q|] eqn:E; [rewrite <- (Hw _ _ E)|]; destruct (f x); simpl; by rewrite IH.
Qed.
(** What the threads hold at their points, and a sum over the points. *)
Definition gather {B} (h : P → list B) ts : list B := concat (map h ts).
Definition weigh (g : P → nat) ts : nat := sum_list_with g ts.

Lemma gather_insert {B} (h : P → list B) ts i p q :
  ts !! i = Some p → gather h (<[i := q]> ts) ++ h p ≡ₚ gather h ts ++ h q.
Proof.
  unfold gather. revert i. induction ts as [|x ts IH]; intros [|i] Hi; simpl in *; try done.
  - injection Hi as ->. solve_Permutation.
  - specialize (IH i Hi). by rewrite <- !app_assoc, IH.
Qed.

Lemma gather_same {B} (h : P → list B) ts i p q :
  ts !! i = Some p → h p = h q → gather h (<[i := q]> ts) = gather h ts.
Proof.
  intros Hi Hpq. unfold gather. revert i Hi. induction ts as [|x ts IH]; intros [|i] Hi; simpl in *; try done.
  - injection Hi as ->. by rewrite Hpq.
  - by rewrite (IH i Hi).
Qed.

Lemma gather_notify_one {B} (h : P → list B) wake ts ts' :
  notify_one wake ts ts' → (∀ p q, wake p = Some q → h p = h q) → gather h ts' = gather h ts.
Proof. intros [|i p q Hi Hq] Hw; [done|]. eapply gather_same; eauto. Qed.

Lemma gather_nil {B} (h : P → list B) ts : Forall (λ p, h p = []) ts → gather h ts = [].
Proof. unfold gather. induction 1 as [|p ts Hp _ IH]; [done|]. simpl. by rewrite Hp, IH. Qed.

Lemma weigh_insert g ts i p q : ts !! i = Some p → (weigh g (<[i := q]> ts) + g p = weigh g ts + g q)%nat.
Proof.
  unfold weigh. revert i. induction ts as [|x ts IH]; intros [|i] Hi; simpl in *; try done.
  - injection Hi as ->. lia.
  - specialize (IH i Hi). lia.
Qed.

Lemma weigh_lookup g ts i p : ts !! i = Some p → (g p ≤ weigh g ts)%nat.
Proof.
  unfold weigh. revert i. induction ts as [|x ts IH]; intros [|i] Hi; simpl in *; try done.
  - injection Hi as ->. lia.
  - specialize (IH i Hi). lia.
Qed.

Lemma weigh_notify_one g wake ts ts' :
  notify_one wake ts ts' → (∀ p q, wake p = Some q → g p = g q) → weigh g ts' = weigh g ts.
Proof.
  intros [|i p q Hi Hq] Hw; [done|]. pose proof (weigh_insert g ts i p q Hi) as H.
  rewrite (Hw _ _ Hq) in H. lia.
Qed.

Lemma weigh_notify_le g wake ts ts' :
  notify_one wake ts ts' → (∀ p q, wake p = Some q → (g q ≤ S (g p))%nat) → (weigh g ts' ≤ S (weigh g ts))%nat.
Proof.
  intros [|i p q Hi Hq] Hw; [lia|]. pose proof (weigh_insert g ts i p q Hi) as H. specialize (Hw _ _ Hq). lia.
Qed.

Lemma weigh_zero g ts : Forall (λ p, g p = 0%nat) ts → weigh g ts = 0%nat.
Proof. unfold weigh. induction 1 as [|p ts Hp _ IH]; [done|]. simpl. by rewrite Hp, IH. Qed.

Lemma weigh_app g ts ts' : weigh g (ts ++ ts') = (weigh g ts + weigh g ts')%nat.
Proof. apply sum_list_with_app. Qed.

Lemma count_weigh f ts : count f ts = weigh (λ p, Nat.b2n (f p)) ts.
Proof. unfold count, weigh. induction ts as [|x ts IH]; [done|]. simpl. destruct (f x); simpl; by rewrite <- IH. Qed.

Lemma count_le f g ts : (∀ p, f p = true → g p = true) → (count f ts ≤ count g ts)%nat.
Proof.
  intros Hfg. rewrite !count_weigh. unfold weigh. induction ts as [|x ts IH]; [done|]. simpl.
  specialize (Hfg x). destruct (f x), (g x); simpl; lia || by discriminate (Hfg eq_refl).
Qed.

Lemma count_ext_in f g ts : (∀ i p, ts !! i = Some p → f p = g p) → count f ts = count g ts.
Proof.
  rewrite !count_weigh. unfold weigh. induction ts as [|x ts IH]; [done|]. intros Hfg. simpl.
  rewrite (Hfg 0%nat x eq_refl), IH; [done|]. intros i p Hi. by apply (Hfg (S i)).
Qed.

Lemma count_all f g ts : (∀ p, f p = true → g p = true) → count f ts = count g ts →
  ∀ i p, ts !! i = Some p → g p = true → f p = true.
Proof.
  intros Hfg. induction ts as [|x ts IH]; [done|]. pose proof (count_le f g ts Hfg) as Hle.
  unfold count in *. simpl. intros Heq [|i] p Hi Hp.
  - injection Hi as ->. rewrite Hp in Heq. destruct (f p); simpl in *; [done|lia].
  - apply (IH ltac:(specialize (Hfg x); destruct (f x), (g x); simpl in *; lia || by discriminate (Hfg eq_refl)) i p Hi Hp).
Qed.

Lemma count_orb f g ts : (count (λ p, f p || g p) ts ≤ count f ts + count g ts)%nat ∧
  ((0 < count f ts + count g ts)%nat → (0 < count (λ p, f p || g p) ts)%nat).
Proof.
  unfold count. induction ts as [|p ts IH]; simpl; [lia|]. destruct (f p), (g p); simpl; lia.
Qed.

Lemma count_app f ts ts' : count f (ts ++ ts') = (count f ts + count f ts')%nat.
Proof. by rewrite !count_weigh, weigh_app. Qed.

Lemma count_replicate f n p : count f (replicate n p) = if f p then n else 0%nat.
Proof. unfold count. induction n as [|n IH]; simpl; [by destruct (f p)|]. destruct (f p); simpl; lia. Qed.
End monitor.

(** Thread [i] moves on to [q]: how the number of threads at points of [f] changes. *)
Tactic Notation "count_move" uconstr(f) hyp(Hi) constr(q) :=
  match type of Hi with ?ts !! ?i = Some ?p => pose proof (count_insert f ts i p q Hi) end.
