(* ===== verification/BlockingQueues.v ===== *)
(** * BlockingQueues: src/ham/base/BoundedBlockingQueue.h and BlockingQueue.h

    Both queues as transition systems over any number of threads.  The circular buffer of
    the bounded queue is Boost's, an interface with the documented laws. *)
From S2P Require Import Prelude Monitor.

(** ** boost::circular_buffer *)
Class CircularBuffer (B T : Type) := {
  cb_list : B → list T;
  cb_capacity : B → nat;
  cb_full : B → bool;
  cb_empty : B → bool;
  cb_size : B → nat;
  cb_push_back : T → B → B;
  cb_front : B → option T;
  cb_pop_front : B → B
}.

Class CircularBufferLaws (B T : Type) `{CircularBuffer B T} : Prop := {
  cb_full_spec b : cb_full b = (cb_capacity b <=? length (cb_list b))%nat;
  cb_empty_spec b : cb_empty b = match cb_list b with [] => true | _ => false end;
  cb_size_spec b : cb_size b = length (cb_list b);
  cb_push_spec x b : cb_full b = false →
    cb_list (cb_push_back x b) = cb_list b ++ [x] ∧ cb_capacity (cb_push_back x b) = cb_capacity b;
  cb_front_spec b : cb_front b = head (cb_list b);
  cb_pop_spec b : cb_empty b = false →
    cb_list (cb_pop_front b) = tail (cb_list b) ∧ cb_capacity (cb_pop_front b) = cb_capacity b
}.

#[export] Instance list_buffer {T} : CircularBuffer (nat * list T) T := {|
  cb_list b := b.2;
  cb_capacity b := b.1;
  cb_full b := (b.1 <=? length b.2)%nat;
  cb_empty b := match b.2 with [] => true | _ => false end;
  cb_size b := length b.2;
  cb_push_back x b := (b.1, if (b.1 <=? length b.2)%nat then tail b.2 ++ [x] else b.2 ++ [x]);
  cb_front b := head b.2;
  cb_pop_front b := (b.1, tail b.2) |}.

#[export] Instance list_buffer_laws {T} : CircularBufferLaws (nat * list T) T.
Proof. split; try done. intros x b. simpl. by intros ->. Qed.

(** ** The points of a thread's code *)
Inductive bq_pc (T : Type) :=
| Idle
| PutTry (x : T)      (* in put, at the loop's condition, with the mutex *)
| PutWait (x : T)     (* in notFull_.wait *)
| PutNotify           (* in BlockingQueue::put, after the unlock *)
| TakeTry
| TakeWait.           (* in notEmpty_.wait *)
Arguments Idle {T}. Arguments PutTry {T}. Arguments PutWait {T}. Arguments PutNotify {T}.
Arguments TakeTry {T}. Arguments TakeWait {T}.

Definition wake_taker {T} (p : bq_pc T) : option (bq_pc T) :=
  match p with TakeWait => Some TakeTry | _ => None end.
Definition wake_putter {T} (p : bq_pc T) : option (bq_pc T) :=
  match p with PutWait x => Some (PutTry x) | _ => None end.
Definition taking {T} (p : bq_pc T) : bool := match p with TakeTry => true | _ => false end.
Definition putting {T} (p : bq_pc T) : bool := match p with PutTry _ => true | _ => false end.
Definition notifying {T} (p : bq_pc T) : bool := match p with PutNotify => true | _ => false end.

(** The queue with its threads and, as history, what was put and what was taken. *)
Record bq (B T : Type) := mkBq {
  queue_ : B;
  threads : list (bq_pc T);
  put_log : list T;
  take_log : list T
}.
Arguments mkBq {B T}. Arguments queue_ {B T}. Arguments threads {B T}. Arguments put_log {B T}.
Arguments take_log {B T}.

(** ** BoundedBlockingQueue *)
Section bounded.
Context {B T : Type} `{CircularBufferLaws B T}.
Implicit Types s : bq B T.

Definition set_threads (ts : list (bq_pc T)) s : bq B T := mkBq (queue_ s) ts (put_log s) (take_log s).

(** The critical section of [put], from the condition of its loop to the unlock or the wait:
    [None] when the thread has to wait. *)
Definition put_section (x : T) s : option (bq B T) :=
  if cb_full (queue_ s) then None
  else Some (mkBq (cb_push_back x (queue_ s)) (threads s) (put_log s ++ [x]) (take_log s)).

Definition take_section s : option (T * bq B T) :=
  if cb_empty (queue_ s) then None
  else match cb_front (queue_ s) with
       | Some x => Some (x, mkBq (cb_pop_front (queue_ s)) (threads s) (put_log s) (take_log s ++ [x]))
       | None => None
       end.

Definition size s : nat := cb_size (queue_ s).
Definition capacity s : nat := cb_capacity (queue_ s).
Definition full s : bool := cb_full (queue_ s).
Definition empty s : bool := cb_empty (queue_ s).

Inductive bounded_step s : bq B T → Prop :=
| call_put i x : threads s !! i = Some Idle →
    bounded_step s (set_threads (<[i := PutTry x]> (threads s)) s)
| put_done i x s' ts : threads s !! i = Some (PutTry x) → put_section x s = Some s' →
    notify_one wake_taker (<[i := Idle]> (threads s)) ts → bounded_step s (set_threads ts s')
| put_blocks i x : threads s !! i = Some (PutTry x) → put_section x s = None →
    bounded_step s (set_threads (<[i := PutWait x]> (threads s)) s)
| call_take i : threads s !! i = Some Idle →
    bounded_step s (set_threads (<[i := TakeTry]> (threads s)) s)
| take_done i x s' ts : threads s !! i = Some TakeTry → take_section s = Some (x, s') →
    notify_one wake_putter (<[i := Idle]> (threads s)) ts → bounded_step s (set_threads ts s')
| take_blocks i : threads s !! i = Some TakeTry → take_section s = None →
    bounded_step s (set_threads (<[i := TakeWait]> (threads s)) s)
| spurious i p q : threads s !! i = Some p → (wake_taker p = Some q ∨ wake_putter p = Some q) →
    bounded_step s (set_threads (<[i := q]> (threads s)) s).

Definition bounded_start (b : B) (n : nat) : bq B T := mkBq b (replicate n Idle) [] [].

(** ** The invariant *)
Record bounded_inv s : Prop := {
  bi_bound : (length (cb_list (queue_ s)) ≤ cb_capacity (queue_ s))%nat;
  bi_fifo : take_log s ++ cb_list (queue_ s) = put_log s;
  bi_takers : (0 < count (waits wake_taker) (threads s))%nat →
    (length (cb_list (queue_ s)) ≤ count taking (threads s))%nat;
  bi_putters : (0 < count (waits wake_putter) (threads s))%nat →
    (cb_capacity (queue_ s) ≤ length (cb_list (queue_ s)) + count putting (threads s))%nat
}.

Lemma put_section_Some x s s' :
  put_section x s = Some s' →
  (length (cb_list (queue_ s)) < cb_capacity (queue_ s))%nat ∧
  cb_list (queue_ s') = cb_list (queue_ s) ++ [x] ∧ cb_capacity (queue_ s') = cb_capacity (queue_ s) ∧
  put_log s' = put_log s ++ [x] ∧ take_log s' = take_log s.
Proof.
  unfold put_section. destruct (cb_full (queue_ s)) eqn:Hf; [done|]. intros [= <-]. simpl.
  destruct (cb_push_spec x _ Hf) as [-> ->]. rewrite cb_full_spec in Hf. apply Nat.leb_gt in Hf.
  by split_and!.
Qed.

Lemma take_section_Some x s s' :
  take_section s = Some (x, s') →
  cb_list (queue_ s) = x :: cb_list (queue_ s') ∧ cb_capacity (queue_ s') = cb_capacity (queue_ s) ∧
  put_log s' = put_log s ∧ take_log s' = take_log s ++ [x].
Proof.
  unfold take_section. destruct (cb_empty (queue_ s)) eqn:He; [done|]. rewrite cb_front_spec.
  destruct (cb_pop_spec _ He) as [Hl Hc]. destruct (cb_list (queue_ s)) as [|y l]; [done|]. simpl.
  intros [= -> <-]. simpl. by rewrite Hl, Hc.
Qed.

(** The four counters after thread [i] moved to [q]. *)
Ltac counts Hi q :=
  count_move taking Hi q; count_move putting Hi q;
  count_move (waits wake_taker) Hi q; count_move (waits wake_putter) Hi q;
  cbn [taking putting waits wake_taker wake_putter Nat.b2n] in *.

Lemma wake_taker_ok (p q : bq_pc T) :
  wake_taker p = Some q → taking p = false ∧ taking q = true ∧ wake_taker q = None.
Proof. destruct p; simpl; try done. by intros [= <-]. Qed.
Lemma wake_putter_ok (p q : bq_pc T) :
  wake_putter p = Some q → putting p = false ∧ putting q = true ∧ wake_putter q = None.
Proof. destruct p; simpl; try done. by intros [= <-]. Qed.

(** What a [notify_one] of the takers does to the counters, and the same for the putters. *)
Lemma notify_takers ts ts' : notify_one (wake_taker (T := T)) ts ts' →
  count putting ts' = count putting ts ∧ count (waits wake_putter) ts' = count (waits wake_putter) ts ∧
  (count (waits wake_taker) ts' ≤ count (waits wake_taker) ts)%nat ∧
  ((0 < count (waits wake_taker) ts')%nat → count taking ts' = S (count taking ts)).
Proof.
  intros Hn. split; [|split; [|exact (notify_one_wakes _ _ _ _ Hn wake_taker_ok)]];
    (apply (count_notify_other wake_taker); [done|]); intros [] q; simpl; try done; by intros [= <-].
Qed.

Lemma notify_putters ts ts' : notify_one (wake_putter (T := T)) ts ts' →
  count taking ts' = count taking ts ∧ count (waits wake_taker) ts' = count (waits wake_taker) ts ∧
  (count (waits wake_putter) ts' ≤ count (waits wake_putter) ts)%nat ∧
  ((0 < count (waits wake_putter) ts')%nat → count putting ts' = S (count putting ts)).
Proof.
  intros Hn. split; [|split; [|exact (notify_one_wakes _ _ _ _ Hn wake_putter_ok)]];
    (apply (count_notify_other wake_putter); [done|]); intros [] q; simpl; try done; by intros [= <-].
Qed.

Lemma bounded_inv_step s s' : bounded_inv s → bounded_step s s' → bounded_inv s'.
Proof.
  intros [Hb Hf Ht Hp] Hstep.
  destruct Hstep as [i x Hi|i x s' ts Hi Hsec Hn|i x Hi Hsec|i Hi|i x s' ts Hi Hsec Hn|i Hi Hsec|i p q Hi Hw].
  - counts Hi (PutTry x). split; simpl; try done; intros; lia.
  - counts Hi (@Idle T). apply put_section_Some in Hsec as (Hroom & Hl & Hc & Hpl & Htl).
    destruct (notify_takers _ _ Hn) as (Hn1 & Hn2 & Hn3 & Hn4).
    split; simpl; rewrite ?Hl, ?Hc, ?Hpl, ?Htl, ?length_app; simpl.
    + lia.
    + by rewrite app_assoc, Hf.
    + intros Hpos. specialize (Hn4 Hpos). lia.
    + lia.
  - counts Hi (PutWait x). unfold put_section in Hsec. destruct (cb_full (queue_ s)) eqn:E; [|done].
    rewrite cb_full_spec in E. apply Nat.leb_le in E. split; simpl; try done; intros; lia.
  - counts Hi (@TakeTry T). split; simpl; try done; intros; lia.
  - counts Hi (@Idle T). apply take_section_Some in Hsec as (Hl & Hc & Hpl & Htl).
    destruct (notify_putters _ _ Hn) as (Hn1 & Hn2 & Hn3 & Hn4). rewrite Hl in *. simpl in *.
    split; simpl; rewrite ?Hc, ?Hpl, ?Htl.
    + lia.
    + by rewrite <- app_assoc.
    + lia.
    + intros Hpos. specialize (Hn4 Hpos). lia.
  - counts Hi (@TakeWait T). unfold take_section in Hsec. rewrite cb_front_spec in Hsec.
    pose proof (cb_empty_spec (queue_ s)) as He.
    destruct (cb_list (queue_ s)) as [|y l] eqn:El; rewrite He in Hsec; [|done].
    split; simpl; rewrite ?El; simpl in *; try done; intros; lia.
  - destruct p; destruct Hw as [[= <-]|[= <-]].
    + counts Hi (PutTry x). split; simpl; try done; intros; lia.
    + counts Hi (@TakeTry T). split; simpl; try done; intros; lia.
Qed.

Lemma count_replicate_idle (f : bq_pc T → bool) n : f Idle = false → count f (replicate n Idle) = 0%nat.
Proof. intros Hf. apply count_zero, Forall_replicate. done. Qed.

Lemma bounded_inv_start b n : cb_list b = [] → bounded_inv (bounded_start b n).
Proof.
  intros Hb. split; simpl; rewrite ?Hb; simpl; try done; [lia|..];
    rewrite count_replicate_idle by done; lia.
Qed.

Lemma bounded_reachable b n s : cb_list b = [] → rtc bounded_step (bounded_start b n) s → bounded_inv s.
Proof.
  intros Hb Hr. revert Hr. apply (rtc_ind_r bounded_inv (R := bounded_step)).
  - by apply bounded_inv_start.
  - intros y z _ Hstep Hinv. by eapply bounded_inv_step.
Qed.
End bounded.

(** C13: the bounded queue.  In every interleaving of any number of threads that put and take
    (with spurious wakeups), the queue never holds more than its capacity; what was taken
    followed by what is queued is exactly what was put, in order; and no thread is stuck:
    when a thread waits to take while an element is queued, another thread has been woken
    and is about to take, and when a thread waits to put while there is room, another one
    has been woken and is about to put. *)
Theorem bounded_queue_correct {B T} `{CircularBufferLaws B T} (b : B) (n : nat) (s : bq B T) :
  cb_list b = [] → rtc bounded_step (bounded_start b n) s →
  (size s ≤ capacity s)%nat ∧ take_log s ++ cb_list (queue_ s) = put_log s ∧
  ((∃ i, threads s !! i = Some TakeWait) → empty s = false →
     ∃ j, threads s !! j = Some TakeTry) ∧
  ((∃ i x, threads s !! i = Some (PutWait x)) → full s = false →
     ∃ j x, threads s !! j = Some (PutTry x)).
Proof.
  intros Hb [Hbound Hfifo Ht Hp]%bounded_reachable; [|done]. unfold size, capacity, empty, full.
  rewrite cb_size_spec, cb_empty_spec, cb_full_spec. split_and!; [done|done| |].
  - intros [i Hi] Hne.
    destruct (count_pos taking (threads s)) as (j & p & Hj & Hjp).
    { pose proof (count_lookup (waits wake_taker) (threads s) i _ Hi eq_refl) as Hpos.
      specialize (Ht Hpos). destruct (cb_list (queue_ s)); [done|simpl in Ht; lia]. }
    exists j. by destruct p.
  - intros (i & x & Hi) Hroom%Nat.leb_gt.
    destruct (count_pos putting (threads s)) as (j & p & Hj & Hjp).
    { pose proof (count_lookup (waits wake_putter) (threads s) i _ Hi eq_refl) as Hpos.
      specialize (Hp Hpos). lia. }
    exists j. destruct p; try done. by eexists.
Qed.

(** Capacity 1 and three threads: the first puts 7, the second waits to put 8, the third is
    about to take. *)
Definition crowded : bq (nat * list nat) nat :=
  mkBq (1%nat, [7%nat]) [Idle; PutWait 8%nat; TakeTry] [7%nat] [].

Lemma crowded_reachable : rtc bounded_step (bounded_start (1%nat, []) 3) crowded.
Proof.
  eapply rtc_l; [apply (call_put _ 0 7%nat); reflexivity|].
  eapply rtc_l; [eapply (put_done _ 0 7%nat); [reflexivity|reflexivity|apply notify_nobody; repeat constructor]|].
  eapply rtc_l; [apply (call_put _ 1 8%nat); reflexivity|].
  eapply rtc_l; [apply (put_blocks _ 1 8%nat); reflexivity|].
  eapply rtc_l; [apply (call_take _ 2); reflexivity|]. apply rtc_refl.
Qed.

Lemma bounded_queue_correct_witness :
  (size crowded ≤ capacity crowded)%nat ∧ take_log crowded ++ cb_list (queue_ crowded) = put_log crowded ∧
  ((∃ i, threads crowded !! i = Some TakeWait) → empty crowded = false →
     ∃ j, threads crowded !! j = Some TakeTry) ∧
  ((∃ i x, threads crowded !! i = Some (PutWait x)) → full crowded = false →
     ∃ j x, threads crowded !! j = Some (PutTry x)).
Proof. exact (bounded_queue_correct (1%nat, []) 3 crowded eq_refl crowded_reachable). Defined.

(** ** BlockingQueue

    Unbounded, on a [std::deque]; [put] notifies after it has released the mutex. *)
Section unbounded.
Context {T : Type}.
Abbreviation ubq := (bq (list T) T).
Implicit Types s : ubq.

Definition put (x : T) s : ubq := mkBq (queue_ s ++ [x]) (threads s) (put_log s ++ [x]) (take_log s).
Definition take s : option (T * ubq) :=
  match queue_ s with
  | x :: q => Some (x, mkBq q (threads s) (put_log s) (take_log s ++ [x]))
  | [] => None
  end.
Definition unbounded_size s : nat := length (queue_ s).

Inductive unbounded_step s : ubq → Prop :=
| u_call_put i x : threads s !! i = Some Idle →
    unbounded_step s (set_threads (<[i := PutTry x]> (threads s)) s)
| u_put i x : threads s !! i = Some (PutTry x) →
    unbounded_step s (set_threads (<[i := PutNotify]> (threads s)) (put x s))
| u_notify i ts : threads s !! i = Some PutNotify →
    notify_one wake_taker (<[i := Idle]> (threads s)) ts → unbounded_step s (set_threads ts s)
| u_call_take i : threads s !! i = Some Idle →
    unbounded_step s (set_threads (<[i := TakeTry]> (threads s)) s)
| u_take i x s' : threads s !! i = Some TakeTry → take s = Some (x, s') →
    unbounded_step s (set_threads (<[i := Idle]> (threads s)) s')
| u_take_blocks i : threads s !! i = Some TakeTry → take s = None →
    unbounded_step s (set_threads (<[i := TakeWait]> (threads s)) s)
| u_spurious i : threads s !! i = Some TakeWait →
    unbounded_step s (set_threads (<[i := TakeTry]> (threads s)) s).

Record unbounded_inv s : Prop := {
  ui_fifo : take_log s ++ queue_ s = put_log s;
  ui_takers : (0 < count (waits wake_taker) (threads s))%nat →
    (length (queue_ s) ≤ count taking (threads s) + count notifying (threads s))%nat
}.

Ltac counts Hi q :=
  count_move taking Hi q; count_move notifying Hi q;
  count_move (waits wake_taker) Hi q;
  cbn [taking notifying waits wake_taker Nat.b2n] in *.

Lemma unbounded_inv_step s s' : unbounded_inv s → unbounded_step s s' → unbounded_inv s'.
Proof.
  intros [Hf Ht] Hstep.
  destruct Hstep as [i x Hi|i x Hi|i ts Hi Hn|i Hi|i x s' Hi Hsec|i Hi Hsec|i Hi].
  - counts Hi (PutTry x). split; simpl; try done; intros; lia.
  - counts Hi (@PutNotify T). split; simpl; [by rewrite app_assoc, Hf|].
    rewrite length_app. simpl. intros; lia.
  - counts Hi (@Idle T). destruct (notify_takers _ _ Hn) as (_ & _ & Hle & Hup).
    assert (count notifying ts = count notifying (<[i := Idle]> (threads s))) as Hnot.
    { apply (count_notify_other wake_taker); [done|]. intros [] q; simpl; try done. by intros [= <-]. }
    split; simpl; [done|]. intros Hpos. specialize (Hup Hpos). lia.
  - counts Hi (@TakeTry T). split; simpl; try done; intros; lia.
  - counts Hi (@Idle T). unfold take in Hsec. destruct (queue_ s) as [|y q] eqn:Eq; [done|].
    injection Hsec as -> <-. simpl in *. split; simpl; [by rewrite <- app_assoc|intros; lia].
  - counts Hi (@TakeWait T). unfold take in Hsec. destruct (queue_ s) eqn:Eq; [|done].
    split; simpl; rewrite ?Eq; simpl; try done; intros; lia.
  - counts Hi (@TakeTry T). split; simpl; try done; intros; lia.
Qed.
End unbounded.

(** the unbounded queue.  In every interleaving, what was taken followed by what is queued
    is what was put, in order; and no wakeup is lost: while a thread waits to take and the
    queue is not empty, another thread is about to take or about to notify. *)
Theorem blocking_queue_correct {T} (n : nat) (s : bq (list T) T) :
  rtc unbounded_step (mkBq [] (replicate n Idle) [] []) s →
  take_log s ++ queue_ s = put_log s ∧
  ((∃ i, threads s !! i = Some TakeWait) → queue_ s ≠ [] →
     ∃ j p, threads s !! j = Some p ∧ (p = TakeTry ∨ p = PutNotify)).
Proof.
  intros Hr.
  assert (unbounded_inv s) as [Hf Ht].
  { revert Hr. apply (rtc_ind_r unbounded_inv (R := unbounded_step)).
    - split; simpl; [done|]. rewrite !count_replicate_idle by done. lia.
    - intros y z _ Hstep Hinv. by eapply unbounded_inv_step. }
  split; [done|]. intros [i Hi] Hne.
  pose proof (count_lookup (waits wake_taker) (threads s) i _ Hi eq_refl) as Hpos. specialize (Ht Hpos).
  assert (0 < count taking (threads s) ∨ 0 < count notifying (threads s))%nat as [Hc|Hc].
  { destruct (queue_ s); [done|]. simpl in Ht. lia. }
  - apply count_pos in Hc as (j & p & Hj & Hp). exists j, p. split; [done|]. destruct p; auto; done.
  - apply count_pos in Hc as (j & p & Hj & Hp). exists j, p. split; [done|]. destruct p; auto; done.
Qed.

(** A taker waits while a putter has pushed and not yet notified. *)
Lemma blocking_queue_correct_witness :
  take_log (mkBq [5%nat] [PutNotify; TakeWait] [5%nat] []) ++ [5%nat] = [5%nat] ∧
  ((∃ i, threads (mkBq [5%nat] [PutNotify; TakeWait] [5%nat] []) !! i = Some TakeWait) → [5%nat] ≠ [] →
     ∃ j p, threads (mkBq [5%nat] [PutNotify; TakeWait] [5%nat] []) !! j = Some p ∧
       (p = TakeTry ∨ p = PutNotify)).
Proof.
  apply (blocking_queue_correct 2 (mkBq [5%nat] [PutNotify; TakeWait] [5%nat] [])).
  eapply rtc_l; [apply (u_call_take _ 1); reflexivity|].
  eapply rtc_l; [apply (u_take_blocks _ 1); reflexivity|].
  eapply rtc_l; [apply (u_call_put _ 0 5%nat); reflexivity|].
  eapply rtc_l; [apply (u_put _ 0 5%nat); reflexivity|]. apply rtc_refl.
Defined.
