(* ===== verification/CountDownLatch.v ===== *)
(** * CountDownLatch: src/ham/base/CountDownLatch.h and CountDownLatch.cc

    [countdown] decrements under the mutex and then, after releasing it, reads [count_]
    again to decide whether to notify: two steps of the model. *)
From S2P Require Import Prelude Monitor.

Inductive latch_pc :=
| Idle
| WaitTry      (* in wait, at the loop's condition, with the mutex *)
| WaitBlocked  (* in cond_.wait *)
| Down         (* in countdown, before the lock *)
| DownCheck.   (* in countdown, after the unlock, before the test *)

Definition wake_waiter (p : latch_pc) : option latch_pc :=
  match p with WaitBlocked => Some WaitTry | _ => None end.
Definition checking (p : latch_pc) : bool := match p with DownCheck => true | _ => false end.

Record latch := mkLatch {
  count_ : Z;
  threads : list latch_pc;
  downs : Z;       (* history: how many countdowns have decremented *)
  passed : list Z  (* history: the number of countdowns each wait had seen when it returned *)
}.

Definition CountDownLatch_ctor (n : Z) (threads : nat) : latch := mkLatch n (replicate threads Idle) 0 [].
Definition set_threads (ts : list latch_pc) (s : latch) : latch := mkLatch (count_ s) ts (downs s) (passed s).

(** One test of the loop of [wait]: does it return? *)
Definition wait_passes (s : latch) : bool := negb (0 <? count_ s).
Definition decrement (s : latch) : latch := mkLatch (count_ s - 1) (threads s) (downs s + 1) (passed s).
Definition check_zero (s : latch) : latch :=
  if 0 =? count_ s then set_threads (notify_all wake_waiter (threads s)) s else s.
Definition log_pass (s : latch) : latch := mkLatch (count_ s) (threads s) (downs s) (passed s ++ [downs s]).
Definition getCount (s : latch) : Z := count_ s.

Inductive latch_step (s : latch) : latch → Prop :=
| call_wait i : threads s !! i = Some Idle → latch_step s (set_threads (<[i := WaitTry]> (threads s)) s)
| wait_done i : threads s !! i = Some WaitTry → wait_passes s = true →
    latch_step s (log_pass (set_threads (<[i := Idle]> (threads s)) s))
| wait_blocks i : threads s !! i = Some WaitTry → wait_passes s = false →
    latch_step s (set_threads (<[i := WaitBlocked]> (threads s)) s)
| wait_spurious i : threads s !! i = Some WaitBlocked →
    latch_step s (set_threads (<[i := WaitTry]> (threads s)) s)
| call_down i : threads s !! i = Some Idle → latch_step s (set_threads (<[i := Down]> (threads s)) s)
| down_locked i : threads s !! i = Some Down →
    latch_step s (decrement (set_threads (<[i := DownCheck]> (threads s)) s))
| down_check i : threads s !! i = Some DownCheck →
    latch_step s (check_zero (set_threads (<[i := Idle]> (threads s)) s)).

Record latch_inv (n : Z) (s : latch) : Prop := {
  li_count : count_ s + downs s = n;
  li_passed : Forall (λ d, n ≤ d) (passed s);
  li_wake : count_ s = 0 → (0 < count (waits wake_waiter) (threads s))%nat →
    (0 < count checking (threads s))%nat
}.

Ltac counts Hi q :=
  count_move checking Hi q;
  count_move (waits wake_waiter) Hi q;
  cbn [checking waits wake_waiter Nat.b2n] in *.

Lemma latch_inv_step n s s' : latch_inv n s → latch_step s s' → latch_inv n s'.
Proof.
  intros [Hc Hp Hw] Hstep. destruct Hstep as [i Hi|i Hi Hgo|i Hi Hgo|i Hi|i Hi|i Hi|i Hi].
  - counts Hi WaitTry. split; simpl; try done; intros; lia.
  - counts Hi Idle. unfold wait_passes in Hgo. apply negb_true_iff, Z.ltb_ge in Hgo.
    split; simpl; [done| |intros; lia]. apply Forall_app. split; [done|]. repeat constructor. lia.
  - counts Hi WaitBlocked. unfold wait_passes in Hgo. apply negb_false_iff, Z.ltb_lt in Hgo.
    split; simpl; try done; intros; lia.
  - counts Hi WaitTry. split; simpl; try done; intros; lia.
  - counts Hi Down. split; simpl; try done; intros; lia.
  - counts Hi DownCheck. split; simpl; [lia|done|intros; lia].
  - counts Hi Idle. unfold check_zero. cbn [count_ set_threads].
    destruct (Z.eqb_spec 0 (count_ s)) as [Hz|Hz].
    + split; simpl; try done. rewrite notify_all_nobody; [lia|]. intros [] q; simpl; try done.
      by intros [= <-].
    + split; simpl; try done; intros; lia.
Qed.

Lemma latch_reachable n k s : rtc latch_step (CountDownLatch_ctor n k) s → latch_inv n s.
Proof.
  apply (rtc_ind_r (latch_inv n) (R := latch_step)).
  - split; simpl; [lia|constructor|]. intros _ Hpos. rewrite count_zero in Hpos; [lia|].
    by apply Forall_replicate.
  - intros y z _ Hstep Hinv. by eapply latch_inv_step.
Qed.

(** ** Properties *)

(** C33: the latch.  In every interleaving, no [wait] returns before n countdowns have
    decremented; [getCount] is n minus their number; and once the count is zero, no waiter
    is forgotten: while one is blocked, a countdown is still about to notify everybody. *)
Theorem latch_correct (n : Z) (k : nat) (s : latch) :
  rtc latch_step (CountDownLatch_ctor n k) s →
  Forall (λ d, n ≤ d) (passed s) ∧ getCount s = n - downs s ∧
  (getCount s = 0 → (∃ i, threads s !! i = Some WaitBlocked) → ∃ j, threads s !! j = Some DownCheck).
Proof.
  intros [Hc Hp Hw]%latch_reachable. unfold getCount. split_and!; [done|lia|].
  intros Hz [i Hi]. pose proof (count_lookup (waits wake_waiter) (threads s) i _ Hi eq_refl) as Hpos.
  destruct (count_pos _ _ (Hw Hz Hpos)) as (j & p & Hj & Hjp). exists j. by destruct p.
Qed.

Lemma latch_correct_witness :
  Forall (λ d, 1 ≤ d) [] ∧ getCount (mkLatch 0 [WaitBlocked; DownCheck] 1 []) = 1 - 1 ∧
  (getCount (mkLatch 0 [WaitBlocked; DownCheck] 1 []) = 0 →
     (∃ i, threads (mkLatch 0 [WaitBlocked; DownCheck] 1 []) !! i = Some WaitBlocked) →
     ∃ j, threads (mkLatch 0 [WaitBlocked; DownCheck] 1 []) !! j = Some DownCheck).
Proof.
  apply (latch_correct 1 2 (mkLatch 0 [WaitBlocked; DownCheck] 1 [])).
  eapply rtc_l; [apply (call_wait _ 0); reflexivity|].
  eapply rtc_l; [apply (wait_blocks _ 0); reflexivity|].
  eapply rtc_l; [apply (call_down _ 1); reflexivity|].
  eapply rtc_l; [apply (down_locked _ 1); reflexivity|]. apply rtc_refl.
Defined.

(** one countdown too many can strand a waiter.  With a count of 1, one waiter and two
    countdowns, both decrements can come before either test; both tests then read -1, and
    nobody notifies: the waiter stays blocked with no countdown under way, although the
    latch is open. *)
Theorem extra_countdown_strands_waiter :
  ∃ s, rtc latch_step (CountDownLatch_ctor 1 3) s ∧ threads s = [WaitBlocked; Idle; Idle] ∧
    getCount s = -1 ∧ wait_passes s = true.
Proof.
  eexists. split; [|repeat split].
  - eapply rtc_l; [apply (call_wait _ 0); reflexivity|].
    eapply rtc_l; [apply (wait_blocks _ 0); reflexivity|].
    eapply rtc_l; [apply (call_down _ 1); reflexivity|].
    eapply rtc_l; [apply (call_down _ 2); reflexivity|].
    eapply rtc_l; [apply (down_locked _ 1); reflexivity|].
    eapply rtc_l; [apply (down_locked _ 2); reflexivity|].
    eapply rtc_l; [apply (down_check _ 1); reflexivity|].
    eapply rtc_l; [apply (down_check _ 2); reflexivity|]. apply rtc_refl.
  - reflexivity.
  - reflexivity.
  - reflexivity.
Qed.
