(* ===== verification/ThreadPool.v ===== *)
(** * ThreadPool: src/ham/base/ThreadPool.h and ThreadPool.cc

    The pool with its workers and any number of threads that call [run] and [stop], as a
    transition system.  A task is a value; running it is recorded, in [ran] when a worker runs it
    and in [called] when [run] itself does, on a pool without threads.  Tasks and the callback of
    the threads may throw: [threadFunc] then reports it and the worker ends, [run] passes it on.
    [start] comes first and once, and tasks do not call the pool. *)
From S2P Require Import Prelude Monitor.

Inductive tp_pc (T : Type) :=
(* workers, in threadFunc *)
| WInit                        (* if(cb_) cb_() *)
| WCheck                       (* while(isRunning_) *)
| WTake                        (* in take, at the loop's condition, with the mutex *)
| WWait                        (* in notEmpty_.wait *)
| WRun (t : T)                 (* task() *)
| WExit
(* callers *)
| CIdle
| RunCall (t : T) (move : bool)  (* newTask(), on a pool without threads *)
| RunTry (t : T) (move : bool)   (* in run(const Task&) or run(Task&&), at the loop's condition *)
| RunWait (t : T) (move : bool)  (* in notFull_.wait *)
| RunNotify                      (* in run(Task&&), after the unlock *)
| StopTry                        (* in stop, before the lock *)
| StopJoin
| StopDone
| StopError.                     (* std::system_error: the workers were joined before *)
Arguments WInit {T}. Arguments WCheck {T}. Arguments WTake {T}. Arguments WWait {T}. Arguments WRun {T}. Arguments WExit {T}.
Arguments CIdle {T}. Arguments RunCall {T}. Arguments RunTry {T}. Arguments RunWait {T}. Arguments RunNotify {T}.
Arguments StopTry {T}. Arguments StopJoin {T}. Arguments StopDone {T}.
Arguments StopError {T}.

Definition wake_worker {T} (p : tp_pc T) : option (tp_pc T) :=
  match p with WWait => Some WTake | _ => None end.
Definition wake_caller {T} (p : tp_pc T) : option (tp_pc T) :=
  match p with RunWait t m => Some (RunTry t m) | _ => None end.
Definition taking {T} (p : tp_pc T) : bool := match p with WTake => true | _ => false end.
Definition notifying {T} (p : tp_pc T) : bool := match p with RunNotify => true | _ => false end.
Definition running_in {T} (p : tp_pc T) : bool := match p with RunTry _ _ => true | _ => false end.
Definition worker {T} (p : tp_pc T) : bool :=
  match p with WInit | WCheck | WTake | WWait | WRun _ | WExit => true | _ => false end.

Record ThreadPool (T : Type) := mkThreadPool {
  isRunning_ : bool;
  maxsize_ : nat;
  cb_ : bool;                  (* there is a callback *)
  queue_ : list T;
  threads : list (tp_pc T);    (* the callers, then threads_ *)
  pushed : list T;             (* history: queued, taken from the queue, run by workers *)
  popped : list T;
  ran : list T;
  called : list T;             (* run by [run] itself *)
  inited : nat                 (* how often [cb_] was called *)
}.
Arguments mkThreadPool {T}. Arguments isRunning_ {T}. Arguments maxsize_ {T}. Arguments queue_ {T}.
Arguments threads {T}. Arguments pushed {T}. Arguments popped {T}. Arguments ran {T}.
Arguments cb_ {T}. Arguments called {T}. Arguments inited {T}.

Section pool.
Context {T : Type}.
Implicit Types s : ThreadPool T.

Definition ThreadPool_ctor (maxsize : nat) (cb : bool) (callers : nat) : ThreadPool T :=
  mkThreadPool false maxsize cb [] (replicate callers CIdle) [] [] [] [] 0.

Definition set_threads (ts : list (tp_pc T)) s : ThreadPool T :=
  mkThreadPool (isRunning_ s) (maxsize_ s) (cb_ s) (queue_ s) ts (pushed s) (popped s) (ran s) (called s) (inited s).
Definition set_running (b : bool) s : ThreadPool T :=
  mkThreadPool b (maxsize_ s) (cb_ s) (queue_ s) (threads s) (pushed s) (popped s) (ran s) (called s) (inited s).
Definition run_task (t : T) s : ThreadPool T :=
  mkThreadPool (isRunning_ s) (maxsize_ s) (cb_ s) (queue_ s) (threads s) (pushed s) (popped s) (ran s ++ [t]) (called s) (inited s).
Definition call_task (t : T) s : ThreadPool T :=
  mkThreadPool (isRunning_ s) (maxsize_ s) (cb_ s) (queue_ s) (threads s) (pushed s) (popped s) (ran s) (called s ++ [t]) (inited s).
Definition call_init s : ThreadPool T :=
  if cb_ s
  then mkThreadPool (isRunning_ s) (maxsize_ s) (cb_ s) (queue_ s) (threads s) (pushed s) (popped s) (ran s) (called s) (S (inited s))
  else s.

(** [start]: the workers begin in [threadFunc]; without threads the callback is called at once. *)
Definition start (numOfThreads : nat) s : ThreadPool T :=
  let s :=
    if isRunning_ s then s
    else set_threads (threads s ++ replicate numOfThreads WInit) (set_running true s) in
  if (numOfThreads =? 0)%nat then call_init s else s.

Definition isFull s : bool := (0 <? maxsize_ s)%nat && (maxsize_ s <=? length (queue_ s))%nat.
Definition queueSize s : nat := length (queue_ s).
Definition no_threads s : bool := forallb (λ p, negb (worker p)) (threads s).

Definition push (t : T) s : ThreadPool T :=
  mkThreadPool (isRunning_ s) (maxsize_ s) (cb_ s) (queue_ s ++ [t]) (threads s) (pushed s ++ [t]) (popped s) (ran s)
    (called s) (inited s).

(** The critical section of both [run]s: [None] when the caller has to wait. *)
Definition run_section (t : T) s : option (ThreadPool T) :=
  if isFull s && isRunning_ s then None else Some (push t s).

(** The critical section of [take]: [Some None] is the empty task. *)
Definition take_section s : option (option T * ThreadPool T) :=
  match queue_ s with
  | [] => if isRunning_ s then None else Some (None, s)
  | t :: q => Some (Some t, mkThreadPool (isRunning_ s) (maxsize_ s) (cb_ s) q (threads s) (pushed s)
                              (popped s ++ [t]) (ran s) (called s) (inited s))
  end.

(** [notFull_.notify_one()] is only called when there is a limit. *)
Definition notify_room s (ts ts' : list (tp_pc T)) : Prop :=
  if (0 <? maxsize_ s)%nat then notify_one wake_caller ts ts' else ts' = ts.

(** The code of a thread goes on, or something else happens: a new call, or a wakeup without a
    notification. *)
Inductive kind := Own | Outside.

(** A pool without threads runs a task in [run]; [run(Task&&)] then goes on to queue it. *)
Inductive pool_step s : kind → ThreadPool T → Prop :=
| w_init i (throws : bool) : threads s !! i = Some WInit →
    pool_step s Own (call_init (set_threads (<[i := if cb_ s && throws then WExit else WCheck]> (threads s)) s))
| w_check i : threads s !! i = Some WCheck →
    pool_step s Own (set_threads (<[i := if isRunning_ s then WTake else WExit]> (threads s)) s)
| w_take i t s' ts : threads s !! i = Some WTake → take_section s = Some (Some t, s') →
    notify_room s (<[i := WRun t]> (threads s)) ts → pool_step s Own (set_threads ts s')
| w_take_nothing i s' : threads s !! i = Some WTake → take_section s = Some (None, s') →
    pool_step s Own (set_threads (<[i := WCheck]> (threads s)) s')
| w_block i : threads s !! i = Some WTake → take_section s = None →
    pool_step s Own (set_threads (<[i := WWait]> (threads s)) s)
| w_run i t (throws : bool) : threads s !! i = Some (WRun t) →
    pool_step s Own (run_task t (set_threads (<[i := if throws then WExit else WCheck]> (threads s)) s))
| c_run i t m : threads s !! i = Some CIdle →
    pool_step s Outside (set_threads (<[i := if no_threads s then RunCall t m else RunTry t m]> (threads s)) s)
| c_call i t m (throws : bool) : threads s !! i = Some (RunCall t m) →
    pool_step s Own (call_task t (set_threads (<[i := if negb throws && m then RunTry t m else CIdle]> (threads s)) s))
| c_run_const i t s' ts : threads s !! i = Some (RunTry t false) → run_section t s = Some s' →
    notify_one wake_worker (<[i := CIdle]> (threads s)) ts → pool_step s Own (set_threads ts s')
| c_run_move i t s' : threads s !! i = Some (RunTry t true) → run_section t s = Some s' →
    pool_step s Own (set_threads (<[i := RunNotify]> (threads s)) s')
| c_notify i ts : threads s !! i = Some RunNotify →
    notify_one wake_worker (<[i := CIdle]> (threads s)) ts → pool_step s Own (set_threads ts s)
| c_block i t m : threads s !! i = Some (RunTry t m) → run_section t s = None →
    pool_step s Own (set_threads (<[i := RunWait t m]> (threads s)) s)
| c_stop i : threads s !! i = Some CIdle →
    pool_step s Outside (set_threads (<[i := StopTry]> (threads s)) s)
| c_stop_locked i : threads s !! i = Some StopTry →
    pool_step s Own (set_threads (notify_all wake_caller (notify_all wake_worker (<[i := StopJoin]> (threads s))))
      (set_running false s))
| c_joined i : threads s !! i = Some StopJoin →
    (∀ j p, threads s !! j = Some p → worker p = true → p = WExit) →
    StopDone ∉ threads s ∨ no_threads s = true → pool_step s Own (set_threads (<[i := StopDone]> (threads s)) s)
| c_join_again i : threads s !! i = Some StopJoin → StopDone ∈ threads s → no_threads s = false →
    pool_step s Own (set_threads (<[i := StopError]> (threads s)) s)
| spurious i p q : threads s !! i = Some p → (wake_worker p = Some q ∨ wake_caller p = Some q) →
    pool_step s Outside (set_threads (<[i := q]> (threads s)) s).
Definition any_step s s' : Prop := ∃ k, pool_step s k s'.
Definition own_step s s' : Prop := pool_step s Own s'.

(** ** The invariant *)
Definition hand (p : tp_pc T) : list T := match p with WRun t => [t] | _ => [] end.
Definition in_hand (ts : list (tp_pc T)) : list T := gather hand ts.

Record pool_inv s : Prop := {
  pi_fifo : popped s ++ queue_ s = pushed s;
  pi_once : ran s ++ in_hand (threads s) ≡ₚ popped s;
  pi_bound : isRunning_ s = true → (0 < maxsize_ s)%nat → (length (queue_ s) ≤ maxsize_ s)%nat;
  pi_workers : (0 < count (waits wake_worker) (threads s))%nat → isRunning_ s = true ∧
    (length (queue_ s) ≤ count taking (threads s) + count notifying (threads s))%nat;
  pi_callers : (0 < count (waits wake_caller) (threads s))%nat → isRunning_ s = true ∧
    (0 < maxsize_ s ≤ length (queue_ s) + count running_in (threads s))%nat
}.

Ltac counts Hi q :=
  count_move taking Hi q; count_move notifying Hi q; count_move running_in Hi q;
  count_move (waits wake_worker) Hi q; count_move (waits wake_caller) Hi q;
  cbn [taking notifying running_in waits wake_worker wake_caller Nat.b2n] in *.

Lemma in_hand_insert ts i p q :
  ts !! i = Some p → in_hand (<[i := q]> ts) ++ hand p ≡ₚ in_hand ts ++ hand q.
Proof. apply gather_insert. Qed.

Lemma in_hand_same ts i p q : ts !! i = Some p → hand p = [] → hand q = [] →
  in_hand (<[i := q]> ts) ≡ₚ in_hand ts.
Proof. intros Hi Hp Hq. unfold in_hand. by rewrite (gather_same hand ts i p q Hi) by (by rewrite Hp, Hq). Qed.

Lemma wake_hand (p q : tp_pc T) :
  (wake_worker p = Some q ∨ wake_caller p = Some q) → hand p = [] ∧ hand q = [].
Proof. intros [Hw|Hw]; destruct p; simpl in Hw; try done; by injection Hw as <-. Qed.

Lemma in_hand_notify_one wake ts ts' :
  notify_one wake ts ts' → (∀ p q, wake p = Some q → hand p = [] ∧ hand q = []) → in_hand ts' ≡ₚ in_hand ts.
Proof. intros [|i p q Hi Hq] Hw; [done|]. destruct (Hw p q Hq). by eapply in_hand_same. Qed.

Lemma in_hand_notify_all wake ts :
  (∀ p q, wake p = Some q → hand p = [] ∧ hand q = []) → in_hand (notify_all wake ts) = in_hand ts.
Proof.
  intros Hw. unfold in_hand, gather, notify_all. induction ts as [|x ts IH]; [done|]. simpl. rewrite IH.
  destruct (wake x) as [q|] eqn:E; [|done]. by destruct (Hw x q E) as [-> ->].
Qed.

Lemma wake_worker_ok (p q : tp_pc T) :
  wake_worker p = Some q → taking p = false ∧ taking q = true ∧ wake_worker q = None.
Proof. destruct p; simpl; try done. by intros [= <-]. Qed.
Lemma wake_caller_ok (p q : tp_pc T) :
  wake_caller p = Some q → running_in p = false ∧ running_in q = true ∧ wake_caller q = None.
Proof. destruct p; simpl; try done. by intros [= <-]. Qed.

(** What the notifications do to the counters. *)
Lemma notify_workers ts ts' : notify_one (wake_worker (T := T)) ts ts' →
  count notifying ts' = count notifying ts ∧ count running_in ts' = count running_in ts ∧
  count (waits wake_caller) ts' = count (waits wake_caller) ts ∧
  (count (waits wake_worker) ts' ≤ count (waits wake_worker) ts)%nat ∧
  ((0 < count (waits wake_worker) ts')%nat → count taking ts' = S (count taking ts)).
Proof.
  intros Hn. split; [|split; [|split; [|exact (notify_one_wakes _ _ _ _ Hn wake_worker_ok)]]];
    (apply (count_notify_other wake_worker); [done|]); intros [] q; simpl; try done; by intros [= <-].
Qed.

Lemma notify_callers ts ts' : notify_one (wake_caller (T := T)) ts ts' →
  count notifying ts' = count notifying ts ∧ count taking ts' = count taking ts ∧
  count (waits wake_worker) ts' = count (waits wake_worker) ts ∧
  (count (waits wake_caller) ts' ≤ count (waits wake_caller) ts)%nat ∧
  ((0 < count (waits wake_caller) ts')%nat → count running_in ts' = S (count running_in ts)).
Proof.
  intros Hn. split; [|split; [|split; [|exact (notify_one_wakes _ _ _ _ Hn wake_caller_ok)]]];
    (apply (count_notify_other wake_caller); [done|]); intros [] q; simpl; try done; by intros [= <-].
Qed.

Lemma run_section_Some t s s' :
  run_section t s = Some s' →
  s' = push t s ∧ (isRunning_ s = true → (0 < maxsize_ s)%nat → (length (queue_ s) < maxsize_ s)%nat).
Proof.
  unfold run_section, isFull. destruct (_ && isRunning_ s) eqn:E; [done|]. intros [= <-]. split; [done|].
  intros Hr Hm. rewrite Hr, andb_true_r in E. apply andb_false_iff in E as [E|E].
  - apply Nat.ltb_ge in E. lia.
  - by apply Nat.leb_gt in E.
Qed.

Lemma run_section_None t s :
  run_section t s = None → isRunning_ s = true ∧ (0 < maxsize_ s ≤ length (queue_ s))%nat.
Proof.
  unfold run_section, isFull. destruct (_ && isRunning_ s) eqn:E; [|done]. intros _.
  apply andb_true_iff in E as [[E1%Nat.ltb_lt E2%Nat.leb_le]%andb_true_iff Hr]. done.
Qed.

(** Moving one thread between points that hold no task and wait for nothing. *)
Lemma pool_inv_move s i p q :
  pool_inv s → threads s !! i = Some p → hand p = [] → hand q = [] →
  taking p = false → notifying p = false → running_in p = false →
  wake_worker q = None → wake_caller q = None → pool_inv (set_threads (<[i := q]> (threads s)) s).
Proof.
  intros [Hf Ho Hb Hw Hc] Hi Hp Hq Ht Hn Hr Hqw Hqc.
  pose proof (count_insert taking _ i p q Hi). pose proof (count_insert notifying _ i p q Hi).
  pose proof (count_insert running_in _ i p q Hi).
  pose proof (count_insert (waits wake_worker) _ i p q Hi) as Hw1.
  pose proof (count_insert (waits wake_caller) _ i p q Hi) as Hc1.
  unfold waits at 4 in Hw1. unfold waits at 4 in Hc1. rewrite Hqw in Hw1. rewrite Hqc in Hc1.
  rewrite Ht in *. rewrite Hn in *. rewrite Hr in *. simpl in *.
  split; simpl; [done|by rewrite (in_hand_same _ i p q)|done|..];
    intros Hpos; [destruct Hw as [? ?]|destruct Hc as [? ?]]; try lia; split; try done; lia.
Qed.

Lemma pool_inv_init s : pool_inv s → pool_inv (call_init s).
Proof. unfold call_init. destruct (cb_ s); [|done]. by intros []. Qed.

Lemma pool_inv_step s s' : pool_inv s → any_step s s' → pool_inv s'.
Proof.
  intros Hinv [k Hstep]. pose proof Hinv as [Hf Ho Hb Hw Hc].
  destruct Hstep as [i throws Hi|i Hi|i t s' ts Hi Hsec Hn|i s' Hi Hsec|i Hi Hsec|i t throws Hi|i t m Hi
    |i t m throws Hi|i t s' ts Hi Hsec Hn|i t s' Hi Hsec|i ts Hi Hn|i t m Hi Hsec|i Hi|i Hi|i Hi _ _|i Hi _ _|i p q Hi Hwake].
  - apply pool_inv_init, (pool_inv_move s i WInit); try done; by destruct (cb_ s && throws).
  - apply (pool_inv_move s i WCheck); try done; by destruct (isRunning_ s).
  - counts Hi (WRun t). unfold take_section in Hsec.
    destruct (queue_ s) as [|x l] eqn:Eq; [by destruct (isRunning_ s)|]. injection Hsec as <- <-.
    pose proof (in_hand_insert _ i WTake (WRun x) Hi) as Hh. simpl in Hh. rewrite app_nil_r in Hh.
    simpl in *. unfold notify_room in Hn. destruct (0 <? maxsize_ s)%nat eqn:Em.
    + destruct (notify_callers _ _ Hn) as (Hn1 & Hn2 & Hn3 & Hn4 & Hn5). apply Nat.ltb_lt in Em.
      split; simpl.
      * by rewrite <- app_assoc.
      * rewrite (in_hand_notify_one _ _ _ Hn), Hh, app_assoc, Ho by (intros p q ?; apply wake_hand; auto). done.
      * intros Hr Hm. specialize (Hb Hr Hm). lia.
      * intros Hpos. destruct Hw as [? ?]; [lia|]. split; [done|lia].
      * intros Hpos. specialize (Hn5 Hpos). destruct Hc as [? ?]; [lia|]. split; [done|lia].
    + apply Nat.ltb_ge in Em. subst ts. split; simpl.
      * by rewrite <- app_assoc.
      * by rewrite Hh, app_assoc, Ho.
      * intros Hr Hm. lia.
      * intros Hpos. destruct Hw as [? ?]; [lia|]. split; [done|lia].
      * intros Hpos. destruct Hc as [? ?]; [lia|]. lia.
  - unfold take_section in Hsec. destruct (queue_ s) eqn:Eq; [|done].
    destruct (isRunning_ s) eqn:Er; [done|]. injection Hsec as <-. counts Hi (@WCheck T).
    split; simpl; [by rewrite Eq|by rewrite (in_hand_same _ i WTake WCheck)|by rewrite Er|..];
      intros Hpos; [destruct Hw as [? ?]|destruct Hc as [? ?]]; (lia || congruence).
  - unfold take_section in Hsec. destruct (queue_ s) eqn:Eq; [|done].
    destruct (isRunning_ s) eqn:Er; [|done]. counts Hi (@WWait T).
    split; simpl; rewrite ?Eq, ?Er; simpl; [done|by rewrite (in_hand_same _ i WTake WWait)|lia| |].
    + intros _. split; [done|lia].
    + intros Hpos. destruct Hc as [? ?]; [lia|]. split; [done|]. simpl in *. lia.
  - counts Hi (if throws then @WExit T else WCheck).
    pose proof (in_hand_insert _ i (WRun t) (if throws then WExit else WCheck) Hi) as Hh. simpl in Hh.
    assert (hand (if throws then @WExit T else WCheck) = []) as Hnil by by destruct throws. rewrite Hnil, app_nil_r in Hh.
    split; simpl; [done| |done|..].
    + rewrite <- Ho, <- Hh. solve_Permutation.
    + intros Hpos. destruct throws; simpl in *; (destruct Hw as [? ?]; [lia|]); (split; [done|lia]).
    + intros Hpos. destruct throws; simpl in *; (destruct Hc as [? ?]; [lia|]); (split; [done|lia]).
  - apply (pool_inv_move s i CIdle); try done; by destruct (no_threads s).
  - assert (Hp : pool_inv (set_threads (<[i := if negb throws && m then RunTry t m else CIdle]> (threads s)) s)); [|by destruct Hp].
    apply (pool_inv_move s i (RunCall t m)); try done; by destruct (negb throws && m).
  - counts Hi (@CIdle T). apply run_section_Some in Hsec as [-> Hroom].
    destruct (notify_workers _ _ Hn) as (Hn1 & Hn2 & Hn3 & Hn4 & Hn5).
    split; simpl; rewrite ?length_app; simpl.
    + by rewrite app_assoc, Hf.
    + rewrite (in_hand_notify_one _ _ _ Hn) by (intros p q ?; apply wake_hand; auto).
      by rewrite (in_hand_same _ i (RunTry t false) CIdle).
    + intros Hr Hm. specialize (Hroom Hr Hm). lia.
    + intros Hpos. specialize (Hn5 Hpos). destruct Hw as [? ?]; [lia|]. split; [done|lia].
    + intros Hpos. destruct Hc as [? ?]; [lia|]. split; [done|lia].
  - counts Hi (@RunNotify T). apply run_section_Some in Hsec as [-> Hroom].
    split; simpl; rewrite ?length_app; simpl.
    + by rewrite app_assoc, Hf.
    + by rewrite (in_hand_same _ i (RunTry t true) RunNotify).
    + intros Hr Hm. specialize (Hroom Hr Hm). lia.
    + intros Hpos. destruct Hw as [? ?]; [lia|]. split; [done|lia].
    + intros Hpos. destruct Hc as [? ?]; [lia|]. split; [done|lia].
  - counts Hi (@CIdle T). destruct (notify_workers _ _ Hn) as (Hn1 & Hn2 & Hn3 & Hn4 & Hn5).
    split; simpl; [done| |done|..].
    + rewrite (in_hand_notify_one _ _ _ Hn) by (intros p q ?; apply wake_hand; auto).
      by rewrite (in_hand_same _ i RunNotify CIdle).
    + intros Hpos. specialize (Hn5 Hpos). destruct Hw as [? ?]; [lia|]. split; [done|lia].
    + intros Hpos. destruct Hc as [? ?]; [lia|]. split; [done|lia].
  - counts Hi (RunWait t m). apply run_section_None in Hsec as (Hr & Hm).
    split; simpl; [done|by rewrite (in_hand_same _ i (RunTry t m) (RunWait t m))|done|..].
    + intros Hpos. destruct Hw as [? ?]; [lia|]. split; [done|lia].
    + intros Hpos. split; [done|lia].
  - by apply (pool_inv_move s i CIdle).
  - split; simpl; [done| |done|..].
    + rewrite !in_hand_notify_all by (intros p q ?; apply wake_hand; auto).
      by rewrite (in_hand_same _ i StopTry StopJoin).
    + rewrite count_notify_all, notify_all_nobody; [lia|..].
      * intros p q Hq. by apply wake_worker_ok in Hq as (_ & _ & ->).
      * intros [] q; simpl; try done. by intros [= <-].
    + rewrite notify_all_nobody; [lia|]. intros p q Hq. by apply wake_caller_ok in Hq as (_ & _ & ->).
  - by apply (pool_inv_move s i StopJoin).
  - by apply (pool_inv_move s i StopJoin).
  - destruct (wake_hand p q Hwake) as [Hp Hq].
    destruct Hwake as [Hq'|Hq']; destruct p; simpl in Hq'; try done; injection Hq' as <-.
    + by apply (pool_inv_move s i WWait).
    + by apply (pool_inv_move s i (RunWait t move)).
Qed.
(** ** Callbacks and calls *)

(** The list after notifications. *)
Definition woken (ts ts' : list (tp_pc T)) : Prop :=
  ts' = ts ∨ notify_one wake_worker ts ts' ∨ notify_one wake_caller ts ts' ∨ ts' = notify_all wake_caller (notify_all wake_worker ts).
Definition unwaked {B} (f : tp_pc T → B) : Prop := ∀ p q, wake_worker p = Some q ∨ wake_caller p = Some q → f p = f q.

Lemma count_woken f ts ts' : unwaked f → woken ts ts' → count f ts' = count f ts.
Proof.
  intros Hf [->|[Hn|[Hn| ->]]]; [done|eapply count_notify_other; [exact Hn|]..|rewrite !count_notify_all; [done|..]];
    intros p q Hq; apply Hf; auto.
Qed.

Definition starting (p : tp_pc T) : bool := match p with WInit => true | _ => false end.
Definition calling (p : tp_pc T) : bool := match p with RunCall _ _ => true | _ => false end.

Ltac unwaked_by := intros p q [Hw|Hw]; destruct p; simpl in Hw; try done; by injection Hw as <-.
Lemma worker_unwaked : unwaked (worker (T := T)).
Proof. unwaked_by. Qed.
Lemma starting_unwaked : unwaked starting.
Proof. unwaked_by. Qed.
Lemma calling_unwaked : unwaked calling.
Proof. unwaked_by. Qed.

(** Who is there, and how often the callback has been called. *)
Record crew_inv (cb : bool) (n : nat) s : Prop := {
  ci_cb : cb_ s = cb;
  ci_workers : count worker (threads s) = n;
  ci_init : if cb then (inited s + count starting (threads s))%nat = Nat.max 1 n else inited s = 0%nat;
  ci_called : n ≠ 0%nat → called s = [] ∧ count calling (threads s) = 0%nat
}.

Lemma no_threads_count s : no_threads s = (count worker (threads s) =? 0)%nat.
Proof.
  unfold no_threads, count. induction (threads s) as [|p ts IH]; [done|]. simpl. rewrite IH. by destruct (worker p).
Qed.

Lemma crew_inv_move cb n s s' i p q : crew_inv cb n s → threads s !! i = Some p → woken (<[i := q]> (threads s)) (threads s') →
  cb_ s' = cb_ s → inited s' = inited s → called s' = called s →
  worker p = worker q → starting p = starting q → calling q = false → crew_inv cb n s'.
Proof.
  intros [Hcb Hn Hc Hr] Hi Hw Ecb Eini Ecal Ew Es Eq.
  pose proof (count_insert worker _ i p q Hi) as H1. pose proof (count_insert starting _ i p q Hi) as H2.
  pose proof (count_insert calling _ i p q Hi) as H3. rewrite Ew in H1. rewrite Es in H2. rewrite Eq in H3. simpl in H3.
  pose proof (count_woken _ _ _ worker_unwaked Hw). pose proof (count_woken _ _ _ starting_unwaked Hw).
  pose proof (count_woken _ _ _ calling_unwaked Hw). split; rewrite ?Ecb, ?Eini, ?Ecal.
  - done.
  - lia.
  - destruct cb; lia.
  - intros Hne. destruct (Hr Hne). split; [done|lia].
Qed.

Lemma crew_inv_step cb n s s' : crew_inv cb n s → any_step s s' → crew_inv cb n s'.
Proof.
  intros Hinv [k Hstep]. pose proof (no_threads_count s) as Hno. pose proof Hinv as [Hcb Hn Hc Hr]. rewrite Hn in Hno.
  destruct Hstep as [i throws Hi|i Hi|i t s' ts Hi Hsec Hno'|i s' Hi Hsec|i Hi Hsec|i t throws Hi|i t m Hi
    |i t m throws Hi|i t s' ts Hi Hsec Hno'|i t s' Hi Hsec|i ts Hi Hno'|i t m Hi Hsec|i Hi|i Hi|i Hi _ _|i Hi _ _|i p q Hi Hwake].
  - set (q := if cb_ s && throws then WExit else WCheck). assert (Hq : worker q = true ∧ starting q = false ∧ calling q = false) by (unfold q; by destruct (_ && _)).
    destruct Hq as (Hq1 & Hq2 & Hq3). pose proof (count_insert worker _ i WInit q Hi) as H1.
    pose proof (count_insert starting _ i WInit q Hi) as H2. pose proof (count_insert calling _ i WInit q Hi) as H3.
    rewrite Hq1 in H1. rewrite Hq2 in H2. rewrite Hq3 in H3. simpl in *.
    unfold call_init. change (cb_ (set_threads (<[i:=q]> (threads s)) s)) with (cb_ s). rewrite Hcb in *. destruct cb; (split; simpl; [done|lia|lia|intros Hne; destruct (Hr Hne); split; [done|lia]]).
  - apply (crew_inv_move cb n s _ i WCheck (if isRunning_ s then WTake else WExit) Hinv Hi); try done; try (by destruct (isRunning_ s)). by left.
  - apply (crew_inv_move cb n s _ i WTake (WRun t) Hinv Hi); try done.
    2-4: unfold take_section in Hsec; destruct (queue_ s); [by destruct (isRunning_ s)|]; by injection Hsec as _ <-.
    simpl. unfold notify_room in Hno'. destruct (0 <? maxsize_ s)%nat; [by right; right; left|by left].
  - assert (s' = s) as -> by (unfold take_section in Hsec; destruct (queue_ s), (isRunning_ s); by simplify_eq).
    apply (crew_inv_move cb n s _ i WTake WCheck Hinv Hi); try done. by left.
  - apply (crew_inv_move cb n s _ i WTake WWait Hinv Hi); try done. by left.
  - apply (crew_inv_move cb n s _ i (WRun t) (if throws then WExit else WCheck) Hinv Hi); try done; try (by destruct throws). by left.
  - destruct n as [|n]; rewrite Hno; simpl.
    + pose proof (count_insert worker _ i CIdle (RunCall t m) Hi) as H1. pose proof (count_insert starting _ i CIdle (RunCall t m) Hi) as H2.
      simpl in *. split; simpl; [done|lia|destruct cb; lia|done].
    + apply (crew_inv_move cb (S n) s _ i CIdle (RunTry t m) Hinv Hi); try done. by left.
  - destruct n as [|n].
    + set (q := if negb throws && m then RunTry t m else CIdle). assert (Hq : worker q = false ∧ starting q = false) by (unfold q; by destruct (_ && _)).
      destruct Hq as [Hq1 Hq2]. pose proof (count_insert worker _ i _ q Hi) as H1. pose proof (count_insert starting _ i _ q Hi) as H2.
      rewrite Hq1 in H1. rewrite Hq2 in H2. simpl in *. split; simpl; [done|lia|destruct cb; lia|done].
    + destruct Hr as [_ Hz]; [done|]. pose proof (count_lookup calling _ i _ Hi eq_refl). lia.
  - apply run_section_Some in Hsec as [-> _]. apply (crew_inv_move cb n s _ i (RunTry t false) CIdle Hinv Hi); try done. by right; left.
  - apply run_section_Some in Hsec as [-> _]. apply (crew_inv_move cb n s _ i (RunTry t true) RunNotify Hinv Hi); try done. by left.
  - apply (crew_inv_move cb n s _ i RunNotify CIdle Hinv Hi); try done. by right; left.
  - apply (crew_inv_move cb n s _ i (RunTry t m) (RunWait t m) Hinv Hi); try done. by left.
  - apply (crew_inv_move cb n s _ i CIdle StopTry Hinv Hi); try done. by left.
  - apply (crew_inv_move cb n s _ i StopTry StopJoin Hinv Hi); try done. by right; right; right.
  - apply (crew_inv_move cb n s _ i StopJoin StopDone Hinv Hi); try done. by left.
  - apply (crew_inv_move cb n s _ i StopJoin StopError Hinv Hi); try done. by left.
  - pose proof (worker_unwaked p q Hwake). pose proof (starting_unwaked p q Hwake).
    apply (crew_inv_move cb n s _ i p q Hinv Hi); try done; [by left|]. rewrite <- (calling_unwaked p q Hwake). by destruct Hwake, p.
Qed.
End pool.

(** ** From the start *)
Section reach.
Context {T : Type}.
Implicit Types s : ThreadPool T.

Lemma count_started (f : tp_pc T → bool) k n :
  f CIdle = false → count f (replicate k CIdle ++ replicate n WInit) = if f WInit then n else 0%nat.
Proof.
  intros H1. rewrite count_app, (count_zero f (replicate k _)) by by apply Forall_replicate. simpl.
  destruct (f WInit) eqn:E; [|apply count_zero; by apply Forall_replicate].
  unfold count. induction n as [|n IH]; [done|]. simpl. rewrite E. simpl. by rewrite IH.
Qed.

Lemma pool_inv_start m cb k n : pool_inv (start n (ThreadPool_ctor m cb k : ThreadPool T)).
Proof.
  assert (Hs : pool_inv (set_threads (replicate k CIdle ++ replicate n WInit) (set_running true (ThreadPool_ctor m cb k : ThreadPool T)))).
  { split; simpl; rewrite ?count_started by done; simpl; try done; try lia.
    unfold in_hand. rewrite gather_nil; [done|]. apply Forall_app. split; by apply Forall_replicate. }
  unfold start. cbn [isRunning_ ThreadPool_ctor]. destruct (n =? 0)%nat; [by apply pool_inv_init|done].
Qed.

Lemma crew_inv_start m cb k n : crew_inv cb n (start n (ThreadPool_ctor m cb k : ThreadPool T)).
Proof.
  pose proof (count_started worker k n eq_refl) as E1. pose proof (count_started starting k n eq_refl) as E2.
  pose proof (count_started calling k n eq_refl) as E3. unfold start, call_init. simpl in *.
  destruct n as [|n], cb; simpl in *; (split; simpl; [done|done||lia|done||lia|try done; by intros _]).
Qed.

Lemma pool_reachable m cb k n s : rtc any_step (start n (ThreadPool_ctor m cb k)) s → pool_inv s ∧ crew_inv cb n s.
Proof.
  apply (rtc_ind_r (λ s, pool_inv s ∧ crew_inv cb n s) (R := any_step)); [split; [apply pool_inv_start|apply crew_inv_start]|].
  intros y z _ Hstep [H1 H2]. split; [by eapply pool_inv_step|by eapply crew_inv_step].
Qed.

(** ** A pool without threads *)
Definition bound_for (p : tp_pc T) : list T := match p with RunTry t _ | RunWait t _ => [t] | _ => [] end.
Lemma bound_unwaked : unwaked bound_for.
Proof. intros p q [Hw|Hw]; destruct p; simpl in Hw; try done; by injection Hw as <-. Qed.

Lemma gather_woken {B} (h : tp_pc T → list B) ts ts' : unwaked h → woken ts ts' → gather h ts' = gather h ts.
Proof.
  intros Hh [->|[Hn|[Hn| ->]]]; [done|eapply gather_notify_one; [exact Hn|]; intros p q Hq; apply Hh; auto..|].
  unfold gather, notify_all. rewrite !map_map. f_equal. apply map_ext. intros p.
  destruct (wake_worker p) as [q|] eqn:E1; [rewrite (Hh p q) by auto; clear E1; rename q into x|rename p into x];
    (destruct (wake_caller x) as [q|] eqn:E2; [by rewrite (Hh x q) by auto|done]).
Qed.

(** What is queued has been run by the callers. *)
Record inline_inv (cb : bool) s : Prop := {
  ii_crew : crew_inv cb 0 s;
  ii_popped : popped s = [];
  ii_called : pushed s ++ gather bound_for (threads s) ⊆+ called s
}.

Lemma inline_move cb s s' i p q l : inline_inv cb s → crew_inv cb 0 s' → threads s !! i = Some p → woken (<[i := q]> (threads s)) (threads s') →
  popped s' = popped s → pushed s' = pushed s → called s' = called s ++ l → bound_for q ⊆+ bound_for p ++ l → inline_inv cb s'.
Proof.
  intros [_ Hp Hc] Hcr Hi Hw Epop Epush Ecal Hb. split; [done|congruence|]. rewrite Epush, Ecal, (gather_woken _ _ _ bound_unwaked Hw).
  pose proof (gather_insert bound_for _ i p q Hi) as Hg. apply (submseteq_app_inv_r _ _ (bound_for p)).
  trans (pushed s ++ gather bound_for (threads s) ++ bound_for q).
  { apply Permutation_submseteq. by rewrite <- app_assoc, Hg. }
  trans ((pushed s ++ gather bound_for (threads s)) ++ bound_for p ++ l); [|trans (called s ++ bound_for p ++ l)].
  - rewrite <- app_assoc. by do 2 (apply submseteq_app; [done|]).
  - by apply submseteq_app.
  - apply Permutation_submseteq. solve_Permutation.
Qed.

Lemma inline_pushed cb s s' i t m q : inline_inv cb s → crew_inv cb 0 s' → threads s !! i = Some (RunTry t m) →
  woken (<[i := q]> (threads s)) (threads s') → popped s' = popped s → pushed s' = pushed s ++ [t] → called s' = called s → bound_for q = [] →
  inline_inv cb s'.
Proof.
  intros [_ Hp Hc] Hcr Hi Hw Epop Epush Ecal Hb. split; [done|congruence|]. rewrite Epush, Ecal, (gather_woken _ _ _ bound_unwaked Hw).
  pose proof (gather_insert bound_for _ i _ q Hi) as Hg. rewrite Hb, app_nil_r in Hg. simpl in Hg.
  etrans; [|exact Hc]. apply Permutation_submseteq. rewrite <- Hg. solve_Permutation.
Qed.

Lemma inline_inv_step cb s s' : inline_inv cb s → any_step s s' → inline_inv cb s'.
Proof.
  intros Hinv Hany. pose proof (crew_inv_step cb 0 s s' (ii_crew cb s Hinv) Hany) as Hcr. destruct Hany as [k Hstep].
  pose proof (ii_crew cb s Hinv) as [_ Hn _ _]. pose proof (no_threads_count s) as Hno. rewrite Hn in Hno. simpl in Hno.
  assert (Hnone : ∀ i p, threads s !! i = Some p → worker p = true → False).
  { intros i p Hi Hp. pose proof (count_lookup worker _ i p Hi Hp). lia. }
  destruct Hstep as [i throws Hi|i Hi|i t s' ts Hi Hsec Hn'|i s' Hi Hsec|i Hi Hsec|i t throws Hi|i t m Hi
    |i t m throws Hi|i t s' ts Hi Hsec Hn'|i t s' Hi Hsec|i ts Hi Hn'|i t m Hi Hsec|i Hi|i Hi|i Hi _ _|i Hi _ _|i p q Hi Hwake];
    try by destruct (Hnone _ _ Hi).
  - rewrite Hno in *. apply (inline_move cb s _ i CIdle (RunCall t m) [] Hinv Hcr Hi); try done; [by left|by rewrite app_nil_r].
  - apply (inline_move cb s _ i (RunCall t m) (if negb throws && m then RunTry t m else CIdle) [t] Hinv Hcr Hi); try done; [by left|].
    destruct (negb throws && m); simpl; [done|apply submseteq_nil_l].
  - apply run_section_Some in Hsec as [-> _]. apply (inline_pushed cb s _ i t false CIdle Hinv Hcr Hi); try done. by right; left.
  - apply run_section_Some in Hsec as [-> _]. apply (inline_pushed cb s _ i t true RunNotify Hinv Hcr Hi); try done. by left.
  - apply (inline_move cb s _ i RunNotify CIdle [] Hinv Hcr Hi); try done; [by right; left|by rewrite app_nil_r].
  - apply (inline_move cb s _ i (RunTry t m) (RunWait t m) [] Hinv Hcr Hi); try done; [by left|by rewrite app_nil_r].
  - apply (inline_move cb s _ i CIdle StopTry [] Hinv Hcr Hi); try done; [by left|by rewrite app_nil_r].
  - apply (inline_move cb s _ i StopTry StopJoin [] Hinv Hcr Hi); try done; [by right; right; right|by rewrite app_nil_r].
  - apply (inline_move cb s _ i StopJoin StopDone [] Hinv Hcr Hi); try done; [by left|by rewrite app_nil_r].
  - apply (inline_move cb s _ i StopJoin StopError [] Hinv Hcr Hi); try done; [by left|by rewrite app_nil_r].
  - apply (inline_move cb s _ i p q [] Hinv Hcr Hi); try done; [by left|by rewrite app_nil_r|]. by rewrite app_nil_r, (bound_unwaked p q Hwake).
Qed.


Lemma inline_reachable m cb k s : rtc any_step (start 0 (ThreadPool_ctor m cb k)) s → inline_inv cb s.
Proof.
  apply (rtc_ind_r (inline_inv cb) (R := any_step)); [|intros y z _ Hstep Hy; by eapply inline_inv_step].
  split; [apply crew_inv_start|by destruct cb|]. unfold start, call_init. simpl. rewrite app_nil_r.
  destruct cb; simpl; rewrite gather_nil; try done; by apply Forall_replicate.
Qed.

(** ** Stopping *)

(** Nobody waits in a stopped pool, so a notification changes nothing. *)
Lemma stopped_nobody_waits s :
  pool_inv s → isRunning_ s = false →
  Forall (λ p, wake_worker p = None) (threads s) ∧ Forall (λ p, wake_caller p = None) (threads s).
Proof.
  intros [_ _ _ Hw Hc] Hr. split; apply Forall_lookup; intros i p Hi.
  - destruct (wake_worker p) eqn:E; [|done]. destruct Hw as [? _]; [|congruence].
    eapply count_lookup; [exact Hi|]. unfold waits. by rewrite E.
  - destruct (wake_caller p) eqn:E; [|done]. destruct Hc as [? _]; [|congruence].
    eapply count_lookup; [exact Hi|]. unfold waits. by rewrite E.
Qed.

(** What a thread of a stopped pool has still to do, besides the tasks in the queue. *)
Definition to_do (p : tp_pc T) : nat :=
  match p with
  | WInit => 3 | WCheck => 1 | WTake | WRun _ | WWait => 2
  | RunCall _ _ => 4 | RunTry _ _ => 3 | RunWait _ _ => 2 | RunNotify => 1
  | StopTry => 2 | StopJoin => 1
  | WExit | CIdle | StopDone | StopError => 0
  end.
Definition left_over s : nat := length (queue_ s) + weigh to_do (threads s).

Lemma own_stays s s' : isRunning_ s = false → own_step s s' → isRunning_ s' = false.
Proof.
  intros Hr Hstep. unfold own_step in Hstep. remember Own as kd eqn:Hk.
  destruct Hstep as [| |i t s' ts Hi Hsec _|i s' Hi Hsec| | | | |i t s' ts Hi Hsec _|i t s' Hi Hsec| | | | | | |]; try done.
  - unfold call_init. simpl. by destruct (cb_ s).
  - unfold take_section in Hsec. destruct (queue_ s); [by rewrite Hr in Hsec|]. by injection Hsec as _ <-.
  - unfold take_section in Hsec. destruct (queue_ s); [|done]. rewrite Hr in Hsec. by injection Hsec as <-.
  - by apply run_section_Some in Hsec as [-> _].
  - by apply run_section_Some in Hsec as [-> _].
Qed.

Lemma nobody_woken wake (ts ts' : list (tp_pc T)) : notify_one wake ts ts' → Forall (λ p, wake p = None) ts → ts' = ts.
Proof. intros [|i p q Hi Hq] Hall; [done|]. rewrite Forall_lookup in Hall. by rewrite (Hall i p Hi) in Hq. Qed.

Lemma nobody_woken_all wake (ts : list (tp_pc T)) : Forall (λ p, wake p = None) ts → notify_all wake ts = ts.
Proof. unfold notify_all. induction 1 as [|p ts Hp _ IH]; [done|]. simpl. by rewrite Hp, IH. Qed.

Lemma crew_step_left s s' : pool_inv s → isRunning_ s = false → own_step s s' → (left_over s' < left_over s)%nat.
Proof.
  intros Hinv Hr Hstep. destruct (stopped_nobody_waits s Hinv Hr) as [Hw Hc].
  assert (Hsame : ∀ i q ts, wake_worker q = None → wake_caller q = None →
    notify_one wake_worker (<[i := q]> (threads s)) ts ∨ notify_one wake_caller (<[i := q]> (threads s)) ts → ts = <[i := q]> (threads s)).
  { intros i q ts Hq1 Hq2 [Hn|Hn]; (eapply nobody_woken; [exact Hn|by apply Forall_insert]). }
  unfold own_step in Hstep. unfold left_over. remember Own as kd eqn:Hk.
  destruct Hstep as [i throws Hi|i Hi|i t s' ts Hi Hsec Hn|i s' Hi Hsec|i Hi Hsec|i t throws Hi|i t m Hi
    |i t m throws Hi|i t s' ts Hi Hsec Hn|i t s' Hi Hsec|i ts Hi Hn|i t m Hi Hsec|i Hi|i Hi|i Hi _ _|i Hi _ _|i p q Hi Hwake]; try done.
  - pose proof (weigh_insert to_do _ i _ (if cb_ s && throws then WExit else WCheck) Hi) as H1.
    unfold call_init. simpl. destruct (cb_ s && throws), (cb_ s); simpl in *; lia.
  - pose proof (weigh_insert to_do _ i _ WExit Hi). rewrite Hr. simpl in *. lia.
  - pose proof (weigh_insert to_do _ i _ (WRun t) Hi). unfold notify_room in Hn.
    assert (ts = <[i := WRun t]> (threads s)) as -> by (destruct (0 <? maxsize_ s)%nat; [by apply Hsame; auto|done]).
    unfold take_section in Hsec. destruct (queue_ s); [by rewrite Hr in Hsec|]. injection Hsec as <- <-. simpl in *. lia.
  - pose proof (weigh_insert to_do _ i _ WCheck Hi). unfold take_section in Hsec. destruct (queue_ s) eqn:Eq; [|done].
    rewrite Hr in Hsec. injection Hsec as <-. simpl in *. rewrite Eq. simpl. lia.
  - unfold take_section in Hsec. destruct (queue_ s); [by rewrite Hr in Hsec|done].
  - pose proof (weigh_insert to_do _ i _ (if throws then WExit else WCheck) Hi). destruct throws; simpl in *; lia.
  - pose proof (weigh_insert to_do _ i _ (if negb throws && m then RunTry t m else CIdle) Hi). destruct (negb throws && m); simpl in *; lia.
  - pose proof (weigh_insert to_do _ i _ CIdle Hi). apply run_section_Some in Hsec as [-> _]. rewrite (Hsame i CIdle ts) by auto.
    simpl in *. rewrite length_app. simpl. lia.
  - pose proof (weigh_insert to_do _ i _ RunNotify Hi). apply run_section_Some in Hsec as [-> _]. simpl in *. rewrite length_app. simpl. lia.
  - pose proof (weigh_insert to_do _ i _ CIdle Hi). rewrite (Hsame i CIdle ts) by auto. simpl in *. lia.
  - apply run_section_None in Hsec as [? _]. congruence.
  - pose proof (weigh_insert to_do _ i _ StopJoin Hi). simpl.
    rewrite (nobody_woken_all wake_worker) by by apply Forall_insert. rewrite nobody_woken_all by by apply Forall_insert. simpl in *. lia.
  - pose proof (weigh_insert to_do _ i _ StopDone Hi). simpl in *. lia.
  - pose proof (weigh_insert to_do _ i _ StopError Hi). simpl in *. lia.
Qed.

Lemma crew_steps_end s : pool_inv s → isRunning_ s = false → sn own_step s.
Proof.
  remember (left_over s) as n eqn:En. revert s En. induction (lt_wf n) as [n _ IH]. intros s -> Hinv Hr. constructor. intros s' Hstep.
  eapply IH; [by eapply crew_step_left|done|eapply pool_inv_step; [done|by exists Own]|by eapply own_stays].
Qed.

(** A thread at rest; the others of a stopped pool can go on. *)
Definition at_rest (p : tp_pc T) : bool := match p with WExit | CIdle | StopDone | StopError => true | _ => false end.

Lemma worker_goes_on s i p : pool_inv s → isRunning_ s = false → threads s !! i = Some p → worker p = true → at_rest p = false → red own_step s.
Proof.
  intros Hinv Hr Hi Hp Hne. destruct (stopped_nobody_waits s Hinv Hr) as [Hw _]. rewrite Forall_lookup in Hw. specialize (Hw i p Hi).
  destruct p; try done.
  - eexists. by apply (w_init s i false).
  - eexists. by apply w_check.
  - destruct (queue_ s) as [|t q] eqn:Eq.
    + eexists. apply (w_take_nothing s i s Hi). unfold take_section. by rewrite Eq, Hr.
    + set (ts := <[i := WRun t]> (threads s)).
      eexists. eapply (w_take s i t _ (if (0 <? maxsize_ s)%nat then notify_first wake_caller ts else ts)); [done|unfold take_section; by rewrite Eq|].
      unfold notify_room. destruct (0 <? maxsize_ s)%nat; [apply notify_first_one|done].
  - eexists. by apply (w_run s i t false).
Qed.

Lemma caller_goes_on s i p : pool_inv s → isRunning_ s = false → threads s !! i = Some p → worker p = false → at_rest p = false → p ≠ StopJoin → red own_step s.
Proof.
  intros Hinv Hr Hi Hp Ha Hne. destruct (stopped_nobody_waits s Hinv Hr) as [_ Hw]. rewrite Forall_lookup in Hw. specialize (Hw i p Hi).
  destruct p as [| | | | | | |t m|t [] |t m| | | | |]; try done; eexists.
  - by apply (c_call s i t m false).
  - apply (c_run_move s i t); [done|]. unfold run_section. by rewrite Hr, andb_false_r.
  - eapply (c_run_const s i t); [done|unfold run_section; by rewrite Hr, andb_false_r|apply notify_first_one].
  - eapply (c_notify s i); [done|apply notify_first_one].
  - by apply c_stop_locked.
Qed.

Lemma join_goes_on s i : threads s !! i = Some StopJoin → (∀ j p, threads s !! j = Some p → worker p = true → p = WExit) → red own_step s.
Proof.
  intros Hi Hex. set (is_done := λ p : tp_pc T, match p with StopDone => true | _ => false end).
  destruct (decide (count is_done (threads s) = 0%nat)) as [Hz|Hnz].
  - eexists. apply (c_joined s i); [done..|left]. intros [j Hj]%list_elem_of_lookup. pose proof (count_lookup is_done _ j _ Hj eq_refl). lia.
  - destruct (count_pos is_done (threads s)) as (j & p & Hj & Hp); [lia|]. destruct p; try done. destruct (no_threads s) eqn:En; eexists.
    + apply (c_joined s i); auto.
    + apply (c_join_again s i); [done|by eapply list_elem_of_lookup_2|done].
Qed.

Lemma stopped_rests s : pool_inv s → isRunning_ s = false → Forall (λ p, at_rest p = true) (threads s) ∨ red own_step s.
Proof.
  intros Hinv Hr. destruct (decide (count (λ p, worker p && negb (at_rest p)) (threads s) = 0%nat)) as [Hz|Hnz].
  2: { destruct (count_pos _ (threads s) ltac:(by apply Nat.neq_0_lt_0)) as (i & p & Hi & [Hp Ha%negb_true_iff]%andb_true_iff). right. by eapply worker_goes_on. }
  assert (Hex : ∀ j p, threads s !! j = Some p → worker p = true → p = WExit).
  { intros j p Hj Hp. destruct (at_rest p) eqn:Ha; [by destruct p|].
    pose proof (count_lookup (λ p, worker p && negb (at_rest p)) _ j p Hj) as H0. simpl in H0. rewrite Hp, Ha in H0. specialize (H0 eq_refl). lia. }
  destruct (decide (count (λ p, negb (at_rest p)) (threads s) = 0%nat)) as [Hz'|Hnz'].
  - left. apply Forall_lookup. intros i p Hi. destruct (at_rest p) eqn:Ha; [done|].
    pose proof (count_lookup (λ p, negb (at_rest p)) _ i p Hi) as H0. simpl in H0. rewrite Ha in H0. specialize (H0 eq_refl). lia.
  - right. destruct (count_pos _ (threads s) ltac:(by apply Nat.neq_0_lt_0)) as (i & p & Hi & Ha%negb_true_iff).
    destruct (worker p) eqn:Hp; [by eapply worker_goes_on|]. destruct p; try done; try by eapply caller_goes_on. by eapply join_goes_on.
Qed.

(** Only a second [stop] fails. *)
Definition stopping (p : tp_pc T) : bool := match p with StopTry | StopJoin | StopDone | StopError => true | _ => false end.
Definition is_done (p : tp_pc T) : bool := match p with StopDone => true | _ => false end.
Definition is_error (p : tp_pc T) : bool := match p with StopError => true | _ => false end.
Lemma stopping_unwaked : unwaked stopping.
Proof. intros p q [Hw|Hw]; destruct p; simpl in Hw; try done; by injection Hw as <-. Qed.
Lemma is_done_unwaked : unwaked is_done.
Proof. intros p q [Hw|Hw]; destruct p; simpl in Hw; try done; by injection Hw as <-. Qed.
Lemma is_error_unwaked : unwaked is_error.
Proof. intros p q [Hw|Hw]; destruct p; simpl in Hw; try done; by injection Hw as <-. Qed.

Lemma step_moves s k s' : pool_step s k s' →
  ∃ i p q, threads s !! i = Some p ∧ woken (<[i := q]> (threads s)) (threads s') ∧ is_done p = false ∧
    (is_error q = true → (0 < count is_done (threads s))%nat) ∧ (k = Own → stopping p = stopping q).
Proof.
  intros Hstep.
  destruct Hstep as [i throws Hi|i Hi|i t s' ts Hi Hsec Hn|i s' Hi Hsec|i Hi Hsec|i t throws Hi|i t m Hi
    |i t m throws Hi|i t s' ts Hi Hsec Hn|i t s' Hi Hsec|i ts Hi Hn|i t m Hi Hsec|i Hi|i Hi|i Hi _ _|i Hi Hd _|i p q Hi Hwake].
  - exists i, WInit, (if cb_ s && throws then WExit else WCheck). split_and!; try done; [|by destruct (_ && _)..].
    left. unfold call_init. by destruct (cb_ (set_threads _ _)).
  - exists i, WCheck, (if isRunning_ s then WTake else WExit). split_and!; try done; [by left|by destruct (isRunning_ s)..].
  - exists i, WTake, (WRun t). split_and!; try done. unfold notify_room in Hn. simpl. destruct (0 <? maxsize_ s)%nat; [by right; right; left|by left].
  - exists i, WTake, WCheck. split_and!; try done. by left.
  - exists i, WTake, WWait. split_and!; try done. by left.
  - exists i, (WRun t), (if throws then WExit else WCheck). split_and!; try done; [by left|by destruct throws..].
  - exists i, CIdle, (if no_threads s then RunCall t m else RunTry t m). split_and!; try done; [by left|by destruct (no_threads s)].
  - exists i, (RunCall t m), (if negb throws && m then RunTry t m else CIdle). split_and!; try done; [by left|by destruct (_ && _)..].
  - exists i, (RunTry t false), CIdle. split_and!; try done. by right; left.
  - exists i, (RunTry t true), RunNotify. split_and!; try done. by left.
  - exists i, RunNotify, CIdle. split_and!; try done. by right; left.
  - exists i, (RunTry t m), (RunWait t m). split_and!; try done. by left.
  - exists i, CIdle, StopTry. split_and!; try done. by left.
  - exists i, StopTry, StopJoin. split_and!; try done. by right; right; right.
  - exists i, StopJoin, StopDone. split_and!; try done. by left.
  - exists i, StopJoin, StopError. split_and!; try done; [by left|]. intros _. apply list_elem_of_lookup in Hd as [j Hj]. by eapply (count_lookup is_done _ j).
  - exists i, p, q. split_and!; try done; [by left|..]; destruct Hwake as [Hq|Hq]; destruct p; simpl in Hq; try done; by injection Hq as <-.
Qed.

(** A join fails only after another one, and a [stop] is never forgotten. *)
Lemma error_after_done s s' : ((0 < count is_error (threads s))%nat → (0 < count is_done (threads s))%nat) → any_step s s' →
  (0 < count is_error (threads s'))%nat → (0 < count is_done (threads s'))%nat.
Proof.
  intros Hs [k Hstep] He. destruct (step_moves s k s' Hstep) as (i & p & q & Hi & Hw & Hd & Hq & _).
  rewrite (count_woken _ _ _ is_done_unwaked Hw). rewrite (count_woken _ _ _ is_error_unwaked Hw) in He.
  pose proof (count_insert is_done _ i p q Hi) as H1. pose proof (count_insert is_error _ i p q Hi) as H2. rewrite Hd in H1. simpl in H1.
  assert (0 < count is_done (threads s))%nat; [|lia]. destruct (is_error q); [by apply Hq|]. apply Hs. simpl in H2. lia.
Qed.

Lemma own_stopping s s' : own_step s s' → count stopping (threads s') = count stopping (threads s).
Proof.
  intros Hstep. destruct (step_moves s Own s' Hstep) as (i & p & q & Hi & Hw & _ & _ & Heq).
  rewrite (count_woken _ _ _ stopping_unwaked Hw). pose proof (count_insert stopping _ i p q Hi) as H1. rewrite Heq in H1 by done. lia.
Qed.

Lemma errors_reachable m cb k n s : rtc any_step (start n (ThreadPool_ctor m cb k)) s →
  (0 < count is_error (threads s))%nat → (0 < count is_done (threads s))%nat.
Proof.
  apply (rtc_ind_r (λ s, (0 < count is_error (threads s))%nat → (0 < count is_done (threads s))%nat) (R := any_step)).
  - assert (E : threads (start n (ThreadPool_ctor m cb k : ThreadPool T)) = replicate k CIdle ++ replicate n WInit)
      by (unfold start, call_init; simpl; by destruct (n =? 0)%nat, cb).
    rewrite E, count_started by done. simpl. lia.
  - intros y z _ Hstep Hy. by apply (error_after_done y).
Qed.

Lemma one_stop_ok ts : (count (stopping) ts ≤ 1)%nat → ((0 < count is_error ts)%nat → (0 < count is_done ts)%nat) → (StopError : tp_pc T) ∉ ts.
Proof.
  intros Hone Hdone Hin. assert (Hp : (0 < count is_error ts)%nat) by (apply list_elem_of_lookup in Hin as [i Hi]; by eapply (count_lookup is_error _ i)).
  specialize (Hdone Hp). assert (Hsum : (count is_error ts + count is_done ts ≤ count stopping ts)%nat); [|lia].
  unfold count. clear. induction ts as [|p ts IH]; [done|]. destruct p; simpl; lia.
Qed.
End reach.

(** ** Properties *)


(** A bounded pool with a callback, a worker and a caller that waits for room. *)
Definition busy_pool : ThreadPool nat :=
  mkThreadPool true 1 true [8%nat] [RunWait 9%nat false; WRun 7%nat] [7%nat; 8%nat] [7%nat] [] [] 1.

(** Steps of the code and others. *)
Ltac settle := lazymatch goal with |- rtc _ ?s ?s' => let x := eval vm_compute in s in change (rtc any_step x s') end.
Ltac own c := eapply rtc_l; [exists Own; c|settle].
Ltac outside c := eapply rtc_l; [exists Outside; c|settle].
Ltac nobody := apply notify_nobody; repeat constructor.

Lemma busy_pool_reachable : rtc any_step (start 1 (ThreadPool_ctor 1 true 1)) busy_pool.
Proof.
  outside ltac:(apply (c_run _ 0 7%nat false); reflexivity). own ltac:(eapply (c_run_const _ 0 7%nat); [reflexivity|reflexivity|nobody]).
  own ltac:(apply (w_init _ 1 false); reflexivity). own ltac:(apply (w_check _ 1); reflexivity).
  own ltac:(eapply (w_take _ 1 7%nat); [reflexivity|reflexivity|nobody]).
  outside ltac:(apply (c_run _ 0 8%nat false); reflexivity). own ltac:(eapply (c_run_const _ 0 8%nat); [reflexivity|reflexivity|nobody]).
  outside ltac:(apply (c_run _ 0 9%nat false); reflexivity). own ltac:(apply (c_block _ 0 9%nat false); reflexivity). apply rtc_refl.
Qed.


(** C31: stopping terminates.  Once [stop] has cleared [isRunning_], the threads of the pool and those
    inside its calls come to rest after finitely many steps, whatever their order and whatever is
    queued, without a wakeup from outside and without another call; and rest is reached only when
    every worker has ended and every call has returned.  The join fails only in a second [stop]. *)
Theorem stop_terminates {T} (m : nat) (cb : bool) (k n : nat) (s : ThreadPool T) :
  rtc any_step (start n (ThreadPool_ctor m cb k)) s → isRunning_ s = false →
  sn own_step s ∧ ∀ s', rtc own_step s s' →
    (Forall (λ p, at_rest p = true) (threads s') ∨ red own_step s') ∧
    ((count stopping (threads s) ≤ 1)%nat → StopError ∉ threads s').
Proof.
  intros Hreach Hr. destruct (pool_reachable m cb k n s Hreach) as [Hinv _]. split; [by apply crew_steps_end|]. intros s' Hs.
  assert (Hs' : pool_inv s' ∧ isRunning_ s' = false ∧ rtc any_step (start n (ThreadPool_ctor m cb k)) s' ∧
    count stopping (threads s') = count stopping (threads s)).
  { revert Hs. apply (rtc_ind_r (λ s', pool_inv s' ∧ isRunning_ s' = false ∧ rtc any_step (start n (ThreadPool_ctor m cb k)) s' ∧
      count stopping (threads s') = count stopping (threads s)) (R := own_step)); [done|].
    intros y z _ Hstep (Hy & Hry & Hay & Ey). split_and!; [by eapply pool_inv_step; [|exists Own]|by eapply own_stays| |by rewrite <- Ey; apply own_stopping].
    eapply rtc_r; [exact Hay|by exists Own]. }
  destruct Hs' as (Hinv' & Hr' & Hreach' & Hst). split; [by apply stopped_rests|]. rewrite <- Hst. intros Hone.
  apply one_stop_ok; [done|by eapply errors_reachable].
Qed.

(** A pool stopped while a worker runs a task and another task is queued. *)
Definition stopped_pool : ThreadPool nat :=
  mkThreadPool false 1 false [8%nat] [StopJoin; WRun 7%nat] [7%nat; 8%nat] [7%nat] [] [] 0.

Lemma stopped_pool_reachable : rtc any_step (start 1 (ThreadPool_ctor 1 false 1)) stopped_pool.
Proof.
  outside ltac:(apply (c_run _ 0 7%nat false); reflexivity). own ltac:(eapply (c_run_const _ 0 7%nat); [reflexivity|reflexivity|nobody]).
  own ltac:(apply (w_init _ 1 false); reflexivity). own ltac:(apply (w_check _ 1); reflexivity).
  own ltac:(eapply (w_take _ 1 7%nat); [reflexivity|reflexivity|nobody]).
  outside ltac:(apply (c_run _ 0 8%nat false); reflexivity). own ltac:(eapply (c_run_const _ 0 8%nat); [reflexivity|reflexivity|nobody]).
  outside ltac:(apply (c_stop _ 0); reflexivity). own ltac:(apply (c_stop_locked _ 0); reflexivity). apply rtc_refl.
Qed.

Lemma stop_terminates_witness :
  sn own_step stopped_pool ∧ ∀ s', rtc own_step stopped_pool s' →
    (Forall (λ p, at_rest p = true) (threads s') ∨ red own_step s') ∧
    ((count stopping (threads stopped_pool) ≤ 1)%nat → StopError ∉ threads s').
Proof. exact (stop_terminates 1 false 1 1 stopped_pool stopped_pool_reachable eq_refl). Defined.

(** a task moved into an empty pool is run and queued.  [run(Task&&)] lacks the [else] of
    [run(const Task&)]: on a pool without threads the caller runs the task, and the task is
    queued besides; when the pool is started afterwards, a worker runs it again. *)
Theorem moved_task_runs_twice {T} (t : T) (m : nat) : ∃ s s',
  rtc any_step (ThreadPool_ctor m false 1) s ∧ threads s = [CIdle] ∧ called s = [t] ∧ queue_ s = [t] ∧
  rtc any_step (start 1 s) s' ∧ called s' = [t] ∧ ran s' = [t].
Proof.
  eexists. eexists. split_and!.
  - outside ltac:(apply (c_run _ 0 t true); reflexivity). own ltac:(apply (c_call _ 0 t true false); reflexivity).
    own ltac:(eapply (c_run_move _ 0 t); [reflexivity|unfold run_section; by rewrite andb_false_r]).
    own ltac:(eapply (c_notify _ 0); [reflexivity|nobody]). apply rtc_refl.
  - done.
  - done.
  - done.
  - own ltac:(apply (w_init _ 1 false); reflexivity). own ltac:(apply (w_check _ 1); reflexivity).
    own ltac:(eapply (w_take _ 1 t); [reflexivity|reflexivity|unfold notify_room; simpl; destruct (0 <? m)%nat; [nobody|reflexivity]]).
    own ltac:(apply (w_run _ 1 t false); reflexivity). apply rtc_refl.
  - done.
  - done.
Qed.

(** On a started pool without threads nobody takes what is queued so: when the queue has a limit and is
    full, the next caller waits for good. *)
Theorem moved_task_blocks {T} (t t' : T) : ∃ s, rtc any_step (start 0 (ThreadPool_ctor 1 false 1)) s ∧
  threads s = [RunWait t' true] ∧ called s = [t; t'] ∧ ¬ red own_step s.
Proof.
  eexists. split_and!.
  - outside ltac:(apply (c_run _ 0 t true); reflexivity). own ltac:(apply (c_call _ 0 t true false); reflexivity).
    own ltac:(eapply (c_run_move _ 0 t); reflexivity). own ltac:(eapply (c_notify _ 0); [reflexivity|nobody]).
    outside ltac:(apply (c_run _ 0 t' true); reflexivity). own ltac:(apply (c_call _ 0 t' true false); reflexivity).
    own ltac:(apply (c_block _ 0 t' true); reflexivity). apply rtc_refl.
  - done.
  - done.
  - intros [s' Hstep]. unfold own_step in Hstep. remember Own as kd. inversion Hstep as [i ? Hi|i Hi|i ? ? ? Hi|i ? Hi|i Hi|i ? ? Hi|i ? ? Hi|i ? ? ? Hi|i ? ? ? Hi|i ? ? Hi
      |i ? Hi|i ? ? Hi|i Hi|i Hi|i Hi|i Hi|i ? ? Hi]; subst; try done; by destruct i as [|[|i]].
Qed.
