(* ===== verification/BoostPool.v ===== *)
(** * BoostPool: src/benchmarks/threadPool_benchmark/threadpool, the pool that Ham's is measured against

    pool_core.hpp with worker_thread.hpp as a transition system over any number of callers and a
    changing number of workers; the schedulers of scheduling_policies.hpp behind the interface
    that the pool uses; static_size of size_policies.hpp and the three shutdown policies.  Tasks are
    values; running one is recorded in [executed].  A critical section is one step, and waiting
    on a condition is a point of a thread, as in Monitor.v.  A task that throws is taken to end its
    worker only: the exception leaves worker_thread::run, and what boost::thread does with it is
    its own business.  The callers' joins and destructors of the workers are not steps. *)
From S2P Require Import Prelude Monitor.

(** ** Schedulers *)
Class Scheduler (S T : Type) := {
  sc_items : S → list T;          (* what is stored, the order of the list means nothing *)
  sc_new : S;
  sc_push : T → S → option S;     (* None: push returns false *)
  sc_pop : S → S;
  sc_top : S → option T;
  sc_size : S → nat;
  sc_empty : S → bool;
  sc_clear : S → S
}.

Class SchedulerLaws (S T : Type) `{Scheduler S T} : Prop := {
  law_new : sc_items sc_new = [];
  law_push x s s' : sc_push x s = Some s' → sc_items s' ≡ₚ x :: sc_items s;
  law_size s : sc_size s = length (sc_items s);
  law_empty s : sc_empty s = match sc_items s with [] => true | _ => false end;
  law_top s : sc_items s ≠ [] → ∃ x, sc_top s = Some x ∧ sc_items s ≡ₚ x :: sc_items (sc_pop s);
  law_clear s : sc_items (sc_clear s) = []
}.

(** fifo_scheduler and lifo_scheduler differ in the end of the deque that [push] uses. *)
Record fifo_scheduler (T : Type) := mkFifo { fifo_container : list T }.
Record lifo_scheduler (T : Type) := mkLifo { lifo_container : list T }.
Arguments mkFifo {T}. Arguments fifo_container {T}. Arguments mkLifo {T}. Arguments lifo_container {T}.

#[export] Instance fifo_ops {T} : Scheduler (fifo_scheduler T) T := {|
  sc_items := fifo_container;
  sc_new := mkFifo [];
  sc_push x s := Some (mkFifo (fifo_container s ++ [x]));
  sc_pop s := mkFifo (tail (fifo_container s));
  sc_top s := head (fifo_container s);
  sc_size s := length (fifo_container s);
  sc_empty s := match fifo_container s with [] => true | _ => false end;
  sc_clear s := mkFifo [] |}.

#[export] Instance lifo_ops {T} : Scheduler (lifo_scheduler T) T := {|
  sc_items := lifo_container;
  sc_new := mkLifo [];
  sc_push x s := Some (mkLifo (x :: lifo_container s));
  sc_pop s := mkLifo (tail (lifo_container s));
  sc_top s := head (lifo_container s);
  sc_size s := length (lifo_container s);
  sc_empty s := match lifo_container s with [] => true | _ => false end;
  sc_clear s := mkLifo [] |}.

#[export] Instance fifo_laws {T} : SchedulerLaws (fifo_scheduler T) T.
Proof.
  split; try done.
  - intros x s s' [= <-]. simpl. by rewrite Permutation_app_comm.
  - intros [[|x l]]; simpl; [done|]. intros _. by exists x.
Qed.

#[export] Instance lifo_laws {T} : SchedulerLaws (lifo_scheduler T) T.
Proof.
  split; try done.
  - by intros x s s' [= <-].
  - intros [[|x l]]; simpl; [done|]. intros _. by exists x.
Qed.

(** std::priority_queue, which of several greatest elements is on top being its own choice. *)
Class PriorityQueue (Q T : Type) := {
  pq_items : Q → list T;
  pq_new : Q;
  pq_push : T → Q → Q;
  pq_pop : Q → Q;
  pq_top : Q → option T
}.

Class PriorityQueueLaws (Q T : Type) (less : T → T → bool) `{PriorityQueue Q T} : Prop := {
  pq_law_new : pq_items pq_new = [];
  pq_law_push x q : pq_items (pq_push x q) ≡ₚ x :: pq_items q;
  pq_law_top q : pq_items q ≠ [] → ∃ x, pq_top q = Some x ∧ pq_items q ≡ₚ x :: pq_items (pq_pop q) ∧
    ∀ y, y ∈ pq_items q → less x y = false
}.

Record prio_scheduler (Q : Type) := mkPrio { prio_container : Q }.
Arguments mkPrio {Q}. Arguments prio_container {Q}.

(** [clear] pops until the queue is empty. *)
Fixpoint prio_clear {Q T} `{PriorityQueue Q T} (fuel : nat) (q : Q) : Q :=
  match fuel with
  | O => q
  | S fuel => match pq_items (T := T) q with [] => q | _ => prio_clear fuel (pq_pop q) end
  end.

#[export] Instance prio_ops {Q T} `{PriorityQueue Q T} : Scheduler (prio_scheduler Q) T := {|
  sc_items s := pq_items (prio_container s);
  sc_new := mkPrio pq_new;
  sc_push x s := Some (mkPrio (pq_push x (prio_container s)));
  sc_pop s := mkPrio (pq_pop (prio_container s));
  sc_top s := pq_top (prio_container s);
  sc_size s := length (pq_items (prio_container s));
  sc_empty s := match pq_items (prio_container s) with [] => true | _ => false end;
  sc_clear s := mkPrio (prio_clear (length (pq_items (T := T) (prio_container s))) (prio_container s)) |}.

Lemma prio_clear_items {Q T} less `{PriorityQueueLaws Q T less} fuel (q : Q) :
  (length (pq_items (T := T) q) ≤ fuel)%nat → pq_items (T := T) (prio_clear (T := T) fuel q) = [].
Proof.
  revert q. induction fuel as [|fuel IH]; intros q Hf; simpl.
  - destruct (pq_items q); [done|simpl in Hf; lia].
  - destruct (pq_items q) as [|y l] eqn:E; [done|]. apply IH.
    destruct (pq_law_top q) as (x & _ & Hp & _); [by rewrite E|]. apply Permutation_length in Hp.
    rewrite E in Hp. simpl in *. lia.
Qed.

Lemma prio_laws {Q T} less `{PriorityQueueLaws Q T less} : SchedulerLaws (prio_scheduler Q) T.
Proof.
  split; try done; simpl.
  - apply pq_law_new.
  - intros x s s' [= <-]. apply pq_law_push.
  - intros s Hne. destruct (pq_law_top (prio_container s) Hne) as (x & Hx & Hp & _). by exists x.
  - intros s. by apply (prio_clear_items less).
Qed.

(** ** The points of a thread's code *)

(** What follows a wait in the same call: nothing, or the second half of a shutdown. *)
Inductive after_wait := WaitReturns | ThenTerminate.

Inductive bp_pc (T : Type) :=
(* workers, in worker_thread::run *)
| KFetch              (* in execute_task, before the lock *)
| KWait               (* in m_task_or_terminate_workers_event.wait *)
| KWoken              (* the wait is over, the mutex not yet taken *)
| KRun (t : T)        (* task() *)
| KLeave              (* execute_task returned false; before worker_destructed *)
| KDied               (* the task threw; before worker_died_unexpectedly *)
| KEnd
(* callers *)
| UIdle
| UWait (threshold : nat) (timed : bool) (k : after_wait)    (* in wait, at the loop's condition *)
| USleep (threshold : nat) (timed : bool) (k : after_wait)   (* in m_worker_idle_or_terminated_event.wait *)
| UTermStart (wait : bool)   (* before the lock of terminate_all_workers *)
| UTerm               (* in terminate_all_workers(true), at the loop's condition *)
| UTermSleep
| UDown.              (* the shutdown has returned *)
Arguments KFetch {T}. Arguments KWait {T}. Arguments KWoken {T}. Arguments KRun {T}. Arguments KLeave {T}.
Arguments KDied {T}. Arguments KEnd {T}. Arguments UIdle {T}. Arguments UWait {T}. Arguments USleep {T}.
Arguments UTermStart {T}. Arguments UTerm {T}. Arguments UTermSleep {T}. Arguments UDown {T}.

(** m_task_or_terminate_workers_event and m_worker_idle_or_terminated_event. *)
Definition wake_task {T} (p : bp_pc T) : option (bp_pc T) := match p with KWait => Some KWoken | _ => None end.
Definition wake_idle {T} (p : bp_pc T) : option (bp_pc T) :=
  match p with USleep n b k => Some (UWait n b k) | UTermSleep => Some UTerm | _ => None end.

(** Workers that belong to the pool, and those of them that are counted as active. *)
Definition attached {T} (p : bp_pc T) : bool :=
  match p with KFetch | KWait | KWoken | KRun _ | KLeave | KDied => true | _ => false end.
Definition counted {T} (p : bp_pc T) : bool :=
  match p with KFetch | KRun _ | KLeave | KDied => true | _ => false end.
Definition woken {T} (p : bp_pc T) : bool := match p with KWoken => true | _ => false end.
Definition running {T} (p : bp_pc T) : list T := match p with KRun t => [t] | _ => [] end.

(** The pool with its threads, the callers first; as history the tasks scheduled, cleared and run. *)
Record pool_core (S T : Type) := mkCore {
  m_worker_count : Z;
  m_target_worker_count : Z;
  m_active_worker_count : Z;
  m_scheduler : S;
  m_terminate_all_workers : bool;
  m_terminated_workers : list nat;
  threads : list (bp_pc T);
  scheduled : list T;
  cleared : list T;
  executed : list T
}.
Arguments mkCore {S T}. Arguments m_worker_count {S T}. Arguments m_target_worker_count {S T}.
Arguments m_active_worker_count {S T}. Arguments m_scheduler {S T}. Arguments m_terminate_all_workers {S T}.
Arguments m_terminated_workers {S T}. Arguments threads {S T}. Arguments scheduled {S T}. Arguments cleared {S T}.
Arguments executed {S T}.

Section pool.
Context {S T : Type} `{SchedulerLaws S T}.
Abbreviation core := (pool_core S T).
Implicit Types s : core.

Definition pool_core_ctor (callers : nat) : core :=
  mkCore 0 0 0 (sc_clear sc_new) false [] (replicate callers UIdle) [] [] [].

Definition set_threads ts s : core :=
  mkCore (m_worker_count s) (m_target_worker_count s) (m_active_worker_count s) (m_scheduler s)
    (m_terminate_all_workers s) (m_terminated_workers s) ts (scheduled s) (cleared s) (executed s).
Definition move i p s : core := set_threads (<[i := p]> (threads s)) s.
Definition set_counts (w t a : Z) s : core :=
  mkCore w t a (m_scheduler s) (m_terminate_all_workers s) (m_terminated_workers s) (threads s) (scheduled s)
    (cleared s) (executed s).
Definition set_scheduler q s : core :=
  mkCore (m_worker_count s) (m_target_worker_count s) (m_active_worker_count s) q (m_terminate_all_workers s)
    (m_terminated_workers s) (threads s) (scheduled s) (cleared s) (executed s).
Definition set_terminate b l s : core :=
  mkCore (m_worker_count s) (m_target_worker_count s) (m_active_worker_count s) (m_scheduler s) b l (threads s)
    (scheduled s) (cleared s) (executed s).
Definition set_history sch cl ex s : core :=
  mkCore (m_worker_count s) (m_target_worker_count s) (m_active_worker_count s) (m_scheduler s)
    (m_terminate_all_workers s) (m_terminated_workers s) (threads s) sch cl ex.

Definition add_active (d : Z) s : core :=
  set_counts (m_worker_count s) (m_target_worker_count s) (m_active_worker_count s + d) s.

(** *** Operations, under the mutex *)
Definition size s : Z := m_worker_count s.
Definition active s : Z := m_active_worker_count s.
Definition pending s : nat := sc_size (m_scheduler s).
Definition empty s : bool := sc_empty (m_scheduler s).

(** The new pool, if the scheduler takes the task. *)
Definition schedule (t : T) s : option core :=
  match sc_push t (m_scheduler s) with
  | Some q => Some (set_history (scheduled s ++ [t]) (cleared s) (executed s) (set_scheduler q s))
  | None => None
  end.

Definition clear s : core :=
  set_history (scheduled s) (cleared s ++ sc_items (m_scheduler s)) (executed s)
    (set_scheduler (sc_clear (m_scheduler s)) s).

(** The condition of the loops in [wait]. *)
Definition wait_blocks (task_threshold : nat) s : bool :=
  if (task_threshold =? 0)%nat then negb (m_active_worker_count s =? 0) || negb (empty s)
  else Z.of_nat task_threshold <? m_active_worker_count s + Z.of_nat (pending s).

(** [resize]; [fails] tells after how many threads there is a thread_resource_error. *)
Definition create_workers (n : nat) s : core :=
  set_threads (threads s ++ replicate n KFetch)
    (set_counts (m_worker_count s + Z.of_nat n) (m_target_worker_count s) (m_active_worker_count s + Z.of_nat n) s).

Definition resize (worker_count : Z) (fails : option nat) s : bool * core :=
  if m_terminate_all_workers s then (false, s)
  else
    let s := set_counts (m_worker_count s) worker_count (m_active_worker_count s) s in
    if m_worker_count s <=? worker_count then
      let n := Z.to_nat (worker_count - m_worker_count s) in
      match fails with
      | Some j => if (j <? n)%nat then (false, create_workers j s) else (true, create_workers n s)
      | None => (true, create_workers n s)
      end
    else (true, set_threads (notify_all wake_task (threads s)) s).

(** A worker leaves: by itself, or because its task threw; then static_size asks for another one. *)
Definition worker_gone (i : nat) s : core :=
  let s := set_counts (m_worker_count s - 1) (m_target_worker_count s) (m_active_worker_count s - 1) (move i KEnd s) in
  set_threads (notify_all wake_idle (threads s)) s.
Definition worker_destructed (i : nat) s : core :=
  let s := worker_gone i s in
  if m_terminate_all_workers s then set_terminate true (m_terminated_workers s ++ [i]) s else s.
Definition worker_died_unexpectedly (i : nat) (fails : option nat) s : core :=
  let s := worker_gone i s in
  if m_terminate_all_workers s then set_terminate true (m_terminated_workers s ++ [i]) s
  else (resize (m_worker_count s + 1) fails s).2.

(** [execute_task] from a point where the worker is counted as active, up to the next unlock. *)
Definition too_many s : bool := m_target_worker_count s <? m_worker_count s.

Definition take_or_wait (i : nat) s : core :=
  if empty s then
    if too_many s then move i KLeave s
    else
      let s := add_active (-1) s in
      move i KWait (set_threads (notify_all wake_idle (threads s)) s)
  else
    match sc_top (m_scheduler s) with
    | Some t => move i (KRun t) (set_scheduler (sc_pop (m_scheduler s)) s)
    | None => s
    end.
Definition fetch (i : nat) s : core := if too_many s then move i KLeave s else take_or_wait i s.
Definition wake_up (i : nat) s : core := take_or_wait i (add_active 1 s).

Definition run_task (i : nat) (t : T) (throws : bool) s : core :=
  move i (if throws then KDied else KFetch) (set_history (scheduled s) (cleared s) (executed s ++ [t]) s).

(** [terminate_all_workers], up to its loop; and its end, when the loop is left. *)
Definition terminate_begin s : core :=
  set_threads (notify_all wake_task (threads s))
    (set_counts (m_worker_count s) 0 (m_active_worker_count s) (set_terminate true (m_terminated_workers s) s)).
Definition terminate_end s : core := set_terminate (m_terminate_all_workers s) [] s.

(** The shutdown policies: what a caller does first, and where it goes on. *)
Inductive shutdown_policy := wait_for_all_tasks | wait_for_active_tasks | immediately.
Definition shutdown (policy : shutdown_policy) (i : nat) s : core :=
  match policy with
  | wait_for_all_tasks => move i (UWait 0 false ThenTerminate) s
  | wait_for_active_tasks => move i (UWait 0 false ThenTerminate) (clear s)
  | immediately => move i (UTermStart false) (clear s)
  end.

Inductive pool_step s : core → Prop :=
| c_schedule i t s' ts : threads s !! i = Some UIdle → schedule t s = Some s' →
    notify_one wake_task (threads s) ts → pool_step s (set_threads ts s')
| c_clear i : threads s !! i = Some UIdle → pool_step s (clear s)
| c_resize i n fails : threads s !! i = Some UIdle → 0 ≤ n → pool_step s (resize n fails s).2
| c_wait i n timed : threads s !! i = Some UIdle → pool_step s (move i (UWait n timed WaitReturns) s)
| c_shutdown i policy : threads s !! i = Some UIdle → pool_step s (shutdown policy i s)
| u_sleep i n timed k : threads s !! i = Some (UWait n timed k) → wait_blocks n s = true →
    pool_step s (move i (USleep n timed k) s)
| u_return i n timed : threads s !! i = Some (UWait n timed WaitReturns) → wait_blocks n s = false →
    pool_step s (move i UIdle s)
| u_terminate i n timed : threads s !! i = Some (UWait n timed ThenTerminate) → wait_blocks n s = false →
    pool_step s (move i (UTermStart true) s)
| u_term_start i wait : threads s !! i = Some (UTermStart wait) →
    pool_step s (move i (if wait then UTerm else UDown) (terminate_begin s))
| u_timeout i n k : threads s !! i = Some (USleep n true k) → pool_step s (move i UIdle s)
| u_term_sleep i : threads s !! i = Some UTerm → 0 < m_active_worker_count s → pool_step s (move i UTermSleep s)
| u_term_done i : threads s !! i = Some UTerm → m_active_worker_count s ≤ 0 →
    pool_step s (move i UDown (terminate_end s))
| k_fetch i : threads s !! i = Some KFetch → pool_step s (fetch i s)
| k_woken i : threads s !! i = Some KWoken → pool_step s (wake_up i s)
| k_run i t throws : threads s !! i = Some (KRun t) → pool_step s (run_task i t throws s)
| k_leave i : threads s !! i = Some KLeave → pool_step s (worker_destructed i s)
| k_died i fails : threads s !! i = Some KDied → pool_step s (worker_died_unexpectedly i fails s)
| spurious i p q : threads s !! i = Some p → wake_task p = Some q ∨ wake_idle p = Some q →
    pool_step s (move i q s).

(** ** The invariant *)
Definition sleeping (p : bp_pc T) : bool := match p with USleep O _ _ => true | _ => false end.
Definition term_sleeping (p : bp_pc T) : bool := match p with UTermSleep => true | _ => false end.

Record pool_inv s : Prop := {
  pi_workers : m_worker_count s = Z.of_nat (count attached (threads s));
  pi_active : m_active_worker_count s = Z.of_nat (count counted (threads s));
  pi_tasks : executed s ++ gather running (threads s) ++ sc_items (m_scheduler s) ++ cleared s ≡ₚ scheduled s;
  pi_wake : (0 < count (waits wake_task) (threads s))%nat →
    (length (sc_items (m_scheduler s)) ≤ count woken (threads s))%nat;
  pi_sleep : (0 < count sleeping (threads s))%nat →
    (0 < count counted (threads s) + length (sc_items (m_scheduler s)) + count woken (threads s))%nat ∨
    count attached (threads s) = 0%nat;
  pi_term : (0 < count term_sleeping (threads s))%nat → (0 < count counted (threads s))%nat
}.

Lemma empty_spec s : empty s = true ↔ sc_items (m_scheduler s) = [].
Proof. unfold empty. rewrite law_empty. by destruct (sc_items (m_scheduler s)). Qed.

(** Workers are attached and counted, or wait, or are woken. *)
Lemma attached_split (ts : list (bp_pc T)) :
  count attached ts = (count counted ts + count (waits wake_task) ts + count woken ts)%nat.
Proof. rewrite !count_weigh. unfold weigh. induction ts as [|[] ts IH]; simpl; lia. Qed.

Ltac counts Hi q :=
  count_move attached Hi q; count_move counted Hi q; count_move woken Hi q; count_move sleeping Hi q;
  count_move term_sleeping Hi q; count_move (waits wake_task) Hi q.

(** The counters of the idle event's notification, and of the other one's. *)
Lemma notify_idle (ts : list (bp_pc T)) :
  let ts' := notify_all wake_idle ts in
  count attached ts' = count attached ts ∧ count counted ts' = count counted ts ∧ count woken ts' = count woken ts ∧
  count (waits wake_task) ts' = count (waits wake_task) ts ∧ count sleeping ts' = 0%nat ∧ count term_sleeping ts' = 0%nat ∧
  gather running ts' = gather running ts.
Proof.
  split_and!; try (apply count_notify_all; intros [] q; simpl; try done; by intros [= <-]).
  - apply count_zero, Forall_forall. intros p. unfold notify_all. rewrite list_elem_of_fmap. intros (x & -> & _).
    by destruct x as [| | | | | | | |? ? ?|[] ? ?| | | |].
  - apply count_zero, Forall_forall. intros p. unfold notify_all. rewrite list_elem_of_fmap. intros (x & -> & _).
    by destruct x as [| | | | | | | |? ? ?|[] ? ?| | | |].
  - unfold gather, notify_all. induction ts as [|[] ts IH]; simpl; by rewrite ?IH.
Qed.

Lemma notify_task (ts : list (bp_pc T)) :
  let ts' := notify_all wake_task ts in
  count attached ts' = count attached ts ∧ count counted ts' = count counted ts ∧
  count woken ts' = (count woken ts + count (waits wake_task) ts)%nat ∧ count (waits wake_task) ts' = 0%nat ∧
  count sleeping ts' = count sleeping ts ∧ count term_sleeping ts' = count term_sleeping ts ∧
  gather running ts' = gather running ts.
Proof.
  split_and!; try (apply count_notify_all; intros [] q; simpl; try done; by intros [= <-]).
  - rewrite !count_weigh. unfold weigh, notify_all. induction ts as [|[] ts IH]; simpl; lia.
  - apply notify_all_nobody. intros [] q; simpl; try done. by intros [= <-].
  - unfold gather, notify_all. induction ts as [|[] ts IH]; simpl; by rewrite ?IH.
Qed.

(** A caller goes from one point to another. *)
Definition calm (p : bp_pc T) : bool :=
  match p with UIdle | UWait _ _ _ | UTermStart _ | UTerm | UDown => true | USleep (Datatypes.S _) _ _ => true | _ => false end.

Lemma calm_spec p : calm p = true → attached p = false ∧ counted p = false ∧ woken p = false ∧ sleeping p = false ∧
  term_sleeping p = false ∧ waits wake_task p = false ∧ running p = [].
Proof. destruct p as [| | | | | | | |? ? ?|[] ? ?| | | |]; simpl; try done. Qed.

Lemma inv_move s i p q : pool_inv s → threads s !! i = Some p → attached p = false → calm q = true → pool_inv (move i q s).
Proof.
  intros [Hw Ha Ht Hk Hs Hm] Hi Hp Hq. counts Hi q. destruct (calm_spec q Hq) as (E1 & E2 & E3 & E4 & E5 & E6 & E7).
  assert (Hp' : counted p = false ∧ woken p = false ∧ waits wake_task p = false ∧ running p = []) by by destruct p.
  destruct Hp' as (P2 & P3 & P4 & P5). rewrite Hp, P2, P3, P4, E1, E2, E3, E4, E5, E6 in *.
  split; simpl in *; [lia|lia| |lia..]. by rewrite (gather_same running _ _ p q Hi) by congruence.
Qed.

Lemma inv_clear s : pool_inv s → pool_inv (clear s).
Proof.
  intros [Hw Ha Ht Hk Hs Hm]. split; simpl; try done; rewrite law_clear.
  - rewrite <- Ht. simpl. solve_Permutation.
  - simpl. lia.
  - pose proof (attached_split (threads s)). simpl in *. lia.
Qed.

Lemma inv_terminate_begin s : pool_inv s → pool_inv (terminate_begin s).
Proof.
  intros [Hw Ha Ht Hk Hs Hm]. destruct (notify_task (threads s)) as (N1 & N2 & N3 & N4 & N5 & N6 & N7).
  split; simpl; rewrite ?N1, ?N2, ?N3, ?N4, ?N5, ?N6, ?N7; try done; lia.
Qed.

Lemma inv_resize n fails s : pool_inv s → pool_inv (resize n fails s).2.
Proof.
  intros Hinv. pose proof Hinv as [Hw Ha Ht Hk Hs Hm]. unfold resize. destruct (m_terminate_all_workers s); [done|].
  assert (Hc : ∀ k, pool_inv (create_workers k (set_counts (m_worker_count s) n (m_active_worker_count s) s))).
  { intros k. split; simpl; rewrite ?count_app, ?count_replicate; simpl; try lia.
    unfold gather in *. rewrite map_app, concat_app.
    assert (Hnil : concat (map running (replicate k KFetch)) = @nil T) by (induction k; done).
    by rewrite Hnil, app_nil_r. }
  case_match; simpl.
  - destruct fails as [j|]; [case_match|]; apply Hc.
  - destruct (notify_task (threads s)) as (N1 & N2 & N3 & N4 & N5 & N6 & N7).
    split; simpl; rewrite ?N1, ?N2, ?N3, ?N4, ?N5, ?N6, ?N7; try done; lia.
Qed.

Lemma inv_worker_gone i p s : pool_inv s → threads s !! i = Some p → p = KLeave ∨ p = KDied → pool_inv (worker_gone i s).
Proof.
  intros [Hw Ha Ht Hk Hs Hm] Hi Hp. unfold worker_gone. simpl.
  counts Hi (@KEnd T). destruct (notify_idle (<[i := KEnd]> (threads s))) as (N1 & N2 & N3 & N4 & N5 & N6 & N7).
  split; simpl; rewrite ?N1, ?N2, ?N3, ?N4, ?N5, ?N6, ?N7; [..|rewrite (gather_same running _ _ p KEnd Hi) by by destruct Hp as [->| ->]| | |]; try done;
    destruct Hp as [->| ->]; simpl in *; lia.
Qed.

Lemma inv_terminated s b l : pool_inv s → pool_inv (set_terminate b l s).
Proof. by intros []. Qed.

(** The worker takes the first task, waits, or leaves. *)
Lemma inv_take_or_wait i p d s : pool_inv s → threads s !! i = Some p → p = KFetch ∧ d = 0 ∨ p = KWoken ∧ d = 1 →
  pool_inv (take_or_wait i (add_active d s)).
Proof.
  intros [Hw Ha Ht Hk Hs Hm] Hi Hp. unfold take_or_wait. change (empty (add_active d s)) with (empty s).
  assert (Hrun : running p = []) by by destruct Hp as [[-> _]|[-> _]].
  destruct (empty s) eqn:Ee.
  - apply empty_spec in Ee. change (too_many (add_active d s)) with (too_many s). destruct (too_many s).
    + counts Hi (@KLeave T). split; simpl; rewrite ?Ee in *; simpl in *;
        try (destruct Hp as [[-> ->]|[-> ->]]; simpl in *; lia).
      by rewrite (gather_same running _ _ p KLeave Hi) by by rewrite Hrun.
    + destruct (notify_idle (threads s)) as (N1 & N2 & N3 & N4 & N5 & N6 & N7).
      assert (Hi' : notify_all wake_idle (threads s) !! i = Some p).
      { unfold notify_all. change (map ?f ?l) with (f <$> l). rewrite list_lookup_fmap, Hi.
        by destruct Hp as [[-> _]|[-> _]]. }
      counts Hi' (@KWait T). rewrite ?N1, ?N2, ?N3, ?N4, ?N5, ?N6 in *.
      split; simpl; rewrite ?Ee in *; simpl in *; try (destruct Hp as [[-> ->]|[-> ->]]; simpl in *; lia).
      by rewrite (gather_same running _ _ p KWait Hi'), N7 by by rewrite Hrun.
  - change (m_scheduler (add_active d s)) with (m_scheduler s).
    destruct (law_top (m_scheduler s)) as (t & Htop & Hperm).
    { intros E. apply empty_spec in E. congruence. }
    rewrite Htop. counts Hi (KRun t). pose proof (Permutation_length Hperm) as Hlen. simpl in Hlen.
    pose proof (count_lookup counted _ i (KRun t) (list_lookup_insert_eq _ _ _ (lookup_lt_Some _ _ _ Hi)) eq_refl).
    split; simpl; try (destruct Hp as [[-> ->]|[-> ->]]; simpl in *; lia).
    pose proof (gather_insert running _ i p (KRun t) Hi) as Hg. rewrite Hrun, app_nil_r in Hg. rewrite Hg, <- Ht, Hperm.
    simpl. solve_Permutation.
Qed.

Lemma inv_step s s' : pool_inv s → pool_step s s' → pool_inv s'.
Proof.
  intros Hinv Hstep. pose proof Hinv as [Hw Ha Ht Hk Hs Hm].
  destruct Hstep as [i t s' ts Hi Hsch Hn|i Hi|i n fails Hi _|i n timed Hi|i policy Hi|i n timed k Hi Hb|i n timed Hi Hb
    |i n timed Hi Hb|i wait Hi|i n k Hi|i Hi Hpos|i Hi Hz|i Hi|i Hi|i t throws Hi|i Hi|i fails Hi|i p q Hi Hq];
    try (by eapply inv_move).
  - unfold schedule in Hsch. destruct (sc_push t (m_scheduler s)) as [q|] eqn:Eq; [|done]. injection Hsch as <-.
    apply law_push in Eq. pose proof (Permutation_length Eq) as Hlen. simpl in Hlen.
    assert (Hother : ∀ f, (f KWait = f KWoken) → count f ts = count f (threads s)).
    { intros f Hf. apply (count_notify_other wake_task); [done|]. intros [] r; simpl; try done. by intros [= <-]. }
    destruct (notify_one_wakes wake_task woken (threads s) ts Hn) as [Hle Hwake].
    { intros [] r; simpl; try done. by intros [= <-]. }
    assert (Hw' : (count woken (threads s) ≤ count woken ts)%nat).
    { apply (count_notify_le wake_task); [done|]. intros [] r; simpl; try done. }
    split; simpl; rewrite ?(Hother attached), ?(Hother counted), ?(Hother sleeping), ?(Hother term_sleeping) by done; try done; try lia.
    rewrite (gather_notify_one running _ _ _ Hn) by (intros [] r; simpl; try done; by intros [= <-]).
    rewrite <- Ht, Eq. solve_Permutation.
  - by apply inv_clear.
  - by apply inv_resize.
  - destruct policy; simpl; eapply inv_move; try done; by apply inv_clear.
  - counts Hi (@USleep T n timed k). destruct n as [|n]; [|by eapply inv_move].
    assert (Hsome : (0 < count counted (threads s) + length (sc_items (m_scheduler s)))%nat).
    { unfold wait_blocks in Hb. apply orb_true_iff in Hb as [Hb|Hb].
      - apply negb_true_iff, Z.eqb_neq in Hb. lia.
      - apply negb_true_iff in Hb. destruct (sc_items (m_scheduler s)) eqn:E; [|simpl; lia].
        apply empty_spec in E. congruence. }
    split; simpl in *; try lia. by rewrite (gather_same running _ _ _ (USleep 0 timed k) Hi).
  - apply (inv_move _ i (UTermStart wait)); [by apply inv_terminate_begin| |done|by destruct wait]. simpl. unfold notify_all.
    change (map ?f ?l) with (f <$> l). by rewrite list_lookup_fmap, Hi.
  - counts Hi (@UTermSleep T). split; simpl in *; try lia. by rewrite (gather_same running _ _ _ UTermSleep Hi).
  - unfold fetch. destruct (too_many s).
    + counts Hi (@KLeave T). pose proof (count_lookup counted _ i KLeave (list_lookup_insert_eq _ _ _ (lookup_lt_Some _ _ _ Hi)) eq_refl).
      split; simpl in *; try lia. by rewrite (gather_same running _ _ KFetch KLeave Hi).
    + replace s with (add_active 0 s) at 1; [apply (inv_take_or_wait i KFetch); auto|].
      destruct s. unfold add_active, set_counts. simpl. by rewrite Z.add_0_r.
  - by apply (inv_take_or_wait i KWoken); auto.
  - set (q := if throws then @KDied T else KFetch). counts Hi q.
    assert (Hq : attached q = true ∧ counted q = true ∧ woken q = false ∧ sleeping q = false ∧ term_sleeping q = false ∧
      waits wake_task q = false ∧ running q = []) by by destruct throws.
    destruct Hq as (E1 & E2 & E3 & E4 & E5 & E6 & E7).
    pose proof (count_lookup counted _ i q (list_lookup_insert_eq _ _ _ (lookup_lt_Some _ _ _ Hi)) E2).
    rewrite E1, E2, E3, E4, E5, E6 in *.
    split; simpl in *; fold q; try lia. pose proof (gather_insert running _ i (KRun t) q Hi) as Hg. rewrite E7, app_nil_r in Hg.
    rewrite <- Ht, <- Hg. simpl. solve_Permutation.
  - unfold worker_destructed. assert (Hg : pool_inv (worker_gone i s)) by (eapply inv_worker_gone; eauto).
    case_match; [by apply inv_terminated|done].
  - unfold worker_died_unexpectedly. assert (Hg : pool_inv (worker_gone i s)) by (eapply inv_worker_gone; eauto).
    case_match; [by apply inv_terminated|by apply inv_resize].
  - destruct Hq as [Hq|Hq].
    + destruct p; simpl in Hq; try done. injection Hq as <-. counts Hi (@KWoken T).
      split; simpl in *; try lia. by rewrite (gather_same running _ _ KWait KWoken Hi).
    + destruct p; simpl in Hq; try done; injection Hq as <-; by eapply inv_move.
Qed.

Lemma inv_start callers : pool_inv (pool_core_ctor callers).
Proof.
  split; simpl; rewrite ?count_replicate, ?law_clear; simpl; try lia.
  rewrite gather_nil; [done|]. by apply Forall_replicate.
Qed.

Lemma boost_reachable callers s : rtc pool_step (pool_core_ctor callers) s → pool_inv s.
Proof.
  apply (rtc_ind_r pool_inv (R := pool_step)); [apply inv_start|]. intros y z _ Hstep Hinv. by eapply inv_step.
Qed.
End pool.

(** ** What the pool promises *)

(** In every interleaving, however the pool is resized, waited for and shut down: the counters
    count the workers; every task that was scheduled is waiting, running, has been run or was
    cleared, once; when [wait] without a threshold returns, everything has been run or
    cleared; no worker sleeps while a task waits unless another one has been woken; and a caller
    whose wait is over is woken by a worker that is on its way, unless there is no worker. *)
Theorem boost_pool_correct {S T} `{SchedulerLaws S T} (callers : nat) (s : pool_core S T) :
  rtc pool_step (pool_core_ctor callers) s →
  size s = Z.of_nat (count attached (threads s)) ∧ 0 ≤ active s ≤ size s ∧
  executed s ++ gather running (threads s) ++ sc_items (m_scheduler s) ++ cleared s ≡ₚ scheduled s ∧
  (wait_blocks 0 s = false → executed s ++ cleared s ≡ₚ scheduled s) ∧
  ((∃ i, threads s !! i = Some KWait) → empty s = false → ∃ j, threads s !! j = Some KWoken) ∧
  ((∃ i b k, threads s !! i = Some (USleep 0 b k)) → wait_blocks 0 s = false →
    (∃ j, threads s !! j = Some KWoken) ∨ size s = 0).
Proof.
  intros [Hw Ha Ht Hk Hs Hm]%boost_reachable. pose proof (attached_split (threads s)) as Hsplit.
  assert (Hidle : wait_blocks 0 s = false → count counted (threads s) = 0%nat ∧ sc_items (m_scheduler s) = []).
  { unfold wait_blocks. intros [Hb1 Hb2]%orb_false_iff. apply negb_false_iff in Hb1, Hb2.
    apply Z.eqb_eq in Hb1. apply empty_spec in Hb2. split; [lia|done]. }
  assert (Hwoken : (0 < count woken (threads s))%nat → ∃ j, threads s !! j = Some KWoken).
  { intros Hpos. destruct (count_pos woken _ Hpos) as (j & p & Hj & Hp). exists j. by destruct p. }
  unfold size, active. split_and!; try done; try lia.
  - intros [Hc Hi]%Hidle. rewrite Hi in Ht. rewrite <- Ht. rewrite (gather_nil running); [done|].
    apply Forall_lookup. intros i p Hp. destruct (counted p) eqn:E; [|by destruct p].
    pose proof (count_lookup counted _ i p Hp E). lia.
  - intros [i Hi] He. apply Hwoken. specialize (Hk (count_lookup (waits wake_task) _ i _ Hi eq_refl)).
    destruct (sc_items (m_scheduler s)) eqn:E; [|simpl in Hk; lia]. apply empty_spec in E. congruence.
  - intros (i & b & k & Hi) [Hc Hit]%Hidle. rewrite Hit in Hs.
    destruct (Hs (count_lookup sleeping _ i _ Hi eq_refl)) as [Hp|Hp]; [left; apply Hwoken; simpl in Hp; lia|right; lia].
Qed.

(** ** Three ways in which it does not do what its comments say *)
Section flaws.
Abbreviation fifo := (fifo_scheduler nat).
Abbreviation start n := (pool_core_ctor (S := fifo) n).

(** Two idle workers and [resize 1]: both see one worker too many before either is counted out,
    and both leave.  A task scheduled afterwards is never run. *)
Lemma resize_loses_all_workers : ∃ s, rtc pool_step (start 1) s ∧
  m_target_worker_count s = 1 ∧ m_worker_count s = 0 ∧ pending s = 1%nat ∧
  ∀ i p, threads s !! i = Some p → attached p = false.
Proof.
  set (s0 := start 1).
  set (s1 := (resize 2 None s0).2). set (s2 := fetch 1 s1). set (s3 := fetch 2 s2). set (s4 := (resize 1 None s3).2).
  set (s5 := wake_up 1 s4). set (s6 := wake_up 2 s5). set (s7 := worker_destructed 1 s6). set (s8 := worker_destructed 2 s7).
  set (s9 := default s8 (schedule 7%nat s8)).
  exists (set_threads (threads s8) s9). split_and!; [|done..|].
  - eapply rtc_l; [apply (c_resize s0 0 2 None); [reflexivity|done]|].
    eapply rtc_l; [apply (k_fetch s1 1); reflexivity|]. eapply rtc_l; [apply (k_fetch s2 2); reflexivity|].
    eapply rtc_l; [apply (c_resize s3 0 1 None); [reflexivity|done]|].
    eapply rtc_l; [apply (k_woken s4 1); reflexivity|]. eapply rtc_l; [apply (k_woken s5 2); reflexivity|].
    eapply rtc_l; [apply (k_leave s6 1); reflexivity|]. eapply rtc_l; [apply (k_leave s7 2); reflexivity|].
    apply rtc_once. apply (c_schedule s8 0 7%nat s9); [reflexivity|reflexivity|]. apply notify_nobody. repeat constructor.
  - intros i p Hi. vm_compute in Hi. destruct i as [|[|[|i]]]; [by injection Hi as <-..|done].
Qed.

(** A shutdown that is to wait for the termination of the workers returns while an idle worker is
    still on its way to look at the pool. *)
Lemma shutdown_leaves_workers : ∃ s, rtc pool_step (start 1) s ∧
  UDown ∈ threads s ∧ m_worker_count s = 1 ∧ ∃ i, threads s !! i = Some KWoken.
Proof.
  set (s0 := start 1). set (s1 := (resize 1 None s0).2). set (s2 := fetch 1 s1).
  set (s3 := shutdown wait_for_all_tasks 0 s2). set (s4 := move 0 (UTermStart true) s3).
  set (s5 := move 0 UTerm (terminate_begin s4)). set (s6 := move 0 UDown (terminate_end s5)).
  exists s6. split_and!.
  - eapply rtc_l; [apply (c_resize s0 0 1 None); [reflexivity|done]|].
    eapply rtc_l; [apply (k_fetch s1 1); reflexivity|].
    eapply rtc_l; [apply (c_shutdown s2 0 wait_for_all_tasks); reflexivity|].
    eapply rtc_l; [apply (u_terminate s3 0 0 false); reflexivity|].
    eapply rtc_l; [apply (u_term_start s4 0 true); reflexivity|].
    apply rtc_once. apply (u_term_done s5 0); [reflexivity|done].
  - apply list_elem_of_lookup. by exists 0%nat.
  - reflexivity.
  - by exists 1%nat.
Qed.

(** A wait with a threshold sleeps on when there are few enough tasks: a worker that goes on to
    the next task tells nobody. *)
Lemma threshold_wait_oversleeps : ∃ s, rtc pool_step (start 2) s ∧
  threads s !! 0%nat = Some (USleep 2 false WaitReturns) ∧ wait_blocks 2 s = false ∧
  ∀ i p, threads s !! i = Some p → p ≠ KWoken.
Proof.
  set (s0 := start 2). set (s1 := (resize 1 None s0).2). set (s2 := default s1 (schedule 1%nat s1)).
  set (s3 := default s2 (schedule 2%nat s2)). set (s4 := default s3 (schedule 3%nat s3)).
  set (s5 := fetch 2 s4). set (s6 := move 0 (UWait 2 false WaitReturns) s5).
  set (s7 := move 0 (USleep 2 false WaitReturns) s6). set (s8 := run_task 2 1%nat false s7). set (s9 := fetch 2 s8).
  exists s9. split_and!; [|reflexivity|reflexivity|].
  - assert (Hs : ∀ s s' t, threads s !! 1%nat = Some UIdle → schedule (S := fifo) t s = Some s' → set_threads (threads s) s' = s' →
      Forall (λ p, wake_task p = None) (threads s) → pool_step s s').
    { intros s s' t Hi Hsch Heq Hall. rewrite <- Heq. by eapply c_schedule; [exact Hi|exact Hsch|apply notify_nobody]. }
    eapply rtc_l; [apply (c_resize s0 0 1 None); [reflexivity|done]|].
    eapply rtc_l; [apply (Hs s1 s2 1%nat); [reflexivity..|repeat constructor]|].
    eapply rtc_l; [apply (Hs s2 s3 2%nat); [reflexivity..|repeat constructor]|].
    eapply rtc_l; [apply (Hs s3 s4 3%nat); [reflexivity..|repeat constructor]|].
    eapply rtc_l; [apply (k_fetch s4 2); reflexivity|].
    eapply rtc_l; [apply (c_wait s5 0 2 false); reflexivity|].
    eapply rtc_l; [apply (u_sleep s6 0 2 false WaitReturns); reflexivity|].
    eapply rtc_l; [apply (k_run s7 2 1%nat false); reflexivity|].
    apply rtc_once. apply (k_fetch s8 2). reflexivity.
  - intros i p Hi. vm_compute in Hi. destruct i as [|[|[|i]]]; [by injection Hi as <-..|done].
Qed.
End flaws.
