(* ===== verification/AsyncQueue.v ===== *)
(** * AsyncQueue: src/thirdParty/spdlog/details/mpmc_blocking_q.h, thread_pool.h and thread_pool-inl.h

    The queue between the threads that log and the workers that write, as a transition system:
    any number of callers and workers, posts that wait for room and posts that overrun the
    oldest message, timeouts and spurious wakeups, and the destructor of the pool, which runs
    in the thread that lets go of it last.  The queue is the ring buffer of CircularQ.v. *)
From S2P Require Import Prelude Throws Monitor CircularQ SpdLogger.

(** ** Messages *)
Inductive async_msg_type := log | flush | terminate.
Inductive async_overflow_policy := block | overrun_oldest.

#[export] Instance async_msg_type_eq_dec : EqDecision async_msg_type.
Proof. solve_decision. Defined.

(** The logger is a [shared_ptr]; here the number of the logger, [None] for a null pointer. *)
Record async_msg := mkAsync {
  the_msg : log_msg;         (* the base, log_msg_buffer *)
  msg_type : async_msg_type;
  worker_ptr : option nat
}.

Definition empty_msg : log_msg := mkMsg [] level_off 0 0 no_loc [].
Definition async_msg_default : async_msg := mkAsync empty_msg log None.
Definition async_msg_log (worker : nat) (m : log_msg) : async_msg := mkAsync m log (Some worker).
Definition async_msg_flush (worker : nat) : async_msg := mkAsync empty_msg flush (Some worker).
Definition async_msg_terminate : async_msg := mkAsync empty_msg terminate None.

#[export] Instance async_msg_inhabited : Inhabited async_msg := populate async_msg_default.

Definition is_terminate (m : async_msg) : bool := bool_decide (msg_type m = terminate).
Definition is_work (m : async_msg) : bool := negb (is_terminate m).

(** ** The critical sections of the queue *)
Section queue.
Context {A : Type} `{Inhabited A}.
Implicit Types q : circular_q A.

(** [None]: the predicate of the wait is false. *)
Definition enqueue (x : A) q : option (circular_q A) := if full q then None else Some (push_back x q).
Definition enqueue_nowait (x : A) q : circular_q A := push_back x q.
Definition dequeue q : option (outcome A * circular_q A) :=
  if empty q then None else Some (front q, pop_front q).

(** What leaves the queue when a message is pushed without waiting. *)
Definition pushed_out (x : A) q : list A := if full q then take 1 (items q ++ [x]) else [].

Lemma enqueue_Some x q q' : queue_wf q → 0 < max_items_ q → enqueue x q = Some q' →
  q' = push_back x q ∧ size q < capacity q ∧ items q' = items q ++ [x] ∧ overrun_counter_ q' = overrun_counter_ q.
Proof.
  intros Hwf Hm. unfold enqueue. destruct (full q) eqn:Hf; [done|]. intros [= <-].
  rewrite push_items, push_overrun, Hf by done. split_and!; try done.
  rewrite full_size in Hf by done. apply bool_decide_eq_false in Hf. destruct (size_bounds q Hwf). lia.
Qed.

Lemma enqueue_None x q : queue_wf q → 0 < max_items_ q → enqueue x q = None → size q = capacity q.
Proof.
  intros Hwf Hm. unfold enqueue. destruct (full q) eqn:Hf; [|done]. intros _.
  rewrite full_size in Hf by done. by apply bool_decide_eq_true in Hf.
Qed.

Lemma nowait_items x q : queue_wf q → 0 < max_items_ q →
  pushed_out x q ++ items (enqueue_nowait x q) = items q ++ [x] ∧
  length (pushed_out x q) = Nat.b2n (full q).
Proof.
  intros Hwf Hm. unfold pushed_out, enqueue_nowait. rewrite push_items by done.
  destruct (full q); [|done]. by destruct (items q).
Qed.

Lemma dequeue_None q : queue_wf q → dequeue q = None → items q = [].
Proof.
  intros Hwf. unfold dequeue. rewrite empty_size by done. case_bool_decide as Hs; [|done]. intros _.
  apply zlen_0_inv. by rewrite zlen_items.
Qed.

(** The element that is moved out is always one of the queue. *)
Lemma dequeue_Some q r q' : queue_wf q → dequeue q = Some (r, q') →
  ∃ x, r = Ok x ∧ items q = x :: items q' ∧ queue_wf q' ∧ q' = pop_front q.
Proof.
  intros Hwf. unfold dequeue. rewrite empty_size by done. case_bool_decide as Hs; [done|]. intros [= <- <-].
  destruct (size_bounds q Hwf). destruct (pop_refines q Hwf) as (x & Hx & Hi); [lia|].
  destruct (pop_wf q Hwf) as [Hw _]; [lia|]. by exists x.
Qed.
End queue.

(** ** The points of a thread's code

    A post is a call of [post_async_msg_]; [k] tells what follows it: [None] the end of
    [sink_it_] or [flush_] of an async_logger, which then lets go of the pool, and [Some j] the loop of
    the destructor with [j] messages left to post. *)
Inductive tp_pc :=
(* workers, in worker_loop_ *)
| WDequeue                     (* in dequeue_for, at the predicate, with the mutex *)
| WWait                        (* in push_cv_.wait_for *)
| WTimeout                     (* at the predicate after the timeout *)
| WNotify (m : async_msg)      (* in dequeue_for, after the unlock *)
| WHandle (m : async_msg)      (* in process_next_msg_, at the switch *)
| WExit
(* callers *)
| CIdle
| Post (m : async_msg) (policy : async_overflow_policy) (k : option nat)
| PostWait (m : async_msg) (k : option nat)   (* in pop_cv_.wait *)
| PostNotify (k : option nat)                 (* after the unlock *)
| Release                      (* pool_ptr goes out of scope *)
(* ~thread_pool *)
| DLoop (j : nat)
| DJoin
| DDone.

Definition wake_worker (p : tp_pc) : option tp_pc := match p with WWait => Some WDequeue | _ => None end.
Definition wake_poster (p : tp_pc) : option tp_pc :=
  match p with PostWait m k => Some (Post m block k) | _ => None end.

Definition worker (p : tp_pc) : bool :=
  match p with WDequeue | WWait | WTimeout | WNotify _ | WHandle _ | WExit => true | _ => false end.
Definition exited (p : tp_pc) : bool := match p with WExit => true | _ => false end.
(** In a call, with a [shared_ptr] to the pool. *)
Definition inside (p : tp_pc) : bool :=
  match p with Post _ _ None | PostWait _ None | PostNotify None | Release => true | _ => false end.
Definition destroying (p : tp_pc) : bool :=
  match p with
  | Post _ _ (Some _) | PostWait _ (Some _) | PostNotify (Some _) | DLoop _ | DJoin | DDone => true
  | _ => false
  end.

(** The pool with its threads, the callers first, and as history what was posted and how, what
    left the queue and why ([true] for overrun), what was handled, and the calls that found no pool. *)
Record thread_pool := mkPool {
  q_ : circular_q async_msg;
  threads_n : nat;               (* threads_.size() *)
  held : bool;                   (* the registry holds the pool *)
  threads : list tp_pc;
  posted : list (async_overflow_policy * async_msg);
  out : list (bool * async_msg);
  handled : list async_msg;
  failed : list async_msg
}.

Implicit Types s : thread_pool.

(** The constructor throws for an invalid number of threads. *)
Definition thread_pool_ctor (q_max_items threads_n : Z) (callers : nat) : result thread_pool :=
  if (threads_n =? 0) || (1000 <? threads_n)
  then Throw (str "spdlog::thread_pool(): invalid threads_n param (valid range is 1-1000)")
  else Done (mkPool (circular_q_ctor q_max_items) (Z.to_nat threads_n) true
               (replicate callers CIdle ++ replicate (Z.to_nat threads_n) WDequeue) [] [] [] []).

Definition set_threads (ts : list tp_pc) s : thread_pool :=
  mkPool (q_ s) (threads_n s) (held s) ts (posted s) (out s) (handled s) (failed s).
Definition move (i : nat) (p : tp_pc) s : thread_pool := set_threads (<[i := p]> (threads s)) s.
Definition unhold s : thread_pool :=
  mkPool (q_ s) (threads_n s) false (threads s) (posted s) (out s) (handled s) (failed s).
Definition add_posted (po : async_overflow_policy) (m : async_msg) (q : circular_q async_msg)
    (gone : list async_msg) s : thread_pool :=
  mkPool q (threads_n s) (held s) (threads s) (posted s ++ [(po, m)]) (out s ++ (pair true <$> gone)) (handled s)
    (failed s).
Definition add_taken (m : async_msg) (q : circular_q async_msg) s : thread_pool :=
  mkPool q (threads_n s) (held s) (threads s) (posted s) (out s ++ [(false, m)]) (handled s) (failed s).
Definition add_handled (m : async_msg) s : thread_pool :=
  mkPool (q_ s) (threads_n s) (held s) (threads s) (posted s) (out s) (handled s ++ [m]) (failed s).
Definition add_failed (m : async_msg) s : thread_pool :=
  mkPool (q_ s) (threads_n s) (held s) (threads s) (posted s) (out s) (handled s) (failed s ++ [m]).

Definition overrun_counter s : Z := overrun_counter_ (q_ s).
Definition queue_size s : Z := size (q_ s).

(** [thread_pool_.lock()] succeeds while somebody holds the pool. *)
Definition refs s : nat := (Nat.b2n (held s) + count inside (threads s))%nat.
Definition alive s : bool := (0 <? refs s)%nat.

(** Where a thread goes on that has let go of the pool, in the state after it did. *)
Definition after_release (i : nat) s : thread_pool :=
  let s' := move i CIdle s in if alive s' then s' else move i (DLoop (threads_n s)) s'.

Definition after_post (k : option nat) : tp_pc := match k with Some j => DLoop j | None => Release end.

(** Steps of the code itself, calls from outside, and wakeups without a notification. *)
Inductive kind := Own | Call | Wake.

Inductive pool_step s : kind → thread_pool → Prop :=
| c_call i m po : threads s !! i = Some CIdle → is_work m = true → alive s = true →
    pool_step s Call (move i (Post m po None) s)
| c_gone i m : threads s !! i = Some CIdle → is_work m = true → alive s = false →
    pool_step s Call (add_failed m s)
| c_reset i : threads s !! i = Some CIdle → held s = true → pool_step s Call (after_release i (unhold s))
| p_enqueue i m k q : threads s !! i = Some (Post m block k) → enqueue m (q_ s) = Some q →
    pool_step s Own (move i (PostNotify k) (add_posted block m q [] s))
| p_block i m k : threads s !! i = Some (Post m block k) → enqueue m (q_ s) = None →
    pool_step s Own (move i (PostWait m k) s)
| p_nowait i m k : threads s !! i = Some (Post m overrun_oldest k) →
    pool_step s Own (move i (PostNotify k)
      (add_posted overrun_oldest m (enqueue_nowait m (q_ s)) (pushed_out m (q_ s)) s))
| p_notify i k ts : threads s !! i = Some (PostNotify k) →
    notify_one wake_worker (<[i := after_post k]> (threads s)) ts → pool_step s Own (set_threads ts s)
| p_release i : threads s !! i = Some Release → pool_step s Own (after_release i s)
| d_post i j : threads s !! i = Some (DLoop (S j)) →
    pool_step s Own (move i (Post async_msg_terminate block (Some j)) s)
| d_join i : threads s !! i = Some (DLoop 0) → pool_step s Own (move i DJoin s)
| d_joined i : threads s !! i = Some DJoin → (∀ j p, threads s !! j = Some p → worker p = true → p = WExit) →
    pool_step s Own (move i DDone s)
| w_take i p m q : threads s !! i = Some p → p = WDequeue ∨ p = WTimeout → dequeue (q_ s) = Some (Ok m, q) →
    pool_step s Own (move i (WNotify m) (add_taken m q s))
| w_block i : threads s !! i = Some WDequeue → dequeue (q_ s) = None → pool_step s Own (move i WWait s)
| w_nothing i : threads s !! i = Some WTimeout → dequeue (q_ s) = None → pool_step s Own (move i WDequeue s)
| w_notify i m ts : threads s !! i = Some (WNotify m) →
    notify_one wake_poster (<[i := WHandle m]> (threads s)) ts → pool_step s Own (set_threads ts s)
| w_handle i m : threads s !! i = Some (WHandle m) → is_work m = true →
    pool_step s Own (move i WDequeue (add_handled m s))
| w_terminate i m : threads s !! i = Some (WHandle m) → is_terminate m = true →
    pool_step s Own (move i WExit s)
| w_timeout i : threads s !! i = Some WWait → pool_step s Wake (move i WTimeout s)
| spurious i p q : threads s !! i = Some p → wake_worker p = Some q ∨ wake_poster p = Some q →
    pool_step s Wake (move i q s).

Definition any_step s s' : Prop := ∃ k, pool_step s k s'.

(** ** The invariant

    It has three parts: what becomes of the messages, that nobody sleeps who is needed, and how
    the pool ends. *)
Definition work (l : list async_msg) : list async_msg := List.filter is_work l.
Definition dropped (o : list (bool * async_msg)) : list async_msg := (List.filter fst o).*2.
Definition taken (o : list (bool * async_msg)) : list async_msg := (List.filter (λ x, negb x.1) o).*2.
Definition overruns (l : list (async_overflow_policy * async_msg)) : nat :=
  length (List.filter (λ x, match x.1 with overrun_oldest => true | block => false end) l).
Definition hand (p : tp_pc) : list async_msg := match p with WNotify m | WHandle m => [m] | _ => [] end.

(** What is posted: work by the callers, the end by the destructor, which waits for room. *)
Definition ok_pc (p : tp_pc) : Prop :=
  match p with
  | Post m _ None | PostWait m None => is_work m = true
  | Post m po (Some _) => m = async_msg_terminate ∧ po = block
  | PostWait m (Some _) => m = async_msg_terminate
  | _ => True
  end.

Record data_inv (cap : Z) s : Prop := {
  di_wf : queue_wf (q_ s);
  di_cap : max_items_ (q_ s) = cap + 1;
  di_fifo : (out s).*2 ++ items (q_ s) = (posted s).*2;
  di_counter : overrun_counter_ (q_ s) = u64 (zlen (dropped (out s)));
  di_overruns : (length (dropped (out s)) ≤ overruns (posted s))%nat;
  di_handled : handled s ++ work (gather hand (threads s)) ≡ₚ work (taken (out s));
  di_pcs : Forall ok_pc (threads s)
}.

Lemma work_app l l' : work (l ++ l') = work l ++ work l'.
Proof. apply List.filter_app. Qed.
Lemma dropped_app o o' : dropped (o ++ o') = dropped o ++ dropped o'.
Proof. unfold dropped. by rewrite List.filter_app, fmap_app. Qed.
Lemma taken_app o o' : taken (o ++ o') = taken o ++ taken o'.
Proof. unfold taken. by rewrite List.filter_app, fmap_app. Qed.
Lemma dropped_gone l : dropped (pair true <$> l) = l.
Proof. induction l as [|x l IH]; [done|]. exact (f_equal (cons x) IH). Qed.
Lemma taken_gone l : taken (pair true <$> l) = [].
Proof. induction l as [|x l IH]; [done|]. apply IH. Qed.
Lemma gone_snd (l : list async_msg) : (pair true <$> l).*2 = l.
Proof. rewrite <- list_fmap_compose. apply list_fmap_id. Qed.

#[export] Instance work_perm : Proper ((≡ₚ) ==> (≡ₚ)) work.
Proof.
  intros l l'.
  unfold work. induction 1; simpl; [done|by case_match; [apply perm_skip|]| |by etrans].
  repeat case_match; try done. apply perm_swap.
Qed.

Lemma move_length (P : tp_pc → Prop) i q ts : Forall P ts → P q → Forall P (<[i := q]> ts).
Proof. intros. by apply Forall_insert. Qed.

Lemma ok_notify wake ts ts' : notify_one wake ts ts' → (∀ p q, wake p = Some q → ok_pc p → ok_pc q) →
  Forall ok_pc ts → Forall ok_pc ts'.
Proof.
  intros [|i p q Hi Hq] Hw Hall; [done|]. apply Forall_insert; [done|]. eapply Hw; [done|].
  rewrite Forall_lookup in Hall. by eapply Hall.
Qed.

Lemma wake_ok p q : wake_worker p = Some q ∨ wake_poster p = Some q → ok_pc p → ok_pc q.
Proof.
  intros [Hq|Hq]; destruct p as [| | | | | | | |m k| | | | |]; simpl in Hq; try done; injection Hq as <-; [done|].
  by destruct k; simpl.
Qed.
Lemma async_wake_hand p q : wake_worker p = Some q ∨ wake_poster p = Some q → hand p = hand q.
Proof. intros [Hq|Hq]; destruct p; simpl in Hq; try done; by injection Hq as <-. Qed.

(** A thread that goes on with the same message in its hands, or none. *)
Lemma data_inv_move cap s i p q : data_inv cap s → threads s !! i = Some p → hand p = hand q → ok_pc q →
  data_inv cap (move i q s).
Proof.
  intros [Hw Hc Hf Hn Ho Hh Hp] Hi Hpq Hq. split; simpl; try done.
  - by rewrite (gather_same hand _ _ p q Hi Hpq).
  - by apply Forall_insert.
Qed.

Lemma data_inv_same cap s s' : data_inv cap s → q_ s' = q_ s → posted s' = posted s → out s' = out s →
  handled s' = handled s → threads s' = threads s → data_inv cap s'.
Proof. intros [] E1 E2 E3 E4 E5. split; by rewrite ?E1, ?E2, ?E3, ?E4, ?E5. Qed.

Lemma data_inv_notify cap s i p q wake ts : data_inv cap s → threads s !! i = Some p → hand p = hand q → ok_pc q →
  notify_one wake (<[i := q]> (threads s)) ts → (∀ p q, wake p = Some q → wake_worker p = Some q ∨ wake_poster p = Some q) →
  data_inv cap (set_threads ts s).
Proof.
  intros Hinv Hi Hpq Hq Hn Hw. destruct (data_inv_move cap s i p q Hinv Hi Hpq Hq) as [? ? ? ? ? Hh Hp]. simpl in Hh.
  split; simpl; try done.
  - rewrite (gather_notify_one hand _ _ _ Hn); [done|]. eauto using async_wake_hand.
  - eapply ok_notify; [exact Hn| |exact Hp]. eauto using wake_ok.
Qed.

Lemma data_inv_release cap s i p : data_inv cap s → threads s !! i = Some p → hand p = [] →
  data_inv cap (after_release i s).
Proof.
  intros Hinv Hi Hp. assert (H1 : data_inv cap (move i CIdle s)) by by apply (data_inv_move cap s i p).
  unfold after_release. case_match; [done|]. apply (data_inv_move cap _ i CIdle); [done| |done|done].
  simpl. apply list_lookup_insert_eq. by eapply lookup_lt_Some.
Qed.

(** A post changes the queue, and nothing that is in the hands of the workers. *)
Lemma data_inv_post cap s i m po k q gone : data_inv cap s → threads s !! i = Some (Post m po k) →
  queue_wf q → max_items_ q = cap + 1 → gone ++ items q = items (q_ s) ++ [m] →
  overrun_counter_ q = u64 (overrun_counter_ (q_ s) + zlen gone) →
  (length gone ≤ match po with overrun_oldest => 1 | block => 0 end)%nat →
  data_inv cap (move i (PostNotify k) (add_posted po m q gone s)).
Proof.
  intros [Hw Hc Hf Hn Ho Hh Hp] Hi Hw' Hc' Hg Hn' Hl. split; simpl.
  - done.
  - done.
  - by rewrite !fmap_app, gone_snd, <- app_assoc, Hg, app_assoc, Hf.
  - rewrite Hn', Hn, dropped_app, dropped_gone, zlen_app. unfold wrapu. by rewrite Zplus_mod_idemp_l.
  - unfold overruns in *. rewrite dropped_app, dropped_gone, List.filter_app, !length_app. destruct po; simpl in *; lia.
  - rewrite (gather_same hand _ _ _ (PostNotify k) Hi eq_refl), taken_app, taken_gone, app_nil_r. done.
  - by apply Forall_insert.
Qed.

Lemma data_inv_step cap s k s' : 0 ≤ cap → data_inv cap s → pool_step s k s' → data_inv cap s'.
Proof.
  intros Hcap Hinv Hstep. pose proof Hinv as [Hw Hc Hf Hn Ho Hh Hp]. assert (Hm : 0 < max_items_ (q_ s)) by lia.
  assert (Hpc : ∀ i p, threads s !! i = Some p → ok_pc p) by (intros i p; rewrite Forall_lookup in Hp; apply Hp).
  destruct Hstep as [i m po Hi Hm' _|i m Hi _ _|i Hi _|i m k q Hi Hq|i m k Hi Hq|i m k Hi|i k ts Hi Hts|i Hi|i j Hi|i Hi
    |i Hi Hj|i p m q Hi Hpi Hq|i Hi Hq|i Hi Hq|i m ts Hi Hts|i m Hi Hwk|i m Hi Hwk|i Hi|i p q Hi Hq];
    try (by eapply data_inv_move); try (by eapply data_inv_same).
  - eapply data_inv_release; [|exact Hi|done]. by eapply data_inv_same.
  - destruct (enqueue_Some m _ q Hw Hm Hq) as (-> & Hroom & Hits & Hov).
    apply data_inv_post; try done; [by apply push_wf|by rewrite (proj1 (proj2 (proj2 (push_fields (q_ s) m Hw Hm))))|].
    rewrite Hov, Hn. unfold wrapu. by rewrite Z.add_0_r, Zmod_mod.
  - eapply data_inv_move; [done..|]. specialize (Hpc i _ Hi). by destruct k; simpl in *; [destruct Hpc|].
  - destruct (nowait_items m (q_ s) Hw Hm) as [Hits Hl].
    apply data_inv_post; try done.
    + by apply push_wf.
    + unfold enqueue_nowait. by rewrite (proj1 (proj2 (proj2 (push_fields (q_ s) m Hw Hm)))).
    + unfold enqueue_nowait. rewrite push_overrun by done. unfold zlen. rewrite Hl. destruct (full (q_ s)); [done|].
      simpl. rewrite Hn. unfold wrapu. by rewrite Z.add_0_r, Zmod_mod.
    + rewrite Hl. destruct (full (q_ s)); simpl; lia.
  - eapply (data_inv_notify cap s i _ (after_post k)); eauto; by destruct k.
  - by eapply data_inv_release.
  - destruct (dequeue_Some (q_ s) _ q Hw Hq) as (x & [= <-] & Hits & Hw' & Hpop).
    split; simpl; try done.
    + by rewrite Hpop.
    + by rewrite fmap_app, <- Hf, Hits, <- app_assoc.
    + rewrite Hpop, dropped_app. simpl. by rewrite app_nil_r.
    + rewrite dropped_app. unfold dropped at 2. simpl. rewrite app_nil_r. done.
    + pose proof (gather_insert hand _ i p (WNotify m) Hi) as Hg. assert (Hhp : hand p = []) by by destruct Hpi as [->| ->].
      rewrite Hhp, app_nil_r in Hg. rewrite Hg, work_app, taken_app, work_app, app_assoc, Hh. done.
    + by apply Forall_insert.
  - eapply (data_inv_notify cap s i _ (WHandle m)); eauto; done.
  - split; simpl; try done; [|by apply Forall_insert].
    pose proof (gather_insert hand _ i _ WDequeue Hi) as Hg. simpl in Hg. rewrite app_nil_r in Hg.
    apply work_perm in Hg. rewrite work_app in Hg. unfold work at 2 in Hg. simpl in Hg. rewrite Hwk in Hg.
    rewrite <- Hh, <- Hg. solve_Permutation.
  - split; simpl; try done; [|by apply Forall_insert].
    pose proof (gather_insert hand _ i _ WExit Hi) as Hg. simpl in Hg. rewrite app_nil_r in Hg.
    apply work_perm in Hg. rewrite work_app in Hg. unfold work at 2 in Hg. simpl in Hg. unfold is_work at 1 in Hg.
    rewrite Hwk, app_nil_r in Hg. by rewrite Hg.
  - apply (data_inv_move cap s i p); [done|done|by eapply async_wake_hand|eapply wake_ok; eauto].
Qed.

(** *** Nobody sleeps who is needed *)
Definition taking (p : tp_pc) : bool := match p with WDequeue | WTimeout => true | _ => false end.
Definition posting (p : tp_pc) : bool := match p with Post _ _ _ => true | _ => false end.
Definition after_put (p : tp_pc) : bool := match p with PostNotify _ => true | _ => false end.
Definition after_pop (p : tp_pc) : bool := match p with WNotify _ => true | _ => false end.

Record wake_inv s : Prop := {
  wi_workers : (0 < count (waits wake_worker) (threads s))%nat →
    size (q_ s) ≤ Z.of_nat (count taking (threads s) + count after_put (threads s));
  wi_posters : (0 < count (waits wake_poster) (threads s))%nat →
    capacity (q_ s) ≤ size (q_ s) + Z.of_nat (count posting (threads s) + count after_pop (threads s))
}.

Lemma async_wake_worker_ok p q : wake_worker p = Some q → taking p = false ∧ taking q = true ∧ wake_worker q = None.
Proof. destruct p; simpl; try done. by intros [= <-]. Qed.
Lemma wake_poster_ok p q : wake_poster p = Some q → posting p = false ∧ posting q = true ∧ wake_poster q = None.
Proof. destruct p; simpl; try done. by intros [= <-]. Qed.

Lemma async_notify_workers ts ts' : notify_one wake_worker ts ts' →
  count after_put ts' = count after_put ts ∧ count posting ts' = count posting ts ∧
  count after_pop ts' = count after_pop ts ∧ count (waits wake_poster) ts' = count (waits wake_poster) ts ∧
  (count (waits wake_worker) ts' ≤ count (waits wake_worker) ts)%nat ∧
  ((0 < count (waits wake_worker) ts')%nat → count taking ts' = S (count taking ts)).
Proof.
  intros Hn. split; [|split; [|split; [|split; [|exact (notify_one_wakes _ _ _ _ Hn async_wake_worker_ok)]]]];
    (apply (count_notify_other wake_worker); [done|]); intros [] q; simpl; try done; by intros [= <-].
Qed.

Lemma notify_posters ts ts' : notify_one wake_poster ts ts' →
  count after_put ts' = count after_put ts ∧ count taking ts' = count taking ts ∧
  count after_pop ts' = count after_pop ts ∧ count (waits wake_worker) ts' = count (waits wake_worker) ts ∧
  (count (waits wake_poster) ts' ≤ count (waits wake_poster) ts)%nat ∧
  ((0 < count (waits wake_poster) ts')%nat → count posting ts' = S (count posting ts)).
Proof.
  intros Hn. split; [|split; [|split; [|split; [|exact (notify_one_wakes _ _ _ _ Hn wake_poster_ok)]]]];
    (apply (count_notify_other wake_poster); [done|]); intros [] q; simpl; try done; by intros [= <-].
Qed.

(** The counters after thread [i] moved to [q]. *)
Ltac counts Hi q :=
  count_move taking Hi q; count_move posting Hi q; count_move after_put Hi q; count_move after_pop Hi q;
  count_move (waits wake_worker) Hi q; count_move (waits wake_poster) Hi q;
  cbn [taking posting after_put after_pop waits wake_worker wake_poster Nat.b2n] in *.

(** Points at which a thread neither waits nor is needed by one that does. *)
Definition neutral (p : tp_pc) : bool :=
  negb (taking p || posting p || after_put p || after_pop p || waits wake_worker p || waits wake_poster p).

Lemma wake_inv_move s i p q : wake_inv s → threads s !! i = Some p → neutral p = true →
  waits wake_worker q = false → waits wake_poster q = false → wake_inv (move i q s).
Proof.
  intros [Hw Hp] Hi Hn Hq1 Hq2. unfold neutral in Hn.
  destruct (taking p) eqn:E1; [done|]. destruct (posting p) eqn:E2; [done|]. destruct (after_put p) eqn:E3; [done|].
  destruct (after_pop p) eqn:E4; [done|]. destruct (waits wake_worker p) eqn:E5; [done|].
  destruct (waits wake_poster p) eqn:E6; [done|].
  count_move taking Hi q. count_move posting Hi q. count_move after_put Hi q. count_move after_pop Hi q.
  count_move (waits wake_worker) Hi q. count_move (waits wake_poster) Hi q.
  rewrite ?E1, ?E2, ?E3, ?E4, ?E5, ?E6, ?Hq1, ?Hq2 in *. cbn [Nat.b2n] in *.
  split; simpl; intros; lia.
Qed.

Lemma wake_inv_same s s' : wake_inv s → q_ s' = q_ s → threads s' = threads s → wake_inv s'.
Proof. intros [] E1 E2. split; by rewrite E1, E2. Qed.

Lemma wake_inv_release s i p : wake_inv s → threads s !! i = Some p → neutral p = true → wake_inv (after_release i s).
Proof.
  intros Hinv Hi Hp. assert (H1 : wake_inv (move i CIdle s)) by by apply (wake_inv_move s i p).
  unfold after_release. case_match; [done|]. apply (wake_inv_move _ i CIdle); try done.
  simpl. apply list_lookup_insert_eq. by eapply lookup_lt_Some.
Qed.

Lemma wake_inv_step cap s k s' : 0 ≤ cap → data_inv cap s → wake_inv s → pool_step s k s' → wake_inv s'.
Proof.
  intros Hcap Hd Hinv Hstep. pose proof Hd as [Hw Hc _ _ _ _ _]. pose proof Hinv as [Ht Hp].
  assert (Hm : 0 < max_items_ (q_ s)) by lia. destruct (size_bounds (q_ s) Hw) as [Hsize _].
  destruct Hstep as [i m po Hi Hm' _|i m Hi _ _|i Hi _|i m k q Hi Hq|i m k Hi Hq|i m k Hi|i k ts Hi Hts|i Hi|i j Hi|i Hi
    |i Hi Hj|i p m q Hi Hpi Hq|i Hi Hq|i Hi Hq|i m ts Hi Hts|i m Hi Hwk|i m Hi Hwk|i Hi|i p q Hi Hq];
    try (by eapply wake_inv_move); try (by eapply wake_inv_same).
  - eapply wake_inv_release; [|exact Hi|done]. by eapply wake_inv_same.
  - counts Hi (PostNotify k). destruct (enqueue_Some m _ q Hw Hm Hq) as (-> & Hroom & Hits & _).
    pose proof (zlen_items _ (push_wf _ m Hw)) as Hl. rewrite Hits, zlen_app, zlen_items in Hl by done.
    change (zlen [m]) with 1 in Hl. split; simpl; rewrite <- Hl; [|rewrite push_capacity by done]; intros; lia.
  - counts Hi (PostWait m k). apply (enqueue_None m _ Hw Hm) in Hq. split; simpl; intros; lia.
  - counts Hi (PostNotify k). destruct (nowait_items m (q_ s) Hw Hm) as [Hits Hl].
    pose proof (zlen_items _ (push_wf _ m Hw)) as Hl'. apply (f_equal zlen) in Hits.
    rewrite !zlen_app, (zlen_items (q_ s)) in Hits by done. unfold enqueue_nowait in *. rewrite Hl' in Hits.
    unfold zlen at 1 in Hits. rewrite Hl in Hits. change (zlen [m]) with 1 in Hits. rewrite full_size in Hits by done.
    split; simpl; [|rewrite push_capacity by done]; intros; case_bool_decide; simpl in *; lia.
  - counts Hi (after_post k). destruct (async_notify_workers _ _ Hts) as (Hn1 & Hn2 & Hn3 & Hn4 & Hn5 & Hn6).
    split; simpl; [intros Hpos; specialize (Hn6 Hpos)|]; destruct k; simpl in *; lia.
  - by eapply wake_inv_release.
  - counts Hi (WNotify m). destruct (dequeue_Some (q_ s) _ q Hw Hq) as (x & [= <-] & Hits & Hw' & Hpop).
    apply (f_equal zlen) in Hits. rewrite zlen_cons, !zlen_items in Hits by done.
    assert (Hcq : capacity q = capacity (q_ s)) by (by rewrite Hpop).
    split; simpl; rewrite ?Hcq; intros; destruct Hpi as [->| ->]; simpl in *; lia.
  - counts Hi WWait. apply dequeue_None in Hq; [|done]. pose proof (zlen_items _ Hw) as Hl. rewrite Hq in Hl.
    change (zlen []) with 0 in Hl. split; simpl; intros; lia.
  - counts Hi WDequeue. split; simpl; intros; lia.
  - counts Hi (WHandle m). destruct (notify_posters _ _ Hts) as (Hn1 & Hn2 & Hn3 & Hn4 & Hn5 & Hn6).
    split; simpl; [|intros Hpos; specialize (Hn6 Hpos)]; lia.
  - counts Hi WTimeout. split; simpl; intros; lia.
  - destruct p as [| | | | | | | |m k| | | | |]; destruct Hq as [[= <-]|[= <-]].
    + counts Hi WDequeue. split; simpl; intros; lia.
    + counts Hi (Post m block k). split; simpl; intros; lia.
Qed.

(** *** How the pool ends *)

(** Messages that the destructor has yet to post. *)
Definition to_post (p : tp_pc) : nat :=
  match p with
  | DLoop j | PostNotify (Some j) => j
  | Post _ _ (Some j) | PostWait _ (Some j) => S j
  | _ => 0
  end.
Definition holding_end (p : tp_pc) : bool := match p with WNotify m | WHandle m => is_terminate m | _ => false end.
Definition finished (p : tp_pc) : bool := match p with DDone => true | _ => false end.

Record end_inv (n : nat) s : Prop := {
  ei_n : threads_n s = n;
  ei_workers : count worker (threads s) = n;
  ei_one : (Nat.b2n (alive s) + count destroying (threads s))%nat = 1%nat;
  ei_posted : ∃ l k, (posted s).*2 = l ++ replicate k async_msg_terminate ∧ Forall (λ m, is_work m = true) l ∧
    (k + weigh to_post (threads s))%nat = if alive s then 0%nat else n;
  ei_dropped : Forall (λ m, is_work m = true) (dropped (out s));
  ei_ends : (count exited (threads s) + count holding_end (threads s))%nat =
    length (List.filter is_terminate (taken (out s)));
  ei_done : (0 < count finished (threads s))%nat → count exited (threads s) = n
}.

(** All that the end depends on of a point. *)
Definition profile (p : tp_pc) := (inside p, destroying p, to_post p, worker p, exited p, holding_end p, finished p).

Lemma same_weigh g ts ts' : (∀ p q, profile p = profile q → g p = g q) → profile <$> ts' = profile <$> ts →
  weigh g ts' = weigh g ts.
Proof.
  intros Hg. revert ts'. unfold weigh. induction ts as [|p ts IH]; intros [|q ts'] Heq; try done.
  rewrite !fmap_cons in Heq. injection Heq as E1 E2 E3 E4 E5 E6 E7 Htl. simpl. rewrite (IH ts' Htl).
  f_equal. apply Hg. unfold profile. congruence.
Qed.

Lemma same_count f ts ts' : (∀ p q, profile p = profile q → f p = f q) → profile <$> ts' = profile <$> ts →
  count f ts' = count f ts.
Proof. intros Hf Heq. rewrite !count_weigh. apply same_weigh; [|done]. intros p q Hpq. by rewrite (Hf p q Hpq). Qed.

Lemma profile_insert (ts : list tp_pc) i p q : ts !! i = Some p → profile p = profile q → profile <$> <[i := q]> ts = profile <$> ts.
Proof. intros Hi Hpq. rewrite list_fmap_insert, <- Hpq. apply list_insert_id. by rewrite list_lookup_fmap, Hi. Qed.

Lemma profile_notify wake (ts ts' : list tp_pc) : notify_one wake ts ts' → (∀ p q, wake p = Some q → profile p = profile q) →
  profile <$> ts' = profile <$> ts.
Proof. intros [|i p q Hi Hq] Hw; [done|]. eapply profile_insert; eauto. Qed.

Lemma wake_profile p q : wake_worker p = Some q ∨ wake_poster p = Some q → profile p = profile q.
Proof.
  intros [Hq|Hq]; destruct p as [| | | | | | | |m k| | | | |]; simpl in Hq; try done; injection Hq as <-; [done|].
  by destruct k.
Qed.

Lemma alive_same s ts : profile <$> ts = profile <$> threads s → alive (set_threads ts s) = alive s.
Proof. intros Heq. unfold alive, refs. simpl. by rewrite (same_count inside _ _ ltac:(by intros ? ? [=]) Heq). Qed.

Lemma end_inv_profile n s ts : end_inv n s → profile <$> ts = profile <$> threads s → end_inv n (set_threads ts s).
Proof.
  intros [Hn Hw Ho (l & k & Hl & Hall & Hk) Hd He Hf] Heq.
  assert (Hc : ∀ f, (∀ p q, profile p = profile q → f p = f q) → count f ts = count f (threads s)).
  { intros f Hf'. by apply same_count. }
  split; rewrite ?(alive_same _ _ Heq); simpl.
  - done.
  - by rewrite Hc by by intros ? ? [=].
  - by rewrite Hc by by intros ? ? [=].
  - exists l, k. split_and!; [done|done|]. by rewrite (same_weigh to_post _ _ ltac:(by intros ? ? [=]) Heq).
  - done.
  - rewrite !Hc by by intros ? ? [=]. done.
  - rewrite !Hc by by intros ? ? [=]. done.
Qed.

Lemma end_inv_move n s i p q : end_inv n s → threads s !! i = Some p → profile p = profile q → end_inv n (move i q s).
Proof. intros Hinv Hi Hpq. apply end_inv_profile; [done|]. by eapply profile_insert. Qed.

Lemma end_inv_notify n s i p q wake ts : end_inv n s → threads s !! i = Some p → profile p = profile q →
  notify_one wake (<[i := q]> (threads s)) ts → (∀ p q, wake p = Some q → wake_worker p = Some q ∨ wake_poster p = Some q) →
  end_inv n (set_threads ts s).
Proof.
  intros Hinv Hi Hpq Hn Hw. apply end_inv_profile; [done|]. rewrite (profile_notify _ _ _ Hn) by eauto using wake_profile.
  by eapply profile_insert.
Qed.

Lemma finished_destroying ts : count destroying ts = 0%nat → count finished ts = 0%nat.
Proof.
  intros Hz. destruct (decide (count finished ts = 0%nat)) as [|Hne]; [done|].
  destruct (count_pos finished ts ltac:(lia)) as (i & p & Hi & Hp). destruct p; try done.
  pose proof (count_lookup destroying ts i _ Hi eq_refl). lia.
Qed.

(** While the pool is held nothing of its end has begun. *)
Lemma end_inv_alive n s : end_inv n s → alive s = true →
  count destroying (threads s) = 0%nat ∧ count finished (threads s) = 0%nat ∧ weigh to_post (threads s) = 0%nat ∧
  Forall (λ m, is_work m = true) (posted s).*2.
Proof.
  intros [_ _ Ho (l & k & Hl & Hall & Hk) _ _ _] Ha. rewrite Ha in *. simpl in Ho.
  assert (Hd : count destroying (threads s) = 0%nat) by lia. split_and!; [done|by apply finished_destroying|lia|].
  rewrite Hl. replace k with 0%nat by lia. by rewrite app_nil_r.
Qed.

Lemma end_inv_dead n s i p : end_inv n s → threads s !! i = Some p → destroying p = true →
  alive s = false ∧ (0 < count destroying (threads s))%nat.
Proof.
  intros Hinv Hi Hp. pose proof (count_lookup destroying _ i p Hi Hp). pose proof (ei_one n s Hinv).
  destruct (alive s); simpl in *; [lia|done].
Qed.

Lemma end_inv_call n s i m po : end_inv n s → threads s !! i = Some CIdle → is_work m = true → alive s = true →
  end_inv n (move i (Post m po None) s).
Proof.
  intros Hinv Hi Hm Ha. destruct (end_inv_alive n s Hinv Ha) as (Hd & Hf & Hz & Hall).
  destruct Hinv as [Hn Hw Ho _ Hdr He Hdone]. set (q := Post m po None).
  count_move worker Hi q. count_move destroying Hi q. count_move exited Hi q. count_move holding_end Hi q.
  count_move finished Hi q. count_move inside Hi q. pose proof (weigh_insert to_post _ i _ q Hi). simpl in *.
  assert (Ha' : alive (move i q s) = true) by (unfold alive, refs in *; simpl; apply Nat.ltb_lt; apply Nat.ltb_lt in Ha; lia).
  split; rewrite ?Ha'; simpl; try done; try lia.
  exists ((posted s).*2), 0%nat. rewrite app_nil_r. split_and!; [done|done|lia].
Qed.

(** Letting go of the pool: by the return from a call, or because the registry lets go. *)
Lemma end_inv_release n s s0 i p : end_inv n s → alive s = true → threads s !! i = Some p → p = CIdle ∨ p = Release →
  s0 = s ∨ s0 = unhold s → end_inv n (after_release i s0).
Proof.
  intros Hinv Ha Hi Hp Hs. destruct (end_inv_alive n s Hinv Ha) as (Hd & Hf & Hz & Hall).
  destruct Hinv as [Hn Hw Ho _ Hdr He Hdone].
  assert (E : threads s0 = threads s ∧ threads_n s0 = n ∧ posted s0 = posted s ∧ out s0 = out s).
  { destruct Hs as [->| ->]; by split_and!. }
  destruct E as (Et & En & Ep & Eo). unfold after_release.
  assert (Hp' : ∀ q, q = CIdle ∨ q = DLoop n →
    count worker (<[i := q]> (threads s)) = n ∧
    count destroying (<[i := q]> (threads s)) = Nat.b2n (destroying q) ∧
    weigh to_post (<[i := q]> (threads s)) = to_post q ∧
    count exited (<[i := q]> (threads s)) = count exited (threads s) ∧
    count holding_end (<[i := q]> (threads s)) = count holding_end (threads s) ∧
    count finished (<[i := q]> (threads s)) = 0%nat).
  { intros q Hq. count_move worker Hi q. count_move destroying Hi q. count_move exited Hi q.
    count_move holding_end Hi q. count_move finished Hi q. pose proof (weigh_insert to_post _ i p q Hi).
    destruct Hp as [->| ->], Hq as [->| ->]; simpl in *; lia. }
  case_match eqn:Ea.
  - destruct (Hp' CIdle ltac:(by left)) as (H1 & H2 & H3 & H4 & H5 & H6).
    split; rewrite ?Ea; simpl; rewrite ?Et, ?En, ?Ep, ?Eo, ?H1, ?H2, ?H3, ?H4, ?H5, ?H6; try done; try lia.
    exists ((posted s).*2), 0%nat. by rewrite app_nil_r.
  - assert (Ea' : alive (move i (DLoop (threads_n s0)) (move i CIdle s0)) = false).
    { unfold alive, refs in *. simpl in *. rewrite Et in *.
      rewrite <- Ea, list_insert_insert_eq. do 2 f_equal. count_move inside Hi (DLoop (threads_n s0)).
      count_move inside Hi CIdle. destruct Hp as [->| ->]; simpl in *; lia. }
    destruct (Hp' (DLoop n) ltac:(by right)) as (H1 & H2 & H3 & H4 & H5 & H6).
    split; rewrite ?Ea'; simpl; rewrite ?En, ?Et, ?Ep, ?Eo, ?list_insert_insert_eq, ?H1, ?H2, ?H3, ?H4, ?H5, ?H6; try done; try lia.
    exists ((posted s).*2), 0%nat. by rewrite app_nil_r.
Qed.

(** A post: of work while the pool is held, of an end by the destructor. *)
Lemma end_inv_post n s i m po k q gone : end_inv n s → threads s !! i = Some (Post m po k) → ok_pc (Post m po k) →
  (is_Some k → gone = []) → (∀ x, x ∈ gone → x ∈ (posted s).*2 ++ [m]) →
  end_inv n (move i (PostNotify k) (add_posted po m q gone s)).
Proof.
  intros Hinv Hi Hpc Hgone Hsub. pose proof Hinv as [Hn Hw Ho (l & j & Hl & Hall & Hj) Hdr He Hdone].
  count_move worker Hi (PostNotify k). count_move destroying Hi (PostNotify k). count_move exited Hi (PostNotify k).
  count_move holding_end Hi (PostNotify k). count_move finished Hi (PostNotify k). count_move inside Hi (PostNotify k).
  pose proof (weigh_insert to_post _ i _ (PostNotify k) Hi) as Hz.
  assert (Ha : alive (move i (PostNotify k) (add_posted po m q gone s)) = alive s).
  { unfold alive, refs. simpl. destruct k; simpl in *; do 2 f_equal; lia. }
  assert (Hdr' : Forall (λ m, is_work m = true) (dropped (out s) ++ gone)).
  { apply Forall_app. split; [done|]. destruct k as [j'|]; [by rewrite Hgone by eauto|].
    assert (Halive : alive s = true).
    { pose proof (count_lookup inside _ i _ Hi eq_refl). unfold alive, refs. apply Nat.ltb_lt. lia. }
    destruct (end_inv_alive n s Hinv Halive) as (_ & _ & _ & Hwork). apply Forall_forall. intros x Hx%Hsub.
    apply elem_of_app in Hx as [Hx|Hx%list_elem_of_singleton]; [by eapply Forall_forall in Hwork|by subst]. }
  split; rewrite ?Ha; simpl; rewrite ?dropped_app, ?dropped_gone, ?taken_app, ?taken_gone, ?app_nil_r; try done.
  - simpl in *; lia.
  - destruct k; simpl in *; lia.
  - rewrite fmap_app, Hl. destruct k as [j'|]; simpl in *.
    + destruct Hpc as [-> ->]. exists l, (S j). split_and!; [|done|lia].
      rewrite <- app_assoc. f_equal. change [async_msg_terminate] with (replicate 1 async_msg_terminate).
      rewrite <- replicate_add. f_equal. lia.
    + assert (Halive : alive s = true).
      { pose proof (count_lookup inside _ i _ Hi eq_refl). unfold alive, refs. apply Nat.ltb_lt. lia. }
      rewrite Halive in *. exists (l ++ [m]), 0%nat. replace j with 0%nat by lia. rewrite !app_nil_r.
      split_and!; [done|apply Forall_app; by split; [|constructor]|lia].
  - destruct k; simpl in *; lia.
  - destruct k; simpl in *; intros Hpos; rewrite <- Hdone; lia.
Qed.

Lemma work_terminate m : is_work m = true → is_terminate m = false.
Proof. unfold is_work. by destruct (is_terminate m). Qed.

(** What is taken out is counted in the hands of the worker. *)
Lemma end_inv_take n s i p m q : end_inv n s → threads s !! i = Some p → p = WDequeue ∨ p = WTimeout →
  end_inv n (move i (WNotify m) (add_taken m q s)).
Proof.
  intros [Hn Hw Ho Hposted Hdr He Hdone] Hi Hp.
  count_move worker Hi (WNotify m). count_move destroying Hi (WNotify m). count_move exited Hi (WNotify m).
  count_move holding_end Hi (WNotify m). count_move finished Hi (WNotify m). count_move inside Hi (WNotify m).
  pose proof (weigh_insert to_post _ i _ (WNotify m) Hi) as Hz.
  assert (Ha : alive (move i (WNotify m) (add_taken m q s)) = alive s).
  { unfold alive, refs. simpl. do 2 f_equal. destruct Hp as [->| ->]; simpl in *; lia. }
  assert (Hz' : weigh to_post (<[i := WNotify m]> (threads s)) = weigh to_post (threads s)).
  { destruct Hp as [->| ->]; simpl in *; lia. }
  split; rewrite ?Ha; simpl; rewrite ?dropped_app, ?taken_app, ?List.filter_app, ?length_app, ?Hz'; try done.
  - destruct Hp as [->| ->]; simpl in *; lia.
  - destruct Hp as [->| ->]; simpl in *; lia.
  - unfold dropped at 2. simpl. by rewrite app_nil_r.
  - rewrite <- He. change (taken [(false, m)]) with [m]. simpl. destruct Hp as [->| ->]; simpl in *;
      destruct (is_terminate m); simpl in *; lia.
  - intros Hpos. rewrite <- Hdone; destruct Hp as [->| ->]; simpl in *; lia.
Qed.

Lemma end_inv_exit n s i m : end_inv n s → threads s !! i = Some (WHandle m) → is_terminate m = true →
  end_inv n (move i WExit s).
Proof.
  intros [Hn Hw Ho Hposted Hdr He Hdone] Hi Hm.
  count_move worker Hi WExit. count_move destroying Hi WExit. count_move exited Hi WExit.
  count_move holding_end Hi WExit. count_move finished Hi WExit. count_move inside Hi WExit.
  pose proof (weigh_insert to_post _ i _ WExit Hi) as Hz. simpl in *. rewrite Hm in *. simpl in *.
  assert (Ha : alive (move i WExit s) = alive s) by (unfold alive, refs; simpl; do 2 f_equal; lia).
  assert (Hle : (count exited (<[i := WExit]> (threads s)) ≤ count worker (<[i := WExit]> (threads s)))%nat).
  { apply count_le. by intros []. }
  split; rewrite ?Ha; simpl; try done; try lia.
  replace (weigh to_post (<[i := WExit]> (threads s))) with (weigh to_post (threads s)) by lia. done.
Qed.

Lemma end_inv_done n s i : end_inv n s → threads s !! i = Some DJoin →
  (∀ j p, threads s !! j = Some p → worker p = true → p = WExit) → end_inv n (move i DDone s).
Proof.
  intros [Hn Hw Ho Hposted Hdr He Hdone] Hi Hall.
  count_move worker Hi DDone. count_move destroying Hi DDone. count_move exited Hi DDone.
  count_move holding_end Hi DDone. count_move inside Hi DDone.
  pose proof (weigh_insert to_post _ i _ DDone Hi) as Hz. simpl in *.
  assert (Ha : alive (move i DDone s) = alive s) by (unfold alive, refs; simpl; do 2 f_equal; lia).
  assert (Hexit : count exited (threads s) = count worker (threads s)).
  { apply count_ext_in. intros j p Hj. destruct (worker p) eqn:E; [by rewrite (Hall j p Hj E)|by destruct p]. }
  split; rewrite ?Ha; simpl; try done; try lia.
  replace (weigh to_post (<[i := DDone]> (threads s))) with (weigh to_post (threads s)) by lia. done.
Qed.

Lemma end_inv_step cap n s k s' : 0 ≤ cap → data_inv cap s → end_inv n s → pool_step s k s' → end_inv n s'.
Proof.
  intros Hcap [Hwf Hc Hf _ _ _ Hpcs] Hinv Hstep. assert (Hm : 0 < max_items_ (q_ s)) by lia.
  assert (Hpc : ∀ i p, threads s !! i = Some p → ok_pc p) by (intros i p; rewrite Forall_lookup in Hpcs; apply Hpcs).
  destruct Hstep as [i m po Hi Hm' Ha|i m Hi _ _|i Hi Hh|i m k q Hi Hq|i m k Hi Hq|i m k Hi|i k ts Hi Hts|i Hi|i j Hi|i Hi
    |i Hi Hj|i p m q Hi Hpi Hq|i Hi Hq|i Hi Hq|i m ts Hi Hts|i m Hi Hwk|i m Hi Hwk|i Hi|i p q Hi Hq].
  - by apply end_inv_call.
  - by destruct Hinv.
  - apply (end_inv_release n s _ i CIdle); auto. unfold alive, refs. by rewrite Hh.
  - apply (end_inv_post n s i m block k q []); [done|done|by apply (Hpc i)|done|]. by intros x ?%elem_of_nil.
  - apply (end_inv_move n s i (Post m block k)); [done|done|by destruct k].
  - pose proof (Hpc i _ Hi) as Hok. apply (end_inv_post n s i m overrun_oldest k); try done.
    + intros [j ->]. by destruct Hok.
    + intros x Hx. rewrite <- Hf, <- app_assoc. apply elem_of_app. right. unfold pushed_out in Hx.
      destruct (full (q_ s)); [|by apply elem_of_nil in Hx]. by eapply elem_of_take in Hx as (? & ? & _); eapply list_elem_of_lookup_2.
  - eapply (end_inv_notify n s i _ (after_post k)); eauto; by destruct k.
  - apply (end_inv_release n s _ i Release); auto. unfold alive, refs. apply Nat.ltb_lt.
    pose proof (count_lookup inside _ i _ Hi eq_refl). lia.
  - by eapply end_inv_move.
  - by eapply end_inv_move.
  - by apply end_inv_done.
  - by eapply end_inv_take.
  - by eapply end_inv_move.
  - by eapply end_inv_move.
  - eapply (end_inv_notify n s i _ (WHandle m)); eauto; done.
  - apply (end_inv_move n s i (WHandle m) WDequeue) in Hi; [|done|unfold profile; simpl; by rewrite work_terminate]. by destruct Hi.
  - by eapply end_inv_exit.
  - by eapply end_inv_move.
  - eapply end_inv_move; [done..|]. by apply wake_profile.
Qed.

(** ** From the start *)
Definition pool_inv (cap : Z) (n : nat) s : Prop := data_inv cap s ∧ wake_inv s ∧ end_inv n s.

(** A pool on which the constructor did not throw; the ring buffer fits in memory. *)
Definition started (cap n : Z) s : Prop :=
  0 ≤ cap < 2 ^ 63 - 1 ∧ 0 ≤ n ∧ ∃ callers, thread_pool_ctor cap n callers = Done s.

Lemma async_pool_inv_start cap n s : started cap n s → pool_inv cap (Z.to_nat n) s ∧ (0 < Z.to_nat n)%nat.
Proof.
  intros (Hcap & Hn & callers & Hs). unfold thread_pool_ctor in Hs. destruct (_ || _) eqn:E; [done|]. injection Hs as <-.
  apply orb_false_iff in E as [E1%Z.eqb_neq E2%Z.ltb_ge]. split; [|lia]. set (w := Z.to_nat n).
  destruct (ctor_wf (A := async_msg) cap) as (Hwf & Hit & Hca); [lia|].
  assert (Hc : ∀ f, f CIdle = false → count f (replicate callers CIdle ++ replicate w WDequeue) = if f WDequeue then w else 0%nat).
  { intros f Hf. by rewrite count_app, !count_replicate, Hf. }
  split_and!; split; simpl; rewrite ?Hc by done; try done; try (simpl; lia).
  - unfold circular_q_ctor. simpl. by rewrite u64_small by lia.
  - unfold gather. rewrite map_app, concat_app.
    assert (Hnil : ∀ j p, hand p = [] → concat (map hand (replicate j p)) = []).
    { intros j p Hp. induction j as [|j IH]; simpl; [done|]. by rewrite Hp, IH. }
    by rewrite !Hnil.
  - apply Forall_app. split; by apply Forall_replicate.
  - exists [], 0%nat. split_and!; [done|done|]. simpl.
    rewrite weigh_app, !(weigh_zero to_post) by by apply Forall_replicate. done.
Qed.

Lemma async_pool_inv_step cap n s s' : 0 ≤ cap → pool_inv cap n s → any_step s s' → pool_inv cap n s'.
Proof.
  intros Hcap (Hd & Hw & He) [k Hstep].
  split_and!; [by eapply data_inv_step|by eapply wake_inv_step|by eapply end_inv_step].
Qed.

Lemma async_pool_reachable cap n s0 s : started cap n s0 → rtc any_step s0 s → pool_inv cap (Z.to_nat n) s.
Proof.
  intros Hs Hr. assert (Hcap : 0 ≤ cap) by (destruct Hs; lia).
  revert Hr. apply (rtc_ind_r (pool_inv cap (Z.to_nat n)) (R := any_step)).
  - by apply async_pool_inv_start.
  - intros y z _ Hstep Hinv. by eapply async_pool_inv_step.
Qed.

(** ** A pool that nobody holds comes to its end *)

(** What a thread has to do before it rests. *)
Definition kont (n : nat) (k : option nat) : nat := match k with Some j => 9 * j + 2 | None => 9 * n + 3 end.
Definition weight (n : nat) (p : tp_pc) : nat :=
  match p with
  | WDequeue | DJoin => 1
  | WTimeout | WHandle _ => 2
  | WNotify _ => 4
  | WWait | WExit | CIdle | DDone => 0
  | Post _ _ k => kont n k + 8
  | PostWait _ k => kont n k + 7
  | PostNotify k => kont n k + 2
  | Release => 9 * n + 3
  | DLoop j => 9 * j + 2
  end.
Definition measure (n : nat) s : nat := (weigh (weight n) (threads s) + 4 * Z.to_nat (size (q_ s)))%nat.

Definition own_step s s' : Prop := pool_step s Own s'.

Lemma release_weight n i p s : threads s !! i = Some p → threads_n s = n →
  (weigh (weight n) (threads (after_release i s)) + weight n p ≤ weigh (weight n) (threads s) + (9 * n + 2))%nat.
Proof.
  intros Hi Hn. unfold after_release. pose proof (weigh_insert (weight n) _ i p CIdle Hi).
  pose proof (weigh_insert (weight n) _ i p (DLoop (threads_n s)) Hi).
  case_match; simpl in *; rewrite ?list_insert_insert_eq, ?Hn in *; simpl in *; lia.
Qed.

Lemma wake_weight n p q : wake_worker p = Some q ∨ wake_poster p = Some q → (weight n q ≤ S (weight n p))%nat.
Proof. intros [Hq|Hq]; destruct p; simpl in Hq; try done; injection Hq as <-; simpl; lia. Qed.

Lemma size_items {A} `{Inhabited A} (q : circular_q A) : queue_wf q → size q = Z.of_nat (length (items q)).
Proof. intros Hwf. by rewrite <- zlen_items. Qed.

(** Every step of the code brings the pool nearer to rest. *)
Lemma own_step_measure cap n s s' : 0 ≤ cap → data_inv cap s → threads_n s = n → own_step s s' →
  (measure n s' < measure n s)%nat.
Proof.
  intros Hcap [Hwf Hc _ _ _ _ _] Hn Hstep. assert (Hm : 0 < max_items_ (q_ s)) by lia. unfold measure.
  unfold own_step in Hstep. remember Own as kd eqn:Hk.
  destruct Hstep as [i m po Hi Hm' _|i m Hi _ _|i Hi _|i m k q Hi Hq|i m k Hi Hq|i m k Hi|i k ts Hi Hts|i Hi|i j Hi|i Hi
    |i Hi Hj|i p m q Hi Hpi Hq|i Hi Hq|i Hi Hq|i m ts Hi Hts|i m Hi Hwk|i m Hi Hwk|i Hi|i p q Hi Hq]; try done; simpl;
    try (match goal with |- context [<[i := ?q]> _] => pose proof (weigh_insert (weight n) _ i _ q Hi); simpl in *; lia end).
  - pose proof (weigh_insert (weight n) _ i _ (PostNotify k) Hi).
    destruct (enqueue_Some m _ q Hwf Hm Hq) as (-> & _ & Hits & _). rewrite !size_items by (done || by apply push_wf).
    rewrite Hits, length_app. simpl in *. lia.
  - pose proof (weigh_insert (weight n) _ i _ (PostNotify k) Hi). destruct (nowait_items m (q_ s) Hwf Hm) as [Hits _].
    apply (f_equal length) in Hits. rewrite !length_app in Hits. rewrite !size_items by (done || by apply push_wf).
    simpl in *. lia.
  - pose proof (weigh_insert (weight n) _ i _ (after_post k) Hi).
    pose proof (weigh_notify_le (weight n) _ _ _ Hts ltac:(eauto using wake_weight)). destruct k; simpl in *; lia.
  - pose proof (release_weight n i _ s Hi Hn).
    assert (Hq : q_ (after_release i s) = q_ s) by (unfold after_release; by case_match). rewrite Hq. simpl in *. lia.
  - pose proof (weigh_insert (weight n) _ i _ (WNotify m) Hi).
    destruct (dequeue_Some (q_ s) _ q Hwf Hq) as (x & _ & Hits & Hw' & _). rewrite !size_items, Hits by done.
    destruct Hpi as [->| ->]; simpl in *; lia.
  - pose proof (weigh_insert (weight n) _ i _ (WHandle m) Hi).
    pose proof (weigh_notify_le (weight n) _ _ _ Hts ltac:(eauto using wake_weight)). simpl in *; lia.
Qed.

Lemma own_steps_end cap n s : 0 ≤ cap → pool_inv cap n s → sn own_step s.
Proof.
  intros Hcap. remember (measure n s) as m eqn:Em. revert s Em. induction (lt_wf m) as [m _ IH]. intros s -> Hinv.
  constructor. intros s' Hstep. destruct (Hinv) as (Hd & _ & He).
  eapply IH; [|reflexivity|].
  - eapply own_step_measure; [exact Hcap|exact Hd|by destruct He|exact Hstep].
  - eapply async_pool_inv_step; [exact Hcap|exact Hinv|by exists Own].
Qed.

(** Points from which a thread goes on by itself. *)
Definition runs (p : tp_pc) : bool :=
  match p with
  | WDequeue | WTimeout | WNotify _ | WHandle _ | Post _ _ _ | PostNotify _ | Release | DLoop _ => true
  | _ => false
  end.

(** The step of such a thread, with one choice of the thread that is notified. *)
Definition own (i : nat) s : option thread_pool :=
  match threads s !! i with
  | Some ((WDequeue | WTimeout) as p) =>
      match dequeue (q_ s), p with
      | Some (Ok m, q), _ => Some (move i (WNotify m) (add_taken m q s))
      | Some (Err _, _), _ => None
      | None, WTimeout => Some (move i WDequeue s)
      | None, _ => Some (move i WWait s)
      end
  | Some (WNotify m) => Some (set_threads (notify_first wake_poster (<[i := WHandle m]> (threads s))) s)
  | Some (WHandle m) =>
      Some (if is_terminate m then move i WExit s else move i WDequeue (add_handled m s))
  | Some (Post m block k) =>
      Some (match enqueue m (q_ s) with
            | Some q => move i (PostNotify k) (add_posted block m q [] s)
            | None => move i (PostWait m k) s
            end)
  | Some (Post m overrun_oldest k) =>
      Some (move i (PostNotify k)
        (add_posted overrun_oldest m (enqueue_nowait m (q_ s)) (pushed_out m (q_ s)) s))
  | Some (PostNotify k) => Some (set_threads (notify_first wake_worker (<[i := after_post k]> (threads s))) s)
  | Some Release => Some (after_release i s)
  | Some (DLoop (S j)) => Some (move i (Post async_msg_terminate block (Some j)) s)
  | Some (DLoop 0) => Some (move i DJoin s)
  | _ => None
  end.

Lemma own_sound i s s' : own i s = Some s' → own_step s s'.
Proof.
  unfold own, own_step. destruct (threads s !! i) as [p|] eqn:Hi; [|done].
  destruct p as [| | |m|m| | |m [] k| |k| |[|j]| |]; try done.
  - destruct (dequeue (q_ s)) as [[[m|f] q]|] eqn:Hq; intros [= <-]; [by eapply w_take; eauto|by eapply w_block].
  - destruct (dequeue (q_ s)) as [[[m|f] q]|] eqn:Hq; intros [= <-]; [by eapply w_take; eauto|by eapply w_nothing].
  - intros [= <-]. eapply w_notify; [done|apply notify_first_one].
  - destruct (is_terminate m) eqn:Hm; intros [= <-]; [by eapply w_terminate|].
    eapply w_handle; [done|]. unfold is_work. by rewrite Hm.
  - destruct (enqueue m (q_ s)) as [q|] eqn:Hq; intros [= <-]; [by eapply p_enqueue|by eapply p_block].
  - intros [= <-]. by eapply p_nowait.
  - intros [= <-]. eapply p_notify; [done|apply notify_first_one].
  - intros [= <-]. by eapply p_release.
  - intros [= <-]. by eapply d_join.
  - intros [= <-]. by eapply d_post.
Qed.

Lemma runs_steps s i p : queue_wf (q_ s) → threads s !! i = Some p → runs p = true → red own_step s.
Proof.
  intros Hwf Hi Hp. assert (Hown : ∃ s', own i s = Some s'); [|destruct Hown as [s' Hs]; exists s'; by eapply own_sound].
  unfold own. rewrite Hi. destruct p as [| | |m|m| | |m [] k| |k| |[|j]| |]; try done; try by eexists.
  all: destruct (dequeue (q_ s)) as [[r q]|] eqn:E; [|by eexists];
    destruct (dequeue_Some _ _ _ Hwf E) as (x & -> & _); by eexists.
Qed.

(** *** The ends are counted *)
Definition ends (l : list async_msg) : nat := length (List.filter is_terminate l).

Lemma ends_app l l' : ends (l ++ l') = (ends l + ends l')%nat.
Proof. unfold ends. by rewrite List.filter_app, length_app. Qed.
Lemma ends_work l : Forall (λ m, is_work m = true) l → ends l = 0%nat.
Proof. unfold ends. induction 1 as [|m l Hm _ IH]; [done|]. simpl. by rewrite (work_terminate m Hm). Qed.
Lemma ends_replicate k : ends (replicate k async_msg_terminate) = k.
Proof. induction k as [|k IH]; [done|]. unfold ends in *. simpl. by rewrite IH. Qed.
Lemma out_perm o : o.*2 ≡ₚ dropped o ++ taken o.
Proof.
  induction o as [|[[] m] o IH]; [done|..]; unfold dropped, taken in *; simpl; rewrite IH; [done|].
  apply Permutation_middle.
Qed.
Lemma ends_out o : Forall (λ m, is_work m = true) (dropped o) → ends o.*2 = ends (taken o).
Proof.
  intros Hd. induction o as [|[[] m] o IH]; [done|..]; unfold dropped, taken, ends in *; simpl in *.
  - apply Forall_cons in Hd as [Hm Hd]. rewrite (work_terminate m Hm). by apply IH.
  - specialize (IH Hd). destruct (is_terminate m); [exact (f_equal S IH)|exact IH].
Qed.

(** All ends are accounted for: taken by a worker, in the queue, or not posted yet. *)
Lemma ends_balance cap n s : pool_inv cap n s → alive s = false →
  (count exited (threads s) + count holding_end (threads s) + ends (items (q_ s)) + weigh to_post (threads s) = n)%nat.
Proof.
  intros ([_ _ Hf _ _ _ _] & _ & [_ _ _ (l & k & Hl & Hall & Hk) Hd He _]) Ha. rewrite Ha in Hk.
  change (length (List.filter is_terminate (taken (out s)))) with (ends (taken (out s))) in He.
  rewrite <- (ends_out _ Hd) in He. apply (f_equal ends) in Hl.
  rewrite <- Hf, !ends_app, (ends_work l Hall), ends_replicate in Hl. lia.
Qed.

Lemma to_post_at s : (0 < weigh to_post (threads s))%nat → ∃ i p, threads s !! i = Some p ∧ (0 < to_post p)%nat.
Proof.
  intros Hpos. destruct (decide (Forall (λ p, to_post p = 0%nat) (threads s))) as [Hz|Hz].
  - apply weigh_zero in Hz. lia.
  - apply not_Forall_Exists in Hz; [|apply _]. apply Exists_exists in Hz as (p & [i Hi]%list_elem_of_lookup & Hp).
    exists i, p. split; [done|]. simpl in Hp. lia.
Qed.

(** A worker that has not ended and does not run sleeps, so nothing is queued. *)
Lemma sleeping_worker cap n s : pool_inv cap n s → count runs (threads s) = 0%nat →
  (count exited (threads s) < n)%nat → size (q_ s) = 0.
Proof.
  intros ([Hwf _ _ _ _ _ _] & [Hw _] & [_ Hn _ _ _ _ _]) Hrun Hex. destruct (size_bounds (q_ s) Hwf) as [Hs _].
  assert (Hz : ∀ f, (∀ p, f p = true → runs p = true) → count f (threads s) = 0%nat).
  { intros f Hf. pose proof (count_le f runs (threads s) Hf). lia. }
  assert (Hle : (count worker (threads s) ≤ count exited (threads s) + count (waits wake_worker) (threads s) + count runs (threads s))%nat).
  { rewrite !count_weigh. unfold weigh. clear. induction (threads s) as [|[] ts IH]; simpl; lia. }
  specialize (Hw ltac:(lia)). rewrite !Hz in Hw by by intros []. lia.
Qed.

Lemma dead_pool_steps cap n s : 0 < cap → (0 < n)%nat → pool_inv cap n s → alive s = false →
  DDone ∈ threads s ∨ red own_step s.
Proof.
  intros Hcap Hn Hinv Ha. pose proof Hinv as (Hd & Hw & He). pose proof (di_wf cap s Hd) as Hwf.
  destruct (decide (count runs (threads s) = 0%nat)) as [Hrun|Hrun].
  2: { destruct (count_pos runs (threads s) ltac:(lia)) as (i & p & Hi & Hp). right. by eapply runs_steps. }
  assert (Hz : ∀ f, (∀ p, f p = true → runs p = true) → count f (threads s) = 0%nat).
  { intros f Hf. pose proof (count_le f runs (threads s) Hf). lia. }
  pose proof (ends_balance cap n s Hinv Ha) as Hends. rewrite (Hz holding_end) in Hends by by intros [].
  (* nobody waits to post an end: there would be room, or a worker to make it *)
  assert (Hpost : weigh to_post (threads s) = 0%nat).
  { destruct (decide (weigh to_post (threads s) = 0%nat)) as [|Hne]; [done|]. exfalso.
    destruct (to_post_at s ltac:(lia)) as (i & p & Hi & Hp).
    assert (Hr : runs p = false).
    { destruct (runs p) eqn:E; [|done]. pose proof (count_lookup runs _ i p Hi E). lia. }
    assert (Hwp : waits wake_poster p = true) by (destruct p; try done; simpl in *; try lia).
    pose proof (wi_posters s Hw (count_lookup _ _ i p Hi Hwp)) as Hroom. rewrite !Hz in Hroom by by intros [].
    assert (Hcap' : capacity (q_ s) = cap) by (unfold capacity; rewrite (di_cap cap s Hd); lia).
    pose proof (sleeping_worker cap n s Hinv Hrun ltac:(lia)). lia. }
  assert (Hone : (0 < count destroying (threads s))%nat).
  { pose proof (ei_one n s He) as Ho. rewrite Ha in Ho. simpl in Ho. lia. }
  destruct (count_pos destroying (threads s) Hone) as (d & p & Hdi & Hdp).
  assert (Hr : runs p = false).
  { destruct (runs p) eqn:E; [|done]. pose proof (count_lookup runs _ d p Hdi E). lia. }
  assert (Hp : p = DJoin ∨ p = DDone).
  { pose proof (weigh_lookup to_post _ d p Hdi). destruct p as [| | | | | | | |m [j|]| | | | |]; simpl in *; try done; auto; lia. }
  destruct Hp as [->| ->]; [|left; by eapply list_elem_of_lookup_2]. right. eexists. eapply d_joined; [exact Hdi|].
  assert (Hex : count exited (threads s) = n).
  { destruct (decide (count exited (threads s) < n)%nat) as [Hlt|]; [|lia].
    pose proof (sleeping_worker cap n s Hinv Hrun Hlt) as Hs. rewrite size_items in Hs by done.
    destruct (items (q_ s)); [|done]. change (ends []) with 0%nat in Hends. lia. }
  intros j q Hj Hq. assert (Hq' : exited q = true); [|by destruct q].
  apply (count_all exited worker (threads s)) with j; try done; [by intros []|]. by rewrite (ei_workers n s He).
Qed.

(** *** Everything is handled by then *)
Lemma done_all_handled cap n s : (0 < n)%nat → pool_inv cap n s → DDone ∈ threads s →
  items (q_ s) = [] ∧ gather hand (threads s) = [] ∧ count exited (threads s) = n ∧
  (posted s).*2 = work (posted s).*2 ++ replicate n async_msg_terminate.
Proof.
  intros Hn Hinv [i Hi]%list_elem_of_lookup. pose proof Hinv as (Hd & Hw & He).
  pose proof (ei_done n s He (count_lookup finished _ i _ Hi eq_refl)) as Hex.
  destruct (end_inv_dead n s i _ He Hi eq_refl) as [Ha _].
  pose proof (ends_balance cap n s Hinv Ha) as Hends. pose proof (di_fifo cap s Hd) as Hf.
  destruct (ei_posted n s He) as (l & k & Hl & Hall & Hk). rewrite Ha in Hk.
  assert (Hwork : work l = l ∧ ∀ j, work (replicate j async_msg_terminate) = []).
  { split; [|intros j; by induction j]. clear -Hall. unfold work. induction Hall as [|m l Hm _ IH]; [done|]. simpl. by rewrite Hm, IH. }
  destruct Hwork as [Hwl Hwr]. split_and!; [| |done|].
  - destruct (items (q_ s)) as [|m its _] eqn:Eit using rev_ind; [done|]. exfalso.
    rewrite ends_app in Hends. rewrite Hl, app_assoc in Hf.
    replace k with (S (n - 1)) in Hf by lia. rewrite replicate_S_end, app_assoc in Hf. apply app_inj_2 in Hf as [_ [= ->]]; [|done].
    change (ends [async_msg_terminate]) with 1%nat in Hends. lia.
  - apply gather_nil, Forall_lookup. intros j p Hj. destruct (worker p) eqn:E; [|by destruct p].
    assert (exited p = true) as Hp; [|by destruct p]. apply (count_all exited worker (threads s)) with j; try done; [by intros []|].
    by rewrite (ei_workers n s He).
  - rewrite Hl, work_app, Hwl, Hwr, app_nil_r. do 2 f_equal. lia.
Qed.

(** *** One worker works in order *)
Lemma one_hand ts i p : count worker ts = 1%nat → ts !! i = Some p → worker p = true → gather hand ts = hand p.
Proof.
  intros Hc Hi Hp. pose proof (gather_insert hand ts i p CIdle Hi) as Hg. count_move worker Hi CIdle.
  rewrite Hp in *. simpl in *. rewrite app_nil_r in Hg.
  rewrite (gather_nil hand (<[i := CIdle]> ts)) in Hg.
  - assert (Hl : hand p = [] ∨ ∃ m, hand p = [m]) by (destruct p; simpl; eauto).
    destruct Hl as [Hl|[m Hl]]; rewrite Hl in *; simpl in Hg.
    + by apply Permutation_nil_l in Hg.
    + symmetry. by apply Permutation_singleton_l.
  - apply Forall_lookup. intros j q Hj. destruct (worker q) eqn:E; [|by destruct q].
    pose proof (count_lookup worker _ j q Hj E). lia.
Qed.

Definition in_order s : Prop := handled s ++ work (gather hand (threads s)) = work (taken (out s)).

Lemma in_order_same s s' : in_order s → handled s' = handled s → taken (out s') = taken (out s) →
  gather hand (threads s') = gather hand (threads s) → in_order s'.
Proof. unfold in_order. by intros Ho -> -> ->. Qed.

Lemma in_order_release s i p : in_order s → threads s !! i = Some p → hand p = [] → in_order (after_release i s).
Proof.
  intros Ho Hi Hp. unfold after_release. case_match; apply (in_order_same s); try done; simpl;
    rewrite ?list_insert_insert_eq; by rewrite (gather_same hand _ i p).
Qed.

Lemma in_order_step cap s k s' : 0 ≤ cap → pool_inv cap 1 s → in_order s → pool_step s k s' → in_order s'.
Proof.
  intros Hcap Hinv Ho Hstep. pose proof Hinv as ([Hwf _ _ _ _ _ _] & _ & [_ Hw _ _ _ _ _]).
  assert (Hinv' : pool_inv cap 1 s') by (eapply async_pool_inv_step; [exact Hcap|exact Hinv|by exists k]).
  destruct Hinv' as (_ & _ & [_ Hw' _ _ _ _ _]).
  destruct Hstep as [i m po Hi Hm' _|i m Hi _ _|i Hi _|i m k q Hi Hq|i m k Hi Hq|i m k Hi|i k ts Hi Hts|i Hi|i j Hi|i Hi
    |i Hi Hj|i p m q Hi Hpi Hq|i Hi Hq|i Hi Hq|i m ts Hi Hts|i m Hi Hwk|i m Hi Hwk|i Hi|i p q Hi Hq];
    try (apply (in_order_same s); try done; simpl; by erewrite gather_same).
  - by eapply (in_order_release (unhold s)).
  - apply (in_order_same s); try done; simpl; [by rewrite app_nil_r|by erewrite gather_same].
  - apply (in_order_same s); try done; simpl; [by rewrite taken_app, taken_gone, app_nil_r|by erewrite gather_same].
  - apply (in_order_same s); try done. simpl. rewrite (gather_notify_one hand _ _ _ Hts) by eauto using async_wake_hand.
    apply (gather_same hand _ i (PostNotify k)); [done|by destruct k].
  - by eapply (in_order_release s).
  - unfold in_order in *. simpl in *. pose proof (lookup_lt_Some _ _ _ Hi) as Hlt.
    rewrite (one_hand _ i (WNotify m) Hw') by (done || by apply list_lookup_insert_eq).
    rewrite taken_app, work_app, <- Ho, (one_hand _ i p Hw Hi) by by destruct Hpi as [->| ->].
    assert (Hhp : hand p = []) by by destruct Hpi as [->| ->]. rewrite Hhp. simpl. by rewrite app_nil_r.
  - apply (in_order_same s); try done. simpl. rewrite (gather_notify_one hand _ _ _ Hts) by eauto using async_wake_hand.
    by apply (gather_same hand _ i (WNotify m)).
  - unfold in_order in *. simpl in *. pose proof (lookup_lt_Some _ _ _ Hi) as Hlt.
    rewrite (one_hand _ i WDequeue Hw') by (done || by apply list_lookup_insert_eq).
    rewrite <- Ho, (one_hand _ i _ Hw Hi) by done. unfold work. simpl. by rewrite Hwk, app_nil_r.
  - unfold in_order in *. simpl in *. pose proof (lookup_lt_Some _ _ _ Hi) as Hlt.
    rewrite (one_hand _ i WExit Hw') by (done || by apply list_lookup_insert_eq).
    rewrite <- Ho, (one_hand _ i _ Hw Hi) by done. unfold work, is_work. simpl. by rewrite Hwk.
  - apply (in_order_same s); try done. simpl. apply (gather_same hand _ i p); [done|by apply async_wake_hand].
Qed.

Lemma one_worker_in_order cap s0 s : started cap 1 s0 → rtc any_step s0 s → in_order s.
Proof.
  intros Hs Hr. assert (Hcap : 0 ≤ cap) by (destruct Hs; lia).
  assert (Hboth : pool_inv cap 1 s ∧ in_order s); [|by destruct Hboth].
  revert Hr. apply (rtc_ind_r (λ s, pool_inv cap 1 s ∧ in_order s) (R := any_step)).
  - destruct (async_pool_inv_start cap 1 s0 Hs) as [Hinv _]. split; [done|].
    destruct Hs as (_ & _ & callers & [= <-]). unfold in_order. simpl.
    rewrite gather_nil; [done|]. apply Forall_app. split; [by apply Forall_replicate|by repeat constructor].
  - intros y z _ [k Hstep] [Hinv Ho]. split.
    + eapply async_pool_inv_step; [done|exact Hinv|by exists k].
    + by eapply in_order_step.
Qed.

(** *** A queue without room *)
Lemma no_room_nothing_taken n s0 s : started 0 n s0 → rtc any_step s0 s → taken (out s) = [].
Proof.
  intros Hs Hr. assert (Hboth : pool_inv 0 (Z.to_nat n) s ∧ taken (out s) = []); [|by destruct Hboth].
  revert Hr. apply (rtc_ind_r (λ s, pool_inv 0 (Z.to_nat n) s ∧ taken (out s) = []) (R := any_step)).
  - split; [by apply (async_pool_inv_start 0 n s0 Hs)|]. destruct Hs as (_ & _ & callers & Hs). unfold thread_pool_ctor in Hs.
    case_match; [done|]. by injection Hs as <-.
  - intros y z _ [k Hstep] [Hinv Ht]. split; [eapply async_pool_inv_step; [done|exact Hinv|by exists k]|].
    destruct Hinv as ([Hwf Hc _ _ _ _ _] & _ & _). destruct (size_bounds (q_ y) Hwf) as [Hsz _].
    assert (Hrel : ∀ i s, taken (out (after_release i s)) = taken (out s)) by (intros i s1; unfold after_release; by case_match).
    destruct Hstep as [| | | | | | | | | | |i p m q Hi Hpi Hq| | | | | | |]; simpl; try done;
      try (by rewrite ?taken_app, ?taken_gone, app_nil_r); try (by rewrite Hrel).
    exfalso. destruct (dequeue_Some _ _ _ Hwf Hq) as (x & _ & Hits & _). rewrite (size_items (q_ y) Hwf), Hits in Hsz.
    unfold capacity in Hsz. rewrite Hc in Hsz. simpl in Hsz. lia.
Qed.

Lemma work_sublist l l' : l `sublist_of` l' → work l `sublist_of` work l'.
Proof. unfold work. induction 1; simpl; [done|..]; case_match; by try constructor. Qed.

Lemma taken_sublist o : taken o `sublist_of` o.*2.
Proof. unfold taken. induction o as [|[[] m] o IH]; simpl; by constructor. Qed.

Lemma none_dropped o : dropped o = [] → taken o = o.*2.
Proof.
  unfold dropped, taken. induction o as [|[[] m] o IH]; simpl; [done|done|]. intros Hd. exact (f_equal (cons m) (IH Hd)).
Qed.

(** Nobody gets hold of a pool that is gone. *)
Lemma own_step_refs s s' : own_step s s' → (refs s' ≤ refs s)%nat.
Proof.
  unfold own_step. intros Hstep. remember Own as kd eqn:Hk.
  assert (Hw : ∀ p q, wake_worker p = Some q ∨ wake_poster p = Some q → inside p = inside q).
  { intros p q Hpq%wake_profile. by injection Hpq. }
  destruct Hstep as [i m po Hi Hm' _|i m Hi _ _|i Hi _|i m k q Hi Hq|i m k Hi Hq|i m k Hi|i k ts Hi Hts|i Hi|i j Hi|i Hi
    |i Hi Hj|i p m q Hi Hpi Hq|i Hi Hq|i Hi Hq|i m ts Hi Hts|i m Hi Hwk|i m Hi Hwk|i Hi|i p q Hi Hq]; try done;
    unfold refs; simpl;
    try (match goal with |- context [<[i := ?q]> _] => count_move inside Hi q; simpl in *; lia end).
  - count_move inside Hi (after_post k). rewrite (count_notify_other _ inside _ _ Hts) by eauto.
    destruct k; simpl in *; lia.
  - unfold after_release. count_move inside Hi CIdle. count_move inside Hi (DLoop (threads_n s)).
    case_match; simpl in *; rewrite ?list_insert_insert_eq; lia.
  - count_move inside Hi (WHandle m). rewrite (count_notify_other _ inside _ _ Hts) by eauto. simpl in *. lia.
Qed.

Lemma dead_stays s s' : alive s = false → own_step s s' → alive s' = false.
Proof.
  unfold alive. intros Ha%Nat.ltb_ge Hstep%own_step_refs. apply Nat.ltb_ge. lia.
Qed.

(** ** Runs, for the examples below *)
Inductive command :=
| Do (i : nat) | DoCall (i : nat) (m : async_msg) (po : async_overflow_policy) | DoReset (i : nat)
| DoJoined (i : nat).

Definition all_exited (ts : list tp_pc) : bool := forallb (λ p, implb (worker p) (exited p)) ts.

Definition obey (c : command) s : option thread_pool :=
  match c with
  | Do i => own i s
  | DoCall i m po =>
      match threads s !! i with
      | Some CIdle => if is_work m && alive s then Some (move i (Post m po None) s) else None
      | _ => None
      end
  | DoReset i =>
      match threads s !! i with
      | Some CIdle => if held s then Some (after_release i (unhold s)) else None
      | _ => None
      end
  | DoJoined i =>
      match threads s !! i with
      | Some DJoin => if all_exited (threads s) then Some (move i DDone s) else None
      | _ => None
      end
  end.

Fixpoint play (cs : list command) s : option thread_pool :=
  match cs with [] => Some s | c :: cs => obey c s ≫= play cs end.

Lemma obey_sound c s s' : obey c s = Some s' → any_step s s'.
Proof.
  destruct c as [i|i m po|i|i]; simpl.
  - intros H%own_sound. by exists Own.
  - destruct (threads s !! i) as [[]|] eqn:Hi; try done. destruct (is_work m && alive s) eqn:E; [|done].
    intros [= <-]. apply andb_true_iff in E as [? ?]. exists Call. by apply c_call.
  - destruct (threads s !! i) as [[]|] eqn:Hi; try done. destruct (held s) eqn:E; [|done]. intros [= <-].
    exists Call. by apply c_reset.
  - destruct (threads s !! i) as [[]|] eqn:Hi; try done. destruct (all_exited (threads s)) eqn:E; [|done].
    intros [= <-]. exists Own. apply d_joined; [done|]. intros j p Hj Hp. unfold all_exited in E.
    rewrite forallb_forall in E. specialize (E p ltac:(by eapply list_elem_of_In, list_elem_of_lookup_2)).
    rewrite Hp in E. by destruct p.
Qed.

Lemma play_reaches cs s s' : play cs s = Some s' → rtc any_step s s'.
Proof.
  revert s. induction cs as [|c cs IH]; simpl; intros s; [by intros [= <-]|].
  destruct (obey c s) as [s1|] eqn:E; [|done]. simpl. intros H%IH. eapply rtc_l; [by eapply obey_sound|done].
Qed.

(** Room for one message, one worker, two callers. *)
Definition small_pool : thread_pool :=
  mkPool (circular_q_ctor 1) 1 true [CIdle; CIdle; WDequeue] [] [] [] [].

Lemma small_pool_started : started 1 1 small_pool.
Proof. split_and!; [done|done|done|]. by exists 2%nat. Qed.

(** A message that an overrun drops, one that is flushed, and the end of the pool. *)
Definition demo_log : async_msg := async_msg_log 0 (mkMsg (str "log") level_info 0 1 no_loc (str "hello")).
Definition demo_calls : list command :=
  [DoCall 0 demo_log block; Do 0; Do 0; DoCall 1 (async_msg_flush 0) overrun_oldest; Do 1; Do 1; Do 1; Do 0].
Definition demo_end : list command :=
  [Do 2; Do 2; Do 2; DoReset 1; Do 1; Do 1; Do 1; Do 1; Do 2; Do 2; Do 2; DoJoined 1].

Definition after_calls : thread_pool := Eval vm_compute in default small_pool (play demo_calls small_pool).
Definition after_reset : thread_pool := Eval vm_compute in default small_pool (play (demo_calls ++ take 4 demo_end) small_pool).
Definition after_end : thread_pool := Eval vm_compute in default small_pool (play (demo_calls ++ demo_end) small_pool).

Lemma demo_reached : rtc any_step small_pool after_calls ∧ rtc any_step small_pool after_reset ∧
  rtc any_step small_pool after_end.
Proof.
  split_and!; [apply (play_reaches demo_calls)|apply (play_reaches (demo_calls ++ take 4 demo_end))|
    apply (play_reaches (demo_calls ++ demo_end))]; by vm_compute.
Qed.

(** ** What it promises *)

(** The messages that callers handed to the pool: the ends are the destructor's. *)
Definition given s : list async_msg := work (posted s).*2.

(** When nothing overran and there was one worker, what was handled is what was given. *)
Lemma handled_all_in_order cap s0 s : started cap 1 s0 → rtc any_step s0 s → DDone ∈ threads s →
  overruns (posted s) = 0%nat → dropped (out s) = [] ∧ handled s = given s.
Proof.
  intros Hs Hr Hd Hz. pose proof (async_pool_reachable cap 1 s0 s Hs Hr) as Hinv. change (Z.to_nat 1) with 1%nat in Hinv.
  destruct (done_all_handled cap 1 s ltac:(lia) Hinv Hd) as (Hit & Hhand & _ & _).
  destruct Hinv as ([_ _ Hf _ Ho _ _] & _ & _). pose proof (one_worker_in_order cap s0 s Hs Hr) as Hin.
  unfold in_order in Hin. rewrite Hhand, app_nil_r in Hin. rewrite Hit, app_nil_r in Hf.
  assert (Hnil : dropped (out s) = []) by (destruct (dropped (out s)); [done|simpl in Ho; lia]).
  split; [done|]. rewrite Hin. unfold given. by rewrite <- Hf, none_dropped.
Qed.

(** C40: asynchronous logging keeps the messages in order.  In every interleaving of callers,
    workers, timeouts and the destructor the queue holds at most its capacity; messages leave it in
    the order in which they were posted, each once, to a worker or because of an overrun; only
    posts that do not wait can overrun, and overrun_counter counts what was lost; each message
    taken is handled once or still in a worker's hands, with one worker in order; and nobody sleeps
    over something to do: while a worker waits and a message is queued another worker is about to
    take one, or a caller about to notify, and likewise for callers that wait for room. *)
Theorem async_queue_keeps_order cap n s0 s :
  started cap n s0 → rtc any_step s0 s →
  queue_size s ≤ cap ∧
  (out s).*2 ++ items (q_ s) = (posted s).*2 ∧
  overrun_counter s = u64 (zlen (dropped (out s))) ∧ (length (dropped (out s)) ≤ overruns (posted s))%nat ∧
  handled s ++ work (gather hand (threads s)) ≡ₚ work (taken (out s)) ∧
  (n = 1 → handled s ++ work (gather hand (threads s)) = work (taken (out s))) ∧
  ((∃ i, threads s !! i = Some WWait) → items (q_ s) ≠ [] →
    ∃ j p, threads s !! j = Some p ∧ (taking p || after_put p = true)) ∧
  ((∃ i m k, threads s !! i = Some (PostWait m k)) → queue_size s < cap →
    ∃ j p, threads s !! j = Some p ∧ (posting p || after_pop p = true)).
Proof.
  intros Hs Hr. pose proof (async_pool_reachable cap n s0 s Hs Hr) as ([Hwf Hc Hf Hn Ho Hh _] & [Hw Hp] & _).
  destruct (size_bounds (q_ s) Hwf) as [Hsz _]. assert (Hcap : capacity (q_ s) = cap).
  { unfold capacity. rewrite Hc. destruct Hs. lia. }
  split_and!; try done; [unfold queue_size; lia| | |].
  - intros ->. by eapply one_worker_in_order.
  - intros [i Hi] Hne. pose proof (Hw (count_lookup (waits wake_worker) _ i _ Hi eq_refl)) as Hle.
    rewrite size_items in Hle by done.
    assert (0 < length (items (q_ s)))%nat by (destruct (items (q_ s)); [done|simpl; lia]).
    destruct (count_pos (λ p, taking p || after_put p) (threads s)) as (j & p & Hj & Hjp); [|by exists j, p].
    pose proof (count_orb taking after_put (threads s)). lia.
  - intros (i & m & k & Hi) Hroom. pose proof (Hp (count_lookup (waits wake_poster) _ i _ Hi eq_refl)) as Hle.
    unfold queue_size in Hroom.
    destruct (count_pos (λ p, posting p || after_pop p) (threads s)) as (j & p & Hj & Hjp); [|by exists j, p].
    pose proof (count_orb posting after_pop (threads s)). lia.
Qed.

Lemma async_queue_keeps_order_witness :
  queue_size after_calls ≤ 1 ∧
  (out after_calls).*2 ++ items (q_ after_calls) = (posted after_calls).*2 ∧
  overrun_counter after_calls = u64 (zlen (dropped (out after_calls))) ∧
  (length (dropped (out after_calls)) ≤ overruns (posted after_calls))%nat ∧
  handled after_calls ++ work (gather hand (threads after_calls)) ≡ₚ work (taken (out after_calls)) ∧
  (1 = 1 → handled after_calls ++ work (gather hand (threads after_calls)) = work (taken (out after_calls))) ∧
  ((∃ i, threads after_calls !! i = Some WWait) → items (q_ after_calls) ≠ [] →
    ∃ j p, threads after_calls !! j = Some p ∧ (taking p || after_put p = true)) ∧
  ((∃ i m k, threads after_calls !! i = Some (PostWait m k)) → queue_size after_calls < 1 →
    ∃ j p, threads after_calls !! j = Some p ∧ (posting p || after_pop p = true)).
Proof. exact (async_queue_keeps_order 1 1 small_pool after_calls small_pool_started (proj1 demo_reached)). Defined.

(** C27: the destructor waits for everything.  When it has returned the queue is empty, every
    worker has ended, every message that was handed to the pool was handled once, except those
    that an overrun dropped, and with one worker the handled ones are in the order of the posts. *)
Theorem async_pool_drains cap n s0 s :
  started cap n s0 → rtc any_step s0 s → DDone ∈ threads s →
  items (q_ s) = [] ∧ (∀ i p, threads s !! i = Some p → worker p = true → p = WExit) ∧
  handled s ++ dropped (out s) ≡ₚ given s ∧
  (n = 1 → handled s `sublist_of` given s) ∧
  (overruns (posted s) = 0%nat → dropped (out s) = [] ∧ (n = 1 → handled s = given s)).
Proof.
  intros Hs Hr Hdone. pose proof (async_pool_reachable cap n s0 s Hs Hr) as Hinv. destruct (async_pool_inv_start cap n s0 Hs) as [_ Hn].
  destruct (done_all_handled cap _ s Hn Hinv Hdone) as (Hit & Hhand & Hex & Hpost).
  destruct Hinv as ([_ _ Hf _ Ho Hh _] & _ & [_ Hw _ _ Hdr _ _]). rewrite Hit, app_nil_r in Hf.
  rewrite Hhand, app_nil_r in Hh. assert (Hwork : work (dropped (out s)) = dropped (out s)).
  { clear -Hdr. unfold work. induction Hdr as [|m l Hm _ IH]; [done|]. simpl. by rewrite Hm, IH. }
  assert (Hord : n = 1 → handled s = work (taken (out s))).
  { intros ->. pose proof (one_worker_in_order cap s0 s Hs Hr) as Hin. unfold in_order in Hin.
    by rewrite Hhand, app_nil_r in Hin. }
  assert (Hsub : taken (out s) `sublist_of` (out s).*2) by (apply taken_sublist).
  split_and!; [done| | | |].
  - intros i p Hi Hp. assert (exited p = true) as Hp'; [|by destruct p].
    apply (count_all exited worker (threads s)) with i; try done; [by intros []|]. by rewrite Hw.
  - unfold given. rewrite Hh, <- Hf, <- Hwork, <- work_app, (out_perm (out s)), !work_app. apply Permutation_app_comm.
  - intros Hn1. rewrite (Hord Hn1). unfold given. rewrite <- Hf. by apply work_sublist.
  - intros Hz. split; [|intros ->; by eapply handled_all_in_order].
    destruct (dropped (out s)); [done|simpl in Ho; lia].
Qed.

Lemma async_pool_drains_witness :
  dropped (out after_end) = [demo_log] ∧ handled after_end = [async_msg_flush 0] ∧
  items (q_ after_end) = [] ∧ (∀ i p, threads after_end !! i = Some p → worker p = true → p = WExit) ∧
  handled after_end ++ dropped (out after_end) ≡ₚ given after_end ∧
  (1 = 1 → handled after_end `sublist_of` given after_end) ∧
  (overruns (posted after_end) = 0%nat → dropped (out after_end) = [] ∧ (1 = 1 → handled after_end = given after_end)).
Proof.
  split; [reflexivity|]. split; [reflexivity|].
  apply (async_pool_drains 1 1 small_pool after_end small_pool_started (proj2 (proj2 demo_reached))).
  apply list_elem_of_lookup. exists 1%nat. reflexivity.
Defined.

(** C21: the destructor ends.  Once nobody holds the pool the code of its threads comes to rest
    after finitely many steps, whatever their order, and rest is reached only when the
    destructor has returned.  Timeouts and spurious wakeups only lead to states of which the same
    holds. *)
Theorem async_shutdown_terminates cap n s0 s :
  started cap n s0 → 0 < cap → rtc any_step s0 s → alive s = false →
  sn own_step s ∧ ∀ s', rtc own_step s s' → DDone ∈ threads s' ∨ red own_step s'.
Proof.
  intros Hs Hcap Hr Ha. pose proof (async_pool_reachable cap n s0 s Hs Hr) as Hinv. destruct (async_pool_inv_start cap n s0 Hs) as [_ Hn].
  split; [eapply (own_steps_end cap); [lia|done]|]. intros s' Hr'.
  assert (Hboth : pool_inv cap (Z.to_nat n) s' ∧ alive s' = false).
  { revert Hr'. apply (rtc_ind_r (λ s, pool_inv cap (Z.to_nat n) s ∧ alive s = false) (R := own_step)); [done|].
    intros y z _ Hstep [Hy Hay]. split; [eapply async_pool_inv_step; [lia|done|by exists Own]|by eapply dead_stays]. }
  destruct Hboth as [Hinv' Ha']. by eapply dead_pool_steps.
Qed.

Lemma async_shutdown_terminates_witness :
  sn own_step after_reset ∧ ∀ s', rtc own_step after_reset s' → DDone ∈ threads s' ∨ red own_step s'.
Proof.
  exact (async_shutdown_terminates 1 1 small_pool after_reset small_pool_started eq_refl
    (proj1 (proj2 demo_reached)) eq_refl).
Defined.

(** a queue for no message.  A pool made with [q_max_items] 0 is accepted, but its
    destructor, which posts its messages in the way that waits for room, never returns. *)
Theorem async_no_room_never_ends n s0 s : started 0 n s0 → rtc any_step s0 s → DDone ∉ threads s.
Proof.
  intros Hs Hr Hdone. pose proof (async_pool_reachable 0 n s0 s Hs Hr) as Hinv. destruct (async_pool_inv_start 0 n s0 Hs) as [_ Hn].
  destruct (done_all_handled 0 _ s Hn Hinv Hdone) as (_ & _ & Hex & _).
  destruct Hinv as (_ & _ & [_ _ _ _ _ He _]). rewrite (no_room_nothing_taken n s0 s Hs Hr) in He. simpl in He. lia.
Qed.

Lemma async_no_room_never_ends_witness :
  DDone ∉ threads (mkPool (circular_q_ctor 0) 1 true [CIdle; WDequeue] [] [] [] []).
Proof.
  apply (async_no_room_never_ends 1 (mkPool (circular_q_ctor 0) 1 true [CIdle; WDequeue] [] [] [] [])); [|apply rtc_refl].
  split_and!; [done|done|done|]. by exists 1%nat.
Defined.
