(* ===== verification/AsyncLogger.v ===== *)
(** * AsyncLogger: src/thirdParty/spdlog/async_logger.h, async_logger-inl.h, async.h and details/log_msg_buffer-inl.h

    The logger in front of the pool of AsyncQueue.v: what a call of it posts, what the workers
    do with a message, and that nothing but the time changes when the work is done later. *)
From S2P Require Import Prelude Throws CircularQ LogFile SpdLogger AsyncQueue.

(** ** A message that owns its text

    The views of the name and of the payload are offsets into the buffer, with a size; the
    rest of [fields] is copied. *)
Record log_msg_buffer := mkBuf {
  fields : log_msg;
  logger_name_view : Z * Z;
  payload_view : Z * Z;
  buffer : list byte
}.

Definition view (b : list byte) (v : Z * Z) : list byte := slice v.1 (v.1 + v.2) b.
Definition read_msg (m : log_msg_buffer) : log_msg :=
  mkMsg (view (buffer m) (logger_name_view m)) (level (fields m)) (time (fields m)) (thread_id (fields m))
    (source (fields m)) (view (buffer m) (payload_view m)).

Definition update_string_views (m : log_msg_buffer) : log_msg_buffer :=
  mkBuf (fields m) (0, (logger_name_view m).2) ((logger_name_view m).2, (payload_view m).2) (buffer m).

(** From a message whose views are of other memory. *)
Definition log_msg_buffer_ctor (orig_msg : log_msg) : log_msg_buffer :=
  update_string_views
    (mkBuf orig_msg (0, zlen (logger_name orig_msg)) (0, zlen (payload orig_msg))
       (logger_name orig_msg ++ payload orig_msg)).
Definition copy_ctor (other : log_msg_buffer) : log_msg_buffer :=
  update_string_views
    (mkBuf (fields other) (logger_name_view other) (payload_view other)
       (view (buffer other) (logger_name_view other) ++ view (buffer other) (payload_view other))).
(** Moving leaves the other one with an empty buffer. *)
Definition move_ctor (other : log_msg_buffer) : log_msg_buffer * log_msg_buffer :=
  (update_string_views other, mkBuf (fields other) (logger_name_view other) (payload_view other) []).
Definition copy_assign (m other : log_msg_buffer) : log_msg_buffer := update_string_views other.
Definition move_assign (m other : log_msg_buffer) : log_msg_buffer * log_msg_buffer := move_ctor other.

(** The views lie one after the other in the buffer. *)
Definition views_ok (m : log_msg_buffer) : Prop :=
  ∃ a b, 0 ≤ a ∧ 0 ≤ b ∧ zlen (buffer m) = a + b ∧ logger_name_view m = (0, a) ∧ payload_view m = (a, b).

Lemma views_ok_fixed m : views_ok m → update_string_views m = m.
Proof. destruct m. intros (a & b & _ & _ & _ & E1 & E2). simpl in *. by subst. Qed.

Lemma msg_eta (m : log_msg) : mkMsg (logger_name m) (level m) (time m) (thread_id m) (source m) (payload m) = m.
Proof. by destruct m. Qed.

Lemma buffered_reads m : views_ok (log_msg_buffer_ctor m) ∧ read_msg (log_msg_buffer_ctor m) = m.
Proof.
  split.
  - exists (zlen (logger_name m)), (zlen (payload m)). simpl. rewrite zlen_app.
    pose proof (zlen_nonneg (logger_name m)). pose proof (zlen_nonneg (payload m)). by split_and!.
  - unfold read_msg, view. simpl. rewrite Z.add_0_l, slice_app_l, slice_full by lia.
    rewrite <- (zlen_app (logger_name m) (payload m)), slice_to_end by apply zlen_nonneg.
    unfold zlen at 1. rewrite Nat2Z.id, drop_app_length. apply msg_eta.
Qed.

Lemma update_views_ok m : views_ok m → views_ok (update_string_views m) ∧ read_msg (update_string_views m) = read_msg m.
Proof. intros Hm. by rewrite views_ok_fixed. Qed.

Lemma copied_reads m : views_ok m → views_ok (copy_ctor m) ∧ read_msg (copy_ctor m) = read_msg m.
Proof.
  intros (a & b & Ha & Hb & Hl & E1 & E2).
  assert (Hbuf : view (buffer m) (logger_name_view m) ++ view (buffer m) (payload_view m) = buffer m).
  { unfold view. rewrite E1, E2. simpl. rewrite <- slice_split, <- Hl by lia. apply slice_full. }
  unfold copy_ctor. rewrite Hbuf. unfold update_string_views, read_msg, views_ok. simpl. rewrite E1, E2. simpl.
  split; [by exists a, b|done].
Qed.

(** What happens to a message between the call and the worker: it is buffered, then copied and
    moved any number of times. *)
Inductive buffer_op := Copy | Move | CopyAssign (into : log_msg_buffer) | MoveAssign (into : log_msg_buffer).
Definition apply_op (m : log_msg_buffer) (o : buffer_op) : log_msg_buffer :=
  match o with
  | Copy => copy_ctor m
  | Move => (move_ctor m).1
  | CopyAssign into => copy_assign into m
  | MoveAssign into => (move_assign into m).1
  end.

(** a buffered message keeps its text.  Whatever copies and moves a message goes through in
    the queue, its views read the name and the text of the call, and the rest is unchanged. *)
Theorem buffered_message_kept (m : log_msg) (ops : list buffer_op) :
  read_msg (foldl apply_op (log_msg_buffer_ctor m) ops) = m.
Proof.
  destruct (buffered_reads m) as [Hok Hr]. revert Hok Hr. generalize (log_msg_buffer_ctor m). induction ops as [|o ops IH];
    simpl; intros b Hok Hr; [done|].
  assert (Hstep : views_ok (apply_op b o) ∧ read_msg (apply_op b o) = read_msg b).
  { destruct o; simpl; [by apply copied_reads|by apply update_views_ok..]. }
  destruct Hstep as [Hok' Hr']. apply IH; [done|congruence].
Qed.

(** ** The logger that callers use

    What a call posts is collected next to the world of the sinks; [pool] tells whether
    [thread_pool_.lock()] finds a pool, as [AsyncQueue.alive] does. *)
Record async_logger := mkAsyncLogger { base : logger; overflow_policy_ : async_overflow_policy }.

Definition async_logger_ctor (name : list byte) (sinks : list nat) (overflow_policy : async_overflow_policy) : async_logger :=
  mkAsyncLogger (logger_ctor name sinks) overflow_policy.
Definition async_clone (g : async_logger) (new_name : list byte) : async_logger :=
  mkAsyncLogger (mkLogger new_name (sinks_ (base g)) (level_ (base g)) (flush_level_ (base g)) (tracer_ (base g)))
    (overflow_policy_ g).

(** The pool of the registry, or a new one for [default_async_q_size] messages and one thread. *)
Definition default_async_q_size : Z := 8192.
Definition async_factory_tp (tp : option thread_pool) (callers : nat) : result thread_pool :=
  match tp with Some tp => Done tp | None => thread_pool_ctor default_async_q_size 1 callers end.

Section async_logger.
Context {FS : Type} `{FileSystem FS} (format : pattern → log_msg → formatted).
Abbreviation World := (Log FS).
Abbreviation Front := (World * list (async_overflow_policy * async_msg))%type.
Implicit Types (w : World) (pool : bool) (l : nat) (g : async_logger).

Definition no_pool (what : string) : list byte := str "async " ++ str what ++ str ": thread pool doesn't exist anymore".

(** [post_async_msg_] of the pool that was found. *)
Definition post_async_msg_ (po : async_overflow_policy) (m : async_msg) : M Front unit := modify (λ '(w, ps), (w, ps ++ [(po, m)])).

Definition async_sink_it_ pool l g (msg : log_msg) : M Front unit :=
  if pool then post_async_msg_ (overflow_policy_ g) (async_msg_log l msg) else throw (no_pool "log").
Definition async_flush_ pool l g : M Front unit :=
  if pool then post_async_msg_ (overflow_policy_ g) (async_msg_flush l) else throw (no_pool "flush").

(** [logger::log_it_] and [logger::log] with these overrides; [put] stores the changed logger. *)
Definition front_catch (name : list byte) (m : M Front unit) : M Front unit := λ f,
  match m f with ((w, ps), Throw e) => ((err_handler_ name e w, ps), Done tt) | r => r end.

Definition async_log_it_ pool l g (msg : log_msg) (log_enabled traceback_enabled : bool) : M Front unit :=
  _ ← (if log_enabled then async_sink_it_ pool l g msg else mret tt);
  if traceback_enabled
  then modify (λ '(w, ps), (put_logger l (set_tracer (base g) (tracer_push_back msg (tracer_ (base g)))) w, ps))
  else mret tt.

Definition async_log_ pool l g (loc : source_loc) (lvl : Z) (fmt : result (list byte)) : M Front unit := λ f,
  let w := f.1 in
  let log_enabled := should_log (base g) lvl in
  let traceback_enabled := enabled (tracer_ (base g)) in
  if negb log_enabled && negb traceback_enabled then (f, Done tt)
  else
    front_catch (name_ (base g))
      match fmt with
      | Done buf =>
          async_log_it_ pool l g (mkMsg (name_ (base g)) lvl (now w) (thread w) loc buf) log_enabled traceback_enabled
      | Throw e => throw e
      | Crash c => crash c
      end f.

(** *** The workers' side *)
Definition backend_flush_ (g : logger) : M World unit := forM_ (sinks_ g) (λ i, catch_ (name_ g) (sink_flush i)).

Definition backend_sink_it_ (g : logger) (msg : log_msg) : M World unit :=
  _ ← forM_ (sinks_ g) (λ i,
        w ← get;
        s ← deref (the_sink i w);
        if sink_should_log s (level msg) then catch_ (name_ g) (sink_log format i msg) else mret tt);
  if should_flush_ g msg then backend_flush_ g else mret tt.

(** The switch of [process_next_msg_]: the pointer to the logger is that of the message. *)
Definition process_msg (m : async_msg) : M World unit :=
  match msg_type m with
  | log => g ← (w ← get; l ← deref (worker_ptr m); deref (the_logger l w)); backend_sink_it_ g (the_msg m)
  | flush => g ← (w ← get; l ← deref (worker_ptr m); deref (the_logger l w)); backend_flush_ g
  | terminate => mret tt
  end.

(** What the call would have done at once. *)
Definition call_at_once (m : async_msg) : M World unit :=
  match msg_type m with
  | log => g ← (w ← get; l ← deref (worker_ptr m); deref (the_logger l w)); SpdLogger.sink_it_ format g (the_msg m)
  | flush => g ← (w ← get; l ← deref (worker_ptr m); deref (the_logger l w)); SpdLogger.flush_ g
  | terminate => mret tt
  end.

(** *** What all of this leaves alone: the loggers, the clock and the thread *)
Definition env w := (loggers w, now w, thread w).
Definition tame {A} (m : M World A) : Prop := ∀ w, env (m w).1 = env w.
Definition calm {A} (m : M World A) : Prop := tame m ∧ ∀ w e, (m w).2 ≠ Throw e.

Lemma tame_bind {A B} (m : M World A) (k : A → M World B) : tame m → (∀ a, tame (k a)) → tame (m ≫= k).
Proof.
  intros Hm Hk w. unfold mbind, M_bind. specialize (Hm w). destruct (m w) as [w' [a| |]]; simpl in *; [|done..].
  by rewrite Hk.
Qed.
Lemma calm_bind {A B} (m : M World A) (k : A → M World B) : calm m → (∀ a, calm (k a)) → calm (m ≫= k).
Proof.
  intros [Hm Hm'] Hk. split; [apply tame_bind; [done|by intros a; destruct (Hk a)]|]. intros w e.
  unfold mbind, M_bind. specialize (Hm' w). destruct (m w) as [w' [a| |]]; simpl in *; [|naive_solver|done].
  by apply (Hk a).
Qed.
Lemma calm_foreach {A} (f : A → M World unit) (xs : list A) : (∀ x, calm (f x)) → calm (foreach f xs).
Proof. intros Hf. induction xs as [|x xs IH]; [by split|]. apply calm_bind; [apply Hf|by intros _]. Qed.
Lemma calm_get : calm (get : M World World).
Proof. by split. Qed.
Lemma calm_deref {A} (o : option A) : calm (deref (FS := FS) o).
Proof. by destruct o; split. Qed.

Lemma tame_on_file {A} i s k (m : M (LW FS) A) : tame (on_file i s k m).
Proof. intros w. unfold on_file. by destruct (m _). Qed.
Lemma tame_sink_log i msg : tame (sink_log format i msg).
Proof.
  apply tame_bind; [by apply calm_get|]. intros w. apply tame_bind; [by apply calm_deref|]. intros s.
  destruct (impl s); [|apply tame_on_file]. apply tame_bind; [by intros w'; unfold lift; destruct (console_text _ _ _)|done].
Qed.
Lemma tame_sink_flush i : tame (sink_flush i : M World unit).
Proof.
  apply tame_bind; [by apply calm_get|]. intros w. apply tame_bind; [by apply calm_deref|]. intros s.
  destruct (impl s); [done|apply tame_on_file].
Qed.

Lemma env_err_handler name e w : env (err_handler_ name e w) = env w.
Proof. unfold err_handler_. by case_match. Qed.
Lemma calm_catch name m : tame m → calm (catch_ name m : M World unit).
Proof.
  intros Hm. unfold catch_. split; intros w; specialize (Hm w); destruct (m w) as [w' [a|e|f]]; simpl in *; try done.
  by rewrite env_err_handler.
Qed.

Lemma calm_flush (g : logger) : calm (SpdLogger.flush_ g : M World unit).
Proof. apply calm_foreach. intros i. apply calm_catch, tame_sink_flush. Qed.
Lemma calm_sink_it (g : logger) msg : calm (SpdLogger.sink_it_ format g msg).
Proof.
  apply calm_bind.
  - apply calm_foreach. intros i. apply calm_bind; [apply calm_get|]. intros w. apply calm_bind; [apply calm_deref|]. intros s.
    case_match; [|by split]. apply calm_catch, tame_sink_log.
  - intros _. case_match; [apply calm_flush|by split].
Qed.

(** ** Time

    What a worker does may be done later than the call.  Worlds are [alike] when they differ in
    the time and in the reports on stderr, which carry the time and are at most one a second. *)
Record alike w w' : Prop := mkAlike {
  al_sinks : sinks w = sinks w';
  al_loggers : loggers w = loggers w';
  al_reg : reg w = reg w';
  al_stdout : stdout w = stdout w';
  al_errors : err_counter w = err_counter w';
  al_thread : SpdLogger.thread w = SpdLogger.thread w';
  al_disk : disk w = disk w'
}.
Definition same {A} (r r' : World * result A) : Prop := alike r.1 r'.1 ∧ r.2 = r'.2.
(** It looks neither at the clock nor at the reports. *)
Definition blind {A} (m : M World A) : Prop := ∀ w w', alike w w' → same (m w) (m w').

#[export] Instance alike_equiv : Equivalence alike.
Proof.
  split.
  - by intros w.
  - by intros w w' [].
  - intros w1 w2 w3 [] []. split; etransitivity; eassumption.
Qed.
Lemma same_trans {A} (r1 r2 r3 : World * result A) : same r1 r2 → same r2 r3 → same r1 r3.
Proof. intros [H1 E1] [H2 E2]. split; [by etransitivity|congruence]. Qed.

Lemma blind_ret {A} (a : A) : blind (mret a).
Proof. by intros w w' Hw. Qed.
Lemma blind_bind {A B} (m : M World A) (k : A → M World B) : blind m → (∀ a, blind (k a)) → blind (m ≫= k).
Proof.
  intros Hm Hk w w' Hw. destruct (Hm w w' Hw) as [Ha E]. unfold mbind, M_bind.
  destruct (m w) as [w1 [a| |]], (m w') as [w1' [a'| |]]; simpl in *; simplify_eq; [by apply Hk|done..].
Qed.
Lemma blind_get {B} (k : World → M World B) : (∀ v v', alike v v' → k v = k v') → (∀ v, blind (k v)) → blind (get ≫= k).
Proof. intros He Hk w w' Hw. unfold mbind, M_bind, get. rewrite (He w w' Hw). by apply Hk. Qed.
Lemma blind_deref {A} (o : option A) : blind (deref (FS := FS) o).
Proof. destruct o; by intros w w' Hw. Qed.
Lemma blind_foreach {A} (f : A → M World unit) (xs : list A) : (∀ x, blind (f x)) → blind (foreach f xs).
Proof. intros Hf. induction xs as [|x xs IH]; [by apply (blind_ret tt)|]. apply blind_bind; [apply Hf|by intros _]. Qed.

Lemma alike_sink w w' i : alike w w' → the_sink i w = the_sink i w'.
Proof. intros []. unfold the_sink. by rewrite al_sinks0. Qed.
Lemma alike_logger w w' l : alike w w' → the_logger l w = the_logger l w'.
Proof. intros []. unfold the_logger. by rewrite al_loggers0. Qed.
Lemma alike_err name e w w' : alike w w' → alike (err_handler_ name e w) (err_handler_ name e w').
Proof. intros []. unfold err_handler_. repeat case_match; split; simpl; congruence. Qed.

Lemma blind_catch name (m : M World unit) : blind m → blind (catch_ name m).
Proof.
  intros Hm w w' Hw. destruct (Hm w w' Hw) as [Ha E]. unfold catch_.
  destruct (m w) as [w1 [a|e|f]], (m w') as [w1' [a'|e'|f']]; simpl in *; simplify_eq; [by split| |by split].
  split; [by apply alike_err|done].
Qed.
Lemma blind_on_file {A} i s k (m : M (LW FS) A) : blind (on_file i s k m).
Proof.
  intros w w' []. unfold on_file. rewrite <- al_disk0. destruct (m _) as [lw r]. split; [|done]. split; simpl; try done. by rewrite al_sinks0.
Qed.
Lemma blind_sink_log i msg : blind (sink_log format i msg).
Proof.
  apply blind_get; [intros v v' Hv; by rewrite (alike_sink v v')|]. intros v. apply blind_bind; [apply blind_deref|]. intros s.
  destruct (impl s); [|apply blind_on_file]. apply blind_bind.
  - intros w w' Hw. unfold lift. by destruct (console_text _ _ _).
  - intros t w w' []. split; [|done]. split; simpl; try done. by rewrite al_stdout0.
Qed.
Lemma blind_sink_flush i : blind (sink_flush i : M World unit).
Proof.
  apply blind_get; [intros v v' Hv; by rewrite (alike_sink v v')|]. intros v. apply blind_bind; [apply blind_deref|]. intros s.
  destruct (impl s); [apply (blind_ret tt)|apply blind_on_file].
Qed.
Lemma blind_flush (g : logger) : blind (backend_flush_ g).
Proof. apply blind_foreach. intros i. apply blind_catch, blind_sink_flush. Qed.
Lemma blind_process m : blind (process_msg m).
Proof.
  unfold process_msg. destruct (msg_type m); [| |apply (blind_ret tt)]; (apply blind_bind;
    [apply blind_get; [intros v v' Hv|intros v; apply blind_bind; [apply blind_deref|intros l; apply blind_deref]]|intros g]).
  - destruct (worker_ptr m) as [l|]; [|done]. unfold deref, mbind, M_bind, mret, M_ret. by rewrite (alike_logger v v').
  - apply blind_bind; [|intros _; case_match; [apply blind_flush|apply (blind_ret tt)]]. apply blind_foreach. intros i.
    apply blind_get; [intros v v' Hv; by rewrite (alike_sink v v')|]. intros v. apply blind_bind; [apply blind_deref|]. intros s.
    case_match; [|apply (blind_ret tt)]. apply blind_catch, blind_sink_log.
  - destruct (worker_ptr m) as [l|]; [|done]. unfold deref, mbind, M_bind, mret, M_ret. by rewrite (alike_logger v v').
  - apply blind_flush.
Qed.

(** Something done at a time. *)
Definition at_time {A} (m : M World A) (t : Z) : M World A := _ ← modify (set_now t); m.
Lemma alike_now t w : alike (set_now t w) w.
Proof. by split. Qed.

(** Messages handled at any times. *)
Lemma handled_any_time (ms : list async_msg) (ts : list Z) w w' : length ts = length ms → alike w w' →
  same (foreach (λ '(t, m), at_time (process_msg m) t) (zip ts ms) w) (foreach process_msg ms w').
Proof.
  revert ts w w'. induction ms as [|m ms IH]; intros [|t ts] w w' Hl Hw; try done.
  set (F := λ '(t, m), at_time (process_msg m) t).
  change (same ((process_msg m ≫= λ _, foreach F (zip ts ms)) (set_now t w)) ((process_msg m ≫= λ _, foreach process_msg ms) w')).
  unfold mbind, M_bind. destruct (blind_process m (set_now t w) w') as [Ha E]; [by rewrite alike_now|].
  destruct (process_msg m (set_now t w)) as [w1 [[]| |]], (process_msg m w') as [w1' [[]| |]]; simpl in *; simplify_eq; [|done..].
  apply IH; [by simplify_eq|done].
Qed.

(** ** A session: calls one after another, on loggers without a backtrace *)
Inductive log_call := LogCall (l : nat) (loc : source_loc) (lvl : Z) (text : list byte) | FlushCall (l : nat).

Definition sync_call (c : log_call) : M World unit :=
  match c with
  | LogCall l loc lvl t => log_ format (Some l) loc lvl (Done t)
  | FlushCall l => w ← get; g ← deref (the_logger l w); SpdLogger.flush_ g
  end.

(** The same calls when the loggers are asynchronous. *)
Definition async_call pool (po : async_overflow_policy) (c : log_call) : M Front unit := λ f,
  match c with
  | LogCall l loc lvl t =>
      match the_logger l f.1 with
      | Some g => async_log_ pool l (mkAsyncLogger g po) loc lvl (Done t) f
      | None => (f, Crash NullPointer)
      end
  | FlushCall l =>
      match the_logger l f.1 with
      | Some g => async_flush_ pool l (mkAsyncLogger g po) f
      | None => (f, Crash NullPointer)
      end
  end.

Definition plain w (c : log_call) : Prop :=
  match c with LogCall l _ _ _ | FlushCall l => ∃ a, the_logger l w = Some a ∧ enabled (tracer_ a) = false end.

Lemma plain_env w w' c : env w' = env w → plain w c → plain w' c.
Proof. intros [= El _ _]. unfold plain, the_logger. destruct c; by rewrite El. Qed.

(** The message that a call posts, and the same call without posting. *)
Definition posts w (c : log_call) : list async_msg :=
  match c with
  | LogCall l loc lvl t =>
      match the_logger l w with
      | Some g => if should_log g lvl then [async_msg_log l (mkMsg (name_ g) lvl (now w) (thread w) loc t)] else []
      | None => []
      end
  | FlushCall l => [async_msg_flush l]
  end.

Lemma posts_env w w' c : env w' = env w → posts w' c = posts w c.
Proof. intros [= El En Et]. unfold posts, the_logger. destruct c; [|done]. by rewrite El, En, Et. Qed.

Lemma async_call_posts po c w ps : plain w c →
  async_call true po c (w, ps) = ((w, ps ++ (pair po <$> posts w c)), Done tt).
Proof.
  destruct c as [l loc lvl t|l]; intros (g & Hg & Ht); simpl; rewrite Hg; [|done].
  unfold async_log_. simpl. rewrite Ht. destruct (should_log g lvl); [done|]. simpl. by rewrite app_nil_r.
Qed.

Lemma sync_call_processed c w : plain w c →
  sync_call c w = foreach process_msg (posts w c) w.
Proof.
  destruct c as [l loc lvl t|l]; intros (g & Hg & Ht); simpl.
  2: { unfold process_msg. simpl. unfold mbind, M_bind, get. simpl. rewrite Hg. simpl.
       change (backend_flush_ g) with (SpdLogger.flush_ (FS := FS) g). by destruct (SpdLogger.flush_ g w) as [w' [[]| |]]. }
  unfold log_, mbind, M_bind, get. simpl. rewrite Hg. simpl. rewrite Ht. destruct (should_log g lvl); simpl; [|done].
  unfold catch_, log_it_, process_msg. simpl. unfold mbind, M_bind, get. simpl. rewrite Hg. simpl.
  set (msg := mkMsg _ _ _ _ _ _). change (backend_sink_it_ g msg) with (SpdLogger.sink_it_ format g msg).
  destruct (calm_sink_it g msg) as [_ Hno]. specialize (Hno w).
  destruct (SpdLogger.sink_it_ format g msg w) as [w' [[]|e|f]]; try done. by destruct (Hno e).
Qed.

Lemma tame_process m : tame (process_msg m).
Proof.
  unfold process_msg. destruct (msg_type m); [| |done]; (apply tame_bind;
    [apply tame_bind; [done|]; intros w; apply tame_bind; [by apply calm_deref|]; intros l; apply calm_deref|]); intros g.
  - apply calm_sink_it.
  - apply calm_flush.
Qed.

Lemma foreach_app {A} (f : A → M World unit) xs ys w :
  foreach f (xs ++ ys) w = (foreach f xs ≫= λ _, foreach f ys) w.
Proof.
  revert w. induction xs as [|x xs IH]; intros w; [done|]. simpl. unfold mbind, M_bind in *.
  destruct (f x w) as [w' [[]| |]]; [apply IH|done..].
Qed.

Lemma tame_foreach {A} (f : A → M World unit) (xs : list A) : (∀ x, tame (f x)) → tame (foreach f xs).
Proof. intros Hf. induction xs as [|x xs IH]; [done|]. apply tame_bind; [apply Hf|by intros _]. Qed.

(** Calls with their times. *)
Definition sync_at (tc : Z * log_call) : M World unit := at_time (sync_call tc.2) tc.1.
Definition async_at pool (po : async_overflow_policy) (tc : Z * log_call) : M Front unit :=
  _ ← modify (λ '(w, ps), (set_now tc.1 w, ps)); async_call pool po tc.2.
Definition posts_at w (tc : Z * log_call) : list async_msg := posts (set_now tc.1 w) tc.2.

Definition crew w := (loggers w, SpdLogger.thread w).
Lemma posts_crew w w' tc : crew w' = crew w → posts_at w' tc = posts_at w tc.
Proof. intros [= El Et]. apply posts_env. unfold env. simpl. by rewrite El, Et. Qed.
Lemma plain_crew w w' c : crew w' = crew w → plain w c → plain w' c.
Proof. intros [= El _]. unfold plain, the_logger. destruct c; by rewrite El. Qed.

Lemma async_calls_post po cs w ps : Forall (plain w) cs.*2 →
  ∃ w', foreach (async_at true po) cs (w, ps) = ((w', ps ++ (pair po <$> concat (posts_at w <$> cs))), Done tt) ∧ alike w w'.
Proof.
  revert w ps. induction cs as [|[t c] cs IH]; intros w ps Hall; simpl in *; [exists w; by rewrite app_nil_r|].
  apply Forall_cons in Hall as [Hc Hall].
  change (∃ w', (async_call true po c ≫= λ _, foreach (async_at true po) cs) (set_now t w, ps) = ((w', ps ++ (pair po <$> (posts (set_now t w) c ++ concat (posts_at w <$> cs)))), Done tt) ∧ alike w w').
  unfold mbind, M_bind. rewrite async_call_posts by (by apply (plain_crew w)).
  destruct (IH (set_now t w) (ps ++ (pair po <$> posts (set_now t w) c))) as (w' & E & Ha); [eapply Forall_impl; [exact Hall|intros c'; by apply plain_crew]|].
  exists w'. rewrite E. split; [|rewrite <- Ha; by rewrite alike_now]. rewrite fmap_app, app_assoc. done.
Qed.

Lemma sync_calls_processed cs w w' w0 : alike w w' → crew w = crew w0 → Forall (plain w0) cs.*2 →
  same (foreach sync_at cs w) (foreach process_msg (concat (posts_at w0 <$> cs)) w').
Proof.
  revert w w'. induction cs as [|[t c] cs IH]; intros w w' Hw He Hall; simpl in *; [done|].
  apply Forall_cons in Hall as [Hc Hall]. rewrite foreach_app.
  change (same ((sync_call c ≫= λ _, foreach sync_at cs) (set_now t w)) ((foreach process_msg (posts_at w0 (t, c)) ≫= λ _, foreach process_msg (concat (posts_at w0 <$> cs))) w')).
  unfold mbind, M_bind. rewrite sync_call_processed by (by apply (plain_crew w0)).
  assert (Ep : posts (set_now t w) c = posts_at w0 (t, c)) by (rewrite <- (posts_crew w0 w (t, c)) by done; done). rewrite Ep.
  destruct (blind_foreach process_msg (posts_at w0 (t, c)) blind_process (set_now t w) w') as [Ha E]; [by rewrite alike_now|].
  pose proof (tame_foreach process_msg (posts_at w0 (t, c)) tame_process (set_now t w)) as Ht.
  destruct (foreach process_msg _ (set_now t w)) as [w1 [[]| |]], (foreach process_msg _ w') as [w1' [[]| |]]; simpl in *; simplify_eq; [|done..].
  apply IH; [done| |done]. unfold env in Ht. unfold crew in *. simpl in Ht. congruence.
Qed.
End async_logger.

(** C22: asynchronous logging writes what synchronous logging writes.  Let loggers without a
    backtrace log and flush any messages with the blocking policy, at any times.  The calls leave
    the sinks alone and post messages; and when a pool with one worker, whatever the interleaving,
    was given exactly these and has been destroyed, what the worker did with what it took, at any
    times later on, is what the calls would have done at once: the same console, files and number
    of errors.  Only the time of the errors differs, and so which of them are printed. *)
Theorem async_writes_as_sync {FS} `{FileSystem FS} (format : pattern → log_msg → formatted)
    (cs : list (Z * log_call)) (w : Log FS) cap s0 s :
  Forall (plain w) cs.*2 →
  started cap 1 s0 → rtc any_step s0 s → DDone ∈ threads s → overruns (posted s) = 0%nat →
  ∃ w' ps, foreach (async_at true block) cs (w, []) = ((w', ps), Done tt) ∧ alike w w' ∧
    (given s = ps.*2 → ∀ ts, length ts = length (handled s) →
      same (foreach (λ '(t, m), at_time (process_msg format m) t) (zip ts (handled s)) w') (foreach (sync_at format) cs w)).
Proof.
  intros Hall Hs Hr Hd Ho. destruct (async_calls_post block cs w [] Hall) as (w' & E & Ha). eexists w', _. split; [exact E|]. split; [done|].
  simpl. rewrite <- list_fmap_compose. intros Hg ts Hts. rewrite list_fmap_id in Hg.
  destruct (handled_any_time format (handled s) ts w' w Hts) as [H1 E1]; [by symmetry|].
  destruct (sync_calls_processed format cs w w w) as [H2 E2]; [done..|].
  assert (Hh : concat (posts_at w <$> cs) = handled s) by (rewrite <- Hg; symmetry; by apply (handled_all_in_order cap s0)).
  rewrite Hh in H2, E2. split; [rewrite H1; by symmetry|congruence].
Qed.

(** logging after the pool is gone.  A message at or above the level is not posted and not
    kept in the backtrace; the error goes to the handler of the logger, which prints at most one a
    second, and the call returns.  A flush throws to its caller. *)
Theorem async_pool_gone_is_reported {FS} `{FileSystem FS} (l : nat) (g : async_logger) (loc : source_loc) (lvl : Z)
    (text : list byte) (w : Log FS) ps :
  should_log (base g) lvl = true →
  async_log_ false l g loc lvl (Done text) (w, ps) =
    ((err_handler_ (name_ (base g)) (str "async log: thread pool doesn't exist anymore") w, ps), Done tt) ∧
  async_flush_ false l g (w, ps) = ((w, ps), Throw (str "async flush: thread pool doesn't exist anymore")).
Proof. intros Hl. split; [|done]. unfold async_log_. simpl. by rewrite Hl. Qed.

(** ** An example: a console and a logger that writes to it *)
Definition demo_world : Log sim :=
  mkLog [Some (mkSinkObj level_trace (str "%v") (Console (ansicolor_sink_ctor false)))]
    [Some (logger_ctor (str "net") [0%nat])]
    (mkRegistry {[ str "net" := 0%nat ]} ∅ (str "%v") level_info level_off None true 0)
    [] [] 0 0 2000000000 7 (mkSim (λ _, None) [] (λ _, None) 0 []).
Definition demo_line (p : pattern) (m : log_msg) : formatted := mkText (payload m ++ [x0a]) 0 0.
Definition demo_session : list (Z * log_call) :=
  [(2000000000, LogCall 0 no_loc level_info (str "one")); (2000000001, LogCall 0 no_loc level_debug (str "two")); (2000000002, FlushCall 0)].

Definition demo_msg : async_msg := async_msg_log 0 (mkMsg (str "net") level_info 2000000000 7 no_loc (str "one")).
Definition demo_run : list command :=
  [DoCall 0 demo_msg block; Do 0; Do 0; Do 0; Do 2; Do 2; Do 2; DoCall 0 (async_msg_flush 0) block; Do 0; Do 0; Do 0;
   Do 2; DoReset 0; Do 0; Do 2; Do 0; Do 2; Do 0; Do 0; Do 2; Do 2; Do 2; DoJoined 0].
Definition demo_done : thread_pool := Eval vm_compute in default small_pool (play demo_run small_pool).

Lemma async_writes_as_sync_witness :
  foreach (sync_at demo_line) demo_session demo_world = (set_now 2000000002 (set_stdout (str "one" ++ [x0a]) demo_world), Done tt) ∧
  ∃ w' ps, foreach (async_at true block) demo_session (demo_world, []) = ((w', ps), Done tt) ∧ alike demo_world w' ∧
    (given demo_done = ps.*2 → ∀ ts, length ts = length (handled demo_done) →
     same (foreach (λ '(t, m), at_time (process_msg demo_line m) t) (zip ts (handled demo_done)) w') (foreach (sync_at demo_line) demo_session demo_world)).
Proof.
  split; [reflexivity|]. apply (async_writes_as_sync demo_line demo_session demo_world 1 small_pool demo_done).
  - repeat constructor; eexists; split; reflexivity.
  - exact small_pool_started.
  - apply (play_reaches demo_run). vm_compute. reflexivity.
  - apply list_elem_of_lookup. exists 0%nat. reflexivity.
  - reflexivity.
Defined.

(** The calls of the example post what the pool of the example was given. *)
Example demo_given : ((foreach (async_at true block) demo_session (demo_world, [])).1.2).*2 = given demo_done.
Proof. by vm_compute. Qed.

Lemma async_pool_gone_is_reported_witness :
  should_log (base (async_logger_ctor (str "net") [0%nat] block)) level_warn = true ∧
  async_log_ false 0 (async_logger_ctor (str "net") [0%nat] block) no_loc level_warn (Done (str "late")) (demo_world, []) =
    ((err_handler_ (str "net") (str "async log: thread pool doesn't exist anymore") demo_world, []), Done tt) ∧
  async_flush_ false 0 (async_logger_ctor (str "net") [0%nat] block) (demo_world, []) =
    ((demo_world, []), Throw (str "async flush: thread pool doesn't exist anymore")).
Proof.
  split; [reflexivity|].
  exact (async_pool_gone_is_reported 0 (async_logger_ctor (str "net") [0%nat] block) no_loc level_warn (str "late")
    demo_world [] eq_refl).
Defined.
