(* ===== verification/Exception.v ===== *)
(** * Exception: src/ham/base/Exception.h and src/ham/base/Exception.cc

    The exception with the call stack of the place that throws it.  The texts of the stack
    are glibc's [backtrace_symbols] ("object(name+0x1f) [0x7f...]"), which [fillStack] cuts at
    its punctuation by writing terminators into them, and [abi::__cxa_demangle] turns a
    mangled name into a readable one; both are parameters.  A C string is the bytes before
    its terminator. *)
From S2P Require Import Prelude.

(** The C string that starts at the beginning of some storage. *)
Definition c_str (s : list byte) : list byte := take (std_find x00 s) s.

(** The three pointers into the text of a frame, null at first. *)
Record marks := mkMarks {
  begin_name : option nat;
  begin_offset : option nat;
  end_offset : option nat
}.

(** The inner loop of [fillStack], over what is left of the text from [pos]. *)
Fixpoint scan (pos : nat) (s : list byte) (m : marks) : marks :=
  match s with
  | [] => m
  | c :: s' =>
      if bool_decide (c = x28) then scan (S pos) s' (mkMarks (Some pos) (begin_offset m) (end_offset m))
      else if bool_decide (c = x2b) then scan (S pos) s' (mkMarks (begin_name m) (Some pos) (end_offset m))
      else if bool_decide (c = x29) && bool_decide (is_Some (begin_offset m))
      then mkMarks (begin_name m) (begin_offset m) (Some pos)
      else scan (S pos) s' m
  end.

(** [*p = '\0'], through one of the pointers. *)
Definition terminate (p : option nat) (s : list byte) : outcome (list byte) :=
  match p with Some i => Ok (<[i := x00]> s) | None => Err NullPointer end.
Definition pointee (p : option nat) : outcome nat :=
  match p with Some i => Ok i | None => Err NullPointer end.

Section stack.
Context (demangle : list byte → option (list byte)).   (* Some: the status is 0 *)

(** What one frame adds to [demangled_stack]. *)
Definition frame_line (funcName : list byte) : outcome (list byte) :=
  let m := scan 0 (c_str funcName) (mkMarks None None None) in
  s ← terminate (begin_name m) funcName;
  s ← terminate (begin_offset m) s;
  s ← terminate (end_offset m) s;
  i ← pointee (begin_name m);
  Ok (match demangle (c_str (drop (S i) s)) with
      | Some res => res ++ [x0a]
      | None => c_str s
      end).

Fixpoint append_frames (frames : list (list byte)) (demangled_stack : list byte) : outcome (list byte) :=
  match frames with
  | [] => Ok demangled_stack
  | f :: frames' => l ← frame_line f; append_frames frames' (demangled_stack ++ l)
  end.

Definition max_frames : nat := 200.

(** [funcNames] is null when backtrace_symbols has no memory; the frame of fillStack itself is
    skipped. *)
Definition fillStack (funcNames : option (list (list byte))) : outcome (list byte) :=
  match funcNames with
  | Some l => append_frames (drop 1 (take max_frames l)) []
  | None => Ok []
  end.

Record Exception := mkException { msg_ : list byte; stack_ : list byte }.
Definition Exception_ctor (funcNames : option (list (list byte))) (msg : list byte) : outcome Exception :=
  stack ← fillStack funcNames; Ok (mkException msg stack).
Definition what (e : Exception) : list byte := c_str (msg_ e).
Definition stackTrace (e : Exception) : list byte := c_str (stack_ e).
End stack.

(** ** Scanning *)
Section scanning.
Implicit Types (s l : list byte) (m : marks).

(** Bytes that move no pointer, with [begin_offset] set or not. *)
Definition plain_text s : Prop := (x28 ∉ s) ∧ (x2b ∉ s) ∧ (x29 ∉ s).

#[export] Instance plain_text_dec s : Decision (plain_text s).
Proof. unfold plain_text. apply _. Defined.

Lemma scan_plain pos s l m : plain_text s → scan pos (s ++ l) m = scan (pos + length s) l m.
Proof.
  revert pos. induction s as [|c s IH]; intros pos (H1 & H2 & H3); simpl; [by rewrite Nat.add_0_r|].
  apply not_elem_of_cons in H1 as [N1 H1], H2 as [N2 H2], H3 as [N3 H3].
  rewrite (bool_decide_eq_false_2 (c = x28)), (bool_decide_eq_false_2 (c = x2b)),
    (bool_decide_eq_false_2 (c = x29)) by congruence.
  simpl. rewrite IH by done. f_equal. lia.
Qed.

(** Before the first closing parenthesis the last '(' and the last '+' win, wherever they are;
    without '+' nothing closes. *)
Lemma scan_prefix pos s l m : (x29 ∉ s) ∨ (x2b ∉ s) ∧ begin_offset m = None →
  ∃ m', scan pos (s ++ l) m = scan (pos + length s) l m' ∧ end_offset m' = end_offset m ∧
    ((x2b ∉ s) → begin_offset m' = begin_offset m) ∧ ((x28 ∉ s) → begin_name m' = begin_name m).
Proof.
  revert pos m. induction s as [|c s IH]; intros pos m Hs; simpl; [exists m; by rewrite Nat.add_0_r|].
  rewrite <- Nat.add_succ_comm.
  case_bool_decide as E1; [subst c|case_bool_decide as E2; [subst c|case_bool_decide as E3; [subst c|]]].
  - edestruct (IH (S pos)) as (m' & -> & He & Ho & Hn); [|exists m'; split_and!; [done|exact He| |]].
    + destruct Hs as [?%not_elem_of_cons|[?%not_elem_of_cons ?]]; [left|right]; tauto.
    + intros [_ ?]%not_elem_of_cons. by apply Ho.
    + intros [? _]%not_elem_of_cons. done.
  - edestruct (IH (S pos)) as (m' & -> & He & Ho & Hn); [|exists m'; split_and!; [done|exact He| |]].
    + destruct Hs as [?%not_elem_of_cons|[[? _]%not_elem_of_cons ?]]; [left; tauto|done].
    + intros [? _]%not_elem_of_cons. done.
    + intros [_ ?]%not_elem_of_cons. by apply Hn.
  - destruct Hs as [[? _]%not_elem_of_cons|[[_ Hs]%not_elem_of_cons Hm]]; [done|].
    rewrite Hm. simpl. destruct (IH (S pos) m) as (m' & -> & He & Ho & Hn); [by right|].
    exists m'. split_and!; [done|done|intros _; by rewrite Ho|]. intros [_ ?]%not_elem_of_cons. by apply Hn.
  - destruct (IH (S pos) m) as (m' & -> & He & Ho & Hn).
    + destruct Hs as [?%not_elem_of_cons|[?%not_elem_of_cons ?]]; [left|right]; tauto.
    + exists m'. split_and!; [done|done| |]; intros [_ ?]%not_elem_of_cons; auto.
Qed.
End scanning.

(** ** One frame *)
Lemma c_str_nul s l : x00 ∉ s → c_str (s ++ x00 :: l) = s.
Proof. intros Hs. unfold c_str. rewrite std_find_app by done. by apply take_app_length'. Qed.

Lemma c_str_all s : x00 ∉ s → c_str s = s.
Proof. intros Hs. unfold c_str. rewrite std_find_notin by done. by apply take_ge. Qed.

(** A terminator put at the end of a known prefix. *)
Lemma insert_at (pre : list byte) (c : byte) (post l : list byte) (n : nat) :
  l = pre ++ c :: post → n = length pre → <[n := x00]> l = pre ++ x00 :: post.
Proof. intros -> ->. by rewrite insert_app_r_alt, Nat.sub_diag. Qed.

Section frames.
Context (demangle : list byte → option (list byte)).

(** A frame as glibc prints it when it has a symbol or knows where the object is loaded. *)
Record frame := mkFrame { object : list byte; name : list byte; offset : list byte; address : list byte }.
Definition frame_text (f : frame) : list byte :=
  object f ++ [x28] ++ name f ++ [x2b] ++ offset f ++ [x29] ++ address f.

Record frame_ok (f : frame) : Prop := {
  ok_object : (x29 ∉ object f) ∨ (x2b ∉ object f);
  ok_name : plain_text (name f);
  ok_offset : plain_text (offset f);
  ok_nul : x00 ∉ frame_text f
}.

#[export] Instance frame_ok_dec f : Decision (frame_ok f).
Proof.
  refine (cast_if (decide (((x29 ∉ object f) ∨ (x2b ∉ object f)) ∧ plain_text (name f) ∧
    plain_text (offset f) ∧ (x00 ∉ frame_text f)))).
  - constructor; tauto.
  - intros []; tauto.
Defined.

(** What the trace shows of it: the readable name on a line of its own, or else only the
    object. *)
Definition frame_shown (f : frame) : list byte :=
  match demangle (name f) with Some res => res ++ [x0a] | None => object f end.

Lemma scan_frame f : frame_ok f →
  scan 0 (frame_text f) (mkMarks None None None) =
  mkMarks (Some (length (object f))) (Some (length (object f) + S (length (name f)))%nat)
    (Some (length (object f) + S (length (name f)) + S (length (offset f)))%nat).
Proof.
  intros [Hobj Hname Hoff _]. unfold frame_text.
  edestruct (scan_prefix 0 (object f)) as (m & -> & _ & _); [tauto|]. simpl.
  rewrite scan_plain by done. simpl. rewrite scan_plain by done. simpl.
  do 2 f_equal; f_equal; lia.
Qed.

Lemma frame_line_shows f : frame_ok f → frame_line demangle (frame_text f) = Ok (frame_shown f).
Proof.
  intros Hok. pose proof (ok_nul f Hok) as Hnul. unfold frame_line.
  rewrite c_str_all, scan_frame by done. simpl. unfold frame_text in *. f_equal.
  rewrite !not_elem_of_app in Hnul. destruct Hnul as (Hobj & _ & Hname & _).
  rewrite (insert_at (object f) x28 (name f ++ x2b :: offset f ++ x29 :: address f) _ (length (object f))) by done.
  rewrite (insert_at (object f ++ x00 :: name f) x2b (offset f ++ x29 :: address f) _ (length (object f) + S (length (name f))));
    [|by rewrite <- app_assoc|rewrite length_app; simpl; lia].
  rewrite (insert_at (object f ++ x00 :: name f ++ x00 :: offset f) x29 (address f) _ (length (object f) + S (length (name f)) + S (length (offset f))));
    [|by rewrite <- !app_assoc; simpl; rewrite <- !app_assoc|rewrite !length_app; simpl; rewrite length_app; simpl; lia].
  rewrite <- !app_assoc. simpl. rewrite <- !app_assoc. simpl.
  rewrite <- Nat.add_1_r, <- drop_drop, drop_app_length. simpl. rewrite drop_0.
  by rewrite !c_str_nul.
Qed.

(** A text without the parenthesis or without the plus sign is not handled. *)
Lemma frame_line_faults s : (x28 ∉ c_str s) ∨ (x2b ∉ c_str s) → frame_line demangle s ↯ NullPointer.
Proof.
  intros Hs. unfold frame_line. set (m0 := mkMarks None None None).
  assert (begin_name (scan 0 (c_str s) m0) = None ∨ begin_offset (scan 0 (c_str s) m0) = None) as Hnull.
  { revert Hs. generalize (c_str s) as l, 0%nat as pos. intros l pos Hs.
    assert (∀ m, (x28 ∉ l) → begin_name m = None → begin_name (scan pos l m) = None) as Hn.
    { clear. revert pos. induction l as [|c l IH]; intros pos m; simpl; [done|].
      intros [Hc Hl]%not_elem_of_cons Hm. rewrite bool_decide_eq_false_2 by congruence.
      repeat case_match; [by apply IH|done|by apply IH]. }
    assert (∀ m, (x2b ∉ l) → begin_offset m = None → begin_offset (scan pos l m) = None) as Ho.
    { clear. revert pos. induction l as [|c l IH]; intros pos m; simpl; [done|].
      intros [Hc Hl]%not_elem_of_cons Hm. rewrite (bool_decide_eq_false_2 (c = x2b)) by congruence.
      repeat case_match; [by apply IH|done|by apply IH]. }
    destruct Hs as [Hs|Hs]; [left; by apply Hn|right; by apply Ho]. }
  destruct (begin_name _); [|done]. destruct Hnull as [|Hnull]; [done|]. simpl. by rewrite Hnull.
Qed.

Lemma append_frames_shows fs acc : Forall frame_ok fs →
  append_frames demangle (frame_text <$> fs) acc = Ok (acc ++ concat (frame_shown <$> fs)).
Proof.
  intros Hfs. revert acc. induction Hfs as [|f fs Hf _ IH]; intros acc; simpl; [by rewrite app_nil_r|].
  rewrite frame_line_shows by done. simpl. by rewrite IH, <- app_assoc.
Qed.
End frames.

(** ** Properties *)

(** The stack trace of an exception lists the frames below [fillStack] in order (the first
    200 at most): each readable name on its own line; a frame whose name cannot be made
    readable is shown by its object file alone, with no line break. *)
Theorem fillStack_lists_frames (demangle : list byte → option (list byte)) (own : list byte) (fs : list frame) :
  Forall frame_ok fs →
  fillStack demangle (Some (own :: (frame_text <$> fs))) =
  Ok (concat (frame_shown demangle <$> take 199 fs)).
Proof.
  intros Hfs. unfold fillStack, max_frames. change (take 200 (own :: ?l)) with (own :: take 199 l).
  simpl drop. rewrite drop_0. rewrite <- fmap_take.
  rewrite append_frames_shows; [done|]. by apply Forall_take.
Qed.

Definition witness_demangle (s : list byte) : option (list byte) :=
  if bool_decide (s = str "_Z1fv") then Some (str "f()") else None.

Lemma fillStack_lists_frames_witness :
  fillStack witness_demangle (Some [str "a.out(_ZNK3ham9Exception9fillStackEv+0x3c) [0x1]";
    str "a.out(_Z1fv+0x1a) [0x2]"; str "/lib/libc.so.6(+0x29d90) [0x3]"]) =
  Ok (str "f()" ++ [x0a] ++ str "/lib/libc.so.6").
Proof.
  refine (fillStack_lists_frames witness_demangle _
    [mkFrame (str "a.out") (str "_Z1fv") (str "0x1a") (str " [0x2]");
     mkFrame (str "/lib/libc.so.6") [] (str "0x29d90") (str " [0x3]")] _).
  refine (bool_decide_unpack _ _); vm_compute; exact I.
Defined.

(** A frame of a static function of an executable at a fixed address ("a.out() [0x401136]"),
    of an unknown object ("[0x7f3a]"), or before its symbol ("lib.so(-0x10) [0x1]") has no '('
    or no '+': constructing the exception writes through a null pointer. *)
Theorem fillStack_crashes (demangle : list byte → option (list byte)) (own s msg : list byte) (l : list frame) (after : list (list byte)) :
  Forall frame_ok l → (length l < 199)%nat → (x28 ∉ c_str s) ∨ (x2b ∉ c_str s) →
  Exception_ctor demangle (Some (own :: (frame_text <$> l) ++ s :: after)) msg ↯ NullPointer.
Proof.
  intros Hl Hlen Hs. unfold Exception_ctor, fillStack, max_frames.
  change (take 200 (own :: ?l)) with (own :: take 199 l). simpl drop. rewrite drop_0.
  rewrite take_app_ge by (rewrite length_fmap; lia).
  rewrite length_fmap. replace (199 - length l)%nat with (S (198 - length l)) by lia. simpl take.
  generalize (take (198 - length l) after) as r, (@nil byte) as acc. clear Hlen. intros r.
  induction Hl as [|f fs Hf _ IH]; intros acc; simpl.
  - by rewrite frame_line_faults.
  - rewrite frame_line_shows by done. simpl. apply IH.
Qed.

Lemma fillStack_crashes_witness :
  Exception_ctor witness_demangle (Some [str "a.out() [0x401100]"; str "a.out(_Z1fv+0x1a) [0x2]"; str "a.out() [0x401136]"])
    (str "error") ↯ NullPointer.
Proof.
  refine (fillStack_crashes witness_demangle (str "a.out() [0x401100]") (str "a.out() [0x401136]") (str "error")
    [mkFrame (str "a.out") (str "_Z1fv") (str "0x1a") (str " [0x2]")] [] _ _ _).
  - refine (bool_decide_unpack _ _); vm_compute; exact I.
  - simpl. lia.
  - right. refine (bool_decide_unpack _ _); vm_compute; exact I.
Defined.
