(* ===== verification/LoopPool.v ===== *)
(** * LoopPool: src/ham/net/EventLoopThread.h/.cc and EventLoopThreadPool.h/.cc

    A thread that owns an event loop, as a transition system of its owner and the thread
    itself; and the pool that hands out its loops in turn. *)
From S2P Require Import Prelude Channel.

(** ** EventLoopThread *)

(** The owner, in another thread: it calls [startLoop] and later the destructor. *)
Inductive owner_pc :=
| OIdle
| OCheck          (* in startLoop, at while(!loop_), with the mutex *)
| OWait           (* in cond_.wait *)
| OReturning      (* at return loop_, without the mutex *)
| OReady          (* startLoop has returned *)
| OQuitting       (* in the destructor, loop_ was not null *)
| OSetQuit (l : addr)    (* in loop_->quit(): at quit_ = true *)
| OInLoop (l : addr)     (* at isInLoopThread() *)
| OWakeup (l : addr)     (* at wakeup() *)
| OJoining
| ODestroyed
| OTerminated     (* std::terminate: the thread member was destroyed while joinable *)
| OCrashed.       (* quit through a null pointer *)

#[export] Instance owner_pc_eq : EqDecision owner_pc.
Proof. solve_decision. Defined.

(** [threadFunc]. *)
Inductive thread_pc :=
| TNone
| TStarting       (* before loop_ is published *)
| TLooping        (* in loop(), at while(!quit_) *)
| TBlocked        (* in loop(), in epoll_wait *)
| TReturned       (* loop() has returned, loop_ still set *)
| TCleared        (* loop_ is null again *)
| TDone.          (* the EventLoop object is gone, the thread has ended *)

Record EventLoopThread := mkElt {
  loop_ : option addr;
  exiting_ : bool;
  quit_ : bool;           (* EventLoop::quit_ of the loop *)
  wakeups : nat;          (* the counter of its wakeup descriptor *)
  owner : owner_pc;
  thread : thread_pc;
  returned : option addr; (* what startLoop has returned *)
  dangling : bool         (* a loop that no longer exists was used *)
}.

Definition EventLoopThread_ctor : EventLoopThread := mkElt None false false 0 OIdle TNone None false.

Definition set_owner (p : owner_pc) (s : EventLoopThread) : EventLoopThread :=
  mkElt (loop_ s) (exiting_ s) (quit_ s) (wakeups s) p (thread s) (returned s) (dangling s).
Definition set_thread (p : thread_pc) (s : EventLoopThread) : EventLoopThread :=
  mkElt (loop_ s) (exiting_ s) (quit_ s) (wakeups s) (owner s) p (returned s) (dangling s).
Definition set_loop (l : option addr) (s : EventLoopThread) : EventLoopThread :=
  mkElt l (exiting_ s) (quit_ s) (wakeups s) (owner s) (thread s) (returned s) (dangling s).
Definition set_exiting (s : EventLoopThread) : EventLoopThread :=
  mkElt (loop_ s) true (quit_ s) (wakeups s) (owner s) (thread s) (returned s) (dangling s).
Definition set_returned (s : EventLoopThread) : EventLoopThread :=
  mkElt (loop_ s) (exiting_ s) (quit_ s) (wakeups s) (owner s) (thread s) (loop_ s) (dangling s).
Definition set_quit (s : EventLoopThread) : EventLoopThread :=
  mkElt (loop_ s) (exiting_ s) true (wakeups s) (owner s) (thread s) (returned s) (dangling s).
Definition set_wakeups (n : nat) (s : EventLoopThread) : EventLoopThread :=
  mkElt (loop_ s) (exiting_ s) (quit_ s) n (owner s) (thread s) (returned s) (dangling s).
Definition set_dangling (s : EventLoopThread) : EventLoopThread :=
  mkElt (loop_ s) (exiting_ s) (quit_ s) (wakeups s) (owner s) (thread s) (returned s) true.

(** The loop object lives on the thread's stack. *)
Definition loop_alive (s : EventLoopThread) : bool :=
  match thread s with TNone | TDone => false | _ => true end.

(** An access to the loop through a pointer that may be stale. *)
Definition use_loop (f : EventLoopThread → EventLoopThread) (s : EventLoopThread) : EventLoopThread :=
  if loop_alive s then f s else set_dangling s.

(** [cond_.notify_one()]. *)
Definition notify_owner (s : EventLoopThread) : EventLoopThread :=
  match owner s with OWait => set_owner OCheck s | _ => s end.

(** [threadFunc] with the loop at [l].  What wakes [epoll_wait] is read again before the next test. *)
Inductive thread_step (l : addr) (s : EventLoopThread) : EventLoopThread → Prop :=
| t_publish : thread s = TStarting → thread_step l s (notify_owner (set_thread TLooping (set_loop (Some l) s)))
| t_check : thread s = TLooping → thread_step l s (set_thread (if quit_ s then TReturned else TBlocked) s)
| t_woken : thread s = TBlocked → (0 < wakeups s)%nat → thread_step l s (set_thread TLooping (set_wakeups 0 s))
| t_clear : thread s = TReturned → thread_step l s (set_thread TCleared (set_loop None s))
| t_end : thread s = TCleared → thread_step l s (set_thread TDone s).

(** The destructor reads [loop_] twice, and [quit] uses the loop three times. *)
Inductive owner_step (s : EventLoopThread) : EventLoopThread → Prop :=
| o_start : owner s = OIdle → owner_step s (set_owner OCheck (set_thread TStarting s))
| o_check : owner s = OCheck →
    owner_step s (set_owner (match loop_ s with Some _ => OReturning | None => OWait end) s)
| o_return : owner s = OReturning → owner_step s (set_owner OReady (set_returned s))
| o_unused : owner s = OIdle → owner_step s (set_owner ODestroyed (set_exiting s))
| o_dtor : owner s = OReady →
    owner_step s (set_owner (match loop_ s with Some _ => OQuitting | None => OTerminated end) (set_exiting s))
| o_load : owner s = OQuitting →
    owner_step s (set_owner (match loop_ s with Some l => OSetQuit l | None => OCrashed end) s)
| o_quit l : owner s = OSetQuit l → owner_step s (set_owner (OInLoop l) (use_loop set_quit s))
| o_in_loop l : owner s = OInLoop l → owner_step s (set_owner (OWakeup l) (use_loop (λ s, s) s))
| o_wakeup l : owner s = OWakeup l → owner_step s (set_owner OJoining (use_loop (set_wakeups (S (wakeups s))) s))
| o_join : owner s = OJoining → thread s = TDone → owner_step s (set_owner ODestroyed s).

(** From outside: other events and the time limit wake the loop, the owner may wake without a
    notification; and when [user] says so, a callback in the loop's own thread tells it to quit. *)
Inductive outside_step (user : bool) (s : EventLoopThread) : EventLoopThread → Prop :=
| x_event : thread s = TBlocked → outside_step user s (set_thread TLooping s)
| x_spurious : owner s = OWait → outside_step user s (set_owner OCheck s)
| x_user_quit : user = true → thread s = TStarting ∨ thread s = TLooping → outside_step user s (set_quit s).

Definition own_step (l : addr) (s s' : EventLoopThread) : Prop := thread_step l s s' ∨ owner_step s s'.
Definition elt_step (user : bool) (l : addr) (s s' : EventLoopThread) : Prop := own_step l s s' ∨ outside_step user s s'.

(** When only the destructor ends the loop. *)
Definition phase_ok (l : addr) (s : EventLoopThread) : Prop :=
  match owner s, thread s with
  | OIdle, TNone => loop_ s = None ∧ quit_ s = false
  | (OCheck | OWait), TStarting => loop_ s = None ∧ quit_ s = false
  | (OCheck | OReturning | OReady | OQuitting), (TLooping | TBlocked) => loop_ s = Some l ∧ quit_ s = false
  | OSetQuit l', (TLooping | TBlocked) => l' = l ∧ loop_ s = Some l ∧ quit_ s = false
  | (OInLoop l' | OWakeup l'), (TLooping | TBlocked | TReturned) => l' = l ∧ loop_ s = Some l ∧ quit_ s = true
  | (OInLoop l' | OWakeup l'), (TCleared | TDone) => l' = l ∧ loop_ s = None ∧ quit_ s = true
  | OJoining, (TLooping | TReturned) => loop_ s = Some l ∧ quit_ s = true
  | OJoining, TBlocked => loop_ s = Some l ∧ quit_ s = true ∧ (0 < wakeups s)%nat
  | OJoining, (TCleared | TDone) | ODestroyed, TDone => loop_ s = None ∧ quit_ s = true
  | ODestroyed, TNone => loop_ s = None
  | _, _ => False
  end.
Definition given_out (s : EventLoopThread) : bool :=
  match owner s with OIdle | OCheck | OWait | OReturning => false | _ => true end.
Record elt_inv (l : addr) (s : EventLoopThread) : Prop := {
  ei_phase : phase_ok l s;
  ei_returned : given_out s = true → returned s = Some l ∨ thread s = TNone;
  ei_dangling : dangling s = true → quit_ s = true ∧ thread s = TDone
}.

Lemma elt_inv_step l s s' : elt_inv l s → elt_step false l s s' → elt_inv l s'.
Proof.
  intros [Hp Hr Hd] Hstep. destruct s as [lp ex qt wk ow th rt dg]. unfold phase_ok, given_out in *. simpl in *.
  destruct Hstep as [[[Ht|Ht|Ht Hw|Ht|Ht]|[Ho|Ho|Ho|Ho|Ho|Ho|l' Ho|l' Ho|l' Ho|Ho Ht]]|[Ht|Ho|? _]]; simpl in *; subst; try done.
  all: try (destruct ow; try done). all: try (destruct th; try done).
  all: repeat match goal with H : _ ∧ _ |- _ => destruct H end; subst; simpl in *.
  all: split; unfold phase_ok, given_out, use_loop, notify_owner; simpl; try done; try (intuition (congruence || lia)).
Qed.

Lemma elt_reachable l s : rtc (elt_step false l) EventLoopThread_ctor s → elt_inv l s.
Proof.
  apply (rtc_ind_r (elt_inv l) (R := elt_step false l)); [by split|].
  intros y z _ Hstep Hinv. by eapply elt_inv_step.
Qed.

(** Nobody waits for a notification that has been given. *)
Definition owner_left (p : owner_pc) : nat :=
  match p with
  | OIdle => 40 | OCheck => 20 | OWait => 19 | OReturning => 18 | OReady => 17 | OQuitting => 16
  | OSetQuit _ => 15 | OInLoop _ => 14 | OWakeup _ => 13 | OJoining => 5 | ODestroyed | OTerminated | OCrashed => 0
  end.
Definition thread_left (p : thread_pc) : nat :=
  match p with TNone => 0 | TStarting => 8 | TLooping => 5 | TBlocked => 4 | TReturned => 3 | TCleared => 2 | TDone => 1 end.
Definition elt_left (s : EventLoopThread) : nat := owner_left (owner s) + thread_left (thread s) + 2 * wakeups s.

Lemma elt_step_left l s s' : own_step l s s' → (elt_left s' < elt_left s)%nat.
Proof.
  destruct s as [lp ex qt wk ow th rt dg]. unfold elt_left, own_step.
  intros [[Ht|Ht|Ht Hw|Ht|Ht]|[Ho|Ho|Ho|Ho|Ho|Ho|l' Ho|l' Ho|l' Ho|Ho Ht]]; simpl in *; subst; simpl; try lia.
  - unfold notify_owner. simpl. destruct ow; simpl; lia.
  - destruct qt; simpl; lia.
  - destruct lp; simpl; lia.
  - destruct lp; simpl; lia.
  - destruct lp; simpl; lia.
  - unfold use_loop. simpl. by destruct (loop_alive _); simpl; lia.
  - unfold use_loop. simpl. by destruct (loop_alive _); simpl; lia.
  - unfold use_loop. simpl. destruct (loop_alive _); simpl; lia.
Qed.

Lemma elt_steps_end l s : sn (own_step l) s.
Proof.
  remember (elt_left s) as n eqn:En. revert s En. induction (lt_wf n) as [n _ IH]. intros s ->. constructor. intros s' Hstep.
  eapply IH; [by eapply elt_step_left|done].
Qed.

Lemma elt_goes_on l s : elt_inv l s → owner s ≠ ODestroyed → red (own_step l) s.
Proof.
  intros [Hp _ _] Hne. unfold phase_ok in Hp.
  destruct (owner s) eqn:Ho; try done; try (by eexists; right; econstructor); destruct (thread s) eqn:Ht; try done;
    try (by eexists; left; constructor); try (by eexists; right; constructor).
  - destruct Hp as (_ & _ & Hw). eexists. left. by apply t_woken.
Qed.

(** ** EventLoopThreadPool *)
Record EventLoopThreadPool := mkPool {
  baseLoop_ : addr;
  started_ : bool;
  numOfThreads_ : Z;
  nextLoopIdx_ : Z;
  loops_ : list addr
}.

Definition EventLoopThreadPool_ctor (baseLoop : addr) : EventLoopThreadPool := mkPool baseLoop false 0 0 [].
Definition setNumOfThreads (n : Z) (p : EventLoopThreadPool) : EventLoopThreadPool :=
  mkPool (baseLoop_ p) (started_ p) n (nextLoopIdx_ p) (loops_ p).

(** [baseLoop_->assertInLoopThread()]: is the calling thread the base loop's? *)
Definition assertInBase (inBase : bool) : outcome unit := if inBase then Ok tt else Err Aborted.

(** [new_loop i] is the loop that the i-th thread's [startLoop] returns; the result lists the
    loops the callback was called on. *)
Definition start (inBase : bool) (new_loop : nat → addr) (cb : bool) (p : EventLoopThreadPool) :
    outcome (EventLoopThreadPool * list addr) :=
  _ ← assert_ (negb (started_ p));
  _ ← assertInBase inBase;
  let ls := map new_loop (seq 0 (Z.to_nat (numOfThreads_ p))) in
  let p' := mkPool (baseLoop_ p) true (numOfThreads_ p) (nextLoopIdx_ p) (loops_ p ++ ls) in
  Ok (p', if cb then (if numOfThreads_ p =? 0 then [baseLoop_ p] else ls) else []).

Definition getNextLoop (inBase : bool) (p : EventLoopThreadPool) : outcome (addr * EventLoopThreadPool) :=
  _ ← assertInBase inBase;
  match loops_ p with
  | [] => Ok (baseLoop_ p, p)
  | _ =>
      nextLoop ← read_at (nextLoopIdx_ p) (loops_ p);
      let i := nextLoopIdx_ p + 1 in
      let i := if zlen (loops_ p) <=? u64 i then 0 else i in
      Ok (nextLoop, mkPool (baseLoop_ p) (started_ p) (numOfThreads_ p) i (loops_ p))
  end.

Fixpoint next_loops (inBase : bool) (n : nat) (p : EventLoopThreadPool) : outcome (list addr) :=
  match n with
  | O => Ok []
  | S n => '(l, p) ← getNextLoop inBase p; ls ← next_loops inBase n p; Ok (l :: ls)
  end.

Lemma next_loops_run n p (i : nat) :
  loops_ p ≠ [] → zlen (loops_ p) < 2 ^ 31 → (i < length (loops_ p))%nat →
  nextLoopIdx_ p = Z.of_nat i →
  next_loops true n p =
    Ok (map (λ k, nth ((i + k) mod length (loops_ p)) (loops_ p) 0) (seq 0 n)).
Proof.
  intros Hne Hlen. revert p i Hne Hlen. induction n as [|n IH]; intros p i Hne Hlen Hi Hidx; [done|].
  simpl next_loops. unfold getNextLoop at 1, assertInBase. ok_simpl.
  destruct (loops_ p) as [|l0 ls0] eqn:El; [done|]. rewrite <- El in *.
  assert (Hread : read_at (nextLoopIdx_ p) (loops_ p) = Ok (nth i (loops_ p) 0)).
  { unfold read_at. rewrite Hidx. rewrite (proj2 (Z.leb_le 0 (Z.of_nat i))) by lia. rewrite Nat2Z.id.
    destruct (loops_ p !! i) as [x|] eqn:E; [|apply lookup_ge_None in E; lia].
    by rewrite (nth_lookup_Some _ _ _ _ E). }
  rewrite Hread. ok_simpl.
  set (j := if zlen (loops_ p) <=? u64 (nextLoopIdx_ p + 1) then 0 else nextLoopIdx_ p + 1).
  assert (Hj : j = Z.of_nat ((i + 1) mod length (loops_ p))).
  { unfold j. rewrite Hidx. unfold zlen in *. rewrite u64_small by lia.
    destruct (Z.leb_spec (Z.of_nat (length (loops_ p))) (Z.of_nat i + 1)).
    - replace (i + 1)%nat with (length (loops_ p)) by lia. by rewrite Nat.Div0.mod_same.
    - rewrite Nat.mod_small by lia. lia. }
  assert (Hmod : ((i + 1) mod length (loops_ p) < length (loops_ p))%nat) by (apply Nat.mod_upper_bound; lia).
  pose proof (IH (mkPool (baseLoop_ p) (started_ p) (numOfThreads_ p) j (loops_ p))
    ((i + 1) mod length (loops_ p))%nat Hne Hlen Hmod Hj) as Hrest.
  cbn [baseLoop_ loops_] in Hrest. rewrite Hrest.
  cbn [mbind outcome_bind loops_]. f_equal. simpl map. f_equal.
  - rewrite Nat.add_0_r. by rewrite Nat.mod_small.
  - rewrite <- seq_shift, map_map. apply map_ext. intros k. f_equal.
    rewrite Nat.Div0.add_mod_idemp_l. f_equal. lia.
Qed.

Lemma next_loops_base base n p b :
  loops_ p = [] → baseLoop_ p = base → next_loops true n p = Ok (map (λ _, base) (seq b n)).
Proof.
  intros Hl Hb. revert b. induction n as [|n IH]; intros b; [done|]. simpl. unfold getNextLoop at 1, assertInBase.
  ok_simpl. rewrite Hb, Hl. ok_simpl. by rewrite (IH (S b)).
Qed.

(** ** Properties *)

(** C32: a loop thread starts and stops.  When only the destructor ends the loop, then in every
    interleaving of the owner and the thread, with events, time limits and spurious wakeups at any
    time: [startLoop] returns the thread's loop, which is live then; the owner is neither
    terminated nor led to a null pointer; the loop does not end before it is told to quit; and a loop is used after its
    end by nothing but the rest of that very [quit], after it has set [quit_].  The steps of the two
    are finitely many, and they come to rest only when the destructor has returned. *)
Theorem loop_thread_clean (l : addr) (s : EventLoopThread) :
  rtc (elt_step false l) EventLoopThread_ctor s →
  (owner s = OReady → returned s = Some l ∧ loop_ s = Some l ∧ loop_alive s = true) ∧
  owner s ≠ OTerminated ∧ owner s ≠ OCrashed ∧
  (thread s = TReturned ∨ thread s = TCleared ∨ thread s = TDone → quit_ s = true) ∧
  (dangling s = true → quit_ s = true ∧ thread s = TDone) ∧
  sn (own_step l) s ∧ (owner s = ODestroyed ∨ red (own_step l) s).
Proof.
  intros Hinv%elt_reachable. pose proof Hinv as [Hp Hr Hd]. unfold phase_ok, given_out in *.
  split_and!; [| | | |done|apply elt_steps_end|].
  - intros Ho. rewrite Ho in *. unfold loop_alive. destruct (thread s); intuition congruence.
  - intros Ho. by rewrite Ho in Hp.
  - intros Ho. by rewrite Ho in Hp.
  - intros [Ht|[Ht|Ht]]; rewrite Ht in Hp; destruct (owner s); intuition congruence.
  - destruct (decide (owner s = ODestroyed)) as [|Hne]; [by left|right]. by eapply elt_goes_on.
Qed.

Lemma loop_thread_clean_witness :
  let s := mkElt (Some 7) false false 0 OReady TLooping (Some 7) false in
  (owner s = OReady → returned s = Some 7 ∧ loop_ s = Some 7 ∧ loop_alive s = true) ∧
  owner s ≠ OTerminated ∧ owner s ≠ OCrashed ∧
  (thread s = TReturned ∨ thread s = TCleared ∨ thread s = TDone → quit_ s = true) ∧
  (dangling s = true → quit_ s = true ∧ thread s = TDone) ∧
  sn (own_step 7) s ∧ (owner s = ODestroyed ∨ red (own_step 7) s).
Proof.
  apply (loop_thread_clean 7 (mkElt (Some 7) false false 0 OReady TLooping (Some 7) false)).
  eapply rtc_l; [left; right; apply o_start; reflexivity|].
  eapply rtc_l; [left; left; apply t_publish; reflexivity|].
  eapply rtc_l; [left; right; apply o_check; reflexivity|].
  eapply rtc_l; [left; right; apply o_return; reflexivity|]. apply rtc_refl.
Defined.

(** From a started thread. *)
Definition elt_ready (l : addr) : EventLoopThread := mkElt (Some l) false false 0 OReady TLooping (Some l) false.
Lemma elt_ready_reachable user l : rtc (elt_step user l) EventLoopThread_ctor (elt_ready l).
Proof.
  eapply rtc_l; [left; right; apply o_start; reflexivity|].
  eapply rtc_l; [left; left; apply t_publish; reflexivity|].
  eapply rtc_l; [left; right; apply o_check; reflexivity|].
  eapply rtc_l; [left; right; apply o_return; reflexivity|]. apply rtc_refl.
Qed.

(** the destructor races with the end of the loop.  [quit] sets [quit_] and then uses the loop
    again, to see whether it is called in another thread and to wake it: the thread may have seen
    [quit_], returned and destroyed the loop in between. *)
Theorem quit_races_with_end (l : addr) : ∃ s, rtc (elt_step false l) EventLoopThread_ctor s ∧ dangling s = true ∧ owner s = OJoining.
Proof.
  eexists. split.
  - etrans; [apply elt_ready_reachable|].
    eapply rtc_l; [left; right; apply o_dtor; reflexivity|].
    eapply rtc_l; [left; right; apply o_load; reflexivity|].
    eapply rtc_l; [left; right; apply (o_quit _ l); reflexivity|].
    eapply rtc_l; [left; left; apply t_check; reflexivity|].
    eapply rtc_l; [left; left; apply t_clear; reflexivity|].
    eapply rtc_l; [left; left; apply t_end; reflexivity|].
    eapply rtc_l; [left; right; apply (o_in_loop _ l); reflexivity|].
    eapply rtc_l; [left; right; apply (o_wakeup _ l); reflexivity|]. apply rtc_refl.
  - split; reflexivity.
Qed.

(** a loop that somebody else ended takes the process with it.  Once a callback has told the loop
    to quit, the destructor of its thread finds [loop_] null, skips the
    join and destroys a joinable [std::thread] (std::terminate); or finds it null only when it calls
    [quit]; or calls [quit] on a loop that has ended meanwhile. *)
Theorem quit_elsewhere_terminates (l : addr) :
  (∃ s, rtc (elt_step true l) EventLoopThread_ctor s ∧ owner s = OTerminated) ∧
  (∃ s, rtc (elt_step true l) EventLoopThread_ctor s ∧ owner s = OCrashed) ∧
  (∃ s, rtc (elt_step true l) EventLoopThread_ctor s ∧ dangling s = true ∧ quit_ s = true ∧ owner s = OInLoop l).
Proof.
  split_and!; eexists; (split; [etrans; [apply elt_ready_reachable|]|]).
  - eapply rtc_l; [right; apply x_user_quit; auto|]. eapply rtc_l; [left; left; apply t_check; reflexivity|].
    eapply rtc_l; [left; left; apply t_clear; reflexivity|]. eapply rtc_l; [left; right; apply o_dtor; reflexivity|]. apply rtc_refl.
  - reflexivity.
  - eapply rtc_l; [right; apply x_user_quit; auto|]. eapply rtc_l; [left; left; apply t_check; reflexivity|].
    eapply rtc_l; [left; right; apply o_dtor; reflexivity|]. eapply rtc_l; [left; left; apply t_clear; reflexivity|].
    eapply rtc_l; [left; right; apply o_load; reflexivity|]. apply rtc_refl.
  - reflexivity.
  - eapply rtc_l; [right; apply x_user_quit; auto|]. eapply rtc_l; [left; left; apply t_check; reflexivity|].
    eapply rtc_l; [left; right; apply o_dtor; reflexivity|]. eapply rtc_l; [left; right; apply o_load; reflexivity|].
    eapply rtc_l; [left; left; apply t_clear; reflexivity|]. eapply rtc_l; [left; left; apply t_end; reflexivity|].
    eapply rtc_l; [left; right; apply (o_quit _ l); reflexivity|]. apply rtc_refl.
  - by split_and!.
Qed.

(** the pool hands out its loops in turn.  After [start] with n threads in the base loop's
    thread, the k-th call of [getNextLoop] (counting from 0) returns the loop of thread
    [k mod n], and the base loop when there are no threads; the callback has been called
    once per thread, or on the base loop when there are none; and a second [start] fails its
    assertion. *)
Theorem loops_in_turn (base : addr) (n : nat) (new_loop : nat → addr) (cb : bool) (calls : nat) :
  Z.of_nat n < 2 ^ 31 →
  ∃ p inits, start true new_loop cb (setNumOfThreads (Z.of_nat n) (EventLoopThreadPool_ctor base)) = Ok (p, inits) ∧
    inits = (if cb then (if (n =? 0)%nat then [base] else map new_loop (seq 0 n)) else []) ∧
    next_loops true calls p =
      Ok (map (λ k, if (n =? 0)%nat then base else new_loop (k mod n)%nat) (seq 0 calls)) ∧
    start true new_loop cb p ↯ AssertFailed.
Proof.
  intros Hn. unfold start at 1, assertInBase. simpl. ok_simpl.
  rewrite Nat2Z.id. do 2 eexists. split; [done|]. split_and!; [by destruct n| |done].
  destruct n as [|n].
  - by apply (next_loops_base base).
  - set (ls := map new_loop (seq 0 (S n))).
    assert (Hls : length ls = S n) by (unfold ls; by rewrite length_map, length_seq).
    rewrite (next_loops_run _ _ 0); simpl loops_; fold ls; [|by destruct ls| |lia|done].
    2: { unfold zlen. lia. }
    rewrite Hls. f_equal. apply map_ext. intros k. simpl Nat.add.
    pose proof (Nat.mod_upper_bound k (S n) ltac:(lia)) as Hk.
    unfold ls. erewrite nth_indep by (rewrite length_map, length_seq; exact Hk).
    rewrite (map_nth new_loop _ 0%nat). by rewrite seq_nth.
Qed.

Lemma loops_in_turn_witness :
  ∃ p inits, start true (λ i, 100 + Z.of_nat i) true (setNumOfThreads (Z.of_nat 3) (EventLoopThreadPool_ctor 50)) =
      Ok (p, inits) ∧
    inits = [100; 101; 102] ∧
    next_loops true 5 p = Ok [100; 101; 102; 100; 101] ∧
    start true (λ i, 100 + Z.of_nat i) true p ↯ AssertFailed.
Proof. exact (loops_in_turn 50 3 (λ i, 100 + Z.of_nat i) true 5 ltac:(lia)). Defined.
