(* ===== verification/ConnFrame.v ===== *)
(** * ConnFrame: what the code of a connection leaves alone

    Frame lemmas for the operations of TcpConnection.v, whatever state the loop is in: they
    touch the connection's own channel only, queue functors of the connection only, and
    never lead back to an earlier state.  The owners of connections (TcpServer.v,
    TcpClient.v) build their invariants on them. *)
From S2P Require Import Prelude Timestamp Buffer Channel Reactor TcpConnection.

(** The state only moves on. *)
Definition state_step (s s' : State) : Prop :=
  s' = s ∨ s' = kDisconnected ∨ (s = kConnected ∧ s' = kDisconnecting).

Lemma state_step_trans s1 s2 s3 : state_step s1 s2 → state_step s2 s3 → state_step s1 s3.
Proof. unfold state_step. intros [->|[->|[-> ->]]] [->|[->|[? ->]]]; try done; eauto. Qed.

#[export] Instance state_step_po : PreOrder state_step.
Proof. split; [by left|intros ???; apply state_step_trans]. Qed.

Section frame.
Context {C X S L F G U : Type} `{Socket S} `{ReactorFrame L F G}.
Context (bind_fn : conn_fn C → G).
Abbreviation World := (W C X S L U).
Implicit Types (x y : World) (c : TcpConnection C X).

(** The callbacks that the connection may call later, through a functor. *)
Context (cb_ok : C → Prop).
Definition later_ok c : Prop :=
  (∀ cb, writeCompleteCallback_ c = Some cb → cb_ok cb) ∧
  (∀ cb, highWaterMarkCallback_ c = Some cb → cb_ok cb).

(** Functors that hold the connection and neither establish nor destroy it. *)
Definition harmless (f : conn_fn C) : Prop :=
  match f with
  | FnSendInLoop _ | FnShutdownInLoop | FnEstablish | FnDestroy => False
  | FnWriteComplete cb | FnHighWaterMark cb _ => cb_ok cb
  | FnForceCloseInLoop => True
  end.

(** The members that no operation assigns. *)
Definition ident c : addr * list byte * addr * list (option C) :=
  (this_ c, name_ c, channel_ c,
   [connectionCallback_ c; messageCallback_ c; closeCallback_ c; writeCompleteCallback_ c; highWaterMarkCallback_ c]).

Definition chan x : addr := channel_ (conn x).

(** [ok] bounds the functors queued; with [r] the channel may become registered. *)
Record quiet (r : bool) (ok : conn_fn C → Prop) x y : Prop := {
  q_usr : usr y = usr x;
  q_ident : ident (conn y) = ident (conn x);
  q_state : state_step (state_ (conn x)) (state_ (conn y));
  q_chan : is_Some (rt_channel (lp x) (chan x)) → is_Some (rt_channel (lp y) (chan x));
  q_others a : a ≠ chan x → rt_channel (lp y) a = rt_channel (lp x) a;
  q_thread t : rt_isInLoopThread t (lp y) = rt_isInLoopThread t (lp x);
  q_addr : rt_addr (lp y) = rt_addr (lp x);
  q_pending : ∃ fs, rt_pending (lp y) = rt_pending (lp x) ++ map bind_fn fs ∧ Forall ok fs;
  q_reg : r = true ∨ (rt_registered (lp y) (chan x) = true → rt_registered (lp x) (chan x) = true)
}.

Lemma ident_chan c c' : ident c' = ident c → channel_ c' = channel_ c.
Proof. by intros [= _ _ -> _]. Qed.

Lemma ident_later c c' : ident c' = ident c → later_ok c → later_ok c'.
Proof. intros [= _ _ _ _ _ _ Hw Hh]. unfold later_ok. by rewrite Hw, Hh. Qed.

Lemma quiet_refl r ok x : quiet r ok x x.
Proof. split; try done; [exists []; by rewrite app_nil_r|by right]. Qed.

Lemma quiet_trans r ok x y z : quiet r ok x y → quiet r ok y z → quiet r ok x z.
Proof.
  intros [Hu Hi Hs Hc Ho Ht Ha (fs & Hp & Hf) Hr] [Hu' Hi' Hs' Hc' Ho' Ht' Ha' (fs' & Hp' & Hf') Hr'].
  assert (Hch : chan y = chan x) by by apply ident_chan.
  rewrite Hch in *. split; try congruence.
  - by etrans.
  - auto.
  - intros a Hne. by rewrite Ho', Ho.
  - exists (fs ++ fs'). split; [|by apply Forall_app]. by rewrite Hp', Hp, map_app, app_assoc.
  - destruct Hr as [?|Hr]; [by left|]. destruct Hr' as [?|Hr']; [by left|]. right. auto.
Qed.

Lemma quiet_weaken r ok (ok' : conn_fn C → Prop) x y :
  (∀ f, ok f → ok' f) → quiet r ok x y → quiet r ok' x y.
Proof.
  intros Hok [Hu Hi Hs Hc Ho Ht Ha (fs & Hp & Hf) Hr]. split; try done.
  exists fs. split; [done|]. by eapply Forall_impl.
Qed.

Lemma quiet_reg r ok x y : quiet false ok x y → quiet r ok x y.
Proof. intros [? ? ? ? ? ? ? ? [?|?]]; [done|]. split; try done. by right. Qed.

(** What does not touch the loop. *)
Lemma quiet_local r ok x y :
  lp y = lp x → usr y = usr x → ident (conn y) = ident (conn x) →
  state_step (state_ (conn x)) (state_ (conn y)) → quiet r ok x y.
Proof.
  intros Hl Hu Hi Hs. split; try done; rewrite ?Hl; try done; [|by right].
  exists []. by rewrite app_nil_r.
Qed.

Lemma quiet_queue r (ok : conn_fn C → Prop) tid f x : ok f → quiet r ok x (queue bind_fn tid f x).
Proof.
  intros Hf. destruct (frame_queue tid (bind_fn f) (lp x)) as (Hp & Hc & Ht & Ha). unfold queue.
  split; simpl; try done.
  - by rewrite Hc.
  - exists [f]. split; [done|by constructor].
  - right. unfold rt_registered. by rewrite Hc.
Qed.

Lemma quiet_change ok f tid x y :
  on_lp (rt_change f tid (chan x)) x = Ok y → quiet true ok x y.
Proof.
  intros (l & Hrun & [= <-])%bind_Ok_inv.
  destruct (frame_change f tid (chan x) _ _ Hrun) as (Hs & Hs' & _ & Ho & Hp & Ht & Ha).
  split; simpl; try done; [|by left]. exists []. by rewrite app_nil_r.
Qed.

Lemma quiet_remove ok tid x y :
  on_lp (rt_remove tid (chan x)) x = Ok y →
  quiet false ok x y ∧ rt_registered (lp y) (chan x) = false ∧ rt_event (lp y) (chan x) = rt_event (lp x) (chan x).
Proof.
  intros (l & Hrun & [= <-])%bind_Ok_inv.
  destruct (frame_remove tid (chan x) _ _ Hrun) as (Hs & Hs' & Hr & He & Ho & Hp & Ht & Ha).
  split; [|done]. split; simpl; try done; [exists []; by rewrite app_nil_r|]. right. by rewrite Hr.
Qed.

Lemma assertLoop_inv tid x u : assertLoop tid x = Ok u → rt_isInLoopThread tid (lp x) = true.
Proof. unfold assertLoop, rt_assertInLoopThread. by destruct (rt_isInLoopThread tid (lp x)). Qed.

Lemma quiet_append_remaining tid data n m x y :
  later_ok (conn x) → append_remaining bind_fn tid data n m x = Ok y → quiet true harmless x y.
Proof.
  intros [_ Hh]. unfold append_remaining.
  set (x1 := match highWaterMarkCallback_ (conn x) with Some _ => _ | None => _ end).
  assert (Hq : quiet true harmless x x1).
  { unfold x1. destruct (highWaterMarkCallback_ (conn x)) as [cb|]; [|apply quiet_refl].
    destruct (_ && _); [|apply quiet_refl]. apply quiet_queue. by apply Hh. }
  clearbody x1. cbv zeta. intros (rest & _ & (out & _ & Hrun)%bind_Ok_inv)%bind_Ok_inv.
  eapply quiet_trans; [exact Hq|]. set (x2 := set_conn (set_output out (conn x1)) x1) in *.
  eapply quiet_trans; [apply (quiet_local true harmless x1 x2); [done..|by left]|].
  destruct (rt_isWriting (lp x2) _); [injection Hrun as <-; apply quiet_refl|].
  by eapply quiet_change.
Qed.

Lemma quiet_sendInLoop tid data x y :
  later_ok (conn x) → sendInLoop bind_fn tid data x = Ok y → quiet true harmless x y.
Proof.
  intros Hl (? & _ & Hrun)%bind_Ok_inv. cbv zeta in Hrun.
  destruct (negb _ && _); [|injection Hrun as <-; apply quiet_refl].
  destruct (sk_write (sock x) data) as [s' [n e]]. cbn [fst snd] in Hrun.
  eapply quiet_trans; [apply (quiet_local true harmless x (set_sock s' x)); [done..|by left]|].
  assert (Hl' : later_ok (conn (set_sock s' x))) by done. generalize dependent (set_sock s' x). clear x Hl.
  intros x Hrun Hl. destruct (0 <=? n).
  - set (x1 := match writeCompleteCallback_ (conn x) with Some _ => _ | None => _ end) in Hrun.
    assert (Hq : quiet true harmless x x1).
    { unfold x1. destruct (writeCompleteCallback_ (conn x)) as [cb|] eqn:E; [|apply quiet_refl].
      destruct (_ =? 0); [|apply quiet_refl]. apply quiet_queue. by apply (proj1 Hl). }
    clearbody x1. apply bind_Ok_inv in Hrun as (? & _ & Hrun). eapply quiet_trans; [exact Hq|].
    destruct (_ && _); [|injection Hrun as <-; apply quiet_refl].
    eapply quiet_append_remaining; [|done]. eapply ident_later; [by apply (q_ident _ _ _ _ Hq)|done].
  - apply bind_Ok_inv in Hrun as (? & _ & Hrun).
    destruct (_ && _); [|injection Hrun as <-; apply quiet_refl]. by eapply quiet_append_remaining.
Qed.

Lemma quiet_shutdownInLoop tid x y : shutdownInLoop tid x = Ok y → quiet false harmless x y.
Proof.
  intros (? & _ & Hrun)%bind_Ok_inv. destruct (negb _); injection Hrun as <-; [|apply quiet_refl].
  apply quiet_local; [done..|]. right. by left.
Qed.

Lemma quiet_handleWrite tid x y :
  later_ok (conn x) → handleWrite bind_fn tid x = Ok y → quiet true harmless x y.
Proof.
  intros Hl (? & _ & Hrun)%bind_Ok_inv.
  destruct (rt_isWriting _ _); [|injection Hrun as <-; apply quiet_refl].
  apply bind_Ok_inv in Hrun as (data & _ & Hrun).
  destruct (sk_write (sock x) data) as [s' [n e]]. cbn [fst snd] in Hrun.
  destruct (0 <? n); [|injection Hrun as <-; apply quiet_local; [done..|by left]].
  apply bind_Ok_inv in Hrun as (out & _ & Hrun).
  set (x1 := set_conn (set_output out (conn (set_sock s' x))) (set_sock s' x)) in *.
  eapply quiet_trans; [apply (quiet_local true harmless x x1); [done..|by left]|].
  assert (Hl1 : later_ok (conn x1)) by done. cbv zeta in Hrun.
  change (channel_ (conn (set_sock s' x))) with (chan x1) in Hrun.
  destruct (_ =? 0); [|injection Hrun as <-; apply quiet_refl].
  apply bind_Ok_inv in Hrun as (x2 & Hd%(quiet_change harmless) & Hrun).
  eapply quiet_trans; [exact Hd|].
  pose proof (ident_later _ _ (q_ident _ _ _ _ Hd) Hl1) as Hl2. clear Hd Hl1. clearbody x1.
  set (x3 := match writeCompleteCallback_ (conn x2) with Some _ => _ | None => _ end) in Hrun.
  assert (Hq : quiet true harmless x2 x3).
  { unfold x3. destruct (writeCompleteCallback_ (conn x2)) as [cb|] eqn:E; [|apply quiet_refl].
    apply quiet_queue. by apply (proj1 Hl2). }
  clearbody x3. eapply quiet_trans; [exact Hq|].
  case_bool_decide; [|injection Hrun as <-; apply quiet_refl].
  apply quiet_reg. by eapply quiet_shutdownInLoop.
Qed.

(** [handleClose] up to the close callback. *)
Lemma handleClose_quiet call tid x y :
  handleClose call tid x = Ok y →
  ∃ z, quiet true harmless x z ∧ state_ (conn z) = kDisconnected ∧ rt_event (lp z) (chan x) = Some 0 ∧
    invoke call (closeCallback_ (conn z)) ArgNone z = Ok y.
Proof.
  intros (? & _ & (z & Hz & Hrun)%bind_Ok_inv)%bind_Ok_inv.
  exists z. pose proof Hz as Hz'. pose proof Hz as (l & Hl & [= Heq])%bind_Ok_inv.
  destruct (frame_change all_off tid _ _ _ Hl) as (Hs & _ & He & _).
  apply (quiet_change harmless all_off tid (put_state kDisconnected x)) in Hz.
  split_and!; [|destruct (bind_Ok_inv _ _ _ Hz') as (? & _ & [= <-]); done| |done].
  2: { rewrite <- Heq. simpl in *. unfold chan. rewrite He. unfold rt_event. by destruct Hs as [ch ->]. }
  eapply quiet_trans; [|exact Hz]. apply quiet_local; [done..|]. right. by left.
Qed.

(** [handleRead] up to a callback. *)
Lemma handleRead_quiet call tid t x y :
  handleRead call tid t x = Ok y →
  ∃ z, quiet false harmless x z ∧
    (invoke call (messageCallback_ (conn z)) (ArgTime t) z = Ok y ∨ handleClose call tid z = Ok y ∨ y = z).
Proof.
  intros (? & _ & Hrun)%bind_Ok_inv.
  destruct (sk_readv (sock x) _ _) as [s' rr]. cbn [fst snd] in Hrun.
  apply bind_Ok_inv in Hrun as ([[b n] e] & _ & Hrun). cbv zeta beta iota in Hrun.
  set (z := set_conn (set_input b (conn (set_sock s' x))) (set_sock s' x)) in *.
  exists z. split; [apply quiet_local; [done..|by left]|].
  destruct (0 <? n); [by left|]. destruct (n =? 0); [by right; left|].
  right; right. by injection Hrun as <-.
Qed.

(** Sending from user code: nothing when the connection is not up; in the loop's thread the
    data is sent, elsewhere a functor is queued. *)
Lemma send_quiet call tid msg x y :
  later_ok (conn x) → send bind_fn call tid msg x = Ok y →
  (state_ (conn x) ≠ kConnected ∧ y = x) ∨
  (state_ (conn x) = kConnected ∧ quiet true (λ f, harmless f ∨ f = FnSendInLoop msg) x y).
Proof.
  intros Hl Hrun. unfold send in Hrun. case_bool_decide as Hst; [|left; by injection Hrun as <-].
  right. split; [done|]. unfold runInLoop in Hrun. destruct (rt_isInLoopThread tid (lp x)).
  - apply quiet_sendInLoop in Hrun; [|done]. eapply quiet_weaken; [|exact Hrun]. by left.
  - injection Hrun as <-. apply quiet_queue. by right.
Qed.

Lemma shutdown_quiet call tid x y :
  shutdown bind_fn call tid x = Ok y →
  (state_ (conn x) ≠ kConnected ∧ y = x) ∨
  (state_ (conn x) = kConnected ∧ quiet false (λ f, harmless f ∨ f = FnShutdownInLoop) x y).
Proof.
  intros Hrun. unfold shutdown in Hrun. case_bool_decide as Hst; [|left; by injection Hrun as <-].
  right. split; [done|]. eapply quiet_trans; [apply (quiet_local _ _ x (put_state kDisconnecting x)); [done..|by right; right]|].
  unfold runInLoop in Hrun. destruct (rt_isInLoopThread _ _).
  - apply quiet_shutdownInLoop in Hrun. eapply quiet_weaken; [|exact Hrun]. by left.
  - injection Hrun as <-. apply quiet_queue. by right.
Qed.

Lemma forceClose_quiet tid x y :
  forceClose bind_fn tid x = Ok y → quiet false harmless x y.
Proof.
  intros Hrun. unfold forceClose in Hrun. destruct (_ || _) eqn:Hst; injection Hrun as <-; [|apply quiet_refl].
  eapply quiet_trans; [|by apply quiet_queue]. apply quiet_local; [done..|].
  apply orb_true_iff in Hst as [?%bool_decide_eq_true|?%bool_decide_eq_true].
  - by right; right.
  - by left.
Qed.

(** [establishConnection] up to the connection callback. *)
Lemma establish_quiet call tid x y :
  establishConnection call tid x = Ok y →
  ∃ z, quiet true harmless (put_state kConnected x) z ∧ state_ (conn z) = kConnected ∧
    invoke call (connectionCallback_ (conn z)) ArgNone z = Ok y.
Proof.
  intros (? & _ & (ch & Hch & Hrun)%bind_Ok_inv)%bind_Ok_inv.
  set (x1 := put_state kConnected (put_state kConnecting x)) in *.
  change (put_state kConnected x) with x1.
  apply bind_Ok_inv in Hrun as (z & Hz & Hrun). exists z.
  match type of Hz with on_lp _ ?v = _ => set (x2 := v) in * end.
  assert (H12 : quiet true harmless x1 x2).
  { destruct (frame_new (channel_ (conn x1)) (tie ch (this_ (conn x1))) (lp x1)) as (Hc & Ho & Hp & Ht & Ha).
    split; simpl; try done; [exists []; by rewrite app_nil_r|by left]. }
  pose proof Hz as Hz'. apply (quiet_change harmless reading_on tid x2) in Hz.
  split_and!; [by eapply quiet_trans| |done].
  destruct (bind_Ok_inv _ _ _ Hz') as (? & _ & [= <-]). done.
Qed.

(** [destoryConnection] of a connection that is not up. *)
Lemma destory_quiet call tid x y :
  state_ (conn x) ≠ kConnected → destoryConnection call tid x = Ok y →
  quiet false harmless x y ∧ rt_registered (lp y) (chan x) = false ∧ rt_event (lp y) (chan x) = rt_event (lp x) (chan x).
Proof.
  intros Hst (? & _ & Hrun)%bind_Ok_inv. rewrite bool_decide_eq_false_2 in Hrun by done.
  ok_simpl in Hrun. by eapply quiet_remove.
Qed.
End frame.
