(* ===== verification/TcpServer.v ===== *)
(** * TcpServer: src/ham/net/TcpServer.h and TcpServer.cc

    The server, its acceptor, its pool of loops and its connections in one world.  The
    connections are objects in a store, named by their addresses; the registry
    [connections_] maps names to addresses.  A connection's code (TcpConnection.v) runs on a
    view of the world ([enter], [leave]), so that its callbacks into the server act on the
    state as it is at that moment. *)
From S2P Require Import Prelude Endian StdMap Timestamp Inet SockKernel Channel Reactor TcpConnection.
From S2P Require Acceptor LoopPool.
Import Acceptor (Acceptor, mkAcceptor, AW, mkAW, acc, alp, kern, ausr).

(** The callbacks a connection holds: the user's, or [&TcpServer::removeConnection]. *)
Inductive srv_call (C : Type) := CallUser (u : C) | CallRemove.
Arguments CallUser {C}. Arguments CallRemove {C}.

(** What is bound to the channels of the server's loops, and to their functors. *)
Inductive srv_cb := ScConn (c : addr) (f : conn_cb) | ScAccept.
Inductive srv_fn (C : Type) :=
| SfConn (c : addr) (f : conn_fn (srv_call C))
| SfListen
| SfRemove (c : addr).
Arguments SfConn {C}. Arguments SfListen {C}. Arguments SfRemove {C}.

Record TcpServer (C : Type) := mkServer {
  loop_ : addr;
  started_ : bool;
  name_ : list byte;
  hostPost_ : list byte;
  nextConnId_ : Z;
  loopThreadPool_ : LoopPool.EventLoopThreadPool;
  connections_ : list (list byte * addr);
  connectionCallback_ : option C;
  messageCallback_ : option C;
  writeCompleteCallback_ : option C;
  threadInitCallback_ : option C
}.
Arguments mkServer {C}. Arguments loop_ {C}. Arguments started_ {C}. Arguments name_ {C}.
Arguments hostPost_ {C}. Arguments nextConnId_ {C}. Arguments loopThreadPool_ {C}.
Arguments connections_ {C}. Arguments connectionCallback_ {C}. Arguments messageCallback_ {C}.
Arguments writeCompleteCallback_ {C}. Arguments threadInitCallback_ {C}.

Record SW (C X S L K U : Type) := mkSW {
  srv : TcpServer C;
  acceptor : Acceptor unit;            (* acceptor_ *)
  skern : K;
  loops : gmap addr L;                 (* every loop, by its address *)
  objs : gmap addr (conn_obj (srv_call C) X S);   (* every connection object *)
  users : U
}.
Arguments mkSW {C X S L K U}. Arguments srv {C X S L K U}. Arguments acceptor {C X S L K U}.
Arguments skern {C X S L K U}. Arguments loops {C X S L K U}. Arguments objs {C X S L K U}.
Arguments users {C X S L K U}.

(** [hostPost_ + "#" + std::to_string(id)] *)
Definition conn_name (hostPost : list byte) (id : Z) : list byte := hostPost ++ str "#" ++ to_string id.

Section server.
Context {C X S L F K U : Type} `{Socket S} `{SockKernel K} `{Reactor L F (srv_fn C)} `{!LoopRun L (srv_fn C)}.
(** [std::bind] for the channels; the allocators; the socket behind a descriptor. *)
Context (bind : srv_cb → F).
Abbreviation World := (SW C X S L K U).
Abbreviation ConnW := (W (srv_call C) X S L World).
Abbreviation AccW := (AW unit L K World).
Context (new_obj : World → addr) (new_chan : L → addr) (new_sock : Z → K → S).
(** The user's callbacks, called in thread [tid] on connection [c]; and the callback for a
    new loop. *)
Context (user : C → Z → addr → cb_arg → World → outcome World).
Context (thread_init : C → addr → World → outcome World).
Implicit Types (w : World) (c : addr).

Definition set_srv (s : TcpServer C) w : World := mkSW s (acceptor w) (skern w) (loops w) (objs w) (users w).
Definition set_loops (ls : gmap addr L) w : World := mkSW (srv w) (acceptor w) (skern w) ls (objs w) (users w).
Definition set_objs (os : gmap addr (conn_obj (srv_call C) X S)) w : World :=
  mkSW (srv w) (acceptor w) (skern w) (loops w) os (users w).
Definition put_loop (l : addr) (st : L) w : World := set_loops (<[l := st]> (loops w)) w.
Definition put_obj c (o : conn_obj (srv_call C) X S) w : World := set_objs (<[c := o]> (objs w)) w.
Definition set_connections (m : list (list byte * addr)) (s : TcpServer C) : TcpServer C :=
  mkServer (loop_ s) (started_ s) (name_ s) (hostPost_ s) (nextConnId_ s) (loopThreadPool_ s) m
    (connectionCallback_ s) (messageCallback_ s) (writeCompleteCallback_ s) (threadInitCallback_ s).
Definition set_pool (p : LoopPool.EventLoopThreadPool) (s : TcpServer C) : TcpServer C :=
  mkServer (loop_ s) (started_ s) (name_ s) (hostPost_ s) (nextConnId_ s) p (connections_ s)
    (connectionCallback_ s) (messageCallback_ s) (writeCompleteCallback_ s) (threadInitCallback_ s).
Definition set_nextConnId (n : Z) (s : TcpServer C) : TcpServer C :=
  mkServer (loop_ s) (started_ s) (name_ s) (hostPost_ s) n (loopThreadPool_ s) (connections_ s)
    (connectionCallback_ s) (messageCallback_ s) (writeCompleteCallback_ s) (threadInitCallback_ s).
Definition set_started (s : TcpServer C) : TcpServer C :=
  mkServer (loop_ s) true (name_ s) (hostPost_ s) (nextConnId_ s) (loopThreadPool_ s) (connections_ s)
    (connectionCallback_ s) (messageCallback_ s) (writeCompleteCallback_ s) (threadInitCallback_ s).
Definition setCallbacks (cc mc wc ti : option C) (s : TcpServer C) : TcpServer C :=
  mkServer (loop_ s) (started_ s) (name_ s) (hostPost_ s) (nextConnId_ s) (loopThreadPool_ s) (connections_ s)
    cc mc wc ti.

Definition loop_at (l : addr) w : outcome L :=
  match loops w !! l with Some st => Ok st | None => Err NullPointer end.
Definition obj_at c w : outcome (conn_obj (srv_call C) X S) :=
  match objs w !! c with Some o => Ok o | None => Err NullPointer end.

(** ** Views *)

(** The world as the code of connection [c] sees it. *)
Definition enter c w : outcome ConnW :=
  o ← obj_at c w; l ← loop_at (ob_loop o) w;
  Ok (mkW (ob_conn o) l (ob_sock o) w).
Definition leave c (x : ConnW) : World :=
  match objs (usr x) !! c with
  | Some o => put_loop (ob_loop o) (lp x)
      (put_obj c (mkObj (conn x) (ob_loop o) (sock x) (ob_fd o) (ob_local o) (ob_peer o)) (usr x))
  | None => usr x
  end.
Definition on_conn c (f : ConnW → outcome ConnW) w : outcome World :=
  x ← enter c w; x ← f x; Ok (leave c x).

(** The world as the acceptor sees it. *)
Definition enter_acc w : outcome AccW :=
  l ← loop_at (loop_ (srv w)) w; Ok (mkAW (acceptor w) l (skern w) w).
Definition leave_acc (x : AccW) : World :=
  let w := ausr x in
  mkSW (srv w) (acc x) (kern x) (<[loop_ (srv w) := alp x]> (loops w)) (objs w) (users w).

(** ** Removing a connection *)
Definition queue_in (l : addr) (tid : Z) (g : srv_fn C) w : outcome World :=
  st ← loop_at l w; Ok (put_loop l (rt_queueInLoop tid g st) w).

Definition in_base (tid : Z) w : bool :=
  match loops w !! loop_ (srv w) with Some st => rt_isInLoopThread tid st | None => false end.
Definition assert_base (tid : Z) w : outcome unit := if in_base tid w then Ok tt else Err Aborted.

Definition removeConnectionInLoop (tid : Z) c w : outcome World :=
  _ ← assert_base tid w;
  o ← obj_at c w;
  let s := srv w in
  let w := set_srv (set_connections (map_erase (TcpConnection.name_ (ob_conn o)) (connections_ s)) s) w in
  queue_in (ob_loop o) tid (SfConn c FnDestroy) w.

Definition removeConnection (tid : Z) c w : outcome World :=
  if in_base tid w then removeConnectionInLoop tid c w
  else queue_in (loop_ (srv w)) tid (SfRemove c) w.

(** Calling a callback that connection [c] holds. *)
Definition call (tid : Z) c (cb : srv_call C) (arg : cb_arg) (x : ConnW) : outcome ConnW :=
  w ← (match cb with
       | CallUser u => user u tid c arg (leave c x)
       | CallRemove => removeConnection tid c (leave c x)
       end);
  enter c w.

(** ** New connections *)
Definition newConnectionCallback (tid connfd : Z) (peerAddr : sockaddr_in) w : outcome World :=
  _ ← assert_base tid w;
  '(nextIoLoop, pool) ← LoopPool.getNextLoop (in_base tid w) (loopThreadPool_ (srv w));
  let s := srv w in
  let name := conn_name (hostPost_ s) (nextConnId_ s) in
  let localAddr := getLocalAddr (k_sockname connfd (skern w)) in
  l ← loop_at nextIoLoop w;
  let c := new_obj w in
  let x := TcpConnection_ctor (λ f, bind (ScConn c f)) c nextIoLoop name connfd (new_chan l)
             (new_sock connfd (skern w)) l w in
  let conn' := TcpConnection.setCallbacks (CallUser <$> connectionCallback_ s) (CallUser <$> messageCallback_ s)
                 (Some CallRemove) (CallUser <$> writeCompleteCallback_ s) (conn x) in
  let s := set_connections (map_set name c (connections_ s)) (set_pool pool (set_nextConnId (i32 (nextConnId_ s + 1)) s)) in
  let w := set_srv s (put_loop nextIoLoop (lp x)
             (put_obj c (mkObj conn' nextIoLoop (sock x) connfd localAddr peerAddr) w)) in
  if rt_isInLoopThread tid (lp x) then on_conn c (establishConnection (call tid c) tid) w
  else queue_in nextIoLoop tid (SfConn c FnEstablish) w.

Definition acc_call (tid : Z) (_ : unit) (connfd : Z) (peerAddr : sockaddr_in) (x : AccW) : outcome AccW :=
  w ← newConnectionCallback tid connfd peerAddr (leave_acc x); enter_acc w.

(** The acceptor's channel became readable. *)
Definition acceptor_readable (tid : Z) w : outcome World :=
  x ← enter_acc w; x ← Acceptor.handleRead (acc_call tid) tid x; Ok (leave_acc x).

Definition acceptor_listen (tid : Z) w : outcome World :=
  x ← enter_acc w; x ← Acceptor.listen tid x; Ok (leave_acc x).

(** ** Construction, start, destruction *)
Definition TcpServer_ctor (host : byte_order) (inet_ntop : Z → list byte) (chan loop : addr)
    (listenAddr : sockaddr_in) (name : list byte) (l : L) (k : K) (ls : gmap addr L) (u : U) : outcome World :=
  a ← Acceptor.Acceptor_ctor (C := unit) (bind ScAccept) loop chan listenAddr true l k tt;
  _ ← assert_ (negb (loop =? 0));
  let s := mkServer loop false name (getIpPortStr host inet_ntop listenAddr) 1 (LoopPool.EventLoopThreadPool_ctor loop) []
             None None None None in
  Ok (mkSW s (Acceptor.setNewConnCallback tt (acc a)) (kern a) (<[loop := alp a]> ls) ∅ u).

Definition setNumOfThreads (n : Z) w : outcome World :=
  _ ← assert_ (0 <=? n);
  Ok (set_srv (set_pool (LoopPool.setNumOfThreads n (loopThreadPool_ (srv w))) (srv w)) w).

Fixpoint init_loops (cb : C) (ls : list addr) w : outcome World :=
  match ls with [] => Ok w | l :: ls => w ← thread_init cb l w; init_loops cb ls w end.

(** [new_loop i] and [loop_state i] are the i-th new thread's loop. *)
Definition start (tid : Z) (new_loop : nat → addr) (loop_state : nat → L) w : outcome World :=
  let w := set_srv (set_started (srv w)) w in
  let pool := loopThreadPool_ (srv w) in
  '(pool', inits) ← LoopPool.start (in_base tid w) new_loop
                      (bool_decide (is_Some (threadInitCallback_ (srv w)))) pool;
  let w := set_srv (set_pool pool' (srv w)) w in
  let n := Z.to_nat (LoopPool.numOfThreads_ pool) in
  let w := set_loops (foldr (λ i m, <[new_loop i := loop_state i]> m) (loops w) (seq 0 n)) w in
  w ← (match threadInitCallback_ (srv w) with Some cb => init_loops cb inits w | None => Ok w end);
  if Acceptor.isListening (acceptor w) then Ok w
  else if in_base tid w then acceptor_listen tid w
  else queue_in (loop_ (srv w)) tid SfListen w.

Fixpoint destroy_all (tid : Z) (cs : list (list byte * addr)) w : outcome World :=
  match cs with
  | [] => Ok w
  | (_, c) :: cs => w ← on_conn c (destoryConnection (call tid c) tid) w; destroy_all tid cs w
  end.

(** The body of the destructor, then the members: the registry and the acceptor (the
    threads of the pool end as LoopPool.v describes). *)
Definition TcpServer_dtor (tid : Z) w : outcome World :=
  w ← destroy_all tid (connections_ (srv w)) w;
  let w := set_srv (set_connections [] (srv w)) w in
  x ← enter_acc w;
  '(l, k, w) ← Acceptor.Acceptor_dtor tid x;
  Ok (mkSW (srv w) (acceptor w) k (<[loop_ (srv w) := l]> (loops w)) (objs w) (users w)).

(** ** Running *)
Definition run_fn (tid : Z) (g : srv_fn C) w : outcome World :=
  match g with
  | SfConn c f => on_conn c (TcpConnection.run_fn (SfConn c) (call tid c) tid f) w
  | SfListen => acceptor_listen tid w
  | SfRemove c => removeConnectionInLoop tid c w
  end.

(** The loop at [l] runs its first pending functor. *)
Definition run_next (tid : Z) (l : addr) w : outcome World :=
  st ← loop_at l w;
  match rt_take st with
  | Some (g, st) => run_fn tid g (put_loop l st w)
  | None => Ok w
  end.

(** An event of connection [c], dispatched by its channel. *)
Definition io_event (tid : Z) c (f : conn_cb) (t : Timestamp) w : outcome World :=
  on_conn c (TcpConnection.run_cb (SfConn c) (call tid c) tid f t) w.

Definition run_user_op (tid : Z) c (op : user_op) : ConnW → outcome ConnW :=
  conn_user_op (SfConn c) (call tid c) tid op.

(** Thread [tid] runs the loop of connection [c]. *)
Definition in_own (tid : Z) c w : bool :=
  match objs w !! c with
  | Some o => match loops w !! ob_loop o with Some l => rt_isInLoopThread tid l | None => false end
  | None => false
  end.

(** User code as the actions it takes: operations on connections, reading of an input buffer,
    changes of its own data.  The operations do not call back.  An action on a connection is
    one step only in the thread of its loop ([own_action]): from another thread send,
    shutdown and forceClose test the state, change it and queue a functor without a lock, and
    the loop may run in between. *)
Inductive user_action := ActConn (c : addr) (op : user_op) | ActConsume (c : addr) (n : Z) | ActData (f : U → U).
Definition run_action (tid : Z) (a : user_action) w : outcome World :=
  match a with
  | ActConn c op => on_conn c (run_user_op tid c op) w
  | ActConsume c n => on_conn c (consume n) w
  | ActData f => Ok (mkSW (srv w) (acceptor w) (skern w) (loops w) (objs w) (f (users w)))
  end.
Definition own_action (tid : Z) w (a : user_action) : Prop :=
  match a with ActConn c _ | ActConsume c _ => in_own tid c w = true | ActData _ => True end.
Fixpoint run_actions (tid : Z) (acts : list user_action) w : outcome World :=
  match acts with [] => Ok w | a :: acts => w ← run_action tid a w; run_actions tid acts w end.

(** ** Lifetime: the registry and the pending functors hold the connection objects, except
    the functors that bind a plain [this]. *)
Definition holds c (g : srv_fn C) : bool :=
  match g with SfConn c' f => (c' =? c) && negb (plain_this f) | SfRemove c' => c' =? c | SfListen => false end.
Definition registered_conn c w : bool :=
  existsb (λ e, e.2 =? c) (connections_ (srv w)).
Definition referenced c w : bool :=
  registered_conn c w ||
  existsb (λ p, existsb (holds c) (rt_pending p.2)) (map_to_list (loops w)).

(** The last reference goes: the channel and the socket are destroyed. *)
Definition drop_conn c w : outcome World :=
  o ← obj_at c w; l ← loop_at (ob_loop o) w;
  let a := channel_ (ob_conn o) in
  ch ← (match rt_channel l a with Some ch => Ok ch | None => Err NullPointer end);
  _ ← Channel_dtor ch;
  let w := put_loop (ob_loop o) (rt_delete a l) w in
  Ok (mkSW (srv w) (acceptor w) (k_close (ob_fd o) (skern w)) (loops w) (delete c (objs w)) (users w)).
End server.

(** A user callback that takes the actions [script] decides on. *)
Definition scripted {C X S L F K U} `{Socket S} `{Reactor L F (srv_fn C)}
    (script : C → Z → addr → cb_arg → SW C X S L K U → list (user_action (U := U)))
    (u : C) (tid : Z) (c : addr) (arg : cb_arg) (w : SW C X S L K U) : outcome (SW C X S L K U) :=
  run_actions (λ _ _ _ _ w, Ok w) tid (script u tid c arg w) w.

(** The script leaves the connections of other threads' loops alone. *)
Definition own_script {C X S L F K U} `{Socket S} `{Reactor L F (srv_fn C)}
    (script : C → Z → addr → cb_arg → SW C X S L K U → list (user_action (U := U))) : Prop :=
  ∀ u tid c arg w, Forall (own_action tid w) (script u tid c arg w).
