(* ===== verification/ServerInv.v ===== *)
(** * ServerInv: the lifetime of the connections of a TcpServer

    The steps a running server takes, an invariant over the registry, the connection
    objects, their channels and the pending functors of all loops, and its preservation by
    every step, whatever the user's callbacks do within the invariant. *)
From S2P Require Import Prelude StdMap Timestamp Inet SockKernel Channel Reactor TcpConnection ConnFrame TcpServer.
From S2P Require Acceptor LoopPool.
Import Acceptor (Acceptor, mkAcceptor, AW, mkAW, acc, alp, kern, ausr).

Section inv.
Context {C X S L F K U : Type} `{Socket S} `{SockKernel K} `{ReactorFrame L F (srv_fn C)}.
Abbreviation World := (SW C X S L K U).
Abbreviation ConnW := (W (srv_call C) X S L World).
Abbreviation Obj := (conn_obj (srv_call C) X S).
Implicit Types (w : World) (c la : addr) (o : Obj) (l : L).

(** ** What the invariant speaks of *)
Definition user_call (cb : srv_call C) : Prop := cb ≠ CallRemove.

(** The functors of connection [c] that wait in a loop. *)
Definition fn_of c (g : srv_fn C) : option (conn_fn (srv_call C)) :=
  match g with SfConn c' f => if c' =? c then Some f else None | _ => None end.
Definition fns c l : list (conn_fn (srv_call C)) := omap (fn_of c) (rt_pending l).

Definition pend w c o : list (conn_fn (srv_call C)) :=
  match loops w !! ob_loop o with Some l => fns c l | None => [] end.
Definition reg w o : bool :=
  match loops w !! ob_loop o with Some l => rt_registered l (channel_ (ob_conn o)) | None => false end.
Definition has_chan w o : Prop :=
  ∃ l, loops w !! ob_loop o = Some l ∧ is_Some (rt_channel l (channel_ (ob_conn o))).

Definition in_registry w c o : Prop :=
  map_find (TcpConnection.name_ (ob_conn o)) (connections_ (srv w)) = Some c.
Definition remove_pending w c : Prop :=
  ∃ l, loops w !! loop_ (srv w) = Some l ∧ SfRemove c ∈ rt_pending l.

(** What must not come after the destruction: it may make the channel known to the poller
    again, or it does not hold the connection. *)
Definition rearms (f : conn_fn (srv_call C)) : bool :=
  match f with FnEstablish => true | _ => plain_this f end.

(** A connection out of the registry: its destruction is still to come and nothing after it
    re-registers the channel or uses a plain [this]; or there is no such functor left and
    the channel is out of the poller for good. *)
Definition settled (fs : list (conn_fn (srv_call C))) (r : bool) : Prop :=
  (∃ p q, fs = p ++ FnDestroy :: q ∧ existsb rearms q = false) ∨
  (r = false ∧ existsb rearms fs = false).

(** While [ex] is being destroyed it counts as unregistered. *)
Definition reg_but (ex : option addr) w c o : bool := if decide (ex = Some c) then false else reg w o.

Record obj_inv (ex : option addr) w c o : Prop := {
  oi_chan : has_chan w o;
  oi_name : ∃ k, 1 ≤ k < nextConnId_ (srv w) ∧ TcpConnection.name_ (ob_conn o) = conn_name (hostPost_ (srv w)) k;
  oi_close : closeCallback_ (ob_conn o) = Some CallRemove;
  oi_cc : ∀ cb, TcpConnection.connectionCallback_ (ob_conn o) = Some cb → user_call cb;
  oi_mc : ∀ cb, TcpConnection.messageCallback_ (ob_conn o) = Some cb → user_call cb;
  oi_later : later_ok user_call (ob_conn o);
  oi_est : FnEstablish ∈ pend w c o → state_ (ob_conn o) = kConnecting ∧ reg w o = false;
  oi_est1 : FnEstablish ∉ tail (pend w c o);
  oi_closing : (¬ in_registry w c o) ∨ remove_pending w c →
    state_ (ob_conn o) = kDisconnected ∧ FnEstablish ∉ pend w c o;
  oi_destroy : FnDestroy ∈ pend w c o → ¬ in_registry w c o;
  oi_settled : ¬ in_registry w c o → settled (pend w c o) (reg_but ex w c o)
}.

(** What a pending functor refers to. *)
Definition fn_ok w la (g : srv_fn C) : Prop :=
  match g with
  | SfConn c f => (∃ o, objs w !! c = Some o ∧ ob_loop o = la) ∧
      match f with FnWriteComplete cb | FnHighWaterMark cb _ => user_call cb | _ => True end
  | SfListen => la = loop_ (srv w)
  | SfRemove c => la = loop_ (srv w) ∧ is_Some (objs w !! c)
  end.

Record srv_inv (ex : option addr) w : Prop := {
  si_sorted : map_sorted (connections_ (srv w));
  si_next : 1 ≤ nextConnId_ (srv w) < 2 ^ 31;
  si_entry n c : map_find n (connections_ (srv w)) = Some c →
    ∃ o, objs w !! c = Some o ∧ TcpConnection.name_ (ob_conn o) = n;
  si_obj c o : objs w !! c = Some o → obj_inv ex w c o;
  si_names c1 c2 o1 o2 : objs w !! c1 = Some o1 → objs w !! c2 = Some o2 →
    TcpConnection.name_ (ob_conn o1) = TcpConnection.name_ (ob_conn o2) → c1 = c2;
  si_chans c1 c2 o1 o2 : objs w !! c1 = Some o1 → objs w !! c2 = Some o2 → ob_loop o1 = ob_loop o2 →
    channel_ (ob_conn o1) = channel_ (ob_conn o2) → c1 = c2;
  si_acc : ∃ l, loops w !! loop_ (srv w) = Some l ∧
    is_Some (rt_channel l (Acceptor.acceptChannel_ (acceptor w)));
  si_acc_chan c o : objs w !! c = Some o → ob_loop o = loop_ (srv w) →
    channel_ (ob_conn o) ≠ Acceptor.acceptChannel_ (acceptor w);
  si_fns la l g : loops w !! la = Some l → g ∈ rt_pending l → fn_ok w la g
}.

(** ** Pending functors *)
Lemma fns_app c l fs c' (l' : L) :
  rt_pending l' = rt_pending l ++ map (SfConn c) fs →
  fns c' l' = fns c' l ++ (if c =? c' then fs else []).
Proof.
  intros Hp. unfold fns. rewrite Hp, omap_app. f_equal. clear Hp.
  destruct (Z.eqb_spec c c') as [->|Hne].
  - induction fs as [|f fs IH]; [done|]. simpl. rewrite Z.eqb_refl. f_equal. exact IH.
  - induction fs as [|f fs IH]; [done|]. simpl. rewrite (proj2 (Z.eqb_neq c c')) by done. exact IH.
Qed.

Lemma elem_fns c l f : f ∈ fns c l ↔ SfConn c f ∈ rt_pending l.
Proof.
  unfold fns. rewrite list_elem_of_omap. split.
  - intros ([c' f'| |] & Hin & Hf); simpl in Hf; try done.
    destruct (Z.eqb_spec c' c); [|done]. by simplify_eq.
  - intros Hin. eexists. split; [exact Hin|]. simpl. by rewrite Z.eqb_refl.
Qed.

Lemma settled_app fs gs r : settled fs r → existsb rearms gs = false → settled (fs ++ gs) r.
Proof.
  intros [(p & q & -> & Hq)|[Hr Hfs]] Hgs.
  - left. exists p, (q ++ gs). by rewrite <- app_assoc, existsb_app, Hq.
  - right. split; [done|]. by rewrite existsb_app, Hfs.
Qed.

Lemma settled_destroy fs r : settled (fs ++ [FnDestroy]) r.
Proof. left. by exists fs, []. Qed.

(** With the destruction pending, the channel may be registered again. *)
Lemma settled_reg fs (r r' : bool) :
  settled fs r → (r' = true → r = true ∨ FnDestroy ∈ fs) → settled fs r'.
Proof.
  intros [?|[-> Hr]] Hr'; [by left|]. destruct r'; [|by right].
  destruct Hr' as [?|Hd]; [done|done|]. left.
  apply list_elem_of_split in Hd as (p & q & ->). exists p, q. split; [done|].
  rewrite existsb_app in Hr. apply orb_false_iff in Hr as [_ Hr]. exact Hr.
Qed.

Lemma settled_cons f fs r : settled (f :: fs) r → f ≠ FnDestroy → settled fs r.
Proof.
  intros [(p & q & Heq & Hq)|[Hr Hfs]] Hf.
  - destruct p as [|f' p]; simplify_eq/=. left. by exists p, q.
  - right. split; [done|]. simpl in Hfs. by apply orb_false_iff in Hfs as [_ ?].
Qed.

(** ** Objects that a step does not concern *)
Record same_obj w w' c o o' : Prop := {
  so_ident : ident (ob_conn o') = ident (ob_conn o);
  so_state : state_ (ob_conn o') = state_ (ob_conn o);
  so_host : hostPost_ (srv w') = hostPost_ (srv w);
  so_next : nextConnId_ (srv w) ≤ nextConnId_ (srv w');
  so_registry : in_registry w' c o' ↔ in_registry w c o;
  so_remove : remove_pending w' c → remove_pending w c;
  so_chan : has_chan w o → has_chan w' o';
  so_pend : pend w' c o' = pend w c o;
  so_reg : reg w' o' = true → reg w o = true
}.

Lemma obj_inv_same ex w w' c o o' : same_obj w w' c o o' → obj_inv ex w c o → obj_inv ex w' c o'.
Proof.
  intros [Hi Hst Hh Hn Hreg Hrem Hch Hp Hr] [I1 (k & Hk & I2) I3 I4 I5 I6 I7 I8 I9 I10 I11].
  assert (Hr' : reg w o = false → reg w' o' = false) by (destruct (reg w' o'); [rewrite Hr|]; done).
  pose proof Hi as [= _ Hname _ Hcc Hmc Hclc _ _].
  split; rewrite ?Hp, ?Hst, ?Hreg; try done.
  - auto.
  - exists k. rewrite Hh, Hname. split; [lia|done].
  - by rewrite Hclc.
  - by rewrite Hcc.
  - by rewrite Hmc.
  - by eapply ident_later.
  - intros Hin. destruct (I7 Hin). auto.
  - intros [?|?]; apply I9; auto.
  - intros Hno. eapply settled_reg; [by apply I11|]. unfold reg_but. case_decide; [done|]. left. auto.
Qed.

(** ** A step of one connection's code *)

(** What the code of a connection in state [st] queues. *)
Definition queues (st : State) (f : conn_fn (srv_call C)) : Prop :=
  harmless user_call f ∨ plain_this f = true ∧ st = kConnected.

Lemma queues_facts st fs : Forall (queues st) fs →
  (FnEstablish ∉ fs) ∧ (FnDestroy ∉ fs) ∧ (st ≠ kConnected → existsb rearms fs = false).
Proof.
  intros Hfs. rewrite Forall_forall in Hfs. split_and!.
  - intros [?|[? _]]%Hfs; done.
  - intros [?|[? _]]%Hfs; done.
  - intros Hst. apply not_true_iff_false. intros (f & Hin & Hf)%existsb_exists.
    apply list_elem_of_In, Hfs in Hin as [Hh|[_ ?]]; [|done]. by destruct f.
Qed.

Lemma state_step_disconnected s : state_step kDisconnected s → s = kDisconnected.
Proof. intros [->|[->|[? _]]]; done. Qed.

Definition with_view (x : ConnW) o : Obj :=
  mkObj (conn x) (ob_loop o) (sock x) (ob_fd o) (ob_local o) (ob_peer o).

Lemma leave_eq c x o : objs (usr x) !! c = Some o →
  leave c x = put_loop (ob_loop o) (lp x) (put_obj c (with_view x o) (usr x)).
Proof. unfold leave. by intros ->. Qed.

(** The views of an object in a world where its loop and itself were replaced. *)
Lemma views_step w c o (x : ConnW) c2 o2 l :
  usr x = w → objs w !! c = Some o → loops w !! ob_loop o = Some l →
  objs (leave c x) !! c2 = Some o2 →
  (c2 = c ∧ o2 = with_view x o) ∨ (c2 ≠ c ∧ objs w !! c2 = Some o2).
Proof.
  intros Hu Ho Hl. rewrite (leave_eq _ _ o) by by rewrite Hu. rewrite Hu. simpl.
  intros [[<- <-]|[Hne ?]]%lookup_insert_Some; [by left|by right].
Qed.

Lemma leave_loops w c o (x : ConnW) la :
  usr x = w → objs w !! c = Some o →
  loops (leave c x) !! la = if decide (la = ob_loop o) then Some (lp x) else loops w !! la.
Proof.
  intros Hu Ho. rewrite (leave_eq _ _ o) by by rewrite Hu. rewrite Hu. simpl.
  case_decide as Heq; [subst; by rewrite lookup_insert_eq|by rewrite lookup_insert_ne].
Qed.

Lemma leave_rest w c o (x : ConnW) :
  usr x = w → objs w !! c = Some o → srv (leave c x) = srv w ∧ acceptor (leave c x) = acceptor w ∧
  skern (leave c x) = skern w.
Proof. intros Hu Ho. rewrite (leave_eq _ _ o) by by rewrite Hu. by rewrite Hu. Qed.

Lemma leave_obj w c o (x : ConnW) :
  usr x = w → objs w !! c = Some o → objs (leave c x) !! c = Some (with_view x o).
Proof.
  intros Hu Ho. rewrite (leave_eq _ _ o) by by rewrite Hu. simpl. apply lookup_insert_eq.
Qed.

Lemma remove_pending_step r ok w c o l (x : ConnW) c2 :
  objs w !! c = Some o → loops w !! ob_loop o = Some l →
  quiet (SfConn c) r ok (mkW (ob_conn o) l (ob_sock o) w) x →
  remove_pending (leave c x) c2 → remove_pending w c2.
Proof.
  intros Ho Hl Hq (l2 & Hl2 & Hin). pose proof (q_usr _ _ _ _ _ Hq) as Hu. simpl in Hu.
  destruct (leave_rest w c o x Hu Ho) as (Hs & _). rewrite (leave_loops w c o) in Hl2 by done.
  rewrite Hs in Hl2. case_decide as Heq; [|by exists l2].
  injection Hl2 as <-. destruct (q_pending _ _ _ _ _ Hq) as (fs & Hp & _). simpl in Hp.
  rewrite Hp, elem_of_app in Hin. destruct Hin as [Hin|(f & ? & _)%list_elem_of_fmap]; [|done].
  exists l. by rewrite Heq.
Qed.

(** Another connection in the same world. *)
Lemma other_step ex r ok w c o l (x : ConnW) c2 o2 :
  srv_inv ex w → objs w !! c = Some o → loops w !! ob_loop o = Some l →
  quiet (SfConn c) r ok (mkW (ob_conn o) l (ob_sock o) w) x →
  c2 ≠ c → objs w !! c2 = Some o2 → same_obj w (leave c x) c2 o2 o2.
Proof.
  intros Hinv Ho Hl Hq Hne Ho2. pose proof (q_usr _ _ _ _ _ Hq) as Hu. simpl in Hu.
  destruct (leave_rest w c o x Hu Ho) as (Hs & _).
  assert (Hch : ob_loop o2 = ob_loop o → rt_channel (lp x) (channel_ (ob_conn o2)) = rt_channel l (channel_ (ob_conn o2))).
  { intros Heq. apply (q_others _ _ _ _ _ Hq). intros Hc. apply Hne. by eapply (si_chans ex w Hinv). }
  split; try done.
  - by rewrite Hs.
  - by rewrite Hs.
  - unfold in_registry. by rewrite Hs.
  - by eapply remove_pending_step.
  - intros (l2 & Hl2 & Hs2). unfold has_chan. rewrite (leave_loops w c o) by done.
    case_decide as Heq; [|by exists l2]. exists (lp x). split; [done|]. rewrite Hch by done. congruence.
  - unfold pend. rewrite (leave_loops w c o) by done. case_decide as Heq; [|done]. rewrite Heq, Hl.
    destruct (q_pending _ _ _ _ _ Hq) as (fs & Hp & _). simpl in Hp. rewrite (fns_app c l fs) by done.
    rewrite (proj2 (Z.eqb_neq c c2)) by done. apply app_nil_r.
  - unfold reg. rewrite (leave_loops w c o) by done. case_decide as Heq; [|done]. rewrite Heq, Hl.
    unfold rt_registered. by rewrite Hch.
Qed.

(** The connection itself. *)
Lemma own_step ex r w c o l (x : ConnW) :
  srv_inv ex w → objs w !! c = Some o → loops w !! ob_loop o = Some l →
  quiet (SfConn c) r (queues (state_ (ob_conn o))) (mkW (ob_conn o) l (ob_sock o) w) x →
  (FnEstablish ∉ pend w c o) →
  (r = true → in_registry w c o ∨ FnDestroy ∈ pend w c o) →
  obj_inv ex (leave c x) c (with_view x o).
Proof.
  intros Hinv Ho Hl Hq Hest Hr. pose proof (q_usr _ _ _ _ _ Hq) as Hu. simpl in Hu.
  destruct (leave_rest w c o x Hu Ho) as (Hs & _).
  destruct (si_obj ex w Hinv c o Ho) as [I1 I2 I3 I4 I5 I6 I7 I8 I9 I10 I11].
  pose proof (q_ident _ _ _ _ _ Hq) as Hi. simpl in Hi.
  pose proof Hi as [= _ Hname Hchan Hcc Hmc Hclc _ _].
  destruct (q_pending _ _ _ _ _ Hq) as (fs & Hp & Hfs). simpl in Hp.
  destruct (queues_facts _ _ Hfs) as (Hfe & Hfd & Hfr).
  assert (Hpend : pend (leave c x) c (with_view x o) = pend w c o ++ fs).
  { unfold pend. rewrite (leave_loops w c o) by done. simpl. rewrite decide_True, Hl by done.
    rewrite (fns_app c l fs) by done. by rewrite Z.eqb_refl. }
  assert (Hreg : r = true ∨ (reg (leave c x) (with_view x o) = true → reg w o = true)).
  { unfold reg. rewrite (leave_loops w c o) by done. simpl. rewrite decide_True, Hl by done.
    rewrite Hchan. exact (q_reg _ _ _ _ _ Hq). }
  assert (Hin : in_registry (leave c x) c (with_view x o) ↔ in_registry w c o).
  { unfold in_registry. by rewrite Hs; simpl; rewrite Hname. }
  assert (Hnest : FnEstablish ∉ pend w c o ++ fs) by (rewrite elem_of_app; tauto).
  pose proof (q_state _ _ _ _ _ Hq) as Hst. simpl in Hst.
  split; rewrite ?Hpend, ?Hin, ?Hs; simpl.
  - destruct I1 as (l2 & Hl2 & Hs2). exists (lp x). rewrite (leave_loops w c o) by done. simpl.
    rewrite decide_True by done. split; [done|]. rewrite Hchan. apply (q_chan _ _ _ _ _ Hq). simpl.
    assert (l2 = l) as -> by congruence. done.
  - by rewrite Hname.
  - by rewrite Hclc.
  - by rewrite Hcc.
  - by rewrite Hmc.
  - by eapply ident_later.
  - done.
  - intros Hin'. apply Hnest. destruct (pend w c o ++ fs); [done|]. by right.
  - intros Hcl. destruct I9 as [Hd _].
    { destruct Hcl as [?|?]; [by left|right]. by eapply remove_pending_step. }
    rewrite Hd in Hst. split; [by apply state_step_disconnected|done].
  - rewrite elem_of_app. tauto.
  - intros Hno. destruct (I9 (or_introl Hno)) as [Hd _].
    apply settled_app; [|apply Hfr; by rewrite Hd].
    eapply settled_reg; [by apply I11|]. unfold reg_but. case_decide; [done|].
    intros Hr'. destruct Hreg as [->|Hreg]; [|left; auto].
    destruct (Hr eq_refl); [done|by right].
Qed.

Lemma leave_inv ex r w c o l (x : ConnW) :
  srv_inv ex w → objs w !! c = Some o → loops w !! ob_loop o = Some l →
  quiet (SfConn c) r (queues (state_ (ob_conn o))) (mkW (ob_conn o) l (ob_sock o) w) x →
  (FnEstablish ∉ pend w c o) →
  (r = true → in_registry w c o ∨ FnDestroy ∈ pend w c o) →
  srv_inv ex (leave c x).
Proof.
  intros Hinv Ho Hl Hq Hest Hr. pose proof (q_usr _ _ _ _ _ Hq) as Hu. simpl in Hu.
  destruct (leave_rest w c o x Hu Ho) as (Hs & Ha & _).
  pose proof (q_ident _ _ _ _ _ Hq) as Hi. simpl in Hi. pose proof Hi as [= _ Hname Hchan _ _ _ _ _].
  (* every object has a counterpart with the same loop, name and channel *)
  assert (Hback : ∀ c2 o2, objs (leave c x) !! c2 = Some o2 → ∃ o3, objs w !! c2 = Some o3 ∧
    ob_loop o3 = ob_loop o2 ∧ TcpConnection.name_ (ob_conn o3) = TcpConnection.name_ (ob_conn o2) ∧
    channel_ (ob_conn o3) = channel_ (ob_conn o2)).
  { intros c2 o2 Ho2. destruct (views_step w c o x c2 o2 l Hu Ho Hl Ho2) as [[-> ->]|[_ ?]]; [|by exists o2].
    exists o. simpl. by rewrite Hname, Hchan. }
  assert (Hforth : ∀ c2 o3, objs w !! c2 = Some o3 → ∃ o2, objs (leave c x) !! c2 = Some o2 ∧
    ob_loop o2 = ob_loop o3 ∧ TcpConnection.name_ (ob_conn o2) = TcpConnection.name_ (ob_conn o3)).
  { intros c2 o3 Ho3. rewrite (leave_eq c x o) by by rewrite Hu. rewrite Hu. simpl.
    destruct (decide (c2 = c)) as [->|Hne].
    - rewrite lookup_insert_eq. assert (o3 = o) as -> by congruence. by exists (with_view x o).
    - rewrite lookup_insert_ne by done. by exists o3. }
  assert (Hfn : ∀ la g, fn_ok w la g → fn_ok (leave c x) la g).
  { intros la [c2 f| |c2]; simpl; rewrite ?Hs; [|done|].
    - intros [(o3 & Ho3 & Hla) Hf]. split; [|done]. destruct (Hforth c2 o3 Ho3) as (o2 & ? & ? & _).
      exists o2. split; [done|congruence].
    - intros [? [o3 Ho3]]. split; [done|]. destruct (Hforth c2 o3 Ho3) as (o2 & ? & _). by exists o2. }
  destruct Hinv as [J1 J2 J3 J4 J5 J6 J7 J8 J9].
  pose proof (Build_srv_inv ex w J1 J2 J3 J4 J5 J6 J7 J8 J9) as Hinv.
  split; rewrite ?Hs, ?Ha; try done.
  - intros n c2 Hn. destruct (J3 n c2 Hn) as (o3 & Ho3 & Hn3).
    destruct (Hforth c2 o3 Ho3) as (o2 & ? & _ & Hn2). exists o2. split; [done|congruence].
  - intros c2 o2 Ho2. destruct (views_step w c o x c2 o2 l Hu Ho Hl Ho2) as [[-> ->]|[Hne Ho3]].
    + by eapply own_step.
    + eapply obj_inv_same; [by eapply other_step|by apply J4].
  - intros c1 c2 o1 o2 (o3 & Ho3 & _ & <- & _)%Hback (o4 & Ho4 & _ & <- & _)%Hback. by apply J5.
  - intros c1 c2 o1 o2 (o3 & Ho3 & <- & _ & <-)%Hback (o4 & Ho4 & <- & _ & <-)%Hback. by apply J6.
  - destruct J7 as (lb & Hlb & Hc). rewrite (leave_loops w c o) by done. case_decide as Heq; [|by exists lb].
    exists (lp x). split; [done|]. assert (lb = l) as -> by congruence.
    rewrite (q_others _ _ _ _ _ Hq); [done|]. intros Heq2. by apply (J8 c o Ho (eq_sym Heq)).
  - intros c2 o2 (o3 & Ho3 & <- & _ & <-)%Hback. exact (J8 c2 o3 Ho3).
  - intros la l2 g. rewrite (leave_loops w c o) by done. case_decide as Heq; [|intros; by eapply Hfn, J9].
    intros [= <-]. destruct (q_pending _ _ _ _ _ Hq) as (fs & Hp & Hfs). simpl in Hp. rewrite Hp, elem_of_app.
    intros [Hin|(f & -> & Hin)%list_elem_of_fmap]; [apply Hfn; apply (J9 la l g); [congruence|done]|].
    split.
    + exists (with_view x o). split; [by eapply leave_obj|done].
    + rewrite Forall_forall in Hfs. destruct (Hfs f Hin) as [Hh|[Hh _]]; by destruct f.
Qed.

(** A view that is put back unchanged. *)
Lemma leave_enter c w (x : ConnW) : enter c w = Ok x → leave c x = w ∧ usr x = w.
Proof.
  intros (o & Ho & (l & Hl & [= <-])%bind_Ok_inv)%bind_Ok_inv. split; [|done].
  unfold obj_at in Ho. destruct (objs w !! c) as [o'|] eqn:E; [|done]. injection Ho as ->.
  unfold loop_at in Hl. destruct (loops w !! ob_loop o) as [l'|] eqn:E2; [|done]. injection Hl as ->.
  unfold leave. simpl. rewrite E. destruct w, o. unfold put_loop, put_obj, set_loops, set_objs. simpl in *.
  by rewrite !insert_id.
Qed.

Lemma enter_inv c w (x : ConnW) : enter c w = Ok x →
  ∃ o l, objs w !! c = Some o ∧ loops w !! ob_loop o = Some l ∧ x = mkW (ob_conn o) l (ob_sock o) w.
Proof.
  intros (o & Ho & (l & Hl & [= <-])%bind_Ok_inv)%bind_Ok_inv.
  unfold obj_at in Ho. destruct (objs w !! c) as [o'|] eqn:E; [|done]. injection Ho as ->.
  unfold loop_at in Hl. destruct (loops w !! ob_loop o) as [l'|] eqn:E2; [|done]. injection Hl as ->.
  eauto.
Qed.

(** ** A change of the pending functors of one loop *)
Section pending.
Context (w : World) (la : addr) (l l' : L).
Context (Hl : loops w !! la = Some l) (Hch : ∀ a, rt_channel l' a = rt_channel l a).

Lemma put_loops la' : loops (put_loop la l' w) !! la' = if decide (la' = la) then Some l' else loops w !! la'.
Proof. simpl. case_decide as Heq; [subst; by rewrite lookup_insert_eq|by rewrite lookup_insert_ne]. Qed.

Lemma pending_chan o : has_chan w o → has_chan (put_loop la l' w) o.
Proof.
  intros (l2 & Hl2 & Hs). unfold has_chan. rewrite put_loops. case_decide as Heq; [|by exists l2].
  exists l'. split; [done|]. rewrite Hch. rewrite Heq in Hl2. assert (l2 = l) as -> by congruence. done.
Qed.

Lemma pending_reg o : reg (put_loop la l' w) o = reg w o.
Proof.
  unfold reg. rewrite put_loops. case_decide as Heq; [|done]. rewrite Heq, Hl. unfold rt_registered.
  by rewrite Hch.
Qed.

Lemma pending_pend c o :
  pend (put_loop la l' w) c o = if decide (ob_loop o = la) then fns c l' else pend w c o.
Proof. unfold pend. rewrite put_loops. by case_decide. Qed.

Lemma pending_remove c :
  remove_pending (put_loop la l' w) c → (SfRemove c ∈ rt_pending l' → SfRemove c ∈ rt_pending l) →
  remove_pending w c.
Proof.
  intros (l2 & Hl2 & Hin) Hr. rewrite put_loops in Hl2. simpl in Hl2. case_decide as Heq; [|by exists l2].
  injection Hl2 as <-. exists l. rewrite Heq. auto.
Qed.

Lemma pending_same c o :
  (ob_loop o = la → fns c l' = fns c l) → (SfRemove c ∈ rt_pending l' → SfRemove c ∈ rt_pending l) →
  same_obj w (put_loop la l' w) c o o.
Proof.
  intros Hf Hr. split; try done.
  - intros ?. by eapply pending_remove.
  - apply pending_chan.
  - rewrite pending_pend. case_decide as Heq; [|done]. rewrite Hf by done. unfold pend. by rewrite Heq, Hl.
  - by rewrite pending_reg.
Qed.

Lemma pending_inv ex ex' :
  srv_inv ex w → (∀ g, g ∈ rt_pending l' → fn_ok w la g) →
  (∀ c o, objs w !! c = Some o → obj_inv ex w c o → obj_inv ex' (put_loop la l' w) c o) →
  srv_inv ex' (put_loop la l' w).
Proof.
  intros [J1 J2 J3 J4 J5 J6 J7 J8 J9] Hg Hobj. split; try done.
  - intros c o Ho. by apply Hobj, J4.
  - destruct J7 as (lb & Hlb & Hc). rewrite put_loops. simpl. case_decide as Heq; [|by exists lb].
    exists l'. split; [done|]. rewrite Hch. rewrite Heq in Hlb. assert (lb = l) as -> by congruence. done.
  - intros la2 l2 g. rewrite put_loops. case_decide as Heq; [|apply J9].
    intros [= <-] Hin. rewrite Heq. by apply Hg.
Qed.
End pending.

(** The first functor of a loop is taken out of its queue. *)
Lemma take_inv w la l l' g :
  srv_inv None w → loops w !! la = Some l → rt_take l = Some (g, l') →
  (∀ a, rt_channel l' a = rt_channel l a) ∧
  rt_pending l = g :: rt_pending l' ∧ fn_ok w la g ∧
  srv_inv (match g with SfConn c FnDestroy => Some c | _ => None end) (put_loop la l' w).
Proof.
  intros Hinv Hl Ht. pose proof (frame_take l) as Hf. destruct (rt_pending l) as [|g2 r] eqn:Hp; [congruence|].
  destruct Hf as (l2 & Ht2 & Hp2 & Hch & _). rewrite Ht in Ht2. injection Ht2 as <- <-.
  assert (Hsub : ∀ g', g' ∈ rt_pending l' → g' ∈ rt_pending l) by (rewrite Hp, Hp2; by right).
  split_and!; [done|by rewrite Hp2|eapply (si_fns None w Hinv la l); [done|rewrite Hp; by left]|].
  eapply pending_inv; [done|done|exact Hinv|intros g' Hg'; by eapply (si_fns None w Hinv la l), Hsub|].
  intros c o Ho [I1 I2 I3 I4 I5 I6 I7 I8 I9 I10 I11].
  assert (Hfns : fns c l = match fn_of c g with Some f => f :: fns c l' | None => fns c l' end).
  { unfold fns. rewrite Hp, Hp2. simpl. by destruct (fn_of c g). }
  assert (Hcases : (ob_loop o ≠ la ∨ fn_of c g = None) ∧ pend (put_loop la l' w) c o = pend w c o ∨
    (∃ f, g = SfConn c f ∧ pend w c o = f :: pend (put_loop la l' w) c o)).
  { rewrite (pending_pend w la l'). case_decide as Heq; [|left; split; [by left|done]].
    destruct (fn_of c g) as [f|] eqn:Ef.
    - right. exists f. unfold pend. rewrite Heq, Hl, Hfns. split; [|done].
      destruct g as [c' f'| |]; simpl in Ef; try done. destruct (Z.eqb_spec c' c); by simplify_eq.
    - left. split; [by right|]. unfold pend. by rewrite Heq, Hl, Hfns. }
  assert (Hrem : remove_pending (put_loop la l' w) c → remove_pending w c).
  { intros Hr. eapply pending_remove; [done|exact Hr|]. apply Hsub. }
  assert (Hin : ∀ f, f ∈ pend (put_loop la l' w) c o → f ∈ pend w c o).
  { intros f. destruct Hcases as [[_ ->]|(f' & _ & ->)]; [done|]. by right. }
  split; try done.
  - by eapply pending_chan.
  - rewrite (pending_reg w la l l') by done. auto.
  - intros Hin'. apply I8. destruct Hcases as [[_ <-]|(f & _ & ->)]; [done|]. simpl.
    destruct (pend (put_loop la l' w) c o); [done|]. by right.
  - intros Hcl. destruct I9 as [? Hne]; [destruct Hcl as [?|?]; [by left|right; auto]|].
    split; [done|]. intros ?. by apply Hne, Hin.
  - intros ?. by apply I10, Hin.
  - intros Hno. specialize (I11 Hno). unfold reg_but in *. rewrite (pending_reg w la l l') by done.
    rewrite (decide_False (P := None = Some c)) in I11 by done.
    destruct Hcases as [[Hor ->]|(f & -> & Heq)].
    + eapply settled_reg; [exact I11|]. case_decide; [done|by left].
    + rewrite Heq in I11. assert (f = FnDestroy ∨ f ≠ FnDestroy) as [->|Hf] by (destruct f; (by left) || by right).
      * rewrite decide_True by done.
        destruct I11 as [(p & q & Hpq & Hq)|[_ Hq]]; [|by right].
        destruct p as [|f p]; simplify_eq/=; [by right|]. left. by exists p, q.
      * replace (match f with FnDestroy => _ | _ => _ end) with (@None addr) by by destruct f.
        rewrite decide_False by done. by eapply settled_cons.
Qed.

(** A functor is queued in one loop. *)
Lemma queue_in_inv la tid g w w' :
  queue_in la tid g w = Ok w' →
  ∃ l, loops w !! la = Some l ∧ w' = put_loop la (rt_queueInLoop tid g l) w.
Proof.
  intros (l & Hl & [= <-])%bind_Ok_inv. unfold loop_at in Hl.
  destruct (loops w !! la) as [l2|] eqn:E; [|done]. injection Hl as ->. by exists l.
Qed.

Lemma queue_inv ex la tid g l w :
  srv_inv ex w → loops w !! la = Some l → fn_ok w la g →
  (∀ c o, objs w !! c = Some o → obj_inv ex w c o →
     fn_of c g = None ∧ g ≠ SfRemove c ∨ obj_inv ex (put_loop la (rt_queueInLoop tid g l) w) c o) →
  srv_inv ex (put_loop la (rt_queueInLoop tid g l) w).
Proof.
  intros Hinv Hl Hg Hobj. destruct (frame_queue tid g l) as (Hp & Hch & _).
  eapply pending_inv; [done|done|exact Hinv| |].
  - intros g'. rewrite Hp, elem_of_app. intros [Hin| ->%list_elem_of_singleton]; [|done].
    by eapply (si_fns ex w Hinv la l).
  - intros c o Ho Hi. destruct (Hobj c o Ho Hi) as [[Hf Hr]|?]; [|done].
    eapply obj_inv_same; [|exact Hi]. apply (pending_same w la l); [done|done| |].
    + intros _. unfold fns. rewrite Hp, omap_app. simpl. rewrite Hf. apply app_nil_r.
    + rewrite Hp, elem_of_app. intros [?|?%list_elem_of_singleton]; [done|]. by subst.
Qed.

(** *** Removing a connection *)
Lemma removeConnectionInLoop_inv ex tid c o w w' :
  srv_inv ex w → objs w !! c = Some o → state_ (ob_conn o) = kDisconnected →
  (FnEstablish ∉ pend w c o) → removeConnectionInLoop tid c w = Ok w' → srv_inv ex w'.
Proof.
  intros Hinv Ho Hst Hest (? & _ & (o2 & Ho2 & Hrun)%bind_Ok_inv)%bind_Ok_inv.
  unfold obj_at in Ho2. rewrite Ho in Ho2. injection Ho2 as <-.
  apply queue_in_inv in Hrun as (l & Hl & ->). simpl in Hl.
  set (nm := TcpConnection.name_ (ob_conn o)) in *.
  set (w1 := set_srv (set_connections (map_erase nm (connections_ (srv w))) (srv w)) w) in *.
  destruct (frame_queue tid (SfConn c FnDestroy) l) as (Hp & Hch & _).
  set (l' := rt_queueInLoop tid (SfConn c FnDestroy) l) in *.
  destruct Hinv as [J1 J2 J3 J4 J5 J6 J7 J8 J9].
  assert (Hloops : ∀ la, loops (put_loop (ob_loop o) l' w1) !! la = if decide (la = ob_loop o) then Some l' else loops w !! la).
  { intros la. by rewrite (put_loops w1 (ob_loop o) l'). }
  assert (Hother : ∀ c2 o2, c2 ≠ c → objs w !! c2 = Some o2 → same_obj w (put_loop (ob_loop o) l' w1) c2 o2 o2).
  { intros c2 o2 Hne Ho2.
    assert (Hs : same_obj w1 (put_loop (ob_loop o) l' w1) c2 o2 o2).
    { apply (pending_same w1 (ob_loop o) l); [done|done| |].
      - intros _. rewrite (fns_app c l [FnDestroy]) by done. rewrite (proj2 (Z.eqb_neq c c2)) by done. apply app_nil_r.
      - rewrite Hp, elem_of_app. intros [?|?%list_elem_of_singleton]; done. }
    destruct Hs as [S1 S2 S3 S4 S5 S6 S7 S8 S9]. split; try done.
    rewrite S5. unfold in_registry. simpl. rewrite map_find_erase_ne; [done|done|].
    intros Heq. apply Hne. by eapply J5. }
  pose proof (J4 c o Ho) as [I1 I2 I3 I4 I5 I6 I7 I8 I9 I10 I11].
  split; try done.
  - by apply map_erase_sorted.
  - intros n c2 Hn. simpl in Hn. apply J3. destruct (decide (n = nm)) as [->|Hne].
    + by rewrite map_find_erase_eq in Hn.
    + by rewrite map_find_erase_ne in Hn.
  - intros c2 o2 Ho2. destruct (decide (c2 = c)) as [->|Hne].
    2: { eapply obj_inv_same; [by apply Hother|by apply J4]. }
    assert (o2 = o) as -> by (simpl in Ho2; congruence).
    assert (Hpend : pend (put_loop (ob_loop o) l' w1) c o = pend w c o ++ [FnDestroy]).
    { rewrite (pending_pend w1), decide_True by done. unfold pend. rewrite Hl.
      rewrite (fns_app c l [FnDestroy]) by done. by rewrite Z.eqb_refl. }
    assert (Hno : ¬ in_registry (put_loop (ob_loop o) l' w1) c o).
    { unfold in_registry. simpl. fold nm. by rewrite map_find_erase_eq. }
    assert (Hne : FnEstablish ∉ pend w c o ++ [FnDestroy]).
    { rewrite elem_of_app. intros [?|?%list_elem_of_singleton]; done. }
    split; rewrite ?Hpend; try done.
    + by apply (pending_chan w1 (ob_loop o) l l').
    + intros Hin. apply Hne. destruct (pend w c o ++ [FnDestroy]); [done|]. by right.
    + intros _. apply settled_destroy.
  - destruct J7 as (lb & Hlb & Hc). rewrite Hloops. simpl. case_decide as Heq; [|by exists lb].
    exists l'. split; [done|]. rewrite Hch. assert (lb = l) as -> by congruence. done.
  - intros la2 l2 g. rewrite Hloops. case_decide as Heq; [|apply J9].
    intros [= <-]. rewrite Hp, elem_of_app. intros [Hin| ->%list_elem_of_singleton].
    + rewrite Heq. by apply (J9 (ob_loop o) l).
    + split; [|done]. by exists o.
Qed.

Lemma removeConnection_inv ex tid c o w w' :
  srv_inv ex w → objs w !! c = Some o → state_ (ob_conn o) = kDisconnected →
  (FnEstablish ∉ pend w c o) → removeConnection tid c w = Ok w' → srv_inv ex w'.
Proof.
  intros Hinv Ho Hst Hest. unfold removeConnection. destruct (in_base tid w).
  { by eapply removeConnectionInLoop_inv. }
  intros (l & Hl & ->)%queue_in_inv. apply queue_inv; [done|done|split; [done|by eexists]|].
  intros c2 o2 Ho2 Hi. destruct (decide (c2 = c)) as [->|Hne]; [right|left; split; [done|by intros [= ->]]].
  assert (o2 = o) as -> by congruence. destruct Hi as [I1 I2 I3 I4 I5 I6 I7 I8 I9 I10 I11].
  destruct (frame_queue tid (SfRemove (C := C) c) l) as (Hp & Hch & _).
  assert (Hpend : pend (put_loop (loop_ (srv w)) (rt_queueInLoop tid (SfRemove c) l) w) c o = pend w c o).
  { rewrite (pending_pend w). case_decide as Heq; [|done]. unfold pend. rewrite Heq, Hl.
    unfold fns. rewrite Hp, omap_app. apply app_nil_r. }
  split; rewrite ?Hpend; try done.
  - by apply (pending_chan w _ l).
  - intros Hno. unfold reg_but in *. rewrite (pending_reg w _ l) by done. by apply I11.
Qed.
End inv.
