(* ===== verification/ServerLife.v ===== *)
(** * ServerLife: every step of a running TcpServer keeps the invariant of ServerInv.v *)
From S2P Require Import Prelude StdMap Timestamp Inet SockKernel Channel Reactor TcpConnection ConnFrame TcpServer ServerInv.
From S2P Require Acceptor LoopPool.
Import Acceptor (Acceptor, mkAcceptor, AW, mkAW, acc, alp, kern, ausr).

Section life.
Context {C X S L F K U : Type} `{Socket S} `{SockKernel K} `{ReactorFrame L F (srv_fn C)}.
Abbreviation World := (SW C X S L K U).
Abbreviation ConnW := (W (srv_call C) X S L World).
Abbreviation Obj := (conn_obj (srv_call C) X S).
Context (user : C → Z → addr → cb_arg → World → outcome World).
(** The user's callbacks stay within the invariant: they use the public operations. *)
Context (user_ok : ∀ u tid c arg w w', srv_inv None w → user u tid c arg w = Ok w' → srv_inv None w').
Implicit Types (w : World) (c la : addr) (o : Obj) (l : L).
Abbreviation srv_inv := (srv_inv (F := F)).

Lemma call_user_inv tid c (cb : srv_call C) arg (x y : ConnW) :
  user_call cb → srv_inv None (leave c x) → call user tid c cb arg x = Ok y → srv_inv None (leave c y).
Proof.
  intros Hcb Hinv (w & Hw & Hy)%bind_Ok_inv. destruct cb as [u|]; [|done].
  destruct (leave_enter c w y Hy) as [-> _]. by eapply user_ok.
Qed.

Lemma call_remove_inv ex tid c arg o (x y : ConnW) :
  srv_inv ex (leave c x) → objs (leave c x) !! c = Some o → state_ (ob_conn o) = kDisconnected →
  (FnEstablish ∉ pend (leave c x) c o) → call user tid c CallRemove arg x = Ok y → srv_inv ex (leave c y).
Proof.
  intros Hinv Ho Hst Hest (w & Hw & Hy)%bind_Ok_inv.
  destruct (leave_enter c w y Hy) as [-> _]. by eapply removeConnection_inv.
Qed.

Lemma harmless_queues st f : harmless user_call f → queues (C := C) st f.
Proof. by left. Qed.

Lemma quiet_queues r c st (x y : ConnW) :
  quiet (SfConn c) r (harmless user_call) x y → quiet (SfConn c) r (queues st) x y.
Proof. apply quiet_weaken. apply harmless_queues. Qed.

(** No functor establishes after a quiet step of a connection that none was to establish. *)
Lemma leave_pend r w c o l (x : ConnW) :
  objs w !! c = Some o → loops w !! ob_loop o = Some l →
  quiet (SfConn c) r (queues (state_ (ob_conn o))) (mkW (ob_conn o) l (ob_sock o) w) x →
  (FnEstablish ∉ pend w c o) → FnEstablish ∉ pend (leave c x) c (with_view x o).
Proof.
  intros Ho Hl Hq Hest. pose proof (q_usr _ _ _ _ _ Hq) as Hu. simpl in Hu.
  destruct (q_pending _ _ _ _ _ Hq) as (fs & Hp & Hfs). simpl in Hp.
  destruct (queues_facts _ _ Hfs) as (Hfe & _ & _).
  unfold pend in *. rewrite (leave_loops w c o) by done. simpl. rewrite Hl in Hest.
  rewrite decide_True, (fns_app c l fs), Z.eqb_refl by done. rewrite elem_of_app. tauto.
Qed.

(** *** handleClose *)
Lemma close_inv w c o l tid (z y : ConnW) :
  srv_inv None w → objs w !! c = Some o → loops w !! ob_loop o = Some l →
  (FnEstablish ∉ pend w c o) → in_registry w c o ∨ FnDestroy ∈ pend w c o →
  quiet (SfConn c) true (harmless user_call) (mkW (ob_conn o) l (ob_sock o) w) z →
  state_ (conn z) = kDisconnected →
  invoke (call user tid c) (closeCallback_ (conn z)) ArgNone z = Ok y → srv_inv None (leave c y).
Proof.
  intros Hinv Ho Hl Hest Hr Hq Hst Hcall.
  apply (quiet_queues _ _ (state_ (ob_conn o))) in Hq.
  assert (Hinvz : srv_inv None (leave c z)) by by eapply leave_inv.
  pose proof (q_usr _ _ _ _ _ Hq) as Hu.
  pose proof (q_ident _ _ _ _ _ Hq) as [= _ _ _ _ _ Hclc _ _]. simpl in Hclc.
  rewrite Hclc, (oi_close _ _ _ _ (si_obj _ w Hinv c o Ho)) in Hcall. simpl in Hcall.
  eapply call_remove_inv; [exact Hinvz| | | |exact Hcall].
  - by apply (leave_obj w c o).
  - done.
  - by eapply leave_pend.
Qed.

Lemma handleClose_inv tid w c o l (y : ConnW) :
  srv_inv None w → objs w !! c = Some o → loops w !! ob_loop o = Some l →
  (FnEstablish ∉ pend w c o) → in_registry w c o ∨ FnDestroy ∈ pend w c o →
  handleClose (call user tid c) tid (mkW (ob_conn o) l (ob_sock o) w) = Ok y → srv_inv None (leave c y).
Proof.
  intros Hinv Ho Hl Hest Hr Hrun.
  destruct (handleClose_quiet (SfConn c) user_call _ tid _ y Hrun) as (z & Hq & Hst & _ & Hcall).
  by apply (close_inv w c o l tid z y).
Qed.

Lemma not_registered w c o : (¬ in_registry w c o) ∨ in_registry w c o.
Proof. unfold in_registry. destruct (decide (map_find (TcpConnection.name_ (ob_conn o)) (connections_ (srv w)) = Some c)); auto. Qed.

(** A connection that is up is in the registry. *)
Lemma up_registered ex w c o :
  srv_inv ex w → objs w !! c = Some o → state_ (ob_conn o) ≠ kDisconnected → in_registry w c o.
Proof.
  intros Hinv Ho Hst. destruct (not_registered w c o) as [Hno|]; [|done].
  by destruct (oi_closing _ _ _ _ (si_obj _ w Hinv c o Ho) (or_introl Hno)).
Qed.

Lemma armed_registered w c o :
  srv_inv None w → objs w !! c = Some o → reg w o = true →
  (FnEstablish ∉ pend w c o) ∧ (in_registry w c o ∨ FnDestroy ∈ pend w c o).
Proof.
  intros Hinv Ho Hreg. pose proof (si_obj _ w Hinv c o Ho) as Hi. split.
  - intros Hin. destruct (oi_est _ _ _ _ Hi Hin) as [_ Hf]. congruence.
  - destruct (not_registered w c o) as [Hno|]; [|by left]. right.
    destruct (oi_settled _ _ _ _ Hi Hno) as [(p & q & -> & _)|[Hf _]].
    + apply elem_of_app. right. by left.
    + unfold reg_but in Hf. rewrite decide_False in Hf by done. congruence.
Qed.

(** *** An event of a connection whose channel the poller watches *)
Lemma io_event_inv tid w w' c o f t :
  srv_inv None w → objs w !! c = Some o → reg w o = true →
  io_event user tid c f t w = Ok w' → srv_inv None w'.
Proof.
  intros Hinv Ho Hreg (x & Hx & (y & Hrun & [= <-])%bind_Ok_inv)%bind_Ok_inv.
  destruct (enter_inv c w x Hx) as (o2 & l & Ho2 & Hl & ->). assert (o2 = o) as -> by congruence.
  destruct (armed_registered w c o Hinv Ho Hreg) as [Hest Hr].
  pose proof (si_obj _ w Hinv c o Ho) as Hi.
  destruct f; simpl in Hrun.
  - destruct (handleRead_quiet (SfConn c) user_call _ tid t _ y Hrun) as (z & Hq & Hcases).
    assert (Hqq : quiet (SfConn c) false (queues (state_ (ob_conn o))) (mkW (ob_conn o) l (ob_sock o) w) z)
      by by apply quiet_queues.
    assert (Hinvz : srv_inv None (leave c z)) by by eapply leave_inv.
    pose proof (q_usr _ _ _ _ _ Hq) as Hu. simpl in Hu.
    destruct Hcases as [Hcall|[Hclose| ->]]; [| |done].
    + pose proof (q_ident _ _ _ _ _ Hq) as [= _ _ _ _ Hmc _ _ _]. simpl in Hmc.
      destruct (TcpConnection.messageCallback_ (conn z)) as [cb|] eqn:Ecb; [|done]. simpl in Hcall.
      eapply call_user_inv; [|exact Hinvz|exact Hcall]. apply (oi_mc _ _ _ _ Hi). congruence.
    + destruct (handleClose_quiet (SfConn c) user_call _ tid z y Hclose) as (z2 & Hq2 & Hst & _ & Hcall).
      apply (close_inv w c o l tid z2 y); [done|done|done|done|done| |done|done].
      eapply quiet_trans; [by apply quiet_reg|done].
  - apply (quiet_handleWrite (SfConn c) user_call) in Hrun; [|apply Hi].
    apply (leave_inv None true w c o l); [done|done|done|by apply quiet_queues|done|by intros _].
  - by eapply handleClose_inv.
  - injection Hrun as <-. by destruct (leave_enter c w _ Hx) as [-> _].
Qed.

(** *** What user code does with a connection *)
Lemma user_op_inv tid w w' c o op :
  srv_inv None w → objs w !! c = Some o → on_conn c (run_user_op user tid c op) w = Ok w' → srv_inv None w'.
Proof.
  intros Hinv Ho (x & Hx & (y & Hrun & [= <-])%bind_Ok_inv)%bind_Ok_inv.
  destruct (leave_enter c w x Hx) as [Hw _].
  destruct (enter_inv c w x Hx) as (o2 & l & Ho2 & Hl & Heq). assert (o2 = o) as -> by congruence.
  pose proof (si_obj _ w Hinv c o Ho) as Hi.
  assert (Hconn : conn x = ob_conn o) by by rewrite Heq.
  assert (FnEstablish ∈ pend w c o ∨ FnEstablish ∉ pend w c o) as [Hin|Hest].
  { destruct (existsb (λ f, match f with FnEstablish => true | _ => false end) (pend w c o)) eqn:E.
    - left. apply existsb_exists in E as (f & Hf & ?). destruct f; try done. by apply list_elem_of_In.
    - right. intros Hin%list_elem_of_In. apply not_true_iff_false in E. apply E, existsb_exists. by eexists. }
  - destruct (oi_est _ _ _ _ Hi Hin) as [Hst _].
    assert (y = x) as ->; [|by rewrite Hw].
    destruct op; simpl in Hrun; unfold send, shutdown, forceClose in Hrun; rewrite Hconn, Hst in Hrun;
      simpl in Hrun; congruence.
  - subst x. destruct op; simpl in Hrun.
    + apply (send_quiet (SfConn c) user_call) in Hrun as [[_ ->]|[Hst Hq]]; [by rewrite Hw| |apply Hi].
      apply (leave_inv None true w c o l); [done|done|done| |done|].
      * eapply quiet_weaken; [|exact Hq]. intros f [?| ->]; [by left|by right].
      * intros _. left. eapply up_registered; [done|done|]. simpl in Hst. by rewrite Hst.
    + apply (shutdown_quiet (SfConn c) user_call) in Hrun as [[_ ->]|[Hst Hq]]; [by rewrite Hw|].
      apply (leave_inv None false w c o l); [done|done|done| |done|done].
      eapply quiet_weaken; [|exact Hq]. intros f [?| ->]; [by left|by right].
    + apply (forceClose_quiet (SfConn c) user_call) in Hrun.
      apply (leave_inv None false w c o l); [done|done|done|by apply quiet_queues|done|done].
Qed.

(** *** Establishing *)

Lemma leave_set_usr c w w1 o (x : ConnW) :
  usr x = w → objs w !! c = Some o → w1 = put_obj c (with_view (put_state kConnected (mkW (ob_conn o) (lp x) (ob_sock o) w)) o) w →
  leave c (set_usr w1 x) = leave c x.
Proof.
  intros Hu Ho ->. rewrite (leave_eq c x o) by by rewrite Hu. unfold leave. simpl. rewrite lookup_insert_eq.
  simpl. rewrite Hu. unfold put_obj, put_loop, set_loops, set_objs. simpl. by rewrite insert_insert_eq.
Qed.

(** An object is replaced by one with the same identity. *)
Lemma put_obj_inv w c o o1 :
  srv_inv None w → objs w !! c = Some o → ident (ob_conn o1) = ident (ob_conn o) → ob_loop o1 = ob_loop o →
  (obj_inv None w c o → obj_inv None (put_obj c o1 w) c o1) → srv_inv None (put_obj c o1 w).
Proof.
  intros [J1 J2 J3 J4 J5 J6 J7 J8 J9] Ho [= _ Hname Hchan _ _ _ _ _] Hloop Hown. set (w1 := put_obj c o1 w) in *.
  assert (Hback : ∀ c2 o2, objs w1 !! c2 = Some o2 → ∃ o3, objs w !! c2 = Some o3 ∧
    ob_loop o3 = ob_loop o2 ∧ TcpConnection.name_ (ob_conn o3) = TcpConnection.name_ (ob_conn o2) ∧
    channel_ (ob_conn o3) = channel_ (ob_conn o2) ∧ (c2 ≠ c → o3 = o2) ∧ (c2 = c → o2 = o1)).
  { intros c2 o2. simpl. intros [[<- <-]|[Hne Ho2]]%lookup_insert_Some.
    - exists o. by split_and!.
    - exists o2. by split_and!. }
  assert (Hforth : ∀ c2 o3, objs w !! c2 = Some o3 → ∃ o2, objs w1 !! c2 = Some o2 ∧
    ob_loop o2 = ob_loop o3 ∧ TcpConnection.name_ (ob_conn o2) = TcpConnection.name_ (ob_conn o3)).
  { intros c2 o3 Ho3. simpl. destruct (decide (c2 = c)) as [->|Hne].
    - exists o1. rewrite lookup_insert_eq. assert (o3 = o) as -> by congruence. by split_and!.
    - exists o3. by rewrite lookup_insert_ne. }
  split; try done.
  - intros n c2 Hn. destruct (J3 n c2 Hn) as (o3 & Ho3 & Hn3).
    destruct (Hforth c2 o3 Ho3) as (o2 & ? & _ & Hn2). exists o2. split; [done|congruence].
  - intros c2 o2 (o3 & Ho3 & _ & _ & _ & Hne & Heq)%Hback. destruct (decide (c2 = c)) as [->|Hc].
    + rewrite (Heq eq_refl). by apply Hown, J4.
    + rewrite <- (Hne Hc). specialize (J4 c2 o3 Ho3). by destruct J4.
  - intros c1 c2 o1' o2 (o3 & Ho3 & _ & <- & _)%Hback (o4 & Ho4 & _ & <- & _)%Hback. by apply J5.
  - intros c1 c2 o1' o2 (o3 & Ho3 & <- & _ & <- & _)%Hback (o4 & Ho4 & <- & _ & <- & _)%Hback. by apply J6.
  - intros c2 o2 (o3 & Ho3 & <- & _ & <- & _)%Hback. exact (J8 c2 o3 Ho3).
  - intros la l2 g Hla Hg. specialize (J9 la l2 g Hla Hg). destruct g as [c2 f| |c2]; simpl in *; try done.
    + destruct J9 as [(o3 & Ho3 & Hlo) Hf]. split; [|done].
      destruct (Hforth c2 o3 Ho3) as (o2 & ? & ? & _). exists o2. split; [done|congruence].
    + destruct J9 as [? [o3 Ho3]]. split; [done|]. destruct (Hforth c2 o3 Ho3) as (o2 & ? & _). by exists o2.
Qed.

(** The state changes to kConnected. *)
Lemma connected_inv w c o l :
  srv_inv None w → objs w !! c = Some o → loops w !! ob_loop o = Some l →
  (FnEstablish ∉ pend w c o) → in_registry w c o → ¬ remove_pending w c →
  srv_inv None (put_obj c (with_view (put_state kConnected (mkW (ob_conn o) l (ob_sock o) w)) o) w).
Proof.
  intros Hinv Ho Hl Hest Hreg Hrem. apply (put_obj_inv w c o); [done..|].
  intros [I1 I2 I3 I4 I5 I6 I7 I8 I9 I10 I11]. split; try done. intros [?|?]; done.
Qed.

(** Only the connection's data change. *)
Lemma data_inv w c o (x : ConnW) l :
  srv_inv None w → objs w !! c = Some o → loops w !! ob_loop o = Some l →
  lp x = l → usr x = w → ident (conn x) = ident (ob_conn o) → state_ (conn x) = state_ (ob_conn o) →
  srv_inv None (leave c x).
Proof.
  intros Hinv Ho Hl Hlp Hu Hid Hst. rewrite (leave_eq c x o) by by rewrite Hu.
  assert (put_loop (ob_loop o) (lp x) (put_obj c (with_view x o) (usr x)) = put_obj c (with_view x o) w) as ->.
  { rewrite Hu, Hlp. unfold put_loop, set_loops. simpl. rewrite insert_id by done. by destruct w. }
  apply (put_obj_inv w c o); [done..|]. pose proof Hid as [= _ Hname Hchan Hcc Hmc Hclc _ _].
  intros [I1 I2 I3 I4 I5 I6 I7 I8 I9 I10 I11].
  assert (Hreg : reg (put_obj c (with_view x o) w) (with_view x o) = reg w o).
  { unfold reg. simpl. by rewrite Hchan. }
  assert (Hin : in_registry (put_obj c (with_view x o) w) c (with_view x o) ↔ in_registry w c o).
  { unfold in_registry. simpl. by rewrite Hname. }
  split; rewrite ?Hin, ?Hreg; simpl; rewrite ?Hname, ?Hclc, ?Hcc, ?Hmc, ?Hst; try done.
  - unfold has_chan. simpl. by rewrite Hchan.
  - by eapply ident_later.
  - unfold reg_but. rewrite Hreg. done.
Qed.

Lemma establish_inv tid w c o l (y : ConnW) :
  srv_inv None w → objs w !! c = Some o → loops w !! ob_loop o = Some l →
  (FnEstablish ∉ pend w c o) → in_registry w c o → ¬ remove_pending w c →
  establishConnection (call user tid c) tid (mkW (ob_conn o) l (ob_sock o) w) = Ok y →
  srv_inv None (leave c y).
Proof.
  intros Hinv Ho Hl Hest Hreg Hrem Hrun.
  destruct (establish_quiet (SfConn c) user_call _ tid _ y Hrun) as (z & Hq & Hst & Hcall).
  set (x := mkW (ob_conn o) l (ob_sock o) w) in *.
  pose proof (connected_inv w c o l Hinv Ho Hl Hest Hreg Hrem) as Hinv1.
  set (o1 := with_view (put_state kConnected x) o) in *. set (w1 := put_obj c o1 w) in *.
  pose proof (q_usr _ _ _ _ _ Hq) as Hu. simpl in Hu.
  assert (Ho1 : objs w1 !! c = Some o1) by apply lookup_insert_eq.
  assert (Hq1 : quiet (SfConn c) true (harmless user_call) (mkW (ob_conn o1) l (ob_sock o1) w1) (set_usr w1 z)).
  { by destruct Hq. }
  assert (Hleave : leave c (set_usr w1 z) = leave c z).
  { apply (leave_set_usr c w w1 o z); [done|done|]. unfold w1, o1. f_equal. }
  assert (Hinvz : srv_inv None (leave c z)).
  { rewrite <- Hleave. apply (leave_inv None true w1 c o1 l); [done|done|done|by apply quiet_queues|done|].
    intros _. left. exact Hreg. }
  pose proof (q_ident _ _ _ _ _ Hq) as [= _ _ _ Hcc _ _ _ _]. simpl in Hcc.
  destruct (TcpConnection.connectionCallback_ (conn z)) as [cb|] eqn:Ecb; [|done]. simpl in Hcall.
  eapply call_user_inv; [|exact Hinvz|exact Hcall].
  apply (oi_cc _ _ _ _ (si_obj _ w Hinv c o Ho)). congruence.
Qed.

(** *** Running a functor that was taken from its queue *)
Lemma unexempt w c : srv_inv (Some c) w → (∀ o, objs w !! c = Some o → reg w o = false) → srv_inv None w.
Proof.
  intros [J1 J2 J3 J4 J5 J6 J7 J8 J9] Hreg. split; try done.
  intros c2 o2 Ho2. destruct (J4 c2 o2 Ho2) as [I1 I2 I3 I4 I5 I6 I7 I8 I9 I10 I11]. split; try done.
  intros Hno. unfold reg_but in *. rewrite decide_False by done. specialize (I11 Hno).
  case_decide as Heq; [|done]. injection Heq as ->. by rewrite (Hreg o2 Ho2).
Qed.

Lemma run_destroy_inv tid w c o l (y : ConnW) :
  srv_inv (Some c) w → objs w !! c = Some o → loops w !! ob_loop o = Some l →
  ¬ in_registry w c o →
  destoryConnection (call user tid c) tid (mkW (ob_conn o) l (ob_sock o) w) = Ok y →
  srv_inv None (leave c y).
Proof.
  intros Hinv Ho Hl Hno Hrun. pose proof (si_obj _ w Hinv c o Ho) as Hi.
  destruct (oi_closing _ _ _ _ Hi (or_introl Hno)) as [Hst Hest].
  apply (destory_quiet (SfConn c) user_call) in Hrun as (Hq & Hreg & _); [|simpl; by rewrite Hst].
  pose proof (q_usr _ _ _ _ _ Hq) as Hu. pose proof (q_ident _ _ _ _ _ Hq) as Hid.
  apply (unexempt _ c); [by apply (leave_inv (Some c) false w c o l); [..|by apply quiet_queues|done|]|].
  intros o2. rewrite (leave_obj w c o) by done. intros [= <-].
  unfold reg. rewrite (leave_loops w c o) by done. simpl. rewrite decide_True by done.
  apply ident_chan in Hid. simpl in Hid. by rewrite Hid.
Qed.

(** *** The acceptor *)
Lemma enter_acc_inv w x : enter_acc w = Ok x →
  ∃ l, loops w !! loop_ (srv w) = Some l ∧ x = mkAW (acceptor w) l (skern w) w.
Proof.
  intros (l & Hl & [= <-])%bind_Ok_inv. unfold loop_at in Hl.
  destruct (loops w !! loop_ (srv w)) as [l2|]; [|done]. injection Hl as ->. eauto.
Qed.

Lemma leave_enter_acc w x : enter_acc w = Ok x → leave_acc x = w.
Proof.
  intros (l & Hl & ->)%enter_acc_inv. unfold leave_acc. simpl. rewrite insert_id by done. by destruct w.
Qed.

(** What only concerns the acceptor's own channel. *)
Lemma acc_frame_inv w l l' a k :
  srv_inv None w → loops w !! loop_ (srv w) = Some l →
  Acceptor.acceptChannel_ a = Acceptor.acceptChannel_ (acceptor w) →
  (∀ b, b ≠ Acceptor.acceptChannel_ (acceptor w) → rt_channel l' b = rt_channel l b) →
  is_Some (rt_channel l' (Acceptor.acceptChannel_ (acceptor w))) → rt_pending l' = rt_pending l →
  srv_inv None (leave_acc (mkAW a l' k w)).
Proof.
  intros [J1 J2 J3 J4 J5 J6 J7 J8 J9] Hl Ha Hch Hac Hp. set (w' := leave_acc _).
  assert (Hloops : ∀ la, loops w' !! la = if decide (la = loop_ (srv w)) then Some l' else loops w !! la).
  { intros la. simpl. case_decide as Heq; [subst; by rewrite lookup_insert_eq|by rewrite lookup_insert_ne]. }
  split; try done.
  - intros c o Ho. eapply obj_inv_same; [|by apply J4].
    assert (Hc : ob_loop o = loop_ (srv w) → rt_channel l' (channel_ (ob_conn o)) = rt_channel l (channel_ (ob_conn o))).
    { intros Heq. apply Hch. by eapply J8. }
    split; try done.
    + intros (l2 & Hl2 & Hin). rewrite Hloops in Hl2. simpl in Hl2. rewrite decide_True in Hl2 by done.
      injection Hl2 as <-. exists l. by rewrite <- Hp.
    + intros (l2 & Hl2 & Hs). unfold has_chan. rewrite Hloops. case_decide as Heq; [|by exists l2].
      exists l'. split; [done|]. rewrite Hc by done. assert (l2 = l) as -> by congruence. done.
    + unfold pend. rewrite Hloops. case_decide as Heq; [|done]. rewrite Heq, Hl. unfold fns. by rewrite Hp.
    + unfold reg. rewrite Hloops. case_decide as Heq; [|done]. rewrite Heq, Hl. unfold rt_registered. by rewrite Hc.
  - exists l'. rewrite Hloops. simpl. rewrite decide_True by done. by rewrite Ha.
  - intros c o Ho. simpl. rewrite Ha. exact (J8 c o Ho).
  - intros la l2 g. rewrite Hloops. case_decide as Heq; [|apply J9].
    intros [= <-] Hg. rewrite Heq. apply (J9 _ l); [done|by rewrite <- Hp].
Qed.

Lemma acceptor_listen_inv tid w w' :
  srv_inv None w → acceptor_listen tid w = Ok w' → srv_inv None w'.
Proof.
  intros Hinv (x & (l & Hl & ->)%enter_acc_inv & (y & Hrun & [= <-])%bind_Ok_inv)%bind_Ok_inv.
  unfold Acceptor.listen in Hrun. apply bind_Ok_inv in Hrun as (? & _ & Hrun). simpl in Hrun.
  apply bind_Ok_inv in Hrun as (l' & Hch & [= <-]).
  destruct (frame_change reading_on tid _ l l' Hch) as (_ & Hs & _ & Ho & Hp & _).
  by apply (acc_frame_inv w l l').
Qed.

(** *** The next functor of a loop *)
Lemma run_next_inv tid la w w' :
  srv_inv None w → run_next user tid la w = Ok w' → srv_inv None w'.
Proof.
  intros Hinv (l & Hl & Hrun)%bind_Ok_inv. unfold loop_at in Hl.
  destruct (loops w !! la) as [l2|] eqn:Hla; [|done]. injection Hl as ->.
  destruct (rt_take l) as [[g l']|] eqn:Ht; [|by injection Hrun as <-].
  destruct (take_inv w la l l' g Hinv Hla Ht) as (Hch & Hp & Hok & Hinv1).
  set (w1 := put_loop la l' w) in *. destruct g as [c f| |c]; simpl in Hrun.
  2: { by eapply acceptor_listen_inv. }
  2: { destruct Hok as [-> [o Ho]]. pose proof (si_obj _ w Hinv c o Ho) as Hi.
       assert (Hcl : remove_pending w c) by (exists l; rewrite Hp; split; [done|by left]).
       destruct (oi_closing _ _ _ _ Hi (or_intror Hcl)) as [Hst Hest].
       eapply removeConnectionInLoop_inv; [exact Hinv1|exact Ho|done| |exact Hrun].
       unfold w1. rewrite (pending_pend w _ l'). case_decide as Heq; [|done].
       unfold pend in Hest. rewrite Heq, Hla in Hest. intros Hin. apply Hest.
       unfold fns in *. rewrite Hp. simpl. exact Hin. }
  destruct Hok as [(o & Ho & Hlo) Hf]. pose proof (si_obj _ w Hinv c o Ho) as Hi.
  assert (Hpend : pend w c o = f :: pend w1 c o).
  { unfold w1. rewrite (pending_pend w _ l'). rewrite decide_True by done. unfold pend. rewrite Hlo, Hla.
    unfold fns. rewrite Hp. simpl. by rewrite Z.eqb_refl. }
  assert (Hest : FnEstablish ∉ pend w1 c o).
  { pose proof (oi_est1 _ _ _ _ Hi) as He. by rewrite Hpend in He. }
  assert (Hl1 : loops w1 !! ob_loop o = Some l') by (rewrite Hlo; apply lookup_insert_eq).
  apply bind_Ok_inv in Hrun as (x & Hx & (y & Hrun & [= <-])%bind_Ok_inv).
  destruct (leave_enter c w1 x Hx) as [Hw1 _].
  destruct (enter_inv c w1 x Hx) as (o2 & l2 & Ho2 & Hl2 & ->).
  assert (o2 = o) as -> by (simpl in Ho2; congruence). assert (l2 = l') as -> by congruence.
  destruct f as [msg| | | | |cb|cb n]; simpl in Hrun.
  - apply (quiet_sendInLoop (SfConn c) user_call) in Hrun; [|apply Hi].
    apply (leave_inv None true w1 c o l'); [done|done|done|by apply quiet_queues|done|].
    intros _. destruct (not_registered w c o) as [Hno|]; [|by left]. right.
    pose proof (oi_settled _ _ _ _ Hi Hno) as Hs. rewrite Hpend in Hs.
    destruct Hs as [(p & q & Heq & _)|[_ Hq]]; [|done].
    destruct p as [|f p]; [done|]. injection Heq as _ Heq. rewrite Heq. apply elem_of_app. right. by left.
  - apply (quiet_shutdownInLoop (SfConn c) user_call) in Hrun.
    by apply (leave_inv None false w1 c o l'); [..|by apply quiet_queues|done|].
  - apply bind_Ok_inv in Hrun as (? & _ & Hrun). cbn [conn] in Hrun.
    destruct (_ || _) eqn:Hst; [|injection Hrun as <-; by rewrite Hw1].
    eapply handleClose_inv; [exact Hinv1|done|done|done| |exact Hrun]. left.
    apply (up_registered None w1 c o Hinv1 Ho). intros Heq. rewrite Heq in Hst. done.
  - destruct (oi_est _ _ _ _ Hi) as [Hst _]; [rewrite Hpend; by left|].
    eapply establish_inv; [exact Hinv1|done|done|done| | |exact Hrun].
    + apply (up_registered None w1 c o Hinv1 Ho). by rewrite Hst.
    + intros Hrem. destruct (oi_closing _ _ _ _ (si_obj _ w1 Hinv1 c o Ho) (or_intror Hrem)). congruence.
  - eapply run_destroy_inv; [exact Hinv1|done|done| |exact Hrun].
    apply (oi_destroy _ _ _ _ Hi). rewrite Hpend. by left.
  - eapply call_user_inv; [exact Hf| |exact Hrun]. by rewrite Hw1.
  - eapply call_user_inv; [exact Hf| |exact Hrun]. by rewrite Hw1.
Qed.

(** *** A new connection *)
Context (bind : srv_cb → F) (new_obj : World → addr) (new_chan : L → addr) (new_sock : Z → K → S).
(** The allocator returns addresses that are not in use. *)
Context (fresh_obj : ∀ w, objs w !! new_obj w = None) (fresh_chan : ∀ l, rt_channel l (new_chan l) = None).

Lemma conn_name_inj h k1 k2 : conn_name h k1 = conn_name h k2 → k1 = k2.
Proof. unfold conn_name. intros Heq%app_inv_head%app_inv_head. by apply to_string_inj. Qed.

(** A connection object [o] at the free address [c] is entered under the next name. *)
Record joins w w1 c o l (ch : Channel F) : Prop := {
  jn_free : objs w !! c = None;
  jn_objs : objs w1 = <[c := o]> (objs w);
  jn_loop : loops w !! ob_loop o = Some l;
  jn_fresh : rt_channel l (channel_ (ob_conn o)) = None;
  jn_loops : loops w1 = <[ob_loop o := rt_new_channel (channel_ (ob_conn o)) ch l]> (loops w);
  jn_status : status_ ch = kNew;
  jn_acc : acceptor w1 = acceptor w;
  jn_base : loop_ (srv w1) = loop_ (srv w);
  jn_host : hostPost_ (srv w1) = hostPost_ (srv w);
  jn_next : nextConnId_ (srv w1) = nextConnId_ (srv w) + 1;
  jn_name : TcpConnection.name_ (ob_conn o) = conn_name (hostPost_ (srv w)) (nextConnId_ (srv w));
  jn_conns : connections_ (srv w1) = map_set (TcpConnection.name_ (ob_conn o)) c (connections_ (srv w));
  jn_state : state_ (ob_conn o) = kConnecting;
  jn_close : closeCallback_ (ob_conn o) = Some CallRemove;
  jn_cc cb : TcpConnection.connectionCallback_ (ob_conn o) = Some cb → user_call cb;
  jn_mc cb : TcpConnection.messageCallback_ (ob_conn o) = Some cb → user_call cb;
  jn_later : later_ok user_call (ob_conn o)
}.

Section joins.
Context (w w1 : World) (c : addr) (o : Obj) (l : L) (ch : Channel F).
Context (Hinv : srv_inv None w) (Hn : nextConnId_ (srv w) + 1 < 2 ^ 31) (Hj : joins w w1 c o l ch).
Let l' := rt_new_channel (channel_ (ob_conn o)) ch l.

Lemma join_loops la : loops w1 !! la = if decide (la = ob_loop o) then Some l' else loops w !! la.
Proof.
  rewrite (jn_loops _ _ _ _ _ _ Hj). case_decide as Heq; [subst; by rewrite lookup_insert_eq|by rewrite lookup_insert_ne].
Qed.

Lemma join_channel a : a ≠ channel_ (ob_conn o) → rt_channel l' a = rt_channel l a.
Proof. destruct (frame_new (channel_ (ob_conn o)) ch l) as (_ & Ho & _). apply Ho. Qed.

Lemma join_pending : rt_pending l' = rt_pending l.
Proof. by destruct (frame_new (channel_ (ob_conn o)) ch l) as (_ & _ & Hp & _). Qed.

Lemma join_no_functor la l2 f : loops w !! la = Some l2 → f ∉ fns c l2.
Proof.
  intros Hl2 Hin%elem_fns. destruct (si_fns _ w Hinv la l2 _ Hl2 Hin) as [(o2 & Ho2 & _) _].
  rewrite (jn_free _ _ _ _ _ _ Hj) in Ho2. done.
Qed.

Lemma join_pend : pend w1 c o = [].
Proof.
  unfold pend. rewrite join_loops, decide_True by done. unfold fns. rewrite join_pending.
  change (fns c l = []). destruct (fns c l) as [|f r] eqn:E; [done|]. exfalso.
  apply (join_no_functor (ob_loop o) l f); [by apply Hj|]. rewrite E. by left.
Qed.

Lemma join_remove c2 : remove_pending w1 c2 → remove_pending w c2.
Proof.
  intros (l2 & Hl2 & Hin). rewrite join_loops, (jn_base _ _ _ _ _ _ Hj) in Hl2. case_decide as Heq; [|by exists l2].
  injection Hl2 as <-. rewrite join_pending in Hin. exists l. split; [|done]. rewrite Heq. apply Hj.
Qed.

Lemma join_not_removed : ¬ remove_pending w1 c.
Proof.
  intros (l2 & Hl2 & Hin)%join_remove. destruct (si_fns _ w Hinv _ _ _ Hl2 Hin) as [_ [o2 Ho2]].
  rewrite (jn_free _ _ _ _ _ _ Hj) in Ho2. done.
Qed.

Lemma join_reg : reg w1 o = false.
Proof.
  unfold reg. rewrite join_loops, decide_True by done. unfold rt_registered, l'.
  destruct (frame_new (channel_ (ob_conn o)) ch l) as (-> & _). rewrite (jn_status _ _ _ _ _ _ Hj).
  by rewrite bool_decide_eq_true_2.
Qed.

Lemma join_name_new c2 o2 : objs w !! c2 = Some o2 →
  TcpConnection.name_ (ob_conn o2) ≠ TcpConnection.name_ (ob_conn o).
Proof.
  intros Ho2. destruct (oi_name _ _ _ _ (si_obj _ w Hinv c2 o2 Ho2)) as (k & Hk & ->).
  rewrite (jn_name _ _ _ _ _ _ Hj). intros Heq%conn_name_inj. lia.
Qed.

Lemma join_registry : in_registry w1 c o.
Proof. unfold in_registry. rewrite (jn_conns _ _ _ _ _ _ Hj). apply map_find_set_eq. Qed.

Lemma join_chan_new o2 : has_chan w o2 → ob_loop o2 = ob_loop o → channel_ (ob_conn o2) ≠ channel_ (ob_conn o).
Proof.
  intros (l2 & Hl2 & Hs) Heq Hc. rewrite Heq, (jn_loop _ _ _ _ _ _ Hj) in Hl2. injection Hl2 as <-.
  rewrite Hc, (jn_fresh _ _ _ _ _ _ Hj) in Hs. by destruct Hs.
Qed.

Lemma join_other c2 o2 : objs w !! c2 = Some o2 → same_obj w w1 c2 o2 o2.
Proof.
  intros Ho2. pose proof (si_obj _ w Hinv c2 o2 Ho2) as Hi. pose proof (oi_chan _ _ _ _ Hi) as Hhas.
  assert (Hc : ob_loop o2 = ob_loop o → rt_channel l' (channel_ (ob_conn o2)) = rt_channel l (channel_ (ob_conn o2))).
  { intros Heq. apply join_channel. by apply join_chan_new. }
  pose proof (jn_loop _ _ _ _ _ _ Hj) as Hl.
  split; try done.
  - apply Hj.
  - rewrite (jn_next _ _ _ _ _ _ Hj). lia.
  - unfold in_registry. rewrite (jn_conns _ _ _ _ _ _ Hj). rewrite map_find_set_ne; [done|apply Hinv|]. apply not_eq_sym.
    by eapply join_name_new.
  - apply join_remove.
  - intros (l2 & Hl2 & Hs). unfold has_chan. rewrite join_loops. case_decide as Heq; [|by exists l2].
    exists l'. split; [done|]. rewrite Hc by done. assert (l2 = l) as -> by congruence. done.
  - unfold pend. rewrite join_loops. case_decide as Heq; [|done]. rewrite Heq, Hl. unfold fns. by rewrite join_pending.
  - unfold reg. rewrite join_loops. case_decide as Heq; [|done]. rewrite Heq, Hl. unfold rt_registered. by rewrite Hc.
Qed.

Lemma join_own : obj_inv None w1 c o.
Proof.
  pose proof join_pend as Hp. pose proof join_registry as Hreg. pose proof join_not_removed as Hrem.
  destruct Hinv as [_ Hnext _ _ _ _ _ _ _].
  split; rewrite ?Hp; simpl; try apply Hj; try by intros ?%elem_of_nil.
  - exists l'. rewrite join_loops, decide_True by done. split; [done|]. unfold l'.
    destruct (frame_new (channel_ (ob_conn o)) ch l) as (-> & _). by eexists.
  - exists (nextConnId_ (srv w)). rewrite (jn_next _ _ _ _ _ _ Hj), (jn_host _ _ _ _ _ _ Hj).
    split; [lia|apply Hj].
  - intros [?|?]; done.
  - done.
Qed.

Lemma join_inv : srv_inv None w1.
Proof.
  pose proof join_own as Hown. pose proof join_other as Hother. pose proof join_name_new as Hnames.
  pose proof join_chan_new as Hchans. pose proof (jn_loop _ _ _ _ _ _ Hj) as Hl.
  pose proof Hinv as [J1 J2 J3 J4 J5 J6 J7 J8 J9].
  assert (Hobjs : ∀ c2 o2, objs w1 !! c2 = Some o2 → (c2 = c ∧ o2 = o) ∨ (c2 ≠ c ∧ objs w !! c2 = Some o2)).
  { intros c2 o2. rewrite (jn_objs _ _ _ _ _ _ Hj).
    intros [[<- <-]|[Hne ?]]%lookup_insert_Some; [by left|by right]. }
  assert (Hold : ∀ c2 o2, objs w !! c2 = Some o2 → objs w1 !! c2 = Some o2).
  { intros c2 o2 Ho2. rewrite (jn_objs _ _ _ _ _ _ Hj), lookup_insert_ne; [done|]. intros <-.
    rewrite (jn_free _ _ _ _ _ _ Hj) in Ho2. done. }
  split.
  - rewrite (jn_conns _ _ _ _ _ _ Hj). by apply map_set_sorted.
  - rewrite (jn_next _ _ _ _ _ _ Hj). lia.
  - intros n c2. rewrite (jn_conns _ _ _ _ _ _ Hj).
    destruct (decide (n = TcpConnection.name_ (ob_conn o))) as [->|Hne].
    + rewrite map_find_set_eq. intros [= <-]. exists o. split; [|done].
      rewrite (jn_objs _ _ _ _ _ _ Hj). apply lookup_insert_eq.
    + rewrite map_find_set_ne by done. intros Hn2. destruct (J3 n c2 Hn2) as (o2 & ? & ?). exists o2. auto.
  - intros c2 o2 [[-> ->]|[_ Ho2]]%Hobjs; [done|]. eapply obj_inv_same; [by apply Hother|by apply J4].
  - intros c1 c2 o1 o2 [[-> ->]|[_ Ho1]]%Hobjs [[-> ->]|[_ Ho2]]%Hobjs Heq; [done|..|by eapply J5].
    + by destruct (Hnames c2 o2 Ho2).
    + by destruct (Hnames c1 o1 Ho1).
  - intros c1 c2 o1 o2 [[-> ->]|[_ Ho1]]%Hobjs [[-> ->]|[_ Ho2]]%Hobjs Hlo Heq; [done|..|by eapply J6].
    + by destruct (Hchans o2 (oi_chan _ _ _ _ (J4 c2 o2 Ho2)) (eq_sym Hlo)).
    + by destruct (Hchans o1 (oi_chan _ _ _ _ (J4 c1 o1 Ho1)) Hlo).
  - destruct J7 as (lb & Hlb & Hac). rewrite join_loops, (jn_base _ _ _ _ _ _ Hj), (jn_acc _ _ _ _ _ _ Hj).
    case_decide as Heq; [|by exists lb]. exists l'. split; [done|].
    assert (lb = l) as -> by congruence. rewrite join_channel; [done|]. intros Hc.
    rewrite Hc, (jn_fresh _ _ _ _ _ _ Hj) in Hac. by destruct Hac.
  - intros c2 o2 [[-> ->]|[_ Ho2]]%Hobjs; rewrite (jn_base _ _ _ _ _ _ Hj), (jn_acc _ _ _ _ _ _ Hj).
    + intros Heq Hc. destruct J7 as (lb & Hlb & Hac). assert (lb = l) as -> by congruence.
      rewrite <- Hc, (jn_fresh _ _ _ _ _ _ Hj) in Hac. by destruct Hac.
    + exact (J8 c2 o2 Ho2).
  - intros la l2 g. rewrite join_loops. intros Hla Hg.
    assert (∃ l3, loops w !! la = Some l3 ∧ g ∈ rt_pending l3) as (l3 & Hl3 & Hg3).
    { case_decide as Heq; [|by exists l2]. injection Hla as <-. exists l. rewrite <- join_pending. by rewrite Heq. }
    specialize (J9 la l3 g Hl3 Hg3). destruct g as [c2 f| |c2]; simpl in *; rewrite ?(jn_base _ _ _ _ _ _ Hj); [|done|].
    + destruct J9 as [(o2 & Ho2 & ?) ?]. split; [|done]. exists o2. auto.
    + destruct J9 as [? [o2 Ho2]]. split; [done|]. exists o2. auto.
Qed.
End joins.

(** [establishConnection] is queued for a connection that has just joined. *)
Lemma join_queue_inv w w1 c o l ch tid :
  srv_inv None w → nextConnId_ (srv w) + 1 < 2 ^ 31 → joins w w1 c o l ch →
  ∀ l1, loops w1 !! ob_loop o = Some l1 →
  srv_inv None (put_loop (ob_loop o) (rt_queueInLoop tid (SfConn c FnEstablish) l1) w1).
Proof.
  intros Hinv Hn Hj l1 Hl1. pose proof (join_inv w w1 c o l ch Hinv Hn Hj) as Hinv1.
  assert (Ho : objs w1 !! c = Some o) by (rewrite (jn_objs _ _ _ _ _ _ Hj); apply lookup_insert_eq).
  apply queue_inv; [done|done|split; [by exists o|done]|].
  intros c2 o2 Ho2 Hi. simpl. destruct (Z.eqb_spec c c2) as [<-|]; [right|by left].
  assert (o2 = o) as -> by congruence.
  destruct (frame_queue tid (SfConn c FnEstablish) l1) as (Hp & Hch & _).
  assert (Hpend : pend (put_loop (ob_loop o) (rt_queueInLoop tid (SfConn c FnEstablish) l1) w1) c o = [FnEstablish]).
  { rewrite (pending_pend w1), decide_True by done. rewrite (fns_app c l1 [FnEstablish]), Z.eqb_refl by done.
    pose proof (join_pend w w1 c o l ch Hinv Hj) as Hpn. unfold pend in Hpn. rewrite Hl1 in Hpn. by rewrite Hpn. }
  assert (Hreg : reg (put_loop (ob_loop o) (rt_queueInLoop tid (SfConn c FnEstablish) l1) w1) o = false).
  { rewrite (pending_reg w1 _ l1) by done. by eapply join_reg. }
  assert (Hin : in_registry w1 c o) by by eapply join_registry.
  destruct Hi as [I1 I2 I3 I4 I5 I6 I7 I8 I9 I10 I11].
  split; rewrite ?Hpend, ?Hreg; try done.
  - by apply (pending_chan w1 _ l1).
  - intros _. split; [apply Hj|done].
  - by intros ?%elem_of_nil.
  - intros [?|Hrem]; [done|]. exfalso. apply (join_not_removed w w1 c o l ch Hinv Hj).
    eapply pending_remove; [exact Hl1|exact Hrem|]. rewrite Hp, elem_of_app.
    intros [?|?%list_elem_of_singleton]; done.
  - by intros ?%list_elem_of_singleton.
Qed.

Lemma user_only (cb : option C) cb' : CallUser <$> cb = Some cb' → user_call cb'.
Proof. by destruct cb; intros [= <-]. Qed.

Lemma newConnectionCallback_inv tid fd peer w w' :
  srv_inv None w → nextConnId_ (srv w) + 1 < 2 ^ 31 →
  newConnectionCallback bind new_obj new_chan new_sock user tid fd peer w = Ok w' → srv_inv None w'.
Proof.
  intros Hinv Hn (? & _ & ([io pool] & Hnext & (l & Hl & Hrun)%bind_Ok_inv)%bind_Ok_inv)%bind_Ok_inv.
  unfold loop_at in Hl. destruct (loops w !! io) as [l2|] eqn:Hio; [|done]. injection Hl as ->.
  cbv zeta in Hrun. unfold TcpConnection_ctor in Hrun. cbn [conn lp sock] in Hrun.
  set (c := new_obj w) in *. set (id := nextConnId_ (srv w)) in *.
  match type of Hrun with context [mkObj ?a ?b ?d ?e ?f ?g] => set (o := mkObj a b d e f g) in * end.
  match type of Hrun with context [rt_new_channel _ ?a l] => set (ch := a) in * end.
  match type of Hrun with context [set_srv ?a ?b] => set (w1 := set_srv a b) in * end.
  assert (Hid : i32 (id + 1) = id + 1).
  { pose proof (si_next _ w Hinv). unfold wraps. rewrite Z.mod_small; lia. }
  assert (Hj : joins w w1 c o l ch).
  { split; try done; simpl.
    - apply fresh_obj.
    - intros cb. apply user_only.
    - intros cb. apply user_only.
    - split; [intros cb; apply user_only|done]. }
  pose proof (join_inv w w1 c o l ch Hinv Hn Hj) as Hinv1.
  assert (Ho : objs w1 !! c = Some o) by apply lookup_insert_eq.
  destruct (rt_isInLoopThread tid _).
  - apply bind_Ok_inv in Hrun as (v & Hx & (y & Hrun & [= <-])%bind_Ok_inv).
    destruct (enter_inv c w1 v Hx) as (o2 & l2 & Ho2 & Hl2 & ->). assert (o2 = o) as -> by congruence.
    eapply establish_inv; [exact Hinv1|done|done| | | |exact Hrun].
    + rewrite (join_pend w w1 c o l ch Hinv Hj). by intros ?%elem_of_nil.
    + by eapply join_registry.
    + by apply (join_not_removed w w1 c o l ch).
  - apply queue_in_inv in Hrun as (l1 & Hl1 & ->). by apply (join_queue_inv w w1 c o l ch).
Qed.

(** *** The listening socket is readable *)
Lemma acceptor_readable_inv tid w w' :
  srv_inv None w → nextConnId_ (srv w) + 1 < 2 ^ 31 →
  acceptor_readable bind new_obj new_chan new_sock user tid w = Ok w' → srv_inv None w'.
Proof.
  intros Hinv Hn (x & (l & Hl & ->)%enter_acc_inv & (y & Hrun & [= <-])%bind_Ok_inv)%bind_Ok_inv.
  assert (Hkeep : ∀ a k, Acceptor.acceptChannel_ a = Acceptor.acceptChannel_ (acceptor w) →
    srv_inv None (leave_acc (mkAW a l k w))).
  { intros a k Ha. apply (acc_frame_inv w l l); try done.
    destruct (si_acc _ w Hinv) as (l2 & Hl2 & Hs). assert (l2 = l) as -> by congruence. done. }
  unfold Acceptor.handleRead in Hrun. apply bind_Ok_inv in Hrun as (? & _ & Hrun). cbn [acc kern] in Hrun.
  destruct (k_accept (Acceptor.acceptSocket_ (acceptor w)) (skern w)) as [k [[fd e] peer]].
  apply bind_Ok_inv in Hrun as ([connfd errno] & _ & Hrun).
  unfold Acceptor.set_kern, Acceptor.set_acc in Hrun. cbn [acc alp kern ausr] in Hrun.
  destruct (0 <? connfd).
  - destruct (Acceptor.newConnCallback_ (acceptor w)) as [[]|]; [|injection Hrun as <-; by apply Hkeep].
    apply bind_Ok_inv in Hrun as (w1 & Hnew & Hx). rewrite (leave_enter_acc w1 y Hx).
    eapply newConnectionCallback_inv; [| |exact Hnew]; [by apply Hkeep|done].
  - destruct (errno =? EMFILE); [|injection Hrun as <-; by apply Hkeep].
    destruct (k_accept _ _) as [k2 [[fd2 e2] a2]]. destruct (k_open_null _) as [k3 idle].
    injection Hrun as <-. by apply Hkeep.
Qed.

(** *** The last reference to a connection goes *)
Lemma unreferenced_holds w c la l g :
  referenced c w = false → loops w !! la = Some l → g ∈ rt_pending l → holds c g = false.
Proof.
  unfold referenced. intros [_ Hex]%orb_false_iff Hl Hg. apply not_true_iff_false. intros Hm.
  apply not_true_iff_false in Hex. apply Hex. apply existsb_exists. exists (la, l).
  split; [by apply list_elem_of_In, elem_of_map_to_list|].
  apply existsb_exists. exists g. split; [by apply list_elem_of_In|done].
Qed.

Lemma unreferenced_registry w c o : map_sorted (connections_ (srv w)) → referenced c w = false → ¬ in_registry w c o.
Proof.
  unfold referenced, registered_conn. intros Hs [Hex _]%orb_false_iff Hin.
  apply not_true_iff_false in Hex. apply Hex, existsb_exists.
  apply map_find_elem in Hin; [|done]. eexists. split; [by apply list_elem_of_In|]. simpl. apply Z.eqb_refl.
Qed.

(** It is out of the poller by then, and no functor is left, not even one that does not hold it. *)
Lemma unreferenced_done w c o :
  srv_inv None w → objs w !! c = Some o → referenced c w = false → pend w c o = [] ∧ reg w o = false.
Proof.
  intros Hinv Ho Href. pose proof (unreferenced_registry w c o (si_sorted _ w Hinv) Href) as Hno.
  assert (Hfn : ∀ f, f ∈ pend w c o → plain_this f = true).
  { unfold pend. intros f Hin. destruct (loops w !! ob_loop o) as [l|] eqn:Hl; [|by apply elem_of_nil in Hin].
    apply elem_fns in Hin. pose proof (unreferenced_holds w c _ l _ Href Hl Hin) as Hh.
    simpl in Hh. rewrite Z.eqb_refl in Hh. by destruct (plain_this f). }
  destruct (oi_settled _ _ _ _ (si_obj _ w Hinv c o Ho) Hno) as [(p & q & Heq & _)|[Hr Hfs]].
  - assert (Hd : FnDestroy ∈ pend w c o) by (rewrite Heq; apply elem_of_app; right; by left).
    by apply Hfn in Hd.
  - unfold reg_but in Hr. rewrite decide_False in Hr by done. split; [|done].
    destruct (pend w c o) as [|f r]; [done|]. simpl in Hfs.
    specialize (Hfn f (list_elem_of_here f r)). by destruct f.
Qed.

Lemma unreferenced_functor w c o la l g :
  srv_inv None w → objs w !! c = Some o → referenced c w = false → loops w !! la = Some l →
  g ∈ rt_pending l → (∀ f, g ≠ SfConn c f) ∧ g ≠ SfRemove c.
Proof.
  intros Hinv Ho Href Hl Hg. pose proof (unreferenced_holds w c la l g Href Hl Hg) as Hh. split.
  - intros f ->. destruct (si_fns _ w Hinv la l _ Hl Hg) as [(o2 & Ho2 & <-) _].
    assert (o2 = o) as -> by congruence. apply elem_fns in Hg.
    destruct (unreferenced_done w c o Hinv Ho Href) as [Hp _]. unfold pend in Hp. rewrite Hl in Hp.
    rewrite Hp in Hg. by apply elem_of_nil in Hg.
  - intros ->. simpl in Hh. by rewrite Z.eqb_refl in Hh.
Qed.

Lemma drop_conn_inv w w' c :
  srv_inv None w → referenced c w = false → drop_conn c w = Ok w' → srv_inv None w'.
Proof.
  intros Hinv Href (o & Ho & (l & Hl & (ch & Hch & (? & _ & [= <-])%bind_Ok_inv)%bind_Ok_inv)%bind_Ok_inv)%bind_Ok_inv.
  unfold obj_at in Ho. destruct (objs w !! c) as [o'|] eqn:Ho'; [|done]. injection Ho as ->.
  unfold loop_at in Hl. destruct (loops w !! ob_loop o) as [l0|] eqn:Hl'; [|done]. injection Hl as ->.
  set (l' := rt_delete (channel_ (ob_conn o)) l). set (w' := mkSW _ _ _ _ _ _).
  destruct (frame_delete (channel_ (ob_conn o)) l) as (_ & Hother & Hp & _). fold l' in Hother, Hp.
  pose proof Hinv as [J1 J2 J3 J4 J5 J6 J7 J8 J9].
  pose proof (unreferenced_registry w c o J1 Href) as Hno.
  assert (Hloops : ∀ la, loops w' !! la = if decide (la = ob_loop o) then Some l' else loops w !! la).
  { intros la. simpl. case_decide as Heq; [subst; by rewrite lookup_insert_eq|by rewrite lookup_insert_ne]. }
  assert (Hobjs : ∀ c2 o2, objs w' !! c2 = Some o2 → c2 ≠ c ∧ objs w !! c2 = Some o2).
  { intros c2 o2. simpl. intros [? ?]%lookup_delete_Some. done. }
  split; try done.
  - intros n c2 Hn. destruct (J3 n c2 Hn) as (o2 & Ho2 & Hname). exists o2. split; [|done].
    simpl. rewrite lookup_delete_ne; [done|]. intros <-. apply Hno. unfold in_registry.
    assert (o2 = o) as -> by congruence. by rewrite Hname.
  - intros c2 o2 [Hne Ho2]%Hobjs. eapply obj_inv_same; [|by apply J4].
    assert (Hc : ob_loop o2 = ob_loop o → rt_channel l' (channel_ (ob_conn o2)) = rt_channel l (channel_ (ob_conn o2))).
    { intros Heq. apply Hother. intros Hc. apply Hne. by eapply J6. }
    split; try done.
    + intros (l2 & Hl2 & Hin). rewrite Hloops in Hl2. simpl in Hl2. case_decide as Heq; [|by exists l2].
      injection Hl2 as <-. exists l. split; [by rewrite Heq|by rewrite <- Hp].
    + intros (l2 & Hl2 & Hs). unfold has_chan. rewrite Hloops. case_decide as Heq; [|by exists l2].
      exists l'. split; [done|]. rewrite Hc by done. assert (l2 = l) as -> by congruence. done.
    + unfold pend. rewrite Hloops. case_decide as Heq; [|done]. rewrite Heq, Hl'. unfold fns. by rewrite Hp.
    + unfold reg. rewrite Hloops. case_decide as Heq; [|done]. rewrite Heq, Hl'. unfold rt_registered. by rewrite Hc.
  - intros c1 c2 o1 o2 [_ Ho1]%Hobjs [_ Ho2]%Hobjs. by apply J5.
  - intros c1 c2 o1 o2 [_ Ho1]%Hobjs [_ Ho2]%Hobjs. by apply J6.
  - destruct J7 as (lb & Hlb & Hac). rewrite Hloops. simpl. case_decide as Heq; [|by exists lb].
    exists l'. split; [done|]. assert (lb = l) as -> by congruence. rewrite Hother; [done|].
    intros Hc. by apply (J8 c o Ho' (eq_sym Heq)).
  - intros c2 o2 [_ Ho2]%Hobjs. exact (J8 c2 o2 Ho2).
  - intros la l2 g. rewrite Hloops. intros Hla Hg.
    assert (∃ l3, loops w !! la = Some l3 ∧ g ∈ rt_pending l3) as (l3 & Hl3 & Hg3).
    { case_decide as Heq; [|by exists l2]. injection Hla as <-. exists l. rewrite <- Hp. by rewrite Heq. }
    destruct (unreferenced_functor w c o la l3 g Hinv Ho' Href Hl3 Hg3) as [Hm Hm2].
    specialize (J9 la l3 g Hl3 Hg3). destruct g as [c2 f| |c2]; simpl in *; [|done|].
    + destruct J9 as [(o2 & Ho2 & ?) ?]. split; [|done]. exists o2. rewrite lookup_delete_ne; [done|]. intros <-. by apply (Hm f).
    + destruct J9 as [? [o2 Ho2]]. split; [done|]. exists o2. rewrite lookup_delete_ne; [done|]. by intros <-.
Qed.

(** *** All steps *)
Inductive srv_step w : World → Prop :=
| sv_accept tid w' : nextConnId_ (srv w) + 1 < 2 ^ 31 →
    acceptor_readable bind new_obj new_chan new_sock user tid w = Ok w' → srv_step w w'
| sv_functor tid la w' : run_next user tid la w = Ok w' → srv_step w w'
(* the poller watches the channel *)
| sv_io tid c o f t w' : objs w !! c = Some o → reg w o = true →
    io_event user tid c f t w = Ok w' → srv_step w w'
(* user code in the thread of the connection's loop *)
| sv_user tid c op w' : in_own tid c w = true → on_conn c (run_user_op user tid c op) w = Ok w' → srv_step w w'
| sv_drop c w' : referenced c w = false → drop_conn c w = Ok w' → srv_step w w'.

Lemma on_conn_obj c f w w' : on_conn (L := L) c f w = Ok w' → ∃ o, objs w !! c = Some o.
Proof. intros (x & (o & ? & ? & _)%enter_inv & _)%bind_Ok_inv. by exists o. Qed.

Lemma srv_step_inv w w' : srv_inv None w → srv_step w w' → srv_inv None w'.
Proof.
  intros Hinv [tid w2 Hn Hrun|tid la w2 Hrun|tid c o f t w2 Ho Hr Hrun|tid c op w2 _ Hrun|c w2 Href Hrun].
  - by eapply acceptor_readable_inv.
  - by eapply run_next_inv.
  - by eapply io_event_inv.
  - destruct (on_conn_obj c _ w w2 Hrun) as [o Ho]. by eapply user_op_inv.
  - by eapply drop_conn_inv.
Qed.
End life.

(** *** Scripted user code stays within the invariant *)
Section script.
Context {C X S L F K U : Type} `{Socket S} `{SockKernel K} `{ReactorFrame L F (srv_fn C)}.
Abbreviation World := (SW C X S L K U).
Implicit Types w : World.

Lemma run_action_inv tid (a : user_action (U := U)) w w' :
  srv_inv None w → run_action (λ _ _ _ _ w, Ok w) tid a w = Ok w' → srv_inv None w'.
Proof.
  intros Hinv Hrun. destruct a as [c op|c n|f]; simpl in Hrun.
  - destruct (on_conn_obj c _ w w' Hrun) as [o Ho].
    eapply user_op_inv; [exact Hinv|exact Ho|exact Hrun].
  - apply bind_Ok_inv in Hrun as (x & Hx & (y & (b & _ & [= <-])%bind_Ok_inv & [= <-])%bind_Ok_inv).
    destruct (enter_inv c w x Hx) as (o & l & Ho & Hl & ->). by eapply data_inv.
  - injection Hrun as <-. destruct Hinv as [J1 J2 J3 J4 J5 J6 J7 J8 J9]. split; try done.
    intros c o Ho. by destruct (J4 c o Ho).
Qed.

Lemma scripted_ok script u tid c arg w w' :
  srv_inv None w → scripted (K := K) script u tid c arg w = Ok w' → srv_inv None w'.
Proof.
  unfold scripted. generalize (script u tid c arg w). intros acts. revert w.
  induction acts as [|a acts IH]; intros w Hinv Hrun; simpl in Hrun; [by injection Hrun as <-|].
  apply bind_Ok_inv in Hrun as (w1 & Ha & Hrun). eapply IH; [|exact Hrun]. by eapply run_action_inv.
Qed.
End script.
