(* ===== verification/ServerProps.v ===== *)
(** * ServerProps: what a TcpServer guarantees

    From construction to teardown: the safety of the connections over all steps, the course
    of one connection's end, what accepting one does, and the misuses that stop the
    process. *)
From S2P Require Import Prelude Endian StdMap Timestamp Inet SockKernel Buffer Channel Epoller EventLoop Reactor ReactorLoop.
From S2P Require Import TcpConnection TcpFlow ConnFrame TcpServer ServerInv ServerLife.
From S2P Require Acceptor LoopPool.
Import Acceptor (Acceptor, mkAcceptor, AW, mkAW, acc, alp, kern, ausr).

Section props.
Context {C X S L F K U : Type} `{Socket S} `{SockKernel K} `{ReactorFrame L F (srv_fn C)}.
Context (bind : srv_cb → F).
Abbreviation World := (SW C X S L K U).
Implicit Types (w : World) (l : L).

(** ** A server without connections *)
Record idle w : Prop := {
  id_conns : connections_ (srv w) = [];
  id_objs : objs w = ∅;
  id_next : nextConnId_ (srv w) = 1;
  id_acc : ∃ l, loops w !! loop_ (srv w) = Some l ∧ is_Some (rt_channel l (Acceptor.acceptChannel_ (acceptor w)));
  id_pending la l : loops w !! la = Some l → rt_pending l = []
}.

Lemma idle_inv w : idle w → srv_inv None w.
Proof.
  intros [Hc Ho Hn Ha Hp]. split; rewrite ?Hc, ?Ho, ?Hn; try done.
  - constructor.
  - intros la l g Hl. rewrite (Hp la l Hl). by intros ?%elem_of_nil.
Qed.

Lemma ctor_idle host ntop chan loop a name l k ls u w :
  rt_pending l = [] → (∀ la l', ls !! la = Some l' → rt_pending l' = []) →
  TcpServer_ctor (S := S) bind host ntop chan loop a name l k ls u = Ok w → idle w.
Proof.
  intros Hl Hls (x & Hx & (? & _ & [= <-])%bind_Ok_inv)%bind_Ok_inv.
  unfold Acceptor.Acceptor_ctor in Hx. destruct (k_open_null k) as [k1 idle]. destruct (k_socket k1) as [k2 fd].
  apply bind_Ok_inv in Hx as (fd2 & _ & (? & _ & [= <-])%bind_Ok_inv).
  match goal with |- context [rt_new_channel chan ?ch l] =>
    destruct (frame_new chan ch l) as (Hch & _ & Hp & _); set (l' := rt_new_channel chan ch l) in * end.
  split; simpl; try done.
  - exists l'. rewrite lookup_insert_eq. split; [done|]. by eexists.
  - intros la l2 [[<- <-]|[_ ?]]%lookup_insert_Some; [by rewrite Hp|by eapply Hls].
Qed.

Lemma set_srv_idle s w :
  idle w → connections_ s = connections_ (srv w) → nextConnId_ s = nextConnId_ (srv w) → loop_ s = loop_ (srv w) →
  idle (set_srv s w).
Proof. intros [Hc Ho Hn Ha Hp] Hs1 Hs2 Hs3. split; simpl; rewrite ?Hs1, ?Hs2, ?Hs3; done. Qed.

Lemma new_loops_lookup (new_loop : nat → addr) (st : nat → L) (m : gmap addr L) ixs la l :
  foldr (λ i m, <[new_loop i := st i]> m) m ixs !! la = Some l →
  (∃ i, la = new_loop i ∧ l = st i) ∨ m !! la = Some l.
Proof.
  induction ixs as [|i ixs IH]; simpl; [by right|].
  intros [[<- <-]|[_ ?]]%lookup_insert_Some; [left; by exists i|auto].
Qed.

Lemma new_loops_old (new_loop : nat → addr) (st : nat → L) (m : gmap addr L) ixs la :
  (∀ i, new_loop i ≠ la) → foldr (λ i m, <[new_loop i := st i]> m) m ixs !! la = m !! la.
Proof. intros Hne. induction ixs as [|i ixs IH]; simpl; [done|]. by rewrite lookup_insert_ne. Qed.

Lemma start_inv thread_init tid new_loop loop_state w w' :
  idle w → threadInitCallback_ (srv w) = None →
  (∀ i, new_loop i ≠ loop_ (srv w)) → (∀ i, rt_pending (loop_state i) = []) →
  start thread_init tid new_loop loop_state w = Ok w' → srv_inv None w'.
Proof.
  intros Hidle Hti Hnew Hst. unfold start. simpl. rewrite Hti.
  intros ([pool' inits] & _ & Hrun)%bind_Ok_inv. ok_simpl in Hrun.
  match type of Hrun with context [set_loops ?a ?b] => set (w1 := set_loops a b) in * end.
  assert (Hidle1 : idle w1).
  { destruct Hidle as [Hc Ho Hn (l & Hl & Hs) Hp]. split; try done.
    - exists l. split; [|done]. unfold w1. simpl. rewrite new_loops_old; [done|]. intros i. apply Hnew.
    - intros la l2 [(i & -> & ->)|Hl2]%new_loops_lookup; [apply Hst|by eapply Hp]. }
  pose proof (idle_inv w1 Hidle1) as Hinv.
  destruct (Acceptor.isListening (acceptor w1)); [by injection Hrun as <-|].
  destruct (in_base tid w1); [by eapply acceptor_listen_inv|].
  apply queue_in_inv in Hrun as (l & Hl & ->). apply queue_inv; [done|done|done|].
  intros c o Ho. rewrite (id_objs w1 Hidle1) in Ho. done.
Qed.
End props.

(** ** The end of a connection *)
Section teardown.
Context {C X S L F K U : Type} `{SocketLaws S} `{SockKernelLaws K} `{!Reactor L F (srv_fn C)} `{!LoopRun L (srv_fn C)}
  `{!ReactorLaws L F (srv_fn C)} `{!ReactorFrame L F (srv_fn C)}.
Abbreviation World := (SW C X S L K U).
Abbreviation ConnW := (W (srv_call C) X S L World).
Context (user : C → Z → addr → cb_arg → World → outcome World).
Implicit Types (w : World) (l : L) (c : addr).

Lemma loop_at_ok la l w : loops w !! la = Some l → loop_at la w = Ok l.
Proof. unfold loop_at. by intros ->. Qed.
Lemma obj_at_ok c (o : conn_obj (srv_call C) X S) w : objs w !! c = Some o → obj_at c w = Ok o.
Proof. unfold obj_at. by intros ->. Qed.
Lemma enter_ok c (o : conn_obj (srv_call C) X S) l w :
  objs w !! c = Some o → loops w !! ob_loop o = Some l → enter c w = Ok (mkW (ob_conn o) l (ob_sock o) w).
Proof. intros Ho Hl. unfold enter. rewrite (obj_at_ok c o) by done. simpl. by rewrite (loop_at_ok _ l). Qed.

(** The world when the destruction of [c] is next in its loop. *)
Record closing w c (o : conn_obj (srv_call C) X S) l : Prop := {
  cg_obj : objs w !! c = Some o;
  cg_loop : loops w !! ob_loop o = Some l;
  cg_state : state_ (ob_conn o) ≠ kConnected;
  cg_live : chan_live l (channel_ (ob_conn o)) 0;
  cg_name : map_find (TcpConnection.name_ (ob_conn o)) (connections_ (srv w)) = None;
  cg_pending : rt_pending l = [SfConn c FnDestroy];
  cg_base l2 : loop_ (srv w) ≠ ob_loop o → loops w !! loop_ (srv w) = Some l2 → rt_pending l2 = []
}.

(** [removeConnectionInLoop] when nothing else waits in the two loops. *)
Lemma registry_remove_ok tid w c (o : conn_obj (srv_call C) X S) l :
  map_sorted (connections_ (srv w)) → in_base tid w = true →
  objs w !! c = Some o → loops w !! ob_loop o = Some l → state_ (ob_conn o) ≠ kConnected →
  chan_live l (channel_ (ob_conn o)) 0 → rt_pending l = [] →
  (∀ l2, loop_ (srv w) ≠ ob_loop o → loops w !! loop_ (srv w) = Some l2 → rt_pending l2 = []) →
  ∃ w' l', removeConnectionInLoop tid c w = Ok w' ∧ closing w' c o l' ∧ skern w' = skern w ∧
    loop_ (srv w') = loop_ (srv w) ∧ (∀ t, rt_isInLoopThread t l' = rt_isInLoopThread t l).
Proof.
  intros Hs Hb Ho Hl Hst Hlive Hp Hbase. unfold removeConnectionInLoop, assert_base. rewrite Hb.
  ok_simpl. rewrite (obj_at_ok c o) by done. ok_simpl. cbv zeta.
  unfold queue_in. match goal with |- context [loop_at _ ?v] => set (w1 := v) end.
  rewrite (loop_at_ok _ l) by done. ok_simpl.
  destruct (law_queue tid (SfConn c FnDestroy) l) as (Hq & _ & _ & Hth).
  do 2 eexists. split; [done|]. split_and!; [|done|done|exact Hth]. split; simpl; try done.
  - apply lookup_insert_eq.
  - by apply chan_live_queue.
  - by rewrite map_find_erase_eq.
  - by rewrite Hq, Hp.
  - intros l2 Hne. rewrite lookup_insert_ne by done. by apply Hbase.
Qed.

(** The functor runs: the channel leaves the poller. *)
Lemma destroy_ok tid w c (o : conn_obj (srv_call C) X S) l :
  closing w c o l → rt_isInLoopThread tid l = true →
  ∃ w' o' l' ch, run_next user tid (ob_loop o) w = Ok w' ∧ objs w' !! c = Some o' ∧ ob_loop o' = ob_loop o ∧
    ob_fd o' = ob_fd o ∧ channel_ (ob_conn o') = channel_ (ob_conn o) ∧
    TcpConnection.name_ (ob_conn o') = TcpConnection.name_ (ob_conn o) ∧
    loops w' !! ob_loop o = Some l' ∧ rt_pending l' = [] ∧
    rt_channel l' (channel_ (ob_conn o)) = Some ch ∧ status_ ch = kNew ∧ isHandlingEvent_ ch = false ∧
    srv w' = srv w ∧ skern w' = skern w ∧
    (∀ la, la ≠ ob_loop o → loops w' !! la = loops w !! la).
Proof.
  intros [Ho Hl Hst Hlive Hname Hp Hbase] Ht. unfold run_next. rewrite (loop_at_ok _ l) by done.
  ok_simpl. pose proof (frame_take l) as Hf. rewrite Hp in Hf.
  destruct Hf as (l1 & Htk & Hp1 & _ & _ & Hth1 & _). rewrite Htk.
  pose proof (chan_live_take _ _ _ _ _ Hlive Htk) as Hlive1.
  cbn [run_fn TcpConnection.run_fn]. set (w1 := put_loop (ob_loop o) l1 w).
  assert (Hl1 : loops w1 !! ob_loop o = Some l1) by apply lookup_insert_eq.
  unfold on_conn. rewrite (enter_ok c o l1) by done. ok_simpl.
  change (TcpConnection.run_fn (SfConn c) (call user tid c) tid FnDestroy) with
    (destoryConnection (call user tid c) tid : ConnW → outcome ConnW).
  unfold destoryConnection, assertLoop, rt_assertInLoopThread. cbn [lp conn].
  rewrite Hth1, Ht. ok_simpl. rewrite bool_decide_eq_false_2 by done. ok_simpl.
  unfold on_lp. cbn [lp conn].
  destruct (chan_live_remove l1 (channel_ (ob_conn o)) tid Hlive1) as (l2 & ch & Hrun & Hch & Hnew & Hh & Hp2 & Hth2);
    [by rewrite Hth1|]. rewrite Hrun. ok_simpl.
  set (x := set_lp l2 (mkW (ob_conn o) l1 (ob_sock o) w1)).
  exists (leave c x), (with_view x o), l2, ch. split; [done|]. split; [by apply (leave_obj w1 c o x)|].
  destruct (leave_rest w1 c o x) as (-> & _ & ->); [done|done|].
  split_and!; try done.
  - rewrite (leave_loops w1 c o x) by done. by rewrite decide_True.
  - by rewrite Hp2.
  - intros la Hne. rewrite (leave_loops w1 c o x) by done. rewrite decide_False by done.
    simpl. by rewrite lookup_insert_ne.
Qed.

(** Nothing refers to the connection any more. *)
Lemma unreferenced_end w c (o : conn_obj (srv_call C) X S) :
  srv_inv None w → objs w !! c = Some o →
  map_find (TcpConnection.name_ (ob_conn o)) (connections_ (srv w)) = None →
  (∀ l, loops w !! ob_loop o = Some l → rt_pending l = []) →
  (∀ l, loops w !! loop_ (srv w) = Some l → rt_pending l = []) →
  referenced c w = false.
Proof.
  intros Hinv Ho Hname Hp Hb. unfold referenced. apply orb_false_iff. split; apply not_true_iff_false.
  - intros ([n c2] & Hin%list_elem_of_In & Heq%Z.eqb_eq)%existsb_exists. simpl in Heq. subst c2.
    apply map_find_elem in Hin; [|apply Hinv]. destruct (si_entry _ w Hinv n c Hin) as (o2 & Ho2 & Hn).
    assert (o2 = o) as -> by congruence. congruence.
  - intros ([la l] & Hla%list_elem_of_In%elem_of_map_to_list & (g & Hg%list_elem_of_In & Hm)%existsb_exists)%existsb_exists.
    simpl in Hg. pose proof (si_fns _ w Hinv la l g Hla Hg) as Hok.
    destruct g as [c2 f| |c2]; simpl in *; [apply andb_true_iff in Hm as [->%Z.eqb_eq _]|done|apply Z.eqb_eq in Hm as ->].
    + destruct Hok as [(o2 & Ho2 & Heq) _]. assert (o2 = o) as -> by congruence. subst la.
      rewrite (Hp l Hla) in Hg. by apply elem_of_nil in Hg.
    + destruct Hok as [-> _]. rewrite (Hb l Hla) in Hg. by apply elem_of_nil in Hg.
Qed.

(** The object goes: its descriptor is closed. *)
Lemma drop_ok w c (o : conn_obj (srv_call C) X S) l ch :
  objs w !! c = Some o → loops w !! ob_loop o = Some l →
  rt_channel l (channel_ (ob_conn o)) = Some ch → isHandlingEvent_ ch = false →
  ∃ w', drop_conn c w = Ok w' ∧ objs w' !! c = None ∧ srv w' = srv w ∧ skern w' = k_close (ob_fd o) (skern w) ∧
    (∀ l', loops w' !! ob_loop o = Some l' → rt_channel l' (channel_ (ob_conn o)) = None).
Proof.
  intros Ho Hl Hch Hh. unfold drop_conn. rewrite (obj_at_ok c o) by done. ok_simpl.
  rewrite (loop_at_ok _ l) by done. ok_simpl. rewrite Hch. ok_simpl.
  unfold Channel_dtor. rewrite Hh. cbn. eexists. split; [done|]. simpl.
  split_and!; [apply lookup_delete_eq|done|done|]. intros l'. rewrite lookup_insert_eq. intros [= <-].
  by destruct (frame_delete (channel_ (ob_conn o)) l) as (? & _).
Qed.

(** From the queued destruction to the end. *)
Context (user_ok : ∀ u tid c arg w w', srv_inv (F := F) None w → user u tid c arg w = Ok w' → srv_inv (F := F) None w').

Lemma closing_ends tid w c (o : conn_obj (srv_call C) X S) l :
  srv_inv None w → closing w c o l → rt_isInLoopThread tid l = true → ob_fd o ∈ k_fds (skern w) →
  ∃ w1 w', run_next user tid (ob_loop o) w = Ok w1 ∧ referenced c w1 = false ∧ drop_conn c w1 = Ok w' ∧
    objs w' !! c = None ∧ srv w' = srv w ∧ k_fds (skern w') = k_fds (skern w) ∖ {[ob_fd o]} ∧
    (∀ l', loops w' !! ob_loop o = Some l' → rt_channel l' (channel_ (ob_conn o)) = None).
Proof.
  intros Hinv Hcl Ht Hfd.
  destruct (destroy_ok tid w c o l Hcl Ht) as (w1 & o1 & l1 & ch & Hrun & Ho1 & Hlo & Hf1 & Hc1 & Hn1 & Hl1 & Hp1 &
    Hch & Hnew & Hh & Hs1 & Hk1 & Hother).
  assert (Hinv1 : srv_inv None w1) by by eapply (run_next_inv user user_ok).
  destruct Hcl as [Ho Hl Hst Hlive Hname Hp Hbase].
  assert (Href : referenced c w1 = false).
  { apply (unreferenced_end w1 c o1); [done|done|by rewrite Hn1, Hs1| |].
    - intros l2. rewrite Hlo, Hl1. by intros [= <-].
    - rewrite Hs1. intros l2 Hl2. destruct (decide (loop_ (srv w) = ob_loop o)) as [Heq|Hne].
      + rewrite Heq, Hl1 in Hl2. by injection Hl2 as <-.
      + rewrite Hother in Hl2 by done. by apply Hbase. }
  destruct (drop_ok w1 c o1 l1 ch) as (w2 & Hdrop & Hgone & Hs2 & Hk2 & Hchan);
    [done|by rewrite Hlo|by rewrite Hc1|done|].
  exists w1, w2. split_and!; [done..|congruence| |].
  - rewrite Hk2, Hk1, Hf1. by destruct (law_close (ob_fd o) (skern w) Hfd) as (-> & _).
  - rewrite Hlo, Hc1 in Hchan. exact Hchan.
Qed.

Record up_conn w c (o : conn_obj (srv_call C) X S) l : Prop := {
  uc_obj : objs w !! c = Some o;
  uc_loop : loops w !! ob_loop o = Some l;
  uc_live : ∃ e, chan_live l (channel_ (ob_conn o)) e;
  uc_fd : ob_fd o ∈ k_fds (skern w)
}.

(** The end of stream is read: disconnected, out of the poller, and on its way out of the registry. *)
Lemma eof_handled tid t w c o l (s : S) :
  srv_inv None w → up_conn w c o l → conn_inv (mkW (ob_conn o) l (ob_sock o) w) →
  rt_isInLoopThread tid l = true → rt_pending l = [] →
  zlen (buffer_ (inputBuffer_ (ob_conn o))) + extraBufSize ≤ vector_max_size →
  sk_readv (ob_sock o) (writableBytes (inputBuffer_ (ob_conn o))) extraBufSize = (s, ReadvData []) →
  ∃ w1 o1 l1, objs w1 = <[c := o1]> (objs w) ∧ loops w1 = <[ob_loop o := l1]> (loops w) ∧ srv w1 = srv w ∧
    skern w1 = skern w ∧ ob_loop o1 = ob_loop o ∧ ob_fd o1 = ob_fd o ∧
    channel_ (ob_conn o1) = channel_ (ob_conn o) ∧
    TcpConnection.name_ (ob_conn o1) = TcpConnection.name_ (ob_conn o) ∧ state_ (ob_conn o1) = kDisconnected ∧
    chan_live l1 (channel_ (ob_conn o)) 0 ∧ rt_pending l1 = [] ∧
    (∀ t, rt_isInLoopThread t l1 = rt_isInLoopThread t l) ∧
    ∀ w2 y, removeConnection tid c w1 = Ok w2 → enter c w2 = Ok y → io_event user tid c CbRead t w = Ok w2.
Proof.
  intros Hinv [Ho Hl [e Hlive] Hfd] Hci Ht Hp Hmax Hread.
  pose proof (si_obj _ w Hinv c o Ho) as Hi.
  destruct (chan_live_off l _ e tid Hlive Ht) as (l1 & Hoff & Hlive1 & Hp1 & Hth1).
  set (x := mkW (ob_conn o) l (ob_sock o) w) in *.
  destruct (handleRead_data (call user tid c) tid t x [] Hci Ht) as (b & _ & _ & Hrun);
    [by simpl; rewrite Hread|done|].
  cbv zeta in Hrun. simpl in Hrun. rewrite Hread in Hrun. cbn [fst] in Hrun.
  set (x1 := set_conn (set_input b (ob_conn o)) (set_sock s x)) in Hrun.
  set (x2 := set_lp l1 (put_state kDisconnected x1)).
  pose proof (leave_eq c x2 o Ho) as Hw1.
  exists (leave c x2), (with_view x2 o), l1. rewrite Hw1. cbn [put_loop put_obj set_loops set_objs objs loops srv skern].
  split_and!; try done; [by rewrite Hp1|]. rewrite <- Hw1.
  intros w2 y Hrm Hy. unfold io_event, on_conn. rewrite (enter_ok c o l) by done. ok_simpl. cbn [run_cb].
  fold x. rewrite Hrun. unfold handleClose, assertLoop, rt_assertInLoopThread. cbn [lp x1 set_conn set_sock x].
  rewrite Ht. ok_simpl. unfold on_lp. cbn [lp conn put_state set_conn setState channel_ set_sock set_input x1 x].
  rewrite Hoff. ok_simpl. fold x. fold x1. fold x2.
  change (closeCallback_ (conn x2)) with (closeCallback_ (ob_conn o)).
  rewrite (oi_close _ _ _ _ Hi). cbn [invoke]. unfold call. rewrite Hrm. ok_simpl.
  rewrite Hy. ok_simpl. by destruct (leave_enter c w2 y Hy) as [-> _].
Qed.

(** On to the queued destruction; the two ways differ in the thread that unregisters. *)
Lemma close_ok tid tid_b t w c o l lb (s : S) :
  srv_inv None w → up_conn w c o l → conn_inv (mkW (ob_conn o) l (ob_sock o) w) →
  rt_isInLoopThread tid l = true → rt_pending l = [] →
  loops w !! loop_ (srv w) = Some lb → rt_isInLoopThread tid_b lb = true → rt_pending lb = [] →
  zlen (buffer_ (inputBuffer_ (ob_conn o))) + extraBufSize ≤ vector_max_size →
  sk_readv (ob_sock o) (writableBytes (inputBuffer_ (ob_conn o))) extraBufSize = (s, ReadvData []) →
  ∃ w1 w2 o2 l2, io_event user tid c CbRead t w = Ok w1 ∧
    (if in_base tid w then w2 = w1 else run_next user tid_b (loop_ (srv w)) w1 = Ok w2) ∧
    closing w2 c o2 l2 ∧ rt_isInLoopThread tid l2 = true ∧
    ob_loop o2 = ob_loop o ∧ ob_fd o2 = ob_fd o ∧ channel_ (ob_conn o2) = channel_ (ob_conn o) ∧
    TcpConnection.name_ (ob_conn o2) = TcpConnection.name_ (ob_conn o) ∧ skern w2 = skern w.
Proof.
  intros Hinv Hup Hci Ht Hp Hb Htb Hpb Hmax Hread.
  assert (Hl : loops w !! ob_loop o = Some l) by apply Hup.
  destruct (eof_handled tid t w c o l s) as (w1 & o1 & l1 & Hos & Hls & Hs1 & Hk1 & Hlo & Hf & Hch & Hn & Hst & Hlive &
    Hp1 & Hth1 & Hev); try done.
  rewrite <- Hch in Hlive.
  assert (Hrem : ∀ tid2 w2 l2, in_base tid2 w2 = true → srv w2 = srv w → objs w2 !! c = Some o1 →
    loops w2 !! ob_loop o = Some l1 → loops w2 !! loop_ (srv w) = Some l2 → rt_pending l2 = [] → skern w2 = skern w →
    ∃ w3 l3, removeConnectionInLoop tid2 c w2 = Ok w3 ∧ closing w3 c o1 l3 ∧ skern w3 = skern w ∧
      rt_isInLoopThread tid l3 = true).
  { intros tid2 w2 l2 Hib Hs2 Ho2 Hl2 Hlb Hpb2 Hk2.
    destruct (registry_remove_ok tid2 w2 c o1 l1) as (w3 & l3 & Hrun & Hcl & Hk & _ & Hth); try done.
    - rewrite Hs2. apply Hinv.
    - by rewrite Hlo.
    - by rewrite Hst.
    - rewrite Hs2. intros l4 _ Hl4. congruence.
    - exists w3, l3. split_and!; [done|done|congruence|]. by rewrite Hth, Hth1. }
  assert (Ho1 : objs w1 !! c = Some o1) by (rewrite Hos; apply lookup_insert_eq).
  assert (Hl1 : loops w1 !! ob_loop o = Some l1) by (rewrite Hls; apply lookup_insert_eq).
  destruct (decide (loop_ (srv w) = ob_loop o)) as [Heq|Hne].
  - assert (Hib : in_base tid w = true) by (unfold in_base; by rewrite Heq, Hl).
    assert (Hib1 : in_base tid w1 = true) by (unfold in_base; by rewrite Hs1, Heq, Hl1, Hth1).
    destruct (Hrem tid w1 l1) as (w3 & l3 & Hrun & Hcl & Hk & Hth); try done; [by rewrite Heq|].
    exists w3, w3, o1, l3. rewrite Hib. split_and!; try done.
    eapply Hev; [unfold removeConnection; by rewrite Hib1|apply (enter_ok c o1 l3); apply Hcl].
  - assert (Hlb1 : loops w1 !! loop_ (srv w) = Some lb) by (rewrite Hls; by rewrite lookup_insert_ne).
    assert (Hbase1 : in_base tid w1 = in_base tid w) by (unfold in_base; by rewrite Hs1, Hlb1, Hb).
    destruct (in_base tid w) eqn:Hib.
    + destruct (Hrem tid w1 lb) as (w3 & l3 & Hrun & Hcl & Hk & Hth); try done.
      exists w3, w3, o1, l3. split_and!; try done.
      eapply Hev; [unfold removeConnection; by rewrite Hbase1|apply (enter_ok c o1 l3); apply Hcl].
    + destruct (law_queue tid (SfRemove c) lb) as (Hq & _ & _ & Hthq).
      set (w2 := put_loop (loop_ (srv w)) (rt_queueInLoop tid (SfRemove c) lb) w1).
      pose proof (frame_take (rt_queueInLoop tid (SfRemove c) lb)) as Htk. rewrite Hq, Hpb in Htk. simpl in Htk.
      destruct Htk as (lb2 & Htk & Hpb2 & _ & _ & Hthb & _).
      set (w3 := put_loop (loop_ (srv w)) lb2 w2).
      destruct (Hrem tid_b w3 lb2) as (w4 & l4 & Hrun & Hcl & Hk & Hth); try done.
      * unfold in_base, w3, w2. simpl. rewrite Hs1, lookup_insert_eq. by rewrite Hthb, Hthq.
      * unfold w3, w2. simpl. by rewrite !lookup_insert_ne.
      * apply lookup_insert_eq.
      * exists w2, w4, o1, l4. split_and!; try done.
        -- eapply Hev.
           ++ unfold removeConnection. rewrite Hbase1. unfold queue_in. rewrite Hs1, (loop_at_ok _ lb) by done. done.
           ++ apply (enter_ok c o1 l1); [done|]. rewrite Hlo. simpl. by rewrite lookup_insert_ne.
        -- unfold run_next. rewrite (loop_at_ok _ (rt_queueInLoop tid (SfRemove c) lb)) by apply lookup_insert_eq.
           ok_simpl. rewrite Htk. exact Hrun.
Qed.
End teardown.

(** ** Properties *)

(** What holds between the registry, the objects, their channels and the functors. *)
Record consistent {C X S L F K U} `{Socket S} `{Reactor L F (srv_fn C)} (w : SW C X S L K U) : Prop := {
  (* an entry of the registry is a live connection of that name, "host:port#i" with i handed out *)
  co_entry nm c : map_find nm (connections_ (srv w)) = Some c → ∃ o i, objs w !! c = Some o ∧
    TcpConnection.name_ (ob_conn o) = nm ∧ 1 ≤ i < nextConnId_ (srv w) ∧ nm = conn_name (hostPost_ (srv w)) i;
  co_names c1 c2 o1 o2 : objs w !! c1 = Some o1 → objs w !! c2 = Some o2 →
    TcpConnection.name_ (ob_conn o1) = TcpConnection.name_ (ob_conn o2) → c1 = c2;
  (* out of the registry: disconnected, and out of the poller or about to be destroyed *)
  co_closing c o : objs w !! c = Some o → (¬ in_registry w c o) →
    state_ (ob_conn o) = kDisconnected ∧ (reg w o = false ∨ FnDestroy ∈ pend w c o);
  (* a functor refers to a live connection of the loop it waits in *)
  co_functor la l g : loops w !! la = Some l → g ∈ rt_pending l →
    match g with
    | SfConn c _ => ∃ o, objs w !! c = Some o ∧ ob_loop o = la
    | SfRemove c => la = loop_ (srv w) ∧ is_Some (objs w !! c)
    | SfListen => la = loop_ (srv w)
    end;
  (* nothing holds it: out of the poller, and no functor is left *)
  co_released c o : objs w !! c = Some o → referenced c w = false → reg w o = false ∧ pend w c o = []
}.

Section safety.
Context {C X S L F K U : Type} `{Socket S} `{SockKernel K} `{ReactorFrame L F (srv_fn C)}.
Abbreviation World := (SW C X S L K U).
Context (bind : srv_cb → F) (new_obj : World → addr) (new_chan : L → addr) (new_sock : Z → K → S).
Context (user : C → Z → addr → cb_arg → World → outcome World).

Lemma inv_consistent (w : World) : srv_inv (F := F) None w → consistent w.
Proof.
  intros Hinv. split.
  - intros nm c Hnm. destruct (si_entry _ w Hinv nm c Hnm) as (o & Ho & <-).
    destruct (oi_name _ _ _ _ (si_obj _ w Hinv c o Ho)) as (i & Hi & Hname). by exists o, i.
  - apply (si_names _ w Hinv).
  - intros c o Ho Hno. pose proof (si_obj _ w Hinv c o Ho) as Hi.
    destruct (oi_closing _ _ _ _ Hi (or_introl Hno)) as [Hd _]. split; [done|].
    destruct (oi_settled _ _ _ _ Hi Hno) as [(p & q & -> & _)|[Hr _]].
    + right. apply elem_of_app. right. by left.
    + left. unfold reg_but in Hr. by rewrite decide_False in Hr.
  - intros la l' g Hla Hg. pose proof (si_fns _ w Hinv la l' g Hla Hg) as Hok.
    destruct g as [c f| |c]; [by destruct Hok|done|done].
  - intros c o Ho Href. by destruct (unreferenced_done w c o Hinv Ho Href).
Qed.

(** The life of a server: constructed, configured, started, any steps. *)
Record lifetime (host : byte_order) (inet_ntop : Z → list byte) (chan loop : addr) (a : sockaddr_in) (name : list byte)
    (l : L) (k : K) (ls : gmap addr L) (u : U) (cc mc wc : option C) (n tid : Z) (new_loop : nat → addr)
    (loop_state : nat → L) (thread_init : C → addr → World → outcome World) (w0 w1 w2 w : World) : Prop := {
  lf_obj w : objs w !! new_obj w = None;       (* the allocators return free addresses *)
  lf_chan l : rt_channel l (new_chan l) = None;
  lf_base : rt_pending l = [];                 (* nothing waits in the loops at first *)
  lf_loops la l' : ls !! la = Some l' → rt_pending l' = [];
  lf_new i : new_loop i ≠ loop;
  lf_state i : rt_pending (loop_state i) = [];
  lf_ctor : TcpServer_ctor bind host inet_ntop chan loop a name l k ls u = Ok w0;
  lf_set : setNumOfThreads n (set_srv (setCallbacks cc mc wc None (srv w0)) w0) = Ok w1;
  lf_start : start thread_init tid new_loop loop_state w1 = Ok w2;
  lf_steps : rtc (srv_step user bind new_obj new_chan new_sock) w2 w
}.

Lemma lifetime_inv host ntop chan loop a name l k ls u cc mc wc n tid new_loop loop_state thread_init w0 w1 w2 w :
  (∀ u tid c arg (w w' : World), srv_inv (F := F) None w → user u tid c arg w = Ok w' → srv_inv (F := F) None w') →
  lifetime host ntop chan loop a name l k ls u cc mc wc n tid new_loop loop_state thread_init w0 w1 w2 w →
  srv_inv (F := F) None w.
Proof.
  intros Huser [Hfo Hfc Hl Hls Hnl Hst Hctor Hset Hstart Hsteps].
  assert (Hidle : idle w0) by by eapply ctor_idle.
  assert (Hloop : loop_ (srv w0) = loop).
  { apply bind_Ok_inv in Hctor as (x & _ & (? & _ & [= <-])%bind_Ok_inv). done. }
  apply bind_Ok_inv in Hset as (? & _ & [= <-]).
  refine (rtc_ind_r (srv_inv None) w2 _ _ w Hsteps).
  - eapply start_inv; [| | |exact Hst|exact Hstart]; [|done|by simpl; rewrite Hloop].
    apply set_srv_idle; [|done..]. by apply set_srv_idle.
  - intros y z _ Hstep Hy. by eapply srv_step_inv.
Qed.
End safety.

(** C7: the connections of a server are safe.  From construction and [start], over any steps (new
    connections, functors of any loop, events of watched channels, sends, shutdowns and
    closes by user code in the thread of the connection's loop, in callbacks or between
    them, objects released when nothing refers to them):
    every entry of the registry is a live connection of that name, "host:port#k" with a k
    handed out before; no two connections share a name; a connection out of the registry is
    disconnected, and its channel is out of the poller or its destruction is queued in its
    own loop; every pending functor refers to a live connection of the loop it waits in; and
    a connection that nothing holds is out of the poller and has no functor pending, not
    even one of [send] or [shutdown], which do not hold it: no released channel stays
    registered and no functor runs on a released connection.  User code that calls a
    connection of another thread's loop is left out, as it breaks this
    ([late_shutdown_breaks], ClientSteps.late_queue_dangles). *)
Theorem connections_safe {C X S L F K U} `{Socket S} `{SockKernel K} `{ReactorFrame L F (srv_fn C)}
    (bind : srv_cb → F) (new_obj : SW C X S L K U → addr) (new_chan : L → addr) (new_sock : Z → K → S)
    (script : C → Z → addr → cb_arg → SW C X S L K U → list user_action)
    host inet_ntop chan loop a name l k ls u cc mc wc n tid new_loop loop_state thread_init w0 w1 w2 w :
  own_script script →
  lifetime bind new_obj new_chan new_sock (scripted script) host inet_ntop chan loop a name l k ls u cc mc wc n tid
    new_loop loop_state thread_init w0 w1 w2 w →
  consistent w.
Proof. intros _ Hlife. eapply inv_consistent, lifetime_inv; [|exact Hlife]. intros. by eapply scripted_ok. Qed.

(** C8: a peer's close takes the connection down.  For a connection whose channel is watched,
    with nothing else waiting in its loop and in the base loop, a readable event at the end
    of the stream ([readv] returns 0) and the functors it queues end without a fault: the
    event disconnects it; the base loop's thread unregisters it, in the event itself or, if
    the connection lives in another thread's loop, in the functor queued in the base loop;
    the functor then queued in the connection's own loop takes its channel out of the poller;
    and nothing refers to the object any more, which goes with its channel, and its
    descriptor is closed.  No user code runs: the server's calls are the only ones. *)
Theorem peer_close_tears_down {C X S L F K U} `{SocketLaws S} `{SockKernelLaws K} `{!Reactor L F (srv_fn C)}
    `{!LoopRun L (srv_fn C)} `{!ReactorLaws L F (srv_fn C)} `{!ReactorFrame L F (srv_fn C)}
    (script : C → Z → addr → cb_arg → SW C X S L K U → list user_action)
    (tid tid_b : Z) (t : Timestamp) (w : SW C X S L K U) (c : addr) (o : conn_obj (srv_call C) X S) (l lb : L) (s : S) :
  let user := scripted script in
  srv_inv None w → up_conn w c o l → conn_inv (mkW (ob_conn o) l (ob_sock o) w) →
  rt_isInLoopThread tid l = true → rt_pending l = [] →
  loops w !! loop_ (srv w) = Some lb → rt_isInLoopThread tid_b lb = true → rt_pending lb = [] →
  zlen (buffer_ (inputBuffer_ (ob_conn o))) + extraBufSize ≤ vector_max_size →
  sk_readv (ob_sock o) (writableBytes (inputBuffer_ (ob_conn o))) extraBufSize = (s, ReadvData []) →
  ∃ w1 w2 w3 w4, io_event user tid c CbRead t w = Ok w1 ∧
    (if in_base tid w then w2 = w1 else run_next user tid_b (loop_ (srv w)) w1 = Ok w2) ∧
    (∃ o2, objs w2 !! c = Some o2 ∧ state_ (ob_conn o2) = kDisconnected ∧ ob_loop o2 = ob_loop o ∧
      pend w2 c o2 = [FnDestroy]) ∧
    map_find (TcpConnection.name_ (ob_conn o)) (connections_ (srv w2)) = None ∧
    run_next user tid (ob_loop o) w2 = Ok w3 ∧
    referenced c w3 = false ∧ drop_conn c w3 = Ok w4 ∧
    objs w4 !! c = None ∧ map_find (TcpConnection.name_ (ob_conn o)) (connections_ (srv w4)) = None ∧
    k_fds (skern w4) = k_fds (skern w) ∖ {[ob_fd o]} ∧
    (∀ l', loops w4 !! ob_loop o = Some l' → rt_channel l' (channel_ (ob_conn o)) = None).
Proof.
  intros user Hinv Hup Hci Ht Hp Hb Htb Hpb Hmax Hread. pose proof (uc_fd _ _ _ _ Hup) as Hfd.
  assert (Hok : ∀ u tid c arg w w', srv_inv (F := F) None w →
    user u tid c arg w = Ok w' → srv_inv (F := F) None w') by (intros; by eapply scripted_ok).
  destruct (close_ok user tid tid_b t w c o l lb s)
    as (w1 & w2 & o2 & l2 & Hev & Hrm & Hcl & Ht2 & Hlo & Hf & Hch & Hn & Hk); try done.
  assert (Hinv1 : srv_inv None w1).
  { eapply (io_event_inv user Hok); [exact Hinv|apply Hup| |exact Hev].
    destruct Hup as [_ Hl [e Hlive] _]. unfold reg. rewrite Hl. apply Hlive. }
  assert (Hinv2 : srv_inv None w2).
  { destruct (in_base tid w); [by subst|]. by eapply (run_next_inv user Hok). }
  destruct (closing_ends user Hok tid w2 c o2 l2)
    as (w3 & w4 & Hrun & Href & Hdrop & Hgone & Hs & Hfds & Hchan); try done; [by rewrite Hf, Hk|].
  rewrite Hlo in Hrun. rewrite Hf, Hk in Hfds. rewrite Hlo, Hch in Hchan.
  destruct Hcl as [Ho2 Hl2 _ _ Hname Hp2 _]. rewrite Hn in Hname.
  exists w1, w2, w3, w4. split_and!; try done; [|by rewrite Hs].
  exists o2. split_and!; [done| |done|].
  - apply (oi_closing _ _ _ _ (si_obj _ w2 Hinv2 c o2 Ho2)). left. unfold in_registry. by rewrite Hn, Hname.
  - unfold pend. rewrite Hl2. unfold fns. rewrite Hp2. simpl. by rewrite Z.eqb_refl.
Qed.

(** ** [shutdown] from another thread, as its three steps: the test of [state_], the new state,
    and the queueing of a functor with a plain [this] *)
Section late.
Context {C X S L F K U : Type} `{Socket S} `{SockKernel K} `{ReactorFrame L F (srv_fn C)}.
Abbreviation World := (SW C X S L K U).
Context (user : C → Z → addr → cb_arg → World → outcome World).
Implicit Types (w : World) (c : addr).

Definition shutdown_test c w : bool :=
  match objs w !! c with Some o => bool_decide (state_ (ob_conn o) = kConnected) | None => false end.
Definition shutdown_set c w : outcome World := on_conn c (λ x, Ok (put_state kDisconnecting x)) w.
Definition shutdown_queue (tid : Z) c w : outcome World := on_conn c (λ x, Ok (queue (SfConn c) tid FnShutdownInLoop x)) w.

(** Without anything in between the three steps are the call. *)
Lemma shutdown_steps tid c w o :
  objs w !! c = Some o → is_Some (loops w !! ob_loop o) → in_own tid c w = false →
  on_conn c (run_user_op user tid c UserShutdown) w =
  if shutdown_test c w then w ← shutdown_set c w; shutdown_queue tid c w else Ok w.
Proof.
  unfold in_own, shutdown_test. intros Ho [l Hl]. rewrite Ho, Hl. intros Ht.
  unfold shutdown_set, on_conn. rewrite (enter_ok c o l) by done. ok_simpl.
  unfold run_user_op, conn_user_op, shutdown. cbn [conn].
  case_bool_decide as Hst; ok_simpl.
  - unfold runInLoop. cbn [lp put_state set_conn]. rewrite Ht. ok_simpl.
    set (x := put_state kDisconnecting (mkW (ob_conn o) l (ob_sock o) w)).
    unfold shutdown_queue, on_conn. rewrite (enter_ok c (with_view x o) l).
    + ok_simpl. f_equal. unfold queue. cbn [lp set_lp conn sock usr with_view ob_conn ob_sock].
      rewrite (leave_eq c (set_lp _ x) o) by done.
      rewrite (leave_eq c _ (with_view x o)).
      2: { cbn [usr set_lp]. by apply (leave_obj w c o x). }
      rewrite (leave_eq c x o) by done. unfold put_loop, put_obj, set_loops, set_objs. simpl.
      by rewrite !insert_insert_eq.
    + by apply (leave_obj w c o x).
    + change (ob_loop (with_view x o)) with (ob_loop o). rewrite (leave_loops w c o x) by done. by rewrite decide_True.
  - f_equal. unfold leave. simpl. rewrite Ho. unfold put_loop, put_obj, set_loops, set_objs. destruct w, o. simpl in *.
    by rewrite !insert_id.
Qed.

(** When the loop has handled the peer's close after the test, the new state overwrites
    kDisconnected: a connection out of the registry is disconnecting again. *)
Theorem late_shutdown_breaks c w o :
  objs w !! c = Some o → is_Some (loops w !! ob_loop o) → (¬ in_registry w c o) →
  ∃ w1, shutdown_set c w = Ok w1 ∧ ¬ consistent w1.
Proof.
  intros Ho [l Hl] Hno. unfold shutdown_set, on_conn. rewrite (enter_ok c o l) by done. ok_simpl.
  set (x := put_state kDisconnecting (mkW (ob_conn o) l (ob_sock o) w)).
  eexists. split; [done|]. intros Hc.
  destruct (leave_rest w c o x eq_refl Ho) as (Hs & _).
  destruct (co_closing _ Hc c (with_view x o)) as [Hst _]; [by apply (leave_obj w c o x)| |done].
  unfold in_registry. by rewrite Hs.
Qed.
End late.

(** What [newConnectionCallback] makes of descriptor [fd] in loop [io]. *)
Record registered_as {C X S L F K U} `{Reactor L F (srv_fn C)} (w w' : SW C X S L K U) (c io : addr)
    (fd : Z) (peer : sockaddr_in) (st : State) (o : conn_obj (srv_call C) X S) : Prop := {
  ra_obj : objs w' = <[c := o]> (objs w);
  ra_loop : ob_loop o = io;
  ra_fd : ob_fd o = fd;
  ra_peer : ob_peer o = peer;
  ra_state : state_ (ob_conn o) = st;
  ra_name : TcpConnection.name_ (ob_conn o) = conn_name (hostPost_ (srv w)) (nextConnId_ (srv w));
  ra_registry : connections_ (srv w') = map_set (TcpConnection.name_ (ob_conn o)) c (connections_ (srv w));
  ra_next : nextConnId_ (srv w') = nextConnId_ (srv w) + 1;
  ra_callbacks : TcpConnection.connectionCallback_ (ob_conn o) = CallUser <$> connectionCallback_ (srv w) ∧
    TcpConnection.messageCallback_ (ob_conn o) = CallUser <$> messageCallback_ (srv w) ∧
    closeCallback_ (ob_conn o) = Some CallRemove ∧
    TcpConnection.writeCompleteCallback_ (ob_conn o) = CallUser <$> writeCompleteCallback_ (srv w);
  ra_others la : la ≠ io → loops w' !! la = loops w !! la
}.

(** C16: accepting a connection.  In the base loop's thread a new descriptor becomes a connection
    of the pool's next loop, under the name "host:port#k" with the next k, with the user's
    callbacks and the server's close callback.  If that loop is another thread's, the
    connection is left connecting, not watched, with [establishConnection] as the last
    functor queued there; if it is this thread's, it is established on the spot: connected,
    watched for reading, and the user's connection callback is called in that state. *)
Theorem new_connection_dispatched {C X S L F K U} `{Socket S} `{SockKernel K} `{!Reactor L F (srv_fn C)}
    `{!LoopRun L (srv_fn C)} `{!ReactorLaws L F (srv_fn C)} `{!ReactorFrame L F (srv_fn C)}
    (bind : srv_cb → F) (new_obj : SW C X S L K U → addr) (new_chan : L → addr) (new_sock : Z → K → S)
    (user : C → Z → addr → cb_arg → SW C X S L K U → outcome (SW C X S L K U))
    (tid fd : Z) (peer : sockaddr_in) (w : SW C X S L K U) (io : addr) (pool : LoopPool.EventLoopThreadPool) (l : L) :
  let c := new_obj w in
  in_base tid w = true → LoopPool.getNextLoop true (loopThreadPool_ (srv w)) = Ok (io, pool) →
  loops w !! io = Some l → rt_addr l = io → rt_can_add l (new_chan l) fd → - 2 ^ 31 ≤ nextConnId_ (srv w) < 2 ^ 31 - 1 →
  if rt_isInLoopThread tid l then
    ∀ u, connectionCallback_ (srv w) = Some u →
    ∃ w1 o l1, registered_as w w1 c io fd peer kConnected o ∧ loops w1 !! io = Some l1 ∧
      rt_event l1 (new_chan l) = Some kReadEvent_ ∧ rt_registered l1 (new_chan l) = true ∧
      rt_pending l1 = rt_pending l ∧
      ∀ w2 x, user u tid c ArgNone w1 = Ok w2 → enter c w2 = Ok x →
        newConnectionCallback bind new_obj new_chan new_sock user tid fd peer w = Ok w2
  else
    ∃ w1 o l1, newConnectionCallback bind new_obj new_chan new_sock user tid fd peer w = Ok w1 ∧
      registered_as w w1 c io fd peer kConnecting o ∧ loops w1 !! io = Some l1 ∧
      rt_event l1 (new_chan l) = Some 0 ∧ rt_registered l1 (new_chan l) = false ∧
      rt_pending l1 = rt_pending l ++ [SfConn c FnEstablish].
Proof.
  intros c Hbase Hnext Hl Haddr Hadd Hid. unfold newConnectionCallback, assert_base. rewrite Hbase.
  ok_simpl. rewrite Hnext. ok_simpl. rewrite (loop_at_ok _ l) by done.
  ok_simpl. fold c. unfold TcpConnection_ctor. cbn [conn lp sock].
  assert (Hn : i32 (nextConnId_ (srv w) + 1) = nextConnId_ (srv w) + 1).
  { unfold wraps. rewrite Z.mod_small; lia. }
  rewrite Hn.
  match goal with |- context [rt_new_channel (new_chan l) ?x l] => set (ch := x) end.
  match goal with |- context [put_obj c ?x w] => set (o := x) end.
  match goal with |- context [set_srv ?a ?b] => set (wj := set_srv a b) end.
  destruct (law_new l (new_chan l) ch Hadd) as (Hr & Hch & Hp & Hth); [done|done|].
  set (l' := rt_new_channel (new_chan l) ch l) in *. rewrite Hth.
  assert (Hlj : loops wj !! io = Some l') by apply lookup_insert_eq.
  assert (Hoj : objs wj !! c = Some o) by apply lookup_insert_eq.
  destruct (rt_isInLoopThread tid l) eqn:Ht.
  - intros u Hu. unfold on_conn. rewrite (enter_ok c o l') by done. ok_simpl.
    destruct (establish_run (call user tid c) tid (mkW (ob_conn o) l' (ob_sock o) wj) ch)
      as (l3 & st & -> & Hr3 & Hg3 & Hch3 & _ & Hp3 & Hth3); [done|done|by rewrite Hth|].
    change (channel_ (conn _)) with (new_chan l) in Hr3, Hg3, Hch3. change (lp (mkW _ _ _ _)) with l' in Hp3, Hth3.
    set (x := set_lp l3 (put_state kConnected (mkW (ob_conn o) l' (ob_sock o) wj))).
    set (w1 := leave c x). exists w1, (with_view x o), l3.
    destruct (leave_rest wj c o x eq_refl Hoj) as (Hs1 & _ & _). fold w1 in Hs1.
    assert (Hl1 : ∀ la, loops w1 !! la = if decide (la = io) then Some l3 else loops wj !! la).
    { intros la. unfold w1. by rewrite (leave_loops wj c o x). }
    split_and!.
    + split; try done; simpl.
      * unfold w1. rewrite (leave_eq c x o) by done. simpl. by rewrite insert_insert_eq.
      * by rewrite Hs1.
      * by rewrite Hs1.
      * intros la Hne. rewrite Hl1, decide_False by done. simpl. by rewrite lookup_insert_ne.
    + by rewrite Hl1, decide_True.
    + unfold rt_event. by rewrite Hch3.
    + done.
    + by rewrite Hp3, Hp.
    + intros w2 y Huser Hy. change (TcpConnection.connectionCallback_ _) with (CallUser <$> connectionCallback_ (srv w)).
      rewrite Hu. cbn [fmap option_fmap option_map invoke]. unfold call. fold w1. rewrite Huser.
      ok_simpl. rewrite Hy. ok_simpl. by destruct (leave_enter c w2 y Hy) as [-> _].
  - unfold queue_in. rewrite (loop_at_ok _ l') by done. ok_simpl.
    destruct (law_queue tid (SfConn c FnEstablish) l') as (Hq & Hchq & _).
    eexists _, o, (rt_queueInLoop tid (SfConn c FnEstablish) l'). split; [done|]. split_and!.
    + split; try done. intros la Hne. simpl. by rewrite !lookup_insert_ne.
    + apply lookup_insert_eq.
    + unfold rt_event. by rewrite Hchq, Hch.
    + unfold rt_registered. rewrite Hchq, Hch. by rewrite bool_decide_eq_true_2.
    + by rewrite Hq, Hp.
Qed.

(** misuse of a server.  A second [start] fails the assertion of the pool (the test of
    [started_] guards nothing); a [start] outside of the base loop's thread is fatal; and
    so is the destructor while the first connection of the registry lives in a loop of
    another thread: it destroys the connections from its own thread. *)
Theorem server_misuse_stops {C X S L F K U} `{Socket S} `{SockKernel K} `{ReactorFrame L F (srv_fn C)}
    (user : C → Z → addr → cb_arg → SW C X S L K U → outcome (SW C X S L K U))
    (thread_init : C → addr → SW C X S L K U → outcome (SW C X S L K U))
    (tid : Z) (new_loop : nat → addr) (loop_state : nat → L) (w : SW C X S L K U) :
  (LoopPool.started_ (loopThreadPool_ (srv w)) = true →
     start thread_init tid new_loop loop_state w ↯ AssertFailed) ∧
  (LoopPool.started_ (loopThreadPool_ (srv w)) = false → in_base tid w = false →
     start thread_init tid new_loop loop_state w ↯ Aborted) ∧
  (∀ n c r o l, connections_ (srv w) = (n, c) :: r → objs w !! c = Some o → loops w !! ob_loop o = Some l →
     rt_isInLoopThread tid l = false → TcpServer_dtor user tid w ↯ Aborted).
Proof.
  split_and!.
  - intros Hs. unfold start, LoopPool.start. simpl. by rewrite Hs.
  - intros Hs Hb. unfold start, LoopPool.start. simpl. rewrite Hs.
    replace (in_base tid _) with (in_base tid w) by done. by rewrite Hb.
  - intros n c r o l Hconns Ho Hl Ht. unfold TcpServer_dtor. rewrite Hconns. simpl destroy_all. unfold on_conn.
    rewrite (enter_ok c o l) by done. ok_simpl.
    unfold destoryConnection, assertLoop, rt_assertInLoopThread. simpl. by rewrite Ht.
Qed.

(** ** Small worlds for the examples: event loops on a small kernel *)
Abbreviation small_loop C := (EventLoop srv_cb (srv_fn C) unit sim_kernel N).
Abbreviation small_W C X U := (SW C X sim_socket (small_loop C) sim_net U).

Section small.
Context {C X U : Type}.

#[export] Instance small_loop_laws : ReactorLaws (small_loop C) (loop_cb srv_cb) (srv_fn C) :=
  loop_reactor_laws sim_epoll_accepts.

Definition loop_at_start (tid : Z) (a : addr) : small_loop C :=
  mkEventLoop true false false false 4 efd_new invalid (Poll_ctor tid a 3 []) 100
    (TimerQueue.TimerQueue_ctor tid) 101 [] [].
Definition fresh_obj (w : small_W C X U) : addr := fresh (dom (objs w) : gset Z).
Definition fresh_chan (l : small_loop C) : addr := fresh (dom (channels (poll_ l)) : gset Z).

Lemma fresh_obj_free (w : small_W C X U) : objs w !! fresh_obj w = None.
Proof. apply (not_elem_of_dom (D := gset Z)). exact (is_fresh (dom (objs w) : gset Z)). Qed.
Lemma fresh_chan_free (l : small_loop C) : rt_channel l (fresh_chan l) = None.
Proof. apply (not_elem_of_dom (D := gset Z)). exact (is_fresh (dom (channels (poll_ l)) : gset Z)). Qed.
Lemma no_loops (la : addr) (l : small_loop C) : (∅ : gmap addr (small_loop C)) !! la = Some l → rt_pending l = [].
Proof. by rewrite lookup_empty. Qed.

(** Three descriptors in use and one connection that waits to be accepted; a world before
    anything is constructed. *)
Definition one_waiting : sim_net := mkSimNet [2; 1; 0] 10 [mkSockaddr AF_INET 99 7] 0 0.
Definition blank (u : U) : small_W C X U :=
  mkSW (mkServer 50 false [] [] 1 (LoopPool.EventLoopThreadPool_ctor 50) [] None None None None)
    (mkAcceptor false 0 0 0 None) one_waiting ∅ ∅ u.

(** A connection and the loop of an example's world, which are there. *)
Definition conn_of (w : small_W C X U) (c : addr) : conn_obj (srv_call C) X sim_socket :=
  match objs w !! c with
  | Some o => o
  | None => mkObj (mkTcpConnection 0 [] kDisconnected 0 Buffer_new Buffer_new 0 None None None None None None) 0
              (mkSimSocket [] false 0 (ReadvData [])) 0 sockaddr_zero sockaddr_zero
  end.
Definition loop_of (w : small_W C X U) (a : addr) : small_loop C :=
  match loops w !! a with Some l => l | None => loop_at_start 0 a end.
End small.

(** ** A server on two event loops: the base loop 50 in thread 1, another, 60, in thread 2 *)
Abbreviation srv_loop := (small_loop nat).
Abbreviation srv_W := (small_W nat unit (list nat)).
Abbreviation demo_loop_at := (loop_at_start (C := nat)).
Abbreviation demo_kern := one_waiting.
Definition demo_sock (_ : Z) (_ : sim_net) : sim_socket := mkSimSocket [] false 100 (ReadvData []).
Definition demo_script (u : nat) (tid : Z) (c : addr) (arg : cb_arg) (w : srv_W) : list (user_action (U := list nat)) :=
  [ActData (λ log, log ++ [u])].
Definition demo_init (_ : nat) (_ : addr) (w : srv_W) : outcome srv_W := Ok w.

Definition result_or {A} (d : A) (m : outcome A) : A := match m with Ok a => a | Err _ => d end.

(** Before construction; constructed; started with [n] threads; a connection accepted. *)
Abbreviation demo_blank := (blank (C := nat) (X := unit) (@nil nat)).
Definition demo_ctor : outcome srv_W :=
  TcpServer_ctor CbUser big_endian (λ _, str "127.0.0.1") 200 50 (mkSockaddr AF_INET 80 0) (str "demo")
    (demo_loop_at 1 50) demo_kern ∅ [].
Definition demo_w0 : srv_W := result_or demo_blank demo_ctor.
Definition demo_set (n : Z) : outcome srv_W :=
  setNumOfThreads n (set_srv (setCallbacks (Some 0%nat) (Some 1%nat) None None (srv demo_w0)) demo_w0).
Definition demo_w1 (n : Z) : srv_W := result_or demo_blank (demo_set n).
Definition demo_start (n : Z) : outcome srv_W :=
  start demo_init 1 (λ i, 60 + Z.of_nat i) (λ i, demo_loop_at (2 + Z.of_nat i) (60 + Z.of_nat i)) (demo_w1 n).
Definition demo_w2 (n : Z) : srv_W := result_or demo_blank (demo_start n).
Definition demo_accept (n : Z) : outcome srv_W :=
  acceptor_readable CbUser fresh_obj fresh_chan demo_sock (scripted demo_script) 1 (demo_w2 n).
Definition demo_w3 (n : Z) : srv_W := result_or demo_blank (demo_accept n).

Definition is_ok {A} (m : outcome A) : bool := match m with Ok _ => true | Err _ => false end.
Lemma is_ok_result {A} (d : A) (m : outcome A) : is_ok m = true → m = Ok (result_or d m).
Proof. by destruct m. Qed.

Lemma demo_ctor_ok : demo_ctor = Ok demo_w0.
Proof. apply is_ok_result. vm_compute. reflexivity. Qed.
Lemma demo_set_ok : demo_set 1 = Ok (demo_w1 1).
Proof. apply is_ok_result. vm_compute. reflexivity. Qed.
Lemma demo_start_ok : demo_start 1 = Ok (demo_w2 1).
Proof. apply is_ok_result. vm_compute. reflexivity. Qed.
Lemma demo_accept_ok : demo_accept 1 = Ok (demo_w3 1).
Proof. apply is_ok_result. vm_compute. reflexivity. Qed.

Lemma demo_new_loop i : 60 + Z.of_nat i ≠ 50.
Proof. lia. Qed.

Abbreviation demo_step := (srv_step (scripted demo_script) CbUser fresh_obj fresh_chan demo_sock).
Lemma demo_accepted : rtc demo_step (demo_w2 1) (demo_w3 1).
Proof. apply rtc_once. apply (sv_accept _ _ _ _ _ _ 1); [vm_compute; reflexivity|exact demo_accept_ok]. Qed.

Lemma demo_lifetime : lifetime CbUser fresh_obj fresh_chan demo_sock (scripted demo_script) big_endian
  (λ _, str "127.0.0.1") 200 50 (mkSockaddr AF_INET 80 0) (str "demo") (demo_loop_at 1 50) demo_kern ∅ []
  (Some 0%nat) (Some 1%nat) None 1 1 (λ i, 60 + Z.of_nat i) (λ i, demo_loop_at (2 + Z.of_nat i) (60 + Z.of_nat i))
  demo_init demo_w0 (demo_w1 1) (demo_w2 1) (demo_w3 1).
Proof.
  split; [exact fresh_obj_free|exact fresh_chan_free|done|exact no_loops|exact demo_new_loop|done|
    exact demo_ctor_ok|exact demo_set_ok|exact demo_start_ok|exact demo_accepted].
Qed.

Lemma demo_own : own_script demo_script.
Proof. intros u tid c arg w. repeat constructor. Qed.

Lemma connections_safe_witness :
  map_find (str "127.0.0.1:80#1") (connections_ (srv (demo_w3 1))) = Some 0 ∧ consistent (demo_w3 1).
Proof.
  split; [vm_compute; reflexivity|].
  exact (connections_safe CbUser fresh_obj fresh_chan demo_sock demo_script big_endian
    (λ _, str "127.0.0.1") 200 50 (mkSockaddr AF_INET 80 0) (str "demo") (demo_loop_at 1 50) demo_kern ∅ []
    (Some 0%nat) (Some 1%nat) None 1 1 (λ i, 60 + Z.of_nat i) (λ i, demo_loop_at (2 + Z.of_nat i) (60 + Z.of_nat i))
    demo_init demo_w0 (demo_w1 1) (demo_w2 1) (demo_w3 1) demo_own demo_lifetime).
Defined.

(** The accepted connection is established in its loop. *)
Definition demo_w4 : srv_W := result_or demo_blank (run_next (scripted demo_script) 2 60 (demo_w3 1)).
Lemma demo_conn_established : run_next (scripted demo_script) 2 60 (demo_w3 1) = Ok demo_w4.
Proof. apply is_ok_result. vm_compute. reflexivity. Qed.

Lemma demo_w4_inv : srv_inv (F := loop_cb srv_cb) None demo_w4.
Proof.
  assert (Hok : ∀ u tid c arg (w w' : srv_W), srv_inv (F := loop_cb srv_cb) None w →
    scripted demo_script u tid c arg w = Ok w' → srv_inv (F := loop_cb srv_cb) None w')
    by (intros; by eapply scripted_ok).
  assert (Hidle : idle demo_w0).
  { eapply (ctor_idle (S := sim_socket)); [| |exact demo_ctor_ok]; [reflexivity|exact no_loops]. }
  assert (Hinv2 : srv_inv (F := loop_cb srv_cb) None (demo_w2 1)).
  { refine (start_inv demo_init 1 (λ i, 60 + Z.of_nat i) (λ i, demo_loop_at (2 + Z.of_nat i) (60 + Z.of_nat i))
      (demo_w1 1) (demo_w2 1) _ eq_refl demo_new_loop (λ _, eq_refl) demo_start_ok).
    set (s := setCallbacks (Some 0%nat) (Some 1%nat) None None (srv demo_w0)).
    change (idle (set_srv (set_pool (LoopPool.setNumOfThreads 1 (loopThreadPool_ s)) s) (set_srv s demo_w0))).
    apply set_srv_idle; [|done..]. by apply set_srv_idle. }
  assert (Hinv3 : srv_inv (F := loop_cb srv_cb) None (demo_w3 1)).
  { eapply (srv_step_inv _ Hok CbUser fresh_obj fresh_chan demo_sock fresh_obj_free fresh_chan_free _ _ Hinv2).
    eapply sv_accept; [|exact demo_accept_ok]. vm_compute. reflexivity. }
  eapply (srv_step_inv _ Hok CbUser fresh_obj fresh_chan demo_sock fresh_obj_free fresh_chan_free _ _ Hinv3).
  eapply sv_functor. exact demo_conn_established.
Qed.

Definition demo_obj : conn_obj (srv_call nat) unit sim_socket :=
  match objs demo_w4 !! 0 with
  | Some o => o
  | None => mkObj (conn (TcpConnection_ctor (λ _, CbUser ScAccept) 0 0 [] 0 0 (demo_sock 0 demo_kern) (demo_loop_at 2 60) tt))
      0 (demo_sock 0 demo_kern) 0 sockaddr_zero sockaddr_zero
  end.
Definition demo_base : srv_loop := match loops demo_w4 !! 50 with Some l => l | None => demo_loop_at 1 50 end.
Definition demo_io : srv_loop := match loops demo_w4 !! 60 with Some l => l | None => demo_loop_at 2 60 end.

Lemma demo_io_live : chan_live demo_io 0 kReadEvent_.
Proof. apply live_check_ok. vm_compute. reflexivity. Qed.

Lemma demo_up : up_conn demo_w4 0 demo_obj demo_io.
Proof.
  split; [vm_compute; reflexivity..| |].
  - exists kReadEvent_. exact demo_io_live.
  - apply (bool_decide_unpack _). vm_compute. exact I.
Qed.

Lemma demo_buffers : conn_inv (mkW (ob_conn demo_obj) demo_io (ob_sock demo_obj) demo_w4).
Proof.
  split; [exact wf_new|exact wf_new|vm_compute; done|exact (cl_ready _ _ _ demo_io_live)|].
  vm_compute. discriminate.
Qed.

Lemma peer_close_tears_down_witness :
  ∃ w1 w2 w3 w4, io_event (scripted demo_script) 2 0 CbRead invalid demo_w4 = Ok w1 ∧
    run_next (scripted demo_script) 1 50 w1 = Ok w2 ∧ map_find (str "127.0.0.1:80#1") (connections_ (srv w2)) = None ∧
    run_next (scripted demo_script) 2 60 w2 = Ok w3 ∧ drop_conn 0 w3 = Ok w4 ∧
    objs w4 !! 0 = None ∧ k_fds (skern w4) = k_fds (skern demo_w4) ∖ {[5]}.
Proof.
  destruct (peer_close_tears_down demo_script 2 1 invalid demo_w4 0 demo_obj demo_io demo_base (ob_sock demo_obj)
      demo_w4_inv demo_up demo_buffers eq_refl ltac:(vm_compute; reflexivity) ltac:(vm_compute; reflexivity)
      ltac:(vm_compute; reflexivity) ltac:(vm_compute; reflexivity) ltac:(vm_compute; congruence)
      ltac:(vm_compute; reflexivity))
    as (w1 & w2 & w3 & w4 & Hev & Hrm & _ & Hname & Hrun & _ & Hdrop & Hgone & _ & Hfds & _).
  exists w1, w2, w3, w4. split_and!; [exact Hev|exact Hrm|exact Hname|exact Hrun|exact Hdrop|exact Hgone|exact Hfds].
Defined.

(** Thread 1 tests the state of the connection in loop 60; the peer closes it, which loop 60 and
    the base loop handle; thread 1 goes on. *)
Definition demo_closed : srv_W :=
  result_or demo_blank (w ← io_event (scripted demo_script) 2 0 CbRead invalid demo_w4; run_next (scripted demo_script) 1 50 w).
Lemma late_shutdown_example :
  shutdown_test 0 demo_w4 = true ∧ ∃ w, shutdown_set 0 demo_closed = Ok w ∧ ¬ consistent w.
Proof.
  split; [vm_compute; reflexivity|]. apply (late_shutdown_breaks 0 demo_closed (conn_of demo_closed 0)).
  - vm_compute. reflexivity.
  - exists (loop_of demo_closed 60). vm_compute. reflexivity.
  - unfold in_registry. vm_compute. discriminate.
Qed.

Lemma new_connection_dispatched_witness :
  ∃ w1 o l1, newConnectionCallback CbUser fresh_obj fresh_chan demo_sock (scripted demo_script) 1 5
      (mkSockaddr AF_INET 99 7) (demo_w2 1) = Ok w1 ∧
    registered_as (demo_w2 1) w1 0 60 5 (mkSockaddr AF_INET 99 7) kConnecting o ∧ loops w1 !! 60 = Some l1 ∧
    rt_event l1 0 = Some 0 ∧ rt_registered l1 0 = false ∧
    rt_pending l1 = [SfConn 0 FnEstablish].
Proof.
  refine (new_connection_dispatched CbUser fresh_obj fresh_chan demo_sock (scripted demo_script) 1 5
    (mkSockaddr AF_INET 99 7) (demo_w2 1) 60 _ (demo_loop_at 2 60) _ _ _ eq_refl _ _);
    [vm_compute; reflexivity..| |].
  - split; [apply poll_inv_ctor|]. by split.
  - vm_compute. by split.
Defined.

Lemma server_misuse_stops_witness :
  start demo_init 1 (λ i, 60 + Z.of_nat i) (λ i, demo_loop_at (2 + Z.of_nat i) (60 + Z.of_nat i)) demo_w4 =
    Err AssertFailed ∧
  TcpServer_dtor (scripted demo_script) 1 demo_w4 ↯ Aborted.
Proof.
  destruct (server_misuse_stops (scripted demo_script) demo_init 1 (λ i, 60 + Z.of_nat i)
    (λ i, demo_loop_at (2 + Z.of_nat i) (60 + Z.of_nat i)) demo_w4) as (H1 & _ & H3).
  split; [apply H1; vm_compute; reflexivity|].
  apply (H3 (str "127.0.0.1:80#1") 0 [] demo_obj demo_io); vm_compute; reflexivity.
Defined.
