(* ===== verification/ServerUser.v ===== *)
(** * ServerUser: user code on the connections of a TcpServer

    What the callbacks of the servers built on TcpServer (HttpServer, the examples) have in
    common: a callback that only touches its connection's data, sends and shuts down keeps
    the server's invariant, and an event that delivers data runs the message callback on it. *)
From S2P Require Import Prelude Timestamp Inet SockKernel Buffer Channel Reactor TcpConnection TcpFlow ConnFrame TcpServer ServerInv ServerLife ServerProps.
From S2P Require Acceptor LoopPool.

(** ** Callbacks that keep the invariant of the server *)
Section gentle.
Context {C X S L F K U : Type} `{Socket S} `{SockKernel K} `{ReactorFrame L F (srv_fn C)}.
Abbreviation World := (SW C X S L K U).
Abbreviation ConnW := (W (srv_call C) X S L World).
Implicit Types (w : World) (x y z : ConnW) (c : addr).

(** In the loop's thread neither [send] nor [shutdown] calls back. *)
Definition no_call (_ : srv_call C) (_ : cb_arg) (x : ConnW) : outcome ConnW := Ok x.

(** Only the connection's data differ. *)
Definition still x y : Prop :=
  lp y = lp x ∧ usr y = usr x ∧ ident (conn y) = ident (conn x) ∧ state_ (conn y) = state_ (conn x).

(** What the callbacks do: nothing but data, unless the connection is up. *)
Definition gentle c x y : Prop :=
  still x y ∨ state_ (conn x) = kConnected ∧ quiet (SfConn c) true (queues kConnected) x y.

Lemma still_quiet c x y : still x y → quiet (SfConn c) true (queues kConnected) x y.
Proof. intros (Hl & Hu & Hi & Hs). apply quiet_local; [done..|by left]. Qed.

Lemma gentle_refl c x : gentle c x x.
Proof. by left. Qed.

Lemma gentle_trans c x y z : gentle c x y → gentle c y z → gentle c x z.
Proof.
  intros [Hxy|[Hst Hxy]] [Hyz|[Hst' Hyz]].
  - left. destruct Hxy as (Hl & Hu & Hi & Hs), Hyz as (Hl' & Hu' & Hi' & Hs'). split_and!; congruence.
  - right. split; [by destruct Hxy as (_ & _ & _ & <-)|]. eapply quiet_trans; [by apply still_quiet|done].
  - right. split; [done|]. eapply quiet_trans; [done|by apply still_quiet].
  - right. split; [done|]. by eapply quiet_trans.
Qed.

Lemma gentle_data c x y :
  lp y = lp x → usr y = usr x → ident (conn y) = ident (conn x) → state_ (conn y) = state_ (conn x) → gentle c x y.
Proof. intros. by left. Qed.

Lemma gentle_ident c x y : gentle c x y → later_ok user_call (conn x) → later_ok user_call (conn y).
Proof. intros [(_ & _ & Hi & _)|[_ Hq]]; eapply ident_later; [exact Hi|apply (q_ident _ _ _ _ _ Hq)]. Qed.

Lemma gentle_send c tid msg x y :
  later_ok user_call (conn x) → send (SfConn c) no_call tid msg x = Ok y → gentle c x y.
Proof.
  intros Hl Hrun. apply (send_quiet (SfConn c) user_call) in Hrun as [[_ ->]|[Hst Hq]]; [apply gentle_refl| |done].
  right. split; [done|]. eapply quiet_weaken; [|exact Hq]. intros f [?| ->]; [by left|by right].
Qed.

Lemma gentle_shutdown c tid x y : shutdown (SfConn c) no_call tid x = Ok y → gentle c x y.
Proof.
  intros Hrun. apply (shutdown_quiet (SfConn c) user_call) in Hrun as [[_ ->]|[Hst Hq]]; [apply gentle_refl|].
  right. split; [done|]. apply quiet_reg. eapply quiet_weaken; [|exact Hq]. intros f [?| ->]; [by left|by right].
Qed.

Lemma gentle_send_buffer c tid buf x r :
  later_ok user_call (conn x) → send_buffer (SfConn c) no_call tid buf x = Ok r → gentle c x r.2.
Proof.
  intros Hl. unfold send_buffer. case_bool_decide as Hst; [|intros [= <-]; apply gentle_refl].
  destruct (rt_isInLoopThread tid (lp x)) eqn:Ht; intros Hrun.
  - apply bind_Ok_inv in Hrun as (data & _ & (y & Hrun & [= <-])%bind_Ok_inv).
    apply (gentle_send c tid data); [done|]. unfold send. by rewrite bool_decide_eq_true_2, Ht by done.
  - apply bind_Ok_inv in Hrun as ([data b] & _ & (y & Hrun & [= <-])%bind_Ok_inv).
    apply (gentle_send c tid data); [done|]. unfold send. by rewrite bool_decide_eq_true_2, Ht by done.
Qed.


(** Code that is gentle on its connection keeps the server's invariant. *)
Lemma gentle_inv c (f : ConnW → outcome ConnW) w w' :
  (∀ x y, later_ok user_call (conn x) → f x = Ok y → gentle c x y) →
  srv_inv (F := F) None w → on_conn c f w = Ok w' → srv_inv (F := F) None w'.
Proof.
  intros Hf Hinv (x & Hx & (y & Hrun & [= <-])%bind_Ok_inv)%bind_Ok_inv.
  destruct (enter_inv c w x Hx) as (o & l & Ho & Hl & ->).
  pose proof (si_obj _ w Hinv c o Ho) as Hi.
  destruct (Hf (mkW (ob_conn o) l (ob_sock o) w) y (oi_later _ _ _ _ Hi) Hrun) as [(Hlp & Hu & Hid & Hst)|[Hst Hq]].
  - by apply (data_inv w c o y l).
  - simpl in Hst. apply (leave_inv None true w c o l); [done|done|done|by rewrite Hst| |].
    + intros Hin. destruct (oi_est _ _ _ _ Hi Hin). congruence.
    + intros _. left. apply (up_registered None w c o Hinv Ho). by rewrite Hst.
Qed.
End gentle.

(** ** An event that delivers data *)
Section read_event.
Context {C X S L F K U : Type} `{SocketLaws S} `{SockKernel K} `{!Reactor L F (srv_fn C)} `{!LoopRun L (srv_fn C)}
  `{!ReactorLaws L F (srv_fn C)} `{!ReactorFrame L F (srv_fn C)}.
Abbreviation World := (SW C X S L K U).
Abbreviation ConnW := (W (srv_call C) X S L World).
Context (user : C → Z → addr → cb_arg → World → outcome World).
Implicit Types (w : World) (x y : ConnW) (c : addr).

Lemma enter_leave c x o :
  objs (usr x) !! c = Some o → enter c (leave c x) = Ok (set_usr (leave c x) x).
Proof.
  intros Ho. unfold enter, obj_at. rewrite (leave_obj (usr x) c o x) by done. ok_simpl.
  unfold loop_at. change (ob_loop (with_view x o)) with (ob_loop o). rewrite (leave_loops (usr x) c o x) by done.
  by rewrite decide_True.
Qed.

(** A connection that was established and not used yet. *)
Lemma up_fresh tid x :
  inputBuffer_ (conn x) = Buffer_new → outputBuffer_ (conn x) = Buffer_new →
  chan_live (lp x) (channel_ (conn x)) kReadEvent_ → state_ (conn x) = kConnected → sk_wr_shut (sock x) = false →
  rt_isInLoopThread tid (lp x) = true → up tid x.
Proof.
  intros Hin Hout Hlive Hst Hsh Ht.
  assert (Hnil : output x = []) by (unfold output; rewrite Hout; apply content_new).
  split; [split| |by left|done].
  - rewrite Hin. apply wf_new.
  - rewrite Hout. apply wf_new.
  - intros _. by rewrite Hout.
  - apply Hlive.
  - unfold writing. rewrite isWriting_event, (chan_live_event _ _ _ Hlive). by intros [=].
  - by intros [].
Qed.

(** An idle connection whose socket does not fail takes all of a message. *)
Lemma taken_all (data : list byte) x :
  wf (outputBuffer_ (conn x)) → output x = [] → write_fault (sk_write (sock x) data) = false → taken data x = data.
Proof. intros Hwf Hout Hfault. unfold taken. rewrite (readable_output x Hwf), Hout. simpl. by rewrite Hfault. Qed.

(** A readable event delivers the data to the message callback, which runs in the world with
    the data in the input buffer; what it makes of its connection is what the event leaves. *)
Lemma io_read_event tid c t w (o : conn_obj (srv_call C) X S) (l : L) (m : C) (data : list byte) (s : S) :
  let x := mkW (ob_conn o) l (ob_sock o) w in
  objs w !! c = Some o → loops w !! ob_loop o = Some l → TcpConnection.messageCallback_ (ob_conn o) = Some (CallUser m) →
  up tid x →
  zlen (buffer_ (inputBuffer_ (ob_conn o))) + extraBufSize ≤ vector_max_size →
  sk_readv (ob_sock o) (writableBytes (inputBuffer_ (ob_conn o))) extraBufSize = (s, ReadvData data) →
  0 < zlen data →
  ∃ b, content b = content (inputBuffer_ (ob_conn o)) ++ data ∧
    let x1 := set_conn (set_input b (ob_conn o)) (set_sock s x) in
    up tid x1 ∧ sk_sent s = sk_sent (ob_sock o) ∧
    ∀ y, user m tid c (ArgTime t) (leave c x1) = Ok (leave c y) → usr y = leave c x1 →
      ∃ w', io_event user tid c CbRead t w = Ok w' ∧ objs w' = <[c := with_view y o]> (objs w) ∧ srv w' = srv w ∧
        loops w' !! ob_loop o = Some (lp y) ∧ (∀ la, la ≠ ob_loop o → loops w' !! la = loops w !! la).
Proof.
  intros x Ho Hl Hmc Hup Hmax Hread Hlen.
  destruct (handleRead_data (call user tid c) tid t x data (up_inv _ _ Hup) (up_thread _ _ Hup))
    as (b & Hwf & Hb & Hrun); [by simpl; rewrite Hread|done|].
  exists b. split; [exact Hb|]. cbv zeta in Hrun. simpl in Hrun. rewrite Hread, (proj2 (Z.ltb_lt _ _) Hlen), Hmc in Hrun.
  cbn [fst invoke] in Hrun.
  destruct (readv_sent (ob_sock o) (writableBytes (inputBuffer_ (ob_conn o))) extraBufSize) as [Hsent Hshut].
  rewrite Hread in Hsent, Hshut. cbn [fst] in Hsent, Hshut.
  intros x1. split_and!; [exact (up_read tid b s x Hup Hwf Hshut)|done|]. intros y Huser Hu. set (w1 := leave c x1) in *.
  assert (Hw1 : w1 = put_loop (ob_loop o) l (put_obj c (with_view x1 o) w)) by by apply (leave_eq c x1 o).
  set (w2 := leave c y) in *.
  assert (Hw2 : w2 = put_loop (ob_loop o) (lp y) (put_obj c (with_view y (with_view x1 o)) w1)).
  { unfold w2. rewrite (leave_eq c y (with_view x1 o)); [by rewrite Hu|]. rewrite Hu, Hw1. apply lookup_insert_eq. }
  exists w2. split_and!.
  - unfold io_event, on_conn. rewrite (enter_ok c o l) by done. cbn [mbind outcome_bind run_cb]. fold x. rewrite Hrun.
    unfold call at 1. fold x1 w1. rewrite Huser. ok_simpl.
    assert (He : enter c w2 = Ok (set_usr w2 y)).
    { apply (enter_leave c y (with_view x1 o)). rewrite Hu, Hw1. apply lookup_insert_eq. }
    rewrite He. ok_simpl. by destruct (leave_enter c w2 _ He) as [-> _].
  - rewrite Hw2, Hw1. simpl. by rewrite insert_insert_eq.
  - by rewrite Hw2, Hw1.
  - rewrite Hw2. apply lookup_insert_eq.
  - intros la Hne. rewrite Hw2, Hw1. simpl. by rewrite !lookup_insert_ne.
Qed.
End read_event.
