(* ===== verification/HttpService.v ===== *)
(** * HttpService: an HttpServer on its TcpServer

    The constructor and the settings of src/ham/net/http/HttpServer.h and HttpServer.cc, and
    the callbacks of HttpServer.v as the callbacks of TcpServer.v's connections: the whole
    server from a readable socket to the response. *)
From S2P Require Import Prelude Endian StdMap Timestamp Inet SockKernel Buffer Channel Epoller EventLoop Reactor ReactorLoop.
From S2P Require Import HttpRequest HttpContext HttpGrammar.
From S2P Require HttpResponse.
From S2P Require Import TcpConnection TcpFlow HttpServer ConnFrame TcpServer ServerInv ServerLife ServerProps ServerUser.
From S2P Require Acceptor LoopPool.

(** What the HttpServer binds: [onConnection] and [onMessage]. *)
Inductive http_cb := HcConnection | HcMessage.

(** [httpCallback_] *)
Definition HttpCallback : Type := (HttpRequest → HttpResponse.HttpResponse → HttpResponse.HttpResponse).

Section service.
Context {S L F K : Type} `{Socket S} `{SockKernel K} `{Reactor L F (srv_fn http_cb)} `{!LoopRun L (srv_fn http_cb)}.
Context (bind : srv_cb → F).
(** The object: its TcpServer and, as the users' data of that world, [httpCallback_]. *)
Abbreviation HttpW := (SW http_cb HttpContext S L K (option HttpCallback)).
Abbreviation ConnW := (W (srv_call http_cb) HttpContext S L HttpW).
Implicit Types (w : HttpW) (c : addr).

Definition HttpServer_ctor (host : byte_order) (inet_ntop : Z → list byte) (chan loop : addr) (listenAddr : sockaddr_in)
    (name : list byte) (l : L) (k : K) (ls : gmap addr L) : outcome HttpW :=
  w ← TcpServer_ctor bind host inet_ntop chan loop listenAddr name l k ls None;
  Ok (set_srv (setCallbacks (Some HcConnection) (Some HcMessage) (writeCompleteCallback_ (srv w))
                (threadInitCallback_ (srv w)) (srv w)) w).

Definition setHttpCallback (cb : HttpCallback) w : HttpW :=
  mkSW (srv w) (acceptor w) (skern w) (loops w) (objs w) (Some cb).
Definition setThreadNum (numThreads : Z) w : outcome HttpW := setNumOfThreads numThreads w.
Definition http_start (tid : Z) (new_loop : nat → addr) (loop_state : nat → L) w : outcome HttpW :=
  TcpServer.start (λ _ _ w, Ok w) tid new_loop loop_state w.

(** The callbacks on connection [c]; a message callback always has its time. *)
Definition arg_time (arg : cb_arg) : Timestamp := match arg with ArgTime t => t | _ => invalid end.
Definition http_user (cb : http_cb) (tid : Z) c (arg : cb_arg) w : outcome HttpW :=
  match cb with
  | HcConnection => on_conn c (λ x, Ok (onConnection x)) w
  | HcMessage => on_conn c (onMessage (SfConn c) no_call (users w) tid (arg_time arg)) w
  end.
End service.

(** ** The callbacks keep the invariant of the server *)
Section safe.
Context {S L F K : Type} `{Socket S} `{SockKernel K} `{ReactorFrame L F (srv_fn http_cb)}.
Abbreviation HttpW := (SW http_cb HttpContext S L K (option HttpCallback)).
Abbreviation ConnW := (W (srv_call http_cb) HttpContext S L HttpW).
Implicit Types (w : HttpW) (x y z : ConnW) (c : addr).

Lemma gentle_onConnection c x : gentle c x (onConnection x).
Proof. unfold onConnection. destruct (isConnected _); [by apply gentle_data|apply gentle_refl]. Qed.

Lemma gentle_onRequest c cb tid q x y :
  later_ok user_call (conn x) → onRequest (SfConn c) no_call cb tid q x = Ok y → gentle c x y.
Proof.
  intros Hl (resp & _ & (b0 & _ & (b1 & _ & Hrun)%bind_Ok_inv)%bind_Ok_inv)%bind_Ok_inv.
  apply bind_Ok_inv in Hrun as ([b z] & Hs%gentle_send_buffer & Hrun); [|done]. simpl in Hs.
  destruct (HttpResponse.closeConnection resp); [|injection Hrun as <-; done].
  eapply gentle_trans; [exact Hs|by eapply gentle_shutdown].
Qed.

Lemma gentle_onMessage c cb tid t x y :
  later_ok user_call (conn x) → onMessage (SfConn c) no_call cb tid t x = Ok y → gentle c x y.
Proof.
  intros Hl (ctx & _ & ([[ctx' inb] ok] & _ & Hrun)%bind_Ok_inv)%bind_Ok_inv. cbv zeta in Hrun.
  set (x1 := set_conn (set_input inb (conn x)) x) in *.
  assert (Hg1 : gentle c x x1) by by apply gentle_data. pose proof (gentle_ident c x x1 Hg1 Hl) as Hl1.
  eapply gentle_trans; [exact Hg1|]. apply bind_Ok_inv in Hrun as (x2 & Hbad & Hrun).
  assert (Hg2 : gentle c x1 x2).
  { destruct ok; [injection Hbad as <-; apply gentle_refl|]. apply bind_Ok_inv in Hbad as (z & Hs & Hsh).
    eapply gentle_trans; [by eapply gentle_send|by eapply gentle_shutdown]. }
  eapply gentle_trans; [exact Hg2|]. destruct (gotAll ctx'); [|injection Hrun as <-; apply gentle_refl].
  apply bind_Ok_inv in Hrun as (z & Hreq & [= <-]). eapply gentle_onRequest; [|exact Hreq]. by eapply gentle_ident.
Qed.

(** The callbacks of an HttpServer stay within the invariant of its TcpServer. *)
Lemma http_user_inv u tid c arg w w' :
  srv_inv (F := F) None w → http_user u tid c arg w = Ok w' → srv_inv (F := F) None w'.
Proof.
  intros Hinv. destruct u; apply gentle_inv; try done.
  - intros x y _ [= <-]. apply gentle_onConnection.
  - intros x y. apply gentle_onMessage.
Qed.
End safe.

(** ** A request through the whole server *)
Section answers.
Context {S L F K : Type} `{SocketLaws S} `{SockKernel K} `{!Reactor L F (srv_fn http_cb)} `{!LoopRun L (srv_fn http_cb)}
  `{!ReactorLaws L F (srv_fn http_cb)} `{!ReactorFrame L F (srv_fn http_cb)}.
Abbreviation HttpW := (SW http_cb HttpContext S L K (option HttpCallback)).
Abbreviation ConnW := (W (srv_call http_cb) HttpContext S L HttpW).
Implicit Types (w : HttpW) (x y : ConnW) (c : addr).

(** [onMessage] in the loop's thread leaves the rest of the world alone. *)
Lemma onMessage_usr c f tid t x y :
  later_ok user_call (conn x) → onMessage (SfConn c) no_call f tid t x = Ok y → usr y = usr x.
Proof. intros Hl Hrun. by destruct (gentle_onMessage c f tid t x y Hl Hrun) as [(_ & ? & _)|[_ [? _ _ _ _ _ _ _ _]]]. Qed.

Lemma message_text_nonempty r : 0 < zlen (message_text r).
Proof. unfold zlen, message_text, CRLF. rewrite !length_app. simpl. lia. Qed.

(** The message callback on a complete request, in the world the connection leaves. *)
Lemma http_message_run tid t w c o x1 f (r : request_text) :
  let resp := f (parsed HttpRequest_new t r) (HttpResponse.HttpResponse_new (isShortConn (parsed HttpRequest_new t r))) in
  objs w !! c = Some o → usr x1 = w → users w = Some f → later_ok user_call (conn x1) →
  up tid x1 → state_ (conn x1) = kConnected → output x1 = [] → context_ (conn x1) = Some HttpContext_new →
  content (inputBuffer_ (conn x1)) = message_text r → request_ok r →
  zlen (HttpResponse.body_ resp) < 10 ^ 13 →
  kCheapPrepend + zlen (HttpResponse.response_text resp) ≤ vector_max_size →
  ∃ y, http_user HcMessage tid c (ArgTime t) (leave c x1) = Ok (leave c y) ∧ usr y = leave c x1 ∧
    content (inputBuffer_ (conn y)) = [] ∧
    sk_sent (sock y) ++ output y = sk_sent (sock x1) ++ taken (HttpResponse.response_text resp) x1 ∧
    (state_ (conn y) = kConnected ↔ HttpResponse.closeConnection resp = false).
Proof.
  intros resp Ho Hu Hf Hlater Hup Hst Hout Hctx Hin Hok Hbody Hlen. set (w1 := leave c x1). set (x2 := set_usr w1 x1).
  destruct (onMessage_serves (SfConn c) no_call f tid t x2 r) as (y & Hmsg & _ & Hiny & Hsenty & Hsty); try done.
  { by apply up_set_usr. }
  pose proof (onMessage_usr c (Some f) tid t x2 y Hlater Hmsg) as Huy. change (usr x2) with w1 in Huy.
  exists y. split_and!; [|done..].
  assert (He : enter c w1 = Ok x2) by (apply (enter_leave c x1 o); by rewrite Hu).
  unfold http_user, on_conn. rewrite He. cbn [mbind outcome_bind arg_time].
  replace (users w1) with (Some f); [by rewrite Hmsg|].
  unfold w1. rewrite (leave_eq c x1 o) by by rewrite Hu. simpl. by rewrite Hu.
Qed.
End answers.

(** From construction over any steps. *)
Lemma http_lifetime_inv {S L F K} `{Socket S} `{SockKernel K} `{ReactorFrame L F (srv_fn http_cb)}
    (bind : srv_cb → F) new_obj new_chan new_sock host inet_ntop chan loop a name (l : L) (k : K) (ls : gmap addr L)
    (f : HttpCallback) n tid new_loop loop_state (w0 w1 w2 w : SW http_cb HttpContext S L K (option HttpCallback)) :
  (∀ w, objs w !! new_obj w = None) → (∀ l, rt_channel l (new_chan l) = None) →
  rt_pending l = [] → (∀ la l', ls !! la = Some l' → rt_pending l' = []) →
  (∀ i, new_loop i ≠ loop) → (∀ i, rt_pending (loop_state i) = []) →
  HttpServer_ctor bind host inet_ntop chan loop a name l k ls = Ok w0 →
  setThreadNum n (setHttpCallback f w0) = Ok w1 → http_start tid new_loop loop_state w1 = Ok w2 →
  rtc (srv_step http_user bind new_obj new_chan new_sock) w2 w →
  srv_inv (F := F) None w.
Proof.
  intros Hfo Hfc Hl Hls Hnl Hst Hctor Hset Hstart Hsteps.
  apply bind_Ok_inv in Hctor as (v & Hctor & [= <-]). pose proof (ctor_idle _ _ _ _ _ _ _ _ _ _ _ _ Hl Hls Hctor) as Hidle.
  assert (Hv : loop_ (srv v) = loop ∧ threadInitCallback_ (srv v) = None).
  { apply bind_Ok_inv in Hctor as (x & _ & (? & _ & [= <-])%bind_Ok_inv). done. }
  destruct Hv as [Hloop Hti]. apply bind_Ok_inv in Hset as (? & _ & [= <-]).
  refine (rtc_ind_r (srv_inv None) w2 _ _ w Hsteps).
  - eapply start_inv; [| | |exact Hst|exact Hstart]; [|done|by simpl; rewrite Hloop].
    apply set_srv_idle; [|done..]. destruct Hidle as [Hc Ho Hn Ha Hp]. by split.
  - intros y z _ Hstep Hy. eapply srv_step_inv; [|exact Hfo|exact Hfc|exact Hy|exact Hstep].
    intros. by eapply http_user_inv.
Qed.

(** ** Properties *)

(** C15: an HTTP server is as safe as its TcpServer.  Constructed, given its threads and its
    callback, and started, over any steps of its loops and its sockets, it keeps the registry,
    the connections, their channels and the functors consistent: its own callbacks only change
    a connection's data, send and shut down, in the thread of the connection's loop. *)
Theorem http_service_safe {S L F K} `{Socket S} `{SockKernel K} `{ReactorFrame L F (srv_fn http_cb)}
    (bind : srv_cb → F) new_obj new_chan new_sock host inet_ntop chan loop a name (l : L) (k : K) (ls : gmap addr L)
    (f : HttpCallback) n tid new_loop loop_state (w0 w1 w2 w : SW http_cb HttpContext S L K (option HttpCallback)) :
  (∀ w, objs w !! new_obj w = None) → (∀ l, rt_channel l (new_chan l) = None) →
  rt_pending l = [] → (∀ la l', ls !! la = Some l' → rt_pending l' = []) →
  (∀ i, new_loop i ≠ loop) → (∀ i, rt_pending (loop_state i) = []) →
  HttpServer_ctor bind host inet_ntop chan loop a name l k ls = Ok w0 →
  setThreadNum n (setHttpCallback f w0) = Ok w1 → http_start tid new_loop loop_state w1 = Ok w2 →
  rtc (srv_step http_user bind new_obj new_chan new_sock) w2 w →
  consistent w.
Proof. intros. eapply inv_consistent. by eapply (http_lifetime_inv bind new_obj new_chan new_sock). Qed.

(** C9: a request through the whole server.  When the socket of an idle connection becomes
    readable and holds exactly one request message, the event ends with the input consumed
    and the bytes of the user's response handed to the kernel or kept as pending output, in
    this order after what was sent before; the connection stays up exactly when the response
    keeps it.  Nothing else in the server changes but the connection's loop. *)
Theorem http_service_answers {S L F K} `{SocketLaws S} `{SockKernel K} `{!Reactor L F (srv_fn http_cb)}
    `{!LoopRun L (srv_fn http_cb)} `{!ReactorLaws L F (srv_fn http_cb)} `{!ReactorFrame L F (srv_fn http_cb)}
    (tid : Z) (t : Timestamp) (w : SW http_cb HttpContext S L K (option HttpCallback)) (c : addr)
    (o : conn_obj (srv_call http_cb) HttpContext S) (l : L) (f : HttpCallback) (r : request_text) (s : S) :
  let x := mkW (ob_conn o) l (ob_sock o) w in
  let resp := f (parsed HttpRequest_new t r) (HttpResponse.HttpResponse_new (isShortConn (parsed HttpRequest_new t r))) in
  srv_inv (F := F) None w → objs w !! c = Some o → loops w !! ob_loop o = Some l →
  TcpConnection.messageCallback_ (ob_conn o) = Some (CallUser HcMessage) → users w = Some f →
  up tid x → state_ (ob_conn o) = kConnected → output x = [] → context_ (ob_conn o) = Some HttpContext_new →
  content (inputBuffer_ (ob_conn o)) = [] →
  zlen (buffer_ (inputBuffer_ (ob_conn o))) + extraBufSize ≤ vector_max_size →
  sk_readv (ob_sock o) (writableBytes (inputBuffer_ (ob_conn o))) extraBufSize = (s, ReadvData (message_text r)) →
  request_ok r → zlen (HttpResponse.body_ resp) < 10 ^ 13 →
  kCheapPrepend + zlen (HttpResponse.response_text resp) ≤ vector_max_size →
  write_fault (sk_write s (HttpResponse.response_text resp)) = false →
  ∃ w' o', io_event http_user tid c CbRead t w = Ok w' ∧ objs w' = <[c := o']> (objs w) ∧ srv w' = srv w ∧
    (∀ la, la ≠ ob_loop o → loops w' !! la = loops w !! la) ∧
    content (inputBuffer_ (ob_conn o')) = [] ∧
    sk_sent (ob_sock o') ++ content (outputBuffer_ (ob_conn o')) =
      sk_sent (ob_sock o) ++ HttpResponse.response_text resp ∧
    (state_ (ob_conn o') = kConnected ↔ HttpResponse.closeConnection resp = false).
Proof.
  intros x resp Hinv Ho Hl Hmc Hf Hup Hst Hout Hctx Hin Hmax Hread Hok Hbody Hlen Hfault.
  pose proof (oi_later _ _ _ _ (si_obj _ w Hinv c o Ho)) as Hlater.
  destruct (io_read_event http_user tid c t w o l HcMessage (message_text r) s) as (b & Hb & Hup1 & Hsent & Hev);
    [done..|apply message_text_nonempty|].
  rewrite Hin in Hb. simpl in Hb. set (x1 := set_conn _ _) in *.
  destruct (http_message_run tid t w c o x1 f r) as (y & Huser & Hu & Hiny & Hsenty & Hsty); try done.
  destruct (Hev y Huser Hu) as (w' & Hrun & Hobjs & Hsrv & _ & Hloops).
  exists w', (with_view y o). split_and!; [done..| |exact Hsty].
  change (sk_sent (sock y) ++ output y = sk_sent (ob_sock o) ++ HttpResponse.response_text resp).
  rewrite Hsenty. change (sock x1) with s. rewrite Hsent. f_equal. by apply taken_all; [apply Hup1|..].
Qed.

(** ** An HTTP server on one event loop, which echoes the bodies it is sent *)
Abbreviation hs_loop := (small_loop http_cb).
Abbreviation hs_W := (small_W http_cb HttpContext (option HttpCallback)).
Abbreviation hs_loop_at := (loop_at_start (C := http_cb)).
Abbreviation hs_kern := one_waiting.
Definition hs_sock (_ : Z) (_ : sim_net) : sim_socket :=
  mkSimSocket [] false 1000 (ReadvData (message_text sample_request)).
Abbreviation hs_blank := (blank (C := http_cb) (X := HttpContext) (@None HttpCallback)).

Definition hs_ctor : outcome hs_W :=
  HttpServer_ctor CbUser big_endian (λ _, str "127.0.0.1") 200 50 (mkSockaddr AF_INET 80 0) (str "http")
    (hs_loop_at 1 50) hs_kern ∅.
Definition hs_w0 : hs_W := result_or hs_blank hs_ctor.
Definition hs_set : outcome hs_W := setThreadNum 0 (setHttpCallback http_echo hs_w0).
Definition hs_w1 : hs_W := result_or hs_blank hs_set.
Definition hs_start : outcome hs_W := http_start 1 (λ i, 60 + Z.of_nat i) (λ i, hs_loop_at 2 60) hs_w1.
Definition hs_w2 : hs_W := result_or hs_blank hs_start.
Definition hs_accept : outcome hs_W := acceptor_readable CbUser fresh_obj fresh_chan hs_sock http_user 1 hs_w2.
Definition hs_w3 : hs_W := result_or hs_blank hs_accept.

Lemma hs_ctor_ok : hs_ctor = Ok hs_w0.
Proof. apply is_ok_result. vm_compute. reflexivity. Qed.
Lemma hs_set_ok : hs_set = Ok hs_w1.
Proof. apply is_ok_result. vm_compute. reflexivity. Qed.
Lemma hs_start_ok : hs_start = Ok hs_w2.
Proof. apply is_ok_result. vm_compute. reflexivity. Qed.
Lemma hs_accept_ok : hs_accept = Ok hs_w3.
Proof. apply is_ok_result. vm_compute. reflexivity. Qed.
Lemma hs_accepted : rtc (srv_step http_user CbUser fresh_obj fresh_chan hs_sock) hs_w2 hs_w3.
Proof. apply rtc_once. apply (sv_accept _ _ _ _ _ _ 1); [vm_compute; reflexivity|exact hs_accept_ok]. Qed.

Lemma http_service_safe_witness :
  map_find (str "127.0.0.1:80#1") (connections_ (srv hs_w3)) = Some 0 ∧ consistent hs_w3.
Proof.
  split; [vm_compute; reflexivity|].
  exact (http_service_safe CbUser fresh_obj fresh_chan hs_sock big_endian (λ _, str "127.0.0.1") 200 50
    (mkSockaddr AF_INET 80 0) (str "http") (hs_loop_at 1 50) hs_kern ∅ http_echo 0 1 (λ i, 60 + Z.of_nat i)
    (λ i, hs_loop_at 2 60) hs_w0 hs_w1 hs_w2 hs_w3 fresh_obj_free fresh_chan_free eq_refl no_loops demo_new_loop
    (λ _, eq_refl) hs_ctor_ok hs_set_ok hs_start_ok hs_accepted).
Defined.

Lemma hs_w3_inv : srv_inv (F := loop_cb srv_cb) None hs_w3.
Proof.
  exact (http_lifetime_inv CbUser fresh_obj fresh_chan hs_sock big_endian (λ _, str "127.0.0.1") 200 50
    (mkSockaddr AF_INET 80 0) (str "http") (hs_loop_at 1 50) hs_kern ∅ http_echo 0 1 (λ i, 60 + Z.of_nat i)
    (λ i, hs_loop_at 2 60) hs_w0 hs_w1 hs_w2 hs_w3 fresh_obj_free fresh_chan_free eq_refl no_loops demo_new_loop
    (λ _, eq_refl) hs_ctor_ok hs_set_ok hs_start_ok hs_accepted).
Qed.

Definition hs_loop0 : hs_loop := loop_of hs_w3 50.
Definition hs_obj : conn_obj (srv_call http_cb) HttpContext sim_socket := conn_of hs_w3 0.

Lemma hs_up : up 1 (mkW (ob_conn hs_obj) hs_loop0 (ob_sock hs_obj) hs_w3).
Proof.
  apply up_fresh; [vm_compute; reflexivity..| |vm_compute; reflexivity|vm_compute; reflexivity|vm_compute; reflexivity].
  apply (live_check_ok hs_loop0). vm_compute. reflexivity.
Qed.

Lemma http_service_answers_witness :
  let resp := http_echo (parsed HttpRequest_new invalid sample_request)
    (HttpResponse.HttpResponse_new (isShortConn (parsed HttpRequest_new invalid sample_request))) in
  ∃ w' o', io_event http_user 1 0 CbRead invalid hs_w3 = Ok w' ∧ objs w' = <[0 := o']> (objs hs_w3) ∧
    srv w' = srv hs_w3 ∧ (∀ la, la ≠ ob_loop hs_obj → loops w' !! la = loops hs_w3 !! la) ∧
    content (inputBuffer_ (ob_conn o')) = [] ∧
    sk_sent (ob_sock o') ++ content (outputBuffer_ (ob_conn o')) =
      sk_sent (ob_sock hs_obj) ++ HttpResponse.response_text resp ∧
    (state_ (ob_conn o') = kConnected ↔ HttpResponse.closeConnection resp = false).
Proof.
  refine (http_service_answers 1 invalid hs_w3 0 hs_obj hs_loop0 http_echo sample_request (ob_sock hs_obj)
    hs_w3_inv _ _ _ _ hs_up _ _ _ _ _ _ sample_request_ok _ _ _).
  - vm_compute. reflexivity.
  - vm_compute. reflexivity.
  - vm_compute. reflexivity.
  - vm_compute. reflexivity.
  - vm_compute. reflexivity.
  - vm_compute. reflexivity.
  - vm_compute. reflexivity.
  - vm_compute. reflexivity.
  - vm_compute. discriminate.
  - vm_compute. reflexivity.
  - vm_compute. reflexivity.
  - vm_compute. discriminate.
  - vm_compute. reflexivity.
Defined.
