(* ===== verification/EchoServer.v ===== *)
(** * EchoServer: src/examples/simple/echo/main.cc

    The smallest program on TcpServer: what a client sends is sent back to it.  The texts
    printed on the console are not modelled. *)
From S2P Require Import Prelude Endian Timestamp Inet SockKernel Buffer Channel Reactor TcpConnection TcpFlow ConnFrame TcpServer.
From S2P Require Import ServerInv ServerLife ServerProps ServerUser HttpServer.
From S2P Require Import Epoller EventLoop ReactorLoop.
From S2P Require Acceptor LoopPool.

Inductive echo_cb := EcConnection | EcMessage.

Section echo.
Context {X S L F K U : Type} `{Socket S} `{SockKernel K} `{Reactor L F (srv_fn echo_cb)} `{!LoopRun L (srv_fn echo_cb)}.
Context (bind : srv_cb → F).
Abbreviation World := (SW echo_cb X S L K U).
Abbreviation ConnW := (W (srv_call echo_cb) X S L World).
Implicit Types (w : World) (x : ConnW) (c : addr).

Definition msgCallback (tid : Z) c x : outcome ConnW :=
  '(msg, buf) ← retrieveAllAsString (inputBuffer_ (conn x));
  send (SfConn c) no_call tid msg (set_conn (set_input buf (conn x)) x).

Definition echo_user (cb : echo_cb) (tid : Z) c (_ : cb_arg) w : outcome World :=
  match cb with
  | EcConnection => Ok w     (* prints which connection went up or down *)
  | EcMessage => on_conn c (msgCallback tid c) w
  end.

(** [main] up to [loop.loop()]. *)
Definition echo_main (host : byte_order) (inet_ntop : Z → list byte) (tid : Z) (chan loop : addr)
    (new_loop : nat → addr) (loop_state : nat → L) (l : L) (k : K) (u : U) : outcome World :=
  server ← TcpServer_ctor bind host inet_ntop chan loop (InetAddress_port host 8888) (str "TcpServer") l k ∅ u;
  let server := set_srv (setCallbacks (Some EcConnection) (Some EcMessage) (writeCompleteCallback_ (srv server))
                           (threadInitCallback_ (srv server)) (srv server)) server in
  TcpServer.start (λ _ _ w, Ok w) tid new_loop loop_state server.
End echo.

(** ** Properties *)

(** The echo server sends back what it receives.  When data arrives on an idle connection,
    the event consumes it and the bytes handed to the kernel followed by those pending are
    what they were before with the data at the end; the connection stays up and is ready for
    the next message.  The exception is TcpConnection's: while earlier output is pending,
    the data is consumed and nothing is sent for it. *)
Theorem echo_replies {X S L F K U} `{SocketLaws S} `{SockKernel K} `{!Reactor L F (srv_fn echo_cb)}
    `{!LoopRun L (srv_fn echo_cb)} `{!ReactorLaws L F (srv_fn echo_cb)} `{!ReactorFrame L F (srv_fn echo_cb)}
    (tid : Z) (t : Timestamp) (w : SW echo_cb X S L K U) (c : addr)
    (o : conn_obj (srv_call echo_cb) X S) (l : L) (data : list byte) (s : S) :
  let x := mkW (ob_conn o) l (ob_sock o) w in
  objs w !! c = Some o → loops w !! ob_loop o = Some l →
  TcpConnection.messageCallback_ (ob_conn o) = Some (CallUser EcMessage) →
  up tid x → state_ (ob_conn o) = kConnected → content (inputBuffer_ (ob_conn o)) = [] →
  zlen (buffer_ (inputBuffer_ (ob_conn o))) + extraBufSize ≤ vector_max_size →
  sk_readv (ob_sock o) (writableBytes (inputBuffer_ (ob_conn o))) extraBufSize = (s, ReadvData data) →
  0 < zlen data → zlen data + kCheapPrepend ≤ vector_max_size →
  write_fault (sk_write s data) = false →
  ∃ w' o' l', io_event echo_user tid c CbRead t w = Ok w' ∧ objs w' = <[c := o']> (objs w) ∧
    loops w' !! ob_loop o' = Some l' ∧ up tid (mkW (ob_conn o') l' (ob_sock o') w') ∧
    state_ (ob_conn o') = kConnected ∧ content (inputBuffer_ (ob_conn o')) = [] ∧
    sk_sent (ob_sock o') ++ content (outputBuffer_ (ob_conn o')) =
      (sk_sent (ob_sock o) ++ content (outputBuffer_ (ob_conn o))) ++
      (if decide (content (outputBuffer_ (ob_conn o)) = []) then data else []).
Proof.
  intros x Ho Hl Hmc Hup Hst Hin Hmax Hread Hlen Hsize Hfault.
  destruct (io_read_event echo_user tid c t w o l EcMessage data s) as (b & Hb & Hup1 & Hsent & Hev); [done..|].
  rewrite Hin in Hb. simpl in Hb. set (x1 := set_conn _ _) in *.
  destruct (returns_inv _ _ (retrieveAllAsString_spec b (ci_in _ (up_inv _ _ Hup1))))
    as ([msg b'] & Hret & Hwf' & -> & Hc' & _).
  set (w1 := leave c x1) in *. set (x2 := set_conn (set_input b' (conn x1)) (set_usr w1 x1)).
  assert (Hup2 : up tid x2) by (apply (up_set_input tid b' (set_usr w1 x1)); [by apply up_set_usr|done]).
  destruct (exec_send (SfConn c) no_call tid (content b) x2) as (y & Hsend & Hupy & (Hu & Hfix & _) & Hsty & Hout);
    [done|by simpl; rewrite Hb|].
  injection Hfix as _ Hiny _.
  destruct (Hev y) as (w' & Hrun & Hobjs & _ & Hloop & _); [|done|].
  { unfold echo_user, on_conn. fold w1. unfold w1 at 1. rewrite (enter_leave c x1 o) by done.
    ok_simpl. unfold msgCallback. change (inputBuffer_ (conn (set_usr _ x1))) with b.
    rewrite Hret. ok_simpl. fold w1. change (conn (set_usr w1 x1)) with (conn x1). fold x2.
    by rewrite Hsend. }
  exists w', (with_view y o), (lp y). split_and!; [done..| | | |].
  - exact (up_set_usr tid w' y Hupy).
  - by rewrite <- Hst.
  - simpl. by rewrite Hiny.
  - change (sk_sent (sock y) ++ output y = (sk_sent (ob_sock o) ++ output x) ++ (if decide (output x = []) then data else [])).
    rewrite Hout. change (sock x2) with s. change (output x2) with (output x). rewrite Hsent. f_equal.
    unfold event_taken. rewrite bool_decide_eq_true_2 by done. rewrite Hb. unfold taken.
    rewrite (readable_output x2) by apply Hup2. change (output x2) with (output x). change (sock x2) with s.
    rewrite Hfault. case_decide as Hnil; [by rewrite Hnil|].
    destruct (Z.eqb_spec (zlen (output x)) 0) as [Hz|]; [|done]. by apply zlen_0_nil in Hz.
Qed.

(** The program on one event loop, and a client that sends "ping". *)
Abbreviation echo_W := (small_W echo_cb unit unit).
Definition echo_start : outcome echo_W :=
  echo_main CbUser little_endian (λ _, str "0.0.0.0") 1 200 50 (λ i, 60 + Z.of_nat i) (λ _, loop_at_start 2 60)
    (loop_at_start 1 50) one_waiting tt.
Definition echo_accept (room : Z) : outcome echo_W :=
  acceptor_readable CbUser fresh_obj fresh_chan (λ _ _, mkSimSocket [] false room (ReadvData (str "ping"))) echo_user 1
    (result_or (blank tt) echo_start).
Definition echo_w (room : Z) : echo_W := result_or (blank tt) (echo_accept room).

Lemma echo_up :
  let room := 100 in
  up 1 (mkW (ob_conn (conn_of (echo_w room) 0)) (loop_of (echo_w room) 50) (ob_sock (conn_of (echo_w room) 0)) (echo_w room)).
Proof.
  apply up_fresh; [vm_compute; reflexivity..| |vm_compute; reflexivity|vm_compute; reflexivity|vm_compute; reflexivity].
  apply (live_check_ok (loop_of (echo_w 100) 50)). vm_compute. reflexivity.
Qed.

Lemma echo_replies_witness :
  let w := echo_w 100 in let o := conn_of w 0 in
  ∃ w' o' l', io_event echo_user 1 0 CbRead invalid w = Ok w' ∧ objs w' = <[0 := o']> (objs w) ∧
    loops w' !! ob_loop o' = Some l' ∧ up 1 (mkW (ob_conn o') l' (ob_sock o') w') ∧
    state_ (ob_conn o') = kConnected ∧ content (inputBuffer_ (ob_conn o')) = [] ∧
    sk_sent (ob_sock o') ++ content (outputBuffer_ (ob_conn o')) =
      (sk_sent (ob_sock o) ++ content (outputBuffer_ (ob_conn o))) ++
      (if decide (content (outputBuffer_ (ob_conn o)) = []) then str "ping" else []).
Proof.
  refine (echo_replies 1 invalid (echo_w 100) 0 (conn_of (echo_w 100) 0) (loop_of (echo_w 100) 50) (str "ping")
    (ob_sock (conn_of (echo_w 100) 0)) _ _ _ echo_up _ _ _ _ _ _ _).
  1-5: vm_compute; reflexivity.
  1: vm_compute; discriminate.
  1-2: vm_compute; reflexivity.
  1: vm_compute; discriminate.
  vm_compute. reflexivity.
Defined.
