(* ===== verification/ChargenServer.v ===== *)
(** * ChargenServer: src/examples/simple/chargen/

    A program that sends text as fast as its client reads it: every completed write starts
    the next one.  The texts printed on the console and logged are not modelled. *)
From Stdlib Require Import SpecFloat.
From S2P Require Import Prelude Endian Timestamp Inet SockKernel Buffer Channel Reactor TcpConnection TcpFlow ConnFrame TcpServer.
From S2P Require Import ServerInv ServerLife ServerProps ServerUser.
From S2P Require Import Epoller EventLoop ReactorLoop.
From S2P Require Acceptor LoopPool.

(** ** The text *)

(** The printable characters twice, and its 94 windows of 72 characters, one on each line
    (the loops of the constructor). *)
Definition line : list byte :=
  let l := map (λ i, byte_of (Z.of_nat i)) (seq 33 (127 - 33)) in l ++ l.
Definition chargen_text : list byte :=
  foldl (λ m i, m ++ take 72 (drop i line) ++ [x0a]) [] (seq 0 (127 - 33)).

(** ** The server *)
Inductive chargen_cb := CgConnection | CgWriteComplete | CgMessage.

(** The members besides [server_]. *)
Record Chargen := mkChargen { message_ : list byte; startTime_ : Timestamp; transferred_ : Z }.

Section chargen.
Context {X S L F K : Type} `{Socket S} `{SockKernel K} `{Reactor L F (srv_fn chargen_cb)} `{!LoopRun L (srv_fn chargen_cb)}.
Context (bind : srv_cb → F).
Abbreviation World := (SW chargen_cb X S L K Chargen).
Abbreviation ConnW := (W (srv_call chargen_cb) X S L World).
Implicit Types (w : World) (x : ConnW) (c : addr).

Definition set_users (u : Chargen) w : World := mkSW (srv w) (acceptor w) (skern w) (loops w) (objs w) u.

(** [now] is the time of [Timestamp::now()]; [runEvery] registers [printThroughput] with the
    loop's timers. *)
Definition ChargenServer_ctor (host : byte_order) (inet_ntop : Z → list byte) (chan loop : addr) (listenAddr : sockaddr_in)
    (printOut : bool) (now : Timestamp) (runEvery : double → L → outcome L) (l : L) (k : K) : outcome World :=
  w ← TcpServer_ctor bind host inet_ntop chan loop listenAddr (str "ChargenServer") l k ∅ (mkChargen [] now 0);
  let w := set_srv (setCallbacks (Some CgConnection) (Some CgMessage) (Some CgWriteComplete)
                      (threadInitCallback_ (srv w)) (srv w)) w in
  w ← (if printOut then l ← loop_at loop w; l ← runEvery (double_of_Z 3) l; Ok (put_loop loop l w) else Ok w);
  Ok (set_users (mkChargen chargen_text now 0) w).

Definition chargen_start (tid : Z) (new_loop : nat → addr) (loop_state : nat → L) w : outcome World :=
  TcpServer.start (λ _ _ w, Ok w) tid new_loop loop_state w.

Definition onMessage x : outcome ConnW :=
  '(_, buf) ← retrieveAllAsString (inputBuffer_ (conn x)); Ok (set_conn (set_input buf (conn x)) x).

Definition onConnection (message : list byte) (tid : Z) c x : outcome ConnW :=
  if isConnected (conn x) then
    send (SfConn c) no_call tid message (set_sock (sk_setTcpNoDelay true (sock x)) x)
  else Ok x.

Definition onWriteComplete (tid : Z) c w : outcome World :=
  n ← i64_check (transferred_ (users w) + zlen (message_ (users w)));
  let w := set_users (mkChargen (message_ (users w)) (startTime_ (users w)) n) w in
  on_conn c (send (SfConn c) no_call tid (message_ (users w))) w.

Definition chargen_user (cb : chargen_cb) (tid : Z) c (_ : cb_arg) w : outcome World :=
  match cb with
  | CgConnection => on_conn c (onConnection (message_ (users w)) tid c) w
  | CgWriteComplete => onWriteComplete tid c w
  | CgMessage => on_conn c onMessage w
  end.

(** The number printed, in MiB/s, and the members after it. *)
Definition printThroughput (endTime : Timestamp) (u : Chargen) : outcome (double * Chargen) :=
  time ← timeDifference endTime (startTime_ u);
  let mib := double_div (double_div (double_div (double_of_Z (transferred_ u)) time) (double_of_Z 1024)) (double_of_Z 1024) in
  Ok (mib, mkChargen (message_ u) endTime 0).

(** The loop at [la] runs its first pending functor, [n] times. *)
Fixpoint run_times (n : nat) (tid : Z) (la : addr) w : outcome World :=
  match n with 0%nat => Ok w | Datatypes.S n => w ← run_next chargen_user tid la w; run_times n tid la w end.
End chargen.

(** ** The text is the one of the character generator protocol *)
Lemma chargen_text_length : zlen chargen_text = 94 * 73.
Proof. vm_compute. reflexivity. Qed.

Definition row_ok (i : nat) : bool :=
  forallb (λ j, bool_decide (chargen_text !! (73 * i + j)%nat = Some (byte_of (33 + Z.of_nat (i + j) mod 94)))) (seq 0 72)
  && bool_decide (chargen_text !! (73 * i + 72)%nat = Some x0a).

(** The message is 94 lines of 72 printable characters, each line starting one character
    further than the one before and wrapping around at the last. *)
Theorem chargen_text_rows (i j : nat) :
  (i < 94)%nat → (j < 72)%nat →
  chargen_text !! (73 * i + j)%nat = Some (byte_of (33 + Z.of_nat (i + j) mod 94)) ∧
  chargen_text !! (73 * i + 72)%nat = Some x0a.
Proof.
  intros Hi Hj. assert (forallb row_ok (seq 0 94) = true) as Hall by (vm_compute; reflexivity).
  rewrite forallb_forall in Hall. specialize (Hall i ltac:(apply in_seq; lia)).
  apply andb_true_iff in Hall as [Hrow Hend]. rewrite forallb_forall in Hrow.
  specialize (Hrow j ltac:(apply in_seq; lia)).
  by apply bool_decide_eq_true in Hrow, Hend.
Qed.

Lemma chargen_text_rows_witness :
  chargen_text !! (73 * 30 + 70)%nat = Some (byte_of (33 + Z.of_nat (30 + 70) mod 94)) ∧
  chargen_text !! (73 * 30 + 72)%nat = Some x0a.
Proof. apply (chargen_text_rows 30 70); lia. Defined.

(** ** Streaming *)
Section stream.
Context {X S L F K : Type} `{SocketLaws S} `{SockKernel K} `{!Reactor L F (srv_fn chargen_cb)}
  `{!LoopRun L (srv_fn chargen_cb)} `{!ReactorLaws L F (srv_fn chargen_cb)} `{!ReactorFrame L F (srv_fn chargen_cb)}.
Abbreviation World := (SW chargen_cb X S L K Chargen).
Abbreviation ConnW := (W (srv_call chargen_cb) X S L World).
Abbreviation write_done := (CallUser CgWriteComplete).
Implicit Types (w : World) (x y : ConnW) (c : addr) (o : conn_obj (srv_call chargen_cb) X S) (l : L).

(** The kernel takes all of a message at once: the write-complete callback is queued. *)
Lemma sendInLoop_all c tid data cb x :
  conn_inv x → rt_isInLoopThread tid (lp x) = true → output x = [] → (sk_write (sock x) data).2.1 = zlen data →
  TcpConnection.writeCompleteCallback_ (conn x) = Some cb →
  sendInLoop (SfConn c) tid data x =
    Ok (queue (SfConn c) tid (FnWriteComplete cb) (set_sock (sk_write (sock x) data).1 x)).
Proof.
  intros Hinv Ht Hout Hall Hwc. unfold sendInLoop. rewrite assertLoop_ok by done. ok_simpl.
  rewrite (readable_output x (ci_out x Hinv)), Hout. change (zlen (@nil byte) =? 0) with true.
  assert (Hnw : rt_isWriting (lp x) (channel_ (conn x)) = false).
  { destruct (rt_isWriting _ _) eqn:E; [|done]. by apply (ci_writing x Hinv) in E. }
  rewrite Hnw. cbn [negb andb]. destruct (sk_write (sock x) data) as [s' [n e]]. cbn [fst snd] in *. subst n.
  pose proof (zlen_nonneg data). rewrite (proj2 (Z.leb_le 0 (zlen data))) by done.
  rewrite Z.sub_diag. change (u64 0) with 0. change (conn (set_sock s' x)) with (conn x). rewrite Hwc.
  rewrite assert_true by by apply Z.leb_le. done.
Qed.

(** Taking a functor from the loop leaves a connection as it is. *)
Lemma up_take tid x l g : up tid x → rt_take (lp x) = Some (g, l) → up tid (set_lp l x).
Proof.
  intros [[Hi Ho Hr Hrd Hw] Hf Hl Ht] Htake. pose proof (frame_take (lp x)) as Hft.
  destruct (rt_pending (lp x)) as [|g2 r]; [congruence|].
  destruct Hft as (l2 & Ht2 & _ & Hc & Hready & Hth & _). assert (l2 = l) as -> by congruence.
  assert (Hwr : writing (set_lp l x) = writing x) by (unfold writing, rt_isWriting; simpl; by rewrite Hc).
  split.
  - split; try done; [by apply Hready|by rewrite Hwr].
  - intros Hne. rewrite Hwr. by apply Hf.
  - exact Hl.
  - simpl. by rewrite Hth.
Qed.

(** Between two writes: connection [c] is up with nothing to send, and all that its loop has
    to do is to tell that the write is complete. *)
Record streaming (tid : Z) c w o l : Prop := {
  st_obj : objs w !! c = Some o;
  st_loop : loops w !! ob_loop o = Some l;
  st_up : up tid (mkW (ob_conn o) l (ob_sock o) w);
  st_state : state_ (ob_conn o) = kConnected;
  st_output : content (outputBuffer_ (ob_conn o)) = [];
  st_callback : TcpConnection.writeCompleteCallback_ (ob_conn o) = Some write_done;
  st_pending : rt_pending l = [SfConn c (FnWriteComplete write_done)]
}.

Lemma chargen_turn tid c w o l :
  streaming tid c w o l →
  (sk_write (ob_sock o) (message_ (users w))).2.1 = zlen (message_ (users w)) →
  0 ≤ transferred_ (users w) → transferred_ (users w) + zlen (message_ (users w)) < 2 ^ 63 →
  zlen (message_ (users w)) + kCheapPrepend ≤ vector_max_size →
  ∃ w' o' l', run_next chargen_user tid (ob_loop o) w = Ok w' ∧ streaming tid c w' o' l' ∧ ob_loop o' = ob_loop o ∧
    ob_sock o' = (sk_write (ob_sock o) (message_ (users w))).1 ∧ sk_sent (ob_sock o') = sk_sent (ob_sock o) ++ message_ (users w) ∧
    users w' = mkChargen (message_ (users w)) (startTime_ (users w)) (transferred_ (users w) + zlen (message_ (users w))).
Proof.
  intros [Ho Hl Hup Hst Hout Hwc Hp] Hall Hpos Hmax Hsize. set (msg := message_ (users w)) in *.
  pose proof (frame_take l) as Hft. rewrite Hp in Hft. destruct Hft as (l1 & Htake & Hp1 & _).
  pose proof (up_take tid (mkW (ob_conn o) l (ob_sock o) w) l1 _ Hup Htake) as Hup1.
  set (w1 := put_loop (ob_loop o) l1 w). set (x1 := mkW (ob_conn o) l1 (ob_sock o) w1).
  set (u := mkChargen msg (startTime_ (users w)) (transferred_ (users w) + zlen msg)).
  set (w1u := set_users u w1). set (x1u := mkW (ob_conn o) l1 (ob_sock o) w1u).
  assert (Henter : enter c w1 = Ok x1) by (apply enter_ok; [done|apply lookup_insert_eq]).
  assert (Hupu : up tid x1u) by exact (up_set_usr tid w1u _ Hup1).
  pose proof (sendInLoop_all c tid msg write_done x1u (up_inv _ _ Hupu) (up_thread _ _ Hupu) Hout Hall Hwc) as Hsend.
  set (y := queue _ _ _ _) in Hsend.
  assert (Hrun : send (SfConn c) no_call tid msg x1u = Ok y).
  { unfold send. rewrite bool_decide_eq_true_2 by done. by rewrite (up_thread _ _ Hupu). }
  destruct (exec_send (SfConn c) no_call tid msg x1u Hupu Hsize) as (y' & Hrun' & Hupy & _ & _ & Hsent).
  assert (y' = y) as -> by congruence. clear Hrun'.
  set (w2 := leave c y). assert (Hw2 : w2 = put_loop (ob_loop o) (lp y) (put_obj c (with_view y o) w1u)) by by apply (leave_eq c y o).
  assert (He2 : enter c w2 = Ok (set_usr w2 y)) by by apply (enter_leave c y o).
  exists w2, (with_view y o), (lp y). split_and!; [|split|done|done| |by rewrite Hw2].
  - unfold run_next, loop_at. rewrite Hl. ok_simpl. rewrite Htake. unfold run_fn, on_conn. fold w1.
    rewrite Henter. cbn [mbind outcome_bind TcpConnection.run_fn]. unfold call.
    destruct (leave_enter c w1 x1 Henter) as [-> _]. cbn [chargen_user]. unfold onWriteComplete, on_conn.
    change (users w1) with (users w). fold msg. rewrite i64_check_ok by (pose proof (zlen_nonneg msg); lia).
    ok_simpl. fold u w1u. change (message_ (users w1u)) with msg.
    rewrite (enter_ok c o l1 w1u) by (done || apply lookup_insert_eq). ok_simpl. fold x1u.
    rewrite Hrun. ok_simpl. fold w2. rewrite He2. ok_simpl.
    by destruct (leave_enter c w2 _ He2) as [-> _].
  - rewrite Hw2. simpl. apply lookup_insert_eq.
  - rewrite Hw2. simpl. apply lookup_insert_eq.
  - exact (up_set_usr tid w2 y Hupy).
  - exact Hst.
  - exact Hout.
  - exact Hwc.
  - destruct (law_queue tid (SfConn c (FnWriteComplete write_done)) l1) as (Hq & _).
    change (rt_pending (rt_queueInLoop tid (SfConn c (FnWriteComplete write_done)) l1) =
      [SfConn c (FnWriteComplete write_done)]). by rewrite Hq, Hp1.
  - change (output y) with (output x1u) in Hsent.
    replace (output x1u) with (@nil byte) in Hsent by (symmetry; exact Hout). rewrite !app_nil_r in Hsent.
    change (ob_sock (with_view y o)) with (sock y). rewrite Hsent. change (sock x1u) with (ob_sock o). f_equal. unfold event_taken.
    rewrite bool_decide_eq_true_2 by done. apply taken_all; [apply Hupu|done|].
    change (sock x1u) with (ob_sock o). unfold write_fault. rewrite Hall. pose proof (zlen_nonneg msg).
    by rewrite (proj2 (Z.ltb_ge _ _)).
Qed.
End stream.

(** The generator never stops by itself.  On a socket that takes every message at once, any
    number of turns of the loop send as many copies of the message, one after the
    other, count their bytes, and leave the loop with the next completion to report. *)
Theorem chargen_streams {X S L F K} `{SocketLaws S} `{SockKernel K} `{!Reactor L F (srv_fn chargen_cb)}
    `{!LoopRun L (srv_fn chargen_cb)} `{!ReactorLaws L F (srv_fn chargen_cb)} `{!ReactorFrame L F (srv_fn chargen_cb)}
    (fast : S → Prop) (n : nat) (tid : Z) (c : addr) (w : SW chargen_cb X S L K Chargen) (o : conn_obj (srv_call chargen_cb) X S) (l : L) :
  let msg := message_ (users w) in
  streaming tid c w o l →
  fast (ob_sock o) → (∀ s, fast s → (sk_write s msg).2.1 = zlen msg ∧ fast (sk_write s msg).1) → zlen msg + kCheapPrepend ≤ vector_max_size →
  0 ≤ transferred_ (users w) → transferred_ (users w) + Z.of_nat n * zlen msg < 2 ^ 63 →
  ∃ w' o' l', run_times n tid (ob_loop o) w = Ok w' ∧ streaming tid c w' o' l' ∧
    sk_sent (ob_sock o') = sk_sent (ob_sock o) ++ concat (replicate n msg) ∧
    transferred_ (users w') = transferred_ (users w) + Z.of_nat n * zlen msg.
Proof.
  intros msg Hs Hfast Hall Hsize. subst msg. revert w o l Hs Hfast Hall Hsize.
  induction n as [|n IH]; intros w o l Hs Hfast Hall Hsize Hpos Hmax.
  { exists w, o, l. simpl. rewrite app_nil_r. split_and!; [done..|lia]. }
  pose proof (zlen_nonneg (message_ (users w))). destruct (Hall _ Hfast) as [Hw Hfast'].
  destruct (chargen_turn tid c w o l) as (w1 & o1 & l1 & Hrun & Hs1 & Hloop & Hsock & Hsent & Hu); [done|done|done|nia|done|].
  destruct (IH w1 o1 l1) as (w' & o' & l' & Hrun' & Hs' & Hsent' & Hn); rewrite ?Hsock, ?Hu; simpl; [done..|lia|nia|].
  exists w', o', l'. simpl. rewrite Hrun. ok_simpl. rewrite <- Hloop. split_and!; [done|done| |].
  - by rewrite Hsent', Hsent, Hu, <- app_assoc.
  - rewrite Hn, Hu. simpl. nia.
Qed.

(** The program on one event loop, with a client that just connected. *)
Abbreviation chargen_W := (small_W chargen_cb unit Chargen).
Abbreviation chargen_blank := (blank (C := chargen_cb) (X := unit) (mkChargen [] invalid 0)).
Definition chargen_new : outcome chargen_W :=
  ChargenServer_ctor CbUser little_endian (λ _, str "0.0.0.0") 200 50 (InetAddress_port little_endian 8888) false
    invalid (λ _ l, Ok l) (loop_at_start 1 50) one_waiting.
Definition chargen_listening : outcome chargen_W :=
  chargen_start 1 (λ i, 60 + Z.of_nat i) (λ _, loop_at_start 2 60) (result_or chargen_blank chargen_new).
Definition chargen_accept : outcome chargen_W :=
  acceptor_readable CbUser fresh_obj fresh_chan (λ _ _, mkSimSocket [] false 10000 (ReadvData [])) chargen_user 1
    (result_or chargen_blank chargen_listening).
Definition chargen_w : chargen_W := result_or chargen_blank chargen_accept.

Lemma chargen_started : streaming 1 0 chargen_w (conn_of chargen_w 0) (loop_of chargen_w 50).
Proof.
  split; [vm_compute; reflexivity|vm_compute; reflexivity| |vm_compute; reflexivity..].
  apply up_fresh; [vm_compute; reflexivity..| |vm_compute; reflexivity|vm_compute; reflexivity|vm_compute; reflexivity].
  apply (live_check_ok (loop_of chargen_w 50)). vm_compute. reflexivity.
Qed.

Lemma sim_write_all (s : sim_socket) (d : list byte) : zlen d ≤ ss_room s →
  (sk_write s d).2.1 = zlen d ∧ ss_room (sk_write s d).1 = ss_room s.
Proof. intros Hd. simpl. pose proof (zlen_nonneg d). destruct (_ && _) eqn:E; simpl; lia. Qed.

Lemma chargen_streams_witness :
  ∃ w' o' l', run_times 1000 1 50 chargen_w = Ok w' ∧ streaming 1 0 w' o' l' ∧
    sk_sent (ob_sock o') = sk_sent (ob_sock (conn_of chargen_w 0)) ++ concat (replicate 1000 (message_ (users chargen_w))) ∧
    transferred_ (users w') = transferred_ (users chargen_w) + 1000 * zlen (message_ (users chargen_w)).
Proof.
  refine (chargen_streams (λ s, ss_room s = 10000) 1000 1 0 chargen_w (conn_of chargen_w 0) (loop_of chargen_w 50)
    chargen_started _ _ _ _ _).
  - vm_compute. reflexivity.
  - intros s Hs. rewrite <- Hs. apply sim_write_all. rewrite Hs. vm_compute. discriminate.
  - vm_compute. discriminate.
  - vm_compute. discriminate.
  - vm_compute. reflexivity.
Defined.
