(* ===== verification/TcpClient.v ===== *)
(** * TcpClient: src/ham/net/TcpClient.h and TcpClient.cc

    The client: its connector, the connection it has established, and the loop both live in.
    As in TcpServer.v the connections are objects in a store and their code runs on a view of
    the world; so does the connector's (Connector.v).  The client owns its connector by a
    [unique_ptr]. *)
From S2P Require Import Prelude Endian Timestamp Inet SockKernel Channel Reactor TcpConnection.
From S2P Require Connector.
Import Connector (Connector, CW, mkCW, con, clp, ckern, cusr, con_cb, con_fn, CbHandleWrite, CbHandleError,
  FnStartInLoop, FnStopInLoop, FnResetChannel).

(** The callbacks of a connection: the user's, [&TcpClient::removeConnection], and
    [detail::removeConnection], which the destructor sets. *)
Inductive cli_call (C : Type) := CallUser (u : C) | CallRemove | CallDetached.
Arguments CallUser {C}. Arguments CallRemove {C}. Arguments CallDetached {C}.

Inductive cli_cb := CcConn (c : addr) (f : conn_cb) | CcConnector (f : con_cb).
Inductive cli_fn (C : Type) :=
| CfConn (c : addr) (f : conn_fn (cli_call C))
| CfConnector (f : con_fn)
| CfRemoveConnector.
Arguments CfConn {C}. Arguments CfConnector {C}. Arguments CfRemoveConnector {C}.

Record TcpClient (C : Type) := mkClient {
  loop_ : addr;
  serverAddr_ : sockaddr_in;
  retry_ : bool;
  connect_ : bool;
  name_ : list byte;
  nextConnId_ : Z;
  establishedConnection_ : option addr;
  connectionCallback_ : option C;
  messageCallback_ : option C;
  writeCompleteCallback_ : option C
}.
Arguments mkClient {C}. Arguments loop_ {C}. Arguments serverAddr_ {C}. Arguments retry_ {C}. Arguments connect_ {C}.
Arguments name_ {C}. Arguments nextConnId_ {C}. Arguments establishedConnection_ {C}.
Arguments connectionCallback_ {C}. Arguments messageCallback_ {C}. Arguments writeCompleteCallback_ {C}.

Record CliW (C X S L K U : Type) := mkCli {
  cli : TcpClient C;
  connector : Connector unit;          (* *connector_ *)
  cl_loop : L;
  cl_kern : K;
  cl_objs : gmap addr (conn_obj (cli_call C) X S);
  cl_users : U
}.
Arguments mkCli {C X S L K U}. Arguments cli {C X S L K U}. Arguments connector {C X S L K U}.
Arguments cl_loop {C X S L K U}. Arguments cl_kern {C X S L K U}. Arguments cl_objs {C X S L K U}.
Arguments cl_users {C X S L K U}.

Section client.
Context {C X S L F K U : Type} `{Socket S} `{SockKernel K} `{Reactor L F (cli_fn C)} `{LoopTimers L (cli_fn C)}
  `{!LoopRun L (cli_fn C)}.
Context (host : byte_order) (inet_ntop : Z → list byte).
(** [std::bind] for the channels; the allocators; the socket behind a descriptor. *)
Context (bind : cli_cb → F).
Abbreviation World := (CliW C X S L K U).
Abbreviation ConnW := (W (cli_call C) X S L World).
Abbreviation ConW := (CW unit L K World).
Context (new_obj : World → addr) (new_chan : L → addr) (new_sock : Z → K → S).
(** The user's callbacks, called in thread [tid] on connection [c]. *)
Context (user : C → Z → addr → cb_arg → World → outcome World).
Implicit Types (w : World) (c : addr).

Definition set_cli (s : TcpClient C) w : World := mkCli s (connector w) (cl_loop w) (cl_kern w) (cl_objs w) (cl_users w).
Definition set_loop (l : L) w : World := mkCli (cli w) (connector w) l (cl_kern w) (cl_objs w) (cl_users w).
Definition put_obj c (o : conn_obj (cli_call C) X S) w : World :=
  mkCli (cli w) (connector w) (cl_loop w) (cl_kern w) (<[c := o]> (cl_objs w)) (cl_users w).

Definition set_connect (b : bool) (s : TcpClient C) : TcpClient C :=
  mkClient (loop_ s) (serverAddr_ s) (retry_ s) b (name_ s) (nextConnId_ s) (establishedConnection_ s)
    (connectionCallback_ s) (messageCallback_ s) (writeCompleteCallback_ s).
Definition setRetry (on : bool) (s : TcpClient C) : TcpClient C :=
  mkClient (loop_ s) (serverAddr_ s) on (connect_ s) (name_ s) (nextConnId_ s) (establishedConnection_ s)
    (connectionCallback_ s) (messageCallback_ s) (writeCompleteCallback_ s).
Definition set_nextConnId (n : Z) (s : TcpClient C) : TcpClient C :=
  mkClient (loop_ s) (serverAddr_ s) (retry_ s) (connect_ s) (name_ s) n (establishedConnection_ s)
    (connectionCallback_ s) (messageCallback_ s) (writeCompleteCallback_ s).
Definition set_established (e : option addr) (s : TcpClient C) : TcpClient C :=
  mkClient (loop_ s) (serverAddr_ s) (retry_ s) (connect_ s) (name_ s) (nextConnId_ s) e
    (connectionCallback_ s) (messageCallback_ s) (writeCompleteCallback_ s).
Definition setCallbacks (cc mc wc : option C) (s : TcpClient C) : TcpClient C :=
  mkClient (loop_ s) (serverAddr_ s) (retry_ s) (connect_ s) (name_ s) (nextConnId_ s) (establishedConnection_ s)
    cc mc wc.

Definition obj_at c w : outcome (conn_obj (cli_call C) X S) :=
  match cl_objs w !! c with Some o => Ok o | None => Err NullPointer end.
Definition assert_loop (tid : Z) w : outcome unit := rt_assertInLoopThread tid (cl_loop w).
Definition queue_fn (tid : Z) (g : cli_fn C) w : World := set_loop (rt_queueInLoop tid g (cl_loop w)) w.

(** ** Views *)

(** The world as the code of connection [c] sees it, and as the connector sees it. *)
Definition enter c w : outcome ConnW := o ← obj_at c w; Ok (mkW (ob_conn o) (cl_loop w) (ob_sock o) w).
Definition leave c (x : ConnW) : World :=
  match cl_objs (usr x) !! c with
  | Some o => set_loop (lp x) (put_obj c (mkObj (conn x) (ob_loop o) (sock x) (ob_fd o) (ob_local o) (ob_peer o)) (usr x))
  | None => usr x
  end.
Definition on_conn c (f : ConnW → outcome ConnW) w : outcome World :=
  x ← enter c w; x ← f x; Ok (leave c x).

Definition enter_con w : ConW := mkCW (connector w) (cl_loop w) (cl_kern w) w.
Definition leave_con (x : ConW) : World :=
  let w := cusr x in mkCli (cli w) (con x) (clp x) (ckern x) (cl_objs w) (cl_users w).
Definition on_con (f : ConW → outcome ConW) w : outcome World := x ← f (enter_con w); Ok (leave_con x).

Definition bind_con_cb (f : con_cb) : F := bind (CcConnector f).

(** ** The end of a connection *)
Definition removeConnection (tid : Z) c w : outcome World :=
  _ ← assert_loop tid w;
  o ← obj_at c w;
  _ ← assert_ (loop_ (cli w) =? ob_loop o);
  let w := set_cli (set_established None (cli w)) w in
  let w := queue_fn tid (CfConn c FnDestroy) w in
  if retry_ (cli w) && connect_ (cli w)
  then on_con (Connector.restart bind_con_cb CfConnector new_chan tid) w
  else Ok w.

(** [detail::removeConnection] *)
Definition detail_removeConnection (tid : Z) c w : outcome World := Ok (queue_fn tid (CfConn c FnDestroy) w).

Definition call (tid : Z) c (cb : cli_call C) (arg : cb_arg) (x : ConnW) : outcome ConnW :=
  w ← (match cb with
       | CallUser u => user u tid c arg (leave c x)
       | CallRemove => removeConnection tid c (leave c x)
       | CallDetached => detail_removeConnection tid c (leave c x)
       end);
  enter c w.

(** ** A new connection *)
Definition conn_name (name : list byte) (peer : sockaddr_in) (id : Z) : list byte :=
  name ++ str ":" ++ getIpPortStr host inet_ntop peer ++ str "#" ++ to_string id.

Definition newConnection (tid fd : Z) w : outcome World :=
  _ ← assert_loop tid w;
  let s := cli w in
  let peerAddr := getPeerAddr (k_peername fd (cl_kern w)) in
  let name := conn_name (name_ s) peerAddr (nextConnId_ s) in
  let w := set_cli (set_nextConnId (i32 (nextConnId_ s + 1)) s) w in
  let localAddr := getLocalAddr (k_sockname fd (cl_kern w)) in
  let c := new_obj w in
  let x := TcpConnection_ctor (λ f, bind (CcConn c f)) c (loop_ s) name fd (new_chan (cl_loop w))
             (new_sock fd (cl_kern w)) (cl_loop w) w in
  let conn' := TcpConnection.setCallbacks (CallUser <$> connectionCallback_ s) (CallUser <$> messageCallback_ s)
                 (Some CallRemove) (CallUser <$> writeCompleteCallback_ s) (conn x) in
  let w := set_loop (lp x) (put_obj c (mkObj conn' (loop_ s) (sock x) fd localAddr peerAddr) w) in
  w ← on_conn c (establishConnection (call tid c) tid) w;
  Ok (set_cli (set_established (Some c) (cli w)) w).

(** [newConnCb_] of the connector. *)
Definition con_call (tid : Z) (_ : unit) (fd : Z) (x : ConW) : outcome ConW :=
  w ← newConnection tid fd (leave_con x); Ok (enter_con w).

(** ** Construction, destruction, the user's calls *)
Definition TcpClient_ctor (loop : addr) (serverAddr : sockaddr_in) (name : list byte) (l : L) (k : K) (u : U) : World :=
  mkCli (mkClient loop serverAddr false false name 1 None None None None)
    (Connector.setNewConnectionCallback tt (Connector.Connector_ctor serverAddr false)) l k ∅ u.

Definition connect (tid : Z) w : outcome World :=
  on_con (Connector.start bind_con_cb CfConnector new_chan tid) (set_cli (set_connect true (cli w)) w).

Definition disconnect (tid : Z) w : outcome World :=
  let w := set_cli (set_connect false (cli w)) w in
  match establishedConnection_ (cli w) with
  | Some c => on_conn c (shutdown (CfConn c) (call tid c) tid) w
  | None => Ok w
  end.

Definition stop (tid : Z) w : outcome World :=
  on_con (Connector.stop bind_con_cb CfConnector new_chan tid) (set_cli (set_connect false (cli w)) w).

Definition setCloseCallback (cb : cli_call C) (o : conn_obj (cli_call C) X S) : conn_obj (cli_call C) X S :=
  let t := ob_conn o in
  mkObj (TcpConnection.setCallbacks (TcpConnection.connectionCallback_ t) (TcpConnection.messageCallback_ t)
      (Some cb) (TcpConnection.writeCompleteCallback_ t) t)
    (ob_loop o) (ob_sock o) (ob_fd o) (ob_local o) (ob_peer o).

(** The pending functors that hold connection [c]. *)
Definition holds c (g : cli_fn C) : bool :=
  match g with CfConn c' f => (c' =? c) && negb (plain_this f) | _ => false end.

(** [shared_ptr::unique()], when [others] references are held outside of the client and
    its loop: by the user, or by the code that is running. *)
Definition is_unique (others : nat) c w : bool :=
  bool_decide (others = 0%nat) && negb (existsb (holds c) (rt_pending (cl_loop w))).

(** The body of the destructor, then the members: the established connection and the
    connector. *)
Definition TcpClient_dtor (tid : Z) (others : nat) w : outcome World :=
  w ← (match establishedConnection_ (cli w) with
       | Some c =>
           let unique := is_unique others c w in
           o ← obj_at c w;
           let w := put_obj c (setCloseCallback CallDetached o) w in
           if unique then on_conn c (forceClose (CfConn c) tid) w else Ok w
       | None =>
           w ← on_con (Connector.stop bind_con_cb CfConnector new_chan tid) w;
           '(_, l) ← rt_runAfter tid (double_of_Z 1) CfRemoveConnector (cl_loop w);
           Ok (set_loop l w)
       end);
  let w := set_cli (set_established None (cli w)) w in
  on_con (Connector.Connector_dtor bind_con_cb CfConnector new_chan tid) w.

(** ** Running *)
Definition run_fn (tid : Z) (g : cli_fn C) w : outcome World :=
  match g with
  | CfConn c f => on_conn c (TcpConnection.run_fn (CfConn c) (call tid c) tid f) w
  | CfConnector f => on_con (Connector.run_fn bind_con_cb CfConnector new_chan tid f) w
  | CfRemoveConnector => Ok w
  end.

(** The loop runs its first pending functor. *)
Definition run_next (tid : Z) w : outcome World :=
  match rt_take (cl_loop w) with
  | Some (g, l) => run_fn tid g (set_loop l w)
  | None => Ok w
  end.

(** Events of the channels. *)
Definition io_event (tid : Z) (cb : cli_cb) (t : Timestamp) w : outcome World :=
  match cb with
  | CcConn c f => on_conn c (TcpConnection.run_cb (CfConn c) (call tid c) tid f t) w
  | CcConnector CbHandleWrite => on_con (Connector.handleWrite CfConnector (con_call tid) tid) w
  | CcConnector CbHandleError => on_con (Connector.handleError CfConnector tid) w
  end.

(** The last reference to a connection goes: its channel and its socket are destroyed. *)
Definition referenced (others : nat) c w : bool :=
  bool_decide (establishedConnection_ (cli w) = Some c) || negb (is_unique others c w).
Definition drop_conn c w : outcome World :=
  o ← obj_at c w;
  let a := channel_ (ob_conn o) in
  ch ← (match rt_channel (cl_loop w) a with Some ch => Ok ch | None => Err NullPointer end);
  _ ← Channel_dtor ch;
  Ok (mkCli (cli w) (connector w) (rt_delete a (cl_loop w)) (k_close (ob_fd o) (cl_kern w))
    (delete c (cl_objs w)) (cl_users w)).
End client.

(** ** User code as the calls it makes in the loop's thread.  None of them calls back. *)
Section script.
Context {C X S L F K U : Type} `{Socket S} `{SockKernel K} `{Reactor L F (cli_fn C)} `{LoopTimers L (cli_fn C)}.
Context (bind : cli_cb → F) (new_chan : L → addr).
Abbreviation World := (CliW C X S L K U).

Inductive cli_action :=
  CaConn (c : addr) (op : user_op) | CaConnect | CaDisconnect | CaStop | CaRetry (on : bool) | CaData (f : U → U).

Definition no_call (u : C) (tid : Z) (c : addr) (arg : cb_arg) (w : World) : outcome World := Ok w.

Definition run_cli_action (tid : Z) (a : cli_action) (w : World) : outcome World :=
  match a with
  | CaConn c op => on_conn c (conn_user_op (CfConn c) (call bind new_chan no_call tid c) tid op) w
  | CaConnect => connect bind new_chan tid w
  | CaDisconnect => disconnect bind new_chan no_call tid w
  | CaStop => stop bind new_chan tid w
  | CaRetry on => Ok (set_cli (setRetry on (cli w)) w)
  | CaData f => Ok (mkCli (cli w) (connector w) (cl_loop w) (cl_kern w) (cl_objs w) (f (cl_users w)))
  end.
Fixpoint run_cli_actions (tid : Z) (acts : list cli_action) (w : World) : outcome World :=
  match acts with [] => Ok w | a :: acts => w ← run_cli_action tid a w; run_cli_actions tid acts w end.

Definition scripted_client (script : C → Z → addr → cb_arg → World → list cli_action)
    (u : C) (tid : Z) (c : addr) (arg : cb_arg) (w : World) : outcome World :=
  run_cli_actions tid (script u tid c arg w) w.
End script.
