(* ===== verification/ClientInv.v ===== *)
(** * ClientInv: the lifetime of the connections and of the connector of a TcpClient

    The steps a client takes, an invariant over its connector, the connection objects, their
    channels and the pending functors, and its preservation by every step, whatever the
    user's callbacks do within the invariant.  The client is used from its loop's thread
    ([connect] and [stop] from any). *)
From S2P Require Import Prelude Timestamp Inet SockKernel Channel Reactor TcpConnection ConnFrame TcpClient.
From S2P Require Connector.
Import Connector (Connector, CW, mkCW, con, clp, ckern, cusr, con_cb, con_fn, CbHandleWrite, CbHandleError,
  FnStartInLoop, FnStopInLoop, FnResetChannel).

#[local] Existing Instance Connector.State_eq_dec.

(** ** The connector *)
Section connector.
Context {C L F K U : Type} `{SockKernel K} `{ReactorFrame L F (cli_fn C)} `{LoopTimers L (cli_fn C)}.
Context (bind : con_cb → F) (new_chan : L → addr).
Context (fresh_chan : ∀ l, rt_channel l (new_chan l) = None).
Abbreviation ConW := (CW unit L K U).
Implicit Types (x y : ConW) (t : Connector unit) (l : L).

(** The pending destructions of the connector's channel. *)
Definition is_reset (g : cli_fn C) : bool := match g with CfConnector FnResetChannel => true | _ => false end.
Definition resets l : nat := length (List.filter is_reset (rt_pending l)).

(** The connector's channel: while it connects the channel is in use; afterwards it is out of
    the poller and exactly one functor waits to destroy it, or ([k] = 1) is running. *)
Record con_ok (k : nat) t l : Prop := {
  ck_cb : Connector.newConnCb_ t = Some tt;
  ck_owner : Connector.shared t = false;
  ck_timer : Connector.validTimer_ t = false;
  ck_chan : match Connector.connectChannel_ t with
    | None => Connector.state_ t ≠ Connector.kConnecting ∧ (resets l + k = 0)%nat
    | Some a => is_Some (rt_channel l a) ∧
        if decide (Connector.state_ t = Connector.kConnecting) then (resets l + k = 0)%nat
        else (resets l + k = 1)%nat ∧ rt_registered l a = false
    end
}.

(** What the connector's code leaves alone. *)
Record con_step x y : Prop := {
  cs_usr : cusr y = cusr x;
  cs_others a : Connector.connectChannel_ (con x) ≠ Some a → is_Some (rt_channel (clp x) a) →
    rt_channel (clp y) a = rt_channel (clp x) a;
  cs_new a : Connector.connectChannel_ (con y) = Some a →
    Connector.connectChannel_ (con x) = Some a ∨ rt_channel (clp x) a = None;
  cs_pending : ∃ fs, rt_pending (clp y) = rt_pending (clp x) ++ map CfConnector fs;
  cs_connected : Connector.state_ (con x) = Connector.kConnected → Connector.state_ (con y) = Connector.kConnected;
  cs_thread (tid : Z) : rt_isInLoopThread tid (clp y) = rt_isInLoopThread tid (clp x)
}.

Lemma con_step_refl x : con_step x x.
Proof. split; try done; [by left|exists []; by rewrite app_nil_r]. Qed.

Lemma con_step_trans x y z : con_step x y → con_step y z → con_step x z.
Proof.
  intros [U1 O1 N1 (fs1 & P1) C1 T1] [U2 O2 N2 (fs2 & P2) C2 T2].
  assert (Hkeep : ∀ a, Connector.connectChannel_ (con x) ≠ Some a → is_Some (rt_channel (clp x) a) →
    Connector.connectChannel_ (con y) ≠ Some a ∧ rt_channel (clp y) a = rt_channel (clp x) a).
  { intros a Hne Hs. split; [|by apply O1]. intros [?|Hn]%N1; [done|]. rewrite Hn in Hs. by destruct Hs. }
  split.
  - by rewrite U2.
  - intros a Hne Hs. destruct (Hkeep a Hne Hs) as [Hne' Heq]. rewrite O2; [done|done|by rewrite Heq].
  - intros a [Ha|Hn]%N2; [by apply N1|]. destruct (decide (Connector.connectChannel_ (con x) = Some a)) as [|Hne]; [by left|].
    right. destruct (rt_channel (clp x) a) eqn:E; [|done]. destruct (Hkeep a Hne) as [_ Heq]; [by rewrite E|]. congruence.
  - exists (fs1 ++ fs2). by rewrite P2, P1, map_app, app_assoc.
  - auto.
  - intros t. by rewrite T2.
Qed.

(** A step that leaves the loop and the channel alone. *)
Lemma con_step_local x y :
  clp y = clp x → cusr y = cusr x → Connector.connectChannel_ (con y) = Connector.connectChannel_ (con x) →
  (Connector.state_ (con x) = Connector.kConnected → Connector.state_ (con y) = Connector.kConnected) → con_step x y.
Proof. intros Hl Hu Hc Hst. split; rewrite ?Hl, ?Hc; try done; [by left|exists []; by rewrite app_nil_r]. Qed.

Lemma con_ok_local k x y :
  clp y = clp x → Connector.connectChannel_ (con y) = Connector.connectChannel_ (con x) →
  Connector.state_ (con y) = Connector.state_ (con x) → Connector.newConnCb_ (con y) = Connector.newConnCb_ (con x) →
  Connector.shared (con y) = Connector.shared (con x) → Connector.validTimer_ (con y) = Connector.validTimer_ (con x) →
  con_ok k (con x) (clp x) → con_ok k (con y) (clp y).
Proof. intros -> Hc Hst Hcb Hsh Hv [E1 E2 E3 E4]. split; rewrite ?Hcb, ?Hsh, ?Hv, ?Hc, ?Hst; done. Qed.

(** Outside of an attempt the state may change. *)
Lemma con_ok_idle k t l s :
  con_ok k t l → Connector.state_ t ≠ Connector.kConnecting → s ≠ Connector.kConnecting →
  con_ok k (Connector.mkConnector (Connector.serverAddr_ t) s (Connector.connectChannel_ t) (Connector.newConnCb_ t)
    (Connector.connect_ t) (Connector.retryDelayMs_ t) (Connector.retryTimerId_ t) (Connector.validTimer_ t)
    (Connector.shared t)) l.
Proof.
  intros [E1 E2 E3 E4] Hst Hs. split; simpl; try done. destruct (Connector.connectChannel_ t); [|by destruct E4].
  rewrite decide_False in E4 by done. by rewrite decide_False.
Qed.

Lemma resets_same l l' : rt_pending l' = rt_pending l → resets l' = resets l.
Proof. unfold resets. by intros ->. Qed.

(** Waiting for the socket. *)
Lemma con_establish tid fd x y :
  con_ok 0 (con x) (clp x) → Connector.state_ (con x) = Connector.kDisconnected →
  Connector.establishConnection bind new_chan tid fd x = Ok y → con_step x y ∧ con_ok 0 (con y) (clp y).
Proof.
  intros [E1 E2 E3 E4] Hst (? & Hn%assert_Ok_inv & Hrun)%bind_Ok_inv. apply bool_decide_eq_true in Hn. simpl in Hn.
  rewrite Hn in E4. destruct E4 as [_ E4]. apply bind_Ok_inv in Hrun as (l' & Hrun & [= <-]). simpl in *.
  set (a := new_chan (clp x)) in *. pose proof (fresh_chan (clp x)) as Hfresh. fold a in Hfresh.
  match type of Hrun with context [rt_new_channel a ?v _] => set (ch := v) in * end.
  destruct (frame_new a ch (clp x)) as (_ & Ho1 & Hp1 & Ht1 & _).
  destruct (frame_change writing_on tid a _ _ Hrun) as (_ & Hs & _ & Ho2 & Hp2 & Ht2 & _). split.
  - split; simpl; try done.
    + intros b _ Hb. assert (b ≠ a) by (intros ->; rewrite Hfresh in Hb; by destruct Hb). by rewrite Ho2, Ho1.
    + intros b [= <-]. by right.
    + exists []. by rewrite app_nil_r, Hp2.
    + by rewrite Hst.
    + intros t. by rewrite Ht2, Ht1.
  - split; simpl; try done. split; [done|]. by rewrite (resets_same _ _ Hp2), (resets_same _ _ Hp1).
Qed.

(** Connecting anew: only from kDisconnected, and never while a channel is left. *)
Lemma con_start tid x y :
  con_ok 0 (con x) (clp x) → Connector.startInLoop bind CfConnector new_chan tid x = Ok y →
  con_step x y ∧ con_ok 0 (con y) (clp y).
Proof.
  intros Hok (? & _ & (? & Hst%assert_Ok_inv & Hrun)%bind_Ok_inv)%bind_Ok_inv. apply bool_decide_eq_true in Hst.
  destruct (Connector.connect_ (con x)); [|injection Hrun as <-; split; [apply con_step_refl|done]].
  unfold Connector.connect in Hrun. destruct (k_socket (ckern x)) as [k1 fd].
  apply bind_Ok_inv in Hrun as (fd' & _ & Hrun). destruct (k_connect fd' _ k1) as [k2 e].
  set (xk := Connector.set_ckern k2 x) in *.
  assert (Hxk : con_step x xk ∧ con_ok 0 (con xk) (clp xk)) by (split; [by apply con_step_local|done]).
  destruct (Connector.connect_pending e).
  - destruct (con_establish tid fd' xk y (proj2 Hxk) Hst Hrun) as [Hs Hok']. split; [|exact Hok'].
    exact (con_step_trans _ _ _ (proj1 Hxk) Hs).
  - destruct (Connector.connect_soft_error e); [|injection Hrun as <-; split; [by apply con_step_local|exact Hok]].
    unfold Connector.retry in Hrun. apply bind_Ok_inv in Hrun as (? & Hc%assert_Ok_inv & _).
    apply bool_decide_eq_true in Hc. change (Connector.state_ (con xk)) with (Connector.state_ (con x)) in Hc. congruence.
Qed.

(** The end of an attempt: the channel leaves the poller, a functor will destroy it. *)
Lemma con_remove tid x fd y :
  con_ok 0 (con (Connector.set_state Connector.kConnecting x)) (clp x) →
  Connector.removeAndResetChannel CfConnector tid x = Ok (fd, y) →
  con_step x y ∧ Connector.state_ (con y) = Connector.state_ (con x) ∧ Connector.connect_ (con y) = Connector.connect_ (con x) ∧
  ∀ s, s ≠ Connector.kConnecting → con_ok 0 (con (Connector.set_state s y)) (clp y).
Proof.
  intros [E1 E2 E3 E4] (a & Ha & (ch & _ & Hrun)%bind_Ok_inv)%bind_Ok_inv. simpl in *.
  destruct (Connector.connectChannel_ (con x)) as [a'|] eqn:Hca; [|done]. injection Ha as ->.
  destruct E4 as [Hs E4].
  apply bind_Ok_inv in Hrun as (x1' & (l1 & Hc & [= <-])%bind_Ok_inv & (x2' & (l2 & Hr & [= <-])%bind_Ok_inv & [= _ <-])%bind_Ok_inv).
  simpl in *. destruct (frame_change all_off tid a _ _ Hc) as (_ & _ & _ & Ho1 & Hp1 & Ht1 & _).
  destruct (frame_remove tid a _ _ Hr) as (_ & Hs2 & Hg2 & _ & Ho2 & Hp2 & Ht2 & _).
  destruct (frame_queue tid (CfConnector FnResetChannel) l2) as (Hp3 & Hc3 & Ht3 & _).
  split_and!; [|done|done|].
  - split; simpl; try done.
    + rewrite Hca. intros b Hb _. rewrite Hc3, Ho2, Ho1; congruence.
    + intros b Hb. left. congruence.
    + exists [FnResetChannel]. by rewrite Hp3, Hp2, Hp1.
    + intros t. by rewrite Ht3, Ht2, Ht1.
  - intros s Hne. split; simpl; try done. rewrite Hca. unfold rt_registered in *. rewrite Hc3.
    split; [done|]. rewrite decide_False by done. split; [|done].
    unfold resets in *. rewrite Hp3, Hp2, Hp1, List.filter_app, length_app. simpl. lia.
Qed.

Lemma con_state_id x s : Connector.state_ (con x) = s → Connector.set_state s x = x.
Proof. intros <-. by destruct x as [[] l k u]. Qed.

(** [retry] of an attempt that was given up: without a [shared_ptr] it only returns when
    [connect_] is off. *)
Lemma con_retry tid fd x y :
  Connector.state_ (con x) = Connector.kConnecting →
  con_ok 0 (con (Connector.set_state Connector.kDisconnected x)) (clp x) →
  Connector.retry CfConnector tid fd x = Ok y → con_step x y ∧ con_ok 0 (con y) (clp y).
Proof.
  intros Hst Hok (? & _ & Hrun)%bind_Ok_inv. simpl in Hrun.
  assert (Hown : Connector.shared (con x) = false) by apply Hok.
  destruct (Connector.connect_ (con x)); [by rewrite Hown in Hrun|]. injection Hrun as <-. split; [|exact Hok].
  apply con_step_local; try done. by rewrite Hst.
Qed.

Lemma con_stop_in_loop tid x y :
  con_ok 0 (con x) (clp x) → Connector.stopInLoop CfConnector tid x = Ok y → con_step x y ∧ con_ok 0 (con y) (clp y).
Proof.
  intros Hok (? & _ & Hrun)%bind_Ok_inv. case_bool_decide as Hst; [|injection Hrun as <-; split; [apply con_step_refl|done]].
  apply bind_Ok_inv in Hrun as ([fd z] & Hrm & [= <-]).
  destruct (con_remove tid (Connector.set_state Connector.kDisconnected x) fd z) as (Hs & Hz & _ & Hk); [|done|].
  { simpl. change (con_ok 0 (con (Connector.set_state Connector.kConnecting x)) (clp x)). by rewrite con_state_id. }
  split; [|simpl; specialize (Hk Connector.kDisconnected); rewrite con_state_id in Hk by done; by apply Hk].
  eapply con_step_trans; [|eapply con_step_trans; [exact Hs|by apply con_step_local]].
  apply con_step_local; try done. by rewrite Hst.
Qed.

Lemma con_restart tid x y :
  con_ok 0 (con x) (clp x) → Connector.state_ (con x) = Connector.kConnected →
  Connector.restart bind CfConnector new_chan tid x = Ok y →
  con_ok 0 (con y) (clp y) ∧ ∃ z, cusr z = cusr x ∧ clp z = clp x ∧
    Connector.connectChannel_ (con z) = Connector.connectChannel_ (con x) ∧ con_step z y.
Proof.
  intros Hok Hst (? & _ & Hrun)%bind_Ok_inv.
  apply con_start in Hrun as [Hs Hy].
  - split; [done|]. eexists. split_and!; [..|exact Hs]; done.
  - apply (con_ok_idle 0 (con x) _ Connector.kDisconnected) in Hok; [|by rewrite Hst|done].
    eapply (con_ok_local 0 (Connector.set_state Connector.kDisconnected x)); [..|exact Hok]; done.
Qed.

(** A call that may have to wait for the loop's thread. *)
Lemma con_queue tid f x : f ≠ FnResetChannel → con_ok 0 (con x) (clp x) →
  let y := Connector.set_clp (rt_queueInLoop tid (CfConnector f) (clp x)) x in con_step x y ∧ con_ok 0 (con y) (clp y).
Proof.
  intros Hf [E1 E2 E3 E4]. destruct (frame_queue tid (CfConnector f) (clp x)) as (Hp & Hc & Ht & _). split.
  - split; simpl; try done; [by left|by exists [f]].
  - assert (Hr : resets (rt_queueInLoop tid (CfConnector f) (clp x)) = resets (clp x)).
    { unfold resets. rewrite Hp, List.filter_app, length_app. destruct f; simpl; [lia..|done]. }
    split; simpl; try done. destruct (Connector.connectChannel_ (con x)); rewrite Hr; [|done].
    unfold rt_registered. by rewrite Hc.
Qed.

Lemma con_start_call tid x y :
  con_ok 0 (con x) (clp x) → Connector.start bind CfConnector new_chan tid x = Ok y → con_step x y ∧ con_ok 0 (con y) (clp y).
Proof.
  intros Hok Hrun. unfold Connector.start, Connector.runInLoop in Hrun.
  assert (Hok1 : con_ok 0 (con (Connector.set_connect true x)) (clp (Connector.set_connect true x)))
    by by eapply con_ok_local; [..|exact Hok].
  assert (Hs1 : con_step x (Connector.set_connect true x)) by by apply con_step_local.
  destruct (rt_isInLoopThread tid _).
  - apply con_start in Hrun as [Hs ?]; [|done]. split; [exact (con_step_trans _ _ _ Hs1 Hs)|done].
  - injection Hrun as <-. destruct (con_queue tid FnStartInLoop _ (ltac:(done)) Hok1) as [Hs ?].
    split; [exact (con_step_trans _ _ _ Hs1 Hs)|done].
Qed.

Lemma con_stop_call tid x y :
  con_ok 0 (con x) (clp x) → Connector.stop bind CfConnector new_chan tid x = Ok y → con_step x y ∧ con_ok 0 (con y) (clp y).
Proof.
  intros Hok (z & Hrun & Hv)%bind_Ok_inv. unfold Connector.runInLoop in Hrun.
  assert (Hok1 : con_ok 0 (con (Connector.set_connect false x)) (clp (Connector.set_connect false x)))
    by by eapply con_ok_local; [..|exact Hok].
  assert (Hs1 : con_step x (Connector.set_connect false x)) by by apply con_step_local.
  assert (Hz : con_step x z ∧ con_ok 0 (con z) (clp z)).
  { destruct (rt_isInLoopThread tid _).
    - apply con_stop_in_loop in Hrun as [Hs ?]; [|done]. split; [exact (con_step_trans _ _ _ Hs1 Hs)|done].
    - injection Hrun as <-. destruct (con_queue tid FnStopInLoop _ (ltac:(done)) Hok1) as [Hs ?].
      split; [exact (con_step_trans _ _ _ Hs1 Hs)|done]. }
  destruct Hz as [Hs Hz]. by rewrite (ck_timer _ _ _ Hz) in Hv; injection Hv as <-.
Qed.

Lemma con_reset x y :
  con_ok 1 (con x) (clp x) → Connector.resetChannel x = Ok y → con_step x y ∧ con_ok 0 (con y) (clp y).
Proof.
  intros [E1 E2 E3 E4] Hrun. unfold Connector.resetChannel in Hrun.
  destruct (Connector.connectChannel_ (con x)) as [a|] eqn:Hca; [|destruct E4; lia].
  apply bind_Ok_inv in Hrun as (ch & _ & (? & _ & [= <-])%bind_Ok_inv).
  destruct E4 as [_ E4]. case_decide as Hst; [lia|]. destruct E4 as [E4 _].
  destruct (frame_delete a (clp x)) as (_ & Ho & Hp & Ht & _). split.
  - split; simpl; try done; [|by exists []; rewrite app_nil_r]. rewrite Hca. intros b Hb _. apply Ho. congruence.
  - split; simpl; try done. split; [done|]. rewrite (resets_same _ _ Hp). lia.
Qed.

Lemma con_error tid x y :
  con_ok 0 (con x) (clp x) → Connector.handleError CfConnector tid x = Ok y → con_step x y ∧ con_ok 0 (con y) (clp y).
Proof.
  intros Hok (? & Hst%assert_Ok_inv%bool_decide_eq_true & ([fd z] & Hrm & Hrun)%bind_Ok_inv)%bind_Ok_inv.
  apply con_remove in Hrm as (Hs & Hz & _ & Hk); [|by rewrite con_state_id].
  unfold Connector.so_error in Hrun. destruct (k_so_error fd (ckern z)) as [k1 e].
  apply con_retry in Hrun as [Hs2 ?]; [|by rewrite <- Hst|by apply Hk]. split; [|done].
  eapply con_step_trans; [exact Hs|]. eapply con_step_trans; [|exact Hs2]. by apply con_step_local.
Qed.

(** The socket is writable: until [newConnCb_] is called. *)
Lemma con_write call tid x y :
  con_ok 0 (con x) (clp x) → Connector.handleWrite CfConnector call tid x = Ok y →
  (con_step x y ∧ con_ok 0 (con y) (clp y)) ∨
  (Connector.state_ (con x) = Connector.kConnecting ∧
   ∃ z fd, con_step x z ∧ con_ok 0 (con z) (clp z) ∧ Connector.state_ (con z) = Connector.kConnected ∧ call tt fd z = Ok y).
Proof.
  intros Hok Hrun. unfold Connector.handleWrite in Hrun. case_bool_decide as Hst.
  2: { left. apply bind_Ok_inv in Hrun as (? & _ & [= <-]). split; [apply con_step_refl|done]. }
  apply bind_Ok_inv in Hrun as ([fd z] & Hrm & Hrun).
  apply con_remove in Hrm as (Hs & Hz & _ & Hk); [|by rewrite con_state_id].
  unfold Connector.so_error in Hrun. destruct (k_so_error fd (ckern z)) as [k1 e].
  set (z1 := Connector.set_ckern k1 z) in *.
  assert (Hs1 : con_step x z1) by (eapply con_step_trans; [exact Hs|by apply con_step_local]).
  assert (Hretry : Connector.retry CfConnector tid fd z1 = Ok y → con_step x y ∧ con_ok 0 (con y) (clp y)).
  { intros [Hs2 ?]%con_retry; [|by rewrite <- Hst|by apply Hk]. split; [exact (con_step_trans _ _ _ Hs1 Hs2)|done]. }
  destruct (negb _); [left; auto|]. destruct (Connector.self_connected _ _); [left; auto|].
  set (z2 := Connector.set_state Connector.kConnected z1) in *.
  assert (Hs2 : con_step x z2) by (eapply con_step_trans; [exact Hs1|by apply con_step_local]).
  assert (Hk2 : con_ok 0 (con z2) (clp z2)) by by apply Hk.
  destruct (Connector.connect_ (con z2)).
  - right. split; [done|]. rewrite (ck_cb _ _ _ Hk2) in Hrun. exists z2, fd. by split_and!.
  - left. injection Hrun as <-. split; [|exact Hk2]. eapply con_step_trans; [exact Hs2|by apply con_step_local].
Qed.
End connector.

(** ** The invariant *)
Section inv.
Context {C X S L F K U : Type} `{Socket S} `{SockKernel K} `{ReactorFrame L F (cli_fn C)}.
Abbreviation World := (CliW C X S L K U).
Abbreviation ConnW := (W (cli_call C) X S L World).
Abbreviation ConW := (CW unit L K World).
Abbreviation Obj := (conn_obj (cli_call C) X S).
Implicit Types (w : World) (c : addr) (o : Obj) (l : L) (run : option (cli_fn C)) (nb : option addr).

Definition user_call (cb : cli_call C) : Prop := ∃ u, cb = CallUser u.

(** The client keeps [c]: its established connection, or the one it is announcing. *)
Definition held nb w c : Prop := establishedConnection_ (cli w) = Some c ∨ nb = Some c.
Definition reg w o : bool := rt_registered (cl_loop w) (channel_ (ob_conn o)).

(** The functor [run] has left the queue and is about to run. *)
Definition resetting run : nat := match run with Some (CfConnector FnResetChannel) => 1 | _ => 0 end.
Definition destroying run c : Prop := run = Some (CfConn c FnDestroy).

(** A connection that the client gave up is down, watched for nothing, and on its way out of
    the poller or out of it. *)
Record obj_inv run nb w c o : Prop := {
  oi_chan : is_Some (rt_channel (cl_loop w) (channel_ (ob_conn o)));
  oi_loop : ob_loop o = loop_ (cli w);
  oi_close : closeCallback_ (ob_conn o) = Some CallRemove;
  oi_cc cb : TcpConnection.connectionCallback_ (ob_conn o) = Some cb → user_call cb;
  oi_mc cb : TcpConnection.messageCallback_ (ob_conn o) = Some cb → user_call cb;
  oi_later : later_ok user_call (ob_conn o);
  oi_held : held nb w c → CfConn c FnDestroy ∉ rt_pending (cl_loop w);
  oi_dead : ¬ held nb w c → state_ (ob_conn o) = kDisconnected ∧
    rt_event (cl_loop w) (channel_ (ob_conn o)) = Some 0 ∧
    (destroying run c ∨ CfConn c FnDestroy ∈ rt_pending (cl_loop w) ∨ reg w o = false)
}.

Record cli_inv run nb w : Prop := {
  ci_con : con_ok (resetting run) (connector w) (cl_loop w);
  ci_obj c o : cl_objs w !! c = Some o → obj_inv run nb w c o;
  ci_held c : held nb w c → is_Some (cl_objs w !! c) ∧ Connector.state_ (connector w) = Connector.kConnected;
  ci_new : nb ≠ None → establishedConnection_ (cli w) = None;
  ci_chans c1 c2 o1 o2 : cl_objs w !! c1 = Some o1 → cl_objs w !! c2 = Some o2 →
    channel_ (ob_conn o1) = channel_ (ob_conn o2) → c1 = c2;
  ci_con_chan c o : cl_objs w !! c = Some o → Connector.connectChannel_ (connector w) ≠ Some (channel_ (ob_conn o));
  ci_fns c f : CfConn c f ∈ rt_pending (cl_loop w) → is_Some (cl_objs w !! c) ∧ (harmless user_call f ∨ f = FnDestroy)
}.

Lemma held_dec nb w c : Decision (held nb w c).
Proof. unfold held. apply _. Qed.

(** ** What a change of the world keeps *)

Lemma con_ok_loop k k' (t : Connector unit) l l' :
  con_ok k t l → (∀ a, Connector.connectChannel_ t = Some a → rt_channel l' a = rt_channel l a) →
  (resets l' + k' = resets l + k)%nat → con_ok k' t l'.
Proof.
  intros [E1 E2 E3 E4] Hc Hr. split; try done. destruct (Connector.connectChannel_ t) as [a|]; [|by rewrite Hr].
  unfold rt_registered. rewrite Hc by done. by case_decide; rewrite Hr.
Qed.

(** An object that a step does not concern. *)
Lemma cli_obj_inv_same run run' nb nb' w w' c o :
  obj_inv run nb w c o → loop_ (cli w') = loop_ (cli w) →
  rt_channel (cl_loop w') (channel_ (ob_conn o)) = rt_channel (cl_loop w) (channel_ (ob_conn o)) →
  (held nb' w' c ↔ held nb w c) →
  (destroying run c ∨ CfConn c FnDestroy ∈ rt_pending (cl_loop w) →
    destroying run' c ∨ CfConn c FnDestroy ∈ rt_pending (cl_loop w')) →
  (CfConn c FnDestroy ∈ rt_pending (cl_loop w') → CfConn c FnDestroy ∈ rt_pending (cl_loop w)) →
  obj_inv run' nb' w' c o.
Proof.
  intros [I1 I2 I3 I4 I5 I6 I7 I8] Hl Hc Hh Hd Hd'. split; rewrite ?Hl, ?Hc; try done.
  - intros Hh' Hin. apply I7; [by apply Hh|auto].
  - intros Hn. destruct I8 as (? & ? & Hor); [by rewrite <- Hh|]. unfold rt_event, reg, rt_registered in *. rewrite Hc.
    split_and!; [done|done|]. tauto.
Qed.

(** Only the pending functors change. *)
Lemma cli_pending_inv run run' nb w l' :
  cli_inv run nb w → (∀ a, rt_channel l' a = rt_channel (cl_loop w) a) →
  (resets l' + resetting run' = resets (cl_loop w) + resetting run)%nat →
  (∀ c f, CfConn c f ∈ rt_pending l' → CfConn c f ∈ rt_pending (cl_loop w) ∨
     (is_Some (cl_objs w !! c) ∧ harmless user_call f)) →
  (∀ c, destroying run c ∨ CfConn c FnDestroy ∈ rt_pending (cl_loop w) → destroying run' c ∨ CfConn c FnDestroy ∈ rt_pending l') →
  cli_inv run' nb (set_loop l' w).
Proof.
  intros [J1 J2 J3 J4 J5 J6 J7] Hc Hr Hf Hd.
  assert (Hd' : ∀ c, CfConn c FnDestroy ∈ rt_pending l' → CfConn c FnDestroy ∈ rt_pending (cl_loop w)).
  { intros c [?|[_ []]]%Hf. done. }
  split; try done.
  - eapply con_ok_loop; [exact J1|done|done].
  - intros c o Ho. eapply cli_obj_inv_same; [by apply J2|done|apply Hc|done|apply Hd|apply Hd'].
  - intros c f [?|[? ?]]%Hf; [by apply J7|by split; [|left]].
Qed.

(** ** A step of one connection's code *)
Definition with_view (x : ConnW) o : Obj :=
  mkObj (conn x) (ob_loop o) (sock x) (ob_fd o) (ob_local o) (ob_peer o).

Lemma cli_leave_eq c (x : ConnW) o :
  cl_objs (usr x) !! c = Some o → leave c x = set_loop (lp x) (put_obj c (with_view x o) (usr x)).
Proof. unfold leave. by intros ->. Qed.

Lemma cli_leave_enter c w (x : ConnW) : enter c w = Ok x → leave c x = w ∧ usr x = w.
Proof.
  intros (o & Ho & [= <-])%bind_Ok_inv. unfold obj_at in Ho. destruct (cl_objs w !! c) as [o'|] eqn:E; [|done].
  injection Ho as ->. split; [|done]. unfold leave. simpl. rewrite E. destruct w, o. unfold set_loop, put_obj. simpl in *.
  by rewrite insert_id.
Qed.

Lemma cli_enter_inv c w (x : ConnW) : enter c w = Ok x →
  ∃ o, cl_objs w !! c = Some o ∧ x = mkW (ob_conn o) (cl_loop w) (ob_sock o) w.
Proof.
  intros (o & Ho & [= <-])%bind_Ok_inv. unfold obj_at in Ho. destruct (cl_objs w !! c) as [o'|]; [|done].
  injection Ho as ->. eauto.
Qed.

(** One object is replaced by another with the same identity, in a loop where only its
    channel and its functors changed. *)
Lemma object_inv run run' nb w c o o' l' :
  cli_inv run nb w → cl_objs w !! c = Some o → ident (ob_conn o') = ident (ob_conn o) → ob_loop o' = ob_loop o →
  (∀ a, a ≠ channel_ (ob_conn o) → rt_channel l' a = rt_channel (cl_loop w) a) →
  is_Some (rt_channel l' (channel_ (ob_conn o))) →
  (∃ fs, rt_pending l' = rt_pending (cl_loop w) ++ map (CfConn c) fs ∧ Forall (harmless user_call) fs) →
  (∀ c2, c2 ≠ c → destroying run c2 → destroying run' c2) → resetting run' = resetting run →
  (¬ held nb w c → state_ (ob_conn o') = kDisconnected ∧ rt_event l' (channel_ (ob_conn o)) = Some 0 ∧
     (destroying run' c ∨ CfConn c FnDestroy ∈ rt_pending (cl_loop w) ∨ rt_registered l' (channel_ (ob_conn o)) = false)) →
  cli_inv run' nb (set_loop l' (put_obj c o' w)).
Proof.
  intros [J1 J2 J3 J4 J5 J6 J7] Ho Hid Hlo Hc Hs (fs & Hp & Hfs) Hd Hr Hdead. pose proof Hid as [= _ _ Hchan Hcc Hmc Hclc _ _].
  assert (Hin : ∀ c2 f, CfConn c2 f ∈ rt_pending l' ↔ CfConn c2 f ∈ rt_pending (cl_loop w) ∨ (c2 = c ∧ f ∈ fs)).
  { intros c2 f. rewrite Hp, elem_of_app, list_elem_of_fmap. split.
    - intros [?|(f' & [= -> ->] & ?)]; eauto.
    - intros [?|[-> ?]]; eauto. }
  assert (Hnd : FnDestroy ∉ fs) by (intros Hf; by apply (proj1 (Forall_forall _ _) Hfs) in Hf).
  assert (Hd2 : ∀ c2, CfConn c2 FnDestroy ∈ rt_pending l' ↔ CfConn c2 FnDestroy ∈ rt_pending (cl_loop w)).
  { intros c2. rewrite Hin. split; [|by left]. intros [?|[_ ?]]; done. }
  assert (Hobjs : ∀ c2 o2, <[c := o']> (cl_objs w) !! c2 = Some o2 →
    (c2 = c ∧ o2 = o') ∨ (c2 ≠ c ∧ cl_objs w !! c2 = Some o2)).
  { intros c2 o2 [[<- <-]|[Hne ?]]%lookup_insert_Some; [by left|by right]. }
  assert (Hsome : ∀ c2, is_Some (cl_objs w !! c2) → is_Some (<[c := o']> (cl_objs w) !! c2)).
  { intros c2 [o2 Ho2]. destruct (decide (c2 = c)) as [->|]; [rewrite lookup_insert_eq|rewrite lookup_insert_ne by done]; eauto. }
  assert (Hch : ∀ c2 o2, <[c := o']> (cl_objs w) !! c2 = Some o2 →
    ∃ o3, cl_objs w !! c2 = Some o3 ∧ channel_ (ob_conn o3) = channel_ (ob_conn o2)).
  { intros c2 o2 [[-> ->]|[_ ?]]%Hobjs; [exists o; split; [done|congruence]|by exists o2]. }
  split; simpl; try done.
  - eapply con_ok_loop; [exact J1| |].
    + intros a Ha. apply Hc. intros ->. by apply (J6 c o Ho).
    + rewrite Hr. f_equal. unfold resets. rewrite Hp, List.filter_app, length_app.
      enough (List.filter is_reset (map (CfConn c) fs) = []) as -> by (simpl; lia). clear. by induction fs.
  - intros c2 o2 [[-> ->]|[Hne Ho2]]%Hobjs.
    + destruct (J2 c o Ho) as [I1 I2 I3 I4 I5 I6 I7 I8].
      split; simpl; rewrite ?Hchan, ?Hclc, ?Hcc, ?Hmc; try done.
      * congruence.
      * by eapply ident_later.
      * intros Hh. rewrite Hd2. auto.
      * intros Hn. unfold reg. simpl. rewrite Hchan, Hd2. by apply Hdead.
    + eapply cli_obj_inv_same; [by apply J2|done| |done| |apply Hd2].
      * simpl. apply Hc. intros Heq. apply Hne. by eapply J5.
      * simpl. rewrite Hd2. intros [?|?]; [left; by apply Hd|by right].
  - intros c2 Hh. destruct (J3 c2 Hh). auto.
  - intros c1 c2 o1 o2 (o3 & Ho3 & <-)%Hch (o4 & Ho4 & <-)%Hch. by apply J5.
  - intros c2 o2 (o3 & Ho3 & <-)%Hch. by apply (J6 c2 o3).
  - intros c2 f [Hf|[-> Hf]]%Hin; [destruct (J7 c2 f Hf); auto|]. split; [apply Hsome; eauto|].
    left. by apply (proj1 (Forall_forall _ _) Hfs).
Qed.

(** The code of a connection that the client keeps. *)
Lemma cli_leave_inv nb r w c o (x0 x : ConnW) :
  cli_inv None nb w → cl_objs w !! c = Some o → held nb w c →
  lp x0 = cl_loop w → usr x0 = w → ident (conn x0) = ident (ob_conn o) →
  quiet (CfConn c) r (harmless user_call) x0 x → cli_inv None nb (leave c x).
Proof.
  intros Hinv Ho Hh Hl Hu Hid [Qu Qi _ Qc Qo _ _ Qp _]. rewrite (cli_leave_eq c x o) by by rewrite Qu, Hu.
  rewrite Qu, Hu. unfold chan in *. rewrite Hl in *. rewrite (ident_chan _ _ Hid) in *.
  apply (object_inv None None nb w c o); try done.
  - simpl. congruence.
  - apply Qc. by destruct (ci_obj _ _ _ Hinv c o Ho).
Qed.

(** ** The connector's code *)
Lemma leave_con_inv run nb w (x y : ConW) :
  cli_inv run nb w → cusr x = w → clp x = cl_loop w →
  Connector.connectChannel_ (con x) = Connector.connectChannel_ (connector w) →
  con_step x y → con_ok 0 (con y) (clp y) →
  ((∃ c, held nb w c) → Connector.state_ (con y) = Connector.kConnected) →
  (∀ c, ¬ destroying run c) → cli_inv None nb (leave_con y).
Proof.
  intros [J1 J2 J3 J4 J5 J6 J7] Hu Hl Hx [Qu Qo Qn (fs & Qp) _ _] Hok Hst Hd. unfold leave_con. rewrite Qu, Hu. rewrite Hl, Hx in *.
  assert (Hin : ∀ c f, CfConn c f ∈ rt_pending (clp y) ↔ CfConn c f ∈ rt_pending (cl_loop w)).
  { intros c f. rewrite Qp, elem_of_app, list_elem_of_fmap. split; [|by left]. intros [?|(? & ? & _)]; done. }
  split; simpl; try done.
  - intros c o Ho. pose proof (J2 c o Ho) as Hi. eapply cli_obj_inv_same; [exact Hi|done| |done| |]; simpl.
    + apply Qo; [by apply (J6 c o)|apply Hi].
    + rewrite Hin. intros [Hf|?]; [by apply Hd in Hf|by right].
    + apply Hin.
  - intros c Hc. split; [by apply J3|]. apply Hst. by exists c.
  - intros c o Ho Ha. destruct (Qn _ Ha) as [?|Hn]; [by eapply J6|].
    destruct (oi_chan _ _ _ _ _ (J2 c o Ho)) as [ch Hch]. congruence.
  - intros c f Hf. apply J7. by apply Hin.
Qed.

(** ** The client gives its connection up *)
Section remove.
Context `{LoopTimers L (cli_fn C)} (bind : cli_cb → F) (new_chan : L → addr).
Context (fresh_chan : ∀ l, rt_channel l (new_chan l) = None).

Lemma forget_inv tid w c o :
  cli_inv None None w → cl_objs w !! c = Some o → held None w c → state_ (ob_conn o) = kDisconnected →
  rt_event (cl_loop w) (channel_ (ob_conn o)) = Some 0 →
  cli_inv None None (queue_fn tid (CfConn c FnDestroy) (set_cli (set_established None (cli w)) w)).
Proof.
  intros [J1 J2 J3 J4 J5 J6 J7] Ho Hh Hst He. unfold queue_fn. simpl.
  destruct (frame_queue tid (CfConn c FnDestroy) (cl_loop w)) as (Hp & Hc & _).
  set (l' := rt_queueInLoop tid (CfConn c FnDestroy) (cl_loop w)) in *.
  assert (Hnone : ∀ c2, ¬ held None (set_loop l' (set_cli (set_established None (cli w)) w)) c2) by (intros ? [?|?]; done).
  split; simpl; try done.
  - eapply con_ok_loop; [exact J1|intros a _; apply Hc|]. unfold resets. by rewrite Hp, List.filter_app, app_nil_r.
  - intros c2 o2 Ho2. destruct (J2 c2 o2 Ho2) as [I1 I2 I3 I4 I5 I6 I7 I8]. split; simpl; rewrite ?Hc; try done; [intros Hh2; by apply Hnone in Hh2|].
    intros _. unfold rt_event, reg, rt_registered in *. simpl. rewrite Hc, Hp.
    destruct (decide (c2 = c)) as [->|Hne].
    + assert (o2 = o) as -> by congruence. split_and!; [done|done|]. right. left. apply elem_of_app. right. by left.
    + destruct I8 as (? & ? & Hor).
      { intros [Hh2|?]; [|done]. destruct Hh as [Hh|?]; [|done]. congruence. }
      split_and!; [done|done|]. destruct Hor as [?|[?|?]]; [by left|right; left; apply elem_of_app; by left|by right; right].
  - intros c2 [?|?]; done.
  - intros c2 f. rewrite Hp, elem_of_app. intros [?|[= -> ->]%list_elem_of_singleton]; [by apply J7|]. split; [by eexists|by right].
Qed.

Lemma cli_removeConnection_inv tid w w' c o :
  cli_inv None None w → cl_objs w !! c = Some o → held None w c → state_ (ob_conn o) = kDisconnected →
  rt_event (cl_loop w) (channel_ (ob_conn o)) = Some 0 →
  removeConnection bind new_chan tid c w = Ok w' → cli_inv None None w'.
Proof.
  intros Hinv Ho Hh Hst He (? & _ & (o2 & _ & (? & _ & Hrun)%bind_Ok_inv)%bind_Ok_inv)%bind_Ok_inv.
  pose proof (forget_inv tid w c o Hinv Ho Hh Hst He) as Hinv1. cbv zeta in Hrun.
  match type of Hinv1 with cli_inv _ _ ?v => set (w1 := v) in * end.
  destruct (ci_held _ _ _ Hinv c Hh) as [_ Hcon].
  destruct (retry_ (cli w1) && connect_ (cli w1)); [|by injection Hrun as <-].
  apply bind_Ok_inv in Hrun as (y & Hrun & [= <-]).
  apply (con_restart _ _ fresh_chan) in Hrun as (Hok & z & Hz1 & Hz2 & Hz3 & Hs); [|apply Hinv1|exact Hcon].
  eapply leave_con_inv; [exact Hinv1|exact Hz1|exact Hz2|exact Hz3|exact Hs|exact Hok| |done].
  intros (c2 & [?|?]); done.
Qed.
End remove.

(** ** The last reference goes *)
Lemma cli_unreferenced_done w c o n :
  cli_inv None None w → cl_objs w !! c = Some o → referenced n c w = false →
  ¬ held None w c ∧ (∀ f, CfConn c f ∉ rt_pending (cl_loop w)) ∧ reg w o = false.
Proof.
  intros Hinv Ho [He Hu%negb_false_iff]%orb_false_iff. apply bool_decide_eq_false in He.
  apply andb_true_iff in Hu as [_ Hu%negb_true_iff].
  assert (Hf : ∀ f, CfConn c f ∉ rt_pending (cl_loop w)).
  { intros f Hin. destruct (ci_fns _ _ _ Hinv c f Hin) as [_ Hf]. apply not_true_iff_false in Hu. apply Hu.
    apply existsb_exists. exists (CfConn c f). split; [by apply list_elem_of_In|]. simpl. rewrite Z.eqb_refl.
    destruct Hf as [Hf| ->]; [|done]. by destruct f. }
  assert (Hh : ¬ held None w c) by (intros [?|?]; done).
  split_and!; [done|done|]. destruct (oi_dead _ _ _ _ _ (ci_obj _ _ _ Hinv c o Ho) Hh) as (_ & _ & [?|[Hd|?]]); [done|by apply Hf in Hd|done].
Qed.

Lemma cli_drop_conn_inv w w' c n :
  cli_inv None None w → referenced n c w = false → drop_conn c w = Ok w' → cli_inv None None w'.
Proof.
  intros Hinv Href (o & Ho & (ch & _ & (? & _ & [= <-])%bind_Ok_inv)%bind_Ok_inv)%bind_Ok_inv.
  unfold obj_at in Ho. destruct (cl_objs w !! c) as [o'|] eqn:Ho'; [|done]. injection Ho as ->.
  destruct (cli_unreferenced_done w c o n Hinv Ho' Href) as (Hh & Hf & _).
  destruct Hinv as [J1 J2 J3 J4 J5 J6 J7]. set (a := channel_ (ob_conn o)).
  destruct (frame_delete a (cl_loop w)) as (_ & Hc & Hp & _). set (l' := rt_delete a (cl_loop w)) in *.
  assert (Hobjs : ∀ c2 o2, delete c (cl_objs w) !! c2 = Some o2 → c2 ≠ c ∧ cl_objs w !! c2 = Some o2).
  { intros c2 o2 [Hne ?]%lookup_delete_Some. done. }
  split; simpl; try done.
  - eapply con_ok_loop; [exact J1| |by rewrite (resets_same _ _ Hp)].
    intros b Hb. apply Hc. intros ->. by apply (J6 c o Ho').
  - intros c2 o2 [Hne Ho2]%Hobjs. eapply cli_obj_inv_same; [by apply J2|done| |done|..]; simpl; rewrite ?Hp; try done.
    apply Hc. intros Heq. apply Hne. by eapply J5.
  - intros c2 Hh2. destruct (J3 c2 Hh2) as [[o2 Ho2] ?]. split; [|done]. exists o2. rewrite lookup_delete_ne; [done|].
    intros <-. by apply Hh.
  - intros c1 c2 o1 o2 [_ Ho1]%Hobjs [_ Ho2]%Hobjs. by apply J5.
  - intros c2 o2 [_ Ho2]%Hobjs. by apply (J6 c2).
  - intros c2 f. rewrite Hp. intros Hin. destruct (J7 c2 f Hin) as [[o2 Ho2] ?]. split; [|done].
    exists o2. rewrite lookup_delete_ne; [done|]. intros <-. by apply Hf in Hin.
Qed.

(** ** A new connection *)

(** An object [o] at the free address [c], with a new channel, while the client announces it. *)
Lemma cli_join_inv w c o (ch : Channel F) :
  cli_inv None None w → cl_objs w !! c = None → establishedConnection_ (cli w) = None →
  Connector.state_ (connector w) = Connector.kConnected →
  rt_channel (cl_loop w) (channel_ (ob_conn o)) = None → ob_loop o = loop_ (cli w) →
  closeCallback_ (ob_conn o) = Some CallRemove →
  (∀ cb, TcpConnection.connectionCallback_ (ob_conn o) = Some cb → user_call cb) →
  (∀ cb, TcpConnection.messageCallback_ (ob_conn o) = Some cb → user_call cb) → later_ok user_call (ob_conn o) →
  cli_inv None (Some c) (set_loop (rt_new_channel (channel_ (ob_conn o)) ch (cl_loop w)) (put_obj c o w)).
Proof.
  intros [J1 J2 J3 J4 J5 J6 J7] Hfree Hest Hst Hnew Hlo Hclc Hcc Hmc Hlater. set (a := channel_ (ob_conn o)) in *.
  destruct (frame_new a ch (cl_loop w)) as (Ha & Hc & Hp & _). set (l' := rt_new_channel a ch (cl_loop w)) in *.
  pose (w' := set_loop l' (put_obj c o w)).
  assert (Hno : ∀ f, CfConn c f ∉ rt_pending (cl_loop w)).
  { intros f [Hs _]%J7. rewrite Hfree in Hs. by destruct Hs. }
  assert (Hheld : ∀ c2, held (Some c) w' c2 → c2 = c).
  { intros c2 [Hh|[= <-]]; [|done]. simpl in Hh. congruence. }
  assert (Hobjs : ∀ c2 o2, <[c := o]> (cl_objs w) !! c2 = Some o2 →
    (c2 = c ∧ o2 = o) ∨ (c2 ≠ c ∧ cl_objs w !! c2 = Some o2 ∧ channel_ (ob_conn o2) ≠ a)).
  { intros c2 o2 [[<- <-]|[Hne Ho2]]%lookup_insert_Some; [by left|right]. split_and!; [done|done|].
    intros Heq. destruct (oi_chan _ _ _ _ _ (J2 c2 o2 Ho2)) as [? Hs]. congruence. }
  split; simpl.
  - eapply con_ok_loop; [exact J1| |by rewrite (resets_same _ _ Hp)]. intros b Hb. apply Hc. intros ->.
    pose proof (ck_chan _ _ _ J1) as Hk. rewrite Hb, Hnew in Hk. by destruct Hk as [[] _].
  - intros c2 o2 [[-> ->]|(Hne & Ho2 & Hch)]%Hobjs.
    + split; simpl; fold a; try done; [intros _; rewrite Hp; apply Hno|].
      intros Hn. exfalso. apply Hn. by right.
    + eapply cli_obj_inv_same; [by apply J2|done|by apply Hc| | |]; simpl; rewrite ?Hp; try done.
      split; [by intros ?%Hheld|]. intros [Hh|?]; [|done]. congruence.
  - intros c2 ->%Hheld. rewrite lookup_insert_eq. split; [by eexists|done].
  - done.
  - intros c1 c2 o1 o2 [[-> ->]|(_ & Ho1 & Hc1)]%Hobjs [[-> ->]|(_ & Ho2 & Hc2)]%Hobjs Heq; try done.
    by eapply J5.
  - intros c2 o2 [[-> ->]|(_ & Ho2 & _)]%Hobjs; [|by apply (J6 c2)]. intros Hb. fold a in Hb.
    pose proof (ck_chan _ _ _ J1) as Hk. rewrite Hb, Hnew in Hk. by destruct Hk as [[] _].
  - intros c2 f. rewrite Hp. intros Hin. destruct (J7 c2 f Hin) as [[o2 Ho2] ?]. split; [|done]. exists o2.
    rewrite lookup_insert_ne; [done|]. intros <-. by apply Hno in Hin.
Qed.

(** The announcement is over. *)
Lemma announced_inv w c :
  cli_inv None (Some c) w → cli_inv None None (set_cli (set_established (Some c) (cli w)) w).
Proof.
  intros [J1 J2 J3 J4 J5 J6 J7]. pose proof (J4 ltac:(done)) as Hest.
  assert (Hh : ∀ c2, held None (set_cli (set_established (Some c) (cli w)) w) c2 ↔ held (Some c) w c2).
  { intros c2. unfold held. simpl. rewrite Hest. split; intros [[= <-]|?]; auto; done. }
  split; try done.
  - intros c2 o2 Ho2. eapply cli_obj_inv_same; [by apply J2|done|done|apply Hh|done|done].
  - intros c2 ?%Hh. by apply J3.
Qed.
End inv.
