(* ===== verification/ClientLife.v ===== *)
(** * ClientLife: every step of a TcpClient keeps the invariant of ClientInv.v *)
From S2P Require Import Prelude Endian Timestamp Inet SockKernel Channel Reactor TcpConnection ConnFrame TcpClient ClientInv.
From S2P Require Connector.
Import Connector (Connector, CW, mkCW, con, clp, ckern, cusr, con_cb, con_fn, CbHandleWrite, CbHandleError,
  FnStartInLoop, FnStopInLoop, FnResetChannel).

Section life.
Context {C X S L F K U : Type} `{Socket S} `{SockKernel K} `{ReactorFrame L F (cli_fn C)} `{LoopTimers L (cli_fn C)}.
Abbreviation World := (CliW C X S L K U).
Abbreviation ConnW := (W (cli_call C) X S L World).
Abbreviation Obj := (conn_obj (cli_call C) X S).
Context (host : byte_order) (ntop : Z → list byte) (bind : cli_cb → F).
Context (new_obj : World → addr) (new_chan : L → addr) (new_sock : Z → K → S).
(** The allocators return addresses that are not in use. *)
Context (fresh_obj : ∀ w, cl_objs w !! new_obj w = None) (fresh_chan : ∀ l, rt_channel l (new_chan l) = None).
Context (user : C → Z → addr → cb_arg → World → outcome World).
(** The user's callbacks stay within the invariant: they use the public operations. *)
Context (user_ok : ∀ nb u tid c arg w w', rt_isInLoopThread tid (cl_loop w) = true →
  cli_inv None nb w → user u tid c arg w = Ok w' → cli_inv None nb w').
Implicit Types (w : World) (c : addr) (o : Obj) (l : L) (nb : option addr).
Abbreviation cli_inv := (cli_inv (F := F)).
Abbreviation call := (call bind new_chan user).

(** The client's own data change. *)
Lemma cli_data_inv run nb w s :
  cli_inv run nb w → loop_ s = loop_ (cli w) → establishedConnection_ s = establishedConnection_ (cli w) →
  cli_inv run nb (set_cli s w).
Proof.
  intros [J1 J2 J3 J4 J5 J6 J7] Hl He.
  assert (Hh : ∀ c, held nb (set_cli s w) c ↔ held nb w c) by (intros c; unfold held; simpl; by rewrite He).
  split; try done.
  - intros c o Ho. eapply cli_obj_inv_same; [by apply J2|done|done|apply Hh|done|done].
  - intros c Hc%Hh. by apply J3.
  - simpl. by rewrite He.
Qed.

Lemma cli_call_user_inv nb tid c (cb : cli_call C) arg (x y : ConnW) :
  user_call cb → rt_isInLoopThread tid (cl_loop (leave c x)) = true → cli_inv None nb (leave c x) →
  call tid c cb arg x = Ok y → cli_inv None nb (leave c y).
Proof.
  intros [u ->] Ht Hinv (w & Hw & Hy)%bind_Ok_inv. destruct (cli_leave_enter c w y Hy) as [-> _]. by eapply user_ok.
Qed.

Lemma call_enter_inv nb tid c (cb : cli_call C) arg w (x y : ConnW) :
  user_call cb → enter c w = Ok x → rt_isInLoopThread tid (cl_loop w) = true → cli_inv None nb w →
  call tid c cb arg x = Ok y → cli_inv None nb (leave c y).
Proof.
  intros Hcb Hx Ht Hinv Hcall. destruct (cli_leave_enter c w x Hx) as [Hw _].
  by eapply cli_call_user_inv; [exact Hcb|rewrite Hw|rewrite Hw|exact Hcall].
Qed.

Lemma leave_thread r ok c o w tid (x0 x : ConnW) :
  cl_objs w !! c = Some o → usr x0 = w → lp x0 = cl_loop w → quiet (CfConn c) r ok x0 x →
  rt_isInLoopThread tid (cl_loop (leave c x)) = rt_isInLoopThread tid (cl_loop w).
Proof.
  intros Ho Hu Hl Hq. rewrite (cli_leave_eq c x o) by by rewrite (q_usr _ _ _ _ _ Hq), Hu. simpl.
  by rewrite (q_thread _ _ _ _ _ Hq), Hl.
Qed.

(** *** handleClose *)
Lemma cli_handleClose_inv tid w c o r (x y : ConnW) :
  cli_inv None None w → cl_objs w !! c = Some o → held None w c →
  quiet (CfConn c) r (harmless user_call) (mkW (ob_conn o) (cl_loop w) (ob_sock o) w) x →
  handleClose (call tid c) tid x = Ok y → cli_inv None None (leave c y).
Proof.
  intros Hinv Ho Hh Hq Hrun. destruct (handleClose_quiet (CfConn c) user_call _ tid x y Hrun) as (z & Hqz & Hst & He & Hcall).
  assert (Hq2 : quiet (CfConn c) true (harmless user_call) (mkW (ob_conn o) (cl_loop w) (ob_sock o) w) z).
  { eapply quiet_trans; [|exact Hqz]. destruct r; [exact Hq|by apply quiet_reg]. }
  pose proof (cli_leave_inv None true w c o (mkW (ob_conn o) (cl_loop w) (ob_sock o) w) z Hinv Ho Hh eq_refl eq_refl eq_refl Hq2) as Hinvz.
  pose proof (q_usr _ _ _ _ _ Hq2) as Hu. simpl in Hu.
  pose proof (q_ident _ _ _ _ _ Hq2) as Hid. pose proof Hid as [= _ _ Hchan _ _ Hclc _ _]. simpl in Hclc, Hchan.
  rewrite Hclc, (oi_close _ _ _ _ _ (ci_obj _ _ _ Hinv c o Ho)) in Hcall.
  apply bind_Ok_inv in Hcall as (w1 & Hrm & Hy). destruct (cli_leave_enter c w1 y Hy) as [-> _].
  assert (Heq : leave c z = set_loop (lp z) (put_obj c (with_view z o) w)).
  { rewrite (cli_leave_eq c z o) by by rewrite Hu. by rewrite Hu. }
  eapply (cli_removeConnection_inv bind new_chan fresh_chan tid (leave c z) w1 c (with_view z o)); [exact Hinvz| | |exact Hst| |exact Hrm].
  - rewrite Heq. apply lookup_insert_eq.
  - rewrite Heq. exact Hh.
  - rewrite Heq. simpl. rewrite Hchan. unfold chan in He.
    pose proof (q_ident _ _ _ _ _ Hq) as [= _ _ Hcx _ _ _ _ _]. simpl in Hcx. by rewrite Hcx in He.
Qed.

Lemma held_or_dead nb w c : held nb w c ∨ ¬ held nb w c.
Proof. destruct (held_dec nb w c); auto. Qed.

(** *** An event of a connection's channel *)
Lemma conn_event_inv tid w w' c o f t :
  cli_inv None None w → cl_objs w !! c = Some o →
  (f = CbRead ∨ f = CbClose → rt_event (cl_loop w) (channel_ (ob_conn o)) ≠ Some 0) →
  io_event host ntop bind new_obj new_chan new_sock user tid (CcConn c f) t w = Ok w' → cli_inv None None w'.
Proof.
  intros Hinv Ho Hev (x & Hx & (y & Hrun & [= <-])%bind_Ok_inv)%bind_Ok_inv.
  destruct (cli_leave_enter c w x Hx) as [Hw _].
  destruct (cli_enter_inv c w x Hx) as (o2 & Ho2 & ->). assert (o2 = o) as -> by congruence.
  pose proof (ci_obj _ _ _ Hinv c o Ho) as Hi.
  assert (Hheld : f = CbRead ∨ f = CbClose → held None w c).
  { intros Hf. destruct (held_or_dead None w c) as [|Hn]; [done|]. by destruct (oi_dead _ _ _ _ _ Hi Hn) as (_ & ?%(Hev Hf) & _). }
  destruct f; simpl in Hrun.
  - specialize (Hheld (or_introl eq_refl)).
    destruct (handleRead_quiet (CfConn c) user_call _ tid t _ y Hrun) as (z & Hq & Hcases).
    pose proof (cli_leave_inv None false w c o (mkW (ob_conn o) (cl_loop w) (ob_sock o) w) z Hinv Ho Hheld eq_refl eq_refl eq_refl Hq) as Hinvz.
    destruct Hcases as [Hcall|[Hclose| ->]]; [| |done].
    + pose proof (q_ident _ _ _ _ _ Hq) as [= _ _ _ _ Hmc _ _ _]. simpl in Hmc.
      destruct (TcpConnection.messageCallback_ (conn z)) as [cb|] eqn:Ecb; [|done].
      eapply cli_call_user_inv; [|  |exact Hinvz|exact Hcall].
      * apply (oi_mc _ _ _ _ _ Hi). congruence.
      * rewrite (leave_thread false _ c o w tid (mkW (ob_conn o) (cl_loop w) (ob_sock o) w) z Ho eq_refl eq_refl Hq).
        apply bind_Ok_inv in Hrun as (u & Ha & _). by apply assertLoop_inv in Ha.
    + eapply cli_handleClose_inv; [exact Hinv|exact Ho|exact Hheld|exact Hq|exact Hclose].
  - destruct (held_or_dead None w c) as [Hh|Hn].
    + apply (quiet_handleWrite (CfConn c) user_call) in Hrun; [|apply Hi].
      by eapply cli_leave_inv; [..|exact Hrun].
    + destruct (oi_dead _ _ _ _ _ Hi Hn) as (_ & He & _). apply bind_Ok_inv in Hrun as (u & _ & Hrun).
      assert (Hwr : rt_isWriting (cl_loop w) (channel_ (ob_conn o)) = false).
      { unfold rt_isWriting, rt_event in *. destruct (rt_channel _ _) as [ch|]; [|done]. injection He as He.
        unfold isWriting. by rewrite He. }
      simpl in Hrun. rewrite Hwr in Hrun. injection Hrun as <-. by rewrite Hw.
  - eapply cli_handleClose_inv; [done|done|by apply Hheld; right|apply (quiet_refl _ true)|exact Hrun].
  - injection Hrun as <-. by rewrite Hw.
Qed.

(** *** What user code does with a connection, in the loop's thread *)

(** The invariant after a call, and the loop's thread as before. *)
Definition stays nb w w' : Prop :=
  cli_inv None nb w' ∧ ∀ tid, rt_isInLoopThread tid (cl_loop w') = rt_isInLoopThread tid (cl_loop w).

Lemma cli_user_op_inv nb tid w w' c op :
  rt_isInLoopThread tid (cl_loop w) = true → cli_inv None nb w →
  on_conn c (conn_user_op (CfConn c) (call tid c) tid op) w = Ok w' → stays nb w w'.
Proof.
  intros Ht Hinv (x & Hx & (y & Hrun & [= <-])%bind_Ok_inv)%bind_Ok_inv.
  destruct (cli_leave_enter c w x Hx) as [Hw _].
  destruct (cli_enter_inv c w x Hx) as (o & Ho & ->). pose proof (ci_obj _ _ _ Hinv c o Ho) as Hi.
  destruct (held_or_dead nb w c) as [Hh|Hn].
  2: { destruct (oi_dead _ _ _ _ _ Hi Hn) as (Hst & _).
       assert (y = mkW (ob_conn o) (cl_loop w) (ob_sock o) w) as ->; [|by rewrite Hw; split].
       destruct op; simpl in Hrun; unfold send, shutdown, forceClose in Hrun; simpl in Hrun; rewrite Hst in Hrun;
         simpl in Hrun; congruence. }
  set (x := mkW (ob_conn o) (cl_loop w) (ob_sock o) w) in *.
  assert (∃ r, quiet (CfConn c) r (harmless user_call) x y) as [r Hq].
  2: { split; [by eapply cli_leave_inv; [..|exact Hq]|]. intros t.
       exact (leave_thread r _ c o w t x y Ho eq_refl eq_refl Hq). }
  destruct op; simpl in Hrun.
  - unfold send in Hrun. exists true. case_bool_decide; [|injection Hrun as <-; apply quiet_refl]. simpl in Hrun. rewrite Ht in Hrun.
    apply (quiet_sendInLoop (CfConn c) user_call) in Hrun; [done|apply Hi].
  - unfold shutdown in Hrun. exists false. case_bool_decide as Hst; [|injection Hrun as <-; apply quiet_refl].
    unfold runInLoop in Hrun. simpl in Hrun. rewrite Ht in Hrun.
    apply (quiet_shutdownInLoop (CfConn c) user_call) in Hrun. eapply quiet_trans; [|exact Hrun].
    apply quiet_local; [done..|]. by right; right.
  - exists false. by apply (forceClose_quiet (CfConn c) user_call) in Hrun.
Qed.

(** *** The connector's calls and events *)
Lemma on_con_inv run nb w y :
  cli_inv run nb w → (∀ c, ¬ destroying run c) → con_step (enter_con w) y → con_ok 0 (con y) (clp y) →
  stays nb w (leave_con y).
Proof.
  intros Hinv Hd Hs Hok. split; [|intros t; exact (cs_thread _ _ Hs t)].
  eapply (leave_con_inv run nb w (enter_con w)); try done.
  intros [c Hc]. apply (cs_connected _ _ Hs). by apply (ci_held _ _ _ Hinv c).
Qed.

Lemma not_destroying c : ¬ destroying (C := C) None c.
Proof. done. Qed.

Lemma connect_inv nb tid w w' : cli_inv None nb w → connect bind new_chan tid w = Ok w' → stays nb w w'.
Proof.
  intros Hinv (y & Hrun & [= <-])%bind_Ok_inv.
  apply (cli_data_inv None nb w (set_connect true (cli w))) in Hinv; [|done..].
  apply (con_start_call _ _ fresh_chan) in Hrun as [Hs Hok]; [|apply Hinv].
  exact (on_con_inv None nb _ _ Hinv not_destroying Hs Hok).
Qed.

Lemma stop_inv nb tid w w' : cli_inv None nb w → stop bind new_chan tid w = Ok w' → stays nb w w'.
Proof.
  intros Hinv (y & Hrun & [= <-])%bind_Ok_inv.
  apply (cli_data_inv None nb w (set_connect false (cli w))) in Hinv; [|done..].
  apply con_stop_call in Hrun as [Hs Hok]; [|apply Hinv].
  exact (on_con_inv None nb _ _ Hinv not_destroying Hs Hok).
Qed.

Lemma disconnect_inv nb tid w w' :
  rt_isInLoopThread tid (cl_loop w) = true → cli_inv None nb w →
  disconnect bind new_chan user tid w = Ok w' → stays nb w w'.
Proof.
  intros Ht Hinv. unfold disconnect. apply (cli_data_inv None nb w (set_connect false (cli w))) in Hinv; [|done..].
  simpl. destruct (establishedConnection_ (cli w)) as [c|]; [|by intros [= <-]; split].
  intros Hrun. exact (cli_user_op_inv nb tid (set_cli (set_connect false (cli w)) w) w' c UserShutdown Ht Hinv Hrun).
Qed.

(** A new connection, until the user has been told. *)
Lemma newConnection_inv tid fd w w' :
  cli_inv None None w → establishedConnection_ (cli w) = None → Connector.state_ (connector w) = Connector.kConnected →
  newConnection host ntop bind new_obj new_chan new_sock user tid fd w = Ok w' → cli_inv None None w'.
Proof.
  intros Hinv Hest Hcon (u & Ht & Hrun)%bind_Ok_inv. cbv zeta in Hrun. unfold TcpConnection_ctor in Hrun. cbn [conn lp sock] in Hrun.
  set (w0 := set_cli (set_nextConnId (i32 (nextConnId_ (cli w) + 1)) (cli w)) w) in *.
  assert (Hinv0 : cli_inv None None w0) by by apply cli_data_inv.
  match type of Hrun with context [put_obj ?v _ _] => set (c := v) in * end.
  match type of Hrun with context [mkObj ?a ?b ?d ?e ?f ?g] => set (o := mkObj a b d e f g) in * end.
  match type of Hrun with context [rt_new_channel _ ?a _] => set (ch := a) in * end.
  match type of Hrun with context [on_conn c _ ?v] => set (w1 := v) in * end.
  assert (Hinv1 : cli_inv None (Some c) w1).
  { apply (cli_join_inv w0 c o ch); try done; [apply fresh_obj|..].
    - intros cb. simpl. destruct (connectionCallback_ (cli w)) as [u'|]; intros [= <-]. by exists u'.
    - intros cb. simpl. destruct (messageCallback_ (cli w)) as [u'|]; intros [= <-]. by exists u'.
    - split; [|done]. intros cb. simpl. destruct (writeCompleteCallback_ (cli w)) as [u'|]; intros [= <-]. by exists u'. }
  assert (Ho1 : cl_objs w1 !! c = Some o) by apply lookup_insert_eq.
  assert (Ht1 : rt_isInLoopThread tid (cl_loop w1) = true).
  { destruct (frame_new (channel_ (ob_conn o)) ch (cl_loop w0)) as (_ & _ & _ & Hth & _). simpl. rewrite Hth.
    unfold assert_loop, rt_assertInLoopThread in Ht. simpl. by destruct (rt_isInLoopThread tid (cl_loop w)). }
  clearbody w1 o. clear Hinv Hinv0. apply bind_Ok_inv in Hrun as (w2 & Hon & [= <-]). apply announced_inv.
  apply bind_Ok_inv in Hon as (x & Hx & (y & Hrun & [= <-])%bind_Ok_inv).
  destruct (cli_enter_inv c w1 x Hx) as (o2 & Ho2 & ->). assert (o2 = o) as -> by congruence.
  destruct (establish_quiet (CfConn c) user_call _ tid _ y Hrun) as (z & Hq & _ & Hcall).
  assert (Hinvz : cli_inv None (Some c) (leave c z)).
  { eapply cli_leave_inv; [exact Hinv1|done|by right| | | |exact Hq]; done. }
  pose proof (q_ident _ _ _ _ _ Hq) as [= _ _ _ Hcc _ _ _ _]. simpl in Hcc.
  destruct (TcpConnection.connectionCallback_ (conn z)) as [cb|] eqn:Ecb; [|done].
  eapply cli_call_user_inv; [| |exact Hinvz|exact Hcall].
  - apply (oi_cc _ _ _ _ _ (ci_obj _ _ _ Hinv1 c o Ho1)). congruence.
  - by rewrite (leave_thread true _ c o w1 tid _ z Ho1 (eq_refl : usr (put_state kConnected (mkW (ob_conn o) (cl_loop w1) (ob_sock o) w1)) = w1) eq_refl Hq).
Qed.

Lemma connector_event_inv tid f t w w' :
  cli_inv None None w → io_event host ntop bind new_obj new_chan new_sock user tid (CcConnector f) t w = Ok w' →
  cli_inv None None w'.
Proof.
  intros Hinv Hrun. destruct f; simpl in Hrun; apply bind_Ok_inv in Hrun as (y & Hrun & [= <-]).
  - apply con_write in Hrun as [[Hs Hok]|(Hst & z & fd & Hs & Hok & Hz & Hcall)]; [by eapply (on_con_inv None)| |apply Hinv].
    apply bind_Ok_inv in Hcall as (w1 & Hnew & [= <-]).
    assert (leave_con (enter_con w1) = w1) as -> by by destruct w1.
    destruct (on_con_inv None None w z Hinv not_destroying Hs Hok) as [Hinvz _].
    eapply newConnection_inv; [exact Hinvz| | |exact Hnew]; unfold leave_con; rewrite (cs_usr _ _ Hs); simpl; [|done].
    destruct (establishedConnection_ (cli w)) as [c|] eqn:E; [|done].
    destruct (ci_held _ _ _ Hinv c (or_introl E)) as [_ Hc]. simpl in Hst. congruence.
  - apply con_error in Hrun as [Hs Hok]; [|apply Hinv]. by eapply on_con_inv.
Qed.

(** *** The next functor *)
Definition special (g : cli_fn C) : option (cli_fn C) :=
  match g with CfConnector FnResetChannel | CfConn _ FnDestroy => Some g | _ => None end.

Lemma cli_take_inv w l' g :
  cli_inv None None w → rt_take (cl_loop w) = Some (g, l') →
  cli_inv (special g) None (set_loop l' w) ∧ g ∈ rt_pending (cl_loop w) ∧
  (∀ t, rt_isInLoopThread t l' = rt_isInLoopThread t (cl_loop w)).
Proof.
  intros Hinv Ht. pose proof (frame_take (cl_loop w)) as Hf. destruct (rt_pending (cl_loop w)) as [|g2 r] eqn:Hp; [congruence|].
  destruct Hf as (l2 & Ht2 & Hp2 & Hch & _ & Hth & _). rewrite Ht in Ht2. injection Ht2 as <- <-.
  split_and!; [|by left|done]. eapply cli_pending_inv; [exact Hinv|exact Hch| | |].
  - unfold resets. rewrite Hp, Hp2. destruct g as [c []|[]|]; simpl; lia.
  - intros c f Hin. left. rewrite Hp. right. by rewrite <- Hp2.
  - intros c [?|Hin]; [done|]. rewrite Hp in Hin. apply elem_of_cons in Hin as [<-|Hin]; [by left|right; by rewrite Hp2].
Qed.

(** [destoryConnection] of a connection that was given up. *)
Lemma destroy_inv tid w c o (y : ConnW) :
  cli_inv (Some (CfConn c FnDestroy)) None w → cl_objs w !! c = Some o → ¬ held None w c →
  destoryConnection (call tid c) tid (mkW (ob_conn o) (cl_loop w) (ob_sock o) w) = Ok y → cli_inv None None (leave c y).
Proof.
  intros Hinv Ho Hn Hrun. pose proof (ci_obj _ _ _ Hinv c o Ho) as Hi. destruct (oi_dead _ _ _ _ _ Hi Hn) as (Hst & He & _).
  apply (destory_quiet (CfConn c) user_call) in Hrun as (Hq & Hg & He'); [|simpl; by rewrite Hst].
  destruct Hq as [Qu Qi Qs Qc Qo _ _ Qp _]. simpl in *. unfold chan in *. simpl in *.
  rewrite (cli_leave_eq c y o) by by rewrite Qu. rewrite Qu.
  apply (object_inv (Some (CfConn c FnDestroy)) None None w c o); try done.
  - apply Qc. apply Hi.
  - intros c2 Hne [= ?]. congruence.
  - intros _. rewrite Hst in Qs. split_and!; [by destruct Qs as [?|[?|[? _]]]|congruence|by right; right].
Qed.

Lemma functor_inv tid w w' :
  rt_isInLoopThread tid (cl_loop w) = true → cli_inv None None w → run_next bind new_chan user tid w = Ok w' →
  cli_inv None None w'.
Proof.
  intros Ht Hinv Hrun. unfold run_next in Hrun. destruct (rt_take (cl_loop w)) as [[g l']|] eqn:Htk; [|by injection Hrun as <-].
  destruct (cli_take_inv w l' g Hinv Htk) as (Hinv1 & Hin & Hth). set (w1 := set_loop l' w) in *.
  destruct g as [c f|f|]; simpl in Hrun.
  - destruct (ci_fns _ _ _ Hinv c f Hin) as [_ Hf].
    apply bind_Ok_inv in Hrun as (x & Hx & (y & Hrun & [= <-])%bind_Ok_inv).
    destruct (cli_leave_enter c w1 x Hx) as [Hw1 _]. destruct (cli_enter_inv c w1 x Hx) as (o & Ho & ->).
    destruct f as [msg| | | | |cb|cb n]; simpl in Hrun, Hinv1; try by destruct Hf as [[]|].
    + apply bind_Ok_inv in Hrun as (? & _ & Hrun). cbn [conn] in Hrun.
      destruct (_ || _) eqn:Hst; [|injection Hrun as <-; exact (eq_ind_r (cli_inv None None) Hinv1 Hw1)].
      eapply cli_handleClose_inv; [exact Hinv1|done| |apply (quiet_refl _ true)|exact Hrun].
      destruct (held_or_dead None w1 c) as [|Hn]; [done|].
      destruct (oi_dead _ _ _ _ _ (ci_obj _ _ _ Hinv1 c o Ho) Hn) as (Hd & _). by rewrite Hd in Hst.
    + eapply destroy_inv; [exact Hinv1|done| |exact Hrun].
      intros Hh. by apply (oi_held _ _ _ _ _ (ci_obj _ _ _ Hinv c o Ho)).
    + eapply call_enter_inv; [|exact Hx| |exact Hinv1|exact Hrun]; [by destruct Hf|by simpl; rewrite Hth].
    + eapply call_enter_inv; [|exact Hx| |exact Hinv1|exact Hrun]; [by destruct Hf|by simpl; rewrite Hth].
  - apply bind_Ok_inv in Hrun as (y & Hrun & [= <-]). pose proof (ci_con _ _ _ Hinv1) as Hok.
    assert (con_step (enter_con w1) y ∧ con_ok 0 (con y) (clp y)) as [Hs Hy].
    { destruct f; simpl in Hrun, Hok.
      - by apply (con_start _ _ fresh_chan) in Hrun.
      - by apply con_stop_in_loop in Hrun.
      - by apply con_reset in Hrun. }
    eapply on_con_inv; [exact Hinv1| |exact Hs|exact Hy]. by destruct f; intros ? [=].
  - injection Hrun as <-. exact Hinv1.
Qed.

(** *** All steps *)
Inductive cli_step w : World → Prop :=
| cl_functor tid w' : rt_isInLoopThread tid (cl_loop w) = true → run_next bind new_chan user tid w = Ok w' → cli_step w w'
| cl_connector tid f t w' :
    io_event host ntop bind new_obj new_chan new_sock user tid (CcConnector f) t w = Ok w' → cli_step w w'
(* a channel without events is not in the epoll set: nothing is read, and no hangup reported *)
| cl_conn tid c o f t w' : cl_objs w !! c = Some o →
    (f = CbRead ∨ f = CbClose → rt_event (cl_loop w) (channel_ (ob_conn o)) ≠ Some 0) →
    io_event host ntop bind new_obj new_chan new_sock user tid (CcConn c f) t w = Ok w' → cli_step w w'
| cl_user tid c op w' : rt_isInLoopThread tid (cl_loop w) = true →
    on_conn c (conn_user_op (CfConn c) (call tid c) tid op) w = Ok w' → cli_step w w'
(* the calls of user code in the loop's thread *)
| cl_connect tid w' : rt_isInLoopThread tid (cl_loop w) = true → connect bind new_chan tid w = Ok w' → cli_step w w'
| cl_stop tid w' : rt_isInLoopThread tid (cl_loop w) = true → stop bind new_chan tid w = Ok w' → cli_step w w'
| cl_disconnect tid w' : rt_isInLoopThread tid (cl_loop w) = true → disconnect bind new_chan user tid w = Ok w' → cli_step w w'
| cl_retry on : cli_step w (set_cli (setRetry on (cli w)) w)
(* [n] references outside of the client and its loop *)
| cl_drop n c w' : referenced n c w = false → drop_conn c w = Ok w' → cli_step w w'.

Lemma cli_step_inv w w' : cli_inv None None w → cli_step w w' → cli_inv None None w'.
Proof.
  intros Hinv [tid w2 Ht Hrun|tid f t w2 Hrun|tid c o f t w2 Ho He Hrun|tid c op w2 Ht Hrun|tid w2 Ht Hrun|tid w2 Ht Hrun|tid w2 Ht Hrun|on|n c w2 Hr Hrun].
  - by eapply functor_inv.
  - by eapply connector_event_inv.
  - by eapply conn_event_inv.
  - by eapply cli_user_op_inv.
  - by eapply connect_inv.
  - by eapply stop_inv.
  - by eapply disconnect_inv.
  - by apply cli_data_inv.
  - by eapply cli_drop_conn_inv.
Qed.
End life.

(** ** Scripted user code stays within the invariant *)
Section script.
Context {C X S L F K U : Type} `{Socket S} `{SockKernel K} `{ReactorFrame L F (cli_fn C)} `{LoopTimers L (cli_fn C)}.
Abbreviation World := (CliW C X S L K U).
Context (bind : cli_cb → F) (new_chan : L → addr).
Context (fresh_chan : ∀ l, rt_channel l (new_chan l) = None).
Implicit Types (w : World) (nb : option addr).
Abbreviation cli_inv := (cli_inv (F := F)).

Lemma no_call_ok nb (u : C) (tid : Z) (c : addr) (arg : cb_arg) w w' :
  rt_isInLoopThread tid (cl_loop w) = true → cli_inv None nb w → no_call u tid c arg w = Ok w' → cli_inv None nb w'.
Proof. by intros _ Hinv [= <-]. Qed.

Lemma run_cli_action_inv nb tid (a : cli_action (U := U)) w w' :
  rt_isInLoopThread tid (cl_loop w) = true → cli_inv None nb w → run_cli_action bind new_chan tid a w = Ok w' →
  stays nb w w'.
Proof.
  intros Ht Hinv Hrun. destruct a as [c op| | | |on|f]; simpl in Hrun.
  - eapply cli_user_op_inv; [exact Ht|exact Hinv|exact Hrun].
  - by eapply connect_inv.
  - eapply disconnect_inv; [exact Ht|exact Hinv|exact Hrun].
  - by eapply stop_inv.
  - injection Hrun as <-. split; [by apply cli_data_inv|done].
  - injection Hrun as <-. split; [|done]. destruct Hinv as [J1 J2 J3 J4 J5 J6 J7]. split; try done.
    intros c o Ho. by destruct (J2 c o Ho).
Qed.

Lemma scripted_client_ok script nb u tid c arg w w' :
  rt_isInLoopThread tid (cl_loop w) = true → cli_inv None nb w →
  scripted_client bind new_chan script u tid c arg w = Ok w' → cli_inv None nb w'.
Proof.
  unfold scripted_client. generalize (script u tid c arg w). intros acts. revert w.
  induction acts as [|a acts IH]; intros w Ht Hinv Hrun; simpl in Hrun; [by injection Hrun as <-|].
  apply bind_Ok_inv in Hrun as (w1 & Ha & Hrun).
  destruct (run_cli_action_inv nb tid a w w1 Ht Hinv Ha) as [Hinv1 Ht1]. eapply IH; [|exact Hinv1|exact Hrun]. by rewrite Ht1.
Qed.
End script.
