(* ===== verification/ClientProps.v ===== *)
(** * ClientProps: what a TcpClient does

    Connecting, losing the connection and connecting again, and the end of the client; and
    where the process stops instead. *)
From S2P Require Import Prelude Endian Timestamp Inet SockKernel Buffer Channel Epoller EventLoop Reactor ReactorLoop.
From S2P Require Import TcpConnection TcpFlow TcpClient.
From S2P Require Acceptor Connector.
Import Connector (Connector, CW, mkCW, con, clp, ckern, cusr, con_cb, con_fn, CbHandleWrite, CbHandleError,
  FnStartInLoop, FnStopInLoop, FnResetChannel, connecting, detached).

(** The socket is not connected to itself. *)
Definition not_self {K} `{SockKernel K} (fd : Z) (k : K) : Prop :=
  isSelfConnect (getLocalAddr (k_sockname fd k)) (getPeerAddr (k_peername fd k)) = false.

Section client.
Context {C X S L F K U : Type} `{Socket S} `{SockKernelLaws K} `{!Reactor L F (cli_fn C)} `{LoopTimers L (cli_fn C)}
  `{!LoopRun L (cli_fn C)} `{!ReactorLaws L F (cli_fn C)} `{!ReactorFrame L F (cli_fn C)}.
Context (host : byte_order) (ntop : Z → list byte) (bind : cli_cb → F).
Abbreviation World := (CliW C X S L K U).
Abbreviation ConnW := (W (cli_call C) X S L World).
Abbreviation Obj := (conn_obj (cli_call C) X S).
Context (new_obj : World → addr) (new_chan : L → addr) (new_sock : Z → K → S).
Context (user : C → Z → addr → cb_arg → World → outcome World).
Implicit Types (w : World) (l : L) (c : addr).

Lemma cli_enter_ok c (o : Obj) w : cl_objs w !! c = Some o → enter c w = Ok (mkW (ob_conn o) (cl_loop w) (ob_sock o) w).
Proof. unfold enter, obj_at. by intros ->. Qed.

Lemma left_world c w (x : ConnW) : enter c w = Ok x → leave c x = w.
Proof.
  unfold enter, obj_at. destruct (cl_objs w !! c) as [o|] eqn:Ho; [|done]. intros [= <-].
  unfold leave. simpl. rewrite Ho. destruct w, o. unfold set_loop, put_obj. simpl in *. by rewrite insert_id.
Qed.

(** The object a view is put back into. *)
Definition with_view (x : ConnW) (o : Obj) : Obj :=
  mkObj (conn x) (ob_loop o) (sock x) (ob_fd o) (ob_local o) (ob_peer o).

Lemma left_view c (x : ConnW) o :
  cl_objs (usr x) !! c = Some o → leave c x = set_loop (lp x) (put_obj c (with_view x o) (usr x)).
Proof. unfold leave. by intros ->. Qed.

(** What the user's connection callback finds for a new connection at [c]. *)
Record established_as w w' c (fd : Z) (o : Obj) : Prop := {
  ea_objs : cl_objs w' = <[c := o]> (cl_objs w);
  ea_fd : ob_fd o = fd;
  ea_loop : ob_loop o = loop_ (cli w);
  ea_state : state_ (ob_conn o) = kConnected;
  ea_name : TcpConnection.name_ (ob_conn o) =
    conn_name host ntop (name_ (cli w)) (getPeerAddr (k_peername fd (cl_kern w))) (nextConnId_ (cli w));
  ea_close : closeCallback_ (ob_conn o) = Some CallRemove;
  ea_chan : channel_ (ob_conn o) = new_chan (cl_loop w);
  ea_live : chan_live (cl_loop w') (channel_ (ob_conn o)) kReadEvent_;   (* watched for reading *)
  ea_next : nextConnId_ (cli w') = nextConnId_ (cli w) + 1;
  ea_none : establishedConnection_ (cli w') = establishedConnection_ (cli w);
  ea_connector : connector w' = connector w;
  ea_kern : cl_kern w' = cl_kern w
}.

Lemma newConnection_run tid fd w u :
  let c := new_obj (set_cli (set_nextConnId (i32 (nextConnId_ (cli w) + 1)) (cli w)) w) in
  rt_isInLoopThread tid (cl_loop w) = true → rt_can_add (cl_loop w) (new_chan (cl_loop w)) fd →
  rt_addr (cl_loop w) = loop_ (cli w) → - 2 ^ 31 ≤ nextConnId_ (cli w) < 2 ^ 31 - 1 →
  connectionCallback_ (cli w) = Some u →
  ∃ w2 o, established_as w w2 c fd o ∧
    ∀ w3 x, user u tid c ArgNone w2 = Ok w3 → enter c w3 = Ok x →
      newConnection host ntop bind new_obj new_chan new_sock user tid fd w =
        Ok (set_cli (set_established (Some c) (cli w3)) w3).
Proof.
  intros c Ht Hadd Haddr Hid Hu. unfold newConnection, assert_loop, rt_assertInLoopThread. rewrite Ht.
  ok_simpl. cbv zeta. fold c. unfold TcpConnection_ctor. cbn [conn lp sock].
  assert (Hn : i32 (nextConnId_ (cli w) + 1) = nextConnId_ (cli w) + 1).
  { unfold wraps. rewrite Z.mod_small; lia. }
  match goal with |- context [rt_new_channel _ ?x (cl_loop _)] => set (ch := x) end.
  match goal with |- context [put_obj c ?x _] => set (o := x) end.
  cbn [cl_loop set_cli set_loop put_obj cl_kern cli connector cl_objs cl_users].
  set (a := new_chan (cl_loop w)) in *.
  destruct (law_new (cl_loop w) a ch Hadd) as (Hr & Hch & Hp & Hth); [done|done|].
  set (l1 := rt_new_channel a ch (cl_loop w)) in *.
  match goal with |- context [on_conn c _ ?v] => set (w1 := v) end.
  assert (Ho1 : cl_objs w1 !! c = Some o) by apply lookup_insert_eq.
  unfold on_conn. rewrite (cli_enter_ok c o) by done. ok_simpl.
  destruct (establish_run (call bind new_chan user tid c) tid (mkW (ob_conn o) l1 (ob_sock o) w1) ch)
    as (l2 & st & Hrun & Hr2 & Hg2 & Hch2 & _ & Hp2 & Hth2); [done|done|by rewrite <- Ht, <- Hth|].
  set (x1 := set_lp l2 (put_state kConnected (mkW (ob_conn o) l1 (ob_sock o) w1))) in *.
  exists (leave c x1), (with_view x1 o). rewrite (left_view c x1 o) by done. split.
  - split; try done; simpl.
    + by rewrite insert_insert_eq.
    + split; [done|done|]. by eexists.
  - intros w3 x Huser Hx. change (cl_loop w1) with l1. rewrite Hrun.
    change (TcpConnection.connectionCallback_ _) with (CallUser <$> connectionCallback_ (cli w)).
    rewrite Hu. cbn [fmap option_fmap option_map invoke]. unfold call. rewrite (left_view c x1 o) by done.
    rewrite Huser. ok_simpl. rewrite Hx. ok_simpl. by rewrite (left_world c w3 x Hx).
Qed.

(** *** The connector's part *)
Lemma establishConnection_addr tid fd (x y : CW unit L K World) :
  Connector.establishConnection (bind_con_cb bind) new_chan tid fd x = Ok y → rt_addr (clp y) = rt_addr (clp x).
Proof.
  unfold Connector.establishConnection. intros (? & _ & Hrun)%bind_Ok_inv.
  apply bind_Ok_inv in Hrun as (l & Hl & [= <-]). apply law_change_addr in Hl. simpl in *.
  by rewrite Hl, law_new_addr.
Qed.

(** [connect] opens a socket and waits for it to become writable. *)
Lemma connect_run tid w e :
  let a := new_chan (cl_loop w) in
  rt_isInLoopThread tid (cl_loop w) = true → Connector.state_ (connector w) = Connector.kDisconnected →
  Connector.connectChannel_ (connector w) = None → k_full (cl_kern w) = false →
  (∀ fd, fd ∉ k_fds (cl_kern w) → rt_can_add (cl_loop w) a fd) →
  (k_connect (k_socket (cl_kern w)).2 (Connector.serverAddr_ (connector w)) (k_socket (cl_kern w)).1).2 = e →
  Connector.connect_pending e = true →
  ∃ fd w1, connect bind new_chan tid w = Ok w1 ∧ opened (cl_kern w) (cl_kern w1) fd ∧
    connecting (bind_con_cb bind) fd a (enter_con w1) ∧ cli w1 = set_connect true (cli w) ∧
    cl_objs w1 = cl_objs w ∧ rt_addr (cl_loop w1) = rt_addr (cl_loop w) ∧
    Connector.connect_ (connector w1) = true ∧ Connector.newConnCb_ (connector w1) = Connector.newConnCb_ (connector w) ∧
    (∀ t, rt_isInLoopThread t (cl_loop w1) = rt_isInLoopThread t (cl_loop w)).
Proof.
  intros a Ht Hst Hnone Hfull Hadd Hres He.
  set (x := enter_con (set_cli (set_connect true (cli w)) w)).
  unfold connect, on_con. fold x. unfold Connector.start, Connector.runInLoop.
  change (clp (Connector.set_connect true x)) with (cl_loop w). rewrite Ht. cbn [Connector.run_fn].
  destruct (Connector.startInLoop_connects (bind_con_cb bind) CfConnector new_chan tid (Connector.set_connect true x) e)
    as (fd & k' & Hopen & ->); [done..|]. rewrite He. change (ckern (Connector.set_connect true x)) with (cl_kern w) in Hopen.
  destruct (Connector.establishConnection_ok (bind_con_cb bind) new_chan tid fd
    (Connector.set_ckern k' (Connector.set_connect true x)))
    as (y & Hrun & Hcn & Hcon & Hk & Hu & _ & Hth); [done|done|by apply Hadd; destruct Hopen as (_ & ? & _)|
      by apply (opened_in (cl_kern w))|].
  pose proof (establishConnection_addr tid fd _ y Hrun) as Haddr. rewrite Hrun. ok_simpl.
  exists fd, (leave_con y). unfold leave_con. rewrite Hu. simpl in Hk, Haddr, Hth.
  split_and!; try done; simpl; [by rewrite Hk| |by rewrite Hcon|by rewrite Hcon].
  by destruct Hcn.
Qed.

(** The connecting socket is writable and without an error. *)
Lemma connected_run tid t fd a w u :
  rt_isInLoopThread tid (cl_loop w) = true → connecting (bind_con_cb bind) fd a (enter_con w) →
  Connector.connect_ (connector w) = true → Connector.newConnCb_ (connector w) = Some tt →
  rt_addr (cl_loop w) = loop_ (cli w) → - 2 ^ 31 ≤ nextConnId_ (cli w) < 2 ^ 31 - 1 →
  connectionCallback_ (cli w) = Some u → (∀ l, rt_channel l (new_chan l) = None) →
  (k_so_error fd (cl_kern w)).2 = 0 →
  not_self fd (k_so_error fd (cl_kern w)).1 →
  ∃ l', detached CfConnector a (cl_loop w) l' ∧
    let w1 := mkCli (cli w) (Connector.con (Connector.set_state Connector.kConnected (enter_con w))) l'
                (k_so_error fd (cl_kern w)).1 (cl_objs w) (cl_users w) in
    let c := new_obj (set_cli (set_nextConnId (i32 (nextConnId_ (cli w1) + 1)) (cli w1)) w1) in
    ∃ w2 o, established_as w1 w2 c fd o ∧
      ∀ w3 x, user u tid c ArgNone w2 = Ok w3 → enter c w3 = Ok x →
        io_event host ntop bind new_obj new_chan new_sock user tid (CcConnector CbHandleWrite) t w =
          Ok (set_cli (set_established (Some c) (cli w3)) w3).
Proof.
  intros Ht Hcn Hc Hcb Haddr Hid Hu Hfresh Herr Hself.
  destruct (Connector.handleWrite_run (bind_con_cb bind) CfConnector
    (con_call host ntop bind new_obj new_chan new_sock user tid) tid fd a (enter_con w) Hcn Ht) as (l' & Hdt & Hrun).
  exists l'. split; [done|]. intros w1 c.
  destruct Hdt as [Hr (ch & ch' & Hch & Hch' & Hnew & _ & Hfd) Hp Hla Hth].
  assert (Hadd : rt_can_add l' (new_chan l') fd).
  { destruct Hcn as [_ _ _ (ch2 & Hch2 & Hfd2 & _) _ _]. assert (ch2 = ch) as -> by congruence.
    rewrite <- Hfd2, <- Hfd. by apply (law_can_add _ a). }
  destruct (newConnection_run tid fd w1 u) as (w2 & o & Hea & Hnc); try done.
  { simpl. by rewrite Hth. } { simpl. by rewrite Hla. }
  exists w2, o. split; [exact Hea|]. intros w3 x Huser Hx. specialize (Hnc w3 x Huser Hx).
  set (y := mkCW (connector w1) l' (cl_kern w1) w).
  assert (Hrun' : Connector.handleWrite CfConnector (con_call host ntop bind new_obj new_chan new_sock user tid) tid
    (enter_con w) = con_call host ntop bind new_obj new_chan new_sock user tid tt fd y).
  { rewrite Hrun. simpl. rewrite Herr.
    unfold not_self, Connector.self_connected, Connector.set_ckern in *. simpl in *. rewrite Hself, Hc, Hcb. done. }
  change (on_con (Connector.handleWrite CfConnector (con_call host ntop bind new_obj new_chan new_sock user tid) tid) w =
    Ok (set_cli (set_established (Some c) (cli w3)) w3)).
  unfold on_con. rewrite Hrun'.
  unfold con_call. change (leave_con y) with w1. rewrite Hnc. ok_simpl. f_equal.
Qed.
(** *** The end of the connection *)

(** The client's connection [c] is up or closing, and the poller watches its channel. *)
Record cli_up w c (o : Obj) : Prop := {
  cu_obj : cl_objs w !! c = Some o;
  cu_loop : ob_loop o = loop_ (cli w);
  cu_live : ∃ e, chan_live (cl_loop w) (channel_ (ob_conn o)) e;
  cu_fd : ob_fd o ∈ k_fds (cl_kern w) ∧
    ∀ ch, rt_channel (cl_loop w) (channel_ (ob_conn o)) = Some ch → fd_ ch = ob_fd o
}.

(** The world in which [handleClose] calls the close callback. *)
Definition closed w c (o : Obj) l : World :=
  set_loop l (put_obj c (with_view (mkW (setState kDisconnected (ob_conn o)) l (ob_sock o) w) o) w).

Lemma handleClose_run tid w c (o : Obj) cb :
  cli_up w c o → rt_isInLoopThread tid (cl_loop w) = true → closeCallback_ (ob_conn o) = Some cb →
  ∃ l, rt_disableAll tid (channel_ (ob_conn o)) (cl_loop w) = Ok l ∧ chan_live l (channel_ (ob_conn o)) 0 ∧
    rt_pending l = rt_pending (cl_loop w) ∧ (∀ t, rt_isInLoopThread t l = rt_isInLoopThread t (cl_loop w)) ∧
    ∀ w2 x, match cb with
            | CallUser u => user u tid c ArgNone (closed w c o l)
            | CallRemove => removeConnection bind new_chan tid c (closed w c o l)
            | CallDetached => detail_removeConnection tid c (closed w c o l)
            end = Ok w2 → enter c w2 = Ok x →
      on_conn c (handleClose (call bind new_chan user tid c) tid) w = Ok w2.
Proof.
  intros [Ho Hlo [e Hlive] _] Ht Hcb.
  destruct (chan_live_off (cl_loop w) (channel_ (ob_conn o)) e tid Hlive Ht) as (l & Hoff & Hlive' & Hp & Hth).
  exists l. split_and!; [done..|]. intros w2 x Hrun Hx. unfold on_conn. rewrite (cli_enter_ok c o) by done.
  ok_simpl. unfold handleClose, assertLoop, rt_assertInLoopThread. cbn [lp]. rewrite Ht.
  ok_simpl. unfold on_lp. cbn [lp conn put_state set_conn setState channel_]. rewrite Hoff.
  ok_simpl. match goal with |- context [closeCallback_ ?v] => change (closeCallback_ v) with (closeCallback_ (ob_conn o)) end.
  rewrite Hcb. cbn [invoke]. unfold call.
  match goal with |- context [leave c ?v] => assert (leave c v = closed w c o l) as -> end.
  { by rewrite (left_view c _ o). }
  rewrite Hrun. ok_simpl. rewrite Hx. ok_simpl. by rewrite (left_world c w2 x Hx).
Qed.

Lemma cli_up_channel w c o : cli_up w c o → ∃ ch, rt_channel (cl_loop w) (channel_ (ob_conn o)) = Some ch ∧ fd_ ch = ob_fd o.
Proof. intros [_ _ [e [_ _ (ch & Hch & _)]] [_ Hfd]]. exists ch. split; [done|by apply Hfd]. Qed.

(** The loop takes new descriptors after the close as before. *)
Lemma close_can_add tid w c o l g fd :
  cli_up w c o → rt_disableAll tid (channel_ (ob_conn o)) (cl_loop w) = Ok l → fd ≠ ob_fd o →
  rt_can_add (cl_loop w) (new_chan (cl_loop w)) fd → (∀ l, rt_channel l (new_chan l) = None) →
  rt_can_add (rt_queueInLoop tid g l) (new_chan (rt_queueInLoop tid g l)) fd.
Proof.
  intros Hup Hrun Hne Hadd Hfresh. destruct (cli_up_channel w c o Hup) as (ch & Hch & Hfd).
  destruct (cu_live _ _ _ Hup) as [e Hlive].
  eapply law_queue_can_add; [|destruct (law_queue tid g l) as (_ & <- & _); apply Hfresh].
  eapply law_change_can_add; [apply Hlive|exact Hrun|exact Hch|congruence|exact Hadd|apply Hfresh].
Qed.

(** [destoryConnection] of a closed connection, then the release of the object. *)
Lemma destroy_run tid w c (o : Obj) l :
  cl_objs w !! c = Some o → state_ (ob_conn o) ≠ kConnected → chan_live (cl_loop w) (channel_ (ob_conn o)) 0 →
  rt_isInLoopThread tid (cl_loop w) = true → rt_take (cl_loop w) = Some (CfConn c FnDestroy, l) →
  ∃ w1, run_next bind new_chan user tid w = Ok w1 ∧ cli w1 = cli w ∧ connector w1 = connector w ∧ cl_kern w1 = cl_kern w ∧
    cl_users w1 = cl_users w ∧ rt_pending (cl_loop w1) = rt_pending l ∧
    rt_registered (cl_loop w1) (channel_ (ob_conn o)) = false ∧
    ∃ w2, drop_conn c w1 = Ok w2 ∧ cl_objs w2 !! c = None ∧ cl_kern w2 = k_close (ob_fd o) (cl_kern w) ∧
      rt_channel (cl_loop w2) (channel_ (ob_conn o)) = None.
Proof.
  intros Ho Hst Hlive Ht Htk. unfold run_next. rewrite Htk. cbn [run_fn].
  pose proof (chan_live_take _ _ _ _ _ Hlive Htk) as Hlive1.
  assert (Hth : rt_isInLoopThread tid l = true).
  { pose proof (frame_take (cl_loop w)) as Hf. destruct (rt_pending (cl_loop w)); [congruence|].
    destruct Hf as (l2 & Htk2 & _ & _ & _ & Hth & _). rewrite Htk in Htk2. injection Htk2 as _ ->. by rewrite Hth. }
  destruct (chan_live_remove l (channel_ (ob_conn o)) tid Hlive1 Hth) as (l2 & ch & Hrun & Hch & Hnew & Hh & Hp & _).
  set (w0 := set_loop l w). set (x := mkW (ob_conn o) l2 (ob_sock o) w0).
  assert (Hon : on_conn c (TcpConnection.run_fn (CfConn c) (call bind new_chan user tid c) tid FnDestroy) w0 =
    Ok (leave c x)).
  { unfold on_conn. rewrite (cli_enter_ok c o) by done. cbn [mbind outcome_bind TcpConnection.run_fn].
    unfold destoryConnection, assertLoop, rt_assertInLoopThread. cbn [lp conn cl_loop set_loop w0]. rewrite Hth.
    ok_simpl. rewrite bool_decide_eq_false_2 by done. ok_simpl.
    unfold on_lp. cbn [lp conn]. by rewrite Hrun. }
  rewrite Hon. exists (leave c x). rewrite (left_view c x o) by done. split_and!; try done.
  - unfold rt_registered. simpl. rewrite Hch, Hnew. by rewrite bool_decide_eq_true_2.
  - unfold drop_conn, obj_at. simpl. rewrite lookup_insert_eq. ok_simpl. simpl. rewrite Hch.
    ok_simpl. unfold Channel_dtor. rewrite Hh. cbn. eexists. split; [done|]. simpl.
    split_and!; [apply lookup_delete_eq|done|]. by destruct (frame_delete (channel_ (ob_conn o)) l2) as (? & _).
Qed.
(** The connector's destructor when no attempt is under way. *)
Lemma connector_dtor_idle tid w :
  Connector.connectChannel_ (connector w) = None →
  on_con (Connector.Connector_dtor (bind_con_cb bind) CfConnector new_chan tid) w = Ok w.
Proof. intros Hn. unfold on_con, Connector.Connector_dtor. simpl. rewrite Hn. simpl. rewrite Hn. by destruct w. Qed.

(** The only functor takes a detached connection down to its queued destruction. *)
Lemma force_close_run tid w c (o : Obj) :
  cli_up w c o → rt_isInLoopThread tid (cl_loop w) = true → closeCallback_ (ob_conn o) = Some CallDetached →
  state_ (ob_conn o) = kDisconnecting → rt_pending (cl_loop w) = [CfConn c FnForceCloseInLoop] →
  ∃ w1 o1, run_next bind new_chan user tid w = Ok w1 ∧ cl_objs w1 !! c = Some o1 ∧
    state_ (ob_conn o1) = kDisconnected ∧ channel_ (ob_conn o1) = channel_ (ob_conn o) ∧ ob_fd o1 = ob_fd o ∧
    chan_live (cl_loop w1) (channel_ (ob_conn o)) 0 ∧ rt_isInLoopThread tid (cl_loop w1) = true ∧
    rt_pending (cl_loop w1) = [CfConn c FnDestroy] ∧ cl_users w1 = cl_users w ∧ cl_kern w1 = cl_kern w.
Proof.
  intros [Ho Hlo [e Hlive] [Hfd Hch]] Ht Hcb Hst Hp. pose proof (frame_take (cl_loop w)) as Hf. rewrite Hp in Hf.
  destruct Hf as (l & Htk & Hp2 & Hc2 & _ & Hth2 & _). set (w0 := set_loop l w).
  assert (Hup : cli_up w0 c o).
  { split; [exact Ho|exact Hlo|exists e; by eapply chan_live_take|]. split; [exact Hfd|]. simpl. intros ch.
    rewrite Hc2. apply Hch. }
  destruct (handleClose_run tid w0 c o CallDetached Hup) as (l3 & _ & Hlive3 & Hp3 & Hth3 & Hclose);
    [by simpl; rewrite Hth2|done|].
  set (wq := queue_fn tid (CfConn c FnDestroy) (closed w0 c o l3)).
  destruct (law_queue tid (CfConn c FnDestroy) l3) as (Hpd & _ & _ & Hthd).
  set (o1 := with_view (mkW (setState kDisconnected (ob_conn o)) l3 (ob_sock o) w0) o).
  assert (Ho1 : cl_objs wq !! c = Some o1) by apply lookup_insert_eq.
  exists wq, o1. split_and!; try done.
  - unfold run_next. rewrite Htk. fold w0. cbn [run_fn].
    rewrite <- (Hclose wq _ eq_refl (cli_enter_ok c o1 wq Ho1)). unfold on_conn.
    rewrite (cli_enter_ok c o) by done. cbn [mbind outcome_bind TcpConnection.run_fn].
    unfold forceCloseInLoop, assertLoop, rt_assertInLoopThread. cbn [lp conn]. change (cl_loop w0) with l.
    rewrite Hth2, Ht. ok_simpl. by rewrite Hst.
  - by apply chan_live_queue.
  - simpl. by rewrite Hthd, Hth3; simpl; rewrite Hth2.
  - simpl. rewrite Hpd, Hp3. simpl. by rewrite Hp2.
Qed.
End client.

(** ** Properties *)

(** connecting a client.  [connect] in the loop's thread opens one socket and waits for it to
    become writable.  When it does without an error, the client makes a connection of it
    under the name "client:host:port#k" with the next k: the user's connection callback is
    called when the connection is up and watched for reading, and after it the connection
    becomes the client's established one.  During that first callback the client does not
    have it yet, so that a [disconnect] there leaves the connection alone. *)
Theorem client_connects {C X S L F K U} `{Socket S} `{SockKernelLaws K} `{!Reactor L F (cli_fn C)}
    `{LoopTimers L (cli_fn C)} `{!LoopRun L (cli_fn C)} `{!ReactorLaws L F (cli_fn C)}
    (host : byte_order) (ntop : Z → list byte) (bind : cli_cb → F)
    (new_obj : CliW C X S L K U → addr) (new_chan : L → addr) (new_sock : Z → K → S)
    (user : C → Z → addr → cb_arg → CliW C X S L K U → outcome (CliW C X S L K U))
    (tid e : Z) (t : Timestamp) (w : CliW C X S L K U) (u : C) :
  let a := new_chan (cl_loop w) in
  rt_isInLoopThread tid (cl_loop w) = true → Connector.state_ (connector w) = Connector.kDisconnected →
  Connector.connectChannel_ (connector w) = None → Connector.newConnCb_ (connector w) = Some tt →
  k_full (cl_kern w) = false → (∀ fd, fd ∉ k_fds (cl_kern w) → rt_can_add (cl_loop w) a fd) →
  (k_connect (k_socket (cl_kern w)).2 (Connector.serverAddr_ (connector w)) (k_socket (cl_kern w)).1).2 = e →
  Connector.connect_pending e = true →
  rt_addr (cl_loop w) = loop_ (cli w) → - 2 ^ 31 ≤ nextConnId_ (cli w) < 2 ^ 31 - 1 →
  connectionCallback_ (cli w) = Some u → (∀ l, rt_channel l (new_chan l) = None) →
  establishedConnection_ (cli w) = None →
  ∃ fd w1, connect bind new_chan tid w = Ok w1 ∧ opened (cl_kern w) (cl_kern w1) fd ∧
    connecting (bind_con_cb bind) fd a (enter_con w1) ∧
    ((k_so_error fd (cl_kern w1)).2 = 0 →
     not_self fd (k_so_error fd (cl_kern w1)).1 →
     ∃ w1' w2 c o, established_as host ntop new_chan w1' w2 c fd o ∧ cli w1' = cli w1 ∧ cl_objs w1' = cl_objs w ∧
       Connector.state_ (connector w2) = Connector.kConnected ∧
       disconnect bind new_chan user tid w2 = Ok (set_cli (set_connect false (cli w2)) w2) ∧
       ∀ w3 x, user u tid c ArgNone w2 = Ok w3 → enter c w3 = Ok x →
         ∃ w4, io_event host ntop bind new_obj new_chan new_sock user tid (CcConnector CbHandleWrite) t w1 = Ok w4 ∧
           establishedConnection_ (cli w4) = Some c ∧ cl_objs w4 = cl_objs w3).
Proof.
  intros a Ht Hst Hnone Hcb Hfull Hadd Hres He Haddr Hid Hu Hfresh Hest.
  destruct (connect_run bind new_chan tid w e) as (fd & w1 & Hrun & Hopen & Hcn & Hcli & Hobjs & Hla & Hc1 & Hcb1 & Hth1);
    [done..|].
  exists fd, w1. split_and!; [done..|]. intros Herr Hself.
  destruct (connected_run host ntop bind new_obj new_chan new_sock user tid t fd a w1 u)
    as (l' & _ & w2 & o & Hea & Hio); try done; rewrite ?Hcli; try done.
  { by rewrite Hth1. } { by rewrite Hcb1. } { by rewrite Hla. }
  do 2 eexists. eexists. exists o. split; [exact Hea|]. split; [done|]. split; [done|].
  assert (Hnone2 : establishedConnection_ (cli w2) = None).
  { rewrite (ea_none _ _ _ _ _ _ _ _ Hea). simpl. by rewrite Hcli. }
  split_and!.
  - by rewrite (ea_connector _ _ _ _ _ _ _ _ Hea).
  - unfold disconnect. simpl. by rewrite Hnone2.
  - intros w3 x Huser Hx. eexists. split; [by apply (Hio w3 x)|]. done.
Qed.

(** losing the connection.  When the client's connection is closed, with nothing else waiting
    in the loop, the client gives it up and its destruction is queued; run, this takes the
    channel out of the poller, and the object goes with its descriptor.  Without [retry_], or
    after [disconnect] or [stop] cleared [connect_], the connector is left alone; otherwise
    it starts over at once on a new socket, with the retry delay back at its first value. *)
Theorem client_close {C X S L F K U} `{Socket S} `{SockKernelLaws K} `{!Reactor L F (cli_fn C)}
    `{LoopTimers L (cli_fn C)} `{!LoopRun L (cli_fn C)} `{!ReactorLaws L F (cli_fn C)} `{!ReactorFrame L F (cli_fn C)}
    (host : byte_order) (ntop : Z → list byte) (bind : cli_cb → F)
    (new_obj : CliW C X S L K U → addr) (new_chan : L → addr) (new_sock : Z → K → S)
    (user : C → Z → addr → cb_arg → CliW C X S L K U → outcome (CliW C X S L K U))
    (tid : Z) (t : Timestamp) (w : CliW C X S L K U) (c : addr) (o : conn_obj (cli_call C) X S) :
  rt_isInLoopThread tid (cl_loop w) = true → cli_up w c o → closeCallback_ (ob_conn o) = Some CallRemove →
  rt_pending (cl_loop w) = [] →
  (retry_ (cli w) && connect_ (cli w) = true →
     Connector.connectChannel_ (connector w) = None ∧ k_full (cl_kern w) = false ∧
     (∀ fd, fd ∉ k_fds (cl_kern w) → rt_can_add (cl_loop w) (new_chan (cl_loop w)) fd) ∧
     (∀ l, rt_channel l (new_chan l) = None) ∧
     Connector.connect_pending
       (k_connect (k_socket (cl_kern w)).2 (Connector.serverAddr_ (connector w)) (k_socket (cl_kern w)).1).2 = true) →
  ∃ w1, io_event host ntop bind new_obj new_chan new_sock user tid (CcConn c CbClose) t w = Ok w1 ∧
    establishedConnection_ (cli w1) = None ∧ rt_pending (cl_loop w1) = [CfConn c FnDestroy] ∧
    (∃ o', cl_objs w1 !! c = Some o' ∧ state_ (ob_conn o') = kDisconnected) ∧
    if retry_ (cli w) && connect_ (cli w) then
      ∃ fd a, opened (cl_kern w) (cl_kern w1) fd ∧ connecting (bind_con_cb bind) fd a (enter_con w1) ∧
        Connector.retryDelayMs_ (connector w1) = Connector.kInitRetryDelayMs
    else connector w1 = connector w ∧ cl_kern w1 = cl_kern w ∧
      ∃ w2 w3, run_next bind new_chan user tid w1 = Ok w2 ∧ drop_conn c w2 = Ok w3 ∧ rt_pending (cl_loop w2) = [] ∧
        rt_registered (cl_loop w2) (channel_ (ob_conn o)) = false ∧ cl_objs w3 !! c = None ∧
        k_fds (cl_kern w3) = k_fds (cl_kern w) ∖ {[ob_fd o]}.
Proof.
  intros Ht Hup Hcb Hpend Hretry.
  destruct (handleClose_run bind new_chan user tid w c o CallRemove Hup Ht Hcb)
    as (l & Hoff & Hlive & Hp & Hth & Hrun).
  set (wc := closed w c o l) in *. set (o' := with_view (mkW (setState kDisconnected (ob_conn o)) l (ob_sock o) w) o).
  assert (Ho' : cl_objs wc !! c = Some o') by apply lookup_insert_eq.
  set (wq := queue_fn tid (CfConn c FnDestroy) (set_cli (set_established None (cli wc)) wc)).
  destruct (law_queue tid (CfConn c FnDestroy) l) as (Hpq & Hchq & _ & Hthq).
  assert (Hrm : removeConnection bind new_chan tid c wc =
    if retry_ (cli w) && connect_ (cli w)
    then on_con (Connector.restart (bind_con_cb bind) CfConnector new_chan tid) wq else Ok wq).
  { unfold removeConnection, assert_loop, rt_assertInLoopThread. change (cl_loop wc) with l. rewrite Hth, Ht.
    ok_simpl. unfold obj_at. rewrite Ho'. ok_simpl.
    rewrite assert_true by (apply Z.eqb_eq; symmetry; apply (cu_loop _ _ _ Hup)). done. }
  assert (Hqp : rt_pending (cl_loop wq) = [CfConn c FnDestroy]) by (simpl; by rewrite Hpq, Hp, Hpend).
  simpl io_event. rewrite Hrm in Hrun. destruct (retry_ (cli w) && connect_ (cli w)) eqn:Hrc.
  - destruct (Hretry eq_refl) as (Hnone & Hfull & Hadd & Hfresh & He).
    set (x := enter_con wq).
    set (x1 := Connector.set_delay Connector.kInitRetryDelayMs (Connector.set_connect true
      (Connector.set_state Connector.kDisconnected x))).
    assert (Htx : rt_isInLoopThread tid (clp x1) = true) by (simpl; by rewrite Hthq, Hth).
    destruct (Connector.startInLoop_connects (bind_con_cb bind) CfConnector new_chan tid x1
      (k_connect (k_socket (cl_kern w)).2 (Connector.serverAddr_ (connector w)) (k_socket (cl_kern w)).1).2
      Htx eq_refl eq_refl Hfull eq_refl) as (fd & k' & Hopen & Hstart). rewrite He in Hstart. change (ckern x1) with (cl_kern w) in Hopen.
    destruct (Connector.establishConnection_ok (bind_con_cb bind) new_chan tid fd (Connector.set_ckern k' x1))
      as (y & Hy & Hcn & Hcon & Hk & Hu & Hpy & _); [done|done| |by apply (opened_in (cl_kern w))|].
    { apply (close_can_add new_chan tid w c o l); [done|done| |apply Hadd; by destruct Hopen as (_ & ? & _)|done].
      intros ->. destruct Hopen as (_ & Hn & _). apply Hn, (cu_fd _ _ _ Hup). }
    assert (Hre : on_con (Connector.restart (bind_con_cb bind) CfConnector new_chan tid) wq = Ok (leave_con y)).
    { unfold on_con, Connector.restart. rewrite Connector.assertLoop_in by exact Htx. ok_simpl.
      fold x. fold x1. rewrite Hstart, Hy. done. }
    rewrite Hre in Hrun. exists (leave_con y). unfold leave_con in *. rewrite Hu in *. change (cusr (Connector.set_ckern k' x1)) with wq in *.
    split_and!.
    + eapply Hrun; [done|]. by apply (cli_enter_ok c o').
    + done.
    + simpl. by rewrite Hpy.
    + by exists o'.
    + exists fd. eexists. split_and!; [simpl; by rewrite Hk| |by simpl; rewrite Hcon]. by destruct Hcn.
  - exists wq. split; [by eapply Hrun, (cli_enter_ok c o')|]. split_and!; try done; [by exists o'|].
    pose proof (frame_take (cl_loop wq)) as Hf. rewrite Hqp in Hf. destruct Hf as (l2 & Htk & Hp2 & _).
    destruct (destroy_run bind new_chan user tid wq c o' l2) as (w2 & Hrun2 & _ & _ & Hk2 & _ & Hp3 & Hr2 & w3 & Hd & Hg & Hk3 & _);
      [done|done|by apply chan_live_queue|by simpl; rewrite Hthq, Hth|done|].
    exists w2, w3. split_and!; try done; [by rewrite Hp3|]. rewrite Hk3.
    destruct (law_close (ob_fd o) (cl_kern w)) as [Hc _]; [apply Hup|]. exact Hc.
Qed.

(** the client's connector cannot try again.  [retry] calls [shared_from_this()], but the
    client owns the connector by a [unique_ptr]: when an attempt that was in progress fails,
    the exception leaves the event loop.  And a client that is destroyed while it connects
    stops at an assertion: its destructor stops the connector, which leaves the channel to a
    queued functor, and the connector's destructor asserts that there is no channel. *)
Theorem client_failures_stop {C X S L F K U} `{Socket S} `{SockKernelLaws K} `{!Reactor L F (cli_fn C)}
    `{LoopTimers L (cli_fn C)} `{!LoopRun L (cli_fn C)} `{!ReactorLaws L F (cli_fn C)}
    (host : byte_order) (ntop : Z → list byte) (bind : cli_cb → F)
    (new_obj : CliW C X S L K U → addr) (new_chan : L → addr) (new_sock : Z → K → S)
    (user : C → Z → addr → cb_arg → CliW C X S L K U → outcome (CliW C X S L K U))
    (tid fd : Z) (a : addr) (t : Timestamp) (others : nat) (w : CliW C X S L K U) :
  connecting (bind_con_cb bind) fd a (enter_con w) → rt_isInLoopThread tid (cl_loop w) = true →
  (Connector.shared (connector w) = false → Connector.connect_ (connector w) = true →
     (k_so_error fd (cl_kern w)).2 ≠ 0 →
     io_event host ntop bind new_obj new_chan new_sock user tid (CcConnector CbHandleWrite) t w ↯ BadWeakPtr) ∧
  (establishedConnection_ (cli w) = None → Connector.validTimer_ (connector w) = false →
     ∃ w1, on_con (Connector.stop (bind_con_cb bind) CfConnector new_chan tid) w = Ok w1 ∧
       ∀ id l, rt_runAfter tid (double_of_Z 1) CfRemoveConnector (cl_loop w1) = Ok (id, l) →
         TcpClient_dtor bind new_chan tid others w ↯ AssertFailed).
Proof.
  intros Hcn Ht. split.
  - intros Hsh Hc Herr. simpl. unfold on_con.
    destruct (Connector.handleWrite_run (bind_con_cb bind) CfConnector
      (con_call host ntop bind new_obj new_chan new_sock user tid) tid fd a (enter_con w) Hcn Ht) as (l' & _ & Hrun).
    cbv zeta in Hrun. rewrite Hrun. simpl ckern. rewrite (proj2 (Z.eqb_neq _ 0)) by done. cbn [negb orb].
    unfold Connector.retry. rewrite bool_decide_eq_true_2 by apply Hcn. simpl. by rewrite Hc, Hsh.
  - intros Hest Hvalid.
    destruct (Connector.destroyed_while_connecting_asserts (bind_con_cb bind) CfConnector new_chan tid fd a (enter_con w))
      as [(x & Hstop & Hst & _ & Ha & Hv) _]; [done..|].
    assert (Hs : on_con (Connector.stop (bind_con_cb bind) CfConnector new_chan tid) w = Ok (leave_con x)).
    { unfold on_con. by rewrite Hstop. }
    exists (leave_con x). split; [done|]. intros id l Hafter. unfold TcpClient_dtor. rewrite Hest, Hs.
    ok_simpl. rewrite Hafter. ok_simpl.
    match goal with |- on_con _ ?v = _ => set (w2 := v) end.
    assert (Hcon : connector w2 = con x) by done. clearbody w2.
    unfold on_con, Connector.Connector_dtor. simpl. rewrite Hcon, Ha. rewrite bool_decide_eq_false_2 by done.
    assert (∃ y, Connector.stop (bind_con_cb bind) CfConnector new_chan tid (enter_con w2) = Ok y ∧
      Connector.connectChannel_ (con y) = Some a) as (y & -> & Hy).
    { unfold Connector.stop, Connector.runInLoop. destruct (rt_isInLoopThread tid (clp _)) eqn:Htid.
      - cbn [Connector.run_fn]. unfold Connector.stopInLoop.
        rewrite (Connector.assertLoop_in tid (Connector.set_connect false (enter_con w2)) Htid).
        ok_simpl. simpl. rewrite Hcon, Hst. rewrite bool_decide_eq_false_2 by done.
        ok_simpl. simpl. rewrite Hcon, Hv. eexists. split; [done|]. simpl. by rewrite Hcon.
      - ok_simpl. simpl. rewrite Hcon, Hv. eexists. split; [done|]. simpl. by rewrite Hcon. }
    ok_simpl. by rewrite Hy.
Qed.

(** C23: destroying a client with a connection.  When nobody else holds it, the destructor has it
    closed: with nothing else waiting, two functors later the channel is out of the poller,
    then the object and its descriptor go; no user callback is called.  When somebody does,
    the connection stays as it is, but for its close callback. *)
Theorem client_dtor_closes {C X S L F K U} `{Socket S} `{SockKernelLaws K} `{!Reactor L F (cli_fn C)}
    `{LoopTimers L (cli_fn C)} `{!LoopRun L (cli_fn C)} `{!ReactorLaws L F (cli_fn C)} `{!ReactorFrame L F (cli_fn C)}
    (bind : cli_cb → F) (new_chan : L → addr)
    (user : C → Z → addr → cb_arg → CliW C X S L K U → outcome (CliW C X S L K U))
    (tid : Z) (others : nat) (w : CliW C X S L K U) (c : addr) (o : conn_obj (cli_call C) X S) :
  rt_isInLoopThread tid (cl_loop w) = true → cli_up w c o → establishedConnection_ (cli w) = Some c →
  state_ (ob_conn o) ∈ [kConnected; kDisconnecting] → Connector.connectChannel_ (connector w) = None →
  rt_pending (cl_loop w) = [] →
  ∃ w1, TcpClient_dtor bind new_chan tid others w = Ok w1 ∧ establishedConnection_ (cli w1) = None ∧
    match others with
    | 0%nat => ∃ w2 w3 w4, run_next bind new_chan user tid w1 = Ok w2 ∧ run_next bind new_chan user tid w2 = Ok w3 ∧
        rt_pending (cl_loop w3) = [] ∧ rt_registered (cl_loop w3) (channel_ (ob_conn o)) = false ∧
        cl_users w3 = cl_users w ∧ drop_conn c w3 = Ok w4 ∧ cl_objs w4 !! c = None ∧
        k_fds (cl_kern w4) = k_fds (cl_kern w) ∖ {[ob_fd o]}
    | _ => rt_pending (cl_loop w1) = [] ∧ cl_objs w1 !! c = Some (setCloseCallback CallDetached o)
    end.
Proof.
  intros Ht Hup Hest Hst Hnone Hp. pose proof Hup as [Ho Hlo [e Hlive] [Hfd Hch]].
  unfold TcpClient_dtor. rewrite Hest. unfold obj_at. rewrite Ho. ok_simpl.
  unfold is_unique. rewrite Hp. cbn [existsb negb]. rewrite andb_true_r.
  set (o1 := setCloseCallback CallDetached o). set (w0 := put_obj c o1 w).
  destruct others as [|n].
  2: { rewrite bool_decide_eq_false_2 by done. ok_simpl. rewrite connector_dtor_idle by done.
       eexists. split_and!; [done..|]. apply lookup_insert_eq. }
  rewrite bool_decide_eq_true_2 by done.
  assert (Hst' : bool_decide (state_ (ob_conn o) = kConnected) || bool_decide (state_ (ob_conn o) = kDisconnecting) = true).
  { apply orb_true_iff. rewrite !bool_decide_eq_true. set_solver. }
  set (l1 := rt_queueInLoop tid (CfConn c FnForceCloseInLoop) (cl_loop w)).
  set (x1 := mkW (setState kDisconnecting (ob_conn o1)) l1 (ob_sock o) w0).
  assert (Hforce : on_conn c (forceClose (CfConn c) tid) w0 = Ok (leave c x1)).
  { unfold on_conn. rewrite (cli_enter_ok c o1) by apply lookup_insert_eq. ok_simpl.
    unfold forceClose. change (state_ (conn _)) with (state_ (ob_conn o)). by rewrite Hst'. }
  rewrite Hforce. ok_simpl. set (o2 := with_view x1 o1).
  rewrite (left_view c x1 o1) by apply lookup_insert_eq. rewrite connector_dtor_idle by done.
  match goal with |- context [Ok ?v = Ok _] => set (w1 := v) end. exists w1. split; [done|]. split; [done|].
  destruct (law_queue tid (CfConn c FnForceCloseInLoop) (cl_loop w)) as (Hpq & Hcq & _ & Hthq). fold l1 in Hpq, Hcq, Hthq.
  assert (Hup1 : cli_up w1 c o2).
  { split; [apply lookup_insert_eq|exact Hlo|exists e; by apply chan_live_queue|]. split; [exact Hfd|]. simpl.
    intros ch. rewrite Hcq. apply Hch. }
  destruct (force_close_run bind new_chan user tid w1 c o2 Hup1) as
    (w2 & o3 & Hrun2 & Ho3 & Hst3 & Hc3 & Hf3 & Hlive3 & Ht3 & Hp3 & Hu3 & Hk3);
    [by simpl; rewrite Hthq|done|done|by simpl; rewrite Hpq, Hp|].
  pose proof (frame_take (cl_loop w2)) as Hf. rewrite Hp3 in Hf. destruct Hf as (l4 & Htk4 & Hp4 & _).
  rewrite <- Hc3 in Hlive3.
  destruct (destroy_run bind new_chan user tid w2 c o3 l4) as
    (w3 & Hrun3 & _ & _ & _ & Hu4 & Hpe & Hr3 & w4 & Hd & Hg & Hk4 & _); [done|by rewrite Hst3|done..|].
  exists w2, w3, w4. rewrite Hc3 in Hr3. split_and!; try done; [by rewrite Hpe|by rewrite Hu4, Hu3|].
  rewrite Hk4, Hf3, Hk3. by destruct (law_close (ob_fd o) (cl_kern w) Hfd) as [Hc _].
Qed.

(** ** A client on an event loop *)
Abbreviation cli_loop := (EventLoop cli_cb (cli_fn nat) unit sim_kernel N).
Abbreviation cli_W := (CliW nat unit sim_socket cli_loop sim_net (list nat)).

#[export] Instance cli_loop_laws : ReactorLaws cli_loop (loop_cb cli_cb) (cli_fn nat) :=
  loop_reactor_laws sim_epoll_accepts.
#[export] Instance cli_timers : LoopTimers cli_loop (cli_fn nat) :=
  loop_timers (mkTimestamp 1000) TimerQueue.bump_alloc (λ _, tt).

Definition cli_loop_start : cli_loop :=
  mkEventLoop true false false false 100 efd_new invalid (Poll_ctor 1 50 101 []) 300
    (TimerQueue.TimerQueue_ctor 1) 301 [] [].
Definition cli_new_obj (w : cli_W) : addr := 500.
Definition cli_new_chan (l : cli_loop) : addr := fresh (dom (channels (poll_ l)) : gset Z).
Definition cli_sock (_ : Z) (_ : sim_net) : sim_socket := mkSimSocket [] false 100 (ReadvData []).
(** The user's callbacks record that they ran. *)
Definition cli_user (u : nat) (tid : Z) (c : addr) (arg : cb_arg) (w : cli_W) : outcome cli_W :=
  Ok (mkCli (cli w) (connector w) (cl_loop w) (cl_kern w) (cl_objs w) (cl_users w ++ [u])).
Definition cli_ntop (_ : Z) : list byte := str "10.0.0.2".

Lemma cli_chan_fresh (l : cli_loop) : rt_channel l (cli_new_chan l) = None.
Proof. apply (not_elem_of_dom (D := gset Z)). exact (is_fresh (dom (channels (poll_ l)) : gset Z)). Qed.
Lemma cli_can_add fd : rt_can_add cli_loop_start (cli_new_chan cli_loop_start) fd.
Proof. split_and!; [apply poll_inv_ctor|apply cli_chan_fresh|done]. Qed.

(** Before connecting. *)
Definition cli_idle : cli_W :=
  let w := TcpClient_ctor 50 (mkSockaddr AF_INET 80 2) (str "client") cli_loop_start
    (mkSimNet [2; 1; 0] 10 [] Connector.EINPROGRESS 0) [] in
  set_cli (setCallbacks (Some 0%nat) (Some 1%nat) None (cli w)) w.

Lemma client_connects_witness :
  ∃ fd w1, connect CbUser cli_new_chan 1 cli_idle = Ok w1 ∧ opened (cl_kern cli_idle) (cl_kern w1) fd ∧
    connecting (bind_con_cb CbUser) fd (cli_new_chan (cl_loop cli_idle)) (enter_con w1) ∧
    ((k_so_error fd (cl_kern w1)).2 = 0 → not_self fd (k_so_error fd (cl_kern w1)).1 →
     ∃ w1' w2 c o, established_as big_endian cli_ntop cli_new_chan w1' w2 c fd o ∧ cli w1' = cli w1 ∧
       cl_objs w1' = cl_objs cli_idle ∧ Connector.state_ (connector w2) = Connector.kConnected ∧
       disconnect CbUser cli_new_chan cli_user 1 w2 = Ok (set_cli (set_connect false (cli w2)) w2) ∧
       ∀ w3 x, cli_user 0%nat 1 c ArgNone w2 = Ok w3 → enter c w3 = Ok x →
         ∃ w4, io_event big_endian cli_ntop CbUser cli_new_obj cli_new_chan cli_sock cli_user 1
             (CcConnector CbHandleWrite) invalid w1 = Ok w4 ∧
           establishedConnection_ (cli w4) = Some c ∧ cl_objs w4 = cl_objs w3).
Proof.
  refine (client_connects big_endian cli_ntop CbUser cli_new_obj cli_new_chan cli_sock cli_user 1
    Connector.EINPROGRESS invalid cli_idle 0%nat eq_refl eq_refl eq_refl eq_refl eq_refl _ eq_refl eq_refl eq_refl
    _ eq_refl cli_chan_fresh eq_refl).
  - intros fd _. apply cli_can_add.
  - vm_compute. split; [discriminate|reflexivity].
Defined.

(** Connected on descriptor 5, with or without [retry_]. *)
Definition cli_before (retry : bool) : cli_W :=
  mkCli (mkClient 50 (mkSockaddr AF_INET 80 2) retry true (str "client") 1 None (Some 0%nat) (Some 1%nat) None)
    (Connector.setNewConnectionCallback tt (Connector.Connector_ctor (mkSockaddr AF_INET 80 2) false))
    cli_loop_start (mkSimNet [5; 2; 1; 0] 10 [] Connector.EINPROGRESS 0) ∅ [].
Definition cli_connected (retry : bool) : cli_W :=
  match newConnection big_endian cli_ntop CbUser cli_new_obj cli_new_chan cli_sock cli_user 1 5 (cli_before retry) with
  | Ok w => w | Err _ => cli_before retry
  end.
Definition cli_obj : conn_obj (cli_call nat) unit sim_socket :=
  match cl_objs (cli_connected true) !! 500 with
  | Some o => o
  | None => mkObj (conn (TcpConnection_ctor (λ _, CbUser (CcConnector CbHandleError)) 0 0 [] 0 0
      (cli_sock 0 (cl_kern cli_idle)) cli_loop_start tt)) 0 (cli_sock 0 (cl_kern cli_idle)) 0 sockaddr_zero sockaddr_zero
  end.

Lemma cli_connected_up retry : cli_up (cli_connected retry) 500 cli_obj.
Proof.
  split.
  - destruct retry; vm_compute; reflexivity.
  - destruct retry; vm_compute; reflexivity.
  - exists kReadEvent_. apply live_check_ok. destruct retry; vm_compute; reflexivity.
  - split.
    + apply (bool_decide_unpack _). destruct retry; vm_compute; exact I.
    + destruct retry; vm_compute; by intros ch [= <-].
Qed.

(** Other descriptors than its own can be added to its loop. *)
Lemma cli_connected_can_add fd : fd ∉ k_fds (cl_kern (cli_connected true)) →
  rt_can_add (cl_loop (cli_connected true)) (cli_new_chan (cl_loop (cli_connected true))) fd.
Proof.
  intros Hfd. destruct (cu_live _ _ _ (cli_connected_up true)) as [e [[Hinv _] _ _]].
  split_and!; [exact Hinv|apply cli_chan_fresh|].
  assert (Hmap : channelMap_ (epoller_ (poll_ (cl_loop (cli_connected true)))) = {[5 := channel_ (ob_conn cli_obj)]})
    by (vm_compute; reflexivity).
  unfold map_at. rewrite Hmap. apply lookup_singleton_ne. intros <-. apply Hfd.
  apply (bool_decide_unpack _). vm_compute. exact I.
Qed.

Lemma cli_connected_retry retry :
  retry_ (cli (cli_connected retry)) && connect_ (cli (cli_connected retry)) = retry.
Proof. destruct retry; vm_compute; reflexivity. Qed.

Lemma client_close_witness :
  (∃ w1, io_event big_endian cli_ntop CbUser cli_new_obj cli_new_chan cli_sock cli_user 1 (CcConn 500 CbClose)
      invalid (cli_connected true) = Ok w1 ∧
    ∃ fd a, opened (cl_kern (cli_connected true)) (cl_kern w1) fd ∧ connecting (bind_con_cb CbUser) fd a (enter_con w1) ∧
        Connector.retryDelayMs_ (connector w1) = Connector.kInitRetryDelayMs) ∧
  ∃ w1, io_event big_endian cli_ntop CbUser cli_new_obj cli_new_chan cli_sock cli_user 1 (CcConn 500 CbClose)
      invalid (cli_connected false) = Ok w1 ∧
    ∃ w2 w3, run_next CbUser cli_new_chan cli_user 1 w1 = Ok w2 ∧ drop_conn 500 w2 = Ok w3 ∧ cl_objs w3 !! 500 = None ∧
      k_fds (cl_kern w3) = k_fds (cl_kern (cli_connected false)) ∖ {[ob_fd cli_obj]}.
Proof.
  split.
  - destruct (client_close big_endian cli_ntop CbUser cli_new_obj cli_new_chan cli_sock cli_user 1 invalid
      (cli_connected true) 500 cli_obj) as (w1 & Hrun & _ & _ & _ & Hc).
    + vm_compute. reflexivity.
    + apply cli_connected_up.
    + vm_compute. reflexivity.
    + vm_compute. reflexivity.
    + intros _. split_and!.
      * vm_compute. reflexivity.
      * vm_compute. reflexivity.
      * apply cli_connected_can_add.
      * apply cli_chan_fresh.
      * vm_compute. reflexivity.
    + rewrite cli_connected_retry in Hc. exact (ex_intro _ w1 (conj Hrun Hc)).
  - destruct (client_close big_endian cli_ntop CbUser cli_new_obj cli_new_chan cli_sock cli_user 1 invalid
      (cli_connected false) 500 cli_obj) as (w1 & Hrun & _ & _ & _ & Hc).
    + vm_compute. reflexivity.
    + apply cli_connected_up.
    + vm_compute. reflexivity.
    + vm_compute. reflexivity.
    + rewrite cli_connected_retry. intros [=].
    + rewrite cli_connected_retry in Hc. destruct Hc as (_ & _ & w2 & w3 & H2 & H3 & _ & _ & H4 & H5).
      exact (ex_intro _ w1 (conj Hrun (ex_intro _ w2 (ex_intro _ w3 (conj H2 (conj H3 (conj H4 H5))))))).
Defined.

Lemma client_dtor_closes_witness :
  ∃ w1, TcpClient_dtor CbUser cli_new_chan 1 0 (cli_connected false) = Ok w1 ∧ establishedConnection_ (cli w1) = None ∧
    ∃ w2 w3 w4, run_next CbUser cli_new_chan cli_user 1 w1 = Ok w2 ∧ run_next CbUser cli_new_chan cli_user 1 w2 = Ok w3 ∧
      rt_pending (cl_loop w3) = [] ∧ rt_registered (cl_loop w3) (channel_ (ob_conn cli_obj)) = false ∧
      cl_users w3 = cl_users (cli_connected false) ∧ drop_conn 500 w3 = Ok w4 ∧ cl_objs w4 !! 500 = None ∧
      k_fds (cl_kern w4) = k_fds (cl_kern (cli_connected false)) ∖ {[ob_fd cli_obj]}.
Proof.
  refine (client_dtor_closes CbUser cli_new_chan cli_user 1 0 (cli_connected false) 500 cli_obj
    _ (cli_connected_up false) _ _ _ _).
  - vm_compute. reflexivity.
  - vm_compute. reflexivity.
  - apply (bool_decide_unpack _). vm_compute. exact I.
  - vm_compute. reflexivity.
  - vm_compute. reflexivity.
Defined.

(** While it connects on descriptor 3; [so_err] is what SO_ERROR will hold. *)
Definition cli_opened (so_err : Z) : cli_W :=
  set_cli (set_connect true (cli cli_idle))
    (mkCli (cli cli_idle) (con (Connector.set_connect true (enter_con cli_idle))) cli_loop_start
      (mkSimNet [3; 2; 1; 0] 10 [] Connector.EINPROGRESS so_err) ∅ []).
Definition cli_connecting (so_err : Z) : cli_W :=
  match Connector.establishConnection (bind_con_cb CbUser) cli_new_chan 1 3 (enter_con (cli_opened so_err)) with
  | Ok x => leave_con x | Err _ => cli_opened so_err
  end.

Lemma cli_connecting_ok so_err :
  connecting (bind_con_cb CbUser) 3 (cli_new_chan cli_loop_start) (enter_con (cli_connecting so_err)) ∧
  rt_isInLoopThread 1 (cl_loop (cli_connecting so_err)) = true ∧ cli (cli_connecting so_err) = cli (cli_opened so_err) ∧
  Connector.validTimer_ (connector (cli_connecting so_err)) = false ∧
  Connector.connect_ (connector (cli_connecting so_err)) = true ∧
  Connector.shared (connector (cli_connecting so_err)) = false ∧
  (k_so_error 3 (cl_kern (cli_connecting so_err))).2 = so_err.
Proof.
  destruct (Connector.establishConnection_ok (bind_con_cb CbUser) cli_new_chan 1 3 (enter_con (cli_opened so_err)))
    as (x & Hrun & Hcn & Hcon & Hk & Hu & _ & Ht); [done|done|apply cli_can_add| |].
  { apply (bool_decide_unpack _). vm_compute. exact I. }
  unfold cli_connecting. rewrite Hrun. unfold leave_con. rewrite Hu. split_and!.
  - by destruct Hcn.
  - exact (Ht 1).
  - done.
  - simpl. by rewrite Hcon.
  - simpl. by rewrite Hcon.
  - simpl. by rewrite Hcon.
  - simpl. by rewrite Hk.
Qed.

Lemma client_failures_stop_witness :
  io_event big_endian cli_ntop CbUser cli_new_obj cli_new_chan cli_sock cli_user 1 (CcConnector CbHandleWrite)
    invalid (cli_connecting Connector.ECONNREFUSED) ↯ BadWeakPtr ∧
  ∃ w1, on_con (Connector.stop (bind_con_cb CbUser) CfConnector cli_new_chan 1)
      (cli_connecting Connector.ECONNREFUSED) = Ok w1 ∧
    ∀ id l, rt_runAfter 1 (double_of_Z 1) (CfRemoveConnector (C := nat)) (cl_loop w1) = Ok (id, l) →
      TcpClient_dtor CbUser cli_new_chan 1 0 (cli_connecting Connector.ECONNREFUSED) ↯ AssertFailed.
Proof.
  destruct (cli_connecting_ok Connector.ECONNREFUSED) as (Hcn & Ht & Hcli & Hv & Hc & Hs & He).
  destruct (client_failures_stop big_endian cli_ntop CbUser cli_new_obj cli_new_chan cli_sock cli_user 1 3 _ invalid 0
    (cli_connecting Connector.ECONNREFUSED) Hcn Ht) as [Hretry Hdtor].
  split.
  - apply Hretry; [exact Hs|exact Hc|]. rewrite He. discriminate.
  - apply Hdtor; [|exact Hv]. rewrite Hcli. reflexivity.
Defined.
