(* ===== verification/ClientSteps.v ===== *)
(** * ClientSteps: what holds of a TcpClient at any time

    The invariant of ClientInv.v as a statement about a client since its construction, and a
    client on an event loop that goes through its life. *)
From S2P Require Import Prelude Endian Timestamp Inet SockKernel Buffer Channel Epoller EventLoop Reactor ReactorLoop.
From S2P Require Import TcpConnection TcpFlow ConnFrame TcpClient ClientInv ClientLife.
From S2P Require ClientProps Connector.
Import ClientProps (cli_loop, cli_W, cli_loop_laws, cli_timers, cli_loop_start, cli_sock, cli_ntop).
Import Connector (Connector, con, CbHandleWrite).
#[local] Existing Instances ClientProps.cli_loop_laws ClientProps.cli_timers Connector.State_eq_dec.

Section steps.
Context {C X S L F K U : Type} `{Socket S} `{SockKernel K} `{ReactorFrame L F (cli_fn C)} `{LoopTimers L (cli_fn C)}.
Abbreviation World := (CliW C X S L K U).
Implicit Types (w : World) (c a : addr) (o : conn_obj (cli_call C) X S) (l : L).

(** The client, its connector, the connection objects, their channels and the pending functors
    agree. *)
Record client_consistent w : Prop := {
  (* the established connection is there, and no other attempt is under way *)
  cc_established c : establishedConnection_ (cli w) = Some c →
    (∃ o, cl_objs w !! c = Some o ∧ ob_loop o = loop_ (cli w)) ∧
    Connector.state_ (connector w) = Connector.kConnected;
  (* what the client gave up is down, watched for nothing, and leaves the poller *)
  cc_given_up c o : cl_objs w !! c = Some o → establishedConnection_ (cli w) ≠ Some c →
    state_ (ob_conn o) = kDisconnected ∧ rt_event (cl_loop w) (channel_ (ob_conn o)) = Some 0 ∧
    (CfConn c FnDestroy ∈ rt_pending (cl_loop w) ∨ reg w o = false);
  cc_channel c o : cl_objs w !! c = Some o → is_Some (rt_channel (cl_loop w) (channel_ (ob_conn o)));
  (* no functor will run on a connection that is gone *)
  cc_functor c f : CfConn c f ∈ rt_pending (cl_loop w) → is_Some (cl_objs w !! c) ∧ plain_this f = false;
  (* a connection without references is out of the poller *)
  cc_unreferenced c o n : cl_objs w !! c = Some o → referenced n c w = false →
    reg w o = false ∧ ∀ f, CfConn c f ∉ rt_pending (cl_loop w);
  (* no two share a channel *)
  cc_chans c1 c2 o1 o2 : cl_objs w !! c1 = Some o1 → cl_objs w !! c2 = Some o2 →
    channel_ (ob_conn o1) = channel_ (ob_conn o2) → c1 = c2;
  (* the connector's channel is in use, or waits for the one functor that destroys it *)
  cc_attempt a : Connector.connectChannel_ (connector w) = Some a →
    is_Some (rt_channel (cl_loop w) a) ∧
    (Connector.state_ (connector w) = Connector.kConnecting ∧ resets (cl_loop w) = 0%nat ∨
     Connector.state_ (connector w) ≠ Connector.kConnecting ∧ resets (cl_loop w) = 1%nat ∧
       rt_registered (cl_loop w) a = false) ∧
    ∀ c o, cl_objs w !! c = Some o → channel_ (ob_conn o) ≠ a;
  cc_idle : Connector.connectChannel_ (connector w) = None →
    Connector.state_ (connector w) ≠ Connector.kConnecting ∧ resets (cl_loop w) = 0%nat
}.

Lemma inv_client_consistent w : cli_inv (F := F) None None w → client_consistent w.
Proof.
  intros Hinv. pose proof Hinv as [J1 J2 J3 J4 J5 J6 J7]. pose proof (ck_chan _ _ _ J1) as Hk. split.
  - intros c Hc. destruct (J3 c (or_introl Hc)) as [[o Ho] Hst]. split; [|done]. exists o.
    split; [done|]. by apply (oi_loop _ _ _ _ _ (J2 c o Ho)).
  - intros c o Ho Hne. destruct (oi_dead _ _ _ _ _ (J2 c o Ho)) as (? & ? & Hor); [by intros [?|?]|].
    split_and!; [done|done|]. by destruct Hor as [?|?].
  - intros c o Ho. by destruct (J2 c o Ho).
  - intros c f Hf. destruct (J7 c f Hf) as [? Hor]. split; [done|]. destruct Hor as [Hh| ->]; [by destruct f|done].
  - intros c o n Ho Hr. by destruct (cli_unreferenced_done w c o n Hinv Ho Hr) as (_ & ? & ?).
  - exact J5.
  - intros a Ha. rewrite Ha in Hk. destruct Hk as [Hs Hk]. simpl in Hk. rewrite Nat.add_0_r in Hk. split_and!; [done| |].
    + case_decide; [by left|right]. by destruct Hk.
    + intros c o Ho Hc. apply (J6 c o Ho). by rewrite Hc.
  - intros Ha. rewrite Ha in Hk. simpl in Hk. rewrite Nat.add_0_r in Hk. done.
Qed.

(** A new client, its callbacks set. *)
Definition new_client (loop : addr) (a : sockaddr_in) (name : list byte) (cc mc wc : option C) l (k : K) (u : U) : World :=
  let w := TcpClient_ctor loop a name l k u in set_cli (setCallbacks cc mc wc (cli w)) w.

Lemma new_client_inv loop (sa : sockaddr_in) name cc mc wc l (k : K) (u : U) :
  rt_pending l = [] → cli_inv (F := F) None None (new_client loop sa name cc mc wc l k u).
Proof.
  intros Hp. split; try done.
  - split; [done..|]. simpl. split; [done|]. unfold resets. by rewrite Hp.
  - intros c [?|?]; done.
  - intros c f. simpl. rewrite Hp. by intros ?%elem_of_nil.
Qed.
End steps.

(** ** Properties *)

(** C17: over all steps a client takes since its construction - connecting, losing the
    connection, connecting again, calls in the loop's thread and callbacks that make such calls -
    in every state reached the client, its connector, the connection objects, their channels and
    the pending functors agree: there is one attempt or one established connection at most, what
    the client gave up is down and on its way out, no functor runs on a destroyed connection, and
    a connection nobody refers to is out of the poller.  A call that stops the process reaches no
    state; ClientProps.client_failures_stop has such calls. *)
Theorem client_stays_consistent {C X S L F K U} `{Socket S} `{SockKernel K} `{!Reactor L F (cli_fn C)}
    `{!LoopRun L (cli_fn C)} `{LoopTimers L (cli_fn C)} `{!ReactorFrame L F (cli_fn C)}
    (host : byte_order) (ntop : Z → list byte) (bind : cli_cb → F)
    (new_obj : CliW C X S L K U → addr) (new_chan : L → addr) (new_sock : Z → K → S)
    (script : C → Z → addr → cb_arg → CliW C X S L K U → list cli_action)
    (loop : addr) (a : sockaddr_in) (name : list byte) (cc mc wc : option C) (l : L) (k : K) (u : U)
    (w : CliW C X S L K U) :
  (∀ w, cl_objs w !! new_obj w = None) → (∀ l, rt_channel l (new_chan l) = None) → rt_pending l = [] →
  rtc (cli_step host ntop bind new_obj new_chan new_sock (scripted_client bind new_chan script))
    (new_client loop a name cc mc wc l k u) w →
  client_consistent w.
Proof.
  intros Hobj Hchan Hp Hsteps. apply inv_client_consistent.
  refine (rtc_ind_r (λ w, cli_inv None None w) _ _ _ w Hsteps).
  - by apply new_client_inv.
  - intros w1 w2 _ Hstep Hinv. eapply cli_step_inv; [exact Hobj|exact Hchan| |exact Hinv|exact Hstep].
    intros nb u' tid c arg v v' Ht Hv Hrun. by eapply scripted_client_ok.
Qed.

(** Connecting again after the connection was lost without [retry_] stops at an assertion: the
    connector is left in its connected state. *)
Theorem reconnect_asserts {C X S L F K U} `{Socket S} `{SockKernel K} `{!Reactor L F (cli_fn C)}
    `{LoopTimers L (cli_fn C)} (bind : cli_cb → F) (new_chan : L → addr) (tid : Z) (w : CliW C X S L K U) :
  rt_isInLoopThread tid (cl_loop w) = true → Connector.state_ (connector w) = Connector.kConnected →
  connect bind new_chan tid w ↯ AssertFailed.
Proof.
  intros Ht Hst. unfold connect, on_con, Connector.start, Connector.runInLoop. simpl. rewrite Ht. simpl.
  unfold Connector.startInLoop, Connector.assertLoop, rt_assertInLoopThread. simpl. rewrite Ht. ok_simpl.
  by rewrite Hst.
Qed.

(** ** [send] from another thread, as its two steps: the test of [state_], and the queueing of
    a functor with a plain [this] *)
Section split.
Context {C X S L F K U : Type} `{Socket S} `{SockKernel K} `{!Reactor L F (cli_fn C)} `{!LoopRun L (cli_fn C)}
  `{LoopTimers L (cli_fn C)} `{!ReactorFrame L F (cli_fn C)}.
Abbreviation World := (CliW C X S L K U).
Context (bind : cli_cb → F) (new_chan : L → addr) (user : C → Z → addr → cb_arg → World → outcome World).
Implicit Types w : World.

Definition send_test (c : addr) w : bool :=
  match cl_objs w !! c with Some o => bool_decide (state_ (ob_conn o) = kConnected) | None => false end.
Definition send_queue (tid : Z) (c : addr) (msg : list byte) w : World := queue_fn tid (CfConn c (FnSendInLoop msg)) w.

(** Without anything in between the two steps are the call. *)
Lemma send_steps tid c msg o w :
  cl_objs w !! c = Some o → rt_isInLoopThread tid (cl_loop w) = false →
  on_conn c (conn_user_op (CfConn c) (call bind new_chan user tid c) tid (UserSend msg)) w =
  Ok (if send_test c w then send_queue tid c msg w else w).
Proof.
  intros Ho Ht. unfold on_conn, enter, obj_at, send_test. rewrite Ho. ok_simpl.
  unfold conn_user_op, send. simpl. case_bool_decide as Hst.
  - unfold runInLoop. simpl. rewrite Ht. ok_simpl. unfold leave. simpl. rewrite Ho. destruct w, o.
    unfold send_queue, queue_fn, set_loop, put_obj. simpl in *. by rewrite insert_id.
  - ok_simpl. unfold leave. simpl. rewrite Ho. destruct w, o. unfold set_loop, put_obj. simpl in *. by rewrite insert_id.
Qed.

(** When the loop has torn the connection down in between, the functor does not keep it: the
    object goes with its last reference, and the functor then runs on what is gone. *)
Theorem late_queue_dangles tid1 tid c msg o (ch : Channel F) w :
  cl_objs w !! c = Some o → referenced 0 c w = false → rt_pending (cl_loop w) = [] →
  rt_channel (cl_loop w) (channel_ (ob_conn o)) = Some ch → isHandlingEvent_ ch = false →
  let w1 := send_queue tid1 c msg w in
  referenced 0 c w1 = false ∧
  ∃ w2, drop_conn c w1 = Ok w2 ∧ run_next bind new_chan user tid w2 ↯ NullPointer.
Proof.
  intros Ho Href Hp Hch Hh. destruct (frame_queue tid1 (CfConn c (FnSendInLoop msg)) (cl_loop w)) as (Hq & Hc & _).
  cbv zeta. split.
  { unfold referenced, is_unique in *. simpl. rewrite Hq, Hp. rewrite Hp in Href. simpl.
    rewrite andb_false_r. exact Href. }
  unfold drop_conn, obj_at. simpl. rewrite Ho. ok_simpl. rewrite Hc, Hch. ok_simpl. unfold Channel_dtor. rewrite Hh. ok_simpl.
  eexists. split; [done|]. unfold run_next. simpl.
  set (l := rt_delete _ _). pose proof (frame_take l) as Hf.
  destruct (frame_delete (channel_ (ob_conn o)) (rt_queueInLoop tid1 (CfConn c (FnSendInLoop msg)) (cl_loop w))) as (_ & _ & Hpd & _).
  fold l in Hpd. rewrite Hpd, Hq, Hp in Hf. simpl in Hf. destruct Hf as (l' & -> & _).
  simpl. unfold on_conn, enter, obj_at. simpl. by rewrite lookup_delete_eq.
Qed.
End split.

(** ** A client's life on an event loop *)
Definition life_obj (w : cli_W) : addr := fresh (dom (cl_objs w) : gset Z).
Definition life_chan := ClientProps.cli_new_chan.

(** The user sends in the connection callback and disconnects when a message arrives. *)
Definition life_script (u : nat) (tid : Z) (c : addr) (arg : cb_arg) (w : cli_W) : list (cli_action (U := list nat)) :=
  match u with
  | O => [CaConn c (UserSend (str "hi")); CaData (λ log, log ++ [u])]
  | _ => [CaDisconnect; CaData (λ log, log ++ [u])]
  end.
Definition life_start : cli_W :=
  new_client 50 (mkSockaddr AF_INET 80 2) (str "client") (Some 0%nat) (Some 1%nat) None cli_loop_start
    (mkSimNet [2; 1; 0] 10 [] Connector.EINPROGRESS 0) [].
Abbreviation life_user := (scripted_client CbUser life_chan life_script).
Abbreviation life_step := (cli_step big_endian cli_ntop CbUser life_obj life_chan cli_sock life_user).
Abbreviation life_event := (io_event big_endian cli_ntop CbUser life_obj life_chan cli_sock life_user 1).

Lemma life_obj_free (w : cli_W) : cl_objs w !! life_obj w = None.
Proof. apply (not_elem_of_dom (D := gset Z)). exact (is_fresh (dom (cl_objs w) : gset Z)). Qed.

(** Connecting; connected, which the user answers; the connector's channel destroyed; the peer's
    close; the connection out of the poller; the object gone. *)
Definition life (n : nat) : outcome cli_W :=
  foldl (λ m f, w ← m; f w) (Ok life_start) (take n
    [connect CbUser life_chan 1;
     life_event (CcConnector CbHandleWrite) invalid;
     run_next CbUser life_chan life_user 1;
     life_event (CcConn 0 CbRead) invalid;
     run_next CbUser life_chan life_user 1;
     drop_conn 0]).
Definition life_at (n : nat) : cli_W := match life n with Ok w => w | Err _ => life_start end.

Lemma life_ok n : (n <= 6)%nat → life n = Ok (life_at n).
Proof. do 7 (destruct n as [|n]; [vm_compute; reflexivity|]). lia. Qed.

(** What the user and the network see of it. *)
Lemma life_seen :
  establishedConnection_ (cli (life_at 2)) = Some 0 ∧ cl_users (life_at 2) = [0%nat] ∧
  option_map (λ o, sk_sent (ob_sock o)) (cl_objs (life_at 2) !! 0) = Some (str "hi") ∧
  establishedConnection_ (cli (life_at 4)) = None ∧ cl_objs (life_at 6) !! 0 = None ∧
  sn_fds (cl_kern (life_at 6)) = [2; 1; 0].
Proof. vm_compute. by split_and!. Qed.

Lemma life_steps : rtc life_step life_start (life_at 6).
Proof.
  apply (rtc_l _ _ (life_at 1)); [apply (cl_connect _ _ _ _ _ _ _ _ 1); vm_compute; reflexivity|].
  apply (rtc_l _ _ (life_at 2)); [apply (cl_connector _ _ _ _ _ _ _ _ 1 CbHandleWrite invalid); vm_compute; reflexivity|].
  apply (rtc_l _ _ (life_at 3)); [apply (cl_functor _ _ _ _ _ _ _ _ 1); vm_compute; reflexivity|].
  apply (rtc_l _ _ (life_at 4)).
  { destruct (cl_objs (life_at 3) !! 0) as [o|] eqn:Ho; [|vm_compute in Ho; discriminate].
    apply (cl_conn _ _ _ _ _ _ _ _ 1 0 o CbRead invalid); [exact Ho| |vm_compute; reflexivity].
    intros _. vm_compute in Ho. injection Ho as <-. vm_compute. discriminate. }
  apply (rtc_l _ _ (life_at 5)); [apply (cl_functor _ _ _ _ _ _ _ _ 1); vm_compute; reflexivity|].
  apply rtc_once. apply (cl_drop _ _ _ _ _ _ _ _ 0 0); vm_compute; reflexivity.
Qed.

Lemma client_stays_consistent_witness : client_consistent (life_at 6).
Proof.
  exact (client_stays_consistent big_endian cli_ntop CbUser life_obj life_chan cli_sock life_script
    50 (mkSockaddr AF_INET 80 2) (str "client") (Some 0%nat) (Some 1%nat) None cli_loop_start
    (mkSimNet [2; 1; 0] 10 [] Connector.EINPROGRESS 0) [] (life_at 6)
    life_obj_free ClientProps.cli_chan_fresh eq_refl life_steps).
Defined.

(** Thread 2 tests the state of the established connection; the peer closes, and the loop has
    destroyed the connection by the time thread 2 queues. *)
Lemma late_queue_example :
  send_test 0 (life_at 3) = true ∧
  ∃ w2, drop_conn 0 (send_queue 2 0 (str "bye") (life_at 5)) = Ok w2 ∧
    run_next CbUser life_chan life_user 1 w2 ↯ NullPointer.
Proof.
  split; [vm_compute; reflexivity|].
  destruct (cl_objs (life_at 5) !! 0) as [o|] eqn:Ho; [|vm_compute in Ho; discriminate].
  destruct (rt_channel (cl_loop (life_at 5)) (channel_ (ob_conn o))) as [ch|] eqn:Hch.
  2: { vm_compute in Ho. injection Ho as <-. vm_compute in Hch. discriminate. }
  apply (late_queue_dangles CbUser life_chan life_user 2 1 0 (str "bye") o ch (life_at 5) Ho); [vm_compute; reflexivity..|exact Hch|].
  vm_compute in Ho. injection Ho as <-. vm_compute in Hch. injection Hch as <-. reflexivity.
Qed.
